(* ===== verification/_CoqProject ===== *)
-Q . S2P
Prelude.v
Words.v
Io.v
Ebml.v
Mkv.v
ViewerProtocol.v
Codec.v
Messages.v
Sys.v
Quota.v
Registry.v
RegistryOps.v
RegistryInv.v
RegistryProps.v
RegistryIdle.v
Server.v
ServerProps.v
Lifecycle.v
Composite.v
Floats.v
Pixels.v
Session.v
SessionInput.v
SessionRecord.v
Compositor.v
SessionFocus.v
SessionBuffers.v
Control.v
ControlProps.v
InputBridge.v
InputBridgeProps.v
OuterView.v
OuterViewProps.v
SessionRun.v
Decimal.v
Recorder.v
Ffmpeg.v
RecorderProps.v
FfmpegProps.v
AnnexB.v
H264.v
H264Props.v
ViewerEncoder.v
ViewerEncoderProps.v
Json.v
Mcp.v
McpProps.v
Client.v
ClientProps.v
ClientCmd.v
ClientCmdProps.v
Driver.v
Nvenc.v
Cuda.v
CudaProps.v
CudaViewer.v
Libav.v
LibavVk.v
LibavProps.v
LibavVkProps.v
LibavImages.v
Vaapi.v
VaapiProps.v
VaapiViewer.v
Dmabuf.v
DmabufParams.v
DmabufProps.v
DmabufReads.v
DmabufParamsProps.v
Vulkan.v
VulkanFrames.v
VulkanProps.v
VulkanLife.v
VulkanRecorder.v
