(* ===== verification/Prelude.v ===== *)
(** * Waymux: a verification development

    Waymux runs graphical sessions without a display. A daemon owns a registry
    of sessions; each session is a process of its own (a nested Wayland
    compositor) that the daemon starts, caps, supervises and talks to over a
    control socket; clients of the daemon send framed requests on a Unix socket
    and may subscribe to events; a session records its output into Matroska
    files and streams it to a viewer over a second framed protocol. A
    command-line client speaks to the daemon (or to a remote endpoint), and an
    MCP server offers the client's commands as tools to agents. This development
    models these programs from the Rust sources under [src/crates] and proves
    the properties that make them correct.

    ** How the model relates to the code

    - Integers are [Z] with their width written out ([Words]): [as_u], [as_s],
      saturating operations, big- and little-endian byte lists, and the two
      roundings of the only [f64] computation, which is on whole milliseconds.
    - A fallible function returns [result]; a method that takes [&mut self] and
      returns [Result] is [Eff S E A], a state passed explicitly with the error
      as a value ([Prelude]); the state after an error is part of the result.
    - [std::io::Write] and [Seek] are classes with laws ([Io]), with an
      in-memory file, possibly of bounded capacity, as their instance.
    - The operating system is the class [Env] ([Sys]): a command is a
      constructor of [syscall] with the type of its answer, the answer may
      depend on everything that was asked before, and every call is recorded in
      the trace. Theorems hold for every [Env]; [good_env] is one.
    - The msgpack serializer (serde, rmp-serde, rmpv) is not part of the
      repository: it is the classes [Serde] and [MsgPack], with their round-trip
      laws ([SerdeLaws], [WireLaws]) as hypotheses where a theorem needs them
      and concrete instances in the witnesses.
    - Spawned tasks are recorded in the registry's task list by the operation
      that spawns them and are definitions of their own; kill channels, log
      histories and control connections, which are shared behind an [Arc], live
      in stores of the registry and are referred to by address.
    - Graphics drivers are programs over recorded calls ([Driver]): a call is a
      constructor with the type of its answer, a driver is any function from the
      calls made so far to an answer, and code that fails part of the way is
      followed to the end with what it has released by then. Each call has an
      effect on a multiset of resources (contexts, images, descriptors, mapped
      memory); [safe] is a triple over that multiset: nothing is used or released
      that is not held, and what is left at the end is what the triple says.
      The memory of Rust itself is not counted (the array of extension names that
      [vk_device] forgets on purpose, for instance).
    - An operation of the session or of the registry is a whole step. The sources
      take several locks one after the other in some of them: [inject_key] and
      [register_surface] send after the focus and the tables were read,
      [release_inner_buffer] releases after it has looked for holds, [tag_window]
      waits for the session before it stores the tags. What can happen in between is
      covered for [create] (three parts, [Lifecycle]) and for [tag_window]
      ([RegistryInv.late_tag_orphaned]); for the others it is not: there a key can
      follow a leave and a buffer can be released just as a hold is registered.
    - Logging is left out, except for the line a log drainer mirrors to stderr.

    ** Files

    - [Prelude]: [result], the [Eff] monad, tactics, the hint database
      [waymux], lemmas on lists and maps.
    - [Words], [Io]: machine integers and byte encodings; writers.
    - [Ebml], [Mkv] ([waymux-mux-mkv/src/ebml.rs], [lib.rs]): the EBML
      primitives and the streaming Matroska writer, with a reference reader and
      demuxer that is independent of the writer.
    - [ViewerProtocol] ([waymux-session/src/viewer/protocol.rs]): frames
      between a session and its viewer.
    - [Codec], [Messages] ([waymux-protocol/src/codec.rs], [messages.rs]):
      length-prefixed frames, the requests, responses and events; [Codec] also
      has [read_frame] of the daemon's server.
    - [Sys]: strings, paths and the operating system.
    - [Quota] ([waymux-daemon/src/cgroup.rs], [quota.rs]): cgroup leaf, tmpfs
      quota, descriptor limit.
    - [Registry], [RegistryOps] ([waymux-daemon/src/registry.rs]): the state of
      the registry; creation, destruction, shutdown and supervision; spawned
      clients, logs, the control connection and everything built on it, the
      event forwarder. [create] is [create_check], [create_prepare] and
      [create_commit], the parts between which the lock is released.
    - [RegistryInv]: a calculus of preconditions for [Eff] and the invariant of
      the registry over arbitrary sequences of operations.
    - [RegistryProps], [RegistryIdle]: what each operation does.
    - [Server], [ServerProps] ([waymux-daemon/src/server.rs],
      [backend/mod.rs], [backend/local.rs]): the hello gate, the dispatcher, subscriptions and the
      reader and writer tasks of a connection, over the interface
      [SessionBackend], which [LocalBackend] implements by the registry.
    - [Lifecycle]: creations, destructions and supervisors interleaved.
    - [Composite] ([waymux-session/src/composite.rs], [buffer.rs], and parts of
      [shm.rs] and [compositor.rs]): buffers, surfaces with their children and
      viewports, the two blits and the composition of a surface tree.
    - [Floats], [Pixels] ([recording.rs], [viewer/cursor.rs], [control.rs]):
      binary floating point for input coordinates; packing, NV12 conversion,
      cursor images, the samples of a screenshot.
    - [Session], [SessionInput], [SessionRecord] ([state.rs], [recording.rs],
      [viewer/cursor.rs], [events.rs]): the state of a session and its
      operations: windows and focus, clipboard, deferred releases and holds;
      injected input and captures; the latest-only slot and the tap that feeds
      the encoders. Wayland objects are ids, the shared ones live in stores of
      the state, and everything the session does to the outside is appended to
      the log [out].
    - [Compositor] ([compositor.rs], [attach_server.rs]): the request handlers
      that change the session, a round of the loop, attaching and detaching.
    - [Control], [ControlProps] ([control.rs], [recording.rs],
      [viewer/encoder.rs], [viewer/bridge.rs]): the session's end of the control
      socket, over the class [CtlEnv] of its surroundings.
    - [InputBridge], [InputBridgeProps] ([input_bridge.rs]): input of the host
      on its way to the session.
    - [OuterView], [OuterViewProps] ([outer_view.rs]): the attached view, its
      buffers, pacing and forwarding.
    - [SessionFocus], [SessionBuffers], [SessionRun]: the invariants of focus
      and of buffer holds, and the step relation of a whole session over which
      they hold.
    - [Decimal]: printing and parsing of decimal numbers.
    - [Recorder], [RecorderProps], [Ffmpeg], [FfmpegProps] ([recording.rs]): the
      five recording threads, from the first frame to the finished file: the
      in-process ones over the muxer, the one that feeds ffmpeg with its
      arguments, its raw stream, the bounded channel and thread that write it,
      and the shutdown that waits for both.
    - [AnnexB] ([viewer/encoder.rs]): the thread that cuts ffmpeg's output into
      the frames a viewer is sent.
    - [H264], [H264Props] ([vulkan_record.rs]): the Vulkan H.264 encoder over the
      class [Gpu] of driver answers: choice of a device, parameter sets, codec
      private data, picture parameters and reference slots.
    - [ViewerEncoder], [ViewerEncoderProps] ([viewer/encoder.rs]): the four
      encoder threads of a viewer, their pacing, keyframes and rate control, and
      the reader of the viewer's requests.
    - [Json]: JSON values; their text is the class [JsonText].
    - [Mcp], [McpProps] ([waymux-mcp/src/registry.rs], [exec.rs], [server.rs]):
      the table of tools with their schemas, the command lines built of calls,
      and the JSON-RPC loop.
    - [Client], [ClientProps] ([waymux-cli/src/connection.rs], errors of
      [main.rs]): the client's connection over the interface [Peer], and the
      daemon of [Server] as its instance.
    - [ClientCmd], [ClientCmdProps] ([waymux-cli/src/main.rs], [transport.rs],
      [daemon.rs], [credentials.rs]): the commands, their routing over the two
      instances of the record [Transport], and what they print.
    - [Driver]: programs over the calls of a driver, their runs and triples.
    - [Nvenc], [Cuda], [CudaProps], [CudaViewer] ([cuda_nvenc_record.rs],
      [cuda_nv12_csc.cu]): the calls of CUDA, EGL and NVENC, the colour kernel,
      the recorder with its session, contexts and maps, and a viewer's run of it.
    - [Libav], [LibavVk], [LibavProps], [LibavVkProps], [LibavImages]
      ([hevc_vk_record.rs], [ffv1_vk_record.rs]): the encoders that go through
      libav on Vulkan images, with packets, reference-counted contexts, image
      layouts and semaphore values.
    - [Vaapi], [VaapiProps], [VaapiViewer] ([vaapi_h264_record.rs]): the VAAPI
      encoder, its filter graph for dmabufs and its reopening at a new rate.
    - [Dmabuf], [DmabufProps], [DmabufReads] ([dmabuf.rs]): fences, the
      synchronisation guard, the three ways of reading a dmabuf back, modifiers.
    - [DmabufParams], [DmabufParamsProps] ([compositor.rs], [dmabuf.rs],
      [shm.rs]): parameter objects and their descriptors, the format table,
      feedback, single-pixel buffers and shared-memory pools.
    - [Vulkan], [VulkanFrames] ([vulkan_record.rs]): what the Vulkan encoder
      creates once (device, video session, colour pipeline, images and buffers)
      with its drops; imports and uploads, the two command buffers of a picture,
      the Main and the lossless recorder. [H264] has the decisions, these files
      the calls.
    - [VulkanProps], [VulkanLife], [VulkanRecorder]: the objects that are alive
      through openings, pictures and the whole life of a recorder.

    ** What is shown

    - Recording: a recorded file demuxes to exactly the frames written, with
      timestamps, flags, header and duration; what a failed write leaves
      behind; where EBML sizes stop being representable.
    - Protocols: both framed protocols read back what was written, frame by
      frame and as streams; the viewer's reader accepts only canonical frames and
      stops at the first frame of more than 1 MiB, which the writer does send.
    - Registry: a global invariant, preserved by every operation in every
      environment; the exact effect of creation, destruction, shutdown, client
      exit, resizing, tagging and log draining; the confinement of spawned
      clients; the recovery of control connections whose peer is gone;
      termination of [wait_for_idle].
    - Server: one response per request, in order, for every backend, and how much
      of the queue the writer brings to the client; nothing before hello; error
      codes; replay and delivery to subscribers.
    - Lifecycle: no session is killed unless it was destroyed, provided a name
      is reused only after the supervisor of its earlier session has finished;
      and a run of the registry without that proviso in which a new session is.
    - Compositing: each pixel of a captured window is what the painter's list of
      its surface tree says, for every pixel and every tree of surfaces the code
      handles; restacking; and three requests of a client that it does not guard
      against.
    - Session: over every order of client requests, control commands, steps of the
      attached view and of encoder threads, keys reach only keyboards that were told
      they have the focus and buffers are not given back while they are read; a
      key is delivered exactly when it can be.
    - Session control: requests are answered in order; recordings stay inside
      their directory, start when nothing stands in the way and stop feeding
      their encoders; stopping the viewer ends; screenshots show the composited
      pixels.
    - Attached view and input: frames are paced by the host's callbacks, forwarded
      buffers come back, no key stays down after the keyboard has left, requests
      to the host are well formed; a buffer forwarded while the session records is
      never given back; and the runs in which the view freezes or a key does stay
      down.
    - Pixels: converting a strided frame is packing and converting; the range of
      the result.
    - Recording threads: the file of an H.264 recording is exactly what the
      encoder answered to the calls of a reference; what is sent to ffmpeg has
      the format of its arguments; the threads stop when told to, the one that
      feeds ffmpeg unless ffmpeg neither reads nor exits; a paced recording keeps
      its rate.
    - Encoders: pictures refer to the one before them as long as none fails, and
      a run in which one does; the sizes the parameter sets declare; the private
      data reads back to the parameter sets; a viewer's stream starts with a
      keyframe and has one at least every twelve frames; bounds of the rate
      control; the pictures of ffmpeg arrive whole and in order, a frame for each
      of their slices, however its output is cut; and the runs in which a request for a keyframe is lost and a
      resized window is taken for a broken GPU.
    - Drivers: whatever the driver answers, the CUDA, libav and VAAPI encoders
      use and release only what they hold and give everything back when they are
      dropped, after any sequence of frames, resizings and rate changes; so does
      the Vulkan encoder when it opened, but for the pictures that failed with
      one of the listed errors, which leave objects behind, as the runs at the
      end of [VulkanRecorder] show; the
      images libav encodes are in the layout that was declared, and the semaphore
      value is signalled on the first image's semaphore (on a second one of its own
      it never is); and the runs in which a command buffer is reset while it is
      pending, a semaphore is waited for that nothing signals, every dmabuf is
      refused, an old picture returns or a raised rate is ignored.
    - Dmabufs and pools: a readback returns what it took when GBM's mapping has
      the rows it was asked for; what a longer mapping leaves behind, and what a
      panic over shorter rows does; a plane's descriptor is owned by exactly one object
      at any time; the format table reads back; pools read what is in the file;
      the short strides that overflow the readback's buffer; a short file kills
      the session.
    - Client and MCP server: over the daemon of [Server], every request returns
      the response made to it and no event is lost; one envelope per command,
      under the code of the daemon's error; remote commands stay remote; path
      checks of client and session agree; starting the daemon ends; the MCP
      server answers line by line, runs nothing but the client with the verbs of
      its table, and accepts what its schemas allow except floats that stand for
      integers and empty arrays.

    ** Fuel and bounds

    Loops over a stream ([Server.reader_loop], [RegistryOps.forward_frames],
    the demuxer's [read_clusters]) take as fuel one more than the length of the
    stream; every iteration consumes at least one byte, so it is enough, and the
    theorems state the results themselves. [Server.idle_fuel] is
    [timeout_ms / 10 + 2] polls: each poll sleeps 10 ms, so on a clock that
    advances by what was slept the loop ends earlier ([wait_for_idle_ends]); the
    clock is the hypothesis [clock_advances] of [one_response_per_request].
    [Composite.composite_into] takes the depth of the stack as fuel: more than
    the rank of the root is enough when the surfaces form a tree, and no depth is
    enough when they do not.
    [Control.poll_child] polls once per 100 ms until two seconds have passed: 21
    polls are enough on a clock that advances by what was slept
    ([viewer_stop_ends]). Operations of the session that composite take the same
    fuel. Counters of holds are [u32]: a step that takes holds requires room for
    the at most three a commit takes, and window ids are assumed not to run out.
    Threads of recorders and viewers run over a list with what each turn of their
    loop meets (task, clock readings, flags); a run that outlives the list has no
    result, and the liveness theorems say which turns end it. The splitters of
    [AnnexB] and [H264] and the readers of the viewer's requests, of MCP lines
    and of the client's frames take the length of their input (plus one) as fuel,
    as each round consumes a byte at least. [ClientCmd.spawn_fuel] is 122 looks at the
    socket: they are 25 ms apart and end after three seconds ([autospawn_ends]).
    The loops that drain an encoder's packets take more than the packets it can
    hold (the hypothesis [bounded_delay] of libav's encoders) and the loop over
    [glGetError] more than the error flags of GL ([gl_errors_end]).
    Sizes are those of the code: 20 MiB control frames, 1 MiB viewer payloads,
    1024 retained log lines, 1024 events of backlog.

    ** Not modelled

    Of [vulkan_record.rs] the test and debug entry points ([run_compute_only],
    [encode_idr_synthetic], [dump_yuv444_picture_planes] and the like) and the
    probe's report; constants that are the same at every place (pipeline stages,
    sample counts). The threads that record and serve viewers see that encoder as
    the class [Gpu]. Shaders other than the CUDA colour kernel, and what the
    drivers do behind their calls. The [metering] feature of the daemon, which is off by
    default; Wayland globals that answer with constants and keep nothing; polling
    and socket set-up; argument parsing by clap and the minting of viewer tokens,
    which is calls of a signing library; audio and the processes' entry points,
    which start other programs; the attach client, which passes descriptors on;
    and the browser bridge, which is a Go program. *)

From stdpp Require Import prelude strings gmap list.
From Stdlib Require Import ZArith Lia.

(** ** Fallible computations: Rust's [Result<T, E>] *)

Inductive result (A E : Type) : Type :=
| Ok (a : A)
| Err (e : E).
Arguments Ok {A E} a.
Arguments Err {A E} e.

Declare Scope waymux_scope.
Delimit Scope waymux_scope with waymux.
Open Scope waymux_scope.

(** The [?] operator: continue with the payload, or return the error. *)
Notation "'let?' x ':=' m 'in' k" :=
  (match m with Ok x => k | Err e => Err e end)
  (at level 10, x pattern, m at level 100, k at level 200)
  : waymux_scope.

Definition result_is_ok {A E} (r : result A E) : bool :=
  match r with Ok _ => true | Err _ => false end.

#[global] Instance result_eq_dec {A E} `{EqDecision A, EqDecision E} :
  EqDecision (result A E).
Proof. solve_decision. Defined.

(** ** Computations with a state and errors

    A computation borrows a state [S] mutably and returns a [Result]: the state
    after it is there in both cases, as in Rust. *)

Definition Eff (S E A : Type) : Type := S -> S * result A E.

#[global] Instance eff_mret S E : MRet (Eff S E) := fun _ a s => (s, Ok a).
#[global] Instance eff_mbind S E : MBind (Eff S E) := fun _ _ k m s =>
  match m s with
  | (s', Ok a) => k a s'
  | (s', Err e) => (s', Err e)
  end.

(** A pure fallible step. *)
Definition lift {S E A} (r : result A E) : Eff S E A := fun s => (s, r).

(** [match m.await { Ok(a) => .., Err(e) => .. }]. *)
Definition eff_match {S E A B} (m : Eff S E A) (k : A -> Eff S E B) (h : E -> Eff S E B) :
    Eff S E B := fun s =>
  match m s with
  | (s', Ok a) => k a s'
  | (s', Err e) => h e s'
  end.

Lemma eff_bind_ok {S E A B} (m : Eff S E A) (k : A -> Eff S E B) s s' a :
  m s = (s', Ok a) -> (m ≫= k) s = k a s'.
Proof. intros H. unfold mbind, eff_mbind. by rewrite H. Qed.

Lemma eff_bind_err {S E A B} (m : Eff S E A) (k : A -> Eff S E B) s s' e :
  m s = (s', Err e) -> (m ≫= k) s = (s', Err e).
Proof. intros H. unfold mbind, eff_mbind. by rewrite H. Qed.

Lemma eff_bind_ext {S E A B} (m : Eff S E A) (k1 k2 : A -> Eff S E B) s :
  (forall a s', k1 a s' = k2 a s') -> (m ≫= k1) s = (m ≫= k2) s.
Proof. intros H. unfold mbind, eff_mbind. destruct (m s) as [s' [a|e]]; auto. Qed.

Lemma ok_inj {S E A} (s s' : S) (a a' : A) :
  (s, Ok (E := E) a) = (s', Ok a') -> s = s' /\ a = a'.
Proof. by intros [= -> ->]. Qed.

Lemma err_inj {S E A} (s s' : S) (e e' : E) :
  (s, Err (A := A) e) = (s', Err e') -> s = s' /\ e = e'.
Proof. by intros [= -> ->]. Qed.

(** ** Automation *)

(** The hint database of the development: the lemmas that close the routine
    side conditions (byte ranges, lengths). *)
Create HintDb waymux discriminated.
Create Rewrite HintDb waymux_len.

(** Case analysis on the innermost [match]/[if] of the goal, keeping the
    equation. *)
Ltac case_goal :=
  match goal with
  | |- context [match ?x with _ => _ end] =>
      lazymatch x with
      | context [match _ with _ => _ end] => fail
      | _ => let E := fresh "E" in destruct x eqn:E
      end
  end.

(** The same in a hypothesis. *)
Ltac case_hyp H :=
  match type of H with
  | context [match ?x with _ => _ end] =>
      lazymatch x with
      | context [match _ with _ => _ end] => fail
      | _ => let E := fresh "E" in destruct x eqn:E
      end
  end.

(** Turn every boolean comparison on [Z] or [nat] into its proposition. *)
Ltac boolz :=
  repeat match goal with
  | H : (_ && _)%bool = true |- _ => apply andb_true_iff in H as [? ?]
  | H : (_ || _)%bool = false |- _ => apply orb_false_iff in H as [? ?]
  | H : (_ && _)%bool = false |- _ => apply andb_false_iff in H
  | H : (_ || _)%bool = true |- _ => apply orb_true_iff in H
  | H : negb _ = true |- _ => apply negb_true_iff in H
  | H : negb _ = false |- _ => apply negb_false_iff in H
  | H : (_ <? _)%Z = true |- _ => apply Z.ltb_lt in H
  | H : (_ <? _)%Z = false |- _ => apply Z.ltb_ge in H
  | H : (_ <=? _)%Z = true |- _ => apply Z.leb_le in H
  | H : (_ <=? _)%Z = false |- _ => apply Z.leb_gt in H
  | H : (_ =? _)%Z = true |- _ => apply Z.eqb_eq in H
  | H : (_ =? _)%Z = false |- _ => apply Z.eqb_neq in H
  | H : (_ =? _)%nat = true |- _ => apply Nat.eqb_eq in H
  | H : (_ =? _)%nat = false |- _ => apply Nat.eqb_neq in H
  | H : (_ <=? _)%nat = true |- _ => apply Nat.leb_le in H
  | H : (_ <=? _)%nat = false |- _ => apply Nat.leb_gt in H
  | H : (_ <? _)%nat = true |- _ => apply Nat.ltb_lt in H
  | H : (_ <? _)%nat = false |- _ => apply Nat.ltb_ge in H
  end.

(** ** Updating one field of a record

    [r <| p := v |>] and [r <| p ::= f |>] are Rust's assignments to a field. A
    record is made updatable by an instance of [Eta], which rebuilds it from its
    fields; the setter of a projection is then found by replacing it there. *)

Class Eta (R : Type) := eta : R -> R.
Class Setter {R T : Type} (p : R -> T) := set_field : (T -> T) -> R -> R.
Arguments set_field {R T} p {_} f r.

Ltac make_setter :=
  match goal with
  | |- @Setter ?R ?T ?p =>
      let f := fresh "f" in
      let r := fresh "r" in
      unfold Setter; intros f r;
      let e := eval hnf in (@eta R _ r) in
      lazymatch e with
      | context [p r] =>
          lazymatch eval pattern (p r) in e with
          | ?g _ => let v := eval cbv beta in (g (f (p r))) in exact v
          end
      end
  end.
#[export] Hint Extern 1 (Setter _) => make_setter : typeclass_instances.

Notation "s <| p ::= f |>" := (set_field p f s)
  (at level 1, left associativity, p at level 9, f at level 200) : waymux_scope.
Notation "s <| p := v |>" := (set_field p (fun _ => v) s)
  (at level 1, left associativity, p at level 9, v at level 200) : waymux_scope.

(** [for a in l { f(a) }] on a state. *)
Definition for_each {A S} (l : list A) (f : A -> S -> S) (s : S) : S :=
  foldl (fun s a => f a s) s l.

(** A loop preserves what every round preserves. *)
Lemma for_each_inv {A S} (P : S -> Prop) (l : list A) (f : A -> S -> S) s :
  P s -> (forall a s, a ∈ l -> P s -> P (f a s)) -> P (for_each l f s).
Proof.
  revert s. induction l as [|a l IH]; intros s H Hf; [done|].
  cbn. apply IH; [apply Hf; [left|done]|]. intros b t Hb. apply Hf. by right.
Qed.

(** ** Lists *)

Lemma take_app_exact {A} (n : nat) (l k : list A) :
  length l = n -> take n (l ++ k) = l.
Proof. intros <-. apply take_app_length. Qed.

Lemma drop_app_exact {A} (n : nat) (l k : list A) :
  length l = n -> drop n (l ++ k) = k.
Proof. intros <-. apply drop_app_length. Qed.

Lemma existsb_exists_false {A} (f : A -> bool) l a :
  existsb f l = false -> In a l -> f a = true -> False.
Proof.
  intros E Ha Hf. assert (existsb f l = true); [|congruence].
  apply existsb_exists. eauto.
Qed.

(** [Vec::truncate]. *)
Definition truncate {A} (n : nat) (l : list A) : list A := take n l.

(** Overwrite [l] from index [i] with [ys], growing the list when the write
    runs past its end (a file or cursor write). [i] is at most the length. *)
Definition overwrite {A} (i : nat) (ys l : list A) : list A :=
  take i l ++ ys ++ drop (i + length ys) l.

Lemma overwrite_app {A} (l ys : list A) :
  overwrite (length l) ys l = l ++ ys.
Proof.
  unfold overwrite.
  rewrite take_ge by lia. rewrite drop_ge by lia. by rewrite app_nil_r.
Qed.

Lemma length_overwrite {A} (i : nat) (ys l : list A) :
  (i + length ys <= length l)%nat -> length (overwrite i ys l) = length l.
Proof.
  intros H. unfold overwrite.
  rewrite !length_app, length_take, length_drop. lia.
Qed.

Lemma overwrite_overwrite {A} (i : nat) (xs ys l : list A) :
  (i <= length l)%nat ->
  overwrite (i + length xs) ys (overwrite i xs l) = overwrite i (xs ++ ys) l.
Proof.
  intros H. unfold overwrite.
  assert (Ha : length (take i l) = i) by (rewrite length_take; lia).
  set (a := take i l) in *.
  set (d := drop (i + length xs) l).
  replace (a ++ xs ++ d) with ((a ++ xs) ++ d) by (by rewrite <- app_assoc).
  assert (Hax : length (a ++ xs) = (i + length xs)%nat)
    by (rewrite length_app; lia).
  rewrite take_app_exact by done.
  rewrite <- !app_assoc. do 3 f_equal.
  rewrite (app_assoc a xs), drop_app_ge by lia.
  unfold d. rewrite drop_drop, Hax, length_app. f_equal. lia.
Qed.

Lemma overwrite_inside {A} (pre old new post : list A) :
  length old = length new ->
  overwrite (length pre) new (pre ++ old ++ post) = pre ++ new ++ post.
Proof.
  intros H. unfold overwrite. rewrite take_app_length. do 2 f_equal.
  rewrite drop_app_ge by lia.
  replace (length pre + length new - length pre)%nat with (length old) by lia.
  by rewrite drop_app_length.
Qed.

(** The last [n] elements of a list, in order. *)
Definition last_n {A} (n : nat) (l : list A) : list A := drop (length l - n) l.

Lemma length_last_n {A} n (l : list A) : length (last_n n l) = min n (length l).
Proof. unfold last_n. rewrite length_drop. lia. Qed.

Lemma last_n_snoc {A} n (l : list A) x :
  (0 < n)%nat ->
  last_n n (l ++ [x]) =
    (if decide (n <= length (last_n n l))%nat
     then drop 1 (last_n n l) else last_n n l) ++ [x].
Proof.
  intros Hn. unfold last_n. rewrite length_app, length_drop. simpl.
  case_decide as D.
  - rewrite drop_drop, drop_app_le by lia. do 2 f_equal. lia.
  - replace (length l - n)%nat with 0%nat by lia.
    replace (length l + 1 - n)%nat with 0%nat by lia. done.
Qed.

(** Updating the value that is there. *)
Lemma insert_alter {K A} `{Countable K} (m : gmap K A) k f a :
  m !! k = Some a -> <[k := f a]> m = alter f k m.
Proof.
  intros E. apply map_eq. intros n. rewrite lookup_insert, lookup_alter.
  case_decide; subst; [by rewrite E | done].
Qed.

#[export] Hint Rewrite @length_app @length_take @length_drop @length_replicate : waymux_len.
