(* ===== verification/Words.v ===== *)
(** * Machine words and byte encodings

    The fixed-width integers the crates use, as [Z] with their range and
    wrap-around written out; Rust's [to_be_bytes]/[to_le_bytes] and their
    inverses on byte lists; and the conversion of an integer to an IEEE-754
    double ([as f64], [+], [f64::to_be_bytes]) as far as the muxer uses it. *)

From S2P Require Import Prelude.
From stdpp Require Import prelude list strings.
From Stdlib Require Import ZArith Lia.

Open Scope Z_scope.

(** ** Ranges *)

Definition in_u (w z : Z) : Prop := 0 <= z < 2 ^ w.
Definition in_s (w z : Z) : Prop := - 2 ^ (w - 1) <= z < 2 ^ (w - 1).

(** [z as uN] and [z as iN]. *)
Definition as_u (w z : Z) : Z := z mod 2 ^ w.
Definition as_s (w z : Z) : Z := (z + 2 ^ (w - 1)) mod 2 ^ w - 2 ^ (w - 1).

(** [u64::saturating_sub], [saturating_mul], [saturating_add]. *)
Definition sat_sub (a b : Z) : Z := Z.max 0 (a - b).
Definition sat_u64 (z : Z) : Z := Z.min z (2 ^ 64 - 1).

Definition is_byte (b : Z) : Prop := 0 <= b < 256.
Abbreviation is_bytes := (Forall is_byte).

#[global] Instance in_u_dec w z : Decision (in_u w z).
Proof. unfold in_u. apply _. Defined.
#[global] Instance in_s_dec w z : Decision (in_s w z).
Proof. unfold in_s. apply _. Defined.
#[global] Instance is_byte_dec b : Decision (is_byte b).
Proof. unfold is_byte. apply _. Defined.

Lemma as_u_id w z : in_u w z -> as_u w z = z.
Proof. intros H. by apply Z.mod_small. Qed.

Lemma as_s_id w z : 0 < w -> in_s w z -> as_s w z = z.
Proof.
  unfold in_s, as_s. intros Hw H.
  assert (E : 2 ^ w = 2 * 2 ^ (w - 1)).
  { rewrite <- Z.pow_succ_r by lia. f_equal. lia. }
  rewrite Z.mod_small by lia. lia.
Qed.

Lemma as_u_range w z : 0 <= w -> in_u w (as_u w z).
Proof. intros H. apply Z.mod_pos_bound. lia. Qed.

(** ** Little- and big-endian byte lists *)

(** [to_le n z]: the [n] low bytes of [z], least significant first. *)
Fixpoint to_le (n : nat) (z : Z) : list Z :=
  match n with
  | O => []
  | S n' => z mod 256 :: to_le n' (z / 256)
  end.

Fixpoint from_le (l : list Z) : Z :=
  match l with
  | [] => 0
  | b :: l' => b + 256 * from_le l'
  end.

Definition to_be (n : nat) (z : Z) : list Z := rev (to_le n z).
Definition from_be (l : list Z) : Z := from_le (rev l).

Lemma length_to_le n z : length (to_le n z) = n.
Proof. revert z. induction n as [|n IH]; intros z; simpl; [done | by rewrite IH]. Qed.

Lemma length_to_be n z : length (to_be n z) = n.
Proof. unfold to_be. by rewrite length_rev, length_to_le. Qed.

Lemma to_le_bytes n z : is_bytes (to_le n z).
Proof.
  revert z. induction n as [|n IH]; intros z; simpl; constructor; [|apply IH].
  apply Z.mod_pos_bound. lia.
Qed.

Lemma is_bytes_rev l : is_bytes l -> is_bytes (rev l).
Proof. rewrite !List.Forall_forall. intros H x Hx. apply H. by apply in_rev. Qed.

Lemma to_be_bytes n z : is_bytes (to_be n z).
Proof. apply is_bytes_rev, to_le_bytes. Qed.

Lemma pow256_succ n : 256 ^ Z.of_nat (S n) = 256 * 256 ^ Z.of_nat n.
Proof. rewrite Nat2Z.inj_succ, Z.pow_succ_r; lia. Qed.

Lemma from_le_to_le n z : from_le (to_le n z) = z mod 256 ^ Z.of_nat n.
Proof.
  revert z. induction n as [|n IH]; intros z.
  { simpl. by rewrite Z.mod_1_r. }
  cbn [to_le from_le]. rewrite IH, pow256_succ.
  rewrite (Z.rem_mul_r z 256 (256 ^ Z.of_nat n)); [lia | lia |].
  apply Z.pow_pos_nonneg; lia.
Qed.

Lemma from_le_range l : is_bytes l -> 0 <= from_le l < 256 ^ Z.of_nat (length l).
Proof.
  induction 1 as [|b l Hb Hl IH]; [simpl; lia|].
  cbn [from_le]. unfold is_byte in Hb. cbn [length]. rewrite pow256_succ. lia.
Qed.

Lemma to_le_from_le l : is_bytes l -> to_le (length l) (from_le l) = l.
Proof.
  induction 1 as [|b l Hb Hl IH]; [done|].
  unfold is_byte in Hb. cbn [length to_le from_le].
  replace (b + 256 * from_le l) with (b + from_le l * 256) by lia.
  rewrite Z.mod_add, Z.mod_small by lia.
  rewrite Z.div_add, Z.div_small by lia.
  by rewrite Z.add_0_l, IH.
Qed.

Lemma from_be_to_be n z : from_be (to_be n z) = z mod 256 ^ Z.of_nat n.
Proof. unfold from_be, to_be. rewrite rev_involutive. apply from_le_to_le. Qed.

Lemma from_be_range l : is_bytes l -> 0 <= from_be l < 256 ^ Z.of_nat (length l).
Proof.
  intros H. unfold from_be.
  pose proof (from_le_range (rev l) (is_bytes_rev l H)) as R.
  by rewrite length_rev in R.
Qed.

(** Dropping the leading bytes of a big-endian encoding keeps its low bytes:
    the [&raw\[offset..\]] idiom of the EBML writers. *)
Lemma take_to_le n m z : (n <= m)%nat -> take n (to_le m z) = to_le n z.
Proof.
  revert m z. induction n as [|n IH]; intros m z H; [done|].
  destruct m as [|m]; [lia|]. simpl. f_equal. apply IH. lia.
Qed.

Lemma drop_to_be n m z : (n <= m)%nat -> drop (m - n) (to_be m z) = to_be n z.
Proof.
  intros H. unfold to_be. rewrite skipn_rev, length_to_le.
  replace (m - (m - n))%nat with n by lia. by rewrite take_to_le.
Qed.

(** The first byte of a big-endian encoding is the most significant one. *)
Lemma to_le_snoc n z :
  to_le (S n) z = to_le n z ++ [(z / 256 ^ Z.of_nat n) mod 256].
Proof.
  revert z. induction n as [|n IH]; intros z.
  { simpl. by rewrite Z.div_1_r. }
  change (to_le (S (S n)) z) with (z mod 256 :: to_le (S n) (z / 256)).
  rewrite IH. simpl. do 2 f_equal. f_equal. f_equal.
  rewrite pow256_succ. rewrite Z.div_div; [done | lia |].
  apply Z.pow_pos_nonneg; lia.
Qed.

Lemma to_be_cons n z :
  to_be (S n) z = (z / 256 ^ Z.of_nat n) mod 256 :: to_be n z.
Proof. unfold to_be. rewrite to_le_snoc. apply rev_app_distr. Qed.

#[export] Hint Resolve to_le_bytes to_be_bytes is_bytes_rev : waymux.

(** ** Doubles of integers *)

(** Round a non-negative integer to 53 significant bits, ties to even: what
    [as f64] does to an integer and what an f64 addition does to the exact sum
    of two integers. *)
Definition round53 (n : Z) : Z :=
  let e := Z.log2 n in
  if e <=? 52 then n
  else
    let u := 2 ^ (e - 52) in
    let q := n / u in
    let r := n mod u in
    if (2 * r <? u) || ((2 * r =? u) && Z.even q) then q * u else (q + 1) * u.

(** The bit pattern of a non-negative integer that has at most 53 significant
    bits: biased exponent and 52-bit fraction. *)
Definition f64_bits (n : Z) : Z :=
  if n =? 0 then 0
  else
    let e := Z.log2 n in
    let frac := if e <=? 52 then (n - 2 ^ e) * 2 ^ (52 - e)
                else (n - 2 ^ e) / 2 ^ (e - 52) in
    (e + 1023) * 2 ^ 52 + frac.

(** The integer a pattern of that shape denotes. *)
Definition f64_int_value (b : Z) : Z :=
  if b =? 0 then 0
  else
    let e := b / 2 ^ 52 - 1023 in
    let m := 2 ^ 52 + b mod 2 ^ 52 in
    if e <=? 52 then m / 2 ^ (52 - e) else m * 2 ^ (e - 52).

Lemma round53_id n : n < 2 ^ 53 -> round53 n = n.
Proof.
  intros H. unfold round53.
  destruct (Z.leb_spec (Z.log2 n) 52) as [|L]; [done|].
  destruct (Z.le_gt_cases n 0) as [N|N].
  { rewrite Z.log2_nonpos in L by done. lia. }
  apply Z.log2_lt_pow2 in H; lia.
Qed.

(** The exponent and the fraction of a positive integer below [2^53]. *)
Lemma f64_parts n :
  0 < n < 2 ^ 53 ->
  let e := Z.log2 n in
  0 <= e <= 52 /\ 0 < 2 ^ (52 - e) /\ 2 ^ e * 2 ^ (52 - e) = 2 ^ 52 /\
  0 <= (n - 2 ^ e) * 2 ^ (52 - e) < 2 ^ 52.
Proof.
  intros H e.
  assert (He : 0 <= e <= 52).
  { split; [apply Z.log2_nonneg|]. unfold e.
    assert (Z.log2 n < 53) by (apply Z.log2_lt_pow2; lia). lia. }
  pose proof (Z.log2_spec n ltac:(lia)) as [L U]. fold e in L, U.
  assert (P : 2 ^ e * 2 ^ (52 - e) = 2 ^ 52).
  { rewrite <- Z.pow_add_r by lia. f_equal. lia. }
  assert (0 < 2 ^ (52 - e)) by (apply Z.pow_pos_nonneg; lia).
  rewrite Z.pow_succ_r in U by lia. repeat split; try done; nia.
Qed.

Lemma f64_bits_range n : 0 <= n < 2 ^ 53 -> in_u 64 (f64_bits n).
Proof.
  intros H. unfold f64_bits, in_u. destruct (Z.eqb_spec n 0); [lia|].
  destruct (f64_parts n ltac:(lia)) as (He & _ & _ & Hf).
  destruct (Z.leb_spec (Z.log2 n) 52); nia.
Qed.

Lemma f64_int_value_bits n :
  0 <= n < 2 ^ 53 -> f64_int_value (f64_bits n) = n.
Proof.
  intros [H0 H1]. unfold f64_bits.
  destruct (Z.eqb_spec n 0) as [->|N]; [done|].
  destruct (f64_parts n ltac:(lia)) as (He & Hq & P & Hf).
  set (e := Z.log2 n) in *. set (f := (n - 2 ^ e) * 2 ^ (52 - e)) in *.
  destruct (Z.leb_spec e 52); [|lia].
  unfold f64_int_value.
  destruct (Z.eqb_spec ((e + 1023) * 2 ^ 52 + f) 0); [nia|].
  rewrite (Z.add_comm _ f), Z.div_add, Z.mod_add by lia.
  rewrite Z.div_small, Z.mod_small by lia.
  replace (0 + (e + 1023) - 1023) with e by lia.
  destruct (Z.leb_spec e 52); [|lia].
  replace (2 ^ 52 + f) with (n * 2 ^ (52 - e)) by (unfold f; nia).
  by apply Z.div_mul; lia.
Qed.

(** ** Strings as bytes *)

(** [str::as_bytes]; a Rust string is its UTF-8 bytes. *)
Fixpoint bytes_of_string (s : string) : list Z :=
  match s with
  | EmptyString => []
  | String c s' => Z.of_N (Ascii.N_of_ascii c) :: bytes_of_string s'
  end.

Lemma bytes_of_string_bytes s : is_bytes (bytes_of_string s).
Proof.
  induction s as [|c s IH]; cbn; constructor; [|done].
  pose proof (Ascii.N_ascii_bounded c). unfold is_byte. lia.
Qed.
