(* ===== verification/Io.v ===== *)
(** * The [std::io] interface the crates write through

    [Write] and [Seek] as type classes of operations in a state-and-error
    monad, the law of [write_all] the writers rely on, and two implementations:
    [Vec<u8>] (never fails) and a seekable file with a bounded amount of room
    (fails part-way, as a full disk does). *)

From S2P Require Import Prelude Words.
From stdpp Require Import prelude list.
From Stdlib Require Import ZArith Lia.

Open Scope Z_scope.

(** [std::io::ErrorKind], the kinds that occur. *)
Inductive io_kind := InvalidInput | InvalidData | UnexpectedEof | StorageFull.

#[global] Instance io_kind_eq_dec : EqDecision io_kind.
Proof. solve_decision. Defined.

(** A computation on a writer [W] borrowed mutably: the writer after it and
    [io::Result<A>]. *)
Abbreviation Io W := (Eff W io_kind).

(** ** Interfaces *)

Class Write (W : Type) := {
  write_all : list Z -> Io W unit;
  flush : Io W unit;
}.

Class Seek (W : Type) := {
  stream_position : Io W Z;
  seek_start : Z -> Io W Z;
  seek_end : Z -> Io W Z;
}.

(** What [write_all] promises: writing nothing does nothing, and writing a
    concatenation is writing its two halves in turn, the second only if the
    first succeeded. *)
Class WriteLaws (W : Type) `{Write W} := {
  write_all_nil w : write_all [] w = (w, Ok ());
  write_all_app a b w : write_all (a ++ b) w = (write_all a ;; write_all b) w;
}.

(** What the position promises of a writer that has only been appended to:
    [appended w] are its bytes, a successful write extends them, and the
    position is their number. *)
Class AppendLaws (W : Type) `{Write W, Seek W} := {
  appended : W -> option (list Z);
  appended_write w w' bs l :
    appended w = Some l -> write_all bs w = (w', Ok ()) ->
    appended w' = Some (l ++ bs);
  appended_position w l :
    appended w = Some l -> stream_position w = (w, Ok (Z.of_nat (length l)));
}.

Section laws.
Context {W : Type} `{WriteLaws W}.

(** Two writes in a row are one write of the concatenation. *)
Lemma write_write a b w :
  (write_all a ;; write_all b) w = write_all (a ++ b) w.
Proof. by rewrite write_all_app. Qed.
End laws.

(** ** [Vec<u8>] *)

#[global] Instance vec_write : Write (list Z) := {|
  write_all bs v := (v ++ bs, Ok ());
  flush v := (v, Ok ());
|}.

#[global] Instance vec_write_laws : WriteLaws (list Z).
Proof.
  split; intros; cbn; [by rewrite app_nil_r|].
  unfold mbind, eff_mbind. by rewrite app_assoc.
Qed.

(** ** A seekable file

    [f_room] is the number of bytes the device still takes; [None] is a device
    that never fills up. A write past the room writes what fits and fails. *)

Record file := File {
  f_data : list Z;
  f_pos : nat;
  f_room : option nat;
}.

Definition new_file (room : option nat) : file := File [] 0 room.

(** One write of bytes that fit, at the current position; a position past the
    end leaves a hole of zeros. *)
Definition file_put (bs : list Z) (f : file) : file :=
  match bs with
  | [] => f
  | _ =>
      File (overwrite (f_pos f) bs
              (f_data f ++ replicate (f_pos f - length (f_data f)) 0))
           (f_pos f + length bs) (f_room f)
  end.

Definition file_write_all (bs : list Z) : Io file unit := fun f =>
  match f_room f with
  | None => (file_put bs f, Ok ())
  | Some r =>
      if (length bs <=? r)%nat then
        let f' := file_put bs f in
        (File (f_data f') (f_pos f') (Some (r - length bs)%nat), Ok ())
      else
        let f' := file_put (take r bs) f in
        (File (f_data f') (f_pos f') (Some 0%nat), Err StorageFull)
  end.

#[global] Instance file_write : Write file := {|
  write_all := file_write_all;
  flush f := (f, Ok ());
|}.

#[global] Instance file_seek : Seek file := {|
  stream_position f := (f, Ok (Z.of_nat (f_pos f)));
  seek_start n f := (File (f_data f) (Z.to_nat n) (f_room f), Ok n);
  seek_end n f :=
    let p := Z.of_nat (length (f_data f)) + n in
    if p <? 0 then (f, Err InvalidInput)
    else (File (f_data f) (Z.to_nat p) (f_room f), Ok p);
|}.

Lemma file_put_room bs f r :
  file_put bs (File (f_data f) (f_pos f) r) =
  File (f_data (file_put bs f)) (f_pos (file_put bs f)) r.
Proof. destruct f, bs; done. Qed.

Lemma file_put_app a b f : file_put (a ++ b) f = file_put b (file_put a f).
Proof.
  destruct a as [|x a]; [done|].
  destruct b as [|y b]; [by rewrite app_nil_r|].
  destruct f as [d p r]. unfold file_put; cbn [f_data f_pos f_room app].
  set (pad := d ++ replicate (p - length d) 0).
  assert (Hp : (p <= length pad)%nat).
  { unfold pad. rewrite length_app, length_replicate. lia. }
  f_equal; [|cbn [length]; rewrite length_app; cbn; lia].
  assert (Hl : (p + length (x :: a) <= length (overwrite p (x :: a) pad))%nat).
  { unfold overwrite. rewrite !length_app, length_take. lia. }
  replace (p + length (x :: a) - length (overwrite p (x :: a) pad))%nat with 0%nat by lia.
  cbn [replicate].
  rewrite app_nil_r. by rewrite overwrite_overwrite.
Qed.

Lemma file_write_all_app a b f :
  file_write_all (a ++ b) f = (file_write_all a ;; file_write_all b) f.
Proof.
  unfold file_write_all, mbind, eff_mbind.
  destruct (f_room f) as [r|] eqn:Er.
  2: { assert (Ep : f_room (file_put a f) = None) by (destruct a; done).
       by rewrite Ep, file_put_app. }
  rewrite length_app.
  destruct (Nat.leb_spec (length a) r) as [Ha|Ha].
  - cbn [f_room]. rewrite !file_put_room. cbn [f_data f_pos].
    destruct (Nat.leb_spec (length b) (r - length a)) as [Hb|Hb];
      destruct (Nat.leb_spec (length a + length b) r); try lia.
    + rewrite file_put_app. do 3 f_equal. lia.
    + rewrite take_app_ge by lia. by rewrite file_put_app.
  - destruct (Nat.leb_spec (length a + length b) r); [lia|].
    by rewrite take_app_le by lia.
Qed.

#[global] Instance file_write_laws : WriteLaws file.
Proof.
  split; [|apply file_write_all_app].
  intros [d p [r|]]; cbn; unfold file_write_all; cbn; [|done].
  by rewrite Nat.sub_0_r.
Qed.

#[global] Program Instance file_append_laws : AppendLaws file := {|
  appended f := if decide (f_pos f = length (f_data f)) then Some (f_data f) else None;
|}.
Next Obligation.
  intros f f' bs l Hf Hw. cbn beta in *. case_decide as Hp; simplify_eq.
  assert (Hput : file_put bs f = File (f_data f ++ bs) (f_pos f + length bs) (f_room f)).
  { destruct bs as [|b bs].
    - rewrite app_nil_r, Nat.add_0_r. by destruct f.
    - unfold file_put. rewrite Hp, Nat.sub_diag. cbn [replicate].
      by rewrite app_nil_r, overwrite_app. }
  cbn in Hw. unfold file_write_all in Hw.
  destruct (f_room f); [case_match|]; simplify_eq; rewrite Hput; cbn;
    rewrite decide_True by (rewrite length_app; lia); done.
Qed.
Next Obligation.
  intros f l Hf. cbn beta in *. case_decide as Hp; simplify_eq. cbn. by rewrite Hp.
Qed.
