(* ===== verification/Ebml.v ===== *)
(** * EBML primitives ([crates/waymux-mux-mkv/src/ebml.rs])

    The VINT, element-id, element-size and typed-element writers, generic in
    the writer as in the source; a reference reader written from RFC 8794 (the
    crate has no reader); and the theorems that what the writers emit reads
    back as what was written. *)

From S2P Require Import Prelude Words Io.
From stdpp Require Import prelude list.
From Stdlib Require Import ZArith Lia.

Open Scope Z_scope.

(** ** The writers *)

Definition UNKNOWN_SIZE : Z := 0x01FFFFFFFFFFFFFF.

(** The [for bytes in 1..=8] loop of [vint_len]. *)
Fixpoint vint_len_loop (n : nat) (bytes val : Z) : Z :=
  match n with
  | O => 8
  | S n' =>
      let max := Z.shiftl 1 (bytes * 7) - 1 in
      if val <? max then bytes else vint_len_loop n' (bytes + 1) val
  end.

Definition vint_len (val : Z) : Z :=
  if val =? UNKNOWN_SIZE then 8 else vint_len_loop 8 1 val.

(** The bytes [write_vint] puts in its buffer. *)
Definition vint_bytes (val : Z) : list Z :=
  let bytes := vint_len val in
  let marker := Z.shiftl 1 (bytes * 7) in
  let combined := Z.lor val marker in
  let shifted := to_be 8 combined in
  let offset := (8 - Z.to_nat bytes)%nat in
  drop offset shifted.

Definition id_len (id : Z) : nat :=
  if 0x10000000 <=? id then 4
  else if 0x100000 <=? id then 3
  else if 0x4000 <=? id then 2
  else 1.

Definition id_bytes (id : Z) : list Z := drop (4 - id_len id) (to_be 4 id).

(** The [while v > 0] loop of [uint_byte_len]; a [u64] is zero after at most
    eight shifts. *)
Fixpoint uint_byte_len_loop (fuel : nat) (n v : Z) : Z :=
  match fuel with
  | O => n
  | S fuel' => if 0 <? v then uint_byte_len_loop fuel' (n + 1) (Z.shiftr v 8) else n
  end.

Definition uint_byte_len (val : Z) : Z :=
  if val =? 0 then 1 else uint_byte_len_loop 8 0 val.

Section writers.
Context {W : Type} `{Write W}.

Definition write_vint (val : Z) : Io W unit := write_all (vint_bytes val).

Definition write_element_id (id : Z) : Io W unit := write_all (id_bytes id).

Definition write_element_size (size : Z) : Io W unit :=
  if size =? UNKNOWN_SIZE
  then write_all [0x01; 0xFF; 0xFF; 0xFF; 0xFF; 0xFF; 0xFF; 0xFF]
  else write_vint size.

Definition write_element_u64 (id val : Z) : Io W unit :=
  let len := uint_byte_len val in
  write_element_id id ;;
  write_element_size len ;;
  write_all (drop (8 - Z.to_nat len) (to_be 8 val)).

(** [val] is the double's bit pattern. *)
Definition write_element_f64 (id val : Z) : Io W unit :=
  write_element_id id ;;
  write_element_size 8 ;;
  write_all (to_be 8 val).

Definition write_element_bytes (id : Z) (data : list Z) : Io W unit :=
  write_element_id id ;;
  write_element_size (Z.of_nat (length data)) ;;
  write_all data.

(** A [&str] is its UTF-8 bytes. *)
Definition write_element_str (id : Z) (val : list Z) : Io W unit :=
  let bytes := val in
  write_element_id id ;;
  write_element_size (Z.of_nat (length bytes)) ;;
  write_all bytes.
End writers.

(** ** A reference reader *)

(** Number of bytes of a VINT, from the position of the first set bit of its
    first byte. *)
Definition vint_width (b : Z) : option nat :=
  if b <=? 0 then None else if 256 <=? b then None
  else Some (8 - Z.to_nat (Z.log2 b))%nat.

(** Split off [n] bytes. *)
Definition split_at_opt (n : nat) (l : list Z) : option (list Z * list Z) :=
  if (n <=? length l)%nat then Some (take n l, drop n l) else None.

(** An element id keeps its marker bit; ids have at most four bytes. *)
Definition read_id (l : list Z) : option (Z * list Z) :=
  b ← head l;
  k ← vint_width b;
  if (4 <? k)%nat then None
  else '(a, r) ← split_at_opt k l; Some (from_be a, r).

(** An element size drops the marker; all ones is the unknown size
    ([None]). *)
Definition read_size (l : list Z) : option (option Z * list Z) :=
  b ← head l;
  k ← vint_width b;
  '(a, r) ← split_at_opt k l;
  let m := 2 ^ (7 * Z.of_nat k) in
  let v := from_be a mod m in
  Some (if v =? m - 1 then None else Some v, r).

(** An element of known size: its id, its body and what follows. *)
Definition read_element (l : list Z) : option (Z * list Z * list Z) :=
  '(id, l1) ← read_id l;
  '(sz, l2) ← read_size l1;
  n ← sz;
  '(body, r) ← split_at_opt (Z.to_nat n) l2;
  Some (id, body, r).

(** ** Widths *)

Lemma shiftl_1 n : 0 <= n -> Z.shiftl 1 n = 2 ^ n.
Proof. intros. by rewrite Z.shiftl_mul_pow2, Z.mul_1_l. Qed.

Lemma vint_len_loop_spec n bytes val :
  1 <= bytes -> Z.of_nat n + bytes = 9 -> 0 <= val < 2 ^ 56 - 1 ->
  let k := vint_len_loop n bytes val in
  (n <> 0%nat -> bytes <= k) /\ k <= 8 /\
  (n <> 0%nat -> val < 2 ^ (7 * k) - 1) /\
  (bytes < k -> 2 ^ (7 * (k - 1)) - 1 <= val).
Proof.
  revert bytes. induction n as [|n IH]; intros bytes H1 H2 Hv k.
  { unfold k; cbn. repeat split; lia. }
  unfold k. cbn [vint_len_loop]. rewrite shiftl_1 by lia.
  destruct (Z.ltb_spec val (2 ^ (bytes * 7) - 1)) as [L|L].
  - repeat split; try lia. by rewrite Z.mul_comm.
  - destruct n as [|n].
    { assert (bytes = 8) by lia. subst bytes. lia. }
    specialize (IH (bytes + 1) ltac:(lia) ltac:(lia) Hv). cbn zeta in IH.
    destruct IH as (A & B & C & D). repeat split; try lia.
    intros _. destruct (Z.eq_dec (vint_len_loop (S n) (bytes + 1) val) (bytes + 1)) as [E|E].
    + rewrite E. replace (7 * (bytes + 1 - 1)) with (bytes * 7) by lia. done.
    + apply D. specialize (A ltac:(lia)). lia.
Qed.

Lemma UNKNOWN_SIZE_big : 2 ^ 56 - 1 < UNKNOWN_SIZE.
Proof. done. Qed.

(** [vint_len] is the least number of bytes whose data bits hold the value
    without being all ones. *)
Lemma vint_len_spec val :
  0 <= val < 2 ^ 56 - 1 ->
  let k := vint_len val in
  1 <= k <= 8 /\ val < 2 ^ (7 * k) - 1 /\ (1 < k -> 2 ^ (7 * (k - 1)) - 1 <= val).
Proof.
  intros Hv. unfold vint_len.
  destruct (Z.eqb_spec val UNKNOWN_SIZE) as [->|_].
  { pose proof UNKNOWN_SIZE_big. lia. }
  destruct (vint_len_loop_spec 8 1 val ltac:(lia) ltac:(lia) Hv) as (A & B & C & D).
  cbn zeta. repeat split; [apply A; lia | done | apply C; lia | done].
Qed.

Lemma land_pow2_small val k : 0 <= k -> 0 <= val < 2 ^ k -> Z.land val (2 ^ k) = 0.
Proof.
  intros Hk Hv. apply Z.bits_inj'. intros i Hi. rewrite Z.land_spec, Z.bits_0.
  rewrite Z.pow2_bits_eqb by done. destruct (Z.eqb_spec k i) as [->|]; [|apply andb_false_r].
  rewrite <- (Z.mod_small val (2 ^ i)) by done.
  by rewrite Z.mod_pow2_bits_high by lia.
Qed.

(** Or-ing in a marker bit above the value adds it. *)
Lemma lor_marker val k :
  0 <= k -> 0 <= val < 2 ^ k -> Z.lor val (Z.shiftl 1 k) = val + 2 ^ k.
Proof.
  intros Hk Hv. rewrite shiftl_1 by done.
  rewrite <- Z.add_lor_land, land_pow2_small by done. lia.
Qed.

(** A number whose top bit is the [7k]-th one encodes on [k] bytes so that the
    first byte announces the width [k]. *)
Lemma vint_head k c :
  (1 <= k <= 8)%nat -> 2 ^ (7 * Z.of_nat k) <= c < 2 * 2 ^ (7 * Z.of_nat k) ->
  exists b t, to_be k c = b :: t /\ vint_width b = Some k.
Proof.
  intros Hk Hc. destruct k as [|j]; [lia|].
  eexists _, _. split; [apply to_be_cons|].
  set (q := c / 256 ^ Z.of_nat j).
  assert (E : 256 ^ Z.of_nat j = 2 ^ (8 * Z.of_nat j)) by (by rewrite Z.pow_mul_r by lia).
  assert (P : 0 < 2 ^ (8 * Z.of_nat j)) by (apply Z.pow_pos_nonneg; lia).
  assert (E2 : 2 ^ (7 * Z.of_nat (S j)) = 2 ^ (7 - Z.of_nat j) * 2 ^ (8 * Z.of_nat j)).
  { rewrite <- Z.pow_add_r by lia. f_equal. lia. }
  assert (Q : 2 ^ (7 - Z.of_nat j) <= q < 2 * 2 ^ (7 - Z.of_nat j)).
  { unfold q. rewrite E. split.
    - apply Z.div_le_lower_bound; lia.
    - apply Z.div_lt_upper_bound; lia. }
  assert (Hq : 0 < 2 ^ (7 - Z.of_nat j) <= 128).
  { split; [apply Z.pow_pos_nonneg; lia|].
    change 128 with (2 ^ 7). apply Z.pow_le_mono_r; lia. }
  rewrite Z.mod_small by lia. unfold vint_width.
  destruct (Z.leb_spec q 0); [lia|]. destruct (Z.leb_spec 256 q); [lia|].
  rewrite (Z.log2_unique q (7 - Z.of_nat j)) by (rewrite ?Z.pow_succ_r by lia; lia).
  f_equal. lia.
Qed.

Lemma split_at_opt_app a r : split_at_opt (length a) (a ++ r) = Some (a, r).
Proof.
  unfold split_at_opt. rewrite length_app.
  destruct (Nat.leb_spec (length a) (length a + length r)); [|lia].
  by rewrite take_app_length, drop_app_length.
Qed.

Lemma pow256 n : 256 ^ Z.of_nat n = 2 ^ (8 * Z.of_nat n).
Proof. by rewrite Z.pow_mul_r by lia. Qed.

(** ** Sizes *)

Lemma vint_bytes_eq val :
  0 <= val < 2 ^ 56 - 1 ->
  let k := Z.to_nat (vint_len val) in
  (1 <= k <= 8)%nat /\ val < 2 ^ (7 * Z.of_nat k) - 1 /\
  vint_bytes val = to_be k (val + 2 ^ (7 * Z.of_nat k)).
Proof.
  intros Hv k. destruct (vint_len_spec val Hv) as (R & L & _).
  assert (Ek : Z.of_nat k = vint_len val) by (unfold k; lia).
  split; [lia|]. rewrite Ek. split; [done|].
  unfold vint_bytes. rewrite drop_to_be by lia.
  fold k. f_equal. rewrite Z.mul_comm. apply lor_marker; lia.
Qed.

(** Reading a marked [k]-byte number whose data bits are not all ones. *)
Lemma read_size_to_be k val rest :
  (1 <= k <= 8)%nat -> 0 <= val < 2 ^ (7 * Z.of_nat k) ->
  read_size (to_be k (val + 2 ^ (7 * Z.of_nat k)) ++ rest) =
  Some (if val =? 2 ^ (7 * Z.of_nat k) - 1 then None else Some val, rest).
Proof.
  intros Hk Hv. set (m := 2 ^ (7 * Z.of_nat k)) in *.
  destruct (vint_head k (val + m) Hk) as (b & t & E & Wd); [unfold m in *; lia|].
  unfold read_size. rewrite E. cbn [app head mbind option_bind]. rewrite Wd.
  cbn [mbind option_bind]. change (b :: t ++ rest) with ((b :: t) ++ rest).
  rewrite <- E, <- (length_to_be k (val + m)) at 1.
  rewrite split_at_opt_app. cbn [mbind option_bind].
  rewrite from_be_to_be, (Z.mod_small (val + m)).
  - fold m. replace (val + m) with (val + 1 * m) by lia.
    rewrite Z.mod_add by lia. by rewrite Z.mod_small by lia.
  - rewrite pow256. split; [lia|]. apply Z.lt_le_trans with (2 * m); [lia|].
    unfold m. rewrite <- Z.pow_succ_r by lia. apply Z.pow_le_mono_r; lia.
Qed.

Lemma read_size_vint val rest :
  0 <= val < 2 ^ 56 - 1 -> read_size (vint_bytes val ++ rest) = Some (Some val, rest).
Proof.
  intros Hv. destruct (vint_bytes_eq val Hv) as (Hk & L & ->).
  rewrite read_size_to_be by lia. by rewrite (proj2 (Z.eqb_neq _ _)) by lia.
Qed.

(** ** Ids *)

(** The ids EBML allows: [k] bytes, the marker bit set, [k] at most four. *)
Definition valid_id (id : Z) : bool :=
  let k := Z.of_nat (id_len id) in
  (2 ^ (7 * k) <=? id) && (id <? 2 * 2 ^ (7 * k)).

Lemma id_bytes_eq id : id_bytes id = to_be (id_len id) id.
Proof.
  unfold id_bytes. apply drop_to_be. unfold id_len. by repeat case_match; lia.
Qed.

Lemma read_id_bytes id rest :
  valid_id id = true -> read_id (id_bytes id ++ rest) = Some (id, rest).
Proof.
  intros Hid. unfold valid_id in Hid. boolz. rewrite id_bytes_eq.
  assert (Hk : (1 <= id_len id <= 4)%nat) by (unfold id_len; repeat case_match; lia).
  set (k := id_len id) in *.
  destruct (vint_head k id ltac:(lia)) as (b & t & E & Wd); [lia|].
  unfold read_id. rewrite E. cbn [app head mbind option_bind]. rewrite Wd.
  cbn [mbind option_bind]. destruct (Nat.ltb_spec 4 k); [lia|].
  change (b :: t ++ rest) with ((b :: t) ++ rest).
  rewrite <- E, <- (length_to_be k id) at 1.
  rewrite split_at_opt_app. cbn [mbind option_bind].
  rewrite from_be_to_be, Z.mod_small; [done|].
  rewrite pow256. split; [lia|]. apply Z.lt_le_trans with (2 * 2 ^ (7 * Z.of_nat k)); [lia|].
  rewrite <- Z.pow_succ_r by lia. apply Z.pow_le_mono_r; lia.
Qed.

(** No size a reader accepts exceeds what eight bytes hold. *)
Lemma read_size_bound l v r : read_size l = Some (Some v, r) -> 0 <= v < 2 ^ 56 - 1.
Proof.
  unfold read_size. intros E.
  destruct (head l) as [b|]; [|done]. cbn [mbind option_bind] in E.
  destruct (vint_width b) as [k|] eqn:Wd; [|done]. cbn [mbind option_bind] in E.
  destruct (split_at_opt k l) as [[a r']|]; [|done]. cbn [mbind option_bind] in E.
  assert (Hk : (k <= 8)%nat).
  { unfold vint_width in Wd. repeat case_match; simplify_eq. lia. }
  set (m := 2 ^ (7 * Z.of_nat k)) in *.
  assert (M : 0 < m <= 2 ^ 56).
  { split; [apply Z.pow_pos_nonneg; lia | apply Z.pow_le_mono_r; lia]. }
  pose proof (Z.mod_pos_bound (from_be a) m ltac:(lia)).
  destruct (Z.eqb_spec (from_be a mod m) (m - 1)); simplify_eq. lia.
Qed.

(** ** Typed elements *)

Lemma uint_byte_len_loop_spec fuel n v :
  0 <= n -> 0 < v < 256 ^ Z.of_nat fuel ->
  let k := uint_byte_len_loop fuel n v - n in
  1 <= k <= Z.of_nat fuel /\ 256 ^ (k - 1) <= v < 256 ^ k.
Proof.
  revert n v. induction fuel as [|fuel IH]; intros n v Hn Hv; [cbn in Hv; lia|].
  cbn [uint_byte_len_loop]. destruct (Z.ltb_spec 0 v); [|lia].
  rewrite Z.shiftr_div_pow2 by lia. change (2 ^ 8) with 256.
  rewrite pow256_succ in Hv.
  destruct (Z.eq_dec (v / 256) 0) as [E|E].
  - rewrite E. replace (uint_byte_len_loop fuel (n + 1) 0) with (n + 1)
      by (by destruct fuel).
    cbn zeta. replace (n + 1 - n) with 1 by lia. cbn.
    pose proof (Z.div_mod v 256 ltac:(lia)). pose proof (Z.mod_pos_bound v 256 ltac:(lia)). lia.
  - assert (D : 0 < v / 256 < 256 ^ Z.of_nat fuel).
    { split; [pose proof (Z.div_pos v 256); lia | apply Z.div_lt_upper_bound; lia]. }
    specialize (IH (n + 1) (v / 256) ltac:(lia) D). cbn zeta in *.
    set (k := uint_byte_len_loop fuel (n + 1) (v / 256)) in *.
    destruct IH as (A & B & C). split; [lia|].
    replace (k - n - 1) with (Z.succ (k - (n + 1) - 1)) by lia.
    replace (k - n) with (Z.succ (k - (n + 1))) by lia.
    rewrite !Z.pow_succ_r by lia.
    pose proof (Z.div_mod v 256 ltac:(lia)). pose proof (Z.mod_pos_bound v 256 ltac:(lia)).
    lia.
Qed.

(** [uint_byte_len] is the least number of bytes that holds the value, and one
    for zero. *)
Lemma uint_byte_len_spec v :
  in_u 64 v ->
  let k := uint_byte_len v in
  1 <= k <= 8 /\ v < 256 ^ k /\ (1 < k -> 256 ^ (k - 1) <= v).
Proof.
  intros Hv. unfold uint_byte_len. destruct (Z.eqb_spec v 0) as [->|N]; [cbn; lia|].
  unfold in_u in Hv.
  pose proof (uint_byte_len_loop_spec 8 0 v ltac:(lia)) as S.
  change (256 ^ Z.of_nat 8) with (2 ^ 64) in S. specialize (S ltac:(lia)).
  cbn zeta in *. rewrite Z.sub_0_r in S. destruct S as (A & B & C).
  repeat split; try lia.
Qed.

(** The image of an element: id, size, body. *)
Definition element_bytes (id : Z) (body : list Z) : list Z :=
  id_bytes id ++ vint_bytes (Z.of_nat (length body)) ++ body.

Lemma read_element_bytes id body rest :
  valid_id id = true -> Z.of_nat (length body) < 2 ^ 56 - 1 ->
  read_element (element_bytes id body ++ rest) = Some (id, body, rest).
Proof.
  intros Hid Hl. unfold read_element, element_bytes. rewrite <- !app_assoc.
  rewrite read_id_bytes by done. cbn [mbind option_bind].
  rewrite read_size_vint by lia. cbn [mbind option_bind].
  rewrite Nat2Z.id, split_at_opt_app. done.
Qed.

Section lawful.
Context {W : Type} `{WriteLaws W}.

Lemma write_element_size_eq n w :
  0 <= n < 2 ^ 56 - 1 -> write_element_size n w = write_all (vint_bytes n) w.
Proof.
  intros Hn. unfold write_element_size.
  destruct (Z.eqb_spec n UNKNOWN_SIZE) as [->|]; [|done].
  pose proof UNKNOWN_SIZE_big. lia.
Qed.

(** Three writes of a typed element are one write of its image. *)
Lemma write_element_parts id body w :
  Z.of_nat (length body) < 2 ^ 56 - 1 ->
  (write_element_id id ;; write_element_size (Z.of_nat (length body)) ;; write_all body) w
  = write_all (element_bytes id body) w.
Proof.
  intros Hl. unfold element_bytes. rewrite write_all_app.
  apply eff_bind_ext. intros _ w1. rewrite write_all_app.
  unfold mbind, eff_mbind. by rewrite write_element_size_eq by lia.
Qed.

Lemma write_element_bytes_eq id data w :
  Z.of_nat (length data) < 2 ^ 56 - 1 ->
  write_element_bytes id data w = write_all (element_bytes id data) w.
Proof. apply write_element_parts. Qed.

Lemma write_element_str_eq id data w :
  Z.of_nat (length data) < 2 ^ 56 - 1 ->
  write_element_str id data w = write_all (element_bytes id data) w.
Proof. apply write_element_parts. Qed.

Lemma write_element_f64_eq id val w :
  write_element_f64 id val w = write_all (element_bytes id (to_be 8 val)) w.
Proof.
  rewrite <- write_element_parts by (rewrite length_to_be; lia).
  by rewrite length_to_be.
Qed.

(** The body [write_element_u64] writes. *)
Lemma write_element_u64_eq id val w :
  in_u 64 val ->
  write_element_u64 id val w =
  write_all (element_bytes id (to_be (Z.to_nat (uint_byte_len val)) val)) w.
Proof.
  intros Hv. destruct (uint_byte_len_spec val Hv) as (R & _ & _).
  unfold write_element_u64. rewrite drop_to_be by lia.
  rewrite <- write_element_parts by (rewrite length_to_be; lia).
  rewrite length_to_be, Z2Nat.id by lia. done.
Qed.
End lawful.

(** The minimal body of an unsigned integer decodes to it. *)
Lemma uint_body_value val :
  in_u 64 val -> from_be (to_be (Z.to_nat (uint_byte_len val)) val) = val.
Proof.
  intros Hv. destruct (uint_byte_len_spec val Hv) as (R & L & _).
  rewrite from_be_to_be, Z2Nat.id by lia. apply Z.mod_small. destruct Hv. lia.
Qed.

(** ** Theorems *)

(** A size written by [write_vint] reads back as itself, with nothing
    consumed beyond it, exactly when it is below 2^56 - 1; every other [u64]
    (which the eight data bytes cannot hold, or which is the unknown-size
    pattern) does not read back. *)
Theorem write_vint_roundtrip_iff (val : Z) (rest : list Z) :
  in_u 64 val ->
  read_size ((write_vint val ([] : list Z)).1 ++ rest) = Some (Some val, rest)
  <-> val < 2 ^ 56 - 1.
Proof.
  intros [H0 _]. cbn [write_vint write_all vec_write fst]. rewrite app_nil_l. split.
  - intros R. apply read_size_bound in R. lia.
  - intros L. apply read_size_vint. lia.
Qed.

Lemma write_vint_roundtrip_iff_witness :
  in_u 64 16382 /\
  (read_size ((write_vint 16382 ([] : list Z)).1 ++ [7]) = Some (Some 16382, [7])
   <-> 16382 < 2 ^ 56 - 1).
Proof.
  split; [unfold in_u; lia|]. apply (write_vint_roundtrip_iff 16382 [7]).
  unfold in_u; lia.
Defined.

(** On every writer that obeys the [write_all] law, [write_element_u64]
    is one write of a string that a reader parses as the element with that id
    whose big-endian body is exactly the value, using the fewest bytes; a
    failing writer fails as it would on that one write. *)
Theorem write_element_u64_roundtrip {W : Type} `{WriteLaws W} (id val : Z) (w : W) :
  valid_id id = true -> in_u 64 val ->
  exists bs body,
    write_element_u64 id val w = write_all bs w /\
    (forall rest, read_element (bs ++ rest) = Some (id, body, rest)) /\
    from_be body = val /\
    (forall body', is_bytes body' -> body' <> [] -> from_be body' = val ->
       (length body <= length body')%nat).
Proof.
  intros Hid Hv. destruct (uint_byte_len_spec val Hv) as (R & L & M).
  eexists _, _. split; [by apply write_element_u64_eq|]. split; [|split].
  - intros rest. apply read_element_bytes; [done|]. rewrite length_to_be. lia.
  - by apply uint_body_value.
  - intros body' Hb Hn Hval. rewrite length_to_be.
    pose proof (from_be_range body' Hb) as Rg. rewrite Hval in Rg.
    assert (0 < length body')%nat by (destruct body'; cbn; [done | lia]).
    destruct (Z.eq_dec (uint_byte_len val) 1) as [->|]; [lia|].
    specialize (M ltac:(lia)).
    destruct (Nat.le_gt_cases (Z.to_nat (uint_byte_len val)) (length body')) as [|G]; [done|].
    exfalso. assert (256 ^ Z.of_nat (length body') <= 256 ^ (uint_byte_len val - 1))
      by (apply Z.pow_le_mono_r; lia). lia.
Qed.

Lemma write_element_u64_roundtrip_witness :
  exists bs body,
    write_element_u64 0xB0 1920 (new_file (Some 2%nat)) = write_all bs (new_file (Some 2%nat)) /\
    (forall rest, read_element (bs ++ rest) = Some (0xB0, body, rest)) /\
    from_be body = 1920 /\
    (forall body', is_bytes body' -> body' <> [] -> from_be body' = 1920 ->
       (length body <= length body')%nat).
Proof.
  apply (write_element_u64_roundtrip 0xB0 1920 (new_file (Some 2%nat))).
  - reflexivity.
  - unfold in_u; lia.
Defined.
