(* ===== verification/Mkv.v ===== *)
(** * The streaming Matroska muxer ([crates/waymux-mux-mkv/src/lib.rs])

    [MkvWriter] and its operations, generic in the writer; a reference demuxer
    for the subset of Matroska the muxer emits; and the theorems that a
    recording demuxes to the frames that were written, with the duration
    patched in, and that a failed write leaves the frame counters alone. *)

From S2P Require Import Prelude Words Io Ebml.
From stdpp Require Import prelude list strings sorting.
From Stdlib Require Import ZArith Lia.

Open Scope Z_scope.

(** ** Element ids and constants *)

Definition ID_EBML : Z := 0x1A45DFA3.
Definition ID_EBML_VERSION : Z := 0x4286.
Definition ID_EBML_READ_VERSION : Z := 0x42F7.
Definition ID_EBML_MAX_ID_LENGTH : Z := 0x42F2.
Definition ID_EBML_MAX_SIZE_LENGTH : Z := 0x42F3.
Definition ID_DOC_TYPE : Z := 0x4282.
Definition ID_DOC_TYPE_VERSION : Z := 0x4287.
Definition ID_DOC_TYPE_READ_VERSION : Z := 0x4285.
Definition ID_SEGMENT : Z := 0x18538067.
Definition ID_INFO : Z := 0x1549A966.
Definition ID_TIMECODE_SCALE : Z := 0x002AD7B1.
Definition ID_MUXING_APP : Z := 0x4D80.
Definition ID_WRITING_APP : Z := 0x5741.
Definition ID_DURATION : Z := 0x4489.
Definition ID_TRACKS : Z := 0x1654AE6B.
Definition ID_TRACK_ENTRY : Z := 0xAE.
Definition ID_TRACK_NUMBER : Z := 0xD7.
Definition ID_TRACK_UID : Z := 0x73C5.
Definition ID_TRACK_TYPE : Z := 0x83.
Definition ID_FLAG_LACING : Z := 0x9C.
Definition ID_CODEC_ID : Z := 0x86.
Definition ID_CODEC_PRIVATE : Z := 0x63A2.
Definition ID_VIDEO : Z := 0xE0.
Definition ID_PIXEL_WIDTH : Z := 0xB0.
Definition ID_PIXEL_HEIGHT : Z := 0xBA.
Definition ID_CLUSTER : Z := 0x1F43B675.
Definition ID_TIMECODE : Z := 0xE7.
Definition ID_SIMPLE_BLOCK : Z := 0xA3.

Definition TRACK_TYPE_VIDEO : Z := 1.
Definition TRACK_NUMBER : Z := 1.
Definition TIMECODE_SCALE_NS : Z := 1000000.
Definition CLUSTER_DURATION_MS : Z := 1000.

(** [i64] subtraction (two's complement). *)
Definition i64_sub (a b : Z) : Z := as_s 64 (a - b).

(** ** The writer *)

Record MkvWriter (W : Type) := {
  inner : W;
  cluster_open : bool;
  cluster_base_ms : Z;
  frames_total : Z;
  last_pts_ms : Z;
  duration_value_offset : Z;
}.
Arguments inner {W} _.
Arguments cluster_open {W} _.
Arguments cluster_base_ms {W} _.
Arguments frames_total {W} _.
Arguments last_pts_ms {W} _.
Arguments duration_value_offset {W} _.

(** Fill a local [Vec] with a writer, propagating an error with [?]. *)
Definition build_vec {W} (m : Io (list Z) unit) : Io W (list Z) := fun w =>
  match m [] with
  | (body, Ok _) => (w, Ok body)
  | (_, Err e) => (w, Err e)
  end.

Section writer.
Context {W : Type} `{Write W, Seek W}.

Definition write_ebml_header : Io W unit :=
  body ← build_vec (
    write_element_u64 ID_EBML_VERSION 1 ;;
    write_element_u64 ID_EBML_READ_VERSION 1 ;;
    write_element_u64 ID_EBML_MAX_ID_LENGTH 4 ;;
    write_element_u64 ID_EBML_MAX_SIZE_LENGTH 8 ;;
    write_element_str ID_DOC_TYPE (bytes_of_string "matroska") ;;
    write_element_u64 ID_DOC_TYPE_VERSION 4 ;;
    write_element_u64 ID_DOC_TYPE_READ_VERSION 2);
  write_element_id ID_EBML ;;
  write_element_size (Z.of_nat (length body)) ;;
  write_all body.

Definition write_segment_start : Io W unit :=
  write_element_id ID_SEGMENT ;;
  write_element_size UNKNOWN_SIZE.

(** Returns the absolute offset of the Duration value. *)
Definition write_info : Io W Z :=
  body0 ← build_vec (
    write_element_u64 ID_TIMECODE_SCALE TIMECODE_SCALE_NS ;;
    write_element_str ID_MUXING_APP (bytes_of_string "waymux-mux-mkv") ;;
    write_element_str ID_WRITING_APP (bytes_of_string "waymux-mux-mkv"));
  let duration_value_offset_in_body := Z.of_nat (length body0) + 3 in
  tail ← build_vec (write_element_f64 ID_DURATION 0);
  let body := body0 ++ tail in
  stream_position ;;
  write_element_id ID_INFO ;;
  write_element_size (Z.of_nat (length body)) ;;
  body_start ← stream_position;
  write_all body ;;
  mret (body_start + duration_value_offset_in_body).

Definition write_tracks (width height : Z) (codec_private : list Z)
    (codec_id : string) : Io W unit :=
  video_body ← build_vec (
    write_element_u64 ID_PIXEL_WIDTH width ;;
    write_element_u64 ID_PIXEL_HEIGHT height);
  track_body ← build_vec (
    write_element_u64 ID_TRACK_NUMBER TRACK_NUMBER ;;
    write_element_u64 ID_TRACK_UID 0xDEADBEEF ;;
    write_element_u64 ID_TRACK_TYPE TRACK_TYPE_VIDEO ;;
    write_element_u64 ID_FLAG_LACING 0 ;;
    write_element_str ID_CODEC_ID (bytes_of_string codec_id) ;;
    write_element_bytes ID_CODEC_PRIVATE codec_private ;;
    write_element_id ID_VIDEO ;;
    write_element_size (Z.of_nat (length video_body)) ;;
    write_all video_body);
  tracks_body ← build_vec (
    write_element_id ID_TRACK_ENTRY ;;
    write_element_size (Z.of_nat (length track_body)) ;;
    write_all track_body);
  write_element_id ID_TRACKS ;;
  write_element_size (Z.of_nat (length tracks_body)) ;;
  write_all tracks_body.

Definition write_cluster_start (timecode_ms : Z) : Io W unit :=
  write_element_id ID_CLUSTER ;;
  write_element_size UNKNOWN_SIZE ;;
  write_element_u64 ID_TIMECODE (Z.max timecode_ms 0).

(** [header\[..hlen\]]: the track VINT, the big-endian [i16] delta and the
    flags byte. *)
Definition write_simple_block (track_number pts_delta : Z) (is_keyframe : bool)
    (payload : list Z) : Io W unit :=
  tmp ← build_vec (write_vint track_number);
  let header := tmp ++ to_be 2 pts_delta ++ [if is_keyframe then 0x80 else 0x00] in
  let hlen := Z.of_nat (length tmp) + 3 in
  let body_len := hlen + Z.of_nat (length payload) in
  write_element_id ID_SIMPLE_BLOCK ;;
  write_element_size body_len ;;
  write_all header ;;
  write_all payload.

Definition new_for_codec (w : W) (width height : Z) (codec_private : list Z)
    (codec_id : string) : result (MkvWriter W) io_kind :=
  let m :=
    write_ebml_header ;;
    write_segment_start ;;
    off ← write_info;
    write_tracks width height codec_private codec_id ;;
    mret off in
  match m w with
  | (w', Ok off) =>
      Ok {| inner := w'; cluster_open := false; cluster_base_ms := 0;
            frames_total := 0; last_pts_ms := 0; duration_value_offset := off |}
  | (_, Err e) => Err e
  end.

Definition new (w : W) (width height : Z) (codec_private : list Z) :
    result (MkvWriter W) io_kind :=
  new_for_codec w width height codec_private "V_MPEG4/ISO/AVC".

Definition set_inner (m : MkvWriter W) (w : W) : MkvWriter W :=
  {| inner := w; cluster_open := cluster_open m; cluster_base_ms := cluster_base_ms m;
     frames_total := frames_total m; last_pts_ms := last_pts_ms m;
     duration_value_offset := duration_value_offset m |}.

Definition need_new_cluster (m : MkvWriter W) (pts_ms : Z) (is_keyframe : bool) : bool :=
  negb (cluster_open m)
  || (CLUSTER_DURATION_MS <? i64_sub pts_ms (cluster_base_ms m))
  || (is_keyframe && (50 <? i64_sub pts_ms (cluster_base_ms m))).

(** The first half of [write_frame]: open a cluster when one is needed. *)
Definition ensure_cluster (pts_ms : Z) (is_keyframe : bool) : Io (MkvWriter W) unit := fun m =>
  if need_new_cluster m pts_ms is_keyframe then
    match write_cluster_start pts_ms (inner m) with
    | (w', Ok _) =>
        ({| inner := w'; cluster_open := true; cluster_base_ms := pts_ms;
            frames_total := frames_total m; last_pts_ms := last_pts_ms m;
            duration_value_offset := duration_value_offset m |}, Ok ())
    | (w', Err e) => (set_inner m w', Err e)
    end
  else (m, Ok ()).

(** The second half: the block and the counters. *)
Definition write_block (nal_data : list Z) (pts_ms : Z) (is_keyframe : bool) :
    Io (MkvWriter W) unit := fun m =>
  let delta := as_s 16 (i64_sub pts_ms (cluster_base_ms m)) in
  match write_simple_block TRACK_NUMBER delta is_keyframe nal_data (inner m) with
  | (w', Ok _) =>
      ({| inner := w'; cluster_open := cluster_open m;
          cluster_base_ms := cluster_base_ms m;
          frames_total := as_u 64 (frames_total m + 1); last_pts_ms := pts_ms;
          duration_value_offset := duration_value_offset m |}, Ok ())
  | (w', Err e) => (set_inner m w', Err e)
  end.

Definition write_frame (nal_data : list Z) (pts_ms : Z) (is_keyframe : bool) :
    Io (MkvWriter W) unit :=
  ensure_cluster pts_ms is_keyframe ;;
  write_block nal_data pts_ms is_keyframe.

(** The f64 [last_pts_ms.max(0) as f64 + 16.0], an integer. *)
Definition duration_ms (m : MkvWriter W) : Z :=
  round53 (round53 (Z.max (last_pts_ms m) 0) + 16).

Definition finish (m : MkvWriter W) : result W io_kind :=
  let patch :=
    seek_start (duration_value_offset m) ;;
    write_all (to_be 8 (f64_bits (duration_ms m))) ;;
    seek_end 0 ;;
    flush in
  match patch (inner m) with
  | (w', Ok _) => Ok w'
  | (_, Err e) => Err e
  end.
End writer.

(** ** A reference demuxer

    What a Matroska reader does with the subset above: the EBML header, a
    segment and clusters of unknown size, Info, Tracks, and blocks whose
    timestamps are relative to their cluster. *)

Record block := Block {
  b_track : Z;
  b_pts : Z;
  b_key : bool;
  b_payload : list Z;
}.

Definition read_block (base : Z) (body : list Z) : option block :=
  '(tr, l1) ← read_size body;
  t ← tr;
  '(d, l2) ← split_at_opt 2 l1;
  fl ← head l2;
  Some (Block t (base + as_s 16 (from_be d)) (128 <=? fl) (tail l2)).

Fixpoint read_clusters (fuel : nat) (base : option Z) (l : list Z) : option (list block) :=
  match fuel with
  | O => None
  | S fuel =>
      match l with
      | [] => Some []
      | _ =>
          '(id, l1) ← read_id l;
          '(sz, l2) ← read_size l1;
          match sz with
          | None => if id =? ID_CLUSTER then read_clusters fuel None l2 else None
          | Some n =>
              '(body, r) ← split_at_opt (Z.to_nat n) l2;
              if id =? ID_TIMECODE then read_clusters fuel (Some (from_be body)) r
              else if id =? ID_SIMPLE_BLOCK then
                t ← base;
                b ← read_block t body;
                bs ← read_clusters fuel base r;
                Some (b :: bs)
              else None
          end
      end
  end.

(** The children of a master element, and the body of the first with an id. *)
Fixpoint read_children (fuel : nat) (l : list Z) : option (list (Z * list Z)) :=
  match fuel with
  | O => None
  | S fuel =>
      match l with
      | [] => Some []
      | _ =>
          '(id, body, r) ← read_element l;
          cs ← read_children fuel r;
          Some ((id, body) :: cs)
      end
  end.

Definition children (l : list Z) : option (list (Z * list Z)) := read_children (S (length l)) l.

Fixpoint child (id : Z) (cs : list (Z * list Z)) : option (list Z) :=
  match cs with
  | [] => None
  | (i, b) :: cs' => if i =? id then Some b else child id cs'
  end.

(** Read an element that must have the given id. *)
Definition expect (id : Z) (l : list Z) : option (list Z * list Z) :=
  '(i, body, r) ← read_element l;
  if i =? id then Some (body, r) else None.

Record movie := Movie {
  m_duration : Z;
  m_width : Z;
  m_height : Z;
  m_codec_id : list Z;
  m_codec_private : list Z;
  m_blocks : list block;
}.

Definition demux (l : list Z) : option movie :=
  '(_, l1) ← expect ID_EBML l;
  '(seg, l2) ← read_id l1;
  '(segsz, l3) ← read_size l2;
  if negb (seg =? ID_SEGMENT) then None else
  match segsz with
  | Some _ => None
  | None =>
      '(info, l4) ← expect ID_INFO l3;
      ics ← children info;
      dur ← child ID_DURATION ics;
      '(tracks, l5) ← expect ID_TRACKS l4;
      tcs ← children tracks;
      te ← child ID_TRACK_ENTRY tcs;
      es ← children te;
      cid ← child ID_CODEC_ID es;
      priv ← child ID_CODEC_PRIVATE es;
      vid ← child ID_VIDEO es;
      vs ← children vid;
      wd ← child ID_PIXEL_WIDTH vs;
      ht ← child ID_PIXEL_HEIGHT vs;
      bs ← read_clusters (S (length l5)) None l5;
      Some (Movie (f64_int_value (from_be dur)) (from_be wd) (from_be ht) cid priv bs)
  end.

(** ** Images of what the writer emits *)

Definition unknown_size_bytes : list Z := [0x01; 0xFF; 0xFF; 0xFF; 0xFF; 0xFF; 0xFF; 0xFF].

Definition u64_bytes (id val : Z) : list Z :=
  element_bytes id (to_be (Z.to_nat (uint_byte_len val)) val).

Definition ebml_body : list Z :=
  u64_bytes ID_EBML_VERSION 1 ++ u64_bytes ID_EBML_READ_VERSION 1 ++
  u64_bytes ID_EBML_MAX_ID_LENGTH 4 ++ u64_bytes ID_EBML_MAX_SIZE_LENGTH 8 ++
  element_bytes ID_DOC_TYPE (bytes_of_string "matroska") ++
  u64_bytes ID_DOC_TYPE_VERSION 4 ++ u64_bytes ID_DOC_TYPE_READ_VERSION 2.

Definition info_prefix : list Z :=
  u64_bytes ID_TIMECODE_SCALE TIMECODE_SCALE_NS ++
  element_bytes ID_MUXING_APP (bytes_of_string "waymux-mux-mkv") ++
  element_bytes ID_WRITING_APP (bytes_of_string "waymux-mux-mkv").

Definition info_body (dur : Z) : list Z :=
  info_prefix ++ element_bytes ID_DURATION (to_be 8 dur).

Definition video_body (width height : Z) : list Z :=
  u64_bytes ID_PIXEL_WIDTH width ++ u64_bytes ID_PIXEL_HEIGHT height.

Definition track_body (width height : Z) (priv : list Z) (cid : string) : list Z :=
  u64_bytes ID_TRACK_NUMBER TRACK_NUMBER ++ u64_bytes ID_TRACK_UID 0xDEADBEEF ++
  u64_bytes ID_TRACK_TYPE TRACK_TYPE_VIDEO ++ u64_bytes ID_FLAG_LACING 0 ++
  element_bytes ID_CODEC_ID (bytes_of_string cid) ++
  element_bytes ID_CODEC_PRIVATE priv ++
  element_bytes ID_VIDEO (video_body width height).

Definition preamble_head : list Z :=
  element_bytes ID_EBML ebml_body ++ id_bytes ID_SEGMENT ++ unknown_size_bytes ++
  id_bytes ID_INFO ++ vint_bytes (Z.of_nat (length (info_body 0))).

Definition tracks_bytes (width height : Z) (priv : list Z) (cid : string) : list Z :=
  element_bytes ID_TRACKS (element_bytes ID_TRACK_ENTRY (track_body width height priv cid)).

Definition preamble (dur width height : Z) (priv : list Z) (cid : string) : list Z :=
  preamble_head ++ info_body dur ++ tracks_bytes width height priv cid.

Definition cluster_bytes (t : Z) : list Z :=
  id_bytes ID_CLUSTER ++ unknown_size_bytes ++ u64_bytes ID_TIMECODE t.

Definition block_body (delta : Z) (key : bool) (payload : list Z) : list Z :=
  vint_bytes TRACK_NUMBER ++ to_be 2 delta ++ [if key then 0x80 else 0x00] ++ payload.

Definition block_bytes (delta : Z) (key : bool) (payload : list Z) : list Z :=
  element_bytes ID_SIMPLE_BLOCK (block_body delta key payload).

(** The cluster decision of [write_frame] on plain integers. *)
Definition fresh_cluster (opened : bool) (base pts : Z) (key : bool) : bool :=
  negb opened || (CLUSTER_DURATION_MS <? pts - base) || (key && (50 <? pts - base)).

Record frame := Frame { fr_data : list Z; fr_pts : Z; fr_key : bool }.

(** The bytes of a run of frames from a writer whose cluster is [opened] at
    [base]. *)
Fixpoint frames_bytes (opened : bool) (base : Z) (fs : list frame) : list Z :=
  match fs with
  | [] => []
  | Frame d p k :: fs' =>
      if fresh_cluster opened base p k
      then cluster_bytes p ++ block_bytes 0 k d ++ frames_bytes true p fs'
      else block_bytes (p - base) k d ++ frames_bytes true base fs'
  end.

(** A frame the format can hold: a payload below the size limit and a
    timestamp that leaves room for [i64] differences. *)
Definition frame_ok (f : frame) : Prop :=
  0 <= fr_pts f < 2 ^ 62 /\ Z.of_nat (length (fr_data f)) < 2 ^ 56 - 16.

(** No frame is more than 32768 ms before an earlier one (an [i16] delta). *)
Definition no_long_jump_back : list frame -> Prop :=
  StronglySorted (fun a b => fr_pts a - 32768 <= fr_pts b).

(** ** Reading the images back *)

Lemma read_unknown r : read_size (unknown_size_bytes ++ r) = Some (None, r).
Proof.
  replace unknown_size_bytes with (to_be 8 ((2 ^ 56 - 1) + 2 ^ (7 * Z.of_nat 8)))
    by (vm_compute; reflexivity).
  by rewrite read_size_to_be by lia.
Qed.

Lemma read_clusters_unfold fuel base l id l1 sz l2 :
  read_id l = Some (id, l1) -> read_size l1 = Some (sz, l2) ->
  read_clusters (S fuel) base l =
  match sz with
  | None => if id =? ID_CLUSTER then read_clusters fuel None l2 else None
  | Some n =>
      '(body, r) ← split_at_opt (Z.to_nat n) l2;
      if id =? ID_TIMECODE then read_clusters fuel (Some (from_be body)) r
      else if id =? ID_SIMPLE_BLOCK then
        t ← base; b ← read_block t body; bs ← read_clusters fuel base r; Some (b :: bs)
      else None
  end.
Proof.
  intros E1 E2. destruct l as [|x l]; [done|].
  cbn [read_clusters]. rewrite E1. cbn [mbind option_bind]. by rewrite E2.
Qed.

(** One step over an element of known size. *)
Lemma read_clusters_element fuel base id body r :
  valid_id id = true -> Z.of_nat (length body) < 2 ^ 56 - 1 ->
  read_clusters (S fuel) base (element_bytes id body ++ r) =
  if id =? ID_TIMECODE then read_clusters fuel (Some (from_be body)) r
  else if id =? ID_SIMPLE_BLOCK then
    t ← base; b ← read_block t body; bs ← read_clusters fuel base r; Some (b :: bs)
  else None.
Proof.
  intros Hid Hl. unfold element_bytes. rewrite <- !app_assoc.
  erewrite read_clusters_unfold by
    (first [by apply read_id_bytes | apply read_size_vint; lia]).
  cbv beta iota. by rewrite Nat2Z.id, split_at_opt_app.
Qed.

Lemma read_clusters_cluster fuel base t r :
  in_u 64 t ->
  read_clusters (S (S fuel)) base (cluster_bytes t ++ r) = read_clusters fuel (Some t) r.
Proof.
  intros Ht. unfold cluster_bytes. rewrite <- !app_assoc.
  erewrite read_clusters_unfold by
    (first [by apply read_id_bytes | apply read_unknown]).
  cbv beta iota. rewrite Z.eqb_refl. unfold u64_bytes.
  rewrite read_clusters_element by
    (first [done | rewrite length_to_be; destruct (uint_byte_len_spec t Ht); lia]).
  by rewrite Z.eqb_refl, uint_body_value.
Qed.

Lemma as_s16_to_be delta : in_s 16 delta -> as_s 16 (from_be (to_be 2 delta)) = delta.
Proof.
  intros Hd. rewrite from_be_to_be. unfold as_s, in_s in *. cbn in *.
  rewrite Z.add_mod_idemp_l by lia. rewrite Z.mod_small by lia. lia.
Qed.

Lemma read_block_body t delta key payload :
  in_s 16 delta ->
  read_block t (block_body delta key payload) = Some (Block TRACK_NUMBER (t + delta) key payload).
Proof.
  intros Hd. unfold read_block, block_body.
  rewrite read_size_vint by (unfold TRACK_NUMBER; lia). cbn [mbind option_bind].
  rewrite <- (length_to_be 2 delta) at 1. rewrite split_at_opt_app.
  cbn [mbind option_bind app head tail]. rewrite as_s16_to_be by done. by destruct key.
Qed.

Lemma block_body_length delta key payload :
  length (block_body delta key payload) = (4 + length payload)%nat.
Proof.
  unfold block_body. rewrite !length_app, length_to_be.
  replace (length (vint_bytes TRACK_NUMBER)) with 1%nat by reflexivity. cbn. lia.
Qed.

Lemma read_clusters_block fuel t delta key payload r :
  in_s 16 delta -> Z.of_nat (length payload) < 2 ^ 56 - 16 ->
  read_clusters (S fuel) (Some t) (block_bytes delta key payload ++ r) =
  (bs ← read_clusters fuel (Some t) r;
   Some (Block TRACK_NUMBER (t + delta) key payload :: bs)).
Proof.
  intros Hd Hp. unfold block_bytes.
  rewrite read_clusters_element by (first [done | rewrite block_body_length; lia]).
  rewrite (proj2 (Z.eqb_neq _ _)), Z.eqb_refl by done.
  cbn [mbind option_bind]. by rewrite read_block_body.
Qed.

Definition block_of (f : frame) : block := Block TRACK_NUMBER (fr_pts f) (fr_key f) (fr_data f).

(** The clusters of a run of frames demux to the frames. *)
Lemma read_clusters_frames fs : forall opened base fuel,
  (opened = true -> Forall (fun f => base - 32768 <= fr_pts f) fs) ->
  Forall frame_ok fs -> no_long_jump_back fs ->
  (3 * length fs < fuel)%nat ->
  read_clusters fuel (if opened then Some base else None) (frames_bytes opened base fs)
  = Some (block_of <$> fs).
Proof.
  induction fs as [|[d p k] fs IH]; intros opened base fuel Hb Hok Hj Hf.
  { destruct fuel; [cbn in Hf; lia | done]. }
  inversion Hok as [|? ? [Hp Hd] Hok']; subst. cbn [fr_pts fr_data] in *.
  inversion Hj as [|? ? Hj' Hall]; subst.
  destruct fuel as [|[|[|fuel]]]; [cbn in Hf; lia..|].
  cbn [length] in Hf. cbn [frames_bytes].
  destruct (fresh_cluster opened base p k) eqn:C.
  - rewrite read_clusters_cluster by (unfold in_u; lia).
    rewrite read_clusters_block by (unfold in_s; lia).
    rewrite (IH true p) by (try done; lia).
    cbn. by rewrite Z.add_0_r.
  - unfold fresh_cluster in C. boolz. subst opened. specialize (Hb eq_refl).
    inversion Hb as [|? ? Hb0 Hb']; subst. cbn [fr_pts] in Hb0.
    unfold CLUSTER_DURATION_MS in *.
    rewrite read_clusters_block by (unfold in_s; lia).
    rewrite (IH true base) by (try done; lia).
    cbn. by rewrite Zplus_minus.
Qed.

(** *** Master elements *)

Definition elems_bytes (els : list (Z * list Z)) : list Z :=
  concat ((fun e => element_bytes e.1 e.2) <$> els).

Definition elem_ok (e : Z * list Z) : Prop :=
  valid_id e.1 = true /\ Z.of_nat (length e.2) < 2 ^ 56 - 1.

Lemma element_bytes_cons id body r :
  valid_id id = true -> Z.of_nat (length body) < 2 ^ 56 - 1 ->
  exists x l, element_bytes id body ++ r = x :: l.
Proof.
  intros Hid Hl. pose proof (read_element_bytes id body r Hid Hl) as E.
  destruct (element_bytes id body ++ r) as [|x l]; [done | eauto].
Qed.

Lemma element_bytes_length id body : (0 < length (element_bytes id body))%nat.
Proof.
  unfold element_bytes. rewrite length_app, id_bytes_eq, length_to_be.
  unfold id_len. repeat case_match; lia.
Qed.

Lemma elems_bytes_length els : (length els <= length (elems_bytes els))%nat.
Proof.
  unfold elems_bytes. induction els as [|[i b] els IH]; [cbn; lia|].
  cbn [fmap list_fmap concat length]. rewrite length_app.
  pose proof (element_bytes_length i b). cbn [fst snd]. lia.
Qed.

Lemma read_children_elems els fuel :
  Forall elem_ok els -> (length els < fuel)%nat ->
  read_children fuel (elems_bytes els) = Some els.
Proof.
  revert fuel. induction els as [|[i b] els IH]; intros fuel Hok Hf.
  { destruct fuel; [cbn in Hf; lia | done]. }
  inversion Hok as [|? ? [Hi Hb] Hok']; subst. cbn [fst snd] in *.
  destruct fuel as [|fuel]; [lia|]. cbn [length] in Hf.
  unfold elems_bytes in *. cbn [fmap list_fmap concat fst snd].
  destruct (element_bytes_cons i b (concat ((fun e => element_bytes e.1 e.2) <$> els)) Hi Hb)
    as (x & l & E).
  cbn [read_children]. rewrite E, <- E, read_element_bytes by done.
  cbn [mbind option_bind]. by rewrite IH by (done || lia).
Qed.

Lemma children_elems els :
  Forall elem_ok els -> children (elems_bytes els) = Some els.
Proof.
  intros Hok. unfold children. apply read_children_elems; [done|].
  pose proof (elems_bytes_length els). lia.
Qed.

Lemma expect_element id body r :
  valid_id id = true -> Z.of_nat (length body) < 2 ^ 56 - 1 ->
  expect id (element_bytes id body ++ r) = Some (body, r).
Proof.
  intros. unfold expect. rewrite read_element_bytes by done.
  cbn [mbind option_bind]. by rewrite Z.eqb_refl.
Qed.

(** *** The preamble as lists of children *)

Definition u64_elem (id val : Z) : Z * list Z :=
  (id, to_be (Z.to_nat (uint_byte_len val)) val).

Definition info_elems (dur : Z) : list (Z * list Z) :=
  [ u64_elem ID_TIMECODE_SCALE TIMECODE_SCALE_NS;
    (ID_MUXING_APP, bytes_of_string "waymux-mux-mkv");
    (ID_WRITING_APP, bytes_of_string "waymux-mux-mkv");
    (ID_DURATION, to_be 8 dur) ].

Definition video_elems (width height : Z) : list (Z * list Z) :=
  [ u64_elem ID_PIXEL_WIDTH width; u64_elem ID_PIXEL_HEIGHT height ].

Definition track_elems (width height : Z) (priv : list Z) (cid : string) : list (Z * list Z) :=
  [ u64_elem ID_TRACK_NUMBER TRACK_NUMBER; u64_elem ID_TRACK_UID 0xDEADBEEF;
    u64_elem ID_TRACK_TYPE TRACK_TYPE_VIDEO; u64_elem ID_FLAG_LACING 0;
    (ID_CODEC_ID, bytes_of_string cid); (ID_CODEC_PRIVATE, priv);
    (ID_VIDEO, video_body width height) ].

Lemma info_body_elems dur : info_body dur = elems_bytes (info_elems dur).
Proof. unfold info_body, info_prefix, elems_bytes. cbn. by rewrite <- !app_assoc, app_nil_r. Qed.

Lemma video_body_elems w h : video_body w h = elems_bytes (video_elems w h).
Proof. unfold video_body, elems_bytes. cbn. by rewrite app_nil_r. Qed.

Lemma track_body_elems w h p c : track_body w h p c = elems_bytes (track_elems w h p c).
Proof. unfold track_body, elems_bytes. cbn. by rewrite app_nil_r. Qed.

Lemma length_vint n : 0 <= n < 2 ^ 56 - 1 -> (length (vint_bytes n) <= 8)%nat.
Proof.
  intros Hn. destruct (vint_bytes_eq n Hn) as (Hk & _ & ->). rewrite length_to_be. lia.
Qed.

Lemma length_element id body :
  Z.of_nat (length body) < 2 ^ 56 - 1 ->
  (length (element_bytes id body) <= 12 + length body)%nat.
Proof.
  intros Hl. unfold element_bytes.
  pose proof (length_vint (Z.of_nat (length body)) ltac:(lia)).
  rewrite !length_app, id_bytes_eq, length_to_be. unfold id_len. repeat case_match; lia.
Qed.

Lemma u64_elem_length id val : in_u 64 val -> (length (u64_elem id val).2 <= 8)%nat.
Proof.
  intros Hv. cbn [u64_elem snd]. rewrite length_to_be.
  destruct (uint_byte_len_spec val Hv). lia.
Qed.

Lemma u64_elem_ok id val : valid_id id = true -> in_u 64 val -> elem_ok (u64_elem id val).
Proof.
  intros Hi Hv. split; [done|]. pose proof (u64_elem_length id val Hv). lia.
Qed.

Lemma video_body_length w h :
  in_u 64 w -> in_u 64 h -> (length (video_body w h) <= 40)%nat.
Proof.
  intros Hw Hh. unfold video_body, u64_bytes.
  pose proof (u64_elem_length ID_PIXEL_WIDTH w Hw) as A.
  pose proof (u64_elem_length ID_PIXEL_HEIGHT h Hh) as B. cbn [u64_elem snd] in A, B.
  rewrite length_app.
  pose proof (length_element ID_PIXEL_WIDTH (to_be (Z.to_nat (uint_byte_len w)) w) ltac:(lia)).
  pose proof (length_element ID_PIXEL_HEIGHT (to_be (Z.to_nat (uint_byte_len h)) h) ltac:(lia)).
  lia.
Qed.

(** The caller's strings are of a size that can exist in memory. *)
Definition track_strings_ok (priv : list Z) (cid : string) : Prop :=
  Z.of_nat (length priv) < 2 ^ 48 /\ Z.of_nat (length (bytes_of_string cid)) < 2 ^ 48.

Lemma track_elems_ok w h priv cid :
  in_u 64 w -> in_u 64 h -> track_strings_ok priv cid ->
  Forall elem_ok (track_elems w h priv cid).
Proof.
  intros Hw Hh [Hp Hc]. pose proof (video_body_length w h Hw Hh).
  unfold track_elems. repeat (apply Forall_cons_2 || apply Forall_nil_2);
    try (apply u64_elem_ok; [done | unfold in_u; cbn; lia]);
    split; cbn [fst snd]; (done || lia).
Qed.

Lemma track_body_length w h priv cid :
  in_u 64 w -> in_u 64 h -> track_strings_ok priv cid ->
  Z.of_nat (length (track_body w h priv cid)) < 2 ^ 50.
Proof.
  intros Hw Hh [Hp Hc]. pose proof (video_body_length w h Hw Hh) as V.
  unfold track_body. rewrite !length_app.
  pose proof (length_element ID_CODEC_ID (bytes_of_string cid) ltac:(lia)).
  pose proof (length_element ID_CODEC_PRIVATE priv ltac:(lia)).
  pose proof (length_element ID_VIDEO (video_body w h) ltac:(lia)).
  replace (length (u64_bytes ID_TRACK_NUMBER TRACK_NUMBER)) with 3%nat by reflexivity.
  replace (length (u64_bytes ID_TRACK_UID 0xDEADBEEF)) with 7%nat by reflexivity.
  replace (length (u64_bytes ID_TRACK_TYPE TRACK_TYPE_VIDEO)) with 3%nat by reflexivity.
  replace (length (u64_bytes ID_FLAG_LACING 0)) with 3%nat by reflexivity.
  lia.
Qed.

(** The preamble as the sequence of elements a reader meets. *)
Lemma preamble_elements dur w h priv cid clusters :
  preamble dur w h priv cid ++ clusters =
  element_bytes ID_EBML ebml_body ++ id_bytes ID_SEGMENT ++ unknown_size_bytes ++
  element_bytes ID_INFO (info_body dur) ++ tracks_bytes w h priv cid ++ clusters.
Proof.
  unfold preamble, preamble_head, element_bytes. rewrite <- !app_assoc.
  replace (length (info_body dur)) with (length (info_body 0)); [done|].
  unfold info_body, element_bytes. by rewrite !length_app, !length_to_be.
Qed.

Lemma info_body_length dur : Z.of_nat (length (info_body dur)) < 2 ^ 56 - 1.
Proof. unfold info_body, element_bytes. rewrite !length_app, length_to_be. done. Qed.

Lemma info_children dur : children (info_body dur) = Some (info_elems dur).
Proof.
  rewrite info_body_elems. apply children_elems.
  repeat (apply Forall_cons_2 || apply Forall_nil_2);
    split; cbn [fst snd]; rewrite ?length_to_be; done.
Qed.

Lemma entry_children body :
  Z.of_nat (length body) < 2 ^ 50 ->
  children (element_bytes ID_TRACK_ENTRY body) = Some [(ID_TRACK_ENTRY, body)].
Proof.
  intros H. replace (element_bytes ID_TRACK_ENTRY body) with (elems_bytes [(ID_TRACK_ENTRY, body)])
    by (unfold elems_bytes; cbn; by rewrite app_nil_r).
  apply children_elems. apply Forall_cons_2; [split; cbn [fst snd]; (done || lia) | apply Forall_nil_2].
Qed.

Lemma video_children w h :
  in_u 64 w -> in_u 64 h -> children (video_body w h) = Some (video_elems w h).
Proof.
  intros Hw Hh. rewrite video_body_elems. apply children_elems.
  repeat (apply Forall_cons_2 || apply Forall_nil_2); by apply u64_elem_ok.
Qed.

Lemma demux_preamble dur w h priv cid clusters :
  in_u 64 dur -> in_u 64 w -> in_u 64 h -> track_strings_ok priv cid ->
  demux (preamble dur w h priv cid ++ clusters) =
  (bs ← read_clusters (S (length clusters)) None clusters;
   Some (Movie (f64_int_value dur) w h (bytes_of_string cid) priv bs)).
Proof.
  intros Hd Hw Hh Hs.
  pose proof (track_body_length w h priv cid Hw Hh Hs) as Lt.
  pose proof (track_elems_ok w h priv cid Hw Hh Hs) as Ht.
  pose proof (length_element ID_TRACK_ENTRY (track_body w h priv cid) ltac:(lia)) as Le.
  rewrite preamble_elements. unfold demux.
  rewrite expect_element by done. cbn [mbind option_bind].
  rewrite read_id_bytes by done. cbn [mbind option_bind].
  rewrite read_unknown. cbn [mbind option_bind]. rewrite Z.eqb_refl. cbn [negb].
  rewrite expect_element by (done || apply info_body_length). cbn [mbind option_bind].
  rewrite info_children. cbn [mbind option_bind].
  replace (child ID_DURATION (info_elems dur)) with (Some (to_be 8 dur)) by reflexivity.
  cbn [mbind option_bind]. unfold tracks_bytes.
  rewrite expect_element by (done || lia). cbn [mbind option_bind].
  rewrite entry_children by done. cbn [mbind option_bind child]. rewrite Z.eqb_refl.
  cbn [mbind option_bind]. rewrite track_body_elems, children_elems by done. cbn [mbind option_bind].
  replace (child ID_CODEC_ID (track_elems w h priv cid))
    with (Some (bytes_of_string cid)) by reflexivity.
  replace (child ID_CODEC_PRIVATE (track_elems w h priv cid)) with (Some priv) by reflexivity.
  replace (child ID_VIDEO (track_elems w h priv cid)) with (Some (video_body w h)) by reflexivity.
  cbn [mbind option_bind]. rewrite video_children by done. cbn [mbind option_bind].
  replace (child ID_PIXEL_WIDTH (video_elems w h)) with (Some (u64_elem 0 w).2) by reflexivity.
  replace (child ID_PIXEL_HEIGHT (video_elems w h)) with (Some (u64_elem 0 h).2) by reflexivity.
  cbn [mbind option_bind u64_elem snd]. rewrite !uint_body_value by done.
  rewrite from_be_to_be, Z.mod_small by done. done.
Qed.

(** ** The writer on a file that is only appended to *)

Definition at_end (d : list Z) : file := File d (length d) None.

Lemma write_at_end bs d : write_all bs (at_end d) = (at_end (d ++ bs), Ok ()).
Proof.
  cbn. unfold file_write_all, at_end. cbn.
  destruct bs as [|b bs]; [by rewrite app_nil_r|].
  unfold file_put. cbn [f_pos f_data f_room].
  rewrite Nat.sub_diag. cbn [replicate]. rewrite app_nil_r, overwrite_app. by rewrite length_app.
Qed.

Lemma position_at_end d : stream_position (at_end d) = (at_end d, Ok (Z.of_nat (length d))).
Proof. done. Qed.

Lemma build_vec_ok {W} (m : Io (list Z) unit) bs (w : W) :
  m [] = (bs, Ok ()) -> build_vec m w = (w, Ok bs).
Proof. intros E. unfold build_vec. by rewrite E. Qed.

Section images.
Context {W : Type} `{WriteLaws W}.

Lemma write_u64_img id val w :
  in_u 64 val -> write_element_u64 id val w = write_all (u64_bytes id val) w.
Proof. apply write_element_u64_eq. Qed.

Lemma write_segment_start_img w :
  write_segment_start w = write_all (id_bytes ID_SEGMENT ++ unknown_size_bytes) w.
Proof. by rewrite write_all_app. Qed.

Lemma write_cluster_start_img t w :
  0 <= t < 2 ^ 64 -> write_cluster_start t w = write_all (cluster_bytes t) w.
Proof.
  intros Ht. unfold cluster_bytes. rewrite write_all_app. apply eff_bind_ext.
  intros _ w1. rewrite write_all_app. apply eff_bind_ext.
  intros _ w2. rewrite Z.max_l by lia. by apply write_u64_img.
Qed.

Lemma write_ebml_header_img w :
  write_ebml_header w = write_all (element_bytes ID_EBML ebml_body) w.
Proof.
  unfold write_ebml_header. unfold mbind at 1, eff_mbind.
  rewrite (build_vec_ok _ ebml_body) by (vm_compute; reflexivity).
  by apply write_element_parts.
Qed.

Lemma write_simple_block_img delta key payload w :
  Z.of_nat (length payload) < 2 ^ 56 - 16 ->
  write_simple_block TRACK_NUMBER delta key payload w =
  write_all (block_bytes delta key payload) w.
Proof.
  intros Hp. unfold write_simple_block. unfold mbind at 1, eff_mbind.
  rewrite (build_vec_ok _ (vint_bytes TRACK_NUMBER)) by reflexivity. cbv beta iota zeta.
  unfold block_bytes.
  rewrite <- write_element_parts by (rewrite block_body_length; lia).
  rewrite block_body_length.
  replace (Z.of_nat (length (vint_bytes TRACK_NUMBER)) + 3 + Z.of_nat (length payload))
    with (Z.of_nat (4 + length payload)%nat)
    by (replace (length (vint_bytes TRACK_NUMBER)) with 1%nat by reflexivity; lia).
  apply eff_bind_ext. intros _ w1. apply eff_bind_ext. intros _ w2.
  unfold block_body.
  symmetry. etrans; [|apply write_all_app].
  by rewrite <- !app_assoc.
Qed.
End images.

Lemma write_vec bs (v : list Z) : write_all bs v = (v ++ bs, Ok ()).
Proof. done. Qed.

(** Run one writer of a [Vec] whose image is known. *)
Ltac vec_step :=
  erewrite eff_bind_ok;
  [|first [ rewrite write_u64_img by done
          | rewrite write_element_str_eq by lia
          | rewrite write_element_bytes_eq by lia ]; apply write_vec].

Lemma build_track w h priv cid :
  in_u 64 w -> in_u 64 h -> track_strings_ok priv cid ->
  (write_element_u64 ID_TRACK_NUMBER TRACK_NUMBER ;;
   write_element_u64 ID_TRACK_UID 0xDEADBEEF ;;
   write_element_u64 ID_TRACK_TYPE TRACK_TYPE_VIDEO ;;
   write_element_u64 ID_FLAG_LACING 0 ;;
   write_element_str ID_CODEC_ID (bytes_of_string cid) ;;
   write_element_bytes ID_CODEC_PRIVATE priv ;;
   write_element_id ID_VIDEO ;;
   write_element_size (Z.of_nat (length (video_body w h))) ;;
   write_all (video_body w h)) ([] : list Z) = (track_body w h priv cid, Ok ()).
Proof.
  intros Hw Hh [Hp Hc]. pose proof (video_body_length w h Hw Hh).
  do 6 vec_step. rewrite write_element_parts by lia. rewrite write_vec.
  unfold track_body. by rewrite <- !app_assoc.
Qed.

Lemma write_tracks_img w h priv cid d :
  in_u 64 w -> in_u 64 h -> track_strings_ok priv cid ->
  write_tracks w h priv cid (at_end d) = (at_end (d ++ tracks_bytes w h priv cid), Ok ()).
Proof.
  intros Hw Hh Hs. pose proof (track_body_length w h priv cid Hw Hh Hs) as Lt.
  pose proof (length_element ID_TRACK_ENTRY (track_body w h priv cid) ltac:(lia)) as Le.
  unfold write_tracks.
  erewrite eff_bind_ok.
  2: { apply (build_vec_ok _ (video_body w h)). vec_step. by rewrite write_u64_img by done. }
  erewrite eff_bind_ok by (apply build_vec_ok, build_track; done).
  erewrite eff_bind_ok.
  2: { apply (build_vec_ok _ (element_bytes ID_TRACK_ENTRY (track_body w h priv cid))).
       rewrite write_element_parts by lia. apply write_vec. }
  rewrite write_element_parts by lia. apply write_at_end.
Qed.

Lemma write_info_img d :
  write_info (at_end d) =
  (at_end (d ++ id_bytes ID_INFO ++ vint_bytes (Z.of_nat (length (info_body 0))) ++ info_body 0),
   Ok (Z.of_nat (length d) + 5 + Z.of_nat (length info_prefix) + 3)).
Proof.
  unfold write_info.
  erewrite eff_bind_ok by (apply (build_vec_ok _ info_prefix); vm_compute; reflexivity).
  erewrite eff_bind_ok by
    (apply (build_vec_ok _ (element_bytes ID_DURATION (to_be 8 0))); vm_compute; reflexivity).
  cbv zeta. fold (info_body 0).
  erewrite eff_bind_ok by apply position_at_end.
  erewrite eff_bind_ok by apply write_at_end.
  erewrite eff_bind_ok.
  2: { rewrite write_element_size_eq by (vm_compute; done). apply write_at_end. }
  erewrite eff_bind_ok by apply position_at_end.
  erewrite eff_bind_ok by apply write_at_end.
  unfold mret, eff_mret. rewrite !length_app, <- !app_assoc.
  do 2 f_equal. rewrite !Nat2Z.inj_add.
  replace (length (id_bytes ID_INFO)) with 4%nat by reflexivity.
  replace (length (vint_bytes (Z.of_nat (length (info_body 0))))) with 1%nat by reflexivity.
  lia.
Qed.

(** ** The whole recording *)

Definition duration_offset : nat := length (preamble_head ++ info_prefix) + 3.

Definition writer_at (d : list Z) (opened : bool) (base total last : Z) : MkvWriter file :=
  {| inner := at_end d; cluster_open := opened; cluster_base_ms := base;
     frames_total := total; last_pts_ms := last;
     duration_value_offset := Z.of_nat duration_offset |}.

Lemma new_for_codec_img w h priv cid :
  in_u 64 w -> in_u 64 h -> track_strings_ok priv cid ->
  new_for_codec (new_file None) w h priv cid =
  Ok (writer_at (preamble 0 w h priv cid) false 0 0 0).
Proof.
  intros Hw Hh Hs. unfold new_for_codec. change (new_file None) with (at_end []).
  erewrite eff_bind_ok by (rewrite write_ebml_header_img; apply write_at_end).
  erewrite eff_bind_ok by (rewrite write_segment_start_img; apply write_at_end).
  erewrite eff_bind_ok by apply write_info_img.
  erewrite eff_bind_ok by (apply write_tracks_img; done).
  unfold mret, eff_mret, writer_at. do 2 f_equal.
Qed.

(** The caller's loop over encoded frames, stopping at the first error. *)
Fixpoint write_frames {W} `{Write W, Seek W} (fs : list frame) : Io (MkvWriter W) unit :=
  match fs with
  | [] => mret ()
  | Frame d p k :: fs' => write_frame d p k ;; write_frames fs'
  end.

Lemma i64_sub_exact a b : 0 <= a < 2 ^ 62 -> 0 <= b < 2 ^ 62 -> i64_sub a b = a - b.
Proof. intros Ha Hb. unfold i64_sub. apply as_s_id; [lia|]. unfold in_s. lia. Qed.

Lemma need_new_cluster_eq d opened base total last p k :
  0 <= p < 2 ^ 62 -> 0 <= base < 2 ^ 62 ->
  need_new_cluster (writer_at d opened base total last) p k = fresh_cluster opened base p k.
Proof.
  intros Hp Hb. unfold need_new_cluster, fresh_cluster. cbn [cluster_open cluster_base_ms writer_at].
  by rewrite i64_sub_exact.
Qed.

Lemma write_block_img d opened base total last data p k :
  frame_ok (Frame data p k) -> 0 <= base < 2 ^ 62 -> in_s 16 (p - base) ->
  write_block data p k (writer_at d opened base total last) =
  (writer_at (d ++ block_bytes (p - base) k data) opened base (as_u 64 (total + 1)) p, Ok ()).
Proof.
  intros [Hp Hd] Hb Hs. unfold write_block.
  cbn [inner cluster_base_ms cluster_open frames_total duration_value_offset writer_at fr_pts
    fr_data] in *.
  rewrite i64_sub_exact, as_s_id by (done || lia).
  by rewrite write_simple_block_img, write_at_end by done.
Qed.

Lemma write_frame_img d opened base total last data p k :
  frame_ok (Frame data p k) -> 0 <= base < 2 ^ 62 ->
  (opened = true -> base - 32768 <= p) ->
  write_frame data p k (writer_at d opened base total last) =
  ((if fresh_cluster opened base p k
    then writer_at ((d ++ cluster_bytes p) ++ block_bytes 0 k data) true p
           (as_u 64 (total + 1)) p
    else writer_at (d ++ block_bytes (p - base) k data) true base (as_u 64 (total + 1)) p), Ok ()).
Proof.
  intros Hok Hb Hj. pose proof Hok as [Hp _]. cbn [fr_pts] in Hp.
  unfold write_frame, mbind, eff_mbind, ensure_cluster.
  rewrite need_new_cluster_eq by done. destruct (fresh_cluster opened base p k) eqn:C.
  - cbn [inner writer_at frames_total last_pts_ms duration_value_offset].
    rewrite write_cluster_start_img, write_at_end by lia.
    fold (writer_at (d ++ cluster_bytes p) true p total last).
    rewrite write_block_img by (done || (unfold in_s; lia)). by rewrite Z.sub_diag.
  - unfold fresh_cluster, CLUSTER_DURATION_MS in C. boolz. subst opened.
    by rewrite write_block_img by (done || (specialize (Hj eq_refl); unfold in_s; lia)).
Qed.

Definition last_pts (l0 : Z) (fs : list frame) : Z := default l0 (fr_pts <$> last fs).

Lemma write_frames_img fs : forall d opened base total last,
  0 <= base < 2 ^ 62 -> 0 <= total -> total + Z.of_nat (length fs) < 2 ^ 64 ->
  (opened = true -> Forall (fun f => base - 32768 <= fr_pts f) fs) ->
  Forall frame_ok fs -> no_long_jump_back fs ->
  exists opened' base',
    write_frames fs (writer_at d opened base total last) =
    (writer_at (d ++ frames_bytes opened base fs) opened' base'
       (total + Z.of_nat (length fs)) (last_pts last fs), Ok ()).
Proof.
  induction fs as [|[dt p k] fs IH]; intros d opened base total last0 Hb H0 Ht Hj Hok Hs.
  { exists opened, base. cbn. by rewrite app_nil_r, Z.add_0_r. }
  inversion Hok as [|? ? Hf Hok']; subst. inversion Hs as [|? ? Hs' Hall]; subst.
  cbn [length] in Ht. cbn [write_frames].
  erewrite eff_bind_ok.
  2: { apply write_frame_img; [done..|]. intros ->.
       specialize (Hj eq_refl). by inversion Hj. }
  assert (El : last_pts last0 (Frame dt p k :: fs) = last_pts p fs).
  { unfold last_pts. rewrite last_cons. by destruct (last fs). }
  rewrite El. cbn [frames_bytes length]. rewrite as_u_id by (unfold in_u; lia).
  replace (total + Z.of_nat (S (length fs))) with (total + 1 + Z.of_nat (length fs)) by lia.
  destruct (fresh_cluster opened base p k) eqn:C.
  - destruct (IH ((d ++ cluster_bytes p) ++ block_bytes 0 k dt) true p (total + 1) p)
      as (o & b & ->); try done; try lia.
    { destruct Hf as [Hp _]. cbn in Hp. lia. }
    exists o, b. by rewrite <- !app_assoc.
  - assert (opened = true) as -> by (unfold fresh_cluster in C; by boolz).
    destruct (IH (d ++ block_bytes (p - base) k dt) true base (total + 1) p)
      as (o & b & ->); try done; try lia.
    { intros _. specialize (Hj eq_refl). by inversion Hj. }
    exists o, b. by rewrite <- !app_assoc.
Qed.

Lemma seek_end_file (d : list Z) (p : nat) (r : option nat) :
  seek_end 0 (File d p r) = (File d (length d) r, Ok (Z.of_nat (length d))).
Proof.
  cbn. rewrite Z.add_0_r. case_match; boolz; [lia|]. by rewrite Nat2Z.id.
Qed.

(** [finish] replaces the eight placeholder bytes and nothing else. *)
Lemma finish_img w h priv cid cl opened base total last :
  0 <= last < 2 ^ 53 - 16 ->
  finish (writer_at (preamble 0 w h priv cid ++ cl) opened base total last) =
  Ok (at_end (preamble (f64_bits (last + 16)) w h priv cid ++ cl)).
Proof.
  intros Hl. unfold finish, duration_ms. cbn [last_pts_ms inner duration_value_offset writer_at].
  rewrite Z.max_l, !round53_id by (try rewrite round53_id; lia).
  set (db := to_be 8 (f64_bits (last + 16))).
  assert (E : forall dur, preamble dur w h priv cid ++ cl =
    (preamble_head ++ info_prefix ++ [0x44; 0x89; 0x88]) ++ to_be 8 dur ++
    tracks_bytes w h priv cid ++ cl).
  { intros dur. unfold preamble, info_body, element_bytes. rewrite length_to_be.
    rewrite <- !app_assoc. done. }
  rewrite !E. fold db.
  assert (Ed : length db = 8%nat) by apply length_to_be.
  assert (El : length (preamble_head ++ info_prefix ++ [0x44; 0x89; 0x88]) = duration_offset)
    by reflexivity.
  unfold mbind, eff_mbind. cbn [seek_start file_seek at_end f_data f_room write_all file_write].
  unfold file_write_all. cbn [f_room]. unfold file_put.
  destruct db as [|b0 db'] eqn:Eb; [done|]. rewrite <- Eb in *. cbn [f_pos f_data f_room].
  rewrite Nat2Z.id, <- El.
  rewrite (length_app (preamble_head ++ _) (_ ++ _)).
  replace (length _ - (length _ + _))%nat with 0%nat by lia. cbn [replicate].
  rewrite app_nil_r, overwrite_inside by (by rewrite length_to_be).
  by rewrite seek_end_file.
Qed.

Lemma frames_bytes_length fs : forall opened base,
  (3 * length fs <= length (frames_bytes opened base fs))%nat.
Proof.
  assert (B : forall delta k d, (4 <= length (block_bytes delta k d))%nat).
  { intros. unfold block_bytes, element_bytes. rewrite !length_app, block_body_length. lia. }
  induction fs as [|[d p k] fs IH]; intros opened base; [cbn; lia|].
  cbn [frames_bytes length]. case_match; rewrite !length_app.
  - specialize (IH true p). specialize (B 0 k d). lia.
  - specialize (IH true base). specialize (B (p - base) k d). lia.
Qed.

(** A recording from start to finish. *)
Definition record_all (w : file) (width height : Z) (priv : list Z) (cid : string)
    (fs : list frame) : result file io_kind :=
  let? m := new_for_codec w width height priv cid in
  match write_frames fs m with
  | (m', Ok _) => finish m'
  | (_, Err e) => Err e
  end.

Lemma last_pts_range fs n :
  0 < n -> Forall (fun f => 0 <= fr_pts f < n) fs -> 0 <= last_pts 0 fs < n.
Proof.
  intros Hn Hf. unfold last_pts. destruct (last fs) as [f|] eqn:E; [|cbn; lia].
  apply last_Some_elem_of in E. rewrite Forall_forall in Hf. by apply Hf.
Qed.

(** Frames a file can hold and give back. *)
Definition sound_frames (fs : list frame) : Prop :=
  Forall frame_ok fs /\ Forall (fun f => 0 <= fr_pts f < 2 ^ 53 - 16) fs /\
  no_long_jump_back fs /\ Z.of_nat (length fs) < 2 ^ 64.

(** A writer that has written the headers. *)
Definition opened_at (w h : Z) (priv : list Z) (cid : string) : MkvWriter file :=
  writer_at (preamble 0 w h priv cid) false 0 0 0.

Lemma finish_sound w h priv cid fs m :
  in_u 32 w -> in_u 32 h -> track_strings_ok priv cid -> sound_frames fs ->
  write_frames fs (opened_at w h priv cid) = (m, Ok ()) ->
  exists f, finish m = Ok f /\ f_pos f = length (f_data f) /\
    demux (f_data f) = Some (Movie (last_pts 0 fs + 16) w h (bytes_of_string cid) priv (block_of <$> fs)).
Proof.
  intros Hw Hh Ht (H1 & H2 & H3 & H4) Hm.
  assert (Hw' : in_u 64 w) by (unfold in_u in *; lia).
  assert (Hh' : in_u 64 h) by (unfold in_u in *; lia).
  pose proof (last_pts_range fs (2 ^ 53 - 16) ltac:(lia) H2) as Hl.
  pose proof (f64_bits_range (last_pts 0 fs + 16) ltac:(lia)) as Hb.
  destruct (write_frames_img fs (preamble 0 w h priv cid) false 0 0 0) as (o & b & E);
    [lia..|done|done|done|].
  unfold opened_at in Hm. rewrite E in Hm.
  apply (f_equal fst) in Hm. cbn [fst] in Hm. subst m. rewrite finish_img by done.
  eexists. split; [done|]. split; [done|]. cbn [f_data at_end]. rewrite demux_preamble by done.
  pose proof (frames_bytes_length fs false 0).
  rewrite (read_clusters_frames fs false 0) by (done || lia).
  cbn [mbind option_bind]. by rewrite f64_int_value_bits by lia.
Qed.

(** C5: a whole recording (preamble, any number of frames, [finish]) always
    succeeds on a device that does not fill up, and the file demuxes to exactly
    the frames written, in order, with their timestamps, keyframe flags and
    payloads, the configured track header, and a duration of the last timestamp
    plus 16 ms patched in place; the file position is at the end. Timestamps are
    below 2^53 - 16 ms, and no frame is more than 32768 ms before an earlier one,
    as the difference to the cluster's time is cast to an [i16], which wraps. *)
Theorem record_all_demux width height priv cid fs :
  in_u 32 width -> in_u 32 height -> track_strings_ok priv cid ->
  Forall frame_ok fs -> Forall (fun f => 0 <= fr_pts f < 2 ^ 53 - 16) fs ->
  no_long_jump_back fs -> Z.of_nat (length fs) < 2 ^ 64 ->
  exists f,
    record_all (new_file None) width height priv cid fs = Ok f /\
    f_pos f = length (f_data f) /\
    demux (f_data f) =
    Some (Movie (last_pts 0 fs + 16) width height (bytes_of_string cid) priv (block_of <$> fs)).
Proof.
  intros Hw Hh Hs Hok Hp Hj Hn.
  unfold record_all. rewrite new_for_codec_img by (unfold in_u in *; done || lia). cbn [mbind].
  destruct (write_frames_img fs (preamble 0 width height priv cid) false 0 0 0)
    as (o & b & E); [lia..|done|done|done|]. rewrite E.
  eapply finish_sound; [done..| |exact E]. done.
Qed.

Definition sample_frames : list frame :=
  [ Frame [1; 2; 3] 0 true; Frame [4] 40 false; Frame [] 33 false; Frame [5; 6] 1200 true ].

Lemma record_all_demux_witness :
  exists f,
    record_all (new_file None) 640 480 [9; 9] "V_FFV1" sample_frames = Ok f /\
    f_pos f = length (f_data f) /\
    demux (f_data f) =
    Some (Movie 1216 640 480 (bytes_of_string "V_FFV1") [9; 9] (block_of <$> sample_frames)).
Proof.
  apply (record_all_demux 640 480 [9; 9] "V_FFV1" sample_frames).
  - unfold in_u; lia.
  - unfold in_u; lia.
  - split; cbn; lia.
  - unfold sample_frames, frame_ok. repeat constructor; cbn; lia.
  - unfold sample_frames. repeat constructor; cbn; lia.
  - unfold no_long_jump_back, sample_frames. repeat constructor; cbn; lia.
  - cbn. lia.
Defined.

(** ** Errors *)

(** On any writer, a frame whose write fails leaves the frame count, the
    last timestamp and the duration offset as they were, and a frame that is
    written adds one to the count (modulo [2^64]), becomes the last timestamp
    and leaves a cluster open. *)
Theorem write_frame_counters {W} `{Write W, Seek W} data p k (m m' : MkvWriter W) r :
  write_frame data p k m = (m', r) ->
  duration_value_offset m' = duration_value_offset m /\
  match r with
  | Err _ => frames_total m' = frames_total m /\ last_pts_ms m' = last_pts_ms m
  | Ok _ => frames_total m' = as_u 64 (frames_total m + 1) /\ last_pts_ms m' = p /\
            cluster_open m' = true
  end.
Proof.
  intros E. unfold write_frame, mbind, eff_mbind, ensure_cluster, write_block in E.
  repeat case_match; simplify_eq; try done.
  unfold need_new_cluster in *. boolz. done.
Qed.

Lemma write_frame_counters_witness :
  exists m', write_frame [1; 2; 3] 5 true (set_inner (writer_at [] false 0 7 0) (new_file (Some 20%nat)))
             = (m', Err StorageFull) /\ frames_total m' = 7.
Proof.
  eexists. split; [vm_compute; reflexivity|].
  eapply (write_frame_counters [1; 2; 3] 5 true
    (set_inner (writer_at [] false 0 7 0) (new_file (Some 20%nat))) _ (Err StorageFull)).
  vm_compute. reflexivity.
Defined.
