(* ===== verification/ViewerProtocol.v ===== *)
(** * The session-to-bridge wire format
    ([crates/waymux-session/src/viewer/protocol.rs])

    Tag, little-endian length and payload: the frame type, its writer over any
    [Write], its reader over a byte stream, and the round trips in both
    directions with the exact size boundary between them. *)

From S2P Require Import Prelude Words Io.
From stdpp Require Import prelude list.
From Stdlib Require Import ZArith Lia.

Open Scope Z_scope.

Module Viewer.

Definition TAG_NALU : Z := 0x01.
Definition TAG_PTS : Z := 0x02.
Definition TAG_FORCE_KEYFRAME : Z := 0x10.
Definition TAG_INJECT_OP : Z := 0x11.
Definition TAG_SET_BITRATE : Z := 0x12.
Definition TAG_CURSOR_IMAGE : Z := 0x03.
Definition TAG_CURSOR_POS : Z := 0x04.
Definition TAG_SHUTDOWN : Z := 0xF0.

Definition MAX_PAYLOAD_BYTES : Z := 1024 * 1024.

(** [Frame] and [OwnedFrame]; an [f32] is its 32-bit pattern. *)
Inductive Frame :=
| Nalu (b : list Z)
| PtsHint (ms : Z)
| ForceKeyframe
| InjectOp (j : list Z)
| SetBitrate (bps : Z)
| Shutdown (reason : Z)
| CursorImage (w h hot_x hot_y : Z) (rgba : list Z)
| CursorPos (x y seq : Z).

#[global] Instance Frame_eq_dec : EqDecision Frame.
Proof. solve_decision. Defined.

Section writer.
Context {W : Type} `{Write W}.

Definition write_payload (tag : Z) (payload : list Z) : Io W unit := fun w =>
  let len := Z.of_nat (length payload) in
  if len <? 2 ^ 32 then
    (write_all [tag] ;; write_all (to_le 4 len) ;; write_all payload) w
  else (w, Err InvalidInput).

Definition write_frame (frame : Frame) : Io W unit :=
  match frame with
  | Nalu b => write_payload TAG_NALU b
  | PtsHint ms => write_payload TAG_PTS (to_le 8 ms)
  | ForceKeyframe => write_payload TAG_FORCE_KEYFRAME []
  | InjectOp j => write_payload TAG_INJECT_OP j
  | SetBitrate bps => write_payload TAG_SET_BITRATE (to_le 4 bps)
  | Shutdown reason => write_payload TAG_SHUTDOWN [reason]
  | CursorImage cw ch hot_x hot_y rgba =>
      write_payload TAG_CURSOR_IMAGE
        (to_le 2 cw ++ to_le 2 ch ++ to_le 2 hot_x ++ to_le 2 hot_y ++ rgba)
  | CursorPos x y seq => write_payload TAG_CURSOR_POS (to_le 4 x ++ to_le 4 y ++ to_le 4 seq)
  end.
End writer.

(** [Read::read_exact] on a stream that ends: the bytes asked for, or the rest
    consumed and [UnexpectedEof]. *)
Definition read_exact (n : nat) : Io (list Z) (list Z) := fun r =>
  if (n <=? length r)%nat then (drop n r, Ok (take n r)) else ([], Err UnexpectedEof).

(** The sub-slice [payload\[i .. i + n\]]. *)
Definition slice (i n : nat) (l : list Z) : list Z := take n (drop i l).

(** The [match tag] of [read_frame] on a payload of length [len]. *)
Definition decode_payload (tag len : Z) (payload : list Z) : result Frame io_kind :=
  if tag =? TAG_NALU then Ok (Nalu payload)
  else if tag =? TAG_PTS then
    if negb (len =? 8) then Err InvalidData else Ok (PtsHint (from_le payload))
  else if tag =? TAG_FORCE_KEYFRAME then Ok ForceKeyframe
  else if tag =? TAG_INJECT_OP then Ok (InjectOp payload)
  else if tag =? TAG_SET_BITRATE then
    if negb (len =? 4) then Err InvalidData else Ok (SetBitrate (from_le payload))
  else if tag =? TAG_SHUTDOWN then
    if negb (len =? 1) then Err InvalidData else Ok (Shutdown (nth 0 payload 0))
  else if tag =? TAG_CURSOR_IMAGE then
    if len <? 8 then Err InvalidData
    else
      let w := from_le (slice 0 2 payload) in
      let h := from_le (slice 2 2 payload) in
      let hot_x := from_le (slice 4 2 payload) in
      let hot_y := from_le (slice 6 2 payload) in
      let expected := 8 + w * h * 4 in
      if negb (len =? expected) then Err InvalidData
      else Ok (CursorImage w h hot_x hot_y (drop 8 payload))
  else if tag =? TAG_CURSOR_POS then
    if negb (len =? 12) then Err InvalidData
    else Ok (CursorPos (from_le (slice 0 4 payload)) (from_le (slice 4 4 payload))
               (from_le (slice 8 4 payload)))
  else Err InvalidData.

Definition read_frame : Io (list Z) Frame :=
  header ← read_exact 5;
  let tag := nth 0 header 0 in
  let len := from_le (slice 1 4 header) in
  if MAX_PAYLOAD_BYTES <? len then lift (Err InvalidData)
  else
    payload ← read_exact (Z.to_nat len);
    lift (decode_payload tag len payload).

(** ** Images *)

Definition tag_of (f : Frame) : Z :=
  match f with
  | Nalu _ => TAG_NALU
  | PtsHint _ => TAG_PTS
  | ForceKeyframe => TAG_FORCE_KEYFRAME
  | InjectOp _ => TAG_INJECT_OP
  | SetBitrate _ => TAG_SET_BITRATE
  | Shutdown _ => TAG_SHUTDOWN
  | CursorImage _ _ _ _ _ => TAG_CURSOR_IMAGE
  | CursorPos _ _ _ => TAG_CURSOR_POS
  end.

Definition payload_of (f : Frame) : list Z :=
  match f with
  | Nalu b | InjectOp b => b
  | PtsHint ms => to_le 8 ms
  | ForceKeyframe => []
  | SetBitrate bps => to_le 4 bps
  | Shutdown reason => [reason]
  | CursorImage w h hx hy rgba => to_le 2 w ++ to_le 2 h ++ to_le 2 hx ++ to_le 2 hy ++ rgba
  | CursorPos x y seq => to_le 4 x ++ to_le 4 y ++ to_le 4 seq
  end.

Definition frame_image (tag : Z) (payload : list Z) : list Z :=
  [tag] ++ to_le 4 (Z.of_nat (length payload)) ++ payload.

Definition image (f : Frame) : list Z := frame_image (tag_of f) (payload_of f).

(** The fields are in the range of their Rust types, and a cursor bitmap has
    four bytes for each of its pixels. *)
Definition frame_wf (f : Frame) : Prop :=
  match f with
  | Nalu b | InjectOp b => is_bytes b
  | PtsHint ms => in_u 64 ms
  | ForceKeyframe => True
  | SetBitrate bps => in_u 32 bps
  | Shutdown r => in_u 8 r
  | CursorImage w h hx hy rgba =>
      in_u 16 w /\ in_u 16 h /\ in_u 16 hx /\ in_u 16 hy /\
      Z.of_nat (length rgba) = w * h * 4 /\ is_bytes rgba
  | CursorPos x y seq => in_u 32 x /\ in_u 32 y /\ in_u 32 seq
  end.

Lemma write_payload_eq {W} `{WriteLaws W} tag payload w :
  Z.of_nat (length payload) < 2 ^ 32 ->
  write_payload tag payload w = write_all (frame_image tag payload) w.
Proof.
  intros Hl. unfold write_payload, frame_image. rewrite (proj2 (Z.ltb_lt _ _)) by done.
  rewrite write_all_app. apply eff_bind_ext. intros _ w1. by rewrite write_all_app.
Qed.

Lemma write_frame_eq {W} `{WriteLaws W} f w :
  Z.of_nat (length (payload_of f)) < 2 ^ 32 -> write_frame f w = write_all (image f) w.
Proof. intros Hl. destruct f; by apply write_payload_eq. Qed.

Lemma write_frame_too_large {W} `{Write W} f w :
  2 ^ 32 <= Z.of_nat (length (payload_of f)) -> write_frame f w = (w, Err InvalidInput).
Proof.
  intros Hl. destruct f; cbn [write_frame payload_of] in *; unfold write_payload;
    by rewrite (proj2 (Z.ltb_ge _ _)).
Qed.

(** ** Decoding a payload *)

Lemma slice_app (a b c : list Z) (i n : nat) :
  length a = i -> length b = n -> slice i n (a ++ b ++ c) = b.
Proof.
  intros <- <-. unfold slice. rewrite drop_app_length. apply take_app_length.
Qed.

Lemma slice_head (b c : list Z) (n : nat) : length b = n -> slice 0 n (b ++ c) = b.
Proof. intros <-. unfold slice. apply take_app_length. Qed.

Lemma slice_end (a b : list Z) (i n : nat) :
  length a = i -> length b = n -> slice i n (a ++ b) = b.
Proof. intros Ha Hb. rewrite <- (app_nil_r b) at 1. by apply slice_app. Qed.

Lemma from_le_to_le_id n w z :
  8 * Z.of_nat n = w -> in_u w z -> from_le (to_le n z) = z.
Proof.
  intros <- H. rewrite from_le_to_le. apply Z.mod_small.
  replace 256 with (2 ^ 8) by done. rewrite <- Z.pow_mul_r by lia. done.
Qed.

Lemma decode_image f :
  frame_wf f ->
  decode_payload (tag_of f) (Z.of_nat (length (payload_of f))) (payload_of f) = Ok f.
Proof.
  destruct f as [b|ms| |j|bps|r|w h hx hy rgba|x y seq]; cbn [frame_wf tag_of payload_of];
    unfold decode_payload; cbn -[to_le from_le in_u Z.mul slice]; intros Hw; try done.
  - rewrite length_to_le. cbn -[to_le from_le]. by rewrite (from_le_to_le_id 8 64).
  - rewrite length_to_le. cbn -[to_le from_le]. by rewrite (from_le_to_le_id 4 32).
  - destruct Hw as (Hw & Hh & Hx & Hy & Hl & Hb).
    rewrite (slice_head (to_le 2 w)) by done.
    rewrite (slice_app (to_le 2 w) (to_le 2 h)) by done.
    replace (slice 4 2 _) with (to_le 2 hx) by
      (symmetry; rewrite (app_assoc (to_le 2 w)); by apply slice_app).
    replace (slice 6 2 _) with (to_le 2 hy) by
      (symmetry; rewrite (app_assoc (to_le 2 w)), (app_assoc (_ ++ _)); by apply slice_app).
    rewrite !(from_le_to_le_id 2 16) by done.
    rewrite !length_app, !length_to_le.
    destruct (Z.ltb_spec (Z.of_nat (2 + (2 + (2 + (2 + length rgba))))) 8); [lia|].
    destruct (Z.eqb_spec (Z.of_nat (2 + (2 + (2 + (2 + length rgba))))) (8 + w * h * 4)); [|lia].
    done.
  - destruct Hw as (Hx & Hy & Hs).
    rewrite (slice_head (to_le 4 x)) by done.
    rewrite (slice_app (to_le 4 x) (to_le 4 y) (to_le 4 seq) 4 4) by done.
    replace (slice 8 4 _) with (to_le 4 seq) by
      (symmetry; rewrite (app_assoc (to_le 4 x)); by apply slice_end).
    by rewrite !(from_le_to_le_id 4 32).
Qed.

(** Reading an image: the size check decides. *)
Lemma read_frame_image tag payload rest :
  Z.of_nat (length payload) < 2 ^ 32 ->
  read_frame (frame_image tag payload ++ rest) =
  if MAX_PAYLOAD_BYTES <? Z.of_nat (length payload)
  then (payload ++ rest, Err InvalidData)
  else (rest, decode_payload tag (Z.of_nat (length payload)) payload).
Proof.
  intros Hl. unfold read_frame, frame_image. set (n := Z.of_nat (length payload)) in *.
  replace (([tag] ++ to_le 4 n ++ payload) ++ rest)
    with (([tag] ++ to_le 4 n) ++ payload ++ rest) by (by rewrite <- !app_assoc).
  assert (L5 : length ([tag] ++ to_le 4 n) = 5%nat) by done.
  erewrite eff_bind_ok.
  2: { unfold read_exact. rewrite length_app, L5.
       rewrite (proj2 (Nat.leb_le _ _)) by lia.
       by rewrite take_app_exact, drop_app_exact by done. }
  replace (slice 1 4 ([tag] ++ to_le 4 n)) with (to_le 4 n)
    by (symmetry; by apply slice_end).
  rewrite (from_le_to_le_id 4 32) by (done || (unfold in_u, n; lia)).
  change (nth 0 ([tag] ++ to_le 4 n) 0) with tag.
  destruct (Z.ltb_spec MAX_PAYLOAD_BYTES n); [done|].
  unfold n. erewrite eff_bind_ok; [done|].
  unfold read_exact. rewrite Nat2Z.id, length_app, (proj2 (Nat.leb_le _ _)) by lia.
  by rewrite take_app_length, drop_app_length.
Qed.

(** ** Sequences of frames *)

Fixpoint write_frames {W} `{Write W} (fs : list Frame) : Io W unit :=
  match fs with
  | [] => mret ()
  | f :: fs' => write_frame f ;; write_frames fs'
  end.

(** The reader loop: frames until the first error, which it ends with. *)
Fixpoint read_frames (fuel : nat) (r : list Z) : list Frame * option io_kind :=
  match fuel with
  | O => ([], None)
  | S fuel' =>
      match read_frame r with
      | (_, Err e) => ([], Some e)
      | (r', Ok f) => let '(fs, e) := read_frames fuel' r' in (f :: fs, e)
      end
  end.

Definition frame_fits (f : Frame) : Prop :=
  frame_wf f /\ Z.of_nat (length (payload_of f)) <= MAX_PAYLOAD_BYTES.

Lemma read_image f rest : frame_fits f -> read_frame (image f ++ rest) = (rest, Ok f).
Proof.
  intros [Hw Hl]. unfold MAX_PAYLOAD_BYTES in Hl. unfold image.
  rewrite read_frame_image by lia.
  destruct (Z.ltb_spec MAX_PAYLOAD_BYTES (Z.of_nat (length (payload_of f))));
    [unfold MAX_PAYLOAD_BYTES in *; lia|]. by rewrite decode_image.
Qed.

Lemma read_exact_split n r r' b :
  read_exact n r = (r', Ok b) -> r = b ++ r' /\ length b = n.
Proof.
  unfold read_exact. case_match; boolz; intros; simplify_eq.
  rewrite take_drop, length_take. split; [done | lia].
Qed.

Lemma slice_length i n (l : list Z) : (i + n <= length l)%nat -> length (slice i n l) = n.
Proof. intros H. unfold slice. rewrite length_take, length_drop. lia. Qed.

Lemma slice_bytes i n l : is_bytes l -> is_bytes (slice i n l).
Proof. intros H. by apply Forall_take, Forall_drop. Qed.

(** A field read from a byte string is in range and re-encodes to its bytes. *)
Lemma field_whole n l :
  is_bytes l -> length l = n ->
  in_u (8 * Z.of_nat n) (from_le l) /\ to_le n (from_le l) = l.
Proof.
  intros Hb <-. split; [|by apply to_le_from_le].
  unfold in_u. rewrite Z.pow_mul_r by lia. by apply from_le_range.
Qed.

Lemma field_slice i n l :
  is_bytes l -> (i + n <= length l)%nat ->
  in_u (8 * Z.of_nat n) (from_le (slice i n l)) /\ to_le n (from_le (slice i n l)) = slice i n l.
Proof. intros Hb Hl. apply field_whole; [by apply slice_bytes | by apply slice_length]. Qed.

Lemma slice_drop i n (l : list Z) : slice i n l ++ drop (i + n) l = drop i l.
Proof. unfold slice. rewrite <- drop_drop. apply take_drop. Qed.

Lemma slice_tail i n (l : list Z) : (length l = i + n)%nat -> slice i n l = drop i l.
Proof. intros H. unfold slice. apply take_ge. rewrite length_drop. lia. Qed.

Lemma decode_cursor_image payload w h hx hy rgba :
  is_bytes payload ->
  decode_payload TAG_CURSOR_IMAGE (Z.of_nat (length payload)) payload
    = Ok (CursorImage w h hx hy rgba) ->
  frame_wf (CursorImage w h hx hy rgba) /\ payload_of (CursorImage w h hx hy rgba) = payload.
Proof.
  intros Hb E. unfold decode_payload in E. cbn -[Z.mul slice from_le] in E.
  repeat case_match; simplify_eq. boolz.
  destruct (field_slice 0 2 payload Hb ltac:(lia)) as [R1 T1].
  destruct (field_slice 2 2 payload Hb ltac:(lia)) as [R2 T2].
  destruct (field_slice 4 2 payload Hb ltac:(lia)) as [R3 T3].
  destruct (field_slice 6 2 payload Hb ltac:(lia)) as [R4 T4].
  cbn [frame_wf payload_of]. rewrite T1, T2, T3, T4. split.
  - repeat split; try done; try apply R1; try apply R2; try apply R3; try apply R4.
    + rewrite length_drop. lia.
    + by apply Forall_drop.
  - by rewrite (slice_drop 6 2), (slice_drop 4 2), (slice_drop 2 2), (slice_drop 0 2), drop_0.
Qed.

Lemma decode_cursor_pos payload x y seq :
  is_bytes payload ->
  decode_payload TAG_CURSOR_POS (Z.of_nat (length payload)) payload = Ok (CursorPos x y seq) ->
  frame_wf (CursorPos x y seq) /\ payload_of (CursorPos x y seq) = payload.
Proof.
  intros Hb E. unfold decode_payload in E. cbn -[Z.mul slice from_le] in E.
  repeat case_match; simplify_eq. boolz.
  destruct (field_slice 0 4 payload Hb ltac:(lia)) as [R1 T1].
  destruct (field_slice 4 4 payload Hb ltac:(lia)) as [R2 T2].
  destruct (field_slice 8 4 payload Hb ltac:(lia)) as [R3 T3].
  cbn [frame_wf payload_of]. rewrite T1, T2, T3. split; [done|].
  by rewrite (slice_tail 8 4), (slice_drop 4 4), (slice_drop 0 4), drop_0 by lia.
Qed.

Lemma decode_payload_inv tag payload f :
  is_bytes payload -> decode_payload tag (Z.of_nat (length payload)) payload = Ok f ->
  frame_wf f /\ tag_of f = tag /\ (f <> ForceKeyframe -> payload_of f = payload).
Proof.
  intros Hb E. pose proof E as E0. unfold decode_payload in E.
  repeat (case_match; simplify_eq); boolz; subst; cbn [tag_of]; try done.
  - destruct (field_whole 8 payload Hb ltac:(lia)) as [R T]. cbn [frame_wf payload_of].
    by rewrite T.
  - destruct (field_whole 4 payload Hb ltac:(lia)) as [R T]. cbn [frame_wf payload_of].
    by rewrite T.
  - destruct payload as [|b [|]]; cbn in *; try lia.
    inversion Hb; subst. done.
  - apply decode_cursor_image in E0 as [? ?]; [|done]. done.
  - apply decode_cursor_pos in E0 as [? ?]; [|done]. done.
Qed.

(** The header a reader has consumed. *)
Lemma header_image header payload :
  is_bytes header -> length header = 5%nat ->
  from_le (slice 1 4 header) = Z.of_nat (length payload) ->
  header ++ payload = frame_image (nth 0 header 0) payload.
Proof.
  intros Hb Hl E. unfold frame_image.
  destruct (field_slice 1 4 header Hb ltac:(lia)) as [_ T]. rewrite <- E, T.
  rewrite slice_tail by lia. destruct header; [done|]. by rewrite app_assoc.
Qed.

(** ** Properties *)

(** A frame whose payload fits a [u32] is always written, and reading it
    back gives the same frame and leaves the rest of the stream, exactly when
    its payload is at most 1 MiB; a larger one, which the writer accepts, is
    refused by the reader with its payload left in the stream. *)
Theorem viewer_frame_boundary f rest :
  frame_wf f -> Z.of_nat (length (payload_of f)) < 2 ^ 32 ->
  exists bytes,
    write_frame f [] = (bytes, Ok ()) /\
    read_frame (bytes ++ rest) =
      if MAX_PAYLOAD_BYTES <? Z.of_nat (length (payload_of f))
      then (payload_of f ++ rest, Err InvalidData) else (rest, Ok f).
Proof.
  intros Hw Hl. exists (image f). split; [by rewrite write_frame_eq|].
  unfold image. by rewrite read_frame_image, decode_image.
Qed.

Lemma viewer_frame_boundary_witness :
  exists bytes,
    write_frame (CursorImage 1 2 0 1 [1; 2; 3; 4; 5; 6; 7; 8]) [] = (bytes, Ok ()) /\
    read_frame (bytes ++ [42]) = ([42], Ok (CursorImage 1 2 0 1 [1; 2; 3; 4; 5; 6; 7; 8])).
Proof.
  apply (viewer_frame_boundary (CursorImage 1 2 0 1 [1; 2; 3; 4; 5; 6; 7; 8]) [42]).
  - vm_compute. repeat split; repeat constructor; done.
  - vm_compute. done.
Defined.

(** The fields are in the range of their Rust types. *)
Definition frame_typed (f : Frame) : Prop :=
  match f with
  | CursorImage w h hx hy rgba => in_u 16 w /\ in_u 16 h /\ in_u 16 hx /\ in_u 16 hy /\ is_bytes rgba
  | _ => frame_wf f
  end.

(** What the reader takes: at most 1 MiB of payload, and a cursor bitmap of its size. *)
Definition readable (f : Frame) : bool :=
  (Z.of_nat (length (payload_of f)) <=? MAX_PAYLOAD_BYTES) &&
  match f with CursorImage w h _ _ rgba => Z.of_nat (length rgba) =? w * h * 4 | _ => true end.

Lemma readable_fits f : frame_typed f -> readable f = true -> frame_fits f.
Proof.
  intros Ht Hr. unfold readable in Hr. boolz. destruct f; split; cbn in *; try done; boolz; tauto.
Qed.

(** A bitmap of another size is refused. *)
Lemma decode_cursor_bad w h hx hy rgba :
  in_u 16 w -> in_u 16 h -> Z.of_nat (length rgba) <> w * h * 4 ->
  let payload := payload_of (CursorImage w h hx hy rgba) in
  decode_payload TAG_CURSOR_IMAGE (Z.of_nat (length payload)) payload = Err InvalidData.
Proof.
  intros Hw Hh Hl. cbn [payload_of]. unfold decode_payload. cbn -[to_le from_le in_u Z.mul slice].
  rewrite (slice_head (to_le 2 w)), (slice_app (to_le 2 w) (to_le 2 h)) by done.
  rewrite !(from_le_to_le_id 2 16) by done. rewrite !length_app, !length_to_le.
  destruct (Z.ltb_spec (Z.of_nat (2 + (2 + (2 + (2 + length rgba))))) 8); [lia|].
  by rewrite (proj2 (Z.eqb_neq _ _)) by lia.
Qed.

Lemma read_unreadable f rest : frame_typed f -> Z.of_nat (length (payload_of f)) < 2 ^ 32 -> readable f = false ->
  exists r, read_frame (image f ++ rest) = (r, Err InvalidData).
Proof.
  intros Ht Hl Hr. unfold image. rewrite read_frame_image by done. unfold readable in Hr.
  destruct (Z.ltb_spec MAX_PAYLOAD_BYTES (Z.of_nat (length (payload_of f)))) as [Hb|Hb]; [by eexists|].
  rewrite (proj2 (Z.leb_le _ _)) in Hr by lia. destruct f; try done. cbn [andb] in Hr. boolz.
  destruct Ht as (Hw & Hh & _). eexists. cbn [tag_of]. by rewrite decode_cursor_bad.
Qed.

(** The frames before the first that is not readable. *)
Fixpoint readable_part (fs : list Frame) : list Frame :=
  match fs with
  | f :: fs' => if readable f then f :: readable_part fs' else []
  | [] => []
  end.

Lemma write_typed_vec fs v :
  Forall (fun f => Z.of_nat (length (payload_of f)) < 2 ^ 32) fs -> write_frames fs v = (v ++ concat (image <$> fs), Ok ()).
Proof.
  intros H. revert v. induction H as [|f fs Hl _ IH]; intros v; [cbn; by rewrite app_nil_r|].
  cbn [write_frames]. erewrite eff_bind_ok by (rewrite write_frame_eq by lia; reflexivity).
  rewrite IH. cbn [fmap list_fmap concat]. by rewrite <- app_assoc.
Qed.

(** C37: a stream of frames written one after another, each of less than 4 GiB, is read back
    as the same frames in the same order up to the first that the reader does not take: one
    with more than 1 MiB of payload, or a cursor image whose bitmap has not four bytes per
    pixel. There the reader ends with an error, although the writer went on; when there is no
    such frame it has read them all and ends at a clean end of stream. *)
Theorem viewer_stream_roundtrip fs :
  Forall frame_typed fs -> Forall (fun f => Z.of_nat (length (payload_of f)) < 2 ^ 32) fs ->
  exists bytes,
    write_frames fs [] = (bytes, Ok ()) /\
    read_frames (S (length fs)) bytes =
      (readable_part fs, Some (if forallb readable fs then UnexpectedEof else InvalidData)) /\
    (forallb readable fs = true -> readable_part fs = fs).
Proof.
  intros Ht Hl. eexists. split; [by apply write_typed_vec|]. cbn [app].
  induction Ht as [|f fs Hf _ IH]; [done|]. apply Forall_cons in Hl as [Hlf Hl]. specialize (IH Hl) as [IH1 IH2].
  cbn [fmap list_fmap concat length]. cbn [read_frames readable_part forallb].
  destruct (readable f) eqn:Er; cbn [andb].
  - rewrite read_image by (by apply readable_fits). cbn [read_frames] in IH1. rewrite IH1. split; [done|].
    intros Ha. by rewrite IH2.
  - by destruct (read_unreadable f (concat (image <$> fs)) Hf Hlf Er) as [r ->].
Qed.

Definition sample_stream : list Frame :=
  [PtsHint 17; Nalu [0; 0; 1]; CursorImage 1 1 0 0 [9]; ForceKeyframe].

Lemma viewer_stream_roundtrip_witness :
  exists bytes,
    write_frames sample_stream [] = (bytes, Ok ()) /\
    read_frames 5 bytes = ([PtsHint 17; Nalu [0; 0; 1]], Some InvalidData) /\
    (forallb readable sample_stream = true -> readable_part sample_stream = sample_stream).
Proof.
  apply (viewer_stream_roundtrip sample_stream).
  - repeat constructor; vm_compute; done.
  - repeat constructor; vm_compute; done.
Defined.

(** Whatever bytes a peer sends, a frame the reader accepts has every field
    in range, at most 1 MiB of payload, and (except for a [ForceKeyframe], whose
    payload is ignored) is what the writer would have produced for exactly the
    bytes consumed: the format has one encoding per frame. *)
Theorem read_frame_canonical l rest f :
  is_bytes l -> read_frame l = (rest, Ok f) ->
  exists payload,
    l = frame_image (tag_of f) payload ++ rest /\
    Z.of_nat (length payload) <= MAX_PAYLOAD_BYTES /\
    frame_wf f /\ (f <> ForceKeyframe -> payload = payload_of f).
Proof.
  intros Hb E. unfold read_frame, mbind, eff_mbind in E.
  destruct (read_exact 5 l) as [l1 [header|]] eqn:E1; [|done].
  destruct (read_exact_split _ _ _ _ E1) as [-> Lh]. apply Forall_app in Hb as [Hh Hb].
  case_match; boolz; [done|].
  destruct (read_exact _ l1) as [l2 [payload|]] eqn:E2; [|done].
  destruct (read_exact_split _ _ _ _ E2) as [-> Lp]. apply Forall_app in Hb as [Hp Hb].
  unfold lift in E. injection E as -> E.
  destruct (field_slice 1 4 header Hh ltac:(lia)) as [R _]. destruct R as [R _].
  assert (El : from_le (slice 1 4 header) = Z.of_nat (length payload)) by lia.
  rewrite El in E. destruct (decode_payload_inv _ _ _ Hp E) as (Hw & Ht & Hpay).
  exists payload. rewrite Ht, app_assoc, (header_image header payload) by done.
  repeat split; try done; [lia|]. intros. symmetry. auto.
Qed.

Lemma read_frame_canonical_witness :
  exists payload,
    [0x12; 4; 0; 0; 0; 1; 2; 0; 0; 99] = frame_image (tag_of (SetBitrate 513)) payload ++ [99] /\
    Z.of_nat (length payload) <= MAX_PAYLOAD_BYTES /\
    frame_wf (SetBitrate 513) /\
    (SetBitrate 513 <> ForceKeyframe -> payload = payload_of (SetBitrate 513)).
Proof.
  apply (read_frame_canonical [0x12; 4; 0; 0; 0; 1; 2; 0; 0; 99] [99] (SetBitrate 513)).
  - repeat constructor; done.
  - vm_compute. reflexivity.
Defined.

End Viewer.
