(* ===== verification/Codec.v ===== *)
(** * Length-prefixed msgpack frames ([crates/waymux-protocol/src/codec.rs])

    [encode_frame] and [decode_frame] over an arbitrary serializable type. The
    msgpack library ([rmp_serde]) is the interface [Serde]; what the frames rely
    on, that decoding inverts encoding, is the class [SerdeLaws]. The socket
    reader the daemon uses on both of its sockets is here too, as the theorems
    are about what it reads of what [encode_frame] wrote. *)

From S2P Require Import Prelude Words.
From stdpp Require Import prelude list strings.
From Stdlib Require Import ZArith Lia.

Open Scope Z_scope.

(** [rmp_serde]: [write_named] appends bytes to its output and may fail after
    having written some of them; [from_slice] decodes a whole slice. Errors are
    their display strings. *)
Class Serde (T : Type) := {
  write_named : T -> list Z * option string;
  from_slice : list Z -> result T string;
}.

(** Decoding what was encoded gives the value back, and the encoding is made of
    bytes. *)
Class SerdeLaws (T : Type) `{Serde T} := {
  from_slice_write_named v bytes :
    write_named v = (bytes, None) -> from_slice bytes = Ok v;
  write_named_bytes v : is_bytes (write_named v).1;
}.

Definition MAX_FRAME_SIZE : Z := Z.shiftl 20 20.

Inductive EncodeError :=
| EncMsgpack (e : string)
| EncTooLarge (actual : Z).

Inductive DecodeError :=
| DecMsgpack (e : string)
| DecTooLarge (len : Z)
| DecTruncated (need have : Z).

#[global] Instance EncodeError_eq_dec : EqDecision EncodeError.
Proof. solve_decision. Defined.
#[global] Instance DecodeError_eq_dec : EqDecision DecodeError.
Proof. solve_decision. Defined.

(** A length that a [Vec] can have and its [u32] prefix. *)
Definition len_z (l : list Z) : Z := Z.of_nat (length l).

Section codec.
Context {T : Type} `{Serde T}.

Definition encode_frame (value : T) : Eff (list Z) EncodeError unit := fun out =>
  let frame_start := length out in
  let out := out ++ [0; 0; 0; 0] in
  let payload_start := length out in
  let '(bytes, res) := write_named value in
  let out := out ++ bytes in
  match res with
  | Some e => (truncate frame_start out, Err (EncMsgpack e))
  | None =>
      let len := Z.of_nat (length out - payload_start) in
      if MAX_FRAME_SIZE <? len then
        (truncate frame_start out, Err (EncTooLarge len))
      else (overwrite frame_start (to_be 4 (as_u 32 len)) out, Ok ())
  end.

Definition decode_frame (bytes : list Z) : result T DecodeError :=
  if len_z bytes <? 4 then Err (DecTruncated 4 (len_z bytes))
  else
    let len := from_be (take 4 bytes) in
    if MAX_FRAME_SIZE <? len then Err (DecTooLarge len)
    else if negb (len_z bytes =? 4 + len) then Err (DecTruncated (4 + len) (len_z bytes))
    else
      match from_slice (drop 4 bytes) with
      | Ok v => Ok v
      | Err e => Err (DecMsgpack e)
      end.
End codec.

(** ** A socket being read

    The bytes the peer sent, and how the stream ends after them: an orderly end
    of file or a connection error. *)

Inductive stream_end := Eof | Broken (e : string).

Record stream := Stream { st_bytes : list Z; st_end : stream_end }.

(** [read_exact] on a socket. *)
Definition stream_read_exact (n : nat) : Eff stream stream_end (list Z) := fun s =>
  if (n <=? length (st_bytes s))%nat
  then (Stream (drop n (st_bytes s)) (st_end s), Ok (take n (st_bytes s)))
  else (Stream [] (st_end s), Err (st_end s)).

Inductive read_error :=
| ReadLength (e : string)
| FrameTooLong (len : Z)
| ReadPayload (e : stream_end).

(** [server::read_frame]: the whole frame with its prefix, or [None] at the end
    of the file. *)
Definition read_frame : Eff stream read_error (option (list Z)) := fun s =>
  match stream_read_exact 4 s with
  | (s1, Err Eof) => (s1, Ok None)
  | (s1, Err (Broken e)) => (s1, Err (ReadLength e))
  | (s1, Ok len_buf) =>
      let len := from_be len_buf in
      if MAX_FRAME_SIZE <? len then (s1, Err (FrameTooLong len))
      else
        match stream_read_exact (Z.to_nat len) s1 with
        | (s2, Ok rest) => (s2, Ok (Some (len_buf ++ rest)))
        | (s2, Err e) => (s2, Err (ReadPayload e))
        end
  end.

(** ** The shape of an encoded frame *)

Definition frame_bytes (payload : list Z) : list Z := to_be 4 (len_z payload) ++ payload.

Lemma encode_frame_eq {T} `{Serde T} (v : T) out :
  encode_frame v out =
  match write_named v with
  | (_, Some e) => (out, Err (EncMsgpack e))
  | (bytes, None) =>
      if MAX_FRAME_SIZE <? len_z bytes then (out, Err (EncTooLarge (len_z bytes)))
      else (out ++ frame_bytes bytes, Ok ())
  end.
Proof.
  unfold encode_frame, truncate, len_z. destruct (write_named v) as [bytes [e|]].
  { by rewrite <- app_assoc, take_app_length. }
  rewrite <- app_assoc, take_app_length, !length_app.
  replace (_ - _)%nat with (length bytes) by lia.
  destruct (Z.ltb_spec MAX_FRAME_SIZE (Z.of_nat (length bytes))) as [L|L]; [done|].
  change MAX_FRAME_SIZE with 20971520 in L.
  rewrite as_u_id by (unfold in_u; lia).
  rewrite (overwrite_inside out [0; 0; 0; 0]) by (by rewrite length_to_be).
  done.
Qed.

Lemma from_be_prefix payload :
  len_z payload <= MAX_FRAME_SIZE -> from_be (to_be 4 (len_z payload)) = len_z payload.
Proof.
  intros L. change MAX_FRAME_SIZE with 20971520 in L.
  rewrite from_be_to_be. apply Z.mod_small. unfold len_z in *. cbn. lia.
Qed.

Lemma decode_frame_bytes {T} `{Serde T} payload :
  len_z payload <= MAX_FRAME_SIZE ->
  decode_frame (frame_bytes payload) =
  match from_slice payload with Ok v => Ok v | Err e => Err (DecMsgpack e) end.
Proof.
  intros L. unfold decode_frame, frame_bytes.
  assert (Ll : len_z (to_be 4 (len_z payload) ++ payload) = 4 + len_z payload).
  { unfold len_z at 1. rewrite length_app, length_to_be. unfold len_z. lia. }
  rewrite Ll. rewrite take_app_exact, drop_app_exact by apply length_to_be.
  rewrite from_be_prefix by done.
  destruct (Z.ltb_spec (4 + len_z payload) 4); [unfold len_z in *; lia|].
  destruct (Z.ltb_spec MAX_FRAME_SIZE (len_z payload)); [lia|].
  by rewrite Z.eqb_refl.
Qed.

Lemma read_frame_bytes payload rest e :
  len_z payload <= MAX_FRAME_SIZE ->
  read_frame (Stream (frame_bytes payload ++ rest) e) =
  (Stream rest e, Ok (Some (frame_bytes payload))).
Proof.
  intros L. unfold read_frame, stream_read_exact, frame_bytes.
  cbn [st_bytes st_end]. rewrite <- app_assoc, length_app, length_to_be.
  cbn [Nat.leb plus]. rewrite take_app_exact, drop_app_exact by apply length_to_be.
  rewrite from_be_prefix by done.
  destruct (Z.ltb_spec MAX_FRAME_SIZE (len_z payload)); [lia|].
  cbn [st_bytes st_end]. unfold len_z. rewrite Nat2Z.id, length_app.
  rewrite (proj2 (Nat.leb_le _ _)) by lia.
  by rewrite take_app_length, drop_app_length.
Qed.

Lemma read_frame_eof e :
  read_frame (Stream [] e) =
  (Stream [] e, match e with Eof => Ok None | Broken m => Err (ReadLength m) end).
Proof. by destruct e. Qed.

(** ** Properties *)

(** Encoding appends exactly one frame, a four-byte big-endian length and
    the payload, and on every error (serialization failing part-way, a frame
    over the 20 MiB cap) leaves the output buffer as it was; a frame that was
    encoded decodes to the value it was made of. *)
Theorem encode_decode_frame {T} `{SerdeLaws T} (v : T) out :
  match encode_frame v out with
  | (out', Ok _) =>
      exists payload, out' = out ++ frame_bytes payload /\ len_z payload <= MAX_FRAME_SIZE /\
        decode_frame (frame_bytes payload) = Ok v
  | (out', Err _) => out' = out
  end.
Proof.
  rewrite encode_frame_eq. destruct (write_named v) as [bytes [e|]] eqn:E; [done|].
  destruct (Z.ltb_spec MAX_FRAME_SIZE (len_z bytes)) as [L|L]; [done|].
  exists bytes. split; [done|]. split; [done|].
  by rewrite decode_frame_bytes, (from_slice_write_named v bytes E).
Qed.

(** Read and decode until the stream ends: what every frame loop of the daemon
    does. *)
Fixpoint read_values {T} `{Serde T} (fuel : nat) (s : stream) :
    list T * option (result (option DecodeError) read_error) :=
  match fuel with
  | O => ([], None)
  | S fuel =>
      match read_frame s with
      | (_, Err e) => ([], Some (Err e))
      | (_, Ok None) => ([], Some (Ok None))
      | (s', Ok (Some f)) =>
          match decode_frame f with
          | Err e => ([], Some (Ok (Some e)))
          | Ok v => let '(vs, r) := read_values fuel s' in (v :: vs, r)
          end
      end
  end.

Fixpoint encode_all {T} `{Serde T} (vs : list T) : Eff (list Z) EncodeError unit :=
  match vs with
  | [] => mret ()
  | v :: vs => encode_frame v ;; encode_all vs
  end.

(** whatever values are encoded onto a connection one after another, if
    every one is encoded then the peer's read loop decodes exactly those values
    in that order and then sees how the stream ends. *)
Theorem stream_values_roundtrip {T} `{SerdeLaws T} (vs : list T) bytes e :
  encode_all vs [] = (bytes, Ok ()) ->
  read_values (S (length vs)) (Stream bytes e) =
  (vs, Some (match e with Eof => Ok None | Broken m => Err (ReadLength m) end)).
Proof.
  intros E.
  assert (G : exists suffix, bytes = [] ++ suffix /\
    read_values (S (length vs)) (Stream suffix e) =
    (vs, Some (match e with Eof => Ok None | Broken m => Err (ReadLength m) end))).
  2: { destruct G as (sfx & -> & G). done. }
  revert E. generalize (@nil Z) as out. revert bytes.
  induction vs as [|v vs IH]; intros bytes out E.
  - exists []. injection E as <-. rewrite app_nil_r. split; [done|]. cbn. by destruct e.
  - cbn [encode_all] in E. unfold mbind, eff_mbind in E. rewrite encode_frame_eq in E.
    destruct (write_named v) as [p [?|]] eqn:Ev; [done|].
    destruct (Z.ltb_spec MAX_FRAME_SIZE (len_z p)) as [L|L]; [done|].
    destruct (IH _ _ E) as (sfx & -> & R).
    exists (frame_bytes p ++ sfx). split; [by rewrite app_assoc|].
    cbn [length]. remember (S (length vs)) as n. cbn [read_values].
    rewrite read_frame_bytes, decode_frame_bytes, (from_slice_write_named v p Ev) by done.
    by rewrite R.
Qed.

(** Msgpack booleans, to exercise the framing. *)
Definition bool_serde : Serde bool := {|
  write_named (b : bool) := ([if b then 0xC3 else 0xC2], None);
  from_slice (l : list Z) :=
    match l with
    | [195] => Ok true
    | [194] => Ok false
    | _ => Err "invalid type"%string
    end;
|}.

Lemma bool_serde_laws : @SerdeLaws bool bool_serde.
Proof.
  split; cbn.
  - intros [] bytes E; injection E as <-; done.
  - intros []; repeat constructor; done.
Qed.

Lemma encode_decode_frame_witness :
  match @encode_frame bool bool_serde true [7] with
  | (out', Ok _) =>
      exists payload, out' = [7] ++ frame_bytes payload /\ len_z payload <= MAX_FRAME_SIZE /\
        @decode_frame bool bool_serde (frame_bytes payload) = Ok true
  | (out', Err _) => out' = [7]
  end.
Proof. apply (@encode_decode_frame bool bool_serde bool_serde_laws true [7]). Defined.

Lemma stream_values_roundtrip_witness :
  @read_values bool bool_serde 3 (Stream [0; 0; 0; 1; 0xC3; 0; 0; 0; 1; 0xC2] Eof) =
  ([true; false], Some (Ok None)).
Proof.
  apply (@stream_values_roundtrip bool bool_serde bool_serde_laws [true; false]
    [0; 0; 0; 1; 0xC3; 0; 0; 0; 1; 0xC2] Eof).
  vm_compute. reflexivity.
Defined.
