(* ===== verification/Messages.v ===== *)
(** * The control protocol's messages ([crates/waymux-protocol/src/messages.rs])

    Requests, responses, events and result structures with the source's
    constructors and fields. Unsigned and signed integers are [Z]; an [f64] is
    its 64-bit pattern; a [BTreeMap<String, String>] is a [gmap]. The dynamic
    msgpack value ([rmpv::Value]) and the serializers are parameters, gathered
    in the classes [MsgPack] and [Serde]. *)

From S2P Require Import Prelude Words Codec.
From stdpp Require Import prelude list strings gmap.
From Stdlib Require Import ZArith Lia.

Open Scope Z_scope.

Definition CURRENT_PROTOCOL_VERSION : Z := 4.

(** ** Small enumerations *)

Inductive ScreenshotFormat := Dmabuf | Png.
Inductive RecordingCodec :=
| Ffv1 | X264Lossless | H264Nvenc | H264Vaapi | H264Vulkan | Ffv1Vulkan
| H264VulkanLossless | HevcVulkanLossless | CudaNvenc.
Inductive CaptureMode := FocusedWindow | WholeDesktop.
Inductive KeyState := Pressed | Released.
Inductive TouchPhase := Down | Motion | Up.

#[global] Instance ScreenshotFormat_eq_dec : EqDecision ScreenshotFormat.
Proof. solve_decision. Defined.
#[global] Instance RecordingCodec_eq_dec : EqDecision RecordingCodec.
Proof. solve_decision. Defined.
#[global] Instance CaptureMode_eq_dec : EqDecision CaptureMode.
Proof. solve_decision. Defined.
#[global] Instance KeyState_eq_dec : EqDecision KeyState.
Proof. solve_decision. Defined.
#[global] Instance TouchPhase_eq_dec : EqDecision TouchPhase.
Proof. solve_decision. Defined.

Definition default_scale : Z := 1.
Definition default_released : KeyState := Released.

Module Op.
Inductive InjectOp :=
| Key (keycode : Z) (state : KeyState) (modifiers : Z)
| Pointer (x y : Z) (button : Z) (state : KeyState) (axis_x axis_y : Z)
    (window_id : option Z) (content : bool) (seq : Z)
| Touch (id : Z) (x y : Z) (phase : TouchPhase) (window_id : option Z) (content : bool).

#[global] Instance InjectOp_eq_dec : EqDecision InjectOp.
Proof. solve_decision. Defined.
End Op.

(** ** Requests *)

Record CreateSessionParams := {
  csp_name : string;
  csp_width : Z;
  csp_height : Z;
  csp_scale : Z;
  csp_env : gmap string string;
  csp_share_clipboard : bool;
  csp_share_audio : bool;
  csp_mem_cap_mb : option Z;
  csp_cpu_cap_pct : option Z;
  csp_disk_quota_mb : option Z;
  csp_fd_limit : option Z;
  csp_api_key_id : option string;
  csp_codec : option string;
  csp_gpu_type : option string;
}.

Module Req.
Inductive RequestMethod :=
| Hello (client_protocol : Z)
| ListSessions
| CreateSession (params : CreateSessionParams)
| DestroySession (name : string)
| Attach (name : string)
| Detach (name : string)
| Resize (name : string) (width height : Z)
| Spawn (name : string) (argv : list string) (env : gmap string string) (compositor : bool)
| ListWindows (name : string)
| TagWindow (name : string) (window_id : Z) (tags : list string)
| Screenshot (name : string) (window_id : option Z) (format : ScreenshotFormat)
| ScreenshotDesktop (name : string) (format : ScreenshotFormat)
| WaitForIdle (name : string) (quiet_ms timeout_ms : Z)
| Subscribe (topics : list string)
| InjectKey (name : string) (keycode : Z) (state : KeyState) (modifiers : Z)
| InjectPointer (name : string) (x y button : Z) (state : KeyState) (axis_x axis_y : Z)
    (window_id : option Z) (content : bool)
| InjectTouch (name : string) (id : Z) (x y : Z) (phase : TouchPhase)
    (window_id : option Z) (content : bool)
| InjectBatch (name : string) (ops : list Op.InjectOp)
| InjectSelector (session selector : string) (button : Z) (pressed content : bool)
| StreamLogs (name : string) (follow : bool)
| RecordStart (name : string) (path : option string) (codec secondary_codec : option RecordingCodec)
    (mode : option CaptureMode) (min_fps : option Z)
| RecordStop (name : string)
| RecordStatus (name : string)
| ViewerStart (session : string) (bind : option string) (port : option Z)
| ViewerStop (session : string)
| ViewerStatus (session : string).
End Req.

Record Request := { rq_id : Z; rq_method : Req.RequestMethod }.

(** ** Errors and events *)

Inductive ErrorCode :=
| NotFound | AlreadyExists | ProtoVersion | NoRenderNode | ResizeRejected
| Backpressure | NotImplemented | BadRequest | Internal | Unknown.

#[global] Instance ErrorCode_eq_dec : EqDecision ErrorCode.
Proof. solve_decision. Defined.

(** The wire name of a code, and the reading of a name ([#\[serde(other)\]]
    sends every unknown name to [Unknown]). [Unknown] is only ever read, and
    serde writes it under its own name. *)
Definition error_code_wire (c : ErrorCode) : string :=
  match c with
  | NotFound => "E_NOT_FOUND"
  | AlreadyExists => "E_ALREADY_EXISTS"
  | ProtoVersion => "E_PROTO_VERSION"
  | NoRenderNode => "E_NO_RENDER_NODE"
  | ResizeRejected => "E_RESIZE_REJECTED"
  | Backpressure => "E_BACKPRESSURE"
  | NotImplemented => "E_NOT_IMPLEMENTED"
  | BadRequest => "E_BAD_REQUEST"
  | Internal => "E_INTERNAL"
  | Unknown => "Unknown"
  end.

Record SessionUnavailable := {
  su_error : string;
  su_reason : string;
  su_retry_after_s : option Z;
}.

Definition session_unavailable_new (reason : string) (retry_after_s : option Z) :
    SessionUnavailable :=
  {| su_error := "session_unavailable"; su_reason := reason; su_retry_after_s := retry_after_s |}.

Record Rect := { rect_x : Z; rect_y : Z; rect_width : Z; rect_height : Z }.

#[global] Instance Rect_eq_dec : EqDecision Rect.
Proof. solve_decision. Defined.

Record WindowChange := {
  wc_title : option string;
  wc_app_id : option string;
  wc_geometry : option Rect;
  wc_focused : option bool;
}.

#[global] Instance WindowChange_eq_dec : EqDecision WindowChange.
Proof. solve_decision. Defined.

Module Ev.
Inductive EventBody :=
| SessionCreated (name : string)
| SessionDestroyed (name : string) (exit_code : Z)
| ChildExited (name : string) (pid exit_code : Z)
| SessionCrashed (name : string) (pid exit_code : Z)
| Occluded (name : string) (occluded : bool)
| WindowCreated (name : string) (window_id : Z) (app_id title : string) (pid : Z)
| WindowDestroyed (name : string) (window_id : Z)
| WindowChanged (name : string) (window_id : Z) (fields : WindowChange)
| Damage (name : string) (serial timestamp_ns : Z)
| Log (name stream text : string).

#[global] Instance EventBody_eq_dec : EqDecision EventBody.
Proof. solve_decision. Defined.
End Ev.

Record Event := { ev_id : Z; ev_body : Ev.EventBody }.

Definition event_new (body : Ev.EventBody) : Event := {| ev_id := 0; ev_body := body |}.

#[global] Instance Event_eq_dec : EqDecision Event.
Proof. solve_decision. Defined.

(** ** Typed results *)

Record HelloResult := { hr_server_protocol : Z; hr_capabilities : list string }.

Record SessionInfo := {
  si_name : string;
  si_pid : Z;
  si_width : Z;
  si_height : Z;
  si_scale : Z;
  si_attached : bool;
  si_created_at : Z;
}.

Record CreateSessionResult := { csr_name : string; csr_inner_socket_path : string }.
Record AttachResult := { ar_attach_socket_path : string }.

Record SessionCtlInfo := {
  sci_width : Z;
  sci_height : Z;
  sci_scale : Z;
  sci_window_count : Z;
  sci_last_damage_ns : Z;
}.

Record WindowInfo := {
  wi_id : Z;
  wi_app_id : string;
  wi_title : string;
  wi_tags : list string;
  wi_geometry : Rect;
  wi_focused : bool;
  wi_pid : Z;
  wi_content_rect : option Rect;
}.

Record SessionCtlWindows := { scw_windows : list WindowInfo }.
Record SessionCtlRecordStarted := { scr_path : string; scr_secondary_path : option string }.
Record ViewerStarted := { vs_url : string }.
Record ViewerStatusResponse := { vsr_url : option string }.

Record RecordStatusResponse := {
  rsr_recording : bool;
  rsr_path : option string;
  rsr_secondary_path : option string;
  rsr_codec : option string;
}.

Record SessionCtlScreenshot := { scs_width : Z; scs_height : Z; scs_png : list Z }.

(** ** The session-control protocol *)

Module Ctl.
Inductive SessionCtlMethod :=
| Info
| ListWindows
| Resize (width height : Z)
| Screenshot (window_id : Z)
| ScreenshotDesktop
| InjectKey (keycode : Z) (state : KeyState) (modifiers : Z)
| InjectPointer (x y button : Z) (state : KeyState) (axis_x axis_y : Z)
    (window_id : option Z) (content : bool)
| InjectTouch (id : Z) (x y : Z) (phase : TouchPhase) (window_id : option Z) (content : bool)
| InjectBatch (ops : list Op.InjectOp)
| Shutdown
| RecordStart (path : option string) (codec secondary_codec : option RecordingCodec)
    (mode : option CaptureMode) (min_fps : option Z)
| RecordStop
| RecordStatus
| ViewerStart (bind : option string) (port : option Z)
| ViewerStop
| ViewerStatus.
End Ctl.

Record SessionCtlRequest := { scq_id : Z; scq_method : Ctl.SessionCtlMethod }.

(** ** Responses *)

(** [rmpv::Value], its [rmp_serde] (de)serialization and
    [rmpv::encode::write_value]. *)
Class MsgPack := {
  Value : Type;
  value_serde :: Serde Value;
  write_value : Value -> result (list Z) string;
}.

Section responses.
Context `{MsgPack}.

Record ResponseError := {
  re_code : ErrorCode;
  re_message : string;
  re_detail : option Value;
}.

Definition response_error_new (code : ErrorCode) (message : string) : ResponseError :=
  {| re_code := code; re_message := message; re_detail := None |}.

Record Response := {
  rs_id : Z;
  rs_ok : bool;
  rs_result : option Value;
  rs_error : option ResponseError;
}.

(** [rmp_serde::to_vec_named]. *)
Definition to_vec_named {T} `{Serde T} (value : T) : result (list Z) string :=
  match write_named value with
  | (bytes, None) => Ok bytes
  | (_, Some e) => Err e
  end.

(** The payload as a dynamic value; [None] is the panic of the [expect]. *)
Definition to_value {T} `{Serde T} (value : T) : option (result Value string) :=
  match to_vec_named value with
  | Err e => Some (Err e)
  | Ok bytes =>
      match from_slice bytes with
      | Ok v => Some (Ok v)
      | Err _ => None
      end
  end.

Definition success {T} `{Serde T} (id : Z) (value : T) : option (result Response string) :=
  match to_value value with
  | None => None
  | Some (Err e) => Some (Err e)
  | Some (Ok v) => Some (Ok {| rs_id := id; rs_ok := true; rs_result := Some v; rs_error := None |})
  end.

Definition failure (id : Z) (error : ResponseError) : Response :=
  {| rs_id := id; rs_ok := false; rs_result := None; rs_error := Some error |}.

(** Re-encode the dynamic value and decode it at a type. *)
Definition decode_value {T} `{Serde T} (missing : string) (r : option Value) : result T string :=
  match r with
  | Some v => let? bytes := write_value v in from_slice bytes
  | None => Err missing
  end.

Definition decode_result {T} `{Serde T} (r : Response) : result T string :=
  decode_value "response has no result" (rs_result r).

Record SessionCtlResponse := {
  scp_id : Z;
  scp_ok : bool;
  scp_result : option Value;
  scp_error : option string;
}.

Definition ctl_success {T} `{Serde T} (id : Z) (value : T) :
    option (result SessionCtlResponse string) :=
  match to_value value with
  | None => None
  | Some (Err e) => Some (Err e)
  | Some (Ok v) =>
      Some (Ok {| scp_id := id; scp_ok := true; scp_result := Some v; scp_error := None |})
  end.

Definition ctl_failure (id : Z) (message : string) : SessionCtlResponse :=
  {| scp_id := id; scp_ok := false; scp_result := None; scp_error := Some message |}.

Definition ctl_decode_result {T} `{Serde T} (r : SessionCtlResponse) : result T string :=
  decode_value "session-control response has no result" (scp_result r).
End responses.

(** What the responses rely on at a type [T]: bytes that [rmp_serde] wrote for a
    [T] decode to it, parse as a dynamic value, and that value is written back
    as the same bytes. *)
Class WireLaws (T : Type) `{MsgPack, Serde T} := {
  wire_serde :: SerdeLaws T;
  value_of_written (v : T) bytes :
    write_named v = (bytes, None) -> exists val : Value, from_slice bytes = Ok val;
  write_value_of_parsed (v : T) bytes (val : Value) :
    write_named v = (bytes, None) -> from_slice bytes = Ok val -> write_value val = Ok bytes;
}.

Lemma to_value_spec {T} `{WireLaws T} (v : T) :
  match to_value v with
  | None => False
  | Some (Err e) => exists b, write_named v = (b, Some e)
  | Some (Ok val) => forall msg, decode_value msg (Some val) = Ok v
  end.
Proof.
  unfold to_value, to_vec_named. destruct (write_named v) as [bytes [e|]] eqn:E; [eauto|].
  destruct (value_of_written v bytes E) as [val Ev]. rewrite Ev.
  intros msg. unfold decode_value.
  by rewrite (write_value_of_parsed v bytes val E Ev), (from_slice_write_named v bytes E).
Qed.

(** [success] never panics. *)
Lemma success_total {T} `{WireLaws T} id (v : T) : is_Some (success id v).
Proof.
  unfold success. pose proof (to_value_spec v) as S.
  destruct (to_value v) as [[]|]; [by eauto..|done].
Qed.

(** A response that was built decodes to what it was built from. *)
Lemma decode_success {T} `{WireLaws T} id (v : T) r :
  success id v = Some (Ok r) -> decode_result r = Ok v.
Proof.
  unfold success, decode_result. pose proof (to_value_spec v) as S.
  destruct (to_value v) as [[]|]; [|done..]. intros E. injection E as <-. apply S.
Qed.
