(* ===== verification/Sys.v ===== *)
(** * The operating system as the daemon sees it

    Paths and the string operations the daemon uses; the system calls, process
    operations and socket operations it performs, as a type indexed by the type
    of the answer; and the environment that answers them, an arbitrary function
    of the calls made so far. A theorem quantified over environments holds for
    every behaviour of the file system, the kernel, the clock and the session
    processes. *)

From S2P Require Import Prelude Words.
From stdpp Require Import prelude list strings gmap pretty.
From Stdlib Require Import ZArith Lia Ascii.

Open Scope Z_scope.

(** ** Strings *)

(** [str::strip_prefix]. *)
Fixpoint str_strip_prefix (p s : string) : option string :=
  match p, s with
  | EmptyString, _ => Some s
  | String a p', String b s' => if Ascii.eqb a b then str_strip_prefix p' s' else None
  | String _ _, EmptyString => None
  end.

Definition starts_with (p s : string) : bool :=
  match str_strip_prefix p s with Some _ => true | None => false end.

(** Split at every occurrence of a byte (["a/b"] gives two pieces). *)
Fixpoint split_on (c : ascii) (s : string) : list string :=
  match s with
  | EmptyString => [EmptyString]
  | String a s' =>
      if Ascii.eqb a c then EmptyString :: split_on c s'
      else match split_on c s' with
           | [] => [String a EmptyString]
           | w :: ws => String a w :: ws
           end
  end.

Fixpoint all_chars (p : ascii -> bool) (s : string) : bool :=
  match s with
  | EmptyString => true
  | String a s' => p a && all_chars p s'
  end.

(** [str::trim_start_matches] with a character. *)
Fixpoint trim_start_char (c : ascii) (s : string) : string :=
  match s with
  | String a s' => if Ascii.eqb a c then trim_start_char c s' else s
  | EmptyString => EmptyString
  end.

(** [str::trim], of ASCII white space. *)
Definition is_space (c : ascii) : bool :=
  let n := Ascii.nat_of_ascii c in (n =? 32)%nat || ((9 <=? n) && (n <=? 13))%nat.

Fixpoint trim_left (l : list ascii) : list ascii :=
  match l with
  | c :: l' => if is_space c then trim_left l' else l
  | [] => []
  end.

Definition trim (s : string) : string :=
  String.string_of_list_ascii (rev (trim_left (rev (trim_left (String.list_ascii_of_string s))))).

(** [str::lines]: pieces between line feeds, the last one dropped when empty
    (it has no terminator), a trailing carriage return removed from each. *)
Definition chomp_cr (s : string) : string :=
  match rev (String.list_ascii_of_string s) with
  | "013"%char :: r => String.string_of_list_ascii (rev r)
  | _ => s
  end.

Definition lines (s : string) : list string :=
  let ps := split_on "010"%char s in
  let ps := match last ps with Some EmptyString => removelast ps | _ => ps end in
  chomp_cr <$> ps.

Lemma str_strip_prefix_app p s r : str_strip_prefix p s = Some r <-> s = (p +:+ r)%string.
Proof.
  revert s. induction p as [|a p IH]; intros s; cbn.
  { split; intros E; by simplify_eq. }
  destruct s as [|b s]; [done|].
  destruct (Ascii.eqb_spec a b) as [->|N].
  - rewrite IH. change (s = (p +:+ r)%string <-> String b s = String b (p +:+ r)).
    split; [by intros -> | by intros [=]].
  - split; [done|]. intros E. change (String b s = String a (p +:+ r)) in E. by simplify_eq.
Qed.

(** ** Paths *)

(** An absolute path as its components. *)
Abbreviation path := (list string).

(** The components of a string: separators collapse and ["."] disappears. *)
Definition path_components (s : string) : list string :=
  filter (fun c => c <> ""%string /\ c <> "."%string) (split_on "/"%char s).

(** [Path::join]: an absolute argument replaces the path. *)
Definition path_join (p : path) (s : string) : path :=
  if starts_with "/" s then path_components s else p ++ path_components s.

Definition path_parent (p : path) : option path :=
  match p with [] => None | _ => Some (removelast p) end.

Definition path_file_name (p : path) : option string :=
  match last p with
  | Some c => if (c =? "..")%string then None else Some c
  | None => None
  end.

Definition path_display (p : path) : string :=
  match p with
  | [] => "/"
  | _ => foldr (fun c acc => "/" +:+ c +:+ acc)%string ""%string p
  end.

(** A string that is one plain component. *)
Definition plain_component (s : string) : Prop :=
  split_on "/"%char s = [s] /\ s <> ""%string /\ s <> "."%string.

Lemma split_on_head c s s' : split_on c (String c s') <> [s] \/ s <> String c s'.
Proof.
  left. cbn. rewrite Ascii.eqb_refl. intros E. simplify_eq.
  destruct s'; cbn in *; [done|]. repeat case_match; done.
Qed.

Lemma plain_component_join p s : plain_component s -> path_join p s = p ++ [s].
Proof.
  intros (E & H1 & H2). unfold path_join, path_components. rewrite E.
  assert (starts_with "/" s = false) as ->.
  { destruct s as [|a s]; [done|]. unfold starts_with. cbn [str_strip_prefix].
    destruct (Ascii.eqb_spec "/"%char a) as [<-|]; [|done].
    destruct (split_on_head "/"%char (String "/" s) s); done. }
  by rewrite filter_cons_True.
Qed.

(** ** Commands and calls *)

Record command := {
  c_program : string;
  c_args : list string;
  c_env : gmap string string;          (** after [env_clear] and the [env]s *)
  c_fd_limit : option Z;               (** the [pre_exec] hook *)
}.

Inductive fs_kind := FsNotFound | FsOther.

Inductive ready_outcome :=
| OReady
| OReadyFailed
| OExited (code : option Z)
| OTimedOut.

(** [ExitStatus]: the code, or the signal. *)
Record exit_status := { es_code : option Z; es_signal : option Z }.

(** A connected stream is named by a number the environment hands out. *)
Abbreviation conn := nat.

Inductive syscall : Type -> Type :=
| CreateDirAll (p : path) : syscall (result unit string)
| PathExists (p : path) : syscall bool
| IsFile (p : path) : syscall bool
| ReadToString (p : path) : syscall (option string)
| WriteFile (p : path) (s : string) : syscall (result unit string)
| RemoveFile (p : path) : syscall unit
| RemoveDir (p : path) : syscall (result unit fs_kind)
| RemoveDirAll (p : path) : syscall unit
| SetMode (p : path) (mode : Z) : syscall (result unit string)
| BindListener (p : path) : syscall (result unit string)
| Connect (p : path) : syscall (result conn string)
| ConnectTimeout (p : path) (secs : Z) : syscall (option (result conn string))
| WriteAll (c : conn) (b : list Z) : syscall (result unit string)
| ReadExact (c : conn) (n : nat) : syscall (result (list Z) string)
| Mount (source : string) (target : path) (fstype : string) (options : string) : syscall bool
| Umount2 (target : path) : syscall bool
| GetRlimitNofile : syscall (option (Z * Z))
| SetRlimitNofile (soft hard : Z) : syscall bool
| EnvVar (k : string) : syscall (option string)
| EnvVars : syscall (list (string * string))
| CurrentExe : syscall (option path)
| SpawnProcess (c : command) : syscall (result (option Z) string)
| AwaitReady (pid : Z) : syscall ready_outcome
| DrainStderr (pid : Z) : syscall (option string)
| ChildKill (pid : Z) : syscall unit
| ChildWait (pid : Z) : syscall (option exit_status)
| ChildWaitTimeout (pid : Z) (secs : Z) : syscall (option (option exit_status))
| KillTerm (pid : Z) : syscall unit
| UnixSeconds : syscall (option Z)
| MonotonicTimespec : syscall (Z * Z)
| InstantMillis : syscall Z
| SleepMillis (ms : Z) : syscall unit
| JoinTimeout (handle : nat) (ms : Z) : syscall unit
| Stderr (line : string) : syscall unit.

(** A call with its answer, and the calls made so far, oldest first. *)
Inductive call :=
| Call (A : Type) (c : syscall A) (a : A).
Arguments Call {A} c a.
Abbreviation trace := (list call).

(** The environment. *)
Class Env := answer : forall A, trace -> syscall A -> A.

Section sys.
Context `{Env}.

(** Perform a call from a component whose own state is [X]. *)
Definition sys {X E A} (c : syscall A) : Eff (X * trace) E A := fun '(x, t) =>
  let a := answer A t c in ((x, t ++ [Call c a]), Ok a).

Lemma sys_eq {X E A} (c : syscall A) (x : X) t :
  sys (E := E) c (x, t) = ((x, t ++ [Call c (answer A t c)]), Ok (answer A t c)).
Proof. done. Qed.
End sys.

(** The component's own state inside an effect. *)
Definition get {X E} : Eff (X * trace) E X := fun s => (s, Ok s.1).
Definition modify {X E} (f : X -> X) : Eff (X * trace) E unit := fun '(x, t) => ((f x, t), Ok ()).

(** Run [f] on each element in turn. *)
Fixpoint for_each {S E A} (l : list A) (f : A -> Eff S E unit) : Eff S E unit :=
  match l with
  | [] => mret ()
  | a :: l' => f a ;; for_each l' f
  end.

(** An environment in which every call succeeds, used by the examples: no file
    exists, process ids are 4242, sockets deliver zeros, and the daemon runs in
    the cgroup [/user.slice/waymuxd.service]. *)
Definition good_env : Env := fun A t c =>
  match c in syscall B return B with
  | CreateDirAll _ => Ok ()
  | PathExists _ => false
  | IsFile _ => true
  | ReadToString _ => Some ("0::/user.slice/waymuxd.service" +:+ String "010" "")%string
  | WriteFile _ _ => Ok ()
  | RemoveFile _ => ()
  | RemoveDir _ => Ok ()
  | RemoveDirAll _ => ()
  | SetMode _ _ => Ok ()
  | BindListener _ => Ok ()
  | Connect _ => Ok 0%nat
  | ConnectTimeout _ _ => Some (Ok 0%nat)
  | WriteAll _ _ => Ok ()
  | ReadExact _ n => Ok (replicate n 0)
  | Mount _ _ _ _ => true
  | Umount2 _ => true
  | GetRlimitNofile => Some (1024, 4096)
  | SetRlimitNofile _ _ => true
  | EnvVar _ => None
  | EnvVars => []
  | CurrentExe => Some ["usr"; "bin"; "waymuxd"]%string
  | SpawnProcess _ => Ok (Some 4242)
  | AwaitReady _ => OReady
  | DrainStderr _ => None
  | ChildKill _ => ()
  | ChildWait _ => Some {| es_code := Some 0; es_signal := None |}
  | ChildWaitTimeout _ _ => Some (Some {| es_code := Some 0; es_signal := None |})
  | KillTerm _ => ()
  | UnixSeconds => Some 1700000000
  | MonotonicTimespec => (100, 0)
  | InstantMillis => Z.of_nat (length t)
  | SleepMillis _ => ()
  | JoinTimeout _ _ => ()
  | Stderr _ => ()
  end.
