(* ===== verification/Quota.v ===== *)
(** * Per-session resource caps
    ([crates/waymux-daemon/src/cgroup.rs], [crates/waymux-daemon/src/quota.rs])

    The cgroup leaf with its memory and cpu caps, the tmpfs disk quota and the
    file-descriptor limit, over an arbitrary operating system. *)

From stdpp Require Import prelude list strings gmap pretty.
From Stdlib Require Import ZArith Lia Ascii.
From S2P Require Import Prelude Words Sys.

Open Scope Z_scope.

Record SessionCgroup := { cg_path : path }.
Record SessionTmpfs := { tmpfs_path : path }.

(** [Iterator::find_map]. *)
Fixpoint find_map {A B} (f : A -> option B) (l : list A) : option B :=
  match l with
  | [] => None
  | a :: l' => match f a with Some b => Some b | None => find_map f l' end
  end.

(** [CString::new] refuses an interior NUL. *)
Definition no_nul (s : string) : bool := all_chars (fun c => negb (Ascii.eqb c "000"%char)) s.

Section quota.
Context `{Env} {X E : Type}.
Abbreviation M := (Eff (X * trace) E).

(** ** cgroup.rs *)

Definition cgroup_root : path := ["sys"; "fs"; "cgroup"]%string.

Definition is_cgroup_v2_mount (root : path) : M bool :=
  sys (IsFile (path_join root "cgroup.controllers")).

Definition daemon_cgroup_dir : M (option path) :=
  v2 ← is_cgroup_v2_mount cgroup_root;
  if negb v2 then mret None
  else
    raw ← sys (ReadToString ["proc"; "self"; "cgroup"]%string);
    match raw with
    | None => mret None
    | Some raw =>
        match find_map (str_strip_prefix "0::") (lines raw) with
        | None => mret None
        | Some l => mret (Some (path_join cgroup_root (trim_start_char "/"%char l)))
        end
    end.

Definition try_create_empty (session_name : string) : M (option SessionCgroup) :=
  parent ← daemon_cgroup_dir;
  match parent with
  | None => mret None
  | Some parent =>
      let p := path_join parent ("waymux-" +:+ session_name) in
      r ← sys (CreateDirAll p);
      match r with
      | Err _ => mret None
      | Ok _ => mret (Some {| cg_path := p |})
      end
  end.

Definition set_memory_max (cg : SessionCgroup) (mem_cap_mb : Z) : M bool :=
  let bytes := mem_cap_mb * 1024 * 1024 in
  r ← sys (WriteFile (path_join (cg_path cg) "memory.max") (pretty bytes));
  mret (result_is_ok r).

Definition set_cpu_max (cg : SessionCgroup) (cpu_cap_pct : Z) : M unit :=
  if cpu_cap_pct =? 0 then mret ()
  else
    let period_us := 100000 in
    let quota_us := cpu_cap_pct * 1000 in
    let value := (pretty quota_us +:+ " " +:+ pretty period_us)%string in
    sys (WriteFile (path_join (cg_path cg) "cpu.max") value) ;;
    mret ().

Definition add_pid (cg : SessionCgroup) (pid : Z) : M unit :=
  sys (WriteFile (path_join (cg_path cg) "cgroup.procs") (pretty pid)) ;;
  mret ().

Definition try_remove (cg : SessionCgroup) : M bool :=
  r ← sys (RemoveDir (cg_path cg));
  mret (match r with Ok _ => true | Err FsNotFound => true | Err FsOther => false end).

Definition kill_all (cg : SessionCgroup) : M unit :=
  sys (WriteFile (path_join (cg_path cg) "cgroup.kill") "1") ;;
  mret ().

Definition try_create (session_name : string) (mem_cap_mb : Z) : M (option SessionCgroup) :=
  if mem_cap_mb =? 0 then mret None
  else
    cg ← try_create_empty session_name;
    match cg with
    | None => mret None
    | Some cg =>
        ok ← set_memory_max cg mem_cap_mb;
        if negb ok then
          sys (RemoveDir (cg_path cg)) ;;
          mret None
        else mret (Some cg)
    end.

(** ** quota.rs *)

Definition try_mount (p : path) (size_mb : Z) : M (option SessionTmpfs) :=
  if size_mb =? 0 then mret None
  else if negb (no_nul (path_display p)) then mret None
  else
    ok ← sys (Mount "waymux-tmpfs" p "tmpfs" ("size=" +:+ pretty size_mb +:+ "m")%string);
    if negb ok then mret None else mret (Some {| tmpfs_path := p |}).

Definition unmount (t : SessionTmpfs) : M unit :=
  if negb (no_nul (path_display (tmpfs_path t))) then mret ()
  else sys (Umount2 (tmpfs_path t)) ;; mret ().
End quota.

(** [apply_fd_limit] runs in the forked child; an error is the [errno] of the
    call that failed. *)
Inductive fd_limit_error := GetrlimitFailed | SetrlimitFailed.

Definition apply_fd_limit `{Env} {X} (fd_limit : Z) : Eff (X * trace) fd_limit_error unit :=
  if fd_limit =? 0 then mret ()
  else
    current ← sys GetRlimitNofile;
    match current with
    | None => lift (Err GetrlimitFailed)
    | Some (_, hard) =>
        let new_soft := Z.min fd_limit hard in
        ok ← sys (SetRlimitNofile new_soft hard);
        if (ok : bool) then mret () else lift (Err SetrlimitFailed)
    end.

(** ** Properties *)

(** The decimal number in [memory.max] is within a [u64]. *)
Lemma memory_max_range mb : in_u 32 mb -> in_u 64 (mb * 1024 * 1024).
Proof. unfold in_u. lia. Qed.

(** What a command does to the trace, for every environment: it appends. *)
Lemma try_create_empty_some `{Env} {X E} name (s s' : X * trace) cg :
  try_create_empty (E := E) name s = (s', Ok (Some cg)) ->
  exists parent t1 a,
    cg_path cg = path_join parent ("waymux-" +:+ name) /\
    s' = (s.1, s.2 ++ t1 ++ [Call (CreateDirAll (cg_path cg)) (Ok a)]).
Proof.
  destruct s as [x t]. unfold try_create_empty, daemon_cgroup_dir, is_cgroup_v2_mount, mbind, eff_mbind.
  rewrite sys_eq. cbv beta iota. destruct (answer bool _ _); cbn [negb]; [|done].
  rewrite sys_eq. cbv beta iota.
  destruct (answer (option string) _ _) as [raw|]; [|done].
  destruct (find_map _ _) as [l|]; [|done]. cbn [mret eff_mret].
  unfold mret, eff_mret. rewrite sys_eq. cbv beta iota.
  destruct (answer (result unit string) _ _) as [a|] eqn:Ea; [|done]. intros Eq. simplify_eq.
  cbn [cg_path fst snd]. eexists _, [_; _], a. split; [done|].
  by rewrite <- !app_assoc.
Qed.

(** In every environment, a memory-capped cgroup handle is returned only
    after the leaf [waymux-<session>] was made and [memory.max] in it was
    written successfully with the decimal number of bytes; when the write is
    refused the leaf is removed again and no handle is returned. *)
Theorem try_create_capped `{Env} {X} name mb (x : X) t s' r :
  try_create (E := Empty_set) name mb (x, t) = (s', Ok r) ->
  match r with
  | Some cg =>
      exists t' a, s' = (x, t' ++ [Call (WriteFile (path_join (cg_path cg) "memory.max")
                                         (pretty (mb * 1024 * 1024))) (Ok a)])
  | None =>
      (exists t' cg e a, s' = (x, t' ++ [Call (WriteFile (path_join (cg_path cg) "memory.max")
                                           (pretty (mb * 1024 * 1024))) (Err e);
                                         Call (RemoveDir (cg_path cg)) a]))
      \/ (exists s1, try_create_empty (E := Empty_set) name (x, t) = (s1, Ok None) /\ s' = s1)
      \/ (mb = 0 /\ s' = (x, t))
  end.
Proof.
  unfold try_create. destruct (Z.eqb_spec mb 0) as [->|N]; cbv beta iota.
  { intros [<- <-]%ok_inj. auto. }
  unfold mbind at 1, eff_mbind at 1.
  destruct (try_create_empty name (x, t)) as [s1 [[cg|]|e]] eqn:E1; [|..|done].
  2: { intros [<- <-]%ok_inj. eauto. }
  destruct (try_create_empty_some _ _ _ _ E1) as (parent & t1 & a1 & _ & ->).
  cbn [fst snd]. unfold set_memory_max, mbind, eff_mbind. rewrite sys_eq. cbv beta iota.
  unfold mret, eff_mret.
  destruct (answer (result unit string) _ _) as [a|e] eqn:Ea; cbn [result_is_ok negb].
  - intros [<- <-]%ok_inj. eauto.
  - rewrite sys_eq. cbv beta iota. intros [<- <-]%ok_inj. left.
    eexists _, cg, e, _. rewrite <- app_assoc. cbn [app]. reflexivity.
Qed.

(** The limits read and requested in a trace. *)
Definition limit_read (c : call) : option (Z * Z) :=
  match c with Call GetRlimitNofile (Some l) => Some l | _ => None end.

Definition limit_set (c : call) : option (Z * Z * bool) :=
  match c with Call (SetRlimitNofile soft hard) ok => Some (soft, hard, ok) | _ => None end.

(** In every environment, the fd-limit hook never raises a limit: a limit it
    requests is at most what was asked for, at most the hard limit, and keeps
    the hard limit the kernel has just reported; it succeeds exactly when there
    is nothing to limit or the kernel has accepted the new limit. *)
Theorem apply_fd_limit_never_raises `{Env} {X} fd_limit (x : X) t :
  let '(s', r) := apply_fd_limit fd_limit (x, t) in
  exists new, s' = (x, t ++ new) /\
    Forall (fun '(soft, hard, _) => soft <= fd_limit /\ soft <= hard /\
              hard ∈ (omap limit_read new).*2) (omap limit_set new) /\
    (r = Ok () <-> fd_limit = 0 \/ true ∈ (omap limit_set new).*2).
Proof.
  unfold apply_fd_limit. destruct (fd_limit =? 0) eqn:Ez; boolz.
  { exists []. rewrite app_nil_r. split_and!; [done|constructor|tauto]. }
  unfold mbind, eff_mbind. rewrite sys_eq. cbv beta iota.
  destruct (answer _ t GetRlimitNofile) as [[soft hard]|]; cycle 1.
  { eexists. split_and!; [done|constructor|]. cbn. set_solver. }
  rewrite sys_eq, <- app_assoc. cbv beta iota.
  destruct (answer bool _ _); eexists; (split_and!; [done| |]); cbn;
    try (repeat constructor; set_solver || lia); set_solver.
Qed.

Definition example_leaf : path :=
  ["sys"; "fs"; "cgroup"; "user.slice"; "waymuxd.service"; "waymux-demo"]%string.

Definition example_created : (unit * trace) * result (option SessionCgroup) Empty_set :=
  @try_create good_env unit Empty_set "demo" 512 (tt, []).

Lemma try_create_capped_witness :
  exists t' a, example_created.1 =
    ((), t' ++ [Call (WriteFile (path_join example_leaf "memory.max") (pretty (512 * 1024 * 1024)))
                     (Ok a)]).
Proof.
  apply (@try_create_capped good_env unit "demo" 512 tt [] example_created.1
    (Some {| cg_path := example_leaf |})).
  vm_compute. reflexivity.
Defined.
