(* ===== verification/Registry.v ===== *)
(** * The session registry: state, creation and teardown
    ([crates/waymux-daemon/src/registry.rs])

    [Inner] with its maps, the validation functions, [create], [destroy],
    [shutdown_all] and the supervisor task, over an arbitrary environment. The
    [Arc]-shared cells of an entry (log history, control connection, kill
    channel) live in heaps of [Inner] and entries hold their addresses, so that
    a task that outlives its entry keeps its cell. Optional usage metering
    (a non-default cargo feature) is left out. *)

From stdpp Require Import prelude list strings gmap pretty.
From Stdlib Require Import ZArith Lia Ascii.
From S2P Require Import Prelude Words Codec Messages Sys Quota.

Open Scope Z_scope.

Definition EVENT_CHANNEL_CAPACITY : nat := 1024.
Definition LOG_HISTORY_CAPACITY : nat := 1024.
Definition MAX_ARGV_LEN : Z := 1024.
Definition MAX_ARGV_ELEM_BYTES : Z := 256 * 1024.
Definition MAX_OUTPUT_DIMENSION : Z := 16384.

(** ** Errors *)

Inductive CreateError := CeAlreadyExists | CeInvalidName | CeInvalidSize.
Inductive DestroyError := DeNotFound.
Inductive SpawnError := SpSessionNotFound | SpInvalidArgv | SpArgvNotAbsolute | SpArgvTooLarge.
Inductive SessionControlError := ScNotFound | ScFailed (m : string).
Inductive ResizeError := RzRejected (m : string).
Inductive TagWindowError := TwWindowNotFound.
Inductive ScreenshotError := ShFailed (m : string).

(** [anyhow::Error]: the typed errors the dispatcher downcasts to, and any other
    error with its outermost message. *)
Inductive any_error :=
| ErrCreate (e : CreateError)
| ErrDestroy (e : DestroyError)
| ErrSpawn (e : SpawnError)
| ErrCtl (e : SessionControlError)
| ErrResize (e : ResizeError)
| ErrTag (e : TagWindowError)
| ErrScreenshot (e : ScreenshotError)
| ErrMsg (m : string).

#[global] Instance CreateError_eq_dec : EqDecision CreateError.
Proof. solve_decision. Defined.
#[global] Instance DestroyError_eq_dec : EqDecision DestroyError.
Proof. solve_decision. Defined.
#[global] Instance SpawnError_eq_dec : EqDecision SpawnError.
Proof. solve_decision. Defined.
#[global] Instance SessionControlError_eq_dec : EqDecision SessionControlError.
Proof. solve_decision. Defined.
#[global] Instance ResizeError_eq_dec : EqDecision ResizeError.
Proof. solve_decision. Defined.
#[global] Instance TagWindowError_eq_dec : EqDecision TagWindowError.
Proof. solve_decision. Defined.
#[global] Instance ScreenshotError_eq_dec : EqDecision ScreenshotError.
Proof. solve_decision. Defined.
#[global] Instance any_error_eq_dec : EqDecision any_error.
Proof. solve_decision. Defined.

(** ** State *)

Record SessionMeta := {
  sm_name : string;
  sm_pid : Z;
  sm_width : Z;
  sm_height : Z;
  sm_scale : Z;
  sm_created_at : Z;
  sm_inner_socket : path;
  sm_control_socket : path;
  sm_attach_socket : path;
  sm_attached : bool;
}.

Record SessionEntry := {
  se_meta : SessionMeta;
  se_kill : option nat;
  se_child_pids : list Z;
  se_compositor_pid : option Z;
  se_cgroup : option SessionCgroup;
  se_tmpfs : option SessionTmpfs;
  se_log_history : nat;
  se_control_conn : nat;
}.

(** Background tasks ([tokio::spawn]), with what they own. *)
Inductive task :=
| TSupervisor (name : string) (pid : Z) (kill_rx : nat) (inner_socket : path)
| TForwarder (name : string)
| TLogDrainer (log_history : nat) (session stream_name : string)
| TChildWait (session : string) (pid : Z)
| TCgroupCleanup (cg : SessionCgroup).

Record Inner := {
  i_sessions : gmap string SessionEntry;
  i_tags : gmap (string * Z) (list string);
  i_state_dir : path;
  i_session_bin : path;
  i_events : list Event;
  i_handles : list nat;
  i_tasks : list task;
  i_logs : gmap nat (list (string * string));
  i_conns : gmap nat (option conn);
  i_kills : gmap nat bool;
  i_next : nat;
}.

Definition new_inner (state_dir session_bin : path) : Inner :=
  {| i_sessions := ∅; i_tags := ∅; i_state_dir := state_dir; i_session_bin := session_bin;
     i_events := []; i_handles := []; i_tasks := []; i_logs := ∅; i_conns := ∅;
     i_kills := ∅; i_next := 0 |}.

Definition upd_sessions (f : gmap string SessionEntry -> gmap string SessionEntry) (i : Inner) :=
  {| i_sessions := f (i_sessions i); i_tags := i_tags i; i_state_dir := i_state_dir i;
     i_session_bin := i_session_bin i; i_events := i_events i; i_handles := i_handles i;
     i_tasks := i_tasks i; i_logs := i_logs i; i_conns := i_conns i; i_kills := i_kills i;
     i_next := i_next i |}.

Definition upd_tags (f : gmap (string * Z) (list string) -> gmap (string * Z) (list string))
    (i : Inner) :=
  {| i_sessions := i_sessions i; i_tags := f (i_tags i); i_state_dir := i_state_dir i;
     i_session_bin := i_session_bin i; i_events := i_events i; i_handles := i_handles i;
     i_tasks := i_tasks i; i_logs := i_logs i; i_conns := i_conns i; i_kills := i_kills i;
     i_next := i_next i |}.

Definition push_event (e : Event) (i : Inner) :=
  {| i_sessions := i_sessions i; i_tags := i_tags i; i_state_dir := i_state_dir i;
     i_session_bin := i_session_bin i; i_events := i_events i ++ [e]; i_handles := i_handles i;
     i_tasks := i_tasks i; i_logs := i_logs i; i_conns := i_conns i; i_kills := i_kills i;
     i_next := i_next i |}.

Definition push_task (t : task) (i : Inner) :=
  {| i_sessions := i_sessions i; i_tags := i_tags i; i_state_dir := i_state_dir i;
     i_session_bin := i_session_bin i; i_events := i_events i; i_handles := i_handles i;
     i_tasks := i_tasks i ++ [t]; i_logs := i_logs i; i_conns := i_conns i; i_kills := i_kills i;
     i_next := i_next i |}.

Definition set_handles (h : list nat) (i : Inner) :=
  {| i_sessions := i_sessions i; i_tags := i_tags i; i_state_dir := i_state_dir i;
     i_session_bin := i_session_bin i; i_events := i_events i; i_handles := h;
     i_tasks := i_tasks i; i_logs := i_logs i; i_conns := i_conns i; i_kills := i_kills i;
     i_next := i_next i |}.

Definition set_log (a : nat) (l : list (string * string)) (i : Inner) :=
  {| i_sessions := i_sessions i; i_tags := i_tags i; i_state_dir := i_state_dir i;
     i_session_bin := i_session_bin i; i_events := i_events i; i_handles := i_handles i;
     i_tasks := i_tasks i; i_logs := <[a := l]> (i_logs i); i_conns := i_conns i;
     i_kills := i_kills i; i_next := i_next i |}.

Definition set_conn (a : nat) (c : option conn) (i : Inner) :=
  {| i_sessions := i_sessions i; i_tags := i_tags i; i_state_dir := i_state_dir i;
     i_session_bin := i_session_bin i; i_events := i_events i; i_handles := i_handles i;
     i_tasks := i_tasks i; i_logs := i_logs i; i_conns := <[a := c]> (i_conns i);
     i_kills := i_kills i; i_next := i_next i |}.

Definition set_kill (a : nat) (sent : bool) (i : Inner) :=
  {| i_sessions := i_sessions i; i_tags := i_tags i; i_state_dir := i_state_dir i;
     i_session_bin := i_session_bin i; i_events := i_events i; i_handles := i_handles i;
     i_tasks := i_tasks i; i_logs := i_logs i; i_conns := i_conns i;
     i_kills := <[a := sent]> (i_kills i); i_next := i_next i |}.

Definition set_next (n : nat) (i : Inner) :=
  {| i_sessions := i_sessions i; i_tags := i_tags i; i_state_dir := i_state_dir i;
     i_session_bin := i_session_bin i; i_events := i_events i; i_handles := i_handles i;
     i_tasks := i_tasks i; i_logs := i_logs i; i_conns := i_conns i; i_kills := i_kills i;
     i_next := n |}.

Definition set_meta (m : SessionMeta) (e : SessionEntry) : SessionEntry :=
  {| se_meta := m; se_kill := se_kill e; se_child_pids := se_child_pids e;
     se_compositor_pid := se_compositor_pid e; se_cgroup := se_cgroup e; se_tmpfs := se_tmpfs e;
     se_log_history := se_log_history e; se_control_conn := se_control_conn e |}.

(** Registry operations. *)
Abbreviation R := (Eff (Inner * trace) any_error).

(** ** Validation *)

Definition is_alnum (c : ascii) : bool :=
  let n := Ascii.nat_of_ascii c in
  ((48 <=? n) && (n <=? 57) || (65 <=? n) && (n <=? 90) || (97 <=? n) && (n <=? 122))%nat.

Definition name_char (c : ascii) : bool :=
  is_alnum c || Ascii.eqb c "-" || Ascii.eqb c "_" || Ascii.eqb c ".".

Definition validate_session_name (name : string) : result unit any_error :=
  if (String.length name =? 0)%nat || (64 <? String.length name)%nat
  then Err (ErrCreate CeInvalidName)
  else if negb (all_chars name_char name) then Err (ErrCreate CeInvalidName)
  else if starts_with "." name then Err (ErrCreate CeInvalidName)
  else Ok ().

Definition validate_output_size (width height : Z) : result unit any_error :=
  if (width =? 0) || (height =? 0) || (MAX_OUTPUT_DIMENSION <? width)
     || (MAX_OUTPUT_DIMENSION <? height)
  then Err (ErrCreate CeInvalidSize)
  else Ok ().

Definition broadcast {E} (body : Ev.EventBody) : Eff (Inner * trace) E unit :=
  modify (push_event (event_new body)).

(** ** create *)

Section create.
Context `{Env}.

(** Validation and the first look at the map. *)
Definition create_check (name : string) (width height : Z) : R unit :=
  lift (validate_session_name name) ;;
  lift (validate_output_size width height) ;;
  i ← get;
  if decide (is_Some (i_sessions i !! name)) then lift (Err (ErrCreate CeAlreadyExists))
  else mret ().

Definition remove_stale (p : path) : R unit :=
  b ← sys (PathExists p);
  if (b : bool) then sys (RemoveFile p) else mret ().

Definition bind_socket (what : string) (p : path) : R unit :=
  remove_stale p ;;
  r ← sys (BindListener p);
  match r with
  | Ok _ => mret ()
  | Err _ => lift (Err (ErrMsg ("bind " +:+ what +:+ " socket " +:+ path_display p)))
  end.

Definition insert_if (k : string) (v : option string) (m : gmap string string) :=
  match v with Some v => <[k := v]> m | None => m end.

(** The environment of the session process. *)
Definition session_env (env : gmap string string) : R (gmap string string) :=
  path ← sys (EnvVar "PATH");
  log ← sys (EnvVar "RUST_LOG");
  bt ← sys (EnvVar "RUST_BACKTRACE");
  vars ← sys EnvVars;
  let m := <["PATH"%string := default ""%string path]> (∅ : gmap string string) in
  let m := insert_if "RUST_LOG" log m in
  let m := insert_if "RUST_BACKTRACE" bt m in
  let m := foldl (fun m '(k, v) => if starts_with "WAYMUX_" k then <[k := v]> m else m) m
             (vars : list (string * string)) in
  mret (env ∪ m).

Definition session_args (name : string) (width height scale : Z)
    (inner_socket control_socket attach_socket events_socket ready_socket : path)
    (share_clipboard share_audio : bool) : list string :=
  [ "--name"; name; "--width"; pretty width; "--height"; pretty height;
    "--scale"; pretty scale; "--inner-socket"; path_display inner_socket;
    "--control-socket"; path_display control_socket;
    "--attach-socket"; path_display attach_socket;
    "--events-socket"; path_display events_socket;
    "--ready-socket"; path_display ready_socket ]%string
  ++ (if share_clipboard then ["--share-clipboard"%string] else [])
  ++ (if share_audio then ["--share-audio"%string] else []).

(** Wait for the ready handshake, the exit of the process or five seconds. *)
Definition await_ready (name : string) (pid : Z) : R unit :=
  o ← sys (AwaitReady pid);
  match o with
  | OReady => mret ()
  | OReadyFailed =>
      sys (ChildKill pid) ;;
      lift (Err (ErrMsg "waiting for session ready"))
  | OExited code =>
      stderr ← sys (DrainStderr pid);
      lift (Err (ErrMsg ("session " +:+ name +:+ " exited before ready (code "
        +:+ pretty (default (-1) code) +:+ "): " +:+ trim (default ""%string stderr))))
  | OTimedOut =>
      sys (ChildKill pid) ;;
      lift (Err (ErrMsg ("session " +:+ name +:+ " spawn timed out after 5s")))
  end.

(** The cgroup of a session with a memory or cpu cap. *)
Definition apply_caps (name : string) (pid : Z) (mem_cap_mb cpu_cap_pct : option Z) :
    R (option SessionCgroup) :=
  let want_mem := 0 <? default 0 mem_cap_mb in
  let want_cpu := 0 <? default 0 cpu_cap_pct in
  if (want_mem || want_cpu) && (0 <? pid) then
    cg ← try_create_empty name;
    match cg with
    | None => mret None
    | Some cg =>
        (if want_mem then set_memory_max cg (default 0 mem_cap_mb) ;; mret () else mret ()) ;;
        (if want_cpu then set_cpu_max cg (default 0 cpu_cap_pct) else mret ()) ;;
        add_pid cg pid ;;
        mret (Some cg)
    end
  else mret None.

(** A session process that is ready and not yet registered. *)
Record prepared := {
  pr_meta : SessionMeta;
  pr_tmpfs : option SessionTmpfs;
  pr_cgroup : option SessionCgroup;
}.

Definition mount_quota (dir : path) (disk_quota_mb : option Z) : R (option SessionTmpfs) :=
  match disk_quota_mb with
  | Some mb => if 0 <? mb then try_mount dir mb else mret None
  | None => mret None
  end.

(** Everything between the two looks at the map: directory, quota, sockets,
    process, handshake, caps. *)
Definition create_prepare (name : string) (width height scale : Z)
    (env : gmap string string) (share_clipboard share_audio : bool)
    (mem_cap_mb cpu_cap_pct disk_quota_mb fd_limit : option Z) : R prepared :=
  i ← get;
  let dir := path_join (i_state_dir i) name in
  r ← sys (CreateDirAll dir);
  match r with
  | Err _ => lift (Err (ErrMsg ("mkdir " +:+ path_display dir)))
  | Ok _ =>
      tmpfs ← mount_quota dir disk_quota_mb;
      let inner_socket := path_join dir "wayland.sock" in
      let control_socket := path_join dir "control.sock" in
      let attach_socket := path_join dir "attach.sock" in
      let ready_socket := path_join dir "ready.sock" in
      let events_socket := path_join dir "events.sock" in
      remove_stale inner_socket ;;
      remove_stale control_socket ;;
      remove_stale attach_socket ;;
      bind_socket "ready" ready_socket ;;
      bind_socket "events" events_socket ;;
      cenv ← session_env env;
      sp ← sys (SpawnProcess {|
        c_program := path_display (i_session_bin i);
        c_args := session_args name width height scale inner_socket control_socket
                    attach_socket events_socket ready_socket share_clipboard share_audio;
        c_env := cenv;
        c_fd_limit := match fd_limit with
                      | Some cap => if 0 <? cap then Some cap else None
                      | None => None
                      end |});
      match sp with
      | Err _ => lift (Err (ErrMsg ("spawn " +:+ path_display (i_session_bin i))))
      | Ok id =>
          let pid := match id with Some p => as_s 32 p | None => -1 end in
          await_ready name pid ;;
          sys (RemoveFile ready_socket) ;;
          cgroup ← apply_caps name pid mem_cap_mb cpu_cap_pct;
          modify (push_task (TForwarder name)) ;;
          now ← sys UnixSeconds;
          mret {|
            pr_meta := {|
              sm_name := name; sm_pid := pid; sm_width := width; sm_height := height;
              sm_scale := scale; sm_created_at := default 0 now;
              sm_inner_socket := inner_socket; sm_control_socket := control_socket;
              sm_attach_socket := attach_socket; sm_attached := false |};
            pr_tmpfs := tmpfs;
            pr_cgroup := cgroup |}
      end
  end.

(** The section under the second lock: register the entry, its supervisor and
    its log drainers. *)
Definition register (p : prepared) (i : Inner) : Inner :=
  let n := i_next i in
  let name := sm_name (pr_meta p) in
  let entry := {|
    se_meta := pr_meta p; se_kill := Some n; se_child_pids := []; se_compositor_pid := None;
    se_cgroup := pr_cgroup p; se_tmpfs := pr_tmpfs p; se_log_history := S n;
    se_control_conn := S (S n) |} in
  let i := set_next (3 + n)%nat i in
  let i := set_kill n false i in
  let i := set_log (S n) [] i in
  let i := set_conn (S (S n)) None i in
  let i := upd_sessions <[name := entry]> i in
  let i := push_task (TSupervisor name (sm_pid (pr_meta p)) n (sm_inner_socket (pr_meta p))) i in
  let i := set_handles (i_handles i ++ [n]) i in
  let i := push_task (TLogDrainer (S n) name "stdout") i in
  push_task (TLogDrainer (S n) name "stderr") i.

Definition create_commit (p : prepared) : R unit :=
  i ← get;
  if decide (is_Some (i_sessions i !! sm_name (pr_meta p))) then
    sys (ChildKill (sm_pid (pr_meta p))) ;;
    lift (Err (ErrCreate CeAlreadyExists))
  else modify (register p).

Definition create (name : string) (width height scale : Z) (env : gmap string string)
    (share_clipboard share_audio : bool)
    (mem_cap_mb cpu_cap_pct disk_quota_mb fd_limit : option Z) (api_key_id : option string) :
    R CreateSessionResult :=
  create_check name width height ;;
  p ← create_prepare name width height scale env share_clipboard share_audio
        mem_cap_mb cpu_cap_pct disk_quota_mb fd_limit;
  create_commit p ;;
  broadcast (Ev.SessionCreated name) ;;
  mret {| csr_name := name;
          csr_inner_socket_path := path_display (sm_inner_socket (pr_meta p)) |}.
End create.

(** ** destroy, shutdown, supervision *)

Section teardown.
Context `{Env}.

Definition forget_tags (name : string) (i : Inner) : Inner :=
  upd_tags (filter (fun kv => kv.1.1 <> name)) i.

Definition opt_do {S E A} (o : option A) (f : A -> Eff S E unit) : Eff S E unit :=
  match o with Some a => f a | None => mret () end.

Definition destroy (name : string) : R unit :=
  i ← get;
  match i_sessions i !! name with
  | None => lift (Err (ErrDestroy DeNotFound))
  | Some entry =>
      modify (upd_sessions (delete name)) ;;
      for_each (se_child_pids entry) (fun pid => sys (KillTerm (as_s 32 pid))) ;;
      modify (forget_tags name) ;;
      opt_do (se_kill entry) (fun tx => modify (set_kill tx true)) ;;
      opt_do (se_tmpfs entry) unmount ;;
      opt_do (se_cgroup entry) (fun cg => modify (push_task (TCgroupCleanup cg)))
  end.

(** The spawned cleanup of a cgroup: kill everything in the leaf, then up to
    ten attempts to remove it. *)
Fixpoint cgroup_retry (attempts : nat) (cg : SessionCgroup) : R bool :=
  match attempts with
  | O => mret false
  | S attempts =>
      sys (SleepMillis 200) ;;
      ok ← try_remove cg;
      if (ok : bool) then mret true else cgroup_retry attempts cg
  end.

Definition cgroup_cleanup (cg : SessionCgroup) : R bool :=
  kill_all cg ;; cgroup_retry 10 cg.

(** [let _ = m.await]. *)
Definition ignore_err {S E A} (m : Eff S E A) : Eff S E unit := fun s => ((m s).1, Ok ()).

Definition shutdown_all : R unit :=
  i ← get;
  let names := (map_to_list (i_sessions i)).*1 in
  for_each names (fun name => ignore_err (destroy name)) ;;
  i ← get;
  let handles := i_handles i in
  modify (set_handles []) ;;
  start ← sys InstantMillis;
  let deadline := start + 8000 in
  for_each handles (fun h =>
    now ← sys InstantMillis;
    sys (JoinTimeout h (sat_sub deadline now))).

Definition exit_code_of (status : exit_status) : Z :=
  match es_code status with
  | Some code => code
  | None => match es_signal status with Some sig => 128 + sig | None => -1 end
  end.

(** SIGTERM, five seconds, SIGKILL, two seconds. A handle without a process id
    (recorded as -1) is not signalled. *)
Definition shutdown_child (pid : Z) : R Z :=
  (if 0 <? pid then sys (KillTerm pid) else mret ()) ;;
  r ← sys (ChildWaitTimeout pid 5);
  match r with
  | Some (Some s) => mret (exit_code_of s)
  | Some None => mret (-1)
  | None =>
      sys (ChildKill pid) ;;
      r ← sys (ChildWaitTimeout pid 2);
      match r with
      | Some (Some s) => mret (exit_code_of s)
      | _ => mret (-1)
      end
  end.

(** What the supervisor does once it has an exit code. *)
Definition supervisor_finish (name : string) (inner_socket : path) (exit_code : Z) : R unit :=
  i ← get;
  let tmpfs := match i_sessions i !! name with Some e => se_tmpfs e | None => None end in
  modify (upd_sessions (delete name)) ;;
  opt_do tmpfs unmount ;;
  modify (forget_tags name) ;;
  sys (RemoveFile inner_socket) ;;
  opt_do (path_parent inner_socket) (fun parent =>
    sys (RemoveFile (path_join parent "control.sock")) ;;
    sys (RemoveFile (path_join parent "events.sock")) ;;
    sys (RemoveFile (path_join parent "attach.sock")) ;;
    sys (RemoveDirAll parent)) ;;
  broadcast (Ev.SessionDestroyed name exit_code).

(** The supervisor: [woken] is the branch of the [select!] that fires, the
    kill channel or the process exiting. *)
Definition session_supervisor (name : string) (pid : Z) (woken : bool) (inner_socket : path) :
    R unit :=
  code ← (if woken then shutdown_child pid
          else st ← sys (ChildWait pid);
               mret (match st with Some s => exit_code_of s | None => -1 end));
  supervisor_finish name inner_socket code.
End teardown.
