(* ===== verification/RegistryOps.v ===== *)
(** * Operations on a live session ([crates/waymux-daemon/src/registry.rs])

    Spawning clients, the control connection to the session process with its
    reconnect, the requests forwarded over it, window tags, log history and the
    background tasks that feed events into the broadcast channel. *)

From stdpp Require Import prelude list strings gmap pretty.
From Stdlib Require Import ZArith Lia Ascii.
From S2P Require Import Prelude Words Codec Messages Sys Quota Registry.

Open Scope Z_scope.

(** ** Spawning a client *)

Definition string_len (s : string) : Z := Z.of_nat (String.length s).

(** The checks on [argv], in the order of the source. *)
Definition validate_argv (argv : list string) : result (string * list string) any_error :=
  match argv with
  | [] => Err (ErrSpawn SpInvalidArgv)
  | argv0 :: rest =>
      if negb (starts_with "/" argv0) then Err (ErrSpawn SpArgvNotAbsolute)
      else if MAX_ARGV_LEN <? Z.of_nat (length argv) then Err (ErrSpawn SpArgvTooLarge)
      else if existsb (fun a => MAX_ARGV_ELEM_BYTES <? string_len a) argv
      then Err (ErrSpawn SpArgvTooLarge)
      else Ok (argv0, rest)
  end.

(** The daemon variables a client may see. *)
Definition client_env_keys : list string :=
  ["PATH"; "HOME"; "USER"; "LANG"; "LC_ALL"; "FONTCONFIG_PATH"; "XDG_DATA_DIRS"]%string.

Definition client_fixed_env (inner_dir : path) (wayland_display : string) :
    list (string * string) :=
  [ ("XDG_RUNTIME_DIR", path_display inner_dir); ("WAYLAND_DISPLAY", wayland_display);
    ("XDG_SESSION_TYPE", "wayland"); ("MOZ_ENABLE_WAYLAND", "1");
    ("AMD_DEBUG", "nodcc"); ("RADV_DEBUG", "nodcc") ]%string.

Definition insert_all (kvs : list (string * string)) (m : gmap string string) :=
  foldl (fun m '(k, v) => <[k := v]> m) m kvs.

Section spawn.
Context `{Env}.

(** The allow-listed variables that are set. *)
Fixpoint inherit_env (keys : list string) (m : gmap string string) : R (gmap string string) :=
  match keys with
  | [] => mret m
  | k :: keys =>
      v ← sys (EnvVar k);
      inherit_env keys (insert_if k v m)
  end.

Definition client_env (inner_dir : path) (wayland_display : string)
    (env : gmap string string) : R (gmap string string) :=
  m ← inherit_env client_env_keys ∅;
  let m := insert_all (client_fixed_env inner_dir wayland_display) m in
  let m := delete "DISPLAY"%string m in
  mret (env ∪ m).

(** The entry after a client has been recorded in it. *)
Definition record_child (pid : Z) (compositor : bool) (e : SessionEntry) : SessionEntry :=
  {| se_meta := se_meta e; se_kill := se_kill e; se_child_pids := se_child_pids e ++ [pid];
     se_compositor_pid := if compositor then Some pid else se_compositor_pid e;
     se_cgroup := se_cgroup e; se_tmpfs := se_tmpfs e; se_log_history := se_log_history e;
     se_control_conn := se_control_conn e |}.

Definition spawn_child (session_name : string) (argv : list string)
    (env : gmap string string) (compositor : bool) : R Z :=
  '(argv0, rest) ← lift (validate_argv argv);
  i ← get;
  match i_sessions i !! session_name with
  | None => lift (Err (ErrSpawn SpSessionNotFound))
  | Some s =>
      match path_parent (sm_inner_socket (se_meta s)) with
      | None => lift (Err (ErrMsg "inner socket has no parent"))
      | Some inner_dir =>
      match path_file_name (sm_inner_socket (se_meta s)) with
      | None => lift (Err (ErrMsg "inner socket has no file name"))
      | Some wayland_display =>
          cenv ← client_env inner_dir wayland_display env;
          r ← sys (SpawnProcess {| c_program := argv0; c_args := rest; c_env := cenv;
                                   c_fd_limit := None |});
          match r with
          | Err _ => lift (Err (ErrMsg ("spawn " +:+ argv0)))
          | Ok id =>
              let pid := match id with Some p => as_s 32 p | None => -1 end in
              i ← get;
              match i_sessions i !! session_name with
              | None => mret ()
              | Some e =>
                  (if 0 <? pid then
                     modify (upd_sessions <[session_name := record_child pid compositor e]>) ;;
                     opt_do (se_cgroup e) (fun cg => add_pid cg pid)
                   else mret ()) ;;
                  modify (push_task (TLogDrainer (se_log_history e) session_name "stdout")) ;;
                  modify (push_task (TLogDrainer (se_log_history e) session_name "stderr"))
              end ;;
              modify (push_task (TChildWait session_name pid)) ;;
              mret pid
          end
      end
      end
  end.

(** The entry after a client has exited, and whether it was the compositor. *)
Definition prune_child (pid : Z) (e : SessionEntry) : SessionEntry * bool :=
  let was := bool_decide (se_compositor_pid e = Some pid) in
  ({| se_meta := se_meta e; se_kill := se_kill e;
      se_child_pids := filter (fun p => p <> pid) (se_child_pids e);
      se_compositor_pid := if was then None else se_compositor_pid e;
      se_cgroup := se_cgroup e; se_tmpfs := se_tmpfs e;
      se_log_history := se_log_history e; se_control_conn := se_control_conn e |}, was).

(** The task that waits for a client. *)
Definition child_wait (session : string) (pid : Z) : R unit :=
  status ← sys (ChildWait pid);
  let code := match status with Some s => exit_code_of s | None => -1 end in
  i ← get;
  was_compositor ←
    (if 0 <? pid then
       match i_sessions i !! session with
       | Some e =>
           let '(e', was) := prune_child pid e in
           modify (upd_sessions <[session := e']>) ;; mret was
       | None => mret false
       end
     else mret false);
  broadcast (Ev.ChildExited session pid code) ;;
  if (was_compositor : bool) then broadcast (Ev.SessionCrashed session pid code) else mret ().
End spawn.

(** ** Logs *)

Definition ring_push {A} (cap : nat) (q : list A) (x : A) : list A :=
  (if (cap <=? length q)%nat then tail q else q) ++ [x].

Section logs.
Context `{Env}.

(** One line read by a drainer. *)
Definition log_line (log_history : nat) (session stream_name line : string) : R unit :=
  sys (Stderr ("[" +:+ session +:+ ":" +:+ stream_name +:+ "] " +:+ line)) ;;
  i ← get;
  let q := default [] (i_logs i !! log_history) in
  modify (set_log log_history (ring_push LOG_HISTORY_CAPACITY q (stream_name, line))) ;;
  broadcast (Ev.Log session stream_name line).

(** A drainer over the lines of its stream. *)
Definition log_drainer (log_history : nat) (session stream_name : string)
    (text : list string) : R unit :=
  for_each text (log_line log_history session stream_name).

Definition replay_logs (session : string) : R (list (string * string)) :=
  i ← get;
  match i_sessions i !! session with
  | Some e => mret (default [] (i_logs i !! se_log_history e))
  | None => mret []
  end.

Definition session_info (e : SessionEntry) : SessionInfo :=
  {| si_name := sm_name (se_meta e); si_pid := sm_pid (se_meta e);
     si_width := sm_width (se_meta e); si_height := sm_height (se_meta e);
     si_scale := sm_scale (se_meta e); si_attached := sm_attached (se_meta e);
     si_created_at := sm_created_at (se_meta e) |}.

Definition list_sessions : R (list SessionInfo) :=
  i ← get;
  mret (session_info <$> (map_to_list (i_sessions i)).*2).

Definition set_attached (b : bool) (e : SessionEntry) : SessionEntry :=
  let m := se_meta e in
  set_meta {|
    sm_name := sm_name m; sm_pid := sm_pid m; sm_width := sm_width m;
    sm_height := sm_height m; sm_scale := sm_scale m; sm_created_at := sm_created_at m;
    sm_inner_socket := sm_inner_socket m; sm_control_socket := sm_control_socket m;
    sm_attach_socket := sm_attach_socket m; sm_attached := b |} e.

Definition attach (name : string) : R path :=
  i ← get;
  match i_sessions i !! name with
  | None => lift (Err (ErrCtl ScNotFound))
  | Some e =>
      modify (upd_sessions <[name := set_attached true e]>) ;;
      mret (sm_attach_socket (se_meta e))
  end.

Definition detach (name : string) : R unit :=
  i ← get;
  match i_sessions i !! name with
  | None => lift (Err (ErrCtl ScNotFound))
  | Some e => modify (upd_sessions <[name := set_attached false e]>)
  end.

Definition inner_socket_path (name : string) : R (option path) :=
  i ← get;
  mret ((fun e => sm_inner_socket (se_meta e)) <$> i_sessions i !! name).
End logs.

(** ** The control connection *)

Section control.
Context `{Env} `{MsgPack} `{!Serde SessionCtlRequest} `{!Serde SessionCtlResponse}.

(** One request and its framed response on a stream. *)
Definition rpc (c : conn) (frame : list Z) : R (list Z) :=
  w ← sys (WriteAll c frame);
  match w with
  | Err _ => lift (Err (ErrMsg "write session-ctl request"))
  | Ok _ =>
      l ← sys (ReadExact c 4);
      match l with
      | Err _ => lift (Err (ErrMsg "read session-ctl response length"))
      | Ok len_buf =>
          let len := from_be len_buf in
          if MAX_FRAME_SIZE <? len then
            lift (Err (ErrMsg ("session-ctl response too large: " +:+ pretty len)))
          else
            p ← sys (ReadExact c (Z.to_nat len));
            match p with
            | Err _ => lift (Err (ErrMsg "read session-ctl response"))
            | Ok payload => mret (len_buf ++ payload)
            end
      end
  end.

Definition decode_ctl (payload : list Z) : R SessionCtlResponse :=
  match decode_frame payload with
  | Ok resp => mret resp
  | Err _ => lift (Err (ErrMsg "decode session-ctl response"))
  end.

(** Open a fresh stream, store it, run the request; a failure clears the slot. *)
Definition fresh_rpc (slot : nat) (p : path) (frame : list Z) : R SessionCtlResponse :=
  r ← sys (ConnectTimeout p 2);
  match r with
  | None => lift (Err (ErrMsg "session control connect timed out"))
  | Some (Err _) => lift (Err (ErrMsg ("connect " +:+ path_display p)))
  | Some (Ok c) =>
      modify (set_conn slot (Some c)) ;;
      eff_match (rpc c frame) decode_ctl
        (fun e => modify (set_conn slot None) ;; lift (Err e))
  end.

(** [session_control]: reuse the stored stream; if it fails, drop it and try
    once more on a fresh one. *)
Definition session_control (name : string) (method : Ctl.SessionCtlMethod) :
    R SessionCtlResponse :=
  i ← get;
  match i_sessions i !! name with
  | None => lift (Err (ErrCtl ScNotFound))
  | Some entry =>
      let p := sm_control_socket (se_meta entry) in
      let slot := se_control_conn entry in
      match encode_frame {| scq_id := 1; scq_method := method |} [] with
      | (_, Err _) => lift (Err (ErrMsg "encode session-ctl request"))
      | (buf, Ok _) =>
          match default None (i_conns i !! slot) with
          | Some c =>
              eff_match (rpc c buf) decode_ctl
                (fun _ => modify (set_conn slot None) ;; fresh_rpc slot p buf)
          | None => fresh_rpc slot p buf
          end
      end
  end.

(** [if !resp.ok { bail!(..) }]. *)
Definition check_ok (mk : string -> any_error) (resp : SessionCtlResponse) : R unit :=
  if negb (scp_ok resp) then lift (Err (mk (default "unknown"%string (scp_error resp))))
  else mret ().

Definition ctl_failed (m : string) : any_error := ErrCtl (ScFailed m).

(** A request whose success carries nothing. *)
Definition ctl_unit (name : string) (method : Ctl.SessionCtlMethod) : R unit :=
  resp ← session_control name method;
  check_ok ctl_failed resp.

(** A request whose success carries a typed result. *)
Definition ctl_typed {T} `{Serde T} (mk : string -> any_error) (what : string)
    (name : string) (method : Ctl.SessionCtlMethod) : R T :=
  resp ← session_control name method;
  check_ok mk resp ;;
  match ctl_decode_result resp with
  | Ok v => mret v
  | Err e => lift (Err (ErrMsg ("decode " +:+ what +:+ ": " +:+ e)))
  end.

Context `{!Serde SessionCtlWindows} `{!Serde SessionCtlInfo} `{!Serde SessionCtlScreenshot}
  `{!Serde SessionCtlRecordStarted} `{!Serde RecordStatusResponse} `{!Serde ViewerStarted}
  `{!Serde ViewerStatusResponse}.

(** The daemon's tags replace the session's on the windows that have some. *)
Definition merge_tags (tags : gmap (string * Z) (list string)) (name : string)
    (w : WindowInfo) : WindowInfo :=
  match tags !! (name, wi_id w) with
  | Some t =>
      {| wi_id := wi_id w; wi_app_id := wi_app_id w; wi_title := wi_title w; wi_tags := t;
         wi_geometry := wi_geometry w; wi_focused := wi_focused w; wi_pid := wi_pid w;
         wi_content_rect := wi_content_rect w |}
  | None => w
  end.

Definition list_windows (name : string) : R (list WindowInfo) :=
  body ← ctl_typed (T := SessionCtlWindows) ctl_failed "list_windows" name Ctl.ListWindows;
  i ← get;
  mret (merge_tags (i_tags i) name <$> scw_windows body).

Definition set_dims (width height : Z) (e : SessionEntry) : SessionEntry :=
  let m := se_meta e in
  set_meta {|
    sm_name := sm_name m; sm_pid := sm_pid m; sm_width := width; sm_height := height;
    sm_scale := sm_scale m; sm_created_at := sm_created_at m;
    sm_inner_socket := sm_inner_socket m; sm_control_socket := sm_control_socket m;
    sm_attach_socket := sm_attach_socket m; sm_attached := sm_attached m |} e.

Definition resize_rejection (width height : Z) : string :=
  ("width and height must each be between 1 and " +:+ pretty MAX_OUTPUT_DIMENSION
   +:+ " pixels (got " +:+ pretty width +:+ "x" +:+ pretty height +:+ ")")%string.

Definition resize (name : string) (width height : Z) : R unit :=
  match validate_output_size width height with
  | Err _ => lift (Err (ErrResize (RzRejected (resize_rejection width height))))
  | Ok _ =>
      resp ← session_control name (Ctl.Resize width height);
      check_ok (fun m => ErrResize (RzRejected m)) resp ;;
      i ← get;
      match i_sessions i !! name with
      | Some e => modify (upd_sessions <[name := set_dims width height e]>)
      | None => mret ()
      end
  end.

(** Poll until the session has been quiet for [quiet_ms] or the deadline has
    passed; [None] when [fuel] polls were not enough. *)
Fixpoint idle_loop (fuel : nat) (name : string) (quiet_ns deadline : Z) : R (option bool) :=
  match fuel with
  | O => mret None
  | S fuel =>
      info ← ctl_typed (T := SessionCtlInfo) ctl_failed "info" name Ctl.Info;
      '(tv_sec, tv_nsec) ← sys MonotonicTimespec;
      let now_ns := sat_u64 (sat_u64 (as_u 64 tv_sec * 1000000000) + as_u 64 tv_nsec) in
      let since := sat_sub now_ns (sci_last_damage_ns info) in
      if quiet_ns <=? since then mret (Some true)
      else
        now ← sys InstantMillis;
        if deadline <=? now then mret (Some false)
        else
          sys (SleepMillis 10) ;;
          idle_loop fuel name quiet_ns deadline
  end.

Definition wait_for_idle (fuel : nat) (name : string) (quiet_ms timeout_ms : Z) :
    R (option bool) :=
  let quiet_ns := quiet_ms * 1000000 in
  start ← sys InstantMillis;
  idle_loop fuel name quiet_ns (start + timeout_ms).

Definition screenshot (name : string) (window_id : Z) : R SessionCtlScreenshot :=
  ctl_typed (fun m => ErrScreenshot (ShFailed m)) "screenshot" name (Ctl.Screenshot window_id).

Definition screenshot_desktop (name : string) : R SessionCtlScreenshot :=
  ctl_typed (fun m => ErrScreenshot (ShFailed m)) "screenshot_desktop" name
    Ctl.ScreenshotDesktop.

Definition inject_pointer (name : string) (x y button : Z) (state : KeyState)
    (axis_x axis_y : Z) (window_id : option Z) (content : bool) : R unit :=
  ctl_unit name (Ctl.InjectPointer x y button state axis_x axis_y window_id content).

Definition inject_touch (name : string) (id x y : Z) (phase : TouchPhase)
    (window_id : option Z) (content : bool) : R unit :=
  ctl_unit name (Ctl.InjectTouch id x y phase window_id content).

Definition inject_key (name : string) (keycode : Z) (state : KeyState) (modifiers : Z) : R unit :=
  ctl_unit name (Ctl.InjectKey keycode state modifiers).

Definition inject_batch (name : string) (ops : list Op.InjectOp) : R unit :=
  ctl_unit name (Ctl.InjectBatch ops).

Definition record_start (name : string) (path : option string)
    (codec secondary_codec : option RecordingCodec) (mode : option CaptureMode)
    (min_fps : option Z) : R SessionCtlRecordStarted :=
  ctl_typed ctl_failed "record_start" name
    (Ctl.RecordStart path codec secondary_codec mode min_fps).

Definition record_stop (name : string) : R unit := ctl_unit name Ctl.RecordStop.

Definition record_status (name : string) : R RecordStatusResponse :=
  ctl_typed ctl_failed "record_status" name Ctl.RecordStatus.

Definition viewer_start (name : string) (bind : option string) (port : option Z) :
    R ViewerStarted :=
  ctl_typed ctl_failed "viewer_start" name (Ctl.ViewerStart bind port).

Definition viewer_stop (name : string) : R unit := ctl_unit name Ctl.ViewerStop.

Definition viewer_status (name : string) : R ViewerStatusResponse :=
  ctl_typed ctl_failed "viewer_status" name Ctl.ViewerStatus.

(** The part under the lock of the tags: the session is not looked up again. *)
Definition store_tags (name : string) (window_id : Z) (tags : list string) : R unit :=
  modify (upd_tags <[(name, window_id) := tags]>).

(** One step here; in the code other operations may run while the session is asked. *)
Definition tag_window (name : string) (window_id : Z) (tags : list string) : R unit :=
  windows ← list_windows name;
  if negb (existsb (fun w => wi_id w =? window_id) windows)
  then lift (Err (ErrTag TwWindowNotFound))
  else store_tags name window_id tags.
End control.

(** ** Events from the session *)

Section forward.
Context `{Env} `{!Serde Event}.

(** The read loop of one connection: every event the session sends is
    broadcast, until the stream ends, a frame is too large or one does not
    decode. Every frame takes at least four bytes of the stream. *)
Fixpoint forward_frames (fuel : nat) (s : stream) : R unit :=
  match fuel with
  | O => mret ()
  | S fuel =>
      match stream_read_exact 4 s with
      | (_, Err _) => mret ()
      | (s1, Ok len_buf) =>
          let len := from_be len_buf in
          if MAX_FRAME_SIZE <? len then mret ()
          else
            match stream_read_exact (Z.to_nat len) s1 with
            | (_, Err _) => mret ()
            | (s2, Ok rest) =>
                match decode_frame (len_buf ++ rest) with
                | Err _ => mret ()
                | Ok event => modify (push_event event) ;; forward_frames fuel s2
                end
            end
      end
  end.

Definition forward_connection (s : stream) : R unit :=
  forward_frames (S (length (st_bytes s))) s.

(** The accept loop over the connections the session makes, [None] an [accept]
    that fails; it returns [true] when it ends because the session is gone. *)
Fixpoint accept_and_forward_events (session_name : string) (accepts : list (option stream)) :
    R bool :=
  match accepts with
  | [] => mret false
  | a :: accepts =>
      match a with
      | None => sys (SleepMillis 200)
      | Some s => forward_connection s
      end ;;
      i ← get;
      if decide (is_Some (i_sessions i !! session_name))
      then accept_and_forward_events session_name accepts
      else mret true
  end.
End forward.
