(* ===== verification/RegistryInv.v ===== *)
(** * The registry invariant

    A weakest-precondition calculus for registry computations over an arbitrary
    environment; the invariant that ties the session map, the tags and the
    shared cells together; and the theorem that every operation, in every
    environment and whether it succeeds or fails, preserves it. *)

From stdpp Require Import prelude list strings gmap pretty.
From Stdlib Require Import ZArith Lia Ascii.
From S2P Require Import Prelude Words Codec Messages Sys Quota Registry RegistryOps.

Open Scope Z_scope.

(** ** Weakest preconditions

    What holds of the registry's own state after a computation, for every
    trace; [QE] is the condition on the error path. *)

Definition wp {X E A} (m : Eff (X * trace) E A) (Q : A -> X -> Prop) (QE : E -> X -> Prop)
    (x : X) : Prop :=
  forall t, match m (x, t) with
            | ((x', _), Ok a) => Q a x'
            | ((x', _), Err e) => QE e x'
            end.

Section wp.
Context `{Env} {X E : Type}.
Implicit Types (QE : E -> X -> Prop) (x : X).

Lemma wp_ret {A} (a : A) (Q : A -> X -> Prop) QE x : Q a x -> wp (mret a) Q QE x.
Proof. by intros ? t. Qed.

Lemma wp_lift {A} (r : result A E) (Q : A -> X -> Prop) QE x :
  match r with Ok a => Q a x | Err e => QE e x end -> wp (lift r) Q QE x.
Proof. intros Hr t. by destruct r. Qed.

Lemma wp_bind {A B} (m : Eff (X * trace) E A) (k : A -> Eff (X * trace) E B)
    (Q : B -> X -> Prop) QE x :
  wp m (fun a => wp (k a) Q QE) QE x -> wp (m ≫= k) Q QE x.
Proof.
  intros Hm t. specialize (Hm t). unfold mbind, eff_mbind.
  destruct (m (x, t)) as [[x' t'] [a|e]]; [apply Hm | done].
Qed.

Lemma wp_match {A B} (m : Eff (X * trace) E A) (k : A -> Eff (X * trace) E B)
    (h : E -> Eff (X * trace) E B) (Q : B -> X -> Prop) QE x :
  wp m (fun a => wp (k a) Q QE) (fun e => wp (h e) Q QE) x -> wp (eff_match m k h) Q QE x.
Proof.
  intros Hm t. specialize (Hm t). unfold eff_match.
  destruct (m (x, t)) as [[x' t'] [a|e]]; apply Hm.
Qed.

Lemma wp_sys {A} (c : syscall A) (Q : A -> X -> Prop) QE x :
  (forall a, Q a x) -> wp (sys c) Q QE x.
Proof. intros Hq t. cbn. apply Hq. Qed.

Lemma wp_get (Q : X -> X -> Prop) QE x : Q x x -> wp get Q QE x.
Proof. by intros ? t. Qed.

Lemma wp_modify (f : X -> X) (Q : unit -> X -> Prop) QE x :
  Q () (f x) -> wp (modify f) Q QE x.
Proof. by intros ? t. Qed.

Lemma wp_conseq {A} (m : Eff (X * trace) E A) (Q Q' : A -> X -> Prop) QE QE' x :
  wp m Q QE x -> (forall a x', Q a x' -> Q' a x') -> (forall e x', QE e x' -> QE' e x') ->
  wp m Q' QE' x.
Proof.
  intros Hm H1 H2 t. specialize (Hm t).
  destruct (m (x, t)) as [[x' t'] [a|e]]; auto.
Qed.

Lemma wp_ignore {A} (m : Eff (X * trace) E A) (Q : unit -> X -> Prop) QE x :
  wp m (fun _ => Q ()) (fun _ => Q ()) x -> wp (ignore_err m) Q QE x.
Proof.
  intros Hm t. specialize (Hm t). unfold ignore_err.
  destruct (m (x, t)) as [[x' t'] [a|e]]; done.
Qed.

(** A loop keeps what its body keeps. *)
Lemma wp_for_each {A} (l : list A) (f : A -> Eff (X * trace) E unit) (I : X -> Prop) x :
  (forall a x', a ∈ l -> I x' -> wp (f a) (fun _ => I) (fun _ => I) x') ->
  I x -> wp (for_each l f) (fun _ => I) (fun _ => I) x.
Proof.
  revert x. induction l as [|a l IH]; intros x Hf Hx; cbn.
  { by apply wp_ret. }
  apply wp_bind. eapply wp_conseq; [apply Hf; [left|done] | | done].
  intros ? x' Hx'. apply IH; [|done]. intros b y Hb. apply Hf. by right.
Qed.
End wp.

(** One step of a computation; side conditions are left to the caller. *)
Ltac wp_step :=
  cbv beta;
  lazymatch goal with
  | |- wp (_ ≫= _) _ _ _ => apply wp_bind
  | |- wp (eff_match _ _ _) _ _ _ => apply wp_match
  | |- wp (mret _) _ _ _ => apply wp_ret
  | |- wp (lift _) _ _ _ => apply wp_lift; cbv beta iota
  | |- wp (sys _) _ _ _ => apply wp_sys; intros ?
  | |- wp get _ _ _ => apply wp_get
  | |- wp (modify _) _ _ _ => apply wp_modify
  | |- wp (broadcast _) _ _ _ => apply wp_modify
  | |- wp (opt_do ?o _) _ _ _ => unfold opt_do
  | |- wp (let _ := _ in _) _ _ _ => cbv zeta
  | |- wp (if ?b then _ else _) _ _ _ => destruct b eqn:?
  | |- wp (match ?x with _ => _ end) _ _ _ => destruct x eqn:?
  end.

Ltac wp_run := repeat wp_step.

(** A computation that only calls the operating system leaves the state alone;
    a total one never fails either. *)
Definition pure_io {X E A} (m : Eff (X * trace) E A) : Prop :=
  forall (x : X) (Q : A -> X -> Prop) (QE : E -> X -> Prop),
    (forall a, Q a x) -> (forall e, QE e x) -> wp m Q QE x.

Definition total_io {X E A} (m : Eff (X * trace) E A) : Prop :=
  forall (x : X) (Q : A -> X -> Prop) (QE : E -> X -> Prop), (forall a, Q a x) -> wp m Q QE x.

Create HintDb wp_io discriminated.

(** Run a computation, using what is known of the parts that only do I/O. *)
Ltac wp_io :=
  repeat first
    [ wp_step
    | match goal with
      | |- wp ?m _ _ _ =>
          let T := fresh in
          assert (T : total_io m) by (solve [auto with wp_io nocore]);
          apply T; clear T; intros ?
      | |- wp ?m _ _ _ =>
          let T := fresh in
          assert (T : pure_io m) by (solve [auto with wp_io nocore]);
          apply T; clear T; intros ?
      end ].

Ltac io_only := intros ? ? ? HQ; intros; wp_io; auto.

Section pure.
Context `{Env}.

Lemma try_create_empty_io {X E} name : total_io (X := X) (E := E) (try_create_empty name).
Proof. unfold try_create_empty, daemon_cgroup_dir, is_cgroup_v2_mount. io_only. Qed.

Lemma set_memory_max_io {X E} cg m : total_io (X := X) (E := E) (set_memory_max cg m).
Proof. unfold set_memory_max. io_only. Qed.

Lemma set_cpu_max_io {X E} cg m : total_io (X := X) (E := E) (set_cpu_max cg m).
Proof. unfold set_cpu_max. io_only. Qed.

Lemma try_mount_io {X E} p mb : total_io (X := X) (E := E) (try_mount p mb).
Proof. unfold try_mount. io_only. Qed.

Lemma unmount_io {X E} t : total_io (X := X) (E := E) (unmount t).
Proof. unfold unmount. io_only. Qed.

Lemma add_pid_io {X E} cg p : total_io (X := X) (E := E) (add_pid cg p).
Proof. unfold add_pid. io_only. Qed.

Lemma try_remove_io {X E} cg : total_io (X := X) (E := E) (try_remove cg).
Proof. unfold try_remove. io_only. Qed.

Lemma kill_all_io {X E} cg : total_io (X := X) (E := E) (kill_all cg).
Proof. unfold kill_all. io_only. Qed.

Lemma for_each_io {X E A} (l : list A) (f : A -> Eff (X * trace) E unit) :
  (forall a, total_io (f a)) -> total_io (for_each l f).
Proof.
  intros Hf. induction l as [|a l IH]; intros x Q QE HQ; cbn; [by apply wp_ret|].
  apply wp_bind, Hf. intros []. by apply IH.
Qed.

Lemma remove_stale_io p : total_io (remove_stale p).
Proof. unfold remove_stale. io_only. Qed.

Lemma session_env_io env : total_io (session_env env).
Proof. unfold session_env. io_only. Qed.

Lemma shutdown_child_io pid : total_io (shutdown_child pid).
Proof. unfold shutdown_child. io_only. Qed.

Lemma await_ready_io name pid : pure_io (await_ready name pid).
Proof. unfold await_ready. io_only. Qed.

Lemma rpc_io c frame : pure_io (rpc c frame).
Proof. unfold rpc. io_only. Qed.

Lemma inherit_env_io keys m : total_io (inherit_env keys m).
Proof.
  revert m. induction keys as [|k keys IH]; intros m i Q QE HQ; cbn [inherit_env].
  { by wp_run. }
  do 2 wp_step. by apply IH.
Qed.
End pure.

#[export] Hint Resolve try_create_empty_io set_memory_max_io set_cpu_max_io try_mount_io
  unmount_io add_pid_io try_remove_io kill_all_io remove_stale_io session_env_io
  shutdown_child_io await_ready_io rpc_io inherit_env_io : wp_io.

Section pure_composite.
Context `{Env}.

Lemma bind_socket_io w p : pure_io (bind_socket w p).
Proof. unfold bind_socket. io_only. Qed.

Lemma apply_caps_io name pid m c : total_io (apply_caps name pid m c).
Proof. unfold apply_caps. io_only. Qed.

Lemma mount_quota_io dir q : total_io (mount_quota dir q).
Proof. unfold mount_quota. io_only. Qed.

Lemma client_env_io d w env : total_io (client_env d w env).
Proof. unfold client_env. io_only. Qed.

Lemma cgroup_retry_io n cg : total_io (cgroup_retry n cg).
Proof.
  induction n as [|n IH]; intros i Q QE HQ; cbn [cgroup_retry]; wp_io; auto.
Qed.
End pure_composite.

#[export] Hint Resolve bind_socket_io apply_caps_io mount_quota_io client_env_io
  cgroup_retry_io : wp_io.

(** ** Valid names *)

Lemma all_chars_impl (p q : ascii -> bool) s :
  (forall c, p c = true -> q c = true) -> all_chars p s = true -> all_chars q s = true.
Proof.
  intros Hpq. induction s as [|a s IH]; cbn; [done|].
  rewrite !andb_true_iff. intros [? ?]. auto.
Qed.

Lemma split_on_none c s :
  all_chars (fun a => negb (Ascii.eqb a c)) s = true -> split_on c s = [s].
Proof.
  induction s as [|a s IH]; [done|]. cbn [all_chars split_on].
  rewrite andb_true_iff, negb_true_iff. intros [-> Hs]. by rewrite (IH Hs).
Qed.

Lemma name_char_not_slash c : name_char c = true -> negb (Ascii.eqb c "/"%char) = true.
Proof.
  intros Hc. rewrite negb_true_iff. destruct (Ascii.eqb_spec c "/"%char) as [->|]; [|done].
  vm_compute in Hc. done.
Qed.

(** A valid name is one component of a path and no special one. *)
Lemma valid_name_plain name : validate_session_name name = Ok () -> plain_component name.
Proof.
  unfold validate_session_name. repeat case_match; try done. intros _. boolz.
  split.
  { apply split_on_none. eapply all_chars_impl; [apply name_char_not_slash | done]. }
  split; intros ->; done.
Qed.

Lemma join_file dir name f :
  plain_component name -> plain_component f ->
  path_join (path_join dir name) f = dir ++ [name; f].
Proof.
  intros Hn Hf. rewrite !plain_component_join by done. by rewrite <- app_assoc.
Qed.

(** ** The invariant *)

Record entry_wf (dir : path) (name : string) (e : SessionEntry) : Prop := {
  ew_name : sm_name (se_meta e) = name;
  ew_valid : validate_session_name name = Ok ();
  ew_size : validate_output_size (sm_width (se_meta e)) (sm_height (se_meta e)) = Ok ();
  ew_inner : sm_inner_socket (se_meta e) = dir ++ [name; "wayland.sock"%string];
  ew_control : sm_control_socket (se_meta e) = dir ++ [name; "control.sock"%string];
  ew_attach : sm_attach_socket (se_meta e) = dir ++ [name; "attach.sock"%string];
  ew_compositor : forall p, se_compositor_pid e = Some p -> p ∈ se_child_pids e;
  ew_pids : Forall (fun p => 0 < p) (se_child_pids e);
}.

(** Two entries share a cell. *)
Definition shares_cell (e1 e2 : SessionEntry) : Prop :=
  se_kill e1 = se_kill e2 \/ se_log_history e1 = se_log_history e2 \/
  se_control_conn e1 = se_control_conn e2.

Definition has_supervisor (i : Inner) (e : SessionEntry) (k : nat) : Prop :=
  TSupervisor (sm_name (se_meta e)) (sm_pid (se_meta e)) k (sm_inner_socket (se_meta e))
    ∈ i_tasks i.

(** The kill channel of a registered session is open and owned by a supervisor
    of that very process; cells are allocated. *)
Definition entry_cells (i : Inner) (e : SessionEntry) : Prop :=
  exists k, se_kill e = Some k /\ i_kills i !! k = Some false /\ (k < i_next i)%nat /\
    (se_log_history e < i_next i)%nat /\ (se_control_conn e < i_next i)%nat /\
    has_supervisor i e k.

Record registry_inv (i : Inner) : Prop := {
  ri_wf : map_Forall (entry_wf (i_state_dir i)) (i_sessions i);
  ri_cells : map_Forall (fun _ => entry_cells i) (i_sessions i);
  ri_unshared : forall n1 n2 e1 e2,
    i_sessions i !! n1 = Some e1 -> i_sessions i !! n2 = Some e2 -> shares_cell e1 e2 -> n1 = n2;
  ri_tags : forall name w, is_Some (i_tags i !! (name, w)) -> is_Some (i_sessions i !! name);
  ri_logs : map_Forall (fun _ l => (length l <= LOG_HISTORY_CAPACITY)%nat) (i_logs i);
}.

(** *** Updates that keep it *)

Lemma inv_new dir bin : registry_inv (new_inner dir bin).
Proof.
  split; cbn; try apply map_Forall_empty.
  - intros ? ? ? ? E. by rewrite lookup_empty in E.
  - intros ? ? [? E]. by rewrite lookup_empty in E.
Qed.

Lemma inv_push_event ev i : registry_inv i -> registry_inv (push_event ev i).
Proof. intros []. by split. Qed.

Lemma inv_push_task t i : registry_inv i -> registry_inv (push_task t i).
Proof.
  intros [Hw Hc Hu Ht Hl]. split; try done.
  intros n e E. destruct (Hc n e E) as (k & ? & ? & ? & ? & ? & Hs).
  exists k. repeat split; try done. unfold has_supervisor in *. cbn. set_solver.
Qed.

Lemma inv_set_handles h i : registry_inv i -> registry_inv (set_handles h i).
Proof. intros []. by split. Qed.

Lemma inv_set_conn a c i : registry_inv i -> registry_inv (set_conn a c i).
Proof. intros []. by split. Qed.

Lemma inv_set_log a l i :
  (length l <= LOG_HISTORY_CAPACITY)%nat -> registry_inv i -> registry_inv (set_log a l i).
Proof. intros Hl []. split; try done. cbn. by apply map_Forall_insert_2. Qed.

(** Replacing an entry by one with the same cells and the same process. *)
Lemma inv_update name e e' i :
  registry_inv i -> i_sessions i !! name = Some e ->
  entry_wf (i_state_dir i) name e' ->
  se_kill e' = se_kill e -> se_log_history e' = se_log_history e ->
  se_control_conn e' = se_control_conn e -> sm_pid (se_meta e') = sm_pid (se_meta e) ->
  registry_inv (upd_sessions <[name := e']> i).
Proof.
  intros [Hw Hc Hu Ht Hl] E Hwf Ek El Ec Ep. split; try done.
  - by apply map_Forall_insert_2.
  - apply map_Forall_insert_2; [|done].
    destruct (Hc name e E) as (k & ? & ? & ? & ? & ? & Hs). exists k.
    rewrite Ek, El, Ec. repeat split; try done. unfold has_supervisor in *.
    rewrite Ep, (ew_name _ _ _ Hwf), (ew_inner _ _ _ Hwf).
    by rewrite (ew_name _ _ _ (Hw name e E)), (ew_inner _ _ _ (Hw name e E)) in Hs.
  - intros n1 n2 e1 e2. cbn. rewrite !lookup_insert.
    repeat case_decide; subst; intros; simplify_eq; try done;
      eapply Hu; eauto; unfold shares_cell in *; rewrite ?Ek, ?El, ?Ec in *; done.
  - intros n w Hs. cbn. rewrite lookup_insert. case_decide; [done|]. eauto.
Qed.

(** Removing a session together with its tags. *)
Lemma inv_remove name i :
  registry_inv i -> registry_inv (forget_tags name (upd_sessions (delete name) i)).
Proof.
  intros [Hw Hc Hu Ht Hl]. split; try done.
  - by apply map_Forall_delete.
  - intros n e E. cbn in E. apply (Hc n e). by apply lookup_delete_Some in E as [_ ?].
  - intros n1 n2 e1 e2. cbn. rewrite !lookup_delete_Some. naive_solver.
  - intros n w [t E]. cbn in *. apply map_lookup_filter_Some in E as [E N]. cbn in N.
    rewrite lookup_delete_ne by done. eauto.
Qed.

(** Sending on a kill channel no registered session owns. *)
Lemma inv_set_kill k i :
  registry_inv i ->
  (forall n e, i_sessions i !! n = Some e -> se_kill e <> Some k) ->
  registry_inv (set_kill k true i).
Proof.
  intros [Hw Hc Hu Ht Hl] Hk. split; try done.
  intros n e E. destruct (Hc n e E) as (k' & Ek & Ev & ? & ? & ? & Hs).
  exists k'. repeat split; try done. cbn. rewrite lookup_insert_ne; [done|].
  intros <-. by apply (Hk n e).
Qed.

(** What [create_prepare] hands to [create_commit]. *)
Record prepared_ok (dir : path) (name : string) (width height : Z) (p : prepared) : Prop := {
  po_name : sm_name (pr_meta p) = name;
  po_width : sm_width (pr_meta p) = width;
  po_height : sm_height (pr_meta p) = height;
  po_attached : sm_attached (pr_meta p) = false;
  po_inner : sm_inner_socket (pr_meta p) = dir ++ [name; "wayland.sock"%string];
  po_control : sm_control_socket (pr_meta p) = dir ++ [name; "control.sock"%string];
  po_attach : sm_attach_socket (pr_meta p) = dir ++ [name; "attach.sock"%string];
}.

Lemma inv_register name width height p i :
  registry_inv i -> prepared_ok (i_state_dir i) name width height p ->
  validate_session_name name = Ok () -> validate_output_size width height = Ok () ->
  i_sessions i !! name = None ->
  registry_inv (register p i).
Proof.
  intros [Hw Hc Hu Ht Hl] Hp Hn Hs E.
  assert (Hfresh : forall n e, i_sessions i !! n = Some e ->
    se_kill e <> Some (i_next i) /\ se_log_history e <> S (i_next i) /\
    se_control_conn e <> S (S (i_next i))).
  { intros n e En. destruct (Hc n e En) as (k & -> & _ & ? & ? & ? & _).
    repeat split; try lia. intros [= ->]. lia. }
  destruct Hp as [En Ew Eh _ Ei Ec Ea]. unfold register. rewrite En. split; cbn.
  - apply map_Forall_insert_2; [|done]. split; cbn; try done; try congruence.
  - apply map_Forall_insert_2.
    + exists (i_next i). unfold has_supervisor. cbn. rewrite lookup_insert, decide_True by done.
      rewrite En. repeat split; try lia. set_solver.
    + intros n e E'. destruct (Hc n e E') as (k & ? & ? & ? & ? & ? & Hsup).
      exists k. unfold has_supervisor in *. cbn.
      rewrite lookup_insert_ne by lia. repeat split; try done; try lia. set_solver.
  - intros n1 n2 e1 e2. rewrite !lookup_insert.
    repeat case_decide; subst; intros E1 E2 Hsh; simplify_eq; try done.
    + destruct (Hfresh n2 e2 E2) as (?&?&?). unfold shares_cell in Hsh. cbn in Hsh. naive_solver.
    + destruct (Hfresh n1 e1 E1) as (?&?&?). unfold shares_cell in Hsh. cbn in Hsh. naive_solver.
    + eauto.
  - intros n w Hsome. rewrite lookup_insert. case_decide; [done|]. eauto.
  - apply map_Forall_insert_2; [cbn; lia | done].
Qed.

Section preserve.
Context `{Env}.

(** An operation preserves the invariant on both paths. *)
Definition keeps {A} (m : R A) : Prop :=
  forall i, registry_inv i -> wp m (fun _ => registry_inv) (fun _ => registry_inv) i.

Lemma create_prepare_wp name width height scale env cb au mem cpu disk fd i :
  validate_session_name name = Ok () ->
  wp (create_prepare name width height scale env cb au mem cpu disk fd)
     (fun p i' => i' = push_task (TForwarder name) i /\
                  prepared_ok (i_state_dir i) name width height p)
     (fun _ i' => i' = i) i.
Proof.
  intros Hn. pose proof (valid_name_plain name Hn) as Hp. unfold create_prepare.
  wp_io; try done.
  split; [done|]. split; cbn [pr_meta sm_name sm_width sm_height sm_attached sm_inner_socket
    sm_control_socket sm_attach_socket]; try done; apply join_file; try done; by split.
Qed.

Lemma create_check_wp name width height i :
  wp (create_check name width height)
     (fun _ i' => i' = i /\ validate_session_name name = Ok () /\
                  validate_output_size width height = Ok () /\ i_sessions i !! name = None)
     (fun _ i' => i' = i) i.
Proof.
  unfold create_check. do 2 wp_step. destruct (validate_session_name name) as [[]|]; [|done].
  do 2 wp_step. destruct (validate_output_size width height) as [[]|]; [|done].
  do 3 wp_step; wp_run; [done|]. repeat split. by apply eq_None_not_Some.
Qed.

Lemma create_keeps name width height scale env cb au mem cpu disk fd key :
  keeps (create name width height scale env cb au mem cpu disk fd key).
Proof.
  intros i Hi. unfold create. apply wp_bind.
  eapply wp_conseq; [apply create_check_wp | | by intros ? ? ->].
  intros ? ? (-> & Hn & Hs & E). apply wp_bind.
  eapply wp_conseq; [by apply create_prepare_wp | | by intros ? ? ->].
  intros p ? [-> Hp]. apply wp_bind. unfold create_commit.
  do 3 wp_step.
  - wp_run. by apply inv_push_task.
  - do 4 wp_step. apply inv_push_event.
    eapply inv_register; try done. by apply inv_push_task.
Qed.

Lemma destroy_keeps name : keeps (destroy name).
Proof.
  intros i Hi. unfold destroy. do 3 wp_step; [|by wp_run].
  pose proof Hi as [Hw Hc Hu Ht Hl]. do 3 wp_step.
  apply for_each_io. { intros a x Q QE HQ. by apply wp_sys. }
  intros []. do 2 wp_step.
  assert (Hk : forall k, se_kill s = Some k -> registry_inv
    (set_kill k true (forget_tags name (upd_sessions (delete name) i)))).
  { intros k Ek. apply inv_set_kill; [by apply inv_remove|]. intros n e' E' Ek'. cbn in E'.
    apply lookup_delete_Some in E' as [N E']. apply N.
    eapply Hu; eauto. left. congruence. }
  wp_io; auto using inv_push_task, inv_remove.
Qed.

Lemma keeps_for_each {A} (l : list A) (f : A -> R unit) :
  (forall a, keeps (f a)) -> keeps (for_each l f).
Proof. intros Hf i Hi. apply wp_for_each; [|done]. intros a x' _. apply Hf. Qed.

Lemma keeps_io {A} (m : R A) : pure_io m -> keeps m.
Proof. intros Hm i Hi. by apply Hm. Qed.

Lemma shutdown_all_keeps : keeps shutdown_all.
Proof.
  intros i Hi. unfold shutdown_all. do 3 wp_step.
  eapply wp_conseq; [| |intros ? ? X; exact X].
  - apply (keeps_for_each _ (fun name => ignore_err (destroy name))); [|done].
    intros name x Hx. apply wp_ignore. eapply wp_conseq; [by apply destroy_keeps|done..].
  - intros ? i' Hi'. wp_run. apply wp_for_each; [|by apply inv_set_handles].
    intros h x _ Hx. by wp_run.
Qed.

Lemma supervisor_finish_keeps name sock code : keeps (supervisor_finish name sock code).
Proof.
  intros i Hi. unfold supervisor_finish. wp_io;
    by apply inv_push_event, inv_remove.
Qed.

Lemma session_supervisor_keeps name pid woken sock :
  keeps (session_supervisor name pid woken sock).
Proof.
  intros i Hi. unfold session_supervisor.
  do 2 wp_step; wp_io; by apply supervisor_finish_keeps.
Qed.

Lemma record_child_wf dir name pid comp e :
  entry_wf dir name e -> 0 < pid -> entry_wf dir name (record_child pid comp e).
Proof.
  intros [] Hp. split; try done; cbn.
  - intros p Ep. destruct comp; set_solver.
  - apply Forall_app. split; [done|]. by constructor.
Qed.

Lemma spawn_child_keeps name argv env comp : keeps (spawn_child name argv env comp).
Proof.
  intros i Hi. unfold spawn_child. do 2 wp_step. destruct (validate_argv argv) as [[a0 r]|]; [|done].
  wp_io; try done; try (repeat apply inv_push_task); try done;
    eapply inv_update; try done; apply record_child_wf; try (boolz; lia);
    by eapply (ri_wf i Hi).
Qed.

Lemma prune_child_inv name pid e e' was i :
  registry_inv i -> i_sessions i !! name = Some e -> prune_child pid e = (e', was) ->
  registry_inv (upd_sessions <[name := e']> i).
Proof.
  intros Hi E [= <- _]. eapply inv_update; try done.
  destruct (ri_wf i Hi name e E). split; try done; cbn.
  - intros p. case_bool_decide; [done|]. intros Ep. apply list_elem_of_filter. split; [|auto].
    congruence.
  - rewrite Forall_forall in *. intros x [_ ?]%list_elem_of_filter. auto.
Qed.

Lemma child_wait_keeps name pid : keeps (child_wait name pid).
Proof.
  intros i Hi. unfold child_wait.
  wp_io; repeat apply inv_push_event; try done; by eapply prune_child_inv.
Qed.

Lemma ring_push_length {A} cap (q : list A) x :
  (0 < cap)%nat -> (length q <= cap)%nat -> (length (ring_push cap q x) <= cap)%nat.
Proof.
  intros Hc Hq. unfold ring_push. rewrite length_app. cbn.
  case_match; boolz; [destruct q; cbn in *|]; lia.
Qed.

Lemma log_line_keeps a sess st line : keeps (log_line a sess st line).
Proof.
  intros i Hi. unfold log_line. wp_io. apply inv_push_event, inv_set_log; [|done].
  apply ring_push_length; [unfold LOG_HISTORY_CAPACITY; lia|].
  destruct (i_logs i !! a) eqn:E; cbn; [|lia]. by eapply (ri_logs i Hi).
Qed.

Lemma set_attached_wf dir name b e : entry_wf dir name e -> entry_wf dir name (set_attached b e).
Proof. intros []. by split. Qed.

Lemma attach_keeps name : keeps (attach name).
Proof.
  intros i Hi. unfold attach. wp_io; [|done].
  eapply inv_update; try done. by eapply set_attached_wf, (ri_wf i Hi).
Qed.

Lemma detach_keeps name : keeps (detach name).
Proof.
  intros i Hi. unfold detach. wp_io; [|done].
  eapply inv_update; try done. by eapply set_attached_wf, (ri_wf i Hi).
Qed.
End preserve.

Section preserve_control.
Context `{Env} `{MsgPack} `{!Serde SessionCtlRequest} `{!Serde SessionCtlResponse}.

(** A control request touches nothing but the connection slot of its session,
    which it requires to exist. *)
Definition only_conn (i i' : Inner) : Prop :=
  i_sessions i' = i_sessions i /\ i_tags i' = i_tags i /\ (registry_inv i -> registry_inv i').

Lemma only_conn_refl i : only_conn i i.
Proof. done. Qed.

Lemma only_conn_set a c i i' : only_conn i i' -> only_conn i (set_conn a c i').
Proof.
  intros (? & ? & Hinv). split_and!; [done..|]. intros Hi. apply inv_set_conn. auto.
Qed.

Lemma decode_ctl_io p : pure_io (decode_ctl p).
Proof. unfold decode_ctl. io_only. Qed.

Lemma check_ok_io mk r : pure_io (check_ok mk r).
Proof. unfold check_ok. io_only. Qed.
End preserve_control.

#[export] Hint Resolve decode_ctl_io check_ok_io : wp_io.

Section preserve_control2.
Context `{Env} `{MsgPack} `{!Serde SessionCtlRequest} `{!Serde SessionCtlResponse}.

Lemma session_control_wp name method i :
  wp (session_control name method)
     (fun _ i' => only_conn i i' /\ is_Some (i_sessions i !! name))
     (fun _ i' => only_conn i i') i.
Proof.
  unfold session_control, fresh_rpc. wp_io; try (split; [|by eexists]);
    repeat apply only_conn_set; apply only_conn_refl.
Qed.

Lemma ctl_unit_wp name method i :
  wp (ctl_unit name method)
     (fun _ i' => only_conn i i' /\ is_Some (i_sessions i !! name))
     (fun _ i' => only_conn i i') i.
Proof.
  unfold ctl_unit. apply wp_bind. eapply wp_conseq; [apply session_control_wp | | done].
  intros r i' [? ?]. by wp_io.
Qed.

Lemma ctl_typed_wp {T} `{!Serde T} mk what name method i :
  wp (ctl_typed (T := T) mk what name method)
     (fun _ i' => only_conn i i' /\ is_Some (i_sessions i !! name))
     (fun _ i' => only_conn i i') i.
Proof.
  unfold ctl_typed. apply wp_bind. eapply wp_conseq; [apply session_control_wp | | done].
  intros r i' [? ?]. by wp_io.
Qed.

Lemma only_conn_keeps {A} (m : R A) :
  (forall i, wp m (fun _ i' => only_conn i i') (fun _ i' => only_conn i i') i) -> keeps m.
Proof.
  intros Hm i Hi. eapply wp_conseq; [apply Hm | | ]; intros ? ? (_ & _ & ?); auto.
Qed.

Lemma ctl_unit_keeps name method : keeps (ctl_unit name method).
Proof.
  apply only_conn_keeps. intros i. eapply wp_conseq; [apply ctl_unit_wp | by intros ? ? [] | done].
Qed.

Lemma ctl_typed_keeps {T} `{!Serde T} mk what name method :
  keeps (ctl_typed (T := T) mk what name method).
Proof.
  apply only_conn_keeps. intros i. eapply wp_conseq; [apply ctl_typed_wp | by intros ? ? [] | done].
Qed.

Lemma set_dims_wf dir name w h e :
  validate_output_size w h = Ok () -> entry_wf dir name e -> entry_wf dir name (set_dims w h e).
Proof. intros Hs []. by split. Qed.

Lemma resize_keeps name w h : keeps (resize name w h).
Proof.
  intros i Hi. unfold resize. destruct (validate_output_size w h) as [[]|] eqn:Ev; [|by wp_io].
  apply wp_bind. eapply wp_conseq; [apply session_control_wp | | by intros ? ? (_ & _ & ?); auto].
  intros r i' [(Es & _ & Hi') _]. specialize (Hi' Hi). wp_io; try done.
  eapply inv_update; try done. eapply set_dims_wf; [done|]. by eapply (ri_wf i' Hi').
Qed.

Context `{!Serde SessionCtlWindows} `{!Serde SessionCtlInfo}.

Lemma list_windows_wp name i :
  wp (list_windows name)
     (fun _ i' => only_conn i i' /\ is_Some (i_sessions i !! name))
     (fun _ i' => only_conn i i') i.
Proof.
  unfold list_windows. apply wp_bind. eapply wp_conseq; [apply ctl_typed_wp | | done].
  intros r i' [? ?]. by wp_io.
Qed.

Lemma tag_window_keeps name w tags : keeps (tag_window name w tags).
Proof.
  intros i Hi. unfold tag_window, store_tags. apply wp_bind.
  eapply wp_conseq; [apply list_windows_wp | | by intros ? ? (_ & _ & ?); auto].
  intros ws i' [(Es & _ & Hi') Hn]. specialize (Hi' Hi). wp_io; [done|].
  destruct Hi' as [Hw Hc Hu Ht Hl]. split; try done.
  intros n x. cbn. rewrite lookup_insert. case_decide; simplify_eq; [|apply Ht].
  intros _. by rewrite Es.
Qed.

Lemma idle_loop_wp fuel name quiet deadline : forall i,
  wp (idle_loop fuel name quiet deadline) (fun _ i' => only_conn i i')
     (fun _ i' => only_conn i i') i.
Proof.
  induction fuel as [|fuel IH]; intros i; cbn [idle_loop]; [by wp_io|].
  apply wp_bind. eapply wp_conseq; [apply ctl_typed_wp | | done].
  intros info i' [Hc _]. wp_io; try done.
  eapply wp_conseq; [apply IH | |]; intros ? ? (Es & Et & Hi); destruct Hc as (? & ? & ?);
    (split_and!; [congruence | congruence | auto]).
Qed.

Lemma wait_for_idle_keeps fuel name q t : keeps (wait_for_idle fuel name q t).
Proof.
  intros i Hi. unfold wait_for_idle. do 2 wp_step.
  eapply wp_conseq; [apply idle_loop_wp | |]; intros ? ? (_ & _ & ?); auto.
Qed.
End preserve_control2.

Section preserve_forward.
Context `{Env} `{!Serde Event}.

Lemma forward_frames_keeps fuel : forall s, keeps (forward_frames fuel s).
Proof.
  induction fuel as [|fuel IH]; intros s i Hi; cbn [forward_frames]; [by wp_io|].
  wp_io; try done. by apply IH, inv_push_event.
Qed.

Lemma accept_keeps name accepts : keeps (accept_and_forward_events name accepts).
Proof.
  induction accepts as [|a l IH]; intros i Hi; cbn [accept_and_forward_events]; [by wp_io|].
  apply wp_bind. destruct a as [s|].
  - eapply wp_conseq; [by apply forward_frames_keeps | | done].
    intros ? i' Hi'. wp_io; try done. by apply IH.
  - wp_io; try done. by apply IH.
Qed.
End preserve_forward.

(** ** Every operation, in any order *)

Inductive op :=
| OpCreate (p : CreateSessionParams)
| OpDestroy (name : string)
| OpShutdownAll
| OpSupervisor (name : string) (pid : Z) (woken : bool) (inner_socket : path)
| OpCgroupCleanup (cg : SessionCgroup)
| OpSpawn (name : string) (argv : list string) (env : gmap string string) (compositor : bool)
| OpChildWait (name : string) (pid : Z)
| OpLogLine (log_history : nat) (session stream_name line : string)
| OpForward (name : string) (accepts : list (option stream))
| OpAttach (name : string)
| OpDetach (name : string)
| OpControl (name : string) (method : Ctl.SessionCtlMethod)
| OpListWindows (name : string)
| OpResize (name : string) (width height : Z)
| OpTagWindow (name : string) (window_id : Z) (tags : list string)
| OpWaitForIdle (fuel : nat) (name : string) (quiet_ms timeout_ms : Z).

Section ops.
Context `{Env} `{MsgPack} `{!Serde SessionCtlRequest} `{!Serde SessionCtlResponse}
  `{!Serde SessionCtlWindows} `{!Serde SessionCtlInfo} `{!Serde Event}.

Definition run_op (o : op) : R unit :=
  match o with
  | OpCreate p =>
      create (csp_name p) (csp_width p) (csp_height p) (csp_scale p) (csp_env p)
        (csp_share_clipboard p) (csp_share_audio p) (csp_mem_cap_mb p) (csp_cpu_cap_pct p)
        (csp_disk_quota_mb p) (csp_fd_limit p) (csp_api_key_id p) ;; mret ()
  | OpDestroy name => destroy name
  | OpShutdownAll => shutdown_all
  | OpSupervisor name pid woken sock => session_supervisor name pid woken sock
  | OpCgroupCleanup cg => cgroup_cleanup cg ;; mret ()
  | OpSpawn name argv env comp => spawn_child name argv env comp ;; mret ()
  | OpChildWait name pid => child_wait name pid
  | OpLogLine a sess st line => log_line a sess st line
  | OpForward name accepts => accept_and_forward_events name accepts ;; mret ()
  | OpAttach name => attach name ;; mret ()
  | OpDetach name => detach name
  | OpControl name m => session_control name m ;; mret ()
  | OpListWindows name => list_windows name ;; mret ()
  | OpResize name w h => resize name w h
  | OpTagWindow name w tags => tag_window name w tags
  | OpWaitForIdle fuel name q t => wait_for_idle fuel name q t ;; mret ()
  end.

(** A sequence of operations; errors are the callers' business. *)
Definition run_ops (ops : list op) (s : Inner * trace) : Inner * trace :=
  foldl (fun s o => (run_op o s).1) s ops.

Lemma keeps_unit {A} (m : R A) : keeps m -> keeps (m ;; mret ()).
Proof.
  intros Hm i Hi. apply wp_bind. eapply wp_conseq; [by apply Hm | | done].
  intros ? ? ?. by wp_io.
Qed.

Lemma run_op_keeps o : keeps (run_op o).
Proof.
  destruct o; cbn [run_op]; try apply keeps_unit.
  - apply create_keeps.
  - apply destroy_keeps.
  - apply shutdown_all_keeps.
  - apply session_supervisor_keeps.
  - intros i Hi. unfold cgroup_cleanup. by wp_io.
  - apply spawn_child_keeps.
  - apply child_wait_keeps.
  - apply log_line_keeps.
  - apply accept_keeps.
  - apply attach_keeps.
  - apply detach_keeps.
  - apply only_conn_keeps. intros i.
    eapply wp_conseq; [apply session_control_wp | by intros ? ? [] | done].
  - apply only_conn_keeps. intros i.
    eapply wp_conseq; [apply list_windows_wp | by intros ? ? [] | done].
  - apply resize_keeps.
  - apply tag_window_keeps.
  - apply wait_for_idle_keeps.
Qed.

(** The invariant needs [tag_window] to be one step: when the session goes while it is asked
    for its windows, its tags are stored all the same. *)
Theorem late_tag_orphaned name w tags i t :
  i_sessions i !! name = None ->
  exists i', store_tags name w tags (i, t) = ((i', t), Ok ()) /\ i_tags i' !! (name, w) = Some tags /\
    i_sessions i' !! name = None /\ ~ registry_inv i'.
Proof.
  intros Hn. eexists. split; [reflexivity|]. cbn. rewrite lookup_insert_eq. split_and!; [done|done|].
  intros [_ _ _ Ht _]. specialize (Ht name w). cbn in Ht. rewrite lookup_insert_eq, Hn in Ht. by destruct (Ht ltac:(eauto)).
Qed.

(** C1: from an empty registry, after any sequence of operations (requests
    and background tasks, each succeeding or failing, each a whole step) in any environment,
    every registered session has its own name as key, a valid name and a valid
    size, sockets directly under [state_dir/<name>], clients with positive
    pids and a compositor among them; its kill channel is open, owned by no
    other session and held by a supervisor of its own process; tags belong to
    registered sessions only; and no log history exceeds its capacity. *)
Theorem registry_invariant ops dir bin t :
  registry_inv (run_ops ops (new_inner dir bin, t)).1.
Proof.
  assert (G : forall s, registry_inv s.1 -> registry_inv (run_ops ops s).1).
  { induction ops as [|o ops IH]; intros [i t'] Hi; [done|]. cbn. apply IH.
    pose proof (run_op_keeps o i Hi t') as K.
    destruct (run_op o (i, t')) as [[i' t''] [a|e]]; done. }
  apply G, inv_new.
Qed.
End ops.
