(* ===== verification/RegistryProps.v ===== *)
(** * What the registry's operations do

    The functional behaviour of creation, destruction, shutdown, spawning, the
    control connection, idle waiting, tags, logs and event forwarding, on every
    branch and in every environment. *)

From stdpp Require Import prelude list strings gmap pretty.
From Stdlib Require Import ZArith Lia Ascii.
From S2P Require Import Prelude Words Codec Messages Sys Quota Registry RegistryOps RegistryInv.

Open Scope Z_scope.

(** Using a weakest precondition on a run. *)
Lemma wp_ok {X E A} (m : Eff (X * trace) E A) Q QE x t x' t' a :
  wp m Q QE x -> m (x, t) = ((x', t'), Ok a) -> Q a x'.
Proof. intros Hm Em. specialize (Hm t). by rewrite Em in Hm. Qed.

(** ** Creation *)

Section creation.
Context `{Env}.

(** What a successful creation has done to the registry. *)
Definition created (name : string) (width height : Z) (i : Inner) (r : CreateSessionResult)
    (i' : Inner) : Prop :=
  i_sessions i !! name = None /\
  validate_session_name name = Ok () /\ validate_output_size width height = Ok () /\
  (exists e, i_sessions i' = <[name := e]> (i_sessions i) /\
     sm_name (se_meta e) = name /\ sm_width (se_meta e) = width /\
     sm_height (se_meta e) = height /\ sm_attached (se_meta e) = false /\
     se_child_pids e = [] /\ se_compositor_pid e = None /\ se_kill e = Some (i_next i)) /\
  i_kills i' !! i_next i = Some false /\
  i_tags i' = i_tags i /\
  i_events i' = i_events i ++ [event_new (Ev.SessionCreated name)] /\
  i_handles i' = i_handles i ++ [i_next i] /\
  r = {| csr_name := name;
         csr_inner_socket_path := path_display (i_state_dir i ++ [name; "wayland.sock"%string]) |}.

Definition not_created (i i' : Inner) : Prop :=
  i_sessions i' = i_sessions i /\ i_tags i' = i_tags i /\
  i_events i' = i_events i /\ i_handles i' = i_handles i.

(** C9: in every environment, creating a session either registers exactly one
    new entry under its name (of the requested size, detached, without
    clients, with a fresh open kill channel and a supervisor handle),
    announces it, leaves every other session, tag and event alone and returns
    the socket path under [state_dir/<name>]; or it fails and leaves the
    session map, the tags, the events and the handles as they were. *)
Theorem create_outcome name width height scale env cb au mem cpu disk fd key i t :
  match create name width height scale env cb au mem cpu disk fd key (i, t) with
  | ((i', _), Ok r) => created name width height i r i'
  | ((i', _), Err _) => not_created i i'
  end.
Proof.
  revert t. change (wp (create name width height scale env cb au mem cpu disk fd key)
    (created name width height i) (fun _ => not_created i) i).
  unfold create. apply wp_bind.
  eapply wp_conseq; [apply create_check_wp | | by intros ? ? ->].
  intros ? ? (-> & Hn & Hs & E). apply wp_bind.
  eapply wp_conseq; [by apply create_prepare_wp | | by intros ? ? ->].
  intros p ? [-> [En Ew Eh Ea Ei _ _]]. apply wp_bind. unfold create_commit.
  do 3 wp_step; [by wp_run|]. wp_run. unfold created. cbn. rewrite En, Ei. split_and!; try done.
  - eexists. split; [done|]. by cbn; rewrite ?Ew, ?Eh.
  - by rewrite lookup_insert, decide_True.
Qed.

Lemma invalid_name_error name :
  validate_session_name name <> Ok () ->
  validate_session_name name = Err (ErrCreate CeInvalidName).
Proof. unfold validate_session_name. by repeat case_match. Qed.

Lemma invalid_size_error width height :
  validate_output_size width height <> Ok () ->
  validate_output_size width height = Err (ErrCreate CeInvalidSize).
Proof. unfold validate_output_size. by case_match. Qed.

(** A request with an invalid name, an invalid size or the name of a
    registered session is refused with the matching typed error, checked in
    that order, before anything is touched: no directory, no process, not a
    single call to the system. *)
Theorem create_refused name width height scale env cb au mem cpu disk fd key i t :
  let run := create name width height scale env cb au mem cpu disk fd key (i, t) in
  (validate_session_name name <> Ok () -> run = ((i, t), Err (ErrCreate CeInvalidName))) /\
  (validate_session_name name = Ok () -> validate_output_size width height <> Ok () ->
   run = ((i, t), Err (ErrCreate CeInvalidSize))) /\
  (validate_session_name name = Ok () -> validate_output_size width height = Ok () ->
   is_Some (i_sessions i !! name) -> run = ((i, t), Err (ErrCreate CeAlreadyExists))).
Proof.
  cbv zeta. unfold create, create_check, mbind, eff_mbind, lift, get.
  split_and!.
  - intros ->%invalid_name_error. done.
  - intros -> ->%invalid_size_error. done.
  - intros -> -> Hs. cbn [fst]. by rewrite decide_True.
Qed.
End creation.

Lemma create_refused_witness :
  let run := @create good_env "../evil" 640 480 1 ∅ false false None None None None None
               (new_inner ["run"%string] ["bin"%string], []) in
  validate_session_name "../evil" <> Ok () /\
  run = ((new_inner ["run"%string] ["bin"%string], []), Err (ErrCreate CeInvalidName)).
Proof.
  cbv zeta. split; [vm_compute; discriminate|].
  apply (@create_refused good_env "../evil" 640 480 1 ∅ false false None None None None None).
  vm_compute. discriminate.
Defined.

(** ** Destruction *)

Section destruction.
Context `{Env}.

Definition kill_calls (pids : list Z) : trace :=
  (fun pid => Call (KillTerm (as_s 32 pid)) tt) <$> pids.

Lemma for_each_kill {X E} pids (x : X) t :
  for_each (E := E) pids (fun pid => sys (KillTerm (as_s 32 pid))) (x, t) =
  ((x, t ++ kill_calls pids), Ok ()).
Proof.
  revert t. induction pids as [|p pids IH]; intros t; cbn [for_each].
  { cbn. by rewrite app_nil_r. }
  unfold mbind, eff_mbind. rewrite sys_eq. cbv beta iota.
  destruct (answer unit t (KillTerm (as_s 32 p))). rewrite IH, <- app_assoc. done.
Qed.

(** The calls that undo a tmpfs quota. *)
Definition umount_calls (tm : option SessionTmpfs) (t : trace) : trace :=
  match tm with
  | Some tm =>
      if no_nul (path_display (tmpfs_path tm))
      then [Call (Umount2 (tmpfs_path tm)) (answer bool t (Umount2 (tmpfs_path tm)))] else []
  | None => []
  end.

Lemma opt_unmount {X E} tm (x : X) t :
  opt_do (E := E) tm unmount (x, t) = ((x, t ++ umount_calls tm t), Ok ()).
Proof.
  destruct tm as [tm|]; cbn [opt_do umount_calls]; [|by rewrite app_nil_r].
  unfold unmount. destruct (no_nul _); cbn [negb]; [|by rewrite app_nil_r].
  unfold mbind, eff_mbind. by rewrite sys_eq.
Qed.

Definition opt_push {A} (f : A -> Inner -> Inner) (o : option A) (i : Inner) : Inner :=
  match o with Some a => f a i | None => i end.

Lemma opt_modify {A E} (o : option A) (f : A -> Inner -> Inner) i t :
  opt_do (E := E) o (fun a => modify (f a)) (i, t) = ((opt_push f o i, t), Ok ()).
Proof. by destruct o. Qed.

Lemma destroy_eq name i t :
  destroy name (i, t) =
  match i_sessions i !! name with
  | None => ((i, t), Err (ErrDestroy DeNotFound))
  | Some e =>
      let i1 := forget_tags name (upd_sessions (delete name) i) in
      let i2 := opt_push (fun k => set_kill k true) (se_kill e) i1 in
      let i3 := opt_push (fun cg => push_task (TCgroupCleanup cg)) (se_cgroup e) i2 in
      let t1 := t ++ kill_calls (se_child_pids e) in
      ((i3, t1 ++ umount_calls (se_tmpfs e) t1), Ok ())
  end.
Proof.
  unfold destroy. unfold mbind at 1, eff_mbind at 1, get. cbn [fst].
  destruct (i_sessions i !! name) as [e|]; [|done].
  erewrite eff_bind_ok by reflexivity.
  erewrite eff_bind_ok by apply for_each_kill.
  erewrite eff_bind_ok by reflexivity.
  erewrite eff_bind_ok by apply opt_modify.
  erewrite eff_bind_ok by apply opt_unmount.
  apply opt_modify.
Qed.

(** C10: destroying a session that is not registered is [NotFound] and does
    nothing; destroying one takes its name out of the registry and no other, forgets
    every tag of its windows and none of another session's, fires its kill channel,
    schedules the cleanup of its cgroup if it had one, leaves everything else of the
    registry as it was, and calls the kernel for nothing but a SIGTERM to each of its
    clients, once and in the order they were spawned, and the unmounting of its tmpfs if
    it had one. *)
Theorem destroy_effect name i t :
  let '((i', t'), r) := destroy name (i, t) in
  match i_sessions i !! name with
  | None => i' = i /\ t' = t /\ r = Err (ErrDestroy DeNotFound)
  | Some e =>
      r = Ok () /\
      (forall n, i_sessions i' !! n = if decide (n = name) then None else i_sessions i !! n) /\
      (forall n w, i_tags i' !! (n, w) = if decide (n = name) then None else i_tags i !! (n, w)) /\
      (forall k, i_kills i' !! k = if decide (se_kill e = Some k) then Some true else i_kills i !! k) /\
      i_tasks i' = i_tasks i ++ (match se_cgroup e with Some cg => [TCgroupCleanup cg] | None => [] end) /\
      (i_events i', i_handles i', i_logs i', i_conns i', i_next i', i_state_dir i', i_session_bin i') =
        (i_events i, i_handles i, i_logs i, i_conns i, i_next i, i_state_dir i, i_session_bin i) /\
      exists u, t' = t ++ ((fun pid => Call (KillTerm (as_s 32 pid)) tt) <$> se_child_pids e) ++ u /\
        match se_tmpfs e with
        | Some tm => if no_nul (path_display (tmpfs_path tm)) then exists ok, u = [Call (Umount2 (tmpfs_path tm)) ok] else u = []
        | None => u = []
        end
  end.
Proof.
  rewrite destroy_eq. destruct (i_sessions i !! name) as [e|] eqn:E; [|done]. cbv zeta.
  assert (Hs : forall n, delete name (i_sessions i) !! n = if decide (n = name) then None else i_sessions i !! n).
  { intros n. destruct (decide (n = name)) as [->|N]; [apply lookup_delete_eq|by apply lookup_delete_ne]. }
  assert (Ht : forall n w, filter (fun kv : string * Z * list string => kv.1.1 <> name) (i_tags i) !! (n, w) =
    if decide (n = name) then None else i_tags i !! (n, w)).
  { intros n w. destruct (decide (n = name)) as [->|N].
    - apply map_lookup_filter_None. right. intros x _ Hx. by apply Hx.
    - rewrite map_lookup_filter. destruct (i_tags i !! (n, w)); [|done]. cbn. by rewrite option_guard_True. }
  assert (Hk : forall k, i_kills (opt_push (fun k => set_kill k true) (se_kill e) (forget_tags name (upd_sessions (delete name) i))) !! k =
    if decide (se_kill e = Some k) then Some true else i_kills i !! k).
  { intros k. destruct (se_kill e) as [k'|]; cbn; [|by rewrite decide_False].
    destruct (decide (Some k' = Some k)) as [[= ->]|N]; [apply lookup_insert_eq|apply lookup_insert_ne; congruence]. }
  destruct (se_kill e) as [k'|], (se_cgroup e) as [cg|]; cbn in *; rewrite ?app_nil_r; split_and!; try done;
    (eexists; split; [by rewrite <- app_assoc|]); destruct (se_tmpfs e) as [tm|]; cbn [umount_calls]; try done;
    destruct (no_nul _); by eexists.
Qed.
End destruction.

(** ** Shutdown *)

Section shutdown.
Context `{Env}.

(** What [destroy] leaves of the state, as far as shutdown needs it. *)
Lemma destroy_wp name i :
  wp (ignore_err (destroy name))
     (fun _ i' => i_sessions i' = delete name (i_sessions i) /\ i_handles i' = i_handles i /\
        (forall k, i_kills i !! k = Some true -> i_kills i' !! k = Some true) /\
        (forall e k, i_sessions i !! name = Some e -> se_kill e = Some k ->
           i_kills i' !! k = Some true) /\
        (forall n w, is_Some (i_tags i' !! (n, w)) -> is_Some (i_tags i !! (n, w))))
     (fun _ _ => False) i.
Proof.
  intros t. unfold ignore_err. rewrite destroy_eq.
  destruct (i_sessions i !! name) as [e|] eqn:E.
  2: { cbn. by rewrite delete_id by done. }
  cbv zeta. cbn [fst].
  assert (T : forall n w, is_Some (filter (fun kv : (string * Z) * list string => kv.1.1 <> name)
    (i_tags i) !! (n, w)) -> is_Some (i_tags i !! (n, w))).
  { intros n w [x Ex]. apply map_lookup_filter_Some in Ex as [Ex _]. by eexists. }
  destruct (se_kill e) as [k|] eqn:Ek, (se_cgroup e) as [cg|]; cbn; split_and!; try done;
    try (intros k' Hk'; rewrite lookup_insert; by case_decide);
    intros e' k' [= <-] Hk'; simplify_eq; by rewrite lookup_insert, decide_True.
Qed.

(** The loop over the names. *)
Lemma destroy_loop names : forall i,
  wp (for_each names (fun name => ignore_err (destroy name)))
     (fun _ i' =>
        (forall n, i_sessions i' !! n = if decide (n ∈ names) then None else i_sessions i !! n) /\
        i_handles i' = i_handles i /\
        (forall k, i_kills i !! k = Some true -> i_kills i' !! k = Some true) /\
        (forall n e k, n ∈ names -> i_sessions i !! n = Some e -> se_kill e = Some k ->
           i_kills i' !! k = Some true))
     (fun _ _ => False) i.
Proof.
  induction names as [|name names IH]; intros i; cbn [for_each].
  { apply wp_ret. split_and!; try done. set_solver. }
  apply wp_bind. eapply wp_conseq; [apply destroy_wp | | done].
  intros ? i1 (Es1 & Eh1 & Hm1 & Hk1 & _).
  eapply wp_conseq; [apply IH | | done].
  intros ? i2 (Es2 & Eh2 & Hm2 & Hk2). split_and!.
  - intros n. rewrite Es2, Es1. destruct (decide (n = name)) as [->|N].
    + rewrite (decide_True (P := name ∈ name :: names)) by set_solver.
      case_decide; [done|]. by rewrite lookup_delete, decide_True.
    + rewrite lookup_delete_ne by done. repeat case_decide; set_solver.
  - congruence.
  - auto.
  - intros n e k Hn He Hk. destruct (decide (n = name)) as [->|N]; [eauto|].
    apply (Hk2 n e k); [set_solver | | done]. rewrite Es1. by rewrite lookup_delete_ne.
Qed.

(** Shutdown always completes; afterwards no session is registered, the
    kill channel of every session that was registered has fired, and no
    supervisor handle is left to be waited for. *)
Theorem shutdown_all_effect i t :
  exists i' t', shutdown_all (i, t) = ((i', t'), Ok ()) /\
    i_sessions i' = ∅ /\ i_handles i' = [] /\
    (forall name e k, i_sessions i !! name = Some e -> se_kill e = Some k ->
       i_kills i' !! k = Some true).
Proof.
  assert (W : wp shutdown_all (fun _ i' => i_sessions i' = ∅ /\ i_handles i' = [] /\
    (forall name e k, i_sessions i !! name = Some e -> se_kill e = Some k ->
       i_kills i' !! k = Some true)) (fun _ _ => False) i).
  2: { specialize (W t). destruct (shutdown_all (i, t)) as [[i' t'] [[]|]]; [|done].
       by exists i', t'. }
  unfold shutdown_all. do 3 wp_step.
  eapply wp_conseq; [apply destroy_loop | | done].
  intros ? i1 (Es & Eh & _ & Hk). wp_run.
  apply for_each_io. { intros ? x Q QE HQ. by wp_run. }
  intros []. cbn. split_and!; [|done|].
  - apply map_eq. intros n. rewrite Es, lookup_empty. case_decide as D; [done|].
    destruct (i_sessions i !! n) as [e|] eqn:E; [|done]. destruct D.
    apply list_elem_of_fmap. exists (n, e). split; [done|]. by apply elem_of_map_to_list.
  - intros n e k E Ek. eapply Hk; [|done|done].
    apply list_elem_of_fmap. exists (n, e). split; [done|]. by apply elem_of_map_to_list.
Qed.
End shutdown.

(** ** Spawning clients *)

(** The processes a trace has started, in order. *)
Definition spawn_of (c : call) : option command :=
  match c with
  | Call (SpawnProcess cmd) _ => Some cmd
  | _ => None
  end.

Definition spawned (t : trace) : list command := omap spawn_of t.

Lemma spawned_app t1 t2 : spawned (t1 ++ t2) = spawned t1 ++ spawned t2.
Proof. apply omap_app. Qed.

Section spawning.
Context `{Env}.

Lemma inherit_env_spec keys : forall m i t, exists m' t',
  inherit_env keys m (i, t) = ((i, t'), Ok m') /\ spawned t' = spawned t /\
  (forall k v, m' !! k = Some v -> m !! k = Some v \/ k ∈ keys).
Proof.
  induction keys as [|k keys IH]; intros m i t; cbn [inherit_env].
  { exists m, t. split_and!; auto. }
  unfold mbind, eff_mbind. rewrite sys_eq. cbv beta iota.
  destruct (IH (insert_if k (answer (option string) t (EnvVar k)) m) i
    (t ++ [Call (EnvVar k) (answer (option string) t (EnvVar k))])) as (m' & t' & E & Es & Hm).
  exists m', t'. split_and!; [done | by rewrite Es, spawned_app, app_nil_r |].
  intros k' v' Hk'. destruct (Hm k' v' Hk') as [E'|]; [|set_solver].
  destruct (answer (option string) t (EnvVar k)); cbn in E'; [|auto].
  rewrite lookup_insert in E'. case_decide; [set_solver|auto].
Qed.

Lemma insert_all_lookup kvs : forall m k v,
  insert_all kvs m !! k = Some v -> m !! k = Some v \/ (k, v) ∈ kvs.
Proof.
  induction kvs as [|[k0 v0] kvs IH]; intros m k v E; cbn in *; [auto|].
  destruct (IH _ _ _ E) as [E'|]; [|set_solver].
  rewrite lookup_insert in E'. case_decide; simplify_eq; set_solver.
Qed.

(** A variable of a client process: given by the caller, one of the fixed
    Wayland settings, or one of the allow-listed daemon variables. *)
Definition client_var_ok (dir : path) (display : string) (env : gmap string string)
    (k v : string) : Prop :=
  env !! k = Some v \/ (k, v) ∈ client_fixed_env dir display \/ k ∈ client_env_keys.

Lemma client_env_spec dir display env i t : exists m t',
  client_env dir display env (i, t) = ((i, t'), Ok m) /\ spawned t' = spawned t /\
  (forall k v, m !! k = Some v -> client_var_ok dir display env k v) /\ env ⊆ m.
Proof.
  destruct (inherit_env_spec client_env_keys ∅ i t) as (m & t' & E & Es & Hm).
  unfold client_env. erewrite eff_bind_ok by apply E. eexists _, t'. split_and!; [done..| |].
  - intros k v. rewrite lookup_union_Some_raw, lookup_delete_Some.
    intros [?|(_ & _ & Hk)]; [by left|].
    destruct (insert_all_lookup _ _ _ _ Hk) as [Hk'|]; [|right; by left].
    destruct (Hm _ _ Hk') as [Hk''|]; [|right; by right]. by rewrite lookup_empty in Hk''.
  - apply map_union_subseteq_l.
Qed.

Lemma add_pid_spawned {X E} cg pid (x : X) t : exists t',
  add_pid (E := E) cg pid (x, t) = ((x, t'), Ok ()) /\ spawned t' = spawned t.
Proof.
  unfold add_pid, mbind, eff_mbind. rewrite sys_eq. eexists. split; [done|].
  by rewrite spawned_app, app_nil_r.
Qed.

(** What recording the child does after the process has been started. *)
Lemma after_spawn_spawned name pid comp i t :
  match (match i_sessions i !! name with
         | None => mret ()
         | Some e =>
             (if 0 <? pid then
                modify (upd_sessions <[name := record_child pid comp e]>) ;;
                opt_do (se_cgroup e) (fun cg => add_pid cg pid)
              else mret ()) ;;
             modify (push_task (TLogDrainer (se_log_history e) name "stdout")) ;;
             modify (push_task (TLogDrainer (se_log_history e) name "stderr"))
         end : R unit) (i, t) with
  | (s', r) => spawned s'.2 = spawned t
  end.
Proof.
  destruct (i_sessions i !! name) as [e|]; [|done].
  destruct (0 <? pid); [|done]. destruct (se_cgroup e) as [cg|]; cbn [opt_do]; [|done].
  destruct (add_pid_spawned (E := any_error) cg pid
    (upd_sessions <[name := record_child pid comp e]> i) t) as (t' & E & Es).
  unfold mbind, eff_mbind, modify. by rewrite E.
Qed.

Lemma validate_argv_ok argv argv0 rest :
  validate_argv argv = Ok (argv0, rest) ->
  argv = argv0 :: rest /\ starts_with "/" argv0 = true /\
  Z.of_nat (length argv) <= MAX_ARGV_LEN /\
  Forall (fun a => string_len a <= MAX_ARGV_ELEM_BYTES) argv.
Proof.
  unfold validate_argv. destruct argv as [|a0 r]; [done|].
  destruct (starts_with "/" a0) eqn:Es; cbn [negb]; [|done].
  destruct (Z.ltb_spec MAX_ARGV_LEN (Z.of_nat (length (a0 :: r)))); [done|].
  destruct (existsb _ _) eqn:Ex; [done|]. intros [= -> ->]. split_and!; try done.
  apply Forall_forall. intros a Ha. apply Z.nlt_ge. intros L.
  eapply existsb_exists_false; [done | by apply list_elem_of_In | by apply Z.ltb_lt].
Qed.

(** C13: whatever the caller asks for and whatever the environment answers,
    spawning a client starts at most one process; it is started with an
    absolute program and exactly the arguments given, of a command line within
    the limits, for a registered session, and every variable of its
    environment is the caller's, a fixed Wayland setting or one of the seven
    allow-listed daemon variables: no other variable of the daemon reaches a
    client. *)
Theorem spawn_child_confined name argv env comp i t s' r :
  spawn_child name argv env comp (i, t) = (s', r) ->
  spawned s'.2 = spawned t \/
  exists cmd e dir display, spawned s'.2 = spawned t ++ [cmd] /\
    i_sessions i !! name = Some e /\
    path_parent (sm_inner_socket (se_meta e)) = Some dir /\
    path_file_name (sm_inner_socket (se_meta e)) = Some display /\
    argv = c_program cmd :: c_args cmd /\ starts_with "/" (c_program cmd) = true /\
    Z.of_nat (length argv) <= MAX_ARGV_LEN /\
    Forall (fun a => string_len a <= MAX_ARGV_ELEM_BYTES) argv /\
    (forall k v, c_env cmd !! k = Some v -> client_var_ok dir display env k v) /\
    env ⊆ c_env cmd.
Proof.
  intros Er. unfold spawn_child in Er. unfold mbind at 1, eff_mbind at 1, lift at 1 in Er.
  destruct (validate_argv argv) as [[argv0 rest]|] eqn:Ea; [|left; unfold lift in Er; by simplify_eq].
  unfold mbind at 1, eff_mbind at 1, get at 1 in Er. cbn [fst] in Er.
  destruct (i_sessions i !! name) as [e|] eqn:Ee; [|left; unfold lift in Er; by simplify_eq].
  destruct (path_parent _) as [dir|] eqn:Ed; [|left; unfold lift in Er; by simplify_eq].
  destruct (path_file_name _) as [display|] eqn:Ef; [|left; unfold lift in Er; by simplify_eq].
  destruct (client_env_spec dir display env i t) as (m & t' & Ec & Es & Hm & Hsub).
  erewrite eff_bind_ok in Er by apply Ec.
  unfold mbind at 1, eff_mbind at 1 in Er. rewrite sys_eq in Er. cbv beta iota in Er.
  right. set (cmd := Build_command argv0 rest m None) in *.
  assert (G : spawned s'.2 = spawned t ++ [cmd]).
  2: { destruct (validate_argv_ok _ _ _ Ea) as (-> & ? & ? & ?).
       by exists cmd, e, dir, display. }
  rewrite <- Es. destruct (answer (result (option Z) string) _ _) as [id|err].
  2: { injection Er as <- _. cbn. by rewrite spawned_app. }
  set (t2 := t' ++ _) in *.
  pose proof (after_spawn_spawned name (match id with Some p => as_s 32 p | None => -1 end)
    comp i t2) as A.
  unfold mbind at 1, eff_mbind at 1, get at 1 in Er. cbn [fst] in Er.
  unfold mbind at 1, eff_mbind at 1 in Er.
  destruct (_ (i, t2)) as [s1 r1].
  assert (Es1 : spawned s1.2 = spawned t' ++ [cmd]).
  { rewrite A. unfold t2. by rewrite spawned_app. }
  destruct s1 as [i1 t1], r1; cbn in Er; injection Er as <- _; done.
Qed.
End spawning.

(** A registry with one session, and a client spawned into it. *)
Definition demo_state : Inner * trace :=
  (@create good_env "demo" 640 480 1 ∅ false false None None None None None
     (new_inner ["run"; "waymux"]%string ["bin"; "waymux-session"]%string, [])).1.

Definition demo_spawn : (Inner * trace) * result Z any_error :=
  @spawn_child good_env "demo" ["/usr/bin/foot"; "-e"]%string {["LANG"%string := "C"%string]} true
    demo_state.

Lemma spawn_child_confined_witness :
  c_program <$> spawned demo_spawn.1.2 = ["/bin/waymux-session"; "/usr/bin/foot"]%string /\
  (spawned demo_spawn.1.2 = spawned demo_state.2 \/
   exists cmd e dir display, spawned demo_spawn.1.2 = spawned demo_state.2 ++ [cmd] /\
     i_sessions demo_state.1 !! "demo"%string = Some e /\
     path_parent (sm_inner_socket (se_meta e)) = Some dir /\
     path_file_name (sm_inner_socket (se_meta e)) = Some display /\
     ["/usr/bin/foot"; "-e"]%string = c_program cmd :: c_args cmd /\
     starts_with "/" (c_program cmd) = true /\
     Z.of_nat (length ["/usr/bin/foot"; "-e"]%string) <= MAX_ARGV_LEN /\
     Forall (fun a => string_len a <= MAX_ARGV_ELEM_BYTES) ["/usr/bin/foot"; "-e"]%string /\
     (forall k v, c_env cmd !! k = Some v ->
        client_var_ok dir display {["LANG"%string := "C"%string]} k v) /\
     {["LANG"%string := "C"%string]} ⊆ c_env cmd).
Proof.
  split; [vm_compute; reflexivity|].
  apply (@spawn_child_confined good_env "demo" ["/usr/bin/foot"; "-e"]%string
    {["LANG"%string := "C"%string]} true demo_state.1 demo_state.2 demo_spawn.1 demo_spawn.2).
  destruct demo_spawn eqn:E. unfold demo_spawn in E. by destruct demo_state.
Defined.

(** ** Clients exiting *)

Section exits.
Context `{Env}.

Definition code_of (st : option exit_status) : Z :=
  match st with Some s => exit_code_of s | None => -1 end.

(** When a client exits, [ChildExited] with its exit code is broadcast,
    followed by [SessionCrashed] exactly when it was the session's compositor;
    its pid is dropped from its session's list and from the compositor slot,
    and nothing else of the registry changes. *)
Theorem child_wait_effect name pid i t :
  0 < pid ->
  let st := answer (option exit_status) t (ChildWait pid) in
  let was := bool_decide ((i_sessions i !! name) ≫= se_compositor_pid = Some pid) in
  exists i',
    child_wait name pid (i, t) = ((i', t ++ [Call (ChildWait pid) st]), Ok ()) /\
    i_events i' = i_events i ++ [event_new (Ev.ChildExited name pid (code_of st))] ++
      (if was then [event_new (Ev.SessionCrashed name pid (code_of st))] else []) /\
    i_sessions i' = alter (fun e => (prune_child pid e).1) name (i_sessions i) /\
    i_tags i' = i_tags i /\ i_kills i' = i_kills i.
Proof.
  intros Hp. cbv zeta. unfold child_wait. unfold mbind at 1, eff_mbind at 1.
  rewrite sys_eq. cbv beta iota zeta. unfold mbind at 1, eff_mbind at 1, get at 1. cbn [fst].
  rewrite (proj2 (Z.ltb_lt 0 pid)) by done.
  destruct (i_sessions i !! name) as [e|] eqn:E; cbn [mbind option_bind].
  - rewrite <- (insert_alter _ _ (fun e => (prune_child pid e).1) e) by done.
    change (bool_decide (se_compositor_pid e = Some pid)) with (prune_child pid e).2.
    destruct (prune_child pid e) as [e' []];
      (eexists; split; [reflexivity|]; cbn; split_and!; try done; by rewrite <- app_assoc).
  - rewrite bool_decide_eq_false_2 by done.
    eexists. split; [reflexivity|]. cbn. split_and!; try done.
    apply map_eq. intros n. rewrite lookup_alter. case_decide; subst; [by rewrite E|done].
Qed.
End exits.

Lemma child_wait_effect_witness :
  exists i' t',
    @child_wait good_env "demo" 4242 (demo_spawn.1.1, demo_spawn.1.2) = ((i', t'), Ok ()) /\
    drop 1 (i_events i') = [event_new (Ev.ChildExited "demo" 4242 0);
                            event_new (Ev.SessionCrashed "demo" 4242 0)].
Proof.
  destruct (@child_wait_effect good_env "demo" 4242 demo_spawn.1.1 demo_spawn.1.2 ltac:(lia))
    as (i' & E & Ev & _).
  eexists i', _. split; [exact E|]. rewrite Ev. vm_compute. reflexivity.
Defined.

(** ** Logs *)

Section log_props.
Context `{Env}.

Lemma ring_push_last_n {A} (q : list A) x :
  ring_push LOG_HISTORY_CAPACITY (last_n LOG_HISTORY_CAPACITY q) x =
  last_n LOG_HISTORY_CAPACITY (q ++ [x]).
Proof.
  unfold ring_push. rewrite last_n_snoc by (unfold LOG_HISTORY_CAPACITY; lia).
  destruct (Nat.leb_spec LOG_HISTORY_CAPACITY (length (last_n LOG_HISTORY_CAPACITY q))) as [L|L].
  - rewrite decide_True by done. by destruct (last_n LOG_HISTORY_CAPACITY q).
  - rewrite decide_False by lia. done.
Qed.

Definition log_event (session stream_name line : string) : Event :=
  event_new (Ev.Log session stream_name line).

(** A drainer that reads any number of lines keeps in the session's
    history exactly the last 1024 of all the lines there have been, in order
    of arrival, broadcasts every line once and in order, and touches no other
    session's history. *)
Theorem log_drainer_history a session st text i t before :
  default [] (i_logs i !! a) = last_n LOG_HISTORY_CAPACITY before ->
  exists i' t', log_drainer a session st text (i, t) = ((i', t'), Ok ()) /\
    default [] (i_logs i' !! a) = last_n LOG_HISTORY_CAPACITY (before ++ (pair st <$> text)) /\
    (forall b, b <> a -> i_logs i' !! b = i_logs i !! b) /\
    i_events i' = i_events i ++ (log_event session st <$> text) /\
    i_sessions i' = i_sessions i.
Proof.
  unfold log_drainer. revert i t before. induction text as [|l text IH]; intros i t before Hq.
  { exists i, t. cbn. rewrite !app_nil_r. split_and!; done. }
  cbn [for_each]. unfold mbind at 1, eff_mbind at 1.
  unfold log_line at 1, mbind, eff_mbind. rewrite sys_eq. cbv beta iota. cbn [get fst].
  cbn [modify broadcast].
  set (q := ring_push _ _ _). set (i1 := push_event _ _).
  destruct (IH i1 (t ++ [Call (Stderr ("[" +:+ session +:+ ":" +:+ st +:+ "] " +:+ l)%string)
    (answer unit t (Stderr ("[" +:+ session +:+ ":" +:+ st +:+ "] " +:+ l)%string))])
    (before ++ [(st, l)])) as (i' & t' & E & El & Eo & Ev & Es).
  { unfold i1. cbn [push_event set_log i_logs]. rewrite lookup_insert, decide_True by done.
    unfold q. rewrite Hq. apply ring_push_last_n. }
  exists i', t'. split_and!.
  - done.
  - by rewrite El, <- app_assoc.
  - intros b Hb. rewrite (Eo b Hb). cbn. by rewrite lookup_insert_ne.
  - rewrite Ev. cbn. by rewrite <- app_assoc.
  - by rewrite Es.
Qed.
End log_props.

Lemma log_drainer_history_witness :
  exists i' t',
    @log_drainer good_env 1 "demo" "stdout" ["a"; "b"]%string (demo_state.1, demo_state.2)
    = ((i', t'), Ok ()) /\
    default [] (i_logs i' !! 1%nat) = [("stdout", "a"); ("stdout", "b")]%string.
Proof.
  destruct (@log_drainer_history good_env 1 "demo" "stdout" ["a"; "b"]%string
    demo_state.1 demo_state.2 []) as (i' & t' & E & El & _); [vm_compute; reflexivity|].
  exists i', t'. split; [exact E|]. rewrite El. vm_compute. reflexivity.
Defined.

(** ** The control connection *)

Section control_props.
Context `{Env} `{MsgPack} `{!Serde SessionCtlRequest} `{!Serde SessionCtlResponse}.

Definition slot_of (i : Inner) (a : nat) : option conn := default None (i_conns i !! a).

Lemma slot_set a c i : slot_of (set_conn a c i) a = c.
Proof. unfold slot_of. cbn. by rewrite lookup_insert, decide_True. Qed.

Lemma slot_set_ne a b c i : b <> a -> slot_of (set_conn a c i) b = slot_of i b.
Proof. intros N. unfold slot_of. cbn. by rewrite lookup_insert_ne. Qed.

(** How a control request leaves the connection slots. *)
Definition slots_after (slot : nat) (i : Inner) (failed : option any_error) (i' : Inner) : Prop :=
  (forall b, b <> slot -> slot_of i' b = slot_of i b) /\
  match failed with
  | None => is_Some (slot_of i' slot)
  | Some e => slot_of i' slot = None \/ e = ErrMsg "decode session-ctl response" \/
              e = ErrMsg "encode session-ctl request"
  end.

Lemma decode_ctl_wp payload slot i i0 :
  (forall b, b <> slot -> slot_of i b = slot_of i0 b) -> is_Some (slot_of i slot) ->
  wp (decode_ctl payload) (fun _ => slots_after slot i0 None)
     (fun e => slots_after slot i0 (Some e)) i.
Proof. intros Hb Hs. unfold decode_ctl. wp_run; by split; auto. Qed.

Lemma fresh_rpc_wp slot p frame i i0 :
  (forall b, b <> slot -> slot_of i b = slot_of i0 b) -> slot_of i slot = None ->
  wp (fresh_rpc slot p frame) (fun _ => slots_after slot i0 None)
     (fun e => slots_after slot i0 (Some e)) i.
Proof.
  intros Hb Hn. unfold fresh_rpc. do 3 wp_step; [wp_step|by wp_run; split; auto].
  - do 3 wp_step. apply rpc_io.
    + intros payload. apply decode_ctl_wp; [|by rewrite slot_set].
      intros b N. rewrite slot_set_ne by done. auto.
    + intros e. wp_run. split; [|left; by rewrite slot_set].
      intros b N. rewrite !slot_set_ne by done. auto.
  - wp_run. by split; auto.
Qed.

(** In every environment, a control request touches the connection slot
    of no other session; when it succeeds the slot holds an open stream for
    the next request, and when it fails on the stream (not connecting, a write
    or read error, an oversized reply) the slot is empty, so that the next
    request reconnects. *)
Theorem session_control_slot name method i t e :
  i_sessions i !! name = Some e ->
  match session_control name method (i, t) with
  | ((i', _), Ok _) => slots_after (se_control_conn e) i None i'
  | ((i', _), Err err) => slots_after (se_control_conn e) i (Some err) i'
  end.
Proof.
  intros E. revert t.
  change (wp (session_control name method) (fun _ => slots_after (se_control_conn e) i None)
    (fun err => slots_after (se_control_conn e) i (Some err)) i).
  unfold session_control. do 2 wp_step. rewrite E. cbv zeta.
  destruct (encode_frame _ _) as [buf [[]|]]; [|wp_run; by split; auto].
  destruct (default None (i_conns i !! se_control_conn e)) as [c|] eqn:Es.
  - apply wp_match, rpc_io.
    + intros payload. apply decode_ctl_wp; [done|]. by exists c.
    + intros err. do 2 wp_step. apply fresh_rpc_wp; [|by rewrite slot_set].
      intros b N. by rewrite slot_set_ne.
  - by apply fresh_rpc_wp.
Qed.

(** A peer that is up behind stream [c]: the request can be written and a
    framed reply read, whatever happened before. *)
Record answers (c : conn) (frame payload : list Z) : Prop := {
  an_write t : answer _ t (WriteAll c frame) = Ok ();
  an_len t : answer _ t (ReadExact c 4) = Ok (to_be 4 (len_z payload));
  an_payload t : answer _ t (ReadExact c (length payload)) = Ok payload;
  an_size : len_z payload <= MAX_FRAME_SIZE;
}.

Lemma rpc_answers c frame payload i t :
  answers c frame payload -> exists t', rpc c frame (i, t) = ((i, t'), Ok (frame_bytes payload)).
Proof.
  intros [Hw Hl Hp Hs]. unfold rpc, mbind, eff_mbind. rewrite sys_eq. cbv beta iota.
  rewrite Hw. rewrite sys_eq. cbv beta iota. rewrite Hl. rewrite from_be_prefix by done.
  destruct (Z.ltb_spec MAX_FRAME_SIZE (len_z payload)); [lia|].
  replace (Z.to_nat (len_z payload)) with (length payload) by (unfold len_z; lia).
  rewrite sys_eq. cbv beta iota. rewrite Hp. eexists. done.
Qed.

(** A stream whose peer is gone: the request cannot be written; or it is taken, as a
    socket takes what nobody will read, and the stream ends before the length of a reply,
    or within the reply; or what comes is no reply. *)
Inductive gone (c : conn) (frame : list Z) : Prop :=
| gone_write : (forall t, exists e, answer _ t (WriteAll c frame) = Err e) -> gone c frame
| gone_ended : (forall t, exists e, answer _ t (ReadExact c 4) = Err e) -> gone c frame
| gone_within n :
    (forall t, exists l, answer _ t (ReadExact c 4) = Ok l /\ from_be l = n) ->
    (forall t, exists e, answer _ t (ReadExact c (Z.to_nat n)) = Err e) -> gone c frame
| gone_garbage : (forall t, exists l, answer _ t (ReadExact c 4) = Ok l /\ MAX_FRAME_SIZE < from_be l) -> gone c frame.

Lemma rpc_gone c frame i t :
  gone c frame -> exists t' err, rpc c frame (i, t) = ((i, t'), Err err).
Proof.
  intros Hg. unfold rpc, mbind, eff_mbind. rewrite sys_eq. cbv beta iota.
  destruct (answer _ t (WriteAll c frame)) as [[]|e0] eqn:Ew; [|unfold lift; eauto].
  rewrite sys_eq. cbv beta iota. set (t1 := t ++ _).
  destruct (answer _ t1 (ReadExact c 4)) as [l|e1] eqn:E1; [|unfold lift; eauto].
  destruct (Z.ltb_spec MAX_FRAME_SIZE (from_be l)) as [L|L]; [unfold lift; eauto|].
  rewrite sys_eq. cbv beta iota. set (t2 := t1 ++ _).
  destruct Hg as [Hw|Hr|n Hl Hp|Hl].
  - destruct (Hw t) as [e He]. congruence.
  - destruct (Hr t1) as [e He]. congruence.
  - destruct (Hl t1) as (l' & Hl' & Hn). assert (l' = l) as -> by congruence. subst n.
    destruct (Hp t2) as [e ->]. unfold lift. eauto.
  - destruct (Hl t1) as (l' & Hl' & Hn). assert (l' = l) as -> by congruence. lia.
Qed.

Lemma fresh_rpc_ok slot p frame payload c resp i t :
  (forall t, answer _ t (ConnectTimeout p 2) = Some (Ok c)) ->
  answers c frame payload -> from_slice payload = Ok resp ->
  exists t', fresh_rpc slot p frame (i, t) = ((set_conn slot (Some c) i, t'), Ok resp).
Proof.
  intros Hc Ha Hd. unfold fresh_rpc, mbind, eff_mbind. rewrite sys_eq. cbv beta iota.
  rewrite Hc. cbn [modify]. unfold eff_match.
  destruct (rpc_answers c frame payload (set_conn slot (Some c) i)
    (t ++ [Call (ConnectTimeout p 2) (Some (Ok c))]) Ha) as [t' ->].
  exists t'. unfold decode_ctl. by rewrite decode_frame_bytes, Hd by apply Ha.
Qed.

(** C39: a control connection that has broken is replaced: whether the slot is empty or
    holds a stream whose peer is gone (the request cannot be written, or it is taken and
    the stream ends before or within the reply, or what comes is too long for one), one
    request on a session that accepts connections is answered, with the session's
    response, and the fresh stream is kept for the next one. A peer that takes the
    request and neither answers nor closes is not among them: the code waits for it
    without a limit. *)
Theorem session_control_recovers name method i t e buf payload c resp :
  i_sessions i !! name = Some e ->
  encode_frame {| scq_id := 1; scq_method := method |} [] = (buf, Ok ()) ->
  (forall c0, slot_of i (se_control_conn e) = Some c0 -> gone c0 buf) ->
  (forall t, answer _ t (ConnectTimeout (sm_control_socket (se_meta e)) 2) = Some (Ok c)) ->
  answers c buf payload -> from_slice payload = Ok resp ->
  exists i' t', session_control name method (i, t) = ((i', t'), Ok resp) /\
    slot_of i' (se_control_conn e) = Some c /\ i_sessions i' = i_sessions i.
Proof.
  intros E Eb Hstale Hc Ha Hd. unfold session_control.
  unfold mbind at 1, eff_mbind at 1, get at 1. cbn [fst]. rewrite E. cbv zeta. rewrite Eb.
  fold (slot_of i (se_control_conn e)).
  destruct (slot_of i (se_control_conn e)) as [c0|] eqn:Es.
  - destruct (rpc_gone c0 buf i t (Hstale c0 eq_refl)) as (t1 & err' & Er).
    unfold eff_match at 1. rewrite Er. unfold mbind, eff_mbind. cbn [modify].
    destruct (fresh_rpc_ok (se_control_conn e) _ buf payload c resp
      (set_conn (se_control_conn e) None i) t1 Hc Ha Hd) as [t' ->].
    eexists _, t'. split; [done|]. by rewrite slot_set.
  - destruct (fresh_rpc_ok (se_control_conn e) _ buf payload c resp i t Hc Ha Hd) as [t' ->].
    eexists _, t'. split; [done|]. by rewrite slot_set.
Qed.

(** A resize to a degenerate size is rejected without asking the session;
    otherwise the registered size becomes the new one exactly when the session
    accepts, and stays what it was when it does not. *)
Theorem resize_effect name width height i t :
  match resize name width height (i, t) with
  | ((i', t'), Ok _) =>
      validate_output_size width height = Ok () /\
      i_sessions i' = alter (set_dims width height) name (i_sessions i) /\
      is_Some (i_sessions i !! name)
  | ((i', t'), Err _) =>
      i_sessions i' = i_sessions i /\
      (validate_output_size width height <> Ok () -> (i', t') = (i, t))
  end.
Proof.
  unfold resize. destruct (validate_output_size width height) as [[]|] eqn:Ev; [|by cbn].
  set (m := _ : R unit).
  assert (W : wp m (fun _ i' => i_sessions i' = alter (set_dims width height) name (i_sessions i) /\
    is_Some (i_sessions i !! name)) (fun _ i' => i_sessions i' = i_sessions i) i).
  2: { specialize (W t). destruct (m (i, t)) as [[i' t'] [?|?]]; [naive_solver|]. split; [done|].
       by intros []. }
  unfold m. apply wp_bind. eapply wp_conseq; [apply session_control_wp | | by intros ? ? []].
  intros r i1 [(Es & _ & _) Hs]. apply wp_bind, check_ok_io; [|done]. intros ?. wp_run.
  - cbn. split; [|done]. rewrite Es in *. by apply insert_alter.
  - rewrite Es in *. by destruct Hs as [? ?]; congruence.
Qed.
End control_props.

(** *** An environment with one dead and one live control stream *)

(** Stream 7 is the session: it takes any request and replies with one byte.
    Every other stream is broken. *)
Definition ctl_env : Env := fun A t c =>
  match c in syscall B return B -> B with
  | ConnectTimeout _ _ => fun _ => Some (Ok 7%nat)
  | WriteAll c _ => fun _ => if (c =? 7)%nat then Ok () else Err "broken pipe"%string
  | ReadExact _ n => fun _ => if (n =? 4)%nat then Ok [0; 0; 0; 1] else Ok [0xC0]
  | _ => fun d => d
  end (good_env A t c).

Definition demo_msgpack : MsgPack := {|
  Value := list Z;
  value_serde := {| write_named (v : list Z) := (v, None); from_slice l := Ok l |};
  write_value v := Ok v;
|}.

Definition demo_request_serde : Serde SessionCtlRequest := {|
  write_named (_ : SessionCtlRequest) := ([0x90], None);
  from_slice _ := Err "unused"%string;
|}.

Definition demo_response (l : list Z) : @SessionCtlResponse demo_msgpack :=
  @Build_SessionCtlResponse demo_msgpack 1 true (Some l) None.

Definition demo_response_serde : Serde (@SessionCtlResponse demo_msgpack) := {|
  write_named (_ : @SessionCtlResponse demo_msgpack) := ([0xC0], None);
  from_slice l := Ok (demo_response l);
|}.

(** The demo session with a stale stream in its slot. *)
Definition stale_state : Inner := set_conn 2 (Some 0%nat) demo_state.1.

Definition demo_entry : SessionEntry :=
  {| se_meta := {| sm_name := "demo"; sm_pid := 4242; sm_width := 640; sm_height := 480;
                   sm_scale := 1; sm_created_at := 1700000000;
                   sm_inner_socket := ["run"; "waymux"; "demo"; "wayland.sock"];
                   sm_control_socket := ["run"; "waymux"; "demo"; "control.sock"];
                   sm_attach_socket := ["run"; "waymux"; "demo"; "attach.sock"];
                   sm_attached := false |};
     se_kill := Some 0%nat; se_child_pids := []; se_compositor_pid := None; se_cgroup := None;
     se_tmpfs := None; se_log_history := 1; se_control_conn := 2 |}%string.

Lemma stale_lookup : i_sessions stale_state !! "demo"%string = Some demo_entry.
Proof. vm_compute. reflexivity. Qed.

Lemma session_control_slot_witness :
  match @session_control good_env demo_msgpack demo_request_serde demo_response_serde
          "demo" Ctl.Info (stale_state, []) with
  | ((i', _), Ok _) => slots_after 2 stale_state None i'
  | ((i', _), Err err) => slots_after 2 stale_state (Some err) i'
  end.
Proof.
  exact (@session_control_slot good_env demo_msgpack demo_request_serde demo_response_serde
    "demo" Ctl.Info stale_state [] demo_entry stale_lookup).
Defined.

Lemma session_control_recovers_witness :
  exists i' t', @session_control ctl_env demo_msgpack demo_request_serde demo_response_serde
      "demo" Ctl.Info (stale_state, []) = ((i', t'), Ok (demo_response [0xC0])) /\
    slot_of i' 2 = Some 7%nat /\ i_sessions i' = i_sessions stale_state.
Proof.
  apply (@session_control_recovers ctl_env demo_msgpack demo_request_serde demo_response_serde
    "demo" Ctl.Info stale_state [] demo_entry [0; 0; 0; 1; 0x90] [0xC0] 7 (demo_response [0xC0])).
  - apply stale_lookup.
  - vm_compute. reflexivity.
  - intros c0 E. vm_compute in E. injection E as <-. apply gone_write. intros t. by exists "broken pipe"%string.
  - reflexivity.
  - split; [done..|]. vm_compute. discriminate.
  - reflexivity.
Defined.

(** ** Tags *)

Section tags.
Context `{Env} `{MsgPack} `{!Serde SessionCtlRequest} `{!Serde SessionCtlResponse}
  `{!Serde SessionCtlWindows}.

Lemma list_windows_tags name i t s' ws :
  list_windows name (i, t) = (s', Ok ws) ->
  i_tags s'.1 = i_tags i /\
  exists body, ws = merge_tags (i_tags i) name <$> scw_windows body.
Proof.
  intros E.
  assert (W : wp (list_windows name) (fun ws i' => i_tags i' = i_tags i /\
    exists body, ws = merge_tags (i_tags i) name <$> scw_windows body) (fun _ _ => True) i).
  { unfold list_windows. apply wp_bind. eapply wp_conseq; [apply ctl_typed_wp | | done].
    intros body i' [(_ & Et & _) _]. wp_run. rewrite Et. eauto. }
  destruct s' as [i' t']. exact (wp_ok _ _ _ _ _ _ _ _ W E).
Qed.

(** Tags stored for a window are what every later listing of that session
    shows for it, in place of whatever the session reports; and they are
    stored only for a window the session has just listed. *)
Theorem tag_then_list name w tags i t s1 s2 ws :
  tag_window name w tags (i, t) = (s1, Ok ()) ->
  list_windows name s1 = (s2, Ok ws) ->
  i_tags s1.1 = <[(name, w) := tags]> (i_tags i) /\
  (forall win, win ∈ ws -> wi_id win = w -> wi_tags win = tags).
Proof.
  intros E1 E2. unfold tag_window, store_tags, mbind, eff_mbind in E1.
  destruct (list_windows name (i, t)) as [[i1 t1] [ws1|]] eqn:El; [|done].
  destruct (list_windows_tags _ _ _ _ _ El) as [Et _]. cbn in Et.
  case_match; [done|]. cbn in E1. injection E1 as <-. cbn [fst]. cbn. rewrite Et.
  split; [done|]. intros win Hw Hid.
  destruct (list_windows_tags _ _ _ _ _ E2) as [_ [body ->]].
  apply list_elem_of_fmap in Hw as (w0 & -> & _).
  assert (Hid0 : wi_id w0 = w).
  { rewrite <- Hid. unfold merge_tags. by case_match. }
  unfold merge_tags. cbn. rewrite Hid0, Et, lookup_insert, decide_True by done. done.
Qed.
End tags.

Definition demo_window : WindowInfo :=
  {| wi_id := 3; wi_app_id := "foot"; wi_title := "shell"; wi_tags := ["session"];
     wi_geometry := {| rect_x := 0; rect_y := 0; rect_width := 640; rect_height := 480 |};
     wi_focused := true; wi_pid := 4242; wi_content_rect := None |}%string.

Definition demo_windows_serde : Serde SessionCtlWindows := {|
  write_named (_ : SessionCtlWindows) := ([], Some "unused"%string);
  from_slice _ := Ok {| scw_windows := [demo_window] |};
|}.

Definition demo_tagged : (Inner * trace) * result unit any_error :=
  @tag_window ctl_env demo_msgpack demo_request_serde demo_response_serde demo_windows_serde
    "demo" 3 ["main"]%string (stale_state, []).

Definition demo_listed : (Inner * trace) * result (list WindowInfo) any_error :=
  @list_windows ctl_env demo_msgpack demo_request_serde demo_response_serde demo_windows_serde
    "demo" demo_tagged.1.

Lemma tag_then_list_witness :
  exists ws, demo_listed.2 = Ok ws /\ length ws = 1%nat /\
    (forall win, win ∈ ws -> wi_id win = 3 -> wi_tags win = ["main"]%string).
Proof.
  eexists. split; [vm_compute; reflexivity|]. split; [reflexivity|].
  eapply (@tag_then_list ctl_env demo_msgpack demo_request_serde demo_response_serde
    demo_windows_serde "demo" 3 ["main"]%string stale_state [] demo_tagged.1 demo_listed.1).
  - vm_compute. reflexivity.
  - vm_compute. reflexivity.
Defined.
