(* ===== verification/RegistryIdle.v ===== *)
(** * Waiting for a session to be idle, and its events
    ([Registry::wait_for_idle], [accept_and_forward_events] of
    [crates/waymux-daemon/src/registry.rs])

    The polling loop ends: on a clock that advances at least as much as the loop
    sleeps, a bounded number of polls is enough. And the event forwarder
    broadcasts exactly what the session sent. *)

From stdpp Require Import prelude list strings gmap pretty.
From Stdlib Require Import ZArith Lia Ascii.
From S2P Require Import Prelude Words Codec Messages Sys Quota.
From S2P Require Import Registry RegistryOps RegistryInv RegistryProps.

Open Scope Z_scope.

(** The number of 10 ms sleeps in a trace. *)
Definition is_sleep (c : call) : bool :=
  match c with
  | Call (SleepMillis ms) _ => ms =? 10
  | _ => false
  end.

Definition sleeps (t : trace) : Z := Z.of_nat (length (filter (fun c => Is_true (is_sleep c)) t)).

Lemma sleeps_app t1 t2 : sleeps (t1 ++ t2) = sleeps t1 + sleeps t2.
Proof. unfold sleeps. rewrite filter_app, length_app. lia. Qed.

Lemma sleeps_nonneg t : 0 <= sleeps t.
Proof. unfold sleeps. lia. Qed.

(** A computation only ever adds calls. *)
Definition grows {X E A} (m : Eff (X * trace) E A) : Prop :=
  forall x t, exists u, (m (x, t)).1.2 = t ++ u.

Create HintDb grows discriminated.

Section grows.
Context `{Env} {X E : Type}.

Lemma grows_ret {A} (a : A) : grows (X := X) (E := E) (mret a).
Proof. intros x t. exists []. cbn. by rewrite app_nil_r. Qed.

Lemma grows_lift {A} (r : result A E) : grows (X := X) (lift r).
Proof. intros x t. exists []. cbn. by rewrite app_nil_r. Qed.

Lemma grows_get : grows (X := X) (E := E) get.
Proof. intros x t. exists []. cbn. by rewrite app_nil_r. Qed.

Lemma grows_modify (f : X -> X) : grows (E := E) (modify f).
Proof. intros x t. exists []. cbn. by rewrite app_nil_r. Qed.

Lemma grows_sys {A} (c : syscall A) : grows (X := X) (E := E) (sys c).
Proof. intros x t. by eexists. Qed.

Lemma grows_bind {A B} (m : Eff (X * trace) E A) (k : A -> Eff (X * trace) E B) :
  grows m -> (forall a, grows (k a)) -> grows (m ≫= k).
Proof.
  intros Hm Hk x t. destruct (Hm x t) as [u Hu]. unfold mbind, eff_mbind.
  destruct (m (x, t)) as [[x' t'] [a|e]]; cbn in Hu; subst; [|by exists u].
  destruct (Hk a x' (t ++ u)) as [u' ->]. exists (u ++ u'). by rewrite app_assoc.
Qed.

Lemma grows_match {A B} (m : Eff (X * trace) E A) (k : A -> Eff (X * trace) E B)
    (h : E -> Eff (X * trace) E B) :
  grows m -> (forall a, grows (k a)) -> (forall e, grows (h e)) -> grows (eff_match m k h).
Proof.
  intros Hm Hk Hh x t. destruct (Hm x t) as [u Hu]. unfold eff_match.
  destruct (m (x, t)) as [[x' t'] [a|e]]; cbn in Hu; subst.
  - destruct (Hk a x' (t ++ u)) as [u' ->]. exists (u ++ u'). by rewrite app_assoc.
  - destruct (Hh e x' (t ++ u)) as [u' ->]. exists (u ++ u'). by rewrite app_assoc.
Qed.
End grows.

#[export] Hint Resolve grows_ret grows_lift grows_get grows_modify grows_sys : grows.

Ltac grows :=
  repeat lazymatch goal with
    | |- grows (_ ≫= _) => apply grows_bind; [|intros ?]
    | |- grows (eff_match _ _ _) => apply grows_match; [|intros ?..]
    | |- grows (match ?x with _ => _ end) => destruct x
    | |- grows _ => solve [auto with grows nocore]
    end.

Section idle.
Context `{Env} `{MsgPack} `{!Serde SessionCtlRequest} `{!Serde SessionCtlResponse}
  `{!Serde SessionCtlInfo}.

Lemma grows_control name method : grows (session_control name method).
Proof. unfold session_control, fresh_rpc, rpc, decode_ctl. grows. Qed.

Lemma grows_typed {T} `{!Serde T} mk what name method :
  grows (ctl_typed (T := T) mk what name method).
Proof. unfold ctl_typed, check_ok. apply grows_bind; [apply grows_control|intros ?]. grows. Qed.

(** The clock that [Instant::now] reads, from a trace [t0] on: it has advanced
    by at least the time slept. *)
Definition clock_from (t0 : trace) (start : Z) : Prop :=
  forall u, start + 10 * sleeps u <= answer Z (t0 ++ u) InstantMillis.

Lemma idle_loop_ends name quiet deadline t0 start : forall fuel i u,
  clock_from t0 start -> deadline <= start + 10 * (sleeps u + Z.of_nat fuel - 1) ->
  (0 < fuel)%nat ->
  match idle_loop fuel name quiet deadline (i, t0 ++ u) with
  | (s', Ok None) => False
  | (s', Ok (Some false)) =>
      exists t1 now, s'.2 = t1 ++ [Call InstantMillis now] /\ deadline <= now
  | _ => True
  end.
Proof.
  induction fuel as [|fuel IH]; intros i u Hc Hd Hf; [lia|].
  cbn [idle_loop]. unfold mbind at 1, eff_mbind at 1.
  destruct (grows_typed (T := SessionCtlInfo) ctl_failed "info" name Ctl.Info i (t0 ++ u))
    as [u1 Hu1].
  destruct (ctl_typed _ _ _ _ _) as [[i1 t1] [info|]]; cbn in Hu1; subst; [|done].
  unfold mbind at 1, eff_mbind at 1. rewrite sys_eq. cbv beta iota.
  destruct (answer (Z * Z) _ _) as [sec nsec] eqn:Em. cbv zeta.
  destruct (quiet <=? _); [done|].
  unfold mbind at 1, eff_mbind at 1. rewrite sys_eq. cbv beta iota.
  set (t2 := ((t0 ++ u) ++ u1) ++ [Call MonotonicTimespec (sec, nsec)]) in *.
  destruct (Z.leb_spec deadline (answer Z t2 InstantMillis)) as [L|L]; [by (unfold mret, eff_mret; eexists _, _; split; [reflexivity|])|].
  unfold mbind at 1, eff_mbind at 1. rewrite sys_eq. cbv beta iota.
  set (v := u ++ u1 ++ [Call MonotonicTimespec (sec, nsec)]).
  assert (E2 : t2 = t0 ++ v) by (unfold t2, v; by rewrite !app_assoc).
  pose proof (Hc v) as Hv. rewrite <- E2 in Hv.
  assert (Sv : sleeps u <= sleeps v).
  { unfold v. rewrite !sleeps_app. pose proof (sleeps_nonneg u1).
    pose proof (sleeps_nonneg [Call MonotonicTimespec (sec, nsec)]). lia. }
  set (w := v ++ [Call InstantMillis (answer Z t2 InstantMillis)] ++
    [Call (SleepMillis 10) (answer unit (t2 ++ [Call InstantMillis (answer Z t2 InstantMillis)])
       (SleepMillis 10))]).
  replace ((t2 ++ _) ++ _) with (t0 ++ w) by (unfold w; by rewrite E2, <- !app_assoc).
  assert (Sw : sleeps v + 1 <= sleeps w).
  { unfold w. rewrite !sleeps_app.
    change (sleeps [Call InstantMillis _]) with 0. change (sleeps [Call (SleepMillis 10) _]) with 1.
    lia. }
  destruct fuel as [|fuel]; [lia|].
  apply IH; [done | lia | lia].
Qed.

Lemma wait_for_idle_answers name quiet_ms timeout_ms i t fuel :
  let start := answer Z t InstantMillis in
  clock_from (t ++ [Call InstantMillis start]) start ->
  0 <= timeout_ms -> timeout_ms / 10 + 1 < Z.of_nat fuel ->
  match wait_for_idle fuel name quiet_ms timeout_ms (i, t) with
  | (s', Ok None) => False
  | (s', Ok (Some false)) =>
      exists t1 now, s'.2 = t1 ++ [Call InstantMillis now] /\ start + timeout_ms <= now
  | _ => True
  end.
Proof.
  intros start Hc Ht Hf. unfold wait_for_idle, mbind, eff_mbind. rewrite sys_eq. cbv beta iota.
  fold start. rewrite <- (app_nil_r (t ++ [Call InstantMillis start])).
  pose proof (Z.div_pos timeout_ms 10 Ht ltac:(lia)).
  apply (idle_loop_ends name _ _ _ start fuel i []); [done | | lia].
  change (sleeps []) with 0. pose proof (Z.div_mod timeout_ms 10 ltac:(lia)).
  pose proof (Z.mod_pos_bound timeout_ms 10 ltac:(lia)). lia.
Qed.
(** C40: waiting for idle always answers: on a clock that advances by at least
    the time slept, [timeout_ms / 10 + 2] polls end the loop, with an error of
    the session, with [true], or with [false] once a reading of the clock is
    at or past the deadline. *)
Theorem wait_for_idle_ends name quiet_ms timeout_ms i t fuel :
  let start := answer Z t InstantMillis in
  clock_from (t ++ [Call InstantMillis start]) start ->
  0 <= timeout_ms -> timeout_ms / 10 + 1 < Z.of_nat fuel ->
  match wait_for_idle fuel name quiet_ms timeout_ms (i, t) with
  | (s', Ok None) => False
  | (s', Ok (Some false)) =>
      exists t1 now, s'.2 = t1 ++ [Call InstantMillis now] /\ start + timeout_ms <= now
  | _ => True
  end.
Proof. apply wait_for_idle_answers. Qed.
End idle.

(** ** Event forwarding *)

Section forwarding.
Context `{Env} `{!Serde Event} `{!SerdeLaws Event}.

Lemma forward_frames_frame fuel payload ev rest e i t :
  len_z payload <= MAX_FRAME_SIZE -> from_slice payload = Ok ev ->
  forward_frames (S fuel) (Stream (frame_bytes payload ++ rest) e) (i, t) =
  forward_frames fuel (Stream rest e) (push_event ev i, t).
Proof.
  intros L Ed. pose proof (read_frame_bytes payload rest e L) as R.
  unfold read_frame in R. cbn [forward_frames].
  destruct (stream_read_exact 4 _) as [s1 [lb|[]]] eqn:E1; [|done..].
  destruct (Z.ltb_spec MAX_FRAME_SIZE (from_be lb)); [done|].
  destruct (stream_read_exact (Z.to_nat (from_be lb)) s1) as [s2 [r|]] eqn:E2; [|done].
  injection R as -> ->. rewrite decode_frame_bytes, Ed by done. done.
Qed.

Lemma forward_encoded e evs : forall out bytes,
  encode_all evs out = (bytes, Ok ()) ->
  exists sfx, bytes = out ++ sfx /\ (length evs <= length sfx)%nat /\
    forall fuel i t, (length evs < fuel)%nat ->
      forward_frames fuel (Stream sfx e) (i, t) =
      ((foldl (fun i ev => push_event ev i) i evs, t), Ok ()).
Proof.
  induction evs as [|ev evs IH]; intros out bytes E.
  - injection E as <-. exists []. rewrite app_nil_r. split_and!; [done..|].
    intros fuel i t Hf. destruct fuel; [cbn in Hf; lia|]. done.
  - cbn [encode_all] in E. unfold mbind, eff_mbind in E. rewrite encode_frame_eq in E.
    destruct (write_named ev) as [p [?|]] eqn:Ev; [done|].
    destruct (Z.ltb_spec MAX_FRAME_SIZE (len_z p)) as [L|L]; [done|].
    destruct (IH _ _ E) as (sfx & -> & Hl & Hf).
    exists (frame_bytes p ++ sfx). split_and!; [by rewrite app_assoc | |].
    + unfold frame_bytes. rewrite !length_app, length_to_be. cbn [length]. lia.
    + intros fuel i t Hlt. destruct fuel as [|fuel]; [cbn in Hlt; lia|].
      rewrite (forward_frames_frame fuel p ev) by (done || by apply from_slice_write_named).
      apply Hf. cbn [length] in Hlt. lia.
Qed.

(** On one connection, the events the session has encoded are broadcast
    exactly once each, in the order they were sent, when the stream ends after
    them, in an orderly way or not; nothing else changes. *)
Theorem forward_connection_exact evs bytes e i t :
  encode_all evs [] = (bytes, Ok ()) ->
  forward_connection (Stream bytes e) (i, t) =
  ((foldl (fun i ev => push_event ev i) i evs, t), Ok ()).
Proof.
  intros E. destruct (forward_encoded e evs [] bytes E) as (sfx & -> & Hl & Hf).
  apply Hf. cbn. lia.
Qed.
End forwarding.

(** *** Examples *)

(** A clock that advances by what was slept, and a session that never rests. *)
Definition idle_env : Env := fun A t c =>
  match c in syscall B return B -> B with
  | InstantMillis => fun _ => 10 * sleeps t
  | _ => fun d => d
  end (ctl_env A t c).

Definition busy_info_serde : Serde SessionCtlInfo := {|
  write_named (_ : SessionCtlInfo) := ([], Some "unused"%string);
  from_slice _ := Ok {| sci_width := 640; sci_height := 480; sci_scale := 1;
                        sci_window_count := 1; sci_last_damage_ns := 100000000000 |};
|}.

Definition demo_idle : (Inner * trace) * result (option bool) any_error :=
  @wait_for_idle idle_env demo_msgpack demo_request_serde demo_response_serde busy_info_serde
    5 "demo" 50 25 (stale_state, []).

Lemma wait_for_idle_ends_witness :
  demo_idle.2 = Ok (Some false) /\
  match demo_idle with
  | (s', Ok None) => False
  | (s', Ok (Some false)) => exists t1 now, s'.2 = t1 ++ [Call InstantMillis now] /\ 0 + 25 <= now
  | _ => True
  end.
Proof.
  split; [vm_compute; reflexivity|].
  apply (@wait_for_idle_ends idle_env demo_msgpack demo_request_serde demo_response_serde
    busy_info_serde "demo" 50 25 stale_state [] 5).
  - intros u. cbn [answer]. change (0 + 10 * sleeps u <= 10 * sleeps ([Call InstantMillis 0] ++ u)).
    rewrite sleeps_app. pose proof (sleeps_nonneg [Call InstantMillis 0]). lia.
  - lia.
  - vm_compute. reflexivity.
Defined.

Definition demo_event : Event := event_new (Ev.WindowDestroyed "demo" 3).

(** A serializer that knows one event. *)
Definition demo_event_serde : Serde Event := {|
  write_named (e : Event) :=
    if bool_decide (e = demo_event) then ([0xE0], None) else ([], Some "unsupported"%string);
  from_slice _ := Ok demo_event;
|}.

Lemma demo_event_laws : @SerdeLaws Event demo_event_serde.
Proof.
  split; cbn; intros v; case_bool_decide; subst; try done; repeat constructor; done.
Qed.

Lemma forward_connection_exact_witness :
  @forward_connection demo_event_serde
    (Stream [0; 0; 0; 1; 0xE0; 0; 0; 0; 1; 0xE0] (Broken "reset")) (stale_state, []) =
  ((foldl (fun i ev => push_event ev i) stale_state [demo_event; demo_event], []), Ok ()).
Proof.
  apply (@forward_connection_exact demo_event_serde demo_event_laws [demo_event; demo_event]).
  vm_compute. reflexivity.
Defined.
