(* ===== verification/Server.v ===== *)
(** * The daemon's control socket
    ([crates/waymux-daemon/src/server.rs], [crates/waymux-daemon/src/backend])

    The session-lifecycle backend as a class with its local instance, the hello
    gate, the dispatcher with one arm per method, the error mapping, the event
    forwarder with its topics and the reader loop of a connection. *)

From stdpp Require Import prelude list strings gmap pretty.
From Stdlib Require Import ZArith Lia Ascii.
From S2P Require Import Prelude Words Codec Messages Sys Quota.
From S2P Require Import Registry RegistryOps RegistryInv RegistryProps RegistryIdle.

Open Scope Z_scope.

Definition OUT_QUEUE_CAPACITY : nat := 1024.

(** ** The lifecycle backend *)

Record CreateRequest := {
  crq_name : string;
  crq_width : Z;
  crq_height : Z;
  crq_scale : Z;
  crq_env : gmap string string;
  crq_share_clipboard : bool;
  crq_share_audio : bool;
  crq_mem_cap_mb : option Z;
  crq_cpu_cap_pct : option Z;
  crq_disk_quota_mb : option Z;
  crq_fd_limit : option Z;
  crq_api_key_id : option string;
}.

Class SessionBackend := {
  backend_create : CreateRequest -> R CreateSessionResult;
  backend_destroy : string -> R unit;
}.

Definition LocalBackend `{Env} : SessionBackend := {|
  backend_create req :=
    create (crq_name req) (crq_width req) (crq_height req) (crq_scale req) (crq_env req)
      (crq_share_clipboard req) (crq_share_audio req) (crq_mem_cap_mb req)
      (crq_cpu_cap_pct req) (crq_disk_quota_mb req) (crq_fd_limit req) (crq_api_key_id req);
  backend_destroy id := destroy id;
|}.

Inductive BackendChoice := Local.

Definition build `{Env} (choice : BackendChoice) : result SessionBackend any_error :=
  match choice with Local => Ok LocalBackend end.

(** ** Results of the server's own *)

Record UnitResult := { }.
Record SpawnResult := { spr_pid : Z }.
Record WaitForIdleResult := { wfi_idle : bool }.

(** Every serializer the daemon uses. *)
Class Wire `{MsgPack} := {
  w_request :: Serde Request;
  w_response :: Serde Response;
  w_event :: Serde Event;
  w_ctl_request :: Serde SessionCtlRequest;
  w_ctl_response :: Serde SessionCtlResponse;
  w_ctl_windows :: Serde SessionCtlWindows;
  w_ctl_info :: Serde SessionCtlInfo;
  w_screenshot :: Serde SessionCtlScreenshot;
  w_record_started :: Serde SessionCtlRecordStarted;
  w_record_status :: Serde RecordStatusResponse;
  w_viewer_started :: Serde ViewerStarted;
  w_viewer_status :: Serde ViewerStatusResponse;
  w_hello :: Serde HelloResult;
  w_sessions :: Serde (list SessionInfo);
  w_created :: Serde CreateSessionResult;
  w_attach :: Serde AttachResult;
  w_windows :: Serde (list WindowInfo);
  w_unit :: Serde UnitResult;
  w_spawn :: Serde SpawnResult;
  w_idle :: Serde WaitForIdleResult;
}.

(** What the daemon relies on of them, for the values it puts in a response. *)
Class WireOk `{Wire} := {
  wl_request :: SerdeLaws Request;
  wl_response :: SerdeLaws Response;
  wl_event :: SerdeLaws Event;
  wl_screenshot :: WireLaws SessionCtlScreenshot;
  wl_record_started :: WireLaws SessionCtlRecordStarted;
  wl_record_status :: WireLaws RecordStatusResponse;
  wl_viewer_started :: WireLaws ViewerStarted;
  wl_viewer_status :: WireLaws ViewerStatusResponse;
  wl_hello :: WireLaws HelloResult;
  wl_sessions :: WireLaws (list SessionInfo);
  wl_created :: WireLaws CreateSessionResult;
  wl_attach :: WireLaws AttachResult;
  wl_windows :: WireLaws (list WindowInfo);
  wl_unit :: WireLaws UnitResult;
  wl_spawn :: WireLaws SpawnResult;
  wl_idle :: WireLaws WaitForIdleResult;
}.

(** ** Error mapping *)

(** [to_string] of the typed errors and of an [anyhow::Error]. *)
Definition create_error_string (e : CreateError) : string :=
  match e with
  | CeAlreadyExists => "session already exists"
  | CeInvalidName => "invalid session name"
  | CeInvalidSize => "invalid size: width and height must each be between 1 and "
                     +:+ pretty MAX_OUTPUT_DIMENSION +:+ " pixels"
  end.

Definition spawn_error_string (e : SpawnError) : string :=
  match e with
  | SpSessionNotFound => "session not found"
  | SpInvalidArgv => "argv is empty"
  | SpArgvNotAbsolute => "argv[0] must be an absolute path: the daemon clears the environment and does not search PATH, so pass a full path (for example /usr/bin/foot, or $(command -v foot))"
  | SpArgvTooLarge => "argv too large: at most " +:+ pretty MAX_ARGV_LEN
                      +:+ " elements, each at most " +:+ pretty MAX_ARGV_ELEM_BYTES +:+ " bytes"
  end.

Definition error_string (e : any_error) : string :=
  match e with
  | ErrCreate c => create_error_string c
  | ErrDestroy DeNotFound => "session not found"
  | ErrSpawn s => spawn_error_string s
  | ErrCtl ScNotFound => "session not found"
  | ErrCtl (ScFailed m) => "session control call failed: " +:+ m
  | ErrResize (RzRejected m) => "resize rejected: " +:+ m
  | ErrTag TwWindowNotFound => "window not found in session"
  | ErrScreenshot (ShFailed m) => "screenshot failed: " +:+ m
  | ErrMsg m => m
  end.

Section errors.
Context `{MsgPack}.

Definition coded (c : ErrorCode) (e : any_error) : ResponseError :=
  response_error_new c (error_string e).

Definition map_create_err (e : any_error) : ResponseError :=
  match e with
  | ErrCreate CeAlreadyExists => coded AlreadyExists e
  | ErrCreate CeInvalidName => coded BadRequest e
  | ErrCreate CeInvalidSize => coded BadRequest e
  | _ => coded Internal e
  end.

Definition map_destroy_err (e : any_error) : ResponseError :=
  match e with
  | ErrDestroy DeNotFound => coded NotFound e
  | _ => coded Internal e
  end.

Definition map_spawn_err (e : any_error) : ResponseError :=
  match e with
  | ErrSpawn SpSessionNotFound => coded NotFound e
  | ErrSpawn SpInvalidArgv => coded BadRequest e
  | ErrSpawn SpArgvNotAbsolute => coded BadRequest e
  | ErrSpawn SpArgvTooLarge => coded BadRequest e
  | _ => coded Internal e
  end.

Definition map_session_ctl_err (e : any_error) : ResponseError :=
  match e with
  | ErrCtl ScNotFound => coded NotFound e
  | ErrCtl (ScFailed _) => coded Internal e
  | _ => coded Internal e
  end.

Definition map_resize_err (e : any_error) : ResponseError :=
  match e with
  | ErrCtl ScNotFound => coded NotFound e
  | ErrResize _ => coded ResizeRejected e
  | _ => coded Internal e
  end.

Definition map_screenshot_err (e : any_error) : ResponseError :=
  match e with
  | ErrCtl ScNotFound => coded NotFound e
  | ErrScreenshot _ => coded NotFound e
  | _ => coded Internal e
  end.

Definition map_tag_err (e : any_error) : ResponseError :=
  match e with
  | ErrCtl ScNotFound => coded NotFound e
  | ErrTag _ => coded NotFound e
  | _ => coded Internal e
  end.

Definition internal_err (id : Z) (err : string) : Response :=
  failure id (response_error_new Internal err).
End errors.

(** ** Topics *)

Definition any_topic (f : string -> bool) (topics : list string) : bool := existsb f topics.

Definition topic_is (s : string) (t : string) : bool := (t =? s)%string.

(** ["damage"] or ["damage:<name>"]. *)
Definition topic_or_named (topic name t : string) : bool :=
  (t =? topic)%string ||
  match str_strip_prefix (topic +:+ ":") t with
  | Some suffix => (suffix =? name)%string
  | None => false
  end.

Definition topic_matches (event : Event) (topics : list string) : bool :=
  match topics with
  | [] => false
  | _ =>
      match ev_body event with
      | Ev.SessionCreated _ | Ev.SessionDestroyed _ _ | Ev.SessionCrashed _ _ _
      | Ev.Occluded _ _ | Ev.ChildExited _ _ _ => any_topic (topic_is "sessions") topics
      | Ev.WindowCreated _ _ _ _ _ | Ev.WindowDestroyed _ _ | Ev.WindowChanged _ _ _ =>
          any_topic (topic_is "windows") topics
      | Ev.Damage name _ _ => any_topic (topic_or_named "damage" name) topics
      | Ev.Log name _ _ => any_topic (topic_or_named "logs" name) topics
      end
  end.

(** ** A connection *)

Section connection.
Context `{Env} `{Wire} `{SessionBackend}.

Inductive Outgoing :=
| OutResponse (r : Response)
| OutEvent (e : Event).

(** A forwarder: its topics and how far it has read the broadcast channel. *)
Record forwarder := { fw_pos : nat; fw_topics : list string }.

(** The connection with the registry it works on: the queue to the writer task
    (everything sent on it so far), whether the writer is still there, whether
    hello was answered, and the current forwarder. *)
Record cstate := {
  c_inner : Inner;
  c_out : list Outgoing;
  c_writer : bool;
  c_negotiated : bool;
  c_forwarder : option forwarder;
}.

(** What stops a task short of an answer: a panic, or a wait that never ends. *)
Inductive halt := Panicked | Waiting.

Abbreviation C := (Eff (cstate * trace) halt).

Definition set_c_inner (i : Inner) (c : cstate) : cstate :=
  {| c_inner := i; c_out := c_out c; c_writer := c_writer c; c_negotiated := c_negotiated c;
     c_forwarder := c_forwarder c |}.
Definition push_out (o : Outgoing) (c : cstate) : cstate :=
  {| c_inner := c_inner c; c_out := c_out c ++ [o]; c_writer := c_writer c;
     c_negotiated := c_negotiated c; c_forwarder := c_forwarder c |}.
Definition set_negotiated (b : bool) (c : cstate) : cstate :=
  {| c_inner := c_inner c; c_out := c_out c; c_writer := c_writer c; c_negotiated := b;
     c_forwarder := c_forwarder c |}.
Definition set_forwarder (f : option forwarder) (c : cstate) : cstate :=
  {| c_inner := c_inner c; c_out := c_out c; c_writer := c_writer c;
     c_negotiated := c_negotiated c; c_forwarder := f |}.

(** Run a registry operation on the shared registry. *)
Definition on_registry {A} (m : R A) : C (result A any_error) := fun '(c, t) =>
  let '((i', t'), r) := m (c_inner c, t) in ((set_c_inner i' c, t'), Ok r).

(** [out_tx.send(..)]: false when the writer is gone. *)
Definition send (o : Outgoing) : C bool := fun '(c, t) =>
  if c_writer c then ((push_out o c, t), Ok true) else ((c, t), Ok false).

(** [Response::success(..).unwrap_or_else(internal_err)]. *)
Definition respond {T} `{Serde T} (id : Z) (v : T) : C Response :=
  match success id v with
  | None => lift (Err Panicked)
  | Some (Ok r) => mret r
  | Some (Err e) => mret (internal_err id e)
  end.

(** The common arm: run, answer with the (converted) value or a mapped error. *)
Definition answer_with {A T} `{Serde T} (id : Z) (m : R A) (conv : A -> T)
    (map_err : any_error -> ResponseError) : C Response :=
  r ← on_registry m;
  match r with
  | Ok v => respond id (conv v)
  | Err e => mret (failure id (map_err e))
  end.

Definition unit_result {A} (_ : A) : UnitResult := Build_UnitResult.

Definition handle_hello_gate (request : Request) : C Response :=
  let id := rq_id request in
  match rq_method request with
  | Req.Hello client_protocol =>
      if (client_protocol =? 0) || (CURRENT_PROTOCOL_VERSION <? client_protocol) then
        mret (failure id (response_error_new ProtoVersion
          ("client protocol " +:+ pretty client_protocol +:+ " not supported (server: "
           +:+ pretty CURRENT_PROTOCOL_VERSION +:+ ")")))
      else
        modify (set_negotiated true) ;;
        respond id {| hr_server_protocol := CURRENT_PROTOCOL_VERSION;
                      hr_capabilities := ["subscribe"; "spawn"]%string |}
  | _ => mret (failure id (response_error_new ProtoVersion "first request must be hello"))
  end.

(** *** subscribe *)

(** Send the retained log lines of a session; stops when the writer is gone. *)
Fixpoint send_logs (name : string) (lines : list (string * string)) : C unit :=
  match lines with
  | [] => mret ()
  | (stream, text) :: lines =>
      ok ← send (OutEvent (event_new (Ev.Log name stream text)));
      if (ok : bool) then send_logs name lines else mret ()
  end.

Definition replay_session (name : string) : C unit :=
  r ← on_registry (replay_logs name);
  match r with
  | Ok lines => send_logs name lines
  | Err _ => mret ()
  end.

Definition replay_topic (topic : string) : C unit :=
  match str_strip_prefix "logs:" topic with
  | Some session => replay_session session
  | None => mret ()
  end ;;
  if (topic =? "logs")%string then
    r ← on_registry list_sessions;
    match r with
    | Ok infos => for_each (si_name <$> infos) replay_session
    | Err _ => mret ()
    end
  else mret ().

Definition subscribe (id : Z) (topics : list string) : C Response :=
  modify (set_forwarder None) ;;
  c ← get;
  let rx := length (i_events (c_inner c)) in
  for_each topics replay_topic ;;
  modify (set_forwarder (Some {| fw_pos := rx; fw_topics := topics |})) ;;
  respond id (unit_result tt).

(** One receive of the forwarder: it ends (and is dropped) when it has fallen
    more than the channel's capacity behind. *)
Definition event_forwarder_step : C unit := fun '(c, t) =>
  match c_forwarder c with
  | None => ((c, t), Ok ())
  | Some f =>
      let evs := i_events (c_inner c) in
      if (EVENT_CHANNEL_CAPACITY <? length evs - fw_pos f)%nat
      then ((set_forwarder None c, t), Ok ())
      else
        match evs !! fw_pos f with
        | None => ((c, t), Ok ())
        | Some e =>
            let c' := set_forwarder (Some {| fw_pos := S (fw_pos f); fw_topics := fw_topics f |}) c in
            if topic_matches e (fw_topics f)
            then if c_writer c then ((push_out (OutEvent e) c', t), Ok ())
                 else ((set_forwarder None c, t), Ok ())
            else ((c', t), Ok ())
        end
  end.

(** *** dispatch *)

Definition method_name (m : Req.RequestMethod) : string :=
  match m with
  | Req.Hello _ => "hello"
  | Req.ListSessions => "list_sessions"
  | Req.CreateSession _ => "create_session"
  | Req.DestroySession _ => "destroy_session"
  | Req.Attach _ => "attach"
  | Req.Detach _ => "detach"
  | Req.Resize _ _ _ => "resize"
  | Req.Spawn _ _ _ _ => "spawn"
  | Req.ListWindows _ => "list_windows"
  | Req.TagWindow _ _ _ => "tag_window"
  | Req.Screenshot _ _ _ => "screenshot"
  | Req.ScreenshotDesktop _ _ => "screenshot_desktop"
  | Req.WaitForIdle _ _ _ => "wait_for_idle"
  | Req.Subscribe _ => "subscribe"
  | Req.InjectKey _ _ _ _ => "inject_key"
  | Req.InjectPointer _ _ _ _ _ _ _ _ _ => "inject_pointer"
  | Req.InjectBatch _ _ => "inject_batch"
  | Req.InjectSelector _ _ _ _ _ => "inject_selector"
  | Req.InjectTouch _ _ _ _ _ _ _ => "inject_touch"
  | Req.RecordStart _ _ _ _ _ _ => "record_start"
  | Req.RecordStop _ => "record_stop"
  | Req.RecordStatus _ => "record_status"
  | Req.StreamLogs _ _ => "stream_logs"
  | Req.ViewerStart _ _ _ => "viewer_start"
  | Req.ViewerStop _ => "viewer_stop"
  | Req.ViewerStatus _ => "viewer_status"
  end.

Definition create_request (p : CreateSessionParams) : CreateRequest :=
  {| crq_name := csp_name p; crq_width := csp_width p; crq_height := csp_height p;
     crq_scale := csp_scale p; crq_env := csp_env p;
     crq_share_clipboard := csp_share_clipboard p; crq_share_audio := csp_share_audio p;
     crq_mem_cap_mb := csp_mem_cap_mb p; crq_cpu_cap_pct := csp_cpu_cap_pct p;
     crq_disk_quota_mb := csp_disk_quota_mb p; crq_fd_limit := csp_fd_limit p;
     crq_api_key_id := csp_api_key_id p |}.

(** The polls of a [wait_for_idle] request. *)
Definition idle_fuel (timeout_ms : Z) : nat := Z.to_nat (timeout_ms / 10) + 2.

Definition wait_idle_arm (id : Z) (name : string) (quiet_ms timeout_ms : Z) : C Response :=
  r ← on_registry (wait_for_idle (idle_fuel timeout_ms) name quiet_ms timeout_ms);
  match r with
  | Ok (Some idle) => respond id {| wfi_idle := idle |}
  | Ok None => lift (Err Waiting)
  | Err e => mret (failure id (map_session_ctl_err e))
  end.

Definition not_implemented (id : Z) (msg : string) : C Response :=
  mret (failure id (response_error_new NotImplemented msg)).

Definition dispatch (id : Z) (method : Req.RequestMethod) : C Response :=
  match method with
  | Req.Hello _ =>
      mret (failure id (response_error_new ProtoVersion "hello already completed"))
  | Req.ListSessions => answer_with id list_sessions (fun s => s) map_session_ctl_err
  | Req.CreateSession params =>
      answer_with id (backend_create (create_request params)) (fun r => r) map_create_err
  | Req.Attach name =>
      answer_with id (attach name) (fun p => {| ar_attach_socket_path := path_display p |})
        map_session_ctl_err
  | Req.Detach name => answer_with id (detach name) unit_result map_session_ctl_err
  | Req.DestroySession name =>
      answer_with id (backend_destroy name) unit_result map_destroy_err
  | Req.Subscribe topics => subscribe id topics
  | Req.Spawn name argv env compositor =>
      answer_with id (spawn_child name argv env compositor) Build_SpawnResult map_spawn_err
  | Req.ListWindows name => answer_with id (list_windows name) (fun w => w) map_session_ctl_err
  | Req.Resize name width height =>
      answer_with id (resize name width height) unit_result map_resize_err
  | Req.TagWindow name window_id tags =>
      answer_with id (tag_window name window_id tags) unit_result map_tag_err
  | Req.WaitForIdle name quiet_ms timeout_ms => wait_idle_arm id name quiet_ms timeout_ms
  | Req.InjectKey name keycode state modifiers =>
      answer_with id (inject_key name keycode state modifiers) unit_result map_session_ctl_err
  | Req.InjectPointer name x y button state axis_x axis_y window_id content =>
      answer_with id (inject_pointer name x y button state axis_x axis_y window_id content)
        unit_result map_session_ctl_err
  | Req.InjectBatch name ops =>
      answer_with id (inject_batch name ops) unit_result map_session_ctl_err
  | Req.InjectTouch name touch_id x y phase window_id content =>
      answer_with id (inject_touch name touch_id x y phase window_id content)
        unit_result map_session_ctl_err
  | Req.RecordStart name path codec secondary_codec mode min_fps =>
      answer_with id (record_start name path codec secondary_codec mode min_fps)
        (fun r => r) map_session_ctl_err
  | Req.RecordStop name => answer_with id (record_stop name) unit_result map_session_ctl_err
  | Req.RecordStatus name =>
      answer_with id (record_status name) (fun r => r) map_session_ctl_err
  | Req.ViewerStart session bind port =>
      answer_with id (viewer_start session bind port) (fun r => r) map_session_ctl_err
  | Req.ViewerStop session =>
      answer_with id (viewer_stop session) unit_result map_session_ctl_err
  | Req.ViewerStatus session =>
      answer_with id (viewer_status session) (fun r => r) map_session_ctl_err
  | Req.Screenshot name window_id _ =>
      match window_id with
      | None => not_implemented id "whole-output screenshots are a v2 concern (the protocol spec Q3)"
      | Some wid => answer_with id (screenshot name wid) (fun r => r) map_screenshot_err
      end
  | Req.ScreenshotDesktop name _ =>
      answer_with id (screenshot_desktop name) (fun r => r) map_screenshot_err
  | Req.InjectSelector _ _ _ _ _ =>
      not_implemented id "inject_selector is a reserved slot: resolve the target with `windows` (or `wait`) and inject with an explicit window_id"
  | Req.StreamLogs _ _ => not_implemented id (method_name method +:+ " not implemented yet")
  end.

(** *** The reader and writer tasks *)

Definition handle_request (request : Request) : C Response :=
  c ← get;
  if negb (c_negotiated c) then handle_hello_gate request
  else dispatch (rq_id request) (rq_method request).

(** How the reader ends. *)
Inductive reader_end :=
| EndEof
| EndMalformed (e : DecodeError)
| EndReadError (e : read_error)
| EndWriterGone.

(** The loop over the frames of the stream; each takes at least four bytes. *)
Fixpoint reader_loop (fuel : nat) (s : stream) : C (option reader_end) :=
  match fuel with
  | O => mret None
  | S fuel =>
      match read_frame s with
      | (_, Err e) => mret (Some (EndReadError e))
      | (_, Ok None) => mret (Some EndEof)
      | (s', Ok (Some frame)) =>
          match decode_frame frame with
          | Err e => mret (Some (EndMalformed e))
          | Ok request =>
              response ← handle_request request;
              ok ← send (OutResponse response);
              if (ok : bool) then reader_loop fuel s' else mret (Some EndWriterGone)
          end
      end
  end.

Definition reader_task (s : stream) : C (option reader_end) :=
  r ← reader_loop (S (length (st_bytes s))) s;
  modify (set_forwarder None) ;;
  mret r.

(** The writer: frames for the queued messages, up to the first that cannot be
    encoded or written ([accepts] bytes are taken by the socket). *)
Fixpoint writer_task (accepts : nat) (queue : list Outgoing) : list Z :=
  match queue with
  | [] => []
  | msg :: queue =>
      let '(buf, res) :=
        match msg with
        | OutResponse r => encode_frame r []
        | OutEvent e => encode_frame e []
        end in
      match res with
      | Err _ => []
      | Ok _ =>
          if (length buf <=? accepts)%nat then buf ++ writer_task (accepts - length buf) queue
          else take accepts buf
      end
  end.
End connection.

(** [server::run]: a peer is served exactly when its credentials can be read and
    its uid is the daemon's. *)
Definition accept_peer (daemon_uid : Z) (peer_uid : result Z string) : bool :=
  match peer_uid with
  | Ok uid => uid =? daemon_uid
  | Err _ => false
  end.
