(* ===== verification/ServerProps.v ===== *)
(** * What a control connection does

    One response per request with its id and in order, nothing before hello, the
    error codes of caller mistakes, the topics of events, the forwarder and the
    log replay of [subscribe]. *)

From stdpp Require Import prelude list strings gmap pretty.
From Stdlib Require Import ZArith Lia Ascii.
From S2P Require Import Prelude Words Codec Messages Sys Quota.
From S2P Require Import Registry RegistryOps RegistryInv RegistryProps RegistryIdle Server.

Open Scope Z_scope.

(** ** Topics *)

(** The topics that select an event. *)
Definition event_topics (e : Event) : list string :=
  match ev_body e with
  | Ev.SessionCreated _ | Ev.SessionDestroyed _ _ | Ev.SessionCrashed _ _ _
  | Ev.Occluded _ _ | Ev.ChildExited _ _ _ => ["sessions"%string]
  | Ev.WindowCreated _ _ _ _ _ | Ev.WindowDestroyed _ _ | Ev.WindowChanged _ _ _ =>
      ["windows"%string]
  | Ev.Damage name _ _ => ["damage"; "damage:" +:+ name]%string
  | Ev.Log name _ _ => ["logs"; "logs:" +:+ name]%string
  end.

Lemma topic_is_spec s t : topic_is s t = true <-> t = s.
Proof. unfold topic_is. apply String.eqb_eq. Qed.

Lemma topic_or_named_spec topic name t :
  topic_or_named topic name t = true <->
  t = topic \/ t = ((topic +:+ ":") +:+ name)%string.
Proof.
  unfold topic_or_named. rewrite orb_true_iff, String.eqb_eq.
  destruct (str_strip_prefix _ t) as [sfx|] eqn:E.
  - apply str_strip_prefix_app in E as ->. rewrite String.eqb_eq. split.
    + intros [?| ->]; auto.
    + intros [?|E]; [auto|]. right. by apply (inj _) in E.
  - split; [naive_solver|]. intros [?| ->]; [auto|].
    assert (str_strip_prefix (topic +:+ ":") ((topic +:+ ":") +:+ name) = Some name) as E'
      by (by apply str_strip_prefix_app). congruence.
Qed.

Lemma any_topic_spec f topics : any_topic f topics = true <-> exists t, t ∈ topics /\ f t = true.
Proof.
  unfold any_topic. rewrite existsb_exists. setoid_rewrite list_elem_of_In. done.
Qed.

(** An event reaches a subscriber exactly when one of its topics is among
    those subscribed to: ["sessions"], ["windows"], and for damage and logs
    either the bare topic or the one with this session's name; a
    ["logs:<name>"] subscription never delivers another session's lines. *)
Theorem topic_matches_spec e topics :
  topic_matches e topics = true <-> exists t, t ∈ topics /\ t ∈ event_topics e.
Proof.
  assert (G : forall f (ts : list string), (forall t, f t = true <-> t ∈ ts) ->
    any_topic f topics = true <-> exists t, t ∈ topics /\ t ∈ ts).
  { intros f ts Hf. rewrite any_topic_spec. by setoid_rewrite Hf. }
  destruct topics as [|t0 ts]; [cbn; split; [done|]; set_solver|].
  unfold topic_matches, event_topics.
  destruct (ev_body e); apply G; intros t;
    rewrite ?topic_is_spec, ?topic_or_named_spec; set_solver.
Qed.

Section connection.
Context `{Env} `{Wire} `{!WireOk} `{SessionBackend}.

Abbreviation C := (Eff (cstate * trace) halt).

(** The environment's clock advances by what is slept. *)
Definition clock_advances : Prop :=
  forall t, let start := answer Z t InstantMillis in
    clock_from (t ++ [Call InstantMillis start]) start.

(** A request leaves the connection open and may have queued events. *)
Definition answered (id : Z) (c : cstate) (r : Response) (c' : cstate) : Prop :=
  rs_id r = id /\ c_writer c' = c_writer c /\ c_negotiated c' = c_negotiated c /\
  exists evs, c_out c' = c_out c ++ (OutEvent <$> evs).

Lemma wp_on_registry {A} (m : R A) (Q : result A any_error -> cstate -> Prop) QE c :
  (forall r i', Q r (set_c_inner i' c)) -> wp (on_registry m) Q QE c.
Proof.
  intros HQ t. unfold on_registry. destruct (m (c_inner c, t)) as [[i' t'] r]. apply HQ.
Qed.

Lemma respond_eq {T} `{!Serde T} `{!WireLaws T} id (v : T) c t :
  exists r, respond id v (c, t) = ((c, t), Ok r) /\ rs_id r = id.
Proof.
  unfold respond. destruct (success_total id v) as [[r|e] Es]; rewrite Es; [|by eexists].
  exists r. split; [done|]. unfold success in Es.
  by destruct (to_value v) as [[]|]; simplify_eq.
Qed.

Lemma wp_respond {T} `{!Serde T} `{!WireLaws T} id (v : T) (Q : Response -> cstate -> Prop) QE c :
  (forall r, rs_id r = id -> Q r c) -> wp (respond id v) Q QE c.
Proof. intros HQ t. destruct (respond_eq id v c t) as (r & -> & Hr). auto. Qed.

Lemma answer_with_wp {A T} `{!Serde T} `{!WireLaws T} id (m : R A) (conv : A -> T) me c :
  wp (answer_with id m conv me) (answered id c) (fun _ _ => False) c.
Proof.
  unfold answer_with. apply wp_bind, wp_on_registry. intros [v|e] i'.
  - apply wp_respond. intros r Hr. split_and!; [done..|]. exists []. by rewrite app_nil_r.
  - apply wp_ret. split_and!; [done..|]. exists []. by rewrite app_nil_r.
Qed.

(** What a step that only queues events does. *)
Definition only_events (c c' : cstate) : Prop :=
  c_inner c' = c_inner c /\ c_writer c' = c_writer c /\ c_negotiated c' = c_negotiated c /\
  c_forwarder c' = c_forwarder c.

(** *** Replay *)

Definition log_events (name : string) (l : list (string * string)) : list Event :=
  (fun '(stream, text) => event_new (Ev.Log name stream text)) <$> l.

Definition history (i : Inner) (name : string) : list (string * string) :=
  match i_sessions i !! name with
  | Some e => default [] (i_logs i !! se_log_history e)
  | None => []
  end.

(** The events a topic replays. *)
Definition topic_history (i : Inner) (topic : string) : list Event :=
  match str_strip_prefix "logs:" topic with
  | Some session => log_events session (history i session)
  | None => []
  end ++
  (if (topic =? "logs")%string
   then concat ((fun n => log_events n (history i n)) <$>
          (si_name <$> (session_info <$> (map_to_list (i_sessions i)).*2)))
   else []).

Definition out_events (evs : list Event) (c : cstate) : cstate :=
  {| c_inner := c_inner c; c_out := c_out c ++ (OutEvent <$> evs); c_writer := c_writer c;
     c_negotiated := c_negotiated c; c_forwarder := c_forwarder c |}.

Lemma out_events_nil c : out_events [] c = c.
Proof. destruct c. unfold out_events. cbn. by rewrite app_nil_r. Qed.

Lemma out_events_app a b c : out_events b (out_events a c) = out_events (a ++ b) c.
Proof. unfold out_events. cbn. by rewrite fmap_app, app_assoc. Qed.

Lemma send_logs_eq name l : forall c t,
  c_writer c = true -> send_logs name l (c, t) = ((out_events (log_events name l) c, t), Ok ()).
Proof.
  induction l as [|[s x] l IH]; intros c t Hw; cbn [send_logs].
  { by rewrite out_events_nil. }
  unfold mbind, eff_mbind, send. rewrite Hw. cbv beta iota. rewrite IH by done.
  do 2 f_equal.
  change (push_out (OutEvent (event_new (Ev.Log name s x))) c)
    with (out_events [event_new (Ev.Log name s x)] c).
  by rewrite out_events_app.
Qed.

Lemma replay_session_eq name c t :
  c_writer c = true ->
  replay_session name (c, t) = ((out_events (log_events name (history (c_inner c) name)) c, t), Ok ()).
Proof.
  intros Hw. unfold replay_session, mbind, eff_mbind, on_registry, replay_logs, history.
  unfold mbind, eff_mbind, get. cbn [fst].
  assert (Ec : set_c_inner (c_inner c) c = c) by by destruct c.
  destruct (i_sessions (c_inner c) !! name) as [e|]; unfold mret, eff_mret; rewrite Ec;
    by apply send_logs_eq.
Qed.

Lemma for_each_events {A} (f : A -> C unit) (g : A -> list Event) (i : Inner) l : forall c t,
  (forall a c t, c_writer c = true -> c_inner c = i -> f a (c, t) = ((out_events (g a) c, t), Ok ())) ->
  c_writer c = true -> c_inner c = i ->
  for_each l f (c, t) = ((out_events (concat (g <$> l)) c, t), Ok ()).
Proof.
  induction l as [|a l IH]; intros c t Hf Hw Hi; cbn [for_each].
  { by rewrite out_events_nil. }
  unfold mbind, eff_mbind. rewrite Hf by done. rewrite IH by done.
  cbn. by rewrite out_events_app.
Qed.

Lemma replay_topic_eq topic c t :
  c_writer c = true ->
  replay_topic topic (c, t) = ((out_events (topic_history (c_inner c) topic) c, t), Ok ()).
Proof.
  intros Hw. unfold replay_topic, topic_history.
  set (h1 := match str_strip_prefix "logs:" topic with Some _ => _ | None => _ end : list Event).
  set (m1 := match str_strip_prefix "logs:" topic with Some _ => _ | None => _ end : C unit).
  assert (E1 : m1 (c, t) = ((out_events h1 c, t), Ok ())).
  { unfold m1, h1. destruct (str_strip_prefix "logs:" topic); [by apply replay_session_eq|].
    by rewrite out_events_nil. }
  erewrite eff_bind_ok by apply E1.
  destruct (topic =? "logs")%string; [|by rewrite app_nil_r].
  unfold mbind at 1, eff_mbind at 1, on_registry, list_sessions, mbind at 1, eff_mbind at 1, get.
  cbn [fst mret]. unfold mret, eff_mret.
  assert (Ec : set_c_inner (c_inner (out_events h1 c)) (out_events h1 c) = out_events h1 c) by done.
  rewrite Ec. rewrite <- out_events_app.
  apply (for_each_events _ _ (c_inner c)); [|done|done].
  intros a c0 t0 Hw0 <-. by apply replay_session_eq.
Qed.

(** Subscribing replays, before its own response, the retained log lines
    of every requested topic, in topic order and in order of arrival, and
    installs a forwarder (replacing any earlier one) that starts exactly at
    the events broadcast after the request; the registry is not touched. *)
Theorem subscribe_replay id topics c t :
  c_writer c = true ->
  exists r c', subscribe id topics (c, t) = ((c', t), Ok r) /\ rs_id r = id /\
    c_inner c' = c_inner c /\
    c_out c' = c_out c ++ (OutEvent <$> concat (topic_history (c_inner c) <$> topics)) /\
    c_forwarder c' = Some {| fw_pos := length (i_events (c_inner c)); fw_topics := topics |}.
Proof.
  intros Hw. unfold subscribe.
  erewrite eff_bind_ok by reflexivity. erewrite eff_bind_ok by reflexivity. cbn [fst].
  erewrite eff_bind_ok.
  2: { apply (for_each_events _ (topic_history (c_inner c)) (c_inner c)); [|done|done].
       intros a c0 t0 Hw0 <-. by apply replay_topic_eq. }
  erewrite eff_bind_ok by reflexivity.
  set (c1 := set_forwarder _ _).
  destruct (respond_eq id (unit_result tt) c1 t) as (r & E & Hr).
  exists r, c1. split; [exact E|]. done.
Qed.

(** *** One response per request *)

Lemma send_logs_wp name l : forall c,
  wp (send_logs name l) (fun _ c' => only_events c c' /\ exists evs, c_out c' = c_out c ++ (OutEvent <$> evs))
     (fun _ _ => False) c.
Proof.
  induction l as [|[s x] l IH]; intros c t; cbn [send_logs].
  { split; [done|]. exists []. by rewrite app_nil_r. }
  unfold mbind, eff_mbind, send. destruct (c_writer c) eqn:Hw.
  2: { cbn. split; [done|]. exists []. by rewrite app_nil_r. }
  cbv beta iota. specialize (IH (push_out (OutEvent (event_new (Ev.Log name s x))) c) t).
  destruct (send_logs _ _ _) as [[c' t'] [[]|]]; [|done].
  destruct IH as [Ho [evs Ee]]. split; [exact Ho|].
  exists (event_new (Ev.Log name s x) :: evs). rewrite Ee. cbn. by rewrite <- app_assoc.
Qed.

(** A replay changes nothing but the queue. *)
Definition queues (c c' : cstate) : Prop :=
  c_writer c' = c_writer c /\ c_negotiated c' = c_negotiated c /\
  exists evs, c_out c' = c_out c ++ (OutEvent <$> evs).

Lemma queues_refl c : queues c c.
Proof. split_and!; [done..|]. exists []. by rewrite app_nil_r. Qed.

Lemma queues_trans c1 c2 c3 : queues c1 c2 -> queues c2 c3 -> queues c1 c3.
Proof.
  intros (? & ? & e1 & E1) (? & ? & e2 & E2). split_and!; [congruence..|].
  exists (e1 ++ e2). by rewrite E2, E1, fmap_app, app_assoc.
Qed.

Lemma replay_session_wp name c :
  wp (replay_session name) (fun _ => queues c) (fun _ _ => False) c.
Proof.
  unfold replay_session. apply wp_bind, wp_on_registry. intros [l|e] i'.
  - eapply wp_conseq; [apply send_logs_wp | | done].
    intros ? c' [(_ & Hw & Hn & _) Ho]. by split_and!.
  - apply wp_ret. split_and!; [done..|]. exists []. by rewrite app_nil_r.
Qed.

Lemma for_each_queues {A} (f : A -> C unit) l : forall c0 c,
  (forall a c, wp (f a) (fun _ => queues c) (fun _ _ => False) c) ->
  queues c0 c -> wp (for_each l f) (fun _ => queues c0) (fun _ _ => False) c.
Proof.
  induction l as [|a l IH]; intros c0 c Hf Hq; cbn [for_each]; [by apply wp_ret|].
  apply wp_bind. eapply wp_conseq; [apply Hf | | done].
  intros ? c' Hq'. apply IH; [done|]. by eapply queues_trans.
Qed.

Lemma replay_topic_wp topic c :
  wp (replay_topic topic) (fun _ => queues c) (fun _ _ => False) c.
Proof.
  unfold replay_topic. apply wp_bind.
  eapply (wp_conseq _ (fun _ => queues c) _ (fun _ _ => False)); [| | done].
  { destruct (str_strip_prefix "logs:" topic); [apply replay_session_wp|].
    apply wp_ret, queues_refl. }
  intros ? c1 Hq. destruct (topic =? "logs")%string; [|by apply wp_ret].
  apply wp_bind, wp_on_registry. intros [infos|e] i'; [|by apply wp_ret].
  apply for_each_queues; [intros; apply replay_session_wp|]. exact Hq.
Qed.

Lemma subscribe_wp id topics c :
  wp (subscribe id topics) (answered id c) (fun _ _ => False) c.
Proof.
  unfold subscribe. do 5 wp_step.
  eapply wp_conseq; [apply (for_each_queues _ _ c); [intros; apply replay_topic_wp | exact (queues_refl c)] | | done].
  intros ? c' (Hw & Hn & He). do 2 wp_step. apply wp_respond. intros r Hr. by split_and!.
Qed.

Lemma wait_idle_wp id name q tm c :
  clock_advances -> 0 <= tm ->
  wp (wait_idle_arm id name q tm) (answered id c) (fun _ _ => False) c.
Proof.
  intros Hc Ht t. unfold wait_idle_arm, mbind, eff_mbind, on_registry.
  assert (Hf : tm / 10 + 1 < Z.of_nat (idle_fuel tm)).
  { unfold idle_fuel. pose proof (Z.div_pos tm 10 Ht ltac:(lia)). lia. }
  pose proof (wait_for_idle_answers name q tm (c_inner c) t (idle_fuel tm) (Hc t) Ht Hf) as A.
  destruct (wait_for_idle _ _ _ _ _) as [[i' t'] [[idle|]|e]]; [|done|].
  - destruct (respond_eq id {| wfi_idle := idle |} (set_c_inner i' c) t') as (r & -> & Hr).
    split_and!; [done..|]. exists []. by rewrite app_nil_r.
  - cbn. split_and!; [done..|]. exists []. by rewrite app_nil_r.
Qed.

(** Timeouts are unsigned on the wire. *)
Definition method_ok (m : Req.RequestMethod) : Prop :=
  match m with Req.WaitForIdle _ _ timeout_ms => 0 <= timeout_ms | _ => True end.

Lemma dispatch_wp id m c :
  clock_advances -> method_ok m -> wp (dispatch id m) (answered id c) (fun _ _ => False) c.
Proof.
  intros Hc Hm.
  assert (F : forall e, answered id c (failure id e) c).
  { intros e. split_and!; [done..|]. exists []. by rewrite app_nil_r. }
  destruct m; cbn [dispatch]; try apply answer_with_wp; try (apply wp_ret, F).
  - destruct window_id; [apply answer_with_wp | apply wp_ret, F].
  - by apply wait_idle_wp.
  - apply subscribe_wp.
Qed.

Lemma handle_hello_gate_wp rq c :
  wp (handle_hello_gate rq)
     (fun r c' => rs_id r = rq_id rq /\ c_inner c' = c_inner c /\ c_out c' = c_out c /\
        c_writer c' = c_writer c /\ c_forwarder c' = c_forwarder c /\
        (c_negotiated c' = c_negotiated c /\ rs_ok r = false /\
           (exists e, rs_error r = Some e /\ re_code e = ProtoVersion) /\
           (forall v, rq_method rq = Req.Hello v -> v = 0 \/ CURRENT_PROTOCOL_VERSION < v)
         \/ c_negotiated c' = true /\
           exists v, rq_method rq = Req.Hello v /\ v <> 0 /\ v <= CURRENT_PROTOCOL_VERSION))
     (fun _ _ => False) c.
Proof.
  unfold handle_hello_gate. cbv zeta.
  destruct (rq_method rq) eqn:Em;
    try (apply wp_ret; split_and!; try done; left; split_and!; try done; by eexists).
  destruct ((client_protocol =? 0) || (CURRENT_PROTOCOL_VERSION <? client_protocol)) eqn:B.
  - apply wp_ret. split_and!; try done. left. split_and!; try done; [by eexists|].
    intros v [= ->]. apply orb_true_iff in B as [B|B]; boolz; auto.
  - do 2 wp_step. apply wp_respond. intros r Hr. split_and!; try done. right. split; [done|].
    boolz. eauto.
Qed.

(** C38: before hello, no request does anything: the registry is untouched, no
    event is queued, no call is made, and every answer except to an acceptable
    hello is an error with the protocol-version code; the connection is
    negotiated exactly by a hello of version 1 up to the current one. *)
Theorem hello_gate rq c t :
  c_negotiated c = false ->
  exists r c', handle_request rq (c, t) = ((c', t), Ok r) /\ rs_id r = rq_id rq /\
    c_inner c' = c_inner c /\ c_out c' = c_out c /\
    (c_negotiated c' = true <->
       exists v, rq_method rq = Req.Hello v /\ v <> 0 /\ v <= CURRENT_PROTOCOL_VERSION) /\
    (c_negotiated c' = false ->
       rs_ok r = false /\ exists e, rs_error r = Some e /\ re_code e = ProtoVersion).
Proof.
  intros Hn. unfold handle_request, mbind at 1, eff_mbind at 1, get. cbn [fst].
  rewrite Hn. cbn [negb].
  assert (Ht : (handle_hello_gate rq (c, t)).1.2 = t).
  { unfold handle_hello_gate. cbv zeta. destruct (rq_method rq); try done.
    destruct (_ || _); [done|]. erewrite eff_bind_ok by reflexivity.
    edestruct (respond_eq (rq_id rq) {| hr_server_protocol := CURRENT_PROTOCOL_VERSION;
      hr_capabilities := ["subscribe"; "spawn"]%string |}) as (r & -> & _). done. }
  pose proof (handle_hello_gate_wp rq c t) as W.
  destruct (handle_hello_gate rq (c, t)) as [[c' t'] [r|]]; [|done]. cbn in Ht. subst t'.
  destruct W as (Hr & Hi & Ho & _ & _ & [(Hneg & Hok & He & Hv) | (Hneg & Hv)]);
    exists r, c'; (split_and!; [done..| |]).
  - rewrite Hneg, Hn. split; [done|]. intros (v & Em & ? & ?). destruct (Hv v Em); lia.
  - done.
  - done.
  - rewrite Hneg. done.
Qed.

Definition responses (out : list Outgoing) : list Response :=
  omap (fun o => match o with OutResponse r => Some r | OutEvent _ => None end) out.

Lemma responses_events out evs : responses (out ++ (OutEvent <$> evs)) = responses out.
Proof.
  unfold responses. rewrite omap_app.
  assert (omap (fun o => match o with OutResponse r => Some r | OutEvent _ => None end)
    (OutEvent <$> evs) = []) as ->; [|by rewrite app_nil_r].
  induction evs; done.
Qed.

(** One request: answered with its id, the writer stays. *)
Lemma handle_request_wp rq c :
  clock_advances -> method_ok (rq_method rq) ->
  wp (handle_request rq)
     (fun r c' => rs_id r = rq_id rq /\ c_writer c' = c_writer c /\
        responses (c_out c') = responses (c_out c)) (fun _ _ => False) c.
Proof.
  intros Hc Hm. unfold handle_request. do 2 wp_step. destruct (c_negotiated c) eqn:Hn; cbn [negb].
  - eapply wp_conseq; [by apply dispatch_wp | | done].
    intros r c' (Hr & Hw & _ & evs & Ho). split_and!; [done..|]. by rewrite Ho, responses_events.
  - eapply wp_conseq; [by apply handle_hello_gate_wp | | done].
    intros r c' (Hr & _ & Ho & Hw & _). by rewrite Ho.
Qed.

Lemma reader_loop_requests rqs : forall out bytes fuel c t,
  clock_advances -> Forall (fun rq => method_ok (rq_method rq)) rqs ->
  encode_all rqs out = (bytes, Ok ()) -> c_writer c = true -> (length rqs < fuel)%nat ->
  exists sfx c' t', bytes = out ++ sfx /\ (length rqs <= length sfx)%nat /\
    reader_loop fuel (Stream sfx Eof) (c, t) = ((c', t'), Ok (Some EndEof)) /\
    rs_id <$> responses (c_out c') = (rs_id <$> responses (c_out c)) ++ (rq_id <$> rqs).
Proof.
  induction rqs as [|rq rqs IH]; intros out bytes fuel c t Hc Hm E Hw Hf.
  - injection E as <-. exists [], c, t. destruct fuel; [cbn in Hf; lia|].
    rewrite app_nil_r. split_and!; [done..|]. by rewrite app_nil_r.
  - cbn [encode_all] in E. unfold mbind, eff_mbind in E. rewrite encode_frame_eq in E.
    destruct (write_named rq) as [p [?|]] eqn:Ev; [done|].
    destruct (Z.ltb_spec MAX_FRAME_SIZE (len_z p)) as [L|L]; [done|].
    inversion Hm as [|? ? Hm0 Hm']; subst.
    destruct fuel as [|fuel]; [cbn in Hf; lia|]. cbn [length] in Hf.
    pose proof (handle_request_wp rq c Hc Hm0 t) as W.
    destruct (handle_request rq (c, t)) as [[c1 t1] [r|]] eqn:Eh; [|done].
    destruct W as (Hr & Hw1 & Ho1). rewrite Hw in Hw1.
    destruct (IH _ _ fuel (push_out (OutResponse r) c1) t1 Hc Hm' E Hw1 ltac:(lia))
      as (sfx & c' & t' & -> & Hl & Er & Hids).
    exists (frame_bytes p ++ sfx), c', t'. split_and!; [by rewrite app_assoc | | |].
    + unfold frame_bytes. rewrite !length_app, length_to_be. cbn [length]. lia.
    + cbn [reader_loop]. rewrite read_frame_bytes, decode_frame_bytes by done.
      rewrite (from_slice_write_named rq p Ev).
      erewrite eff_bind_ok by apply Eh.
      erewrite eff_bind_ok by (unfold send; rewrite Hw1; reflexivity). done.
    + rewrite Hids. cbn [push_out c_out]. unfold responses at 1. rewrite omap_app. cbn.
      fold (responses (c_out c1)). rewrite Ho1, fmap_app, <- app_assoc. cbn. by rewrite Hr.
Qed.

(** ** The writer *)

Definition encoded (o : Outgoing) : list Z :=
  match o with OutResponse r => (encode_frame r []).1 | OutEvent e => (encode_frame e []).1 end.

(** The message can be framed: its payload is at most [MAX_FRAME_SIZE] bytes. *)
Definition encodes (o : Outgoing) : Prop :=
  match o with
  | OutResponse r => (encode_frame r []).2 = Ok ()
  | OutEvent e => (encode_frame e []).2 = Ok ()
  end.

(** What reached a socket that takes [accepts] bytes out of a queue: the frames of the first
    [n] messages whole, and then either nothing is missing, or the next message cannot be
    framed, or the socket took only [partial] of its frame. *)
Definition written (accepts : nat) (queue : list Outgoing) (n : nat) (partial bytes : list Z) : Prop :=
  bytes = concat (encoded <$> take n queue) ++ partial /\ Forall encodes (take n queue) /\
  match queue !! n with
  | None => partial = [] /\ n = length queue
  | Some o =>
      (partial = [] /\ ~ encodes o) \/
      (length bytes = accepts /\ exists rest, encoded o = partial ++ rest /\ rest <> [])
  end.

Lemma writer_task_cons o q accepts :
  writer_task accepts (o :: q) =
  match (match o with OutResponse r => encode_frame r [] | OutEvent e => encode_frame e [] end).2 with
  | Err _ => []
  | Ok _ => if (length (encoded o) <=? accepts)%nat then encoded o ++ writer_task (accepts - length (encoded o)) q
            else take accepts (encoded o)
  end.
Proof. cbn [writer_task]. destruct o; cbn [encoded]; by destruct (encode_frame _ []) as [? [?|]]. Qed.

Lemma writer_task_written q : forall accepts,
  exists n partial, written accepts q n partial (writer_task accepts q).
Proof.
  induction q as [|o q IH]; intros accepts; [by exists O, []|]. rewrite writer_task_cons.
  destruct ((match o with OutResponse r => _ | OutEvent e => _ end).2) as [[]|e] eqn:Eo.
  2: { exists O, []. split_and!; [done|constructor|]. left. split; [done|]. destruct o; cbn in *; by rewrite Eo. }
  assert (He : encodes o) by (by destruct o).
  destruct (Nat.leb_spec (length (encoded o)) accepts) as [Hl|Hl].
  - destruct (IH (accepts - length (encoded o))%nat) as (n & p & E & Hf & Hn). exists (S n), p.
    split_and!; [by rewrite E; cbn; rewrite <- app_assoc|by constructor|]. cbn [lookup list_lookup].
    change (list_lookup n q) with (q !! n). destruct (q !! n) as [o'|]; [|by destruct Hn as [-> ->]].
    destruct Hn as [?|[Hlen ?]]; [by left|right]. split; [rewrite length_app, Hlen; lia|done].
  - exists O, (take accepts (encoded o)). split_and!; [done|constructor|]. right.
    rewrite length_take. split; [lia|]. exists (drop accepts (encoded o)). rewrite take_drop.
    split; [done|]. intros Hd%(f_equal length). rewrite length_drop in Hd. cbn in Hd. lia.
Qed.

Lemma writer_task_all q (n : nat) :
  Forall encodes q -> (length (concat (encoded <$> q)) <= n)%nat -> writer_task n q = concat (encoded <$> q).
Proof.
  revert n. induction q as [|o q IH]; intros n He Hn; [done|].
  apply Forall_cons in He as [Ho He]. cbn [fmap list_fmap concat] in *. rewrite length_app in Hn.
  destruct o; cbn [writer_task encodes encoded] in *; (destruct (encode_frame _ []) as [buf res]; cbn [fst snd] in *; subst res;
    rewrite (proj2 (Nat.leb_le _ _)) by lia; rewrite IH by (done || lia); done).
Qed.

(** C7: the reader of a connection queues exactly one response per request, carrying its id
    and in the order of the requests, and then ends cleanly, whatever the requests are,
    whatever the environment answers and whatever the lifecycle backend does; provided that
    the clock advances, that a wait's timeouts are not negative, and that the writer's end of
    the queue is open while requests are handled. What the client gets of that queue is the
    frames of its first messages, whole: all of them when each can be framed (at most
    [MAX_FRAME_SIZE] bytes of payload) and the socket takes them all; otherwise the writer
    stops for good at the first message that is too large or that the socket does not take,
    and nothing behind that message is sent. *)
Theorem one_response_per_request rqs bytes c t :
  clock_advances -> Forall (fun rq => method_ok (rq_method rq)) rqs ->
  encode_all rqs [] = (bytes, Ok ()) -> c_writer c = true ->
  exists c' t', reader_task (Stream bytes Eof) (c, t) = ((c', t'), Ok (Some EndEof)) /\
    rs_id <$> responses (c_out c') = (rs_id <$> responses (c_out c)) ++ (rq_id <$> rqs) /\
    forall accepts,
      (exists n partial, written accepts (c_out c') n partial (writer_task accepts (c_out c'))) /\
      (Forall encodes (c_out c') -> (length (concat (encoded <$> c_out c')) <= accepts)%nat ->
       writer_task accepts (c_out c') = concat (encoded <$> c_out c')).
Proof.
  intros Hc Hm E Hw.
  destruct (reader_loop_requests rqs [] bytes (S (length rqs)) c t Hc Hm E Hw ltac:(lia))
    as (sfx & _ & _ & -> & Hl & _). cbn [app] in *.
  destruct (reader_loop_requests rqs [] sfx (S (length sfx)) c t Hc Hm E Hw ltac:(lia))
    as (sfx' & c' & t' & Es & _ & Er & Hids). cbn [app] in Es. subst sfx'.
  unfold reader_task. erewrite eff_bind_ok by apply Er.
  eexists _, t'. split; [reflexivity|]. split; [exact Hids|].
  intros accepts. split; [apply writer_task_written|apply writer_task_all].
Qed.
End connection.

(** ** Error codes *)

Section codes.
Context `{Env} `{Wire}.

Abbreviation C := (Eff (cstate * trace) halt).

(** The session a request is about, for the requests that look it up first. *)
Definition target (m : Req.RequestMethod) : option string :=
  match m with
  | Req.DestroySession n | Req.Attach n | Req.Detach n | Req.ListWindows n
  | Req.TagWindow n _ _ | Req.Screenshot n (Some _) _ | Req.ScreenshotDesktop n _
  | Req.WaitForIdle n _ _ | Req.InjectKey n _ _ _ | Req.InjectPointer n _ _ _ _ _ _ _ _
  | Req.InjectTouch n _ _ _ _ _ _ | Req.InjectBatch n _ | Req.RecordStart n _ _ _ _ _
  | Req.RecordStop n | Req.RecordStatus n | Req.ViewerStart n _ _ | Req.ViewerStop n
  | Req.ViewerStatus n => Some n
  | _ => None
  end.

Lemma control_unknown name method i t :
  i_sessions i !! name = None ->
  session_control name method (i, t) = ((i, t), Err (ErrCtl ScNotFound)).
Proof. intros E. unfold session_control, mbind, eff_mbind, get. cbn [fst]. by rewrite E. Qed.

Lemma ctl_unit_unknown name method i t :
  i_sessions i !! name = None ->
  ctl_unit name method (i, t) = ((i, t), Err (ErrCtl ScNotFound)).
Proof. intros E. unfold ctl_unit. by erewrite eff_bind_err by (by apply control_unknown). Qed.

Lemma ctl_typed_unknown {T} `{!Serde T} mk what name method i t :
  i_sessions i !! name = None ->
  ctl_typed (T := T) mk what name method (i, t) = ((i, t), Err (ErrCtl ScNotFound)).
Proof. intros E. unfold ctl_typed. by erewrite eff_bind_err by (by apply control_unknown). Qed.

Lemma list_windows_unknown name i t :
  i_sessions i !! name = None -> list_windows name (i, t) = ((i, t), Err (ErrCtl ScNotFound)).
Proof. intros E. unfold list_windows. by erewrite eff_bind_err by (by apply ctl_typed_unknown). Qed.

Lemma answer_with_err {A T} `{!Serde T} id (m : R A) (conv : A -> T) me c t t' e :
  m (c_inner c, t) = ((c_inner c, t'), Err e) ->
  answer_with id m conv me (c, t) = ((c, t'), Ok (failure id (me e))).
Proof.
  intros E. unfold answer_with, mbind, eff_mbind, on_registry. rewrite E.
  unfold mret, eff_mret. by destruct c.
Qed.

Lemma wait_unknown fuel name q tm i t :
  i_sessions i !! name = None ->
  exists t', wait_for_idle (S fuel) name q tm (i, t) = ((i, t'), Err (ErrCtl ScNotFound)).
Proof.
  intros E. unfold wait_for_idle, mbind at 1, eff_mbind at 1. rewrite sys_eq. cbv beta iota.
  cbn [idle_loop]. eexists. by erewrite eff_bind_err by (by apply ctl_typed_unknown).
Qed.

(** A request about a session that is not registered is answered with
    [E_NOT_FOUND], never with a server fault, and changes nothing of the
    registry; this holds for every method that addresses a session. *)
Theorem unknown_session_not_found id m name c t :
  target m = Some name -> i_sessions (c_inner c) !! name = None ->
  exists t' e, @dispatch _ _ _ LocalBackend id m (c, t) = ((c, t'), Ok (failure id e)) /\
    re_code e = NotFound.
Proof.
  intros Ht E.
  assert (G : forall A T (sT : Serde T) (r : R A) (conv : A -> T) me err,
    r (c_inner c, t) = ((c_inner c, t), Err err) -> re_code (me err) = NotFound ->
    exists t' e, answer_with id r conv me (c, t) = ((c, t'), Ok (failure id e)) /\ re_code e = NotFound).
  { intros A T sT r conv me err Er Hc. eexists _, (me err). split; [|done]. by apply answer_with_err. }
  destruct m; cbn [target] in Ht; try discriminate Ht; cbn [dispatch];
    try (injection Ht as ->);
    try (eapply G; [by apply ctl_unit_unknown | done]);
    try (eapply G; [by apply ctl_typed_unknown | done]);
    try (eapply G; [by apply list_windows_unknown | done]).
  - eapply G; [by cbn; unfold destroy, mbind, eff_mbind, get; cbn [fst]; rewrite E | done].
  - eapply G; [by unfold attach, mbind, eff_mbind, get; cbn [fst]; rewrite E | done].
  - eapply G; [by unfold detach, mbind, eff_mbind, get; cbn [fst]; rewrite E | done].
  - eapply G; [by unfold tag_window; erewrite eff_bind_err by (by apply list_windows_unknown) | done].
  - destruct window_id as [w|]; [|done]. injection Ht as ->.
    eapply G; [by apply ctl_typed_unknown | done].
  - unfold wait_idle_arm. replace (idle_fuel timeout_ms) with
      (S (Z.to_nat (timeout_ms / 10) + 1)) by (unfold idle_fuel; lia).
    destruct (wait_unknown (Z.to_nat (timeout_ms / 10) + 1) name quiet_ms timeout_ms
      (c_inner c) t E) as [t' Ew].
    unfold mbind, eff_mbind, on_registry. rewrite Ew. exists t', (map_session_ctl_err (ErrCtl ScNotFound)). split; [|done].
    unfold mret, eff_mret. by destruct c.
Qed.

(** A refused creation has the code of its cause: a bad name or size is
    [E_BAD_REQUEST], a taken name [E_ALREADY_EXISTS]; and the registry and the
    system are left alone. *)
Theorem create_session_codes id p c t :
  let reply code := exists e, @dispatch _ _ _ LocalBackend id (Req.CreateSession p) (c, t) =
    ((c, t), Ok (failure id e)) /\ re_code e = code in
  (validate_session_name (csp_name p) <> Ok () -> reply BadRequest) /\
  (validate_session_name (csp_name p) = Ok () ->
   validate_output_size (csp_width p) (csp_height p) <> Ok () -> reply BadRequest) /\
  (validate_session_name (csp_name p) = Ok () ->
   validate_output_size (csp_width p) (csp_height p) = Ok () ->
   is_Some (i_sessions (c_inner c) !! csp_name p) -> reply AlreadyExists).
Proof.
  cbn [dispatch].
  assert (G : forall err code,
    create_check (csp_name p) (csp_width p) (csp_height p) (c_inner c, t) =
      ((c_inner c, t), Err err) -> re_code (map_create_err err) = code ->
    exists e, answer_with id (backend_create (SessionBackend := LocalBackend) (create_request p))
      (fun r => r) map_create_err (c, t) = ((c, t), Ok (failure id e)) /\ re_code e = code).
  { intros err code Er Hc. exists (map_create_err err). split; [|done]. apply answer_with_err.
    cbn. unfold create. by erewrite eff_bind_err by apply Er. }
  unfold create_check, mbind, eff_mbind, lift, get in G. cbn [fst] in G. split_and!.
  - intros E. eapply G; [by rewrite (invalid_name_error _ E) | done].
  - intros En E. eapply G; [by rewrite En, (invalid_size_error _ _ E) | done].
  - intros En Es Hs. eapply G; [by rewrite En, Es, decide_True | done].
Qed.
End codes.

(** ** The forwarder *)

Section forwarder_props.
Context `{Env} `{Wire}.

Fixpoint forwarder_steps (n : nat) (s : cstate * trace) : cstate * trace :=
  match n with
  | O => s
  | S n => forwarder_steps n (event_forwarder_step s).1
  end.

Definition wanted (topics : list string) (evs : list Event) : list Event :=
  filter (fun e => Is_true (topic_matches e topics)) evs.

(** A subscriber that is not more than the channel capacity behind
    receives exactly the matching events broadcast since its subscription, each
    once and in order, and nothing else; one that has fallen further behind
    loses its forwarder, and only that: the connection stays open and keeps
    what it had queued. *)
Theorem forwarder_delivers c t f :
  c_forwarder c = Some f -> c_writer c = true ->
  let evs := i_events (c_inner c) in
  if decide (length evs - fw_pos f <= EVENT_CHANNEL_CAPACITY)%nat then
    forwarder_steps (length evs - fw_pos f) (c, t) =
    (set_forwarder (Some {| fw_pos := fw_pos f + (length evs - fw_pos f);
                            fw_topics := fw_topics f |})
       (out_events (wanted (fw_topics f) (drop (fw_pos f) evs)) c), t)
  else event_forwarder_step (c, t) = ((set_forwarder None c, t), Ok ()).
Proof.
  intros Hf Hw. cbv zeta. case_decide as Hlag.
  2: { unfold event_forwarder_step. rewrite Hf. by rewrite (proj2 (Nat.ltb_lt _ _)) by lia. }
  remember (length (i_events (c_inner c)) - fw_pos f)%nat as n eqn:En.
  revert c f Hf Hw Hlag En. induction n as [|n IH]; intros c [pos topics] Hf Hw Hlag En;
    cbn [fw_pos fw_topics] in *.
  { cbn. rewrite drop_ge by lia. unfold wanted. rewrite filter_nil. rewrite out_events_nil.
    rewrite Nat.add_0_r. rewrite <- Hf. by destruct c. }
  cbn [forwarder_steps]. unfold event_forwarder_step. rewrite Hf. cbn [fw_pos fw_topics].
  rewrite (proj2 (Nat.ltb_ge _ _)) by lia.
  destruct (lookup_lt_is_Some_2 (i_events (c_inner c)) pos) as [e Ee]; [lia|].
  rewrite Ee. rewrite (drop_S _ e pos) by done. unfold wanted. rewrite filter_cons.
  destruct (topic_matches e topics) eqn:Em.
  - rewrite Hw, decide_True by done. cbn [fst].
    rewrite (IH _ {| fw_pos := S pos; fw_topics := topics |}) by (done || (cbn; lia)).
    cbn [fw_pos fw_topics set_forwarder push_out c_inner].
    replace (S pos + n)%nat with (pos + S n)%nat by lia.
    unfold out_events, set_forwarder, push_out. cbn. by rewrite <- app_assoc.
  - rewrite decide_False by auto. cbn [fst].
    rewrite (IH _ {| fw_pos := S pos; fw_topics := topics |}) by (done || (cbn; lia)).
    cbn [fw_pos fw_topics set_forwarder c_inner].
    by replace (S pos + n)%nat with (pos + S n)%nat by lia.
Qed.
End forwarder_props.

(** ** Examples *)

(** A serializer that refuses every value; its laws hold vacuously. *)
Definition refuse {T} : Serde T := {|
  write_named (_ : T) := ([], Some "unsupported"%string);
  from_slice _ := Err "unsupported"%string;
|}.

Lemma refuse_serde {T} : @SerdeLaws T refuse.
Proof. split; cbn; [done | constructor]. Qed.

Lemma refuse_wire {T} : @WireLaws T demo_msgpack refuse.
Proof. split; [apply refuse_serde | done | done]. Qed.

(** Requests: a hello and a subscription, one byte each. *)
Definition demo_hello : Request := {| rq_id := 7; rq_method := Req.Hello 4 |}.
Definition demo_subscribe : Request := {| rq_id := 8; rq_method := Req.Subscribe [] |}.

Definition demo_rq_serde : Serde Request := {|
  write_named (r : Request) :=
    match r with
    | {| rq_id := 7; rq_method := Req.Hello 4 |} => ([1], None)
    | {| rq_id := 8; rq_method := Req.Subscribe [] |} => ([2], None)
    | _ => ([], Some "unsupported"%string)
    end;
  from_slice (l : list Z) :=
    match l with
    | [1] => Ok demo_hello
    | [2] => Ok demo_subscribe
    | _ => Err "unsupported"%string
    end;
|}.

Lemma demo_rq_laws : @SerdeLaws Request demo_rq_serde.
Proof.
  split.
  - intros v bytes. cbn. repeat (case_match; try discriminate); intros; simplify_eq; done.
  - intros v. cbn. repeat case_match; repeat constructor; done.
Qed.

Definition demo_wire : @Wire demo_msgpack := {|
  w_request := demo_rq_serde; w_response := refuse; w_event := refuse;
  w_ctl_request := demo_request_serde; w_ctl_response := demo_response_serde;
  w_ctl_windows := demo_windows_serde; w_ctl_info := busy_info_serde;
  w_screenshot := refuse; w_record_started := refuse; w_record_status := refuse;
  w_viewer_started := refuse; w_viewer_status := refuse; w_hello := refuse;
  w_sessions := refuse; w_created := refuse; w_attach := refuse; w_windows := refuse;
  w_unit := refuse; w_spawn := refuse; w_idle := refuse;
|}.

Lemma demo_wire_ok : @WireOk demo_msgpack demo_wire.
Proof. split; first [apply demo_rq_laws | apply refuse_serde | apply refuse_wire]. Qed.

Lemma idle_clock : @clock_advances idle_env.
Proof.
  intros t start u. unfold start.
  change (10 * sleeps t + 10 * sleeps u <=
    10 * sleeps ((t ++ [Call InstantMillis (10 * sleeps t)]) ++ u)).
  rewrite !sleeps_app. pose proof (sleeps_nonneg [Call InstantMillis (10 * sleeps t)]). lia.
Qed.

Definition demo_conn (i : Inner) (neg : bool) : @cstate demo_msgpack :=
  {| c_inner := i; c_out := []; c_writer := true; c_negotiated := neg; c_forwarder := None |}.

(** The demo session after its drainer has read one line. *)
Definition logged_inner : Inner :=
  (@log_line good_env 1 "demo" "stdout" "hi" demo_state).1.1.

Lemma subscribe_replay_witness :
  exists r c', @subscribe demo_msgpack demo_wire 9 ["logs:demo"]%string
      (demo_conn logged_inner true, []) = ((c', []), Ok r) /\
    c_out c' = [OutEvent (event_new (Ev.Log "demo" "stdout" "hi"))].
Proof.
  destruct (@subscribe_replay demo_msgpack demo_wire demo_wire_ok 9 ["logs:demo"]%string
    (demo_conn logged_inner true) [] eq_refl) as (r & c' & E & _ & _ & Ho & _).
  exists r, c'. split; [exact E|]. rewrite Ho. vm_compute. reflexivity.
Defined.

Lemma hello_gate_witness :
  exists r c', @handle_request good_env demo_msgpack demo_wire (@LocalBackend good_env) demo_subscribe
      (demo_conn demo_state.1 false, []) = ((c', []), Ok r) /\ rs_id r = 8 /\
    c_inner c' = demo_state.1 /\ c_negotiated c' = false.
Proof.
  destruct (@hello_gate good_env demo_msgpack demo_wire demo_wire_ok (@LocalBackend good_env)
    demo_subscribe (demo_conn demo_state.1 false) [] eq_refl) as (r & c' & E & Hr & Hi & _ & Hn & _).
  exists r, c'. split; [exact E|]. split; [exact Hr|]. split; [exact Hi|].
  destruct (c_negotiated c'); [|reflexivity].
  destruct (proj1 Hn eq_refl) as (v & Hv & _). discriminate Hv.
Defined.

Lemma one_response_per_request_witness :
  exists c' t', @reader_task idle_env demo_msgpack demo_wire (@LocalBackend idle_env)
      (Stream [0; 0; 0; 1; 1; 0; 0; 0; 1; 2] Eof) (demo_conn demo_state.1 false, [])
      = ((c', t'), Ok (Some EndEof)) /\
    rs_id <$> responses (c_out c') = [7; 8] /\
    forall accepts,
      (exists n partial, @written demo_msgpack demo_wire accepts (c_out c') n partial
        (@writer_task demo_msgpack demo_wire accepts (c_out c'))) /\
      (Forall (@encodes demo_msgpack demo_wire) (c_out c') ->
       (length (concat (@encoded demo_msgpack demo_wire <$> c_out c')) <= accepts)%nat ->
       @writer_task demo_msgpack demo_wire accepts (c_out c') = concat (@encoded demo_msgpack demo_wire <$> c_out c')).
Proof.
  apply (@one_response_per_request idle_env demo_msgpack demo_wire demo_wire_ok
    (@LocalBackend idle_env) [demo_hello; demo_subscribe]).
  - apply idle_clock.
  - repeat constructor.
  - vm_compute. reflexivity.
  - reflexivity.
Defined.

Lemma unknown_session_not_found_witness :
  exists t' e, @dispatch good_env demo_msgpack demo_wire (@LocalBackend good_env) 5
      (Req.RecordStop "ghost") (demo_conn demo_state.1 true, []) =
    ((demo_conn demo_state.1 true, t'), Ok (failure 5 e)) /\ re_code e = NotFound.
Proof.
  apply (@unknown_session_not_found good_env demo_msgpack demo_wire 5 (Req.RecordStop "ghost") "ghost"
    (demo_conn demo_state.1 true) []).
  - reflexivity.
  - vm_compute. reflexivity.
Defined.

Definition dup_params : CreateSessionParams :=
  {| csp_name := "demo"; csp_width := 640; csp_height := 480; csp_scale := 1; csp_env := ∅;
     csp_share_clipboard := false; csp_share_audio := false; csp_mem_cap_mb := None;
     csp_cpu_cap_pct := None; csp_disk_quota_mb := None; csp_fd_limit := None;
     csp_api_key_id := None; csp_codec := None; csp_gpu_type := None |}.

Lemma create_session_codes_witness :
  exists e, @dispatch good_env demo_msgpack demo_wire (@LocalBackend good_env) 5
      (Req.CreateSession dup_params) (demo_conn demo_state.1 true, []) =
    ((demo_conn demo_state.1 true, []), Ok (failure 5 e)) /\ re_code e = AlreadyExists.
Proof.
  apply (@create_session_codes good_env demo_msgpack demo_wire 5 dup_params
    (demo_conn demo_state.1 true) []).
  - vm_compute. reflexivity.
  - vm_compute. reflexivity.
  - vm_compute. eexists. reflexivity.
Defined.

Definition subscribed_conn : @cstate demo_msgpack :=
  set_forwarder (Some {| fw_pos := 0; fw_topics := ["logs:demo"]%string |})
    (demo_conn logged_inner true).

Lemma forwarder_delivers_witness :
  c_out (@forwarder_steps demo_msgpack 2 (subscribed_conn, [])).1 =
  [OutEvent (event_new (Ev.Log "demo" "stdout" "hi"))].
Proof.
  pose proof (@forwarder_delivers demo_msgpack subscribed_conn []
    {| fw_pos := 0; fw_topics := ["logs:demo"]%string |} eq_refl eq_refl) as F.
  cbv zeta in F. rewrite decide_True in F by (vm_compute; lia).
  etransitivity; [exact (f_equal (fun s => c_out s.1) F)|]. vm_compute. reflexivity.
Defined.
