(* ===== verification/Lifecycle.v ===== *)
(** * Concurrent lifecycles

    The registry's critical sections interleaved: creations between their two
    looks at the map, destructions, and the supervisors of the sessions, each
    step one of the registry's own definitions. A supervisor's kill branch can
    fire when its channel was sent on or when its sender is gone. *)

From stdpp Require Import prelude list strings gmap relations.
From Stdlib Require Import ZArith Lia.
From S2P Require Import Prelude Words Codec Messages Sys Quota.
From S2P Require Import Registry RegistryOps RegistryInv RegistryProps.

Open Scope Z_scope.

(** A supervisor task that has not finished. *)
Record sup := Sup { su_name : string; su_pid : Z; su_kill : nat; su_sock : path }.

Record lstate := LState {
  l_inner : Inner;
  l_trace : trace;
  l_pending : list prepared;
  l_sups : list sup;
}.

(** The receiver half of a kill channel resolves: a send, or the sender dropped
    (no registered entry holds it). *)
Definition kill_fired (i : Inner) (k : nat) : Prop :=
  i_kills i !! k = Some true \/
  (forall n e, i_sessions i !! n = Some e -> se_kill e <> Some k).

Section lifecycle.
Context `{Env}.

Definition begin_create (name : string) (width height scale : Z) (env : gmap string string)
    (cb au : bool) (mem cpu disk fd : option Z) : R prepared :=
  create_check name width height ;;
  create_prepare name width height scale env cb au mem cpu disk fd.

(** The supervisor a commit spawns, when it succeeds. *)
Definition commit_sup (p : prepared) (n : nat) (r : result unit any_error) : list sup :=
  match r with
  | Ok _ => [Sup (sm_name (pr_meta p)) (sm_pid (pr_meta p)) n (sm_inner_socket (pr_meta p))]
  | Err _ => []
  end.

(** [G] is the discipline under which a prepared session may be committed. *)
Inductive lstep (G : lstate -> prepared -> Prop) : lstate -> lstate -> Prop :=
| L_begin i t i' t' pend sups p name width height scale env cb au mem cpu disk fd :
    begin_create name width height scale env cb au mem cpu disk fd (i, t) = ((i', t'), Ok p) ->
    lstep G (LState i t pend sups) (LState i' t' (pend ++ [p]) sups)
| L_commit i t i' t' pend1 p pend2 sups r :
    G (LState i t (pend1 ++ p :: pend2) sups) p ->
    create_commit p (i, t) = ((i', t'), r) ->
    lstep G (LState i t (pend1 ++ p :: pend2) sups)
          (LState i' t' (pend1 ++ pend2) (sups ++ commit_sup p (i_next i) r))
| L_destroy i t i' t' pend sups name r :
    destroy name (i, t) = ((i', t'), r) ->
    lstep G (LState i t pend sups) (LState i' t' pend sups)
| L_supervise i t i' t' pend s1 su s2 woken r :
    (woken = true -> kill_fired i (su_kill su)) ->
    session_supervisor (su_name su) (su_pid su) woken (su_sock su) (i, t) = ((i', t'), r) ->
    lstep G (LState i t pend (s1 ++ su :: s2)) (LState i' t' pend (s1 ++ s2)).

(** What the registry itself asks for (its own second look at the map is part
    of the commit), and the discipline under which names are safe to reuse: a
    session is committed only once the supervisor of an earlier one of that
    name has finished. *)
Definition anytime (_ : lstate) (_ : prepared) : Prop := True.

Definition names_free (s : lstate) (p : prepared) : Prop :=
  Forall (fun su => su_name su <> sm_name (pr_meta p)) (l_sups s).

Definition initial (dir bin : path) : lstate := LState (new_inner dir bin) [] [] [].

(** ** What each step does to the registry *)

Lemma supervisor_inner name pid woken sock i t i' t' r :
  session_supervisor name pid woken sock (i, t) = ((i', t'), r) ->
  i_sessions i' = delete name (i_sessions i) /\ i_kills i' = i_kills i /\ i_next i' = i_next i.
Proof.
  intros E.
  assert (W : wp (session_supervisor name pid woken sock)
    (fun _ i' => i_sessions i' = delete name (i_sessions i) /\ i_kills i' = i_kills i /\
       i_next i' = i_next i) (fun _ _ => False) i).
  { unfold session_supervisor, supervisor_finish. do 2 wp_step; wp_io; done. }
  specialize (W t). rewrite E in W. by destruct r.
Qed.

Lemma begin_inner name w h sc env cb au mem cpu disk fd i t i' t' p :
  begin_create name w h sc env cb au mem cpu disk fd (i, t) = ((i', t'), Ok p) ->
  i_sessions i' = i_sessions i /\ i_kills i' = i_kills i /\ i_next i' = i_next i.
Proof.
  intros E.
  assert (W : wp (begin_create name w h sc env cb au mem cpu disk fd)
    (fun _ i' => i_sessions i' = i_sessions i /\ i_kills i' = i_kills i /\
       i_next i' = i_next i) (fun _ _ => True) i).
  { unfold begin_create. apply wp_bind. eapply wp_conseq; [apply create_check_wp | | done].
    intros ? ? (-> & Hn & _). eapply wp_conseq; [by apply create_prepare_wp | | done].
    by intros ? ? [-> _]. }
  specialize (W t). by rewrite E in W.
Qed.

Lemma commit_inner p i t i' t' r :
  create_commit p (i, t) = ((i', t'), r) ->
  match r with
  | Ok _ => i_sessions i !! sm_name (pr_meta p) = None /\ i' = register p i
  | Err _ => i' = i
  end.
Proof.
  unfold create_commit, mbind, eff_mbind, get. cbn [fst]. case_decide as D.
  - rewrite sys_eq. cbv beta iota. by intros [= <- <- <-].
  - cbn. intros [= <- <- <-]. split; [|done]. by apply eq_None_not_Some.
Qed.

Lemma destroy_inner name i t i' t' r :
  destroy name (i, t) = ((i', t'), r) ->
  match i_sessions i !! name with
  | None => i' = i
  | Some e => i_sessions i' = delete name (i_sessions i) /\ i_next i' = i_next i /\
      i_kills i' = match se_kill e with Some k => <[k := true]> (i_kills i) | None => i_kills i end
  end.
Proof.
  rewrite destroy_eq. destruct (i_sessions i !! name) as [e|]; [|by intros [= <- <- <-]].
  cbv zeta. intros [= <- <- <-]. by destruct (se_kill e), (se_cgroup e).
Qed.

(** ** The invariant under the discipline *)

(** Every unfinished supervisor either watches the entry registered under its
    name or has been sent the kill by a [destroy]. *)
Record linv (s : lstate) : Prop := {
  li_names : NoDup (su_name <$> l_sups s);
  li_kills : NoDup (su_kill <$> l_sups s);
  li_fresh : Forall (fun su => (su_kill su < i_next (l_inner s))%nat) (l_sups s);
  li_entries : forall n e, i_sessions (l_inner s) !! n = Some e ->
    exists k, se_kill e = Some k /\ (k < i_next (l_inner s))%nat /\
      exists su, su ∈ l_sups s /\ su_name su = n /\ su_kill su = k;
  li_watch : Forall (fun su => i_kills (l_inner s) !! su_kill su = Some true \/
    exists e, i_sessions (l_inner s) !! su_name su = Some e /\ se_kill e = Some (su_kill su))
    (l_sups s);
}.

Lemma linv_initial dir bin : linv (initial dir bin).
Proof.
  split; cbn; try constructor. intros n e E. by rewrite lookup_empty in E.
Qed.

Lemma linv_same s i' t' pend :
  linv s -> i_sessions i' = i_sessions (l_inner s) -> i_kills i' = i_kills (l_inner s) ->
  i_next i' = i_next (l_inner s) -> linv (LState i' t' pend (l_sups s)).
Proof. intros [] Es Ek En. split; cbn; rewrite ?Es, ?Ek, ?En; done. Qed.

Lemma linv_commit i t pend pend' sups p :
  linv (LState i t pend sups) -> i_sessions i !! sm_name (pr_meta p) = None ->
  Forall (fun su => su_name su <> sm_name (pr_meta p)) sups ->
  linv (LState (register p i) t pend' (sups ++ commit_sup p (i_next i) (Ok ()))).
Proof.
  intros [Hn Hk Hf He Hw] En Hfree. cbn in *. set (n0 := sm_name (pr_meta p)) in *.
  rewrite Forall_forall in Hf, Hfree.
  split; cbn.
  - rewrite fmap_app. apply NoDup_app. split_and!; [done| |apply NoDup_singleton].
    intros x Hx%list_elem_of_fmap Hx'%list_elem_of_singleton. destruct Hx as (su & -> & Hsu).
    by apply (Hfree su Hsu).
  - rewrite fmap_app. apply NoDup_app. split_and!; [done| |apply NoDup_singleton].
    intros x Hx%list_elem_of_fmap Hx'%list_elem_of_singleton. destruct Hx as (su & -> & Hsu).
    specialize (Hf su Hsu). cbn in *. lia.
  - apply Forall_app. split; [|by repeat constructor].
    apply Forall_forall. intros su Hsu. specialize (Hf su Hsu). cbn in *. lia.
  - intros n e. rewrite lookup_insert. case_decide as D.
    + intros [= <-]. exists (i_next i). split_and!; [done|lia|].
      eexists. split; [apply elem_of_app; right; by apply list_elem_of_singleton|done].
    + intros Ee. destruct (He n e Ee) as (k & Ek & Hlt & su & Hsu & ? & ?).
      exists k. split_and!; [done|lia|]. exists su. split; [set_solver|done].
  - rewrite Forall_forall in Hw. apply Forall_app. split.
    + apply Forall_forall. intros su Hsu. specialize (Hf su Hsu). cbn in Hf.
      destruct (Hw su Hsu) as [Hk'|(e & Ee & Ek)].
      * left. rewrite lookup_insert_ne by lia. done.
      * right. exists e. split; [|done]. rewrite lookup_insert_ne; [done|].
        intros Eq. by apply (Hfree su Hsu).
    + constructor; [|constructor]. right. eexists. split; [apply lookup_insert_eq|]. done.
Qed.

Lemma linv_destroy i t pend sups name e i' t' :
  linv (LState i t pend sups) -> i_sessions i !! name = Some e ->
  i_sessions i' = delete name (i_sessions i) -> i_next i' = i_next i ->
  i_kills i' = match se_kill e with Some k => <[k := true]> (i_kills i) | None => i_kills i end ->
  linv (LState i' t' pend sups).
Proof.
  intros [Hn Hk Hf He Hw] Ee Es En Ek. cbn in *.
  destruct (He name e Ee) as (k & Eek & _). rewrite Eek in Ek.
  split; cbn; rewrite ?En; try done.
  - intros n e'. rewrite Es, lookup_delete_Some. intros [_ ?]. eauto.
  - rewrite Forall_forall in *. intros su Hsu. rewrite Ek, lookup_insert.
    case_decide as D; [by left|]. destruct (Hw su Hsu) as [?|(e' & Ee' & Ek')]; [by left|].
    right. exists e'. split; [|done]. rewrite Es, lookup_delete_ne; [done|].
    intros Enm. rewrite <- Enm in Ee'. congruence.
Qed.

Lemma linv_supervise i t pend s1 su s2 i' t' :
  linv (LState i t pend (s1 ++ su :: s2)) ->
  i_sessions i' = delete (su_name su) (i_sessions i) -> i_kills i' = i_kills i ->
  i_next i' = i_next i -> linv (LState i' t' pend (s1 ++ s2)).
Proof.
  intros [Hn Hk Hf He Hw] Es Ek En. cbn in *.
  assert (Sub : sublist (s1 ++ s2) (s1 ++ su :: s2)) by (apply sublist_app; [done|by constructor]).
  assert (Hne : forall x, x ∈ s1 ++ s2 -> su_name x <> su_name su).
  { intros x Hx Eq. rewrite fmap_app, fmap_cons in Hn.
    apply NoDup_app in Hn as (_ & H1 & H2). apply NoDup_cons in H2 as [H2 _].
    apply elem_of_app in Hx as [Hx|Hx].
    - apply (H1 (su_name x)); [by apply list_elem_of_fmap_2 | rewrite Eq; by left].
    - apply H2. rewrite <- Eq. by apply list_elem_of_fmap_2. }
  split; cbn; rewrite ?En, ?Ek.
  - eapply sublist_NoDup; [exact Hn|]. by apply fmap_sublist.
  - eapply sublist_NoDup; [exact Hk|]. by apply fmap_sublist.
  - rewrite Forall_forall in *. intros x Hx. apply Hf. set_solver.
  - intros n e. rewrite Es, lookup_delete_Some. intros [Nn Ee].
    destruct (He n e Ee) as (k & ? & ? & x & Hx & ? & ?). exists k. split_and!; [done..|].
    exists x. split; [|done]. subst. set_solver.
  - rewrite Forall_forall in *. intros x Hx.
    destruct (Hw x) as [?|(e & Ee & ?)]; [set_solver | by left |].
    right. exists e. split; [|done]. rewrite Es, lookup_delete_ne; [done|].
    intros Eq. by apply (Hne x Hx).
Qed.

Lemma linv_step s s' : lstep names_free s s' -> linv s -> linv s'.
Proof.
  intros [i t i' t' pend sups p name w h sc env cb au mem cpu disk fd E
         |i t i' t' p1 p p2 sups r Hfree E
         |i t i' t' pend sups name r E|i t i' t' pend s1 su s2 woken r Hk E] Hi.
  - destruct (begin_inner _ _ _ _ _ _ _ _ _ _ _ _ _ _ _ _ E) as (? & ? & ?).
    by apply (linv_same _ i' t' _ Hi).
  - pose proof (commit_inner _ _ _ _ _ _ E) as C. destruct r as [[]|].
    + destruct C as [En ->]. eapply (linv_commit i t'); [by eapply (linv_same _ i t' [] Hi)|done..].
    + subst i'. cbn [commit_sup]. rewrite app_nil_r. by apply (linv_same _ i t' _ Hi).
  - pose proof (destroy_inner _ _ _ _ _ _ E) as D.
    destruct (i_sessions i !! name) as [e|] eqn:Ee.
    + destruct D as (? & ? & ?). by eapply linv_destroy.
    + subst i'. by apply (linv_same _ i t' _ Hi).
  - destruct (supervisor_inner _ _ _ _ _ _ _ _ _ E) as (? & ? & ?). by eapply linv_supervise.
Qed.

Lemma linv_steps s s' : rtc (lstep names_free) s s' -> linv s -> linv s'.
Proof. induction 1 as [|x y z Hxy _ IH]; [done|]. intros Hx. eapply IH, linv_step; done. Qed.

Lemma linv_reachable dir bin s : rtc (lstep names_free) (initial dir bin) s -> linv s.
Proof.
  intros R. eapply linv_steps; [exact R|]. apply linv_initial.
Qed.

(** C14: as long as a name is reused only after the supervisor of its earlier
    session has finished, no session is ever killed without being asked to: in
    every reachable state, a supervisor whose kill branch can fire is one whose
    session was destroyed, and every other unfinished supervisor watches the
    entry registered under its name. *)
Theorem no_spurious_kill dir bin s su :
  rtc (lstep names_free) (initial dir bin) s -> su ∈ l_sups s ->
  (kill_fired (l_inner s) (su_kill su) <-> i_kills (l_inner s) !! su_kill su = Some true) /\
  (i_kills (l_inner s) !! su_kill su <> Some true ->
     exists e, i_sessions (l_inner s) !! su_name su = Some e /\ se_kill e = Some (su_kill su)).
Proof.
  intros R Hsu. destruct (linv_reachable dir bin s R) as [_ _ _ _ Hw].
  rewrite Forall_forall in Hw. specialize (Hw su Hsu). split.
  - split; [|by left]. intros [?|Hno]; [done|].
    destruct Hw as [?|(e & Ee & Ek)]; [done|]. by destruct (Hno _ _ Ee).
  - intros N. by destruct Hw.
Qed.
End lifecycle.

(** ** Reusing a name too early *)

Definition demo_dir : path := ["run"; "waymux"]%string.
Definition demo_bin : path := ["bin"; "waymux-session"]%string.

Definition demo_begin (s : Inner * trace) : (Inner * trace) * result prepared any_error :=
  @begin_create good_env "a" 640 480 1 ∅ false false None None None None s.

(** Both halves of a creation of ["a"], run without interruption. *)
Definition demo_create (s : lstate) : option lstate :=
  match demo_begin (l_inner s, l_trace s) with
  | (st, Ok p) =>
      let '((i', t'), r) := @create_commit good_env p st in
      Some (LState i' t' (l_pending s) (l_sups s ++ commit_sup p (i_next (st.1)) r))
  | (_, Err _) => None
  end.

Definition demo_destroy (s : lstate) : lstate :=
  let '((i', t'), _) := @destroy good_env "a" (l_inner s, l_trace s) in
  LState i' t' (l_pending s) (l_sups s).

(** The oldest unfinished supervisor takes its kill branch. *)
Definition demo_supervise (s : lstate) : lstate :=
  match l_sups s with
  | su :: rest =>
      let '((i', t'), _) :=
        @session_supervisor good_env (su_name su) (su_pid su) true (su_sock su) (l_inner s, l_trace s) in
      LState i' t' (l_pending s) rest
  | [] => s
  end.

Lemma demo_create_steps G s s' :
  l_pending s = [] -> demo_create s = Some s' ->
  (forall i t p, G (LState i t [p] (l_sups s)) p) ->
  rtc (@lstep good_env G) s s' /\ l_pending s' = [].
Proof.
  destruct s as [i t pend sups]. cbn [l_pending l_sups]. intros -> E HG. unfold demo_create in E.
  cbn [l_inner l_trace l_sups l_pending] in E.
  destruct (demo_begin (i, t)) as [[i1 t1] [p|]] eqn:Eb; [|done].
  cbn [fst] in E. destruct (create_commit p (i1, t1)) as [[i2 t2] r] eqn:Ec.
  apply (inj Some) in E as <-. split; [|done].
  eapply rtc_l; [eapply L_begin; exact Eb|]. eapply rtc_l; [|apply rtc_refl].
  apply (L_commit G i1 t1 i2 t2 [] p [] sups r); [apply HG|exact Ec].
Qed.

Lemma demo_destroy_steps G s : rtc (@lstep good_env G) s (demo_destroy s).
Proof.
  destruct s as [i t pend sups]. unfold demo_destroy. cbn [l_inner l_trace l_sups l_pending].
  destruct (destroy "a" (i, t)) as [[i1 t1] r] eqn:E.
  eapply rtc_once, L_destroy, E.
Qed.

Lemma demo_supervise_steps G s :
  Forall (fun su => kill_fired (l_inner s) (su_kill su)) (take 1 (l_sups s)) ->
  rtc (@lstep good_env G) s (demo_supervise s).
Proof.
  destruct s as [i t pend [|su sups]]; [intros _; apply rtc_refl|]. unfold demo_supervise.
  cbn [l_inner l_trace l_sups l_pending]. cbn [take]. intros Hk%Forall_cons_1. destruct Hk as [Hk _].
  destruct (session_supervisor _ _ _ _ (i, t)) as [[i1 t1] r] eqn:E.
  eapply rtc_once, (L_supervise G i t i1 t1 pend [] su sups true r); [done|exact E].
Qed.

Definition demo_first : option lstate := demo_create (initial demo_dir demo_bin).
Definition demo_second : option lstate := s ← demo_first; demo_create (demo_destroy s).
Definition demo_spurious : option lstate := s ← demo_second; Some (demo_supervise s).

Definition demo_summary (s : lstate) : list (string * nat) * list (nat * bool) * list string :=
  ((fun su => (su_name su, su_kill su)) <$> l_sups s, map_to_list (i_kills (l_inner s)),
   (map_to_list (i_sessions (l_inner s))).*1).

Example demo_first_summary :
  demo_summary <$> demo_first = Some ([("a"%string, 0%nat)], [(0%nat, false)], ["a"%string]).
Proof. vm_compute. reflexivity. Qed.

Example demo_second_ready :
  (fun s => (fun su => i_kills (l_inner s) !! su_kill su) <$> take 1 (l_sups s)) <$> demo_second =
    Some [Some true].
Proof. vm_compute. reflexivity. Qed.

Example demo_spurious_ends :
  (fun s => ((fun su => (su_name su, i_kills (l_inner s) !! su_kill su)) <$> l_sups s,
             size (i_sessions (l_inner s)))) <$> demo_spurious =
    Some ([("a"%string, Some false)], 0%nat).
Proof. vm_compute. reflexivity. Qed.

Lemma demo_second_steps s :
  demo_second = Some s -> rtc (@lstep good_env anytime) (initial demo_dir demo_bin) s.
Proof.
  intros E. apply bind_Some in E as (s1 & E1 & E2).
  destruct (demo_create_steps anytime (initial demo_dir demo_bin) s1 eq_refl E1 (fun _ _ _ => I))
    as [R1 P1].
  pose proof (demo_destroy_steps anytime s1) as R2.
  assert (P2 : l_pending (demo_destroy s1) = []).
  { unfold demo_destroy. by destruct (destroy _ _) as [[??]?]. }
  destruct (demo_create_steps anytime (demo_destroy s1) s P2 E2 (fun _ _ _ => I)) as [R3 _].
  etrans; [exact R1|]. etrans; [exact R2|exact R3].
Qed.

Lemma demo_spurious_steps s :
  demo_spurious = Some s -> rtc (@lstep good_env anytime) (initial demo_dir demo_bin) s.
Proof.
  intros E. apply bind_Some in E as (s2 & E2 & Es). apply (inj Some) in Es as <-.
  etrans; [exact (demo_second_steps s2 E2)|]. apply demo_supervise_steps.
  pose proof demo_second_ready as D. rewrite E2 in D. apply (inj Some) in D.
  clear E2. destruct (take 1 (l_sups s2)) as [|su [|??]]; try done. apply (inj2 cons) in D as [D _].
  constructor; [by left|constructor].
Qed.

(** C15: nothing in the registry enforces that discipline. Creating ["a"],
    destroying it and creating it again before the first session's supervisor
    has run leads to a state in which the second session was never asked to
    stop, its kill channel was never sent on, its supervisor is still watching,
    and yet its entry is gone and its kill branch fires: the first supervisor
    removed the entry by name. *)
Theorem early_reuse_kills_new_session :
  exists s su, rtc (@lstep good_env anytime) (initial demo_dir demo_bin) s /\
    l_sups s = [su] /\ su_name su = "a"%string /\
    i_kills (l_inner s) !! su_kill su = Some false /\
    i_sessions (l_inner s) !! "a"%string = None /\ kill_fired (l_inner s) (su_kill su).
Proof.
  pose proof demo_spurious_ends as D. destruct demo_spurious as [s|] eqn:E; [|discriminate D].
  pose proof (demo_spurious_steps s E) as R. clear E.
  apply (inj Some) in D. apply (inj2 pair) in D as [D Dz].
  destruct (l_sups s) as [|su [|??]] eqn:Es; try done. apply (inj2 cons) in D as [D _].
  apply (inj2 pair) in D as [Dn Dk]. apply map_size_empty_inv in Dz.
  exists s, su. split_and!; [exact R | done | done | done | |].
  - by rewrite Dz, lookup_empty.
  - right. intros n e. by rewrite Dz, lookup_empty.
Qed.

(** The discipline is met by a first session, whose supervisor watches it. *)
Lemma no_spurious_kill_witness :
  exists s su, rtc (@lstep good_env names_free) (initial demo_dir demo_bin) s /\ su ∈ l_sups s /\
    i_kills (l_inner s) !! su_kill su = Some false /\ ~ kill_fired (l_inner s) (su_kill su).
Proof.
  pose proof demo_first_summary as D. destruct demo_first as [s|] eqn:E; [|discriminate D].
  assert (R : rtc (@lstep good_env names_free) (initial demo_dir demo_bin) s).
  { refine (proj1 (demo_create_steps names_free (initial demo_dir demo_bin) s eq_refl E _)).
    intros. constructor. }
  clear E.
  apply (inj Some) in D. apply (inj2 pair) in D as [D _]. apply (inj2 pair) in D as [D Dk].
  destruct (l_sups s) as [|su [|??]] eqn:Es; try done. apply (inj2 cons) in D as [D _].
  apply (inj2 pair) in D as [Dn Ds].
  assert (Hk : i_kills (l_inner s) !! su_kill su = Some false).
  { rewrite Ds. apply elem_of_map_to_list. rewrite Dk. by left. }
  assert (Hin : su ∈ l_sups s) by (rewrite Es; by left).
  exists s, su. split_and!; [done|done|done|].
  intros F. apply (no_spurious_kill demo_dir demo_bin s su R Hin) in F. by rewrite Hk in F.
Defined.
