(* ===== verification/Composite.v ===== *)
(** * Capture-time compositing
    ([crates/waymux-session/src/composite.rs], with the buffers of [buffer.rs]
    and [shm.rs] and the subsurface and viewport requests of [compositor.rs])

    The surfaces of a client are a store of [SurfaceData] referred to by id, as
    the code refers to them by [WlSurface] handles: a surface may occur in
    several child lists, and nothing in the store excludes a cycle. Integers
    wrap as in the release profile, which has no overflow checks; an index out
    of range is a panic. *)

From Stdlib Require Import ZArith Lia.
From stdpp Require Import prelude gmap numbers list.
From S2P Require Import Prelude Words.

Open Scope Z_scope.

(** How a computation stops without a result: a panic, or the depth given to it
    was not enough. *)
Inductive stop := Panics | OutOfFuel.

(** ** Machine arithmetic *)

Abbreviation i32_add a b := (as_s 32 (a + b)).
Abbreviation i32_sub a b := (as_s 32 (a - b)).
Abbreviation i32_mul a b := (as_s 32 (a * b)).
Abbreviation usize z := (as_u 64 z).
Abbreviation usize_add a b := (as_u 64 (a + b)).
Abbreviation usize_mul a b := (as_u 64 (a * b)).

Definition checked_u64 (z : Z) : option Z := if z <? 2 ^ 64 then Some z else None.

Definition len (l : list Z) : Z := Z.of_nat (length l).

(** ** Buffers *)

Inductive Format := Argb8888 | Xrgb8888 | OtherFormat (code : Z).

Definition is_argb (f : Format) : bool := match f with Argb8888 => true | _ => false end.

(** A pool: the bytes of the mapping, when there is one. *)
Record ShmPoolData := { pool_mmap : option (list Z) }.

Record ShmBufferData := {
  shm_pool : ShmPoolData;
  shm_offset : Z;
  shm_width : Z;
  shm_height : Z;
  shm_stride : Z;
  shm_format : Format;
}.

(** [ShmPoolData::with_bytes]: the slice the closure gets. *)
Definition pool_with_bytes (p : ShmPoolData) (offset length' : Z) : option (list Z) :=
  if offset <? 0 then None
  else
    m ← pool_mmap p;
    end' ← checked_u64 (offset + length');
    if len m <? end' then None
    else Some (take (Z.to_nat length') (drop (Z.to_nat offset) m)).

(** A dmabuf carries what its readback yields, an effect of the GPU. *)
Inductive BufferKind :=
| Shm (s : ShmBufferData)
| Dmabuf (width height stride : Z) (format : Format) (readback : option (list Z))
| SinglePixel (b g r a : Z)
| Invalid.

(** [BufferKind::with_bytes]: the arguments of the closure. *)
Definition with_bytes (k : BufferKind) : option (list Z * Z * Z * Z * Format) :=
  match k with
  | Shm s =>
      n ← checked_u64 (usize (shm_height s) * usize (shm_stride s));
      bytes ← pool_with_bytes (shm_pool s) (shm_offset s) n;
      Some (bytes, shm_width s, shm_height s, shm_stride s, shm_format s)
  | Dmabuf w h stride fmt readback =>
      bytes ← readback;
      Some (bytes, w, h, as_s 32 stride, fmt)
  | SinglePixel b g r a => Some ([b; g; r; a], 1, 1, 4, Argb8888)
  | Invalid => None
  end.

(** ** Surfaces *)

Abbreviation surface := nat.

(** The source rectangle is in 256ths of a pixel, the wire's fixed point. *)
Record ViewportData := {
  vp_src : option (Z * Z * Z * Z);
  vp_dst : option (Z * Z);
}.

Record SubsurfaceChild := { ch_surface : surface; ch_x : Z; ch_y : Z }.

(** The fields of a surface that compositing reads. *)
Record SurfaceData := {
  sd_current_buffer : option BufferKind;
  sd_children : list SubsurfaceChild;
  sd_viewport : ViewportData;
}.

Abbreviation surfaces := (gmap surface SurfaceData).

(** ** Blitting *)

(** One pixel of premultiplied source-over on the bytes B, G, R, A. *)
Definition over (s d inv : Z) : Z := as_u 8 (Z.min (s + d * inv / 255) 255).

Definition blend (argb : bool) (s d : list Z) : list Z :=
  match s, d with
  | [sb; sg; sr; sa0], [db; dg; dr; da] =>
      let sa := if argb then sa0 else 255 in
      if sa =? 255 then [sb; sg; sr; 255]
      else if negb (sa =? 0) then
        let inv := 255 - sa in
        [over sb db inv; over sg dg inv; over sr dr inv; over sa da inv]
      else d
  | _, _ => d
  end.

(** [l\[i..i + 4\]], a panic when it is out of range. *)
Definition quad (l : list Z) (i : Z) : result (list Z) stop :=
  if len l <? i + 4 then Err Panics else Ok (take 4 (drop (Z.to_nat i) l)).

(** The body of both loops: the guard, then the blend of one pixel. *)
Definition blit_pixel (argb : bool) (src : list Z) (si di : Z) (dst : list Z) :
    result (list Z) stop :=
  if (len src <? usize_add si 4) || (len dst <? usize_add di 4) then Ok dst
  else
    let? s := quad src si in
    let? d := quad dst di in
    Ok (overwrite (Z.to_nat di) (blend argb s d) dst).

(** [for a in l { s = f(a, s) }]. *)
Fixpoint for_each_in {A S} (l : list A) (f : A -> S -> result S stop) (s : S) : result S stop :=
  match l with
  | [] => Ok s
  | a :: l' => let? s' := f a s in for_each_in l' f s'
  end.

(** [a..b]. *)
Abbreviation range a b := (seqZ a (b - a)).

Definition blit_over (dst_w dst_h dst_stride off_x off_y : Z) (src : list Z)
    (src_w src_h src_stride : Z) (format : Format) (dst : list Z) : result (list Z) stop :=
  if (src_w <=? 0) || (src_h <=? 0) then Ok dst
  else
    let x0 := Z.max off_x 0 in
    let y0 := Z.max off_y 0 in
    let x1 := Z.min (i32_add off_x src_w) dst_w in
    let y1 := Z.min (i32_add off_y src_h) dst_h in
    if (x1 <=? x0) || (y1 <=? y0) then Ok dst
    else
      for_each_in (range y0 y1) (fun y =>
        let sy := i32_sub y off_y in
        let src_row := usize_mul (usize sy) (usize src_stride) in
        let dst_row := usize_mul (usize y) (usize dst_stride) in
        for_each_in (range x0 x1) (fun x =>
          let sx := i32_sub x off_x in
          let si := usize_add src_row (usize_mul (usize sx) 4) in
          let di := usize_add dst_row (usize_mul (usize x) 4) in
          blit_pixel (is_argb format) src si di)) dst.

Definition blit_viewport (dst_w dst_h dst_stride off_x off_y : Z) (src : list Z)
    (src_stride : Z) (format : Format) (sx sy sw sh dw dh : Z) (dst : list Z) :
    result (list Z) stop :=
  if (sw <=? 0) || (sh <=? 0) || (dw <=? 0) || (dh <=? 0) then Ok dst
  else
    for_each_in (range 0 dh) (fun dy dst =>
      let src_y := i32_add sy (Z.quot (i32_mul dy sh) dh) in
      let dst_y := i32_add off_y dy in
      if (dst_y <? 0) || (dst_h <=? dst_y) then Ok dst
      else
        for_each_in (range 0 dw) (fun dx dst =>
          let src_x := i32_add sx (Z.quot (i32_mul dx sw) dw) in
          let dst_x := i32_add off_x dx in
          if (dst_x <? 0) || (dst_w <=? dst_x) then Ok dst
          else
            let si := usize_add (usize_mul (usize src_y) (usize src_stride))
                                (usize_mul (usize src_x) 4) in
            let di := usize_add (usize_mul (usize dst_y) (usize dst_stride))
                                (usize_mul (usize dst_x) 4) in
            blit_pixel (is_argb format) src si di dst) dst) dst.

(** ** The surface tree *)

(** The crop and scale of a viewport over a buffer: source rectangle and
    destination size; [f64 as i32] truncates. *)
Definition viewport_rect (vp : ViewportData) (buf_w buf_h : Z) : Z * Z * Z * Z * Z * Z :=
  let '(sx, sy, sw, sh) :=
    match vp_src vp with
    | Some (x, y, w, h) => (Z.quot x 256, Z.quot y 256, Z.quot w 256, Z.quot h 256)
    | None => (0, 0, buf_w, buf_h)
    end in
  let '(dw, dh) := match vp_dst vp with Some (w, h) => (w, h) | None => (sw, sh) end in
  (sx, sy, sw, sh, dw, dh).

(** The buffer of one surface. *)
Definition blit_surface (dst_w dst_h dst_stride : Z) (sd : SurfaceData) (off_x off_y : Z)
    (dst : list Z) : result (list Z) stop :=
  match sd_current_buffer sd ≫= with_bytes with
  | None => Ok dst
  | Some (bytes, buf_w, buf_h, stride, format) =>
      let '(sx, sy, sw, sh, dw, dh) := viewport_rect (sd_viewport sd) buf_w buf_h in
      if (sw =? dw) && (sh =? dh) && (sx =? 0) && (sy =? 0) then
        blit_over dst_w dst_h dst_stride off_x off_y bytes buf_w buf_h stride format dst
      else
        blit_viewport dst_w dst_h dst_stride off_x off_y bytes stride format sx sy sw sh dw dh dst
  end.

(** The surface, then its children bottom to top. [fuel] bounds the depth of the
    recursion, the size of the stack. *)
Fixpoint composite_into (fuel : nat) (ss : surfaces) (dst_w dst_h dst_stride : Z)
    (s : surface) (off_x off_y : Z) (dst : list Z) : result (list Z) stop :=
  match fuel with
  | O => Err OutOfFuel
  | S fuel =>
      match ss !! s with
      | None => Ok dst
      | Some sd =>
          let? dst' := blit_surface dst_w dst_h dst_stride sd off_x off_y dst in
          for_each_in (sd_children sd) (fun c =>
            composite_into fuel ss dst_w dst_h dst_stride (ch_surface c)
              (i32_add off_x (ch_x c)) (i32_add off_y (ch_y c))) dst'
      end
  end.

(** [surface_dims]: the viewport's destination, else the buffer's size. *)
Definition buffer_dims (k : BufferKind) : option (Z * Z) :=
  match k with
  | Shm s => Some (shm_width s, shm_height s)
  | Dmabuf w h _ _ _ => Some (w, h)
  | SinglePixel _ _ _ _ => Some (1, 1)
  | Invalid => None
  end.

Definition surface_dims (sd : SurfaceData) (fallback : Z * Z) : Z * Z :=
  let from_buffer :=
    match sd_current_buffer sd ≫= buffer_dims with
    | Some (w, h) => if (0 <? w) && (0 <? h) then (w, h) else fallback
    | None => fallback
    end in
  match vp_dst (sd_viewport sd) with
  | Some (dw, dh) => if (0 <? dw) && (0 <? dh) then (dw, dh) else from_buffer
  | None => from_buffer
  end.

(** [Vec::resize] and [fill(0)]; a capacity over [isize::MAX] panics. *)
Definition resize_zero (needed : Z) (buf : list Z) : result (list Z) stop :=
  if 2 ^ 63 <=? needed then Err Panics
  else
    let n := Z.to_nat needed in
    let buf := if len buf =? needed then buf
               else take n buf ++ replicate (n - length buf) 0 in
    Ok (replicate (length buf) 0).

(** The size of the output: [(width, height, stride)]. *)
Definition frame_dims (sd : SurfaceData) (fallback : Z * Z) : option (Z * Z * Z) :=
  let '(surf_w, surf_h) := surface_dims sd fallback in
  if (surf_w =? 0) || (surf_h =? 0) then None
  else
    let '(w, h) := if (surf_w <? 4) || (surf_h <? 4) then fallback else (surf_w, surf_h) in
    let w := as_s 32 w in
    let h := as_s 32 h in
    Some (w, h, i32_mul w 4).

Definition composite_into_buf (fuel : nat) (ss : surfaces) (root : surface) (buf : list Z)
    (fallback : Z * Z) : result (list Z * option (Z * Z * Z)) stop :=
  match (sd ← ss !! root; frame_dims sd fallback) with
  | None => Ok (buf, None)
  | Some (w, h, stride) =>
      let needed := usize_mul (usize h) (usize stride) in
      let? zeroed := resize_zero needed buf in
      let? out := composite_into fuel ss w h stride root 0 0 zeroed in
      Ok (out, Some (w, h, stride))
  end.

Record CompositedFrame := {
  cf_bytes : list Z; cf_width : Z; cf_height : Z; cf_stride : Z
}.

Definition composite (fuel : nat) (ss : surfaces) (root : surface) (fallback : Z * Z) :
    result (option CompositedFrame) stop :=
  let? r := composite_into_buf fuel ss root [] fallback in
  match r with
  | (bytes, Some (w, h, stride)) =>
      Ok (Some {| cf_bytes := bytes; cf_width := w; cf_height := h; cf_stride := stride |})
  | (_, None) => Ok None
  end.

Definition composite_into_slice (fuel : nat) (ss : surfaces) (root : surface) (output : list Z)
    (w h : Z) : result (list Z * bool) stop :=
  match ss !! root with
  | None => Ok (output, false)
  | Some _ =>
      let stride := i32_mul w 4 in
      let expected := usize_mul (usize h) (usize stride) in
      if negb (len output =? expected) then Ok (output, false)
      else
        let? out := composite_into fuel ss w h stride root 0 0 (replicate (length output) 0) in
        Ok (out, true)
  end.

(** ** Subsurface and viewport requests ([compositor.rs]) *)

Definition upd_surface (f : SurfaceData -> SurfaceData) (s : surface) (ss : surfaces) : surfaces :=
  alter f s ss.

Definition with_children (f : list SubsurfaceChild -> list SubsurfaceChild) (sd : SurfaceData) :=
  {| sd_current_buffer := sd_current_buffer sd; sd_children := f (sd_children sd);
     sd_viewport := sd_viewport sd |}.

Definition with_viewport (f : ViewportData -> ViewportData) (sd : SurfaceData) :=
  {| sd_current_buffer := sd_current_buffer sd; sd_children := sd_children sd;
     sd_viewport := f (sd_viewport sd) |}.

Definition position (id : surface) (l : list SubsurfaceChild) : option nat :=
  fst <$> list_find (fun c => ch_surface c = id) l.

(** [Vec::insert]. *)
Definition insert_at (i : nat) (c : SubsurfaceChild) (l : list SubsurfaceChild) :=
  take i l ++ c :: drop i l.

Definition get_subsurface (child parent : surface) : surfaces -> surfaces :=
  upd_surface (with_children (fun cs => cs ++ [{| ch_surface := child; ch_x := 0; ch_y := 0 |}])) parent.

Fixpoint move_first (id : surface) (x y : Z) (l : list SubsurfaceChild) : list SubsurfaceChild :=
  match l with
  | [] => []
  | c :: l' =>
      if decide (ch_surface c = id) then {| ch_surface := id; ch_x := x; ch_y := y |} :: l'
      else c :: move_first id x y l'
  end.

Definition set_position (child parent : surface) (x y : Z) : surfaces -> surfaces :=
  upd_surface (with_children (move_first child x y)) parent.

Definition destroy_subsurface (child parent : surface) : surfaces -> surfaces :=
  upd_surface (with_children (filter (fun c => ch_surface c <> child))) parent.

(** The restacking of one child list. *)
Definition stack_above (child sibling parent : surface) (cs : list SubsurfaceChild) :=
  match position child cs with
  | None => cs
  | Some ci =>
      match cs !! ci with
      | None => cs
      | Some c =>
          let rest := delete ci cs in
          let at' := if decide (sibling = parent) then length rest
                     else match position sibling rest with
                          | Some si => S si
                          | None => length rest
                          end in
          insert_at at' c rest
      end
  end.

Definition stack_below (child sibling parent : surface) (cs : list SubsurfaceChild) :=
  match position child cs with
  | None => cs
  | Some ci =>
      match cs !! ci with
      | None => cs
      | Some c =>
          let rest := delete ci cs in
          let at' := if decide (sibling = parent) then 0%nat
                     else default 0%nat (position sibling rest) in
          insert_at at' c rest
      end
  end.

Definition place_above (child sibling parent : surface) : surfaces -> surfaces :=
  upd_surface (with_children (stack_above child sibling parent)) parent.

Definition place_below (child sibling parent : surface) : surfaces -> surfaces :=
  upd_surface (with_children (stack_below child sibling parent)) parent.

Definition set_source (s : surface) (x y width height : Z) : surfaces -> surfaces :=
  upd_surface (with_viewport (fun vp =>
    {| vp_src := if x <? 0 then None else Some (x, y, width, height); vp_dst := vp_dst vp |})) s.

Definition set_destination (s : surface) (width height : Z) : surfaces -> surfaces :=
  upd_surface (with_viewport (fun vp =>
    {| vp_src := vp_src vp; vp_dst := if width <? 0 then None else Some (width, height) |})) s.

Definition destroy_viewport (s : surface) : surfaces -> surfaces :=
  upd_surface (with_viewport (fun _ => {| vp_src := None; vp_dst := None |})) s.

(** ** Loops *)

Lemma for_each_in_app {A S} (l1 l2 : list A) (f : A -> S -> result S stop) s :
  for_each_in (l1 ++ l2) f s =
  match for_each_in l1 f s with Ok s' => for_each_in l2 f s' | Err e => Err e end.
Proof. revert s. induction l1 as [|a l1 IH]; intros s; cbn; [done|]. by case_match. Qed.

Lemma for_each_in_fmap {A B S} (h : A -> B) l (f : B -> S -> result S stop) s :
  for_each_in (h <$> l) f s = for_each_in l (fun a => f (h a)) s.
Proof. revert s. induction l as [|a l IH]; intros s; cbn; [done|]. by case_match. Qed.

Lemma for_each_in_ext {A S} (l : list A) (f g : A -> S -> result S stop) s :
  (forall a s, a ∈ l -> f a s = g a s) -> for_each_in l f s = for_each_in l g s.
Proof.
  revert s. induction l as [|a l IH]; intros s H; cbn; [done|].
  rewrite H by set_solver. case_match; [|done]. apply IH. set_solver.
Qed.

(** Nested loops run over the pairs, row by row. *)
Definition pairs {A B} (l : list A) (k : list B) : list (A * B) := l ≫= fun a => pair a <$> k.

Lemma for_each_in_nested {A B S} (l : list A) (k : list B) (f : A -> B -> S -> result S stop) s :
  for_each_in l (fun a => for_each_in k (f a)) s =
  for_each_in (pairs l k) (fun p => f p.1 p.2) s.
Proof.
  revert s. induction l as [|a l IH]; intros s; cbn; [done|].
  rewrite for_each_in_app, for_each_in_fmap. cbn. by case_match.
Qed.

Lemma for_each_in_skip {A S} (l : list A) (f : A -> S -> result S stop) s :
  (forall a, a ∈ l -> f a s = Ok s) -> for_each_in l f s = Ok s.
Proof. induction l as [|a l IH]; intros H; cbn; [done|]. rewrite H by set_solver. apply IH. set_solver. Qed.

(** A loop whose steps all succeed is a fold. *)
Lemma for_each_in_fold {A S} (P : S -> Prop) (g : S -> A -> S) l (f : A -> S -> result S stop) s :
  (forall a s, a ∈ l -> P s -> f a s = Ok (g s a) /\ P (g s a)) -> P s ->
  for_each_in l f s = Ok (foldl g s l).
Proof.
  revert s. induction l as [|a l IH]; intros s H Hs; cbn; [done|].
  destruct (H a s) as [-> ?]; [set_solver|done|]. apply IH; [|done]. set_solver.
Qed.

Lemma elem_of_pairs {A B} (l : list A) (k : list B) a b : (a, b) ∈ pairs l k <-> a ∈ l /\ b ∈ k.
Proof. unfold pairs. set_solver. Qed.

Lemma NoDup_pairs {A B} (l : list A) (k : list B) : NoDup l -> NoDup k -> NoDup (pairs l k).
Proof.
  intros Hl Hk. induction Hl as [|a l Ha Hl IH]; [constructor|].
  unfold pairs in *. cbn. apply NoDup_app. split_and!; [| |done].
  - apply NoDup_fmap_2; [|done]. by intros ? ? [= ->].
  - intros [a' b] Hin Hin'. apply elem_of_pairs in Hin'. set_solver.
Qed.

(** ** Pixels of a list of bytes *)

Definition pixel (l : list Z) (i : nat) : list Z := take 4 (drop i l).

Lemma length_pixel l i : (i + 4 <= length l)%nat -> length (pixel l i) = 4%nat.
Proof. intros H. unfold pixel. rewrite length_take, length_drop. lia. Qed.

Lemma length_blend a s d : length d = 4%nat -> length (blend a s d) = 4%nat.
Proof.
  intros H. unfold blend. destruct s as [|? [|? [|? [|? [|??]]]]]; try done.
  destruct d as [|? [|? [|? [|? [|??]]]]]; try done. cbn. by repeat case_match.
Qed.

Lemma pixel_overwrite_same i bs l :
  length bs = 4%nat -> (i + 4 <= length l)%nat -> pixel (overwrite i bs l) i = bs.
Proof.
  intros Hb Hi. unfold pixel, overwrite.
  rewrite drop_app_exact by (rewrite length_take; lia). by apply take_app_exact.
Qed.

Lemma pixel_overwrite_other i j bs l :
  length bs = 4%nat -> (i + 4 <= length l)%nat -> (i + 4 <= j \/ j + 4 <= i)%nat ->
  pixel (overwrite i bs l) j = pixel l j.
Proof.
  intros Hb Hi Hd. apply list_eq. intros k. unfold pixel, overwrite.
  destruct (decide (k < 4)%nat) as [Hk|Hk]; [|by rewrite !lookup_take_ge by lia].
  rewrite !lookup_take_lt, !lookup_drop by lia.
  assert (Ht : length (take i l) = i) by (rewrite length_take; lia).
  destruct Hd as [Hd|Hd].
  - rewrite lookup_app_r, Ht by lia. rewrite lookup_app_r by lia.
    rewrite lookup_drop. f_equal. lia.
  - rewrite lookup_app_l by lia. rewrite lookup_take_lt by lia. done.
Qed.

(** [blit_pixel] when nothing wraps. *)
Lemma blit_pixel_eq a src dst si di :
  0 <= si < 2 ^ 63 -> 0 <= di -> di + 4 <= len dst -> len dst < 2 ^ 63 ->
  blit_pixel a src si di dst =
  Ok (if decide (si + 4 <= len src)
      then overwrite (Z.to_nat di) (blend a (pixel src (Z.to_nat si)) (pixel dst (Z.to_nat di))) dst
      else dst).
Proof.
  intros Hs Hd Hl Hm. unfold blit_pixel. rewrite !as_u_id by (unfold in_u; lia).
  case_decide as D.
  - rewrite (proj2 (Z.ltb_ge _ _)) by lia. rewrite (proj2 (Z.ltb_ge _ _)) by lia. cbn [orb].
    unfold quad. rewrite !(proj2 (Z.ltb_ge _ _)) by lia. done.
  - by rewrite (proj2 (Z.ltb_lt _ _)) by lia.
Qed.

(** ** Painting a set of pixels

    [samp] gives the source pixel for a position relative to the offset; the
    destination is [w] pixels wide and [h] high, without padding. *)

Section paint.
Context (w h : Z) (Hw : 0 < w) (Hh : 0 < h).

Definition pos (y x : Z) : nat := Z.to_nat ((y * w + x) * 4).

Definition inside (y x : Z) : Prop := 0 <= y < h /\ 0 <= x < w.

#[local] Instance inside_dec y x : Decision (inside y x).
Proof. unfold inside. apply _. Defined.

Definition sized (dst : list Z) : Prop := length dst = Z.to_nat (h * w * 4).

Lemma pos_fits y x dst : sized dst -> inside y x -> (pos y x + 4 <= length dst)%nat.
Proof. unfold sized, inside, pos. intros -> [Hy Hx]. nia. Qed.

Lemma pos_disjoint y x y' x' :
  inside y x -> inside y' x' -> (y, x) <> (y', x') ->
  (pos y x + 4 <= pos y' x' \/ pos y' x' + 4 <= pos y x)%nat.
Proof.
  unfold inside, pos. intros [Hy Hx] [Hy' Hx'] Hne.
  destruct (Z.lt_trichotomy y y') as [?|[->|?]]; [nia| |nia].
  destruct (Z.lt_trichotomy x x') as [?|[->|?]]; [nia|done|nia].
Qed.

Definition paint_pixel (a : bool) (s : option (list Z)) (d : list Z) : list Z :=
  match s with Some s => blend a s d | None => d end.

Definition paint_step (a : bool) (samp : Z * Z -> option (list Z)) (oy ox : Z)
    (dst : list Z) (p : Z * Z) : list Z :=
  let y := oy + p.1 in
  let x := ox + p.2 in
  if decide (inside y x)
  then match samp p with
       | Some s => overwrite (pos y x) (blend a s (pixel dst (pos y x))) dst
       | None => dst
       end
  else dst.

Lemma paint_step_spec a samp oy ox dst p :
  sized dst ->
  sized (paint_step a samp oy ox dst p) /\
  forall y x, inside y x ->
    pixel (paint_step a samp oy ox dst p) (pos y x) =
    if decide ((y, x) = (oy + p.1, ox + p.2))
    then paint_pixel a (samp p) (pixel dst (pos y x)) else pixel dst (pos y x).
Proof.
  intros Hs. unfold paint_step. case_decide as Hi; cycle 1.
  { split; [done|]. intros y x Hyx. case_decide as E; [|done]. injection E as -> ->. done. }
  destruct (samp p) as [s|] eqn:Es.
  - assert (Hf := pos_fits _ _ dst Hs Hi).
    assert (Hb : length (blend a s (pixel dst (pos (oy + p.1) (ox + p.2)))) = 4%nat)
      by (apply length_blend, length_pixel, Hf).
    split; [unfold sized; by rewrite length_overwrite by lia|].
    intros y x Hyx. case_decide as E.
    + injection E as -> ->. by apply pixel_overwrite_same.
    + apply pixel_overwrite_other; [done|done|]. apply pos_disjoint; [done|done|congruence].
  - split; [done|]. intros y x _. cbn [paint_pixel]. by case_decide.
Qed.

Lemma paint_fold_spec a samp oy ox l dst :
  NoDup l -> sized dst ->
  sized (foldl (paint_step a samp oy ox) dst l) /\
  forall y x, inside y x ->
    pixel (foldl (paint_step a samp oy ox) dst l) (pos y x) =
    if decide ((y - oy, x - ox) ∈ l)
    then paint_pixel a (samp (y - oy, x - ox)) (pixel dst (pos y x)) else pixel dst (pos y x).
Proof.
  intros Hl. revert dst. induction Hl as [|p l Hp Hl IH]; intros dst Hs; cbn [foldl].
  { split; [done|]. intros y x _. case_decide as D; [|done]. by apply not_elem_of_nil in D. }
  destruct (paint_step_spec a samp oy ox dst p Hs) as [Hs1 H1].
  destruct (IH _ Hs1) as [Hs2 H2]. split; [done|].
  intros y x Hyx. rewrite H2, H1 by done. destruct p as [py px]. cbn [fst snd].
  destruct (decide ((y, x) = (oy + py, ox + px))) as [E|E].
  - assert (E' : (y - oy, x - ox) = (py, px)) by (injection E as -> ->; f_equal; lia).
    rewrite E'. rewrite decide_False by done. rewrite decide_True by set_solver. done.
  - assert (E' : (y - oy, x - ox) <> (py, px)) by (intros [= <- <-]; apply E; f_equal; lia).
    destruct (decide ((y - oy, x - ox) ∈ l)); [by rewrite decide_True by set_solver|].
    rewrite decide_False by set_solver. done.
Qed.
End paint.

(** ** What one surface paints

    The reference: a destination pixel at [(dy, dx)] from the surface's corner
    takes the nearest source pixel of the viewport's rectangle, if the
    destination rectangle covers it and the buffer has it. *)

Definition sample (bytes : list Z) (stride : Z) (r : Z * Z * Z * Z * Z * Z) (p : Z * Z) :
    option (list Z) :=
  let '(sx, sy, sw, sh, dw, dh) := r in
  let '(dy, dx) := p in
  if (0 <? sw) && (0 <? sh) && (0 <=? dx) && (dx <? dw) && (0 <=? dy) && (dy <? dh) then
    let si := (sy + dy * sh / dh) * stride + (sx + dx * sw / dw) * 4 in
    if si + 4 <=? len bytes then Some (pixel bytes (Z.to_nat si)) else None
  else None.

Definition paint_surface (sd : SurfaceData) (dy dx : Z) (d : list Z) : list Z :=
  match sd_current_buffer sd ≫= with_bytes with
  | None => d
  | Some (bytes, buf_w, buf_h, stride, format) =>
      paint_pixel (is_argb format)
        (sample bytes stride (viewport_rect (sd_viewport sd) buf_w buf_h) (dy, dx)) d
  end.

(** Sizes within what the index arithmetic holds, a buffer whose rows are all
    there, and no source rectangle that would be a plain crop at the origin. *)
Definition dim_ok (z : Z) : bool := (0 <=? z) && (z <? 2 ^ 29).

Definition surface_ok (sd : SurfaceData) : bool :=
  match sd_current_buffer sd ≫= with_bytes with
  | None => true
  | Some (bytes, buf_w, buf_h, stride, _) =>
      let '(sx, sy, sw, sh, dw, dh) := viewport_rect (sd_viewport sd) buf_w buf_h in
      forallb dim_ok [buf_w; buf_h; sx; sy; sw; sh; dw; dh] &&
      (0 <? buf_w) && (0 <? buf_h) &&
      (buf_w * 4 <=? stride) && (stride <? 2 ^ 31) && (len bytes =? buf_h * stride) &&
      (dh * sh <? 2 ^ 31) && (dw * sw <? 2 ^ 31) &&
      implb ((sw =? dw) && (sh =? dh) && (sx =? 0) && (sy =? 0)) ((sw =? buf_w) && (sh =? buf_h))
  end.

Lemma index_eq a s b :
  0 <= a < 2 ^ 31 -> 0 <= s < 2 ^ 31 -> 0 <= b < 2 ^ 31 ->
  usize_add (usize_mul (usize a) (usize s)) (usize_mul (usize b) 4) = a * s + b * 4 /\
  0 <= a * s + b * 4 < 2 ^ 63.
Proof.
  intros Ha Hs Hb. assert (0 <= a * s < 2 ^ 62) by nia.
  rewrite (as_u_id 64 a), (as_u_id 64 s), (as_u_id 64 b) by (unfold in_u; lia).
  rewrite (as_u_id 64 (a * s)), (as_u_id 64 (b * 4)) by (unfold in_u; lia).
  rewrite as_u_id by (unfold in_u; lia). lia.
Qed.

Lemma elem_of_range x a b : x ∈ range a b <-> a <= x < b.
Proof. rewrite elem_of_seqZ. lia. Qed.

Section blit.
Context (w h : Z) (Hw : 0 < w < 2 ^ 29) (Hh : 0 < h < 2 ^ 31).

Lemma sized_len dst : sized w h dst -> len dst = h * w * 4 /\ len dst < 2 ^ 63.
Proof. unfold sized, len. intros ->. nia. Qed.

(** One iteration of either loop, at a destination pixel that exists. *)
Lemma blit_pixel_paint a src stride dst y x sy sx :
  sized w h dst -> inside w h y x -> 0 <= stride < 2 ^ 31 ->
  0 <= sy < 2 ^ 31 -> 0 <= sx < 2 ^ 31 ->
  blit_pixel a src (usize_add (usize_mul (usize sy) (usize stride)) (usize_mul (usize sx) 4))
    (usize_add (usize_mul (usize y) (usize (w * 4))) (usize_mul (usize x) 4)) dst =
  Ok (let si := sy * stride + sx * 4 in
      if decide (si + 4 <= len src)
      then overwrite (pos w y x) (blend a (pixel src (Z.to_nat si)) (pixel dst (pos w y x))) dst
      else dst).
Proof.
  intros Hs Hi Hst Hsy Hsx. destruct Hi as [Hy Hx]. destruct (sized_len dst Hs) as [Hl Hl'].
  destruct (index_eq sy stride sx) as [-> Hsi]; [lia..|].
  destruct (index_eq y (w * 4) x) as [Ed Hdi]; [lia..|]. rewrite Ed.
  rewrite blit_pixel_eq by nia.
  unfold pos. replace ((y * w + x) * 4) with (y * (w * 4) + x * 4) by ring. done.
Qed.

(** The loop body of [blit_viewport], both guards together. *)
Definition viewport_pixel (ox oy : Z) (src : list Z) (stride : Z) (fmt : Format)
    (sx sy sw sh dw dh dy dx : Z) (dst : list Z) : result (list Z) stop :=
  let dst_y := i32_add oy dy in
  let dst_x := i32_add ox dx in
  if (dst_y <? 0) || (h <=? dst_y) then Ok dst
  else if (dst_x <? 0) || (w <=? dst_x) then Ok dst
  else
    blit_pixel (is_argb fmt) src
      (usize_add (usize_mul (usize (i32_add sy (Z.quot (i32_mul dy sh) dh))) (usize stride))
                 (usize_mul (usize (i32_add sx (Z.quot (i32_mul dx sw) dw))) 4))
      (usize_add (usize_mul (usize dst_y) (usize (w * 4))) (usize_mul (usize dst_x) 4)) dst.

Lemma scale_ok d s n : 0 <= d < n -> 0 <= s -> n * s < 2 ^ 31 ->
  Z.quot (i32_mul d s) n = d * s / n /\ 0 <= d * s / n <= s.
Proof.
  intros Hd Hs Hn. assert (0 <= d * s <= n * s) by nia.
  rewrite as_s_id by (unfold in_s; lia). rewrite Z.quot_div_nonneg by lia.
  split; [done|]. split; [apply Z.div_pos; lia|]. apply Z.div_le_upper_bound; nia.
Qed.

Lemma viewport_pixel_paint oy ox src stride fmt sx sy sw sh dw dh dy dx dst :
  sized w h dst -> - 2 ^ 29 < ox < 2 ^ 29 -> - 2 ^ 29 < oy < 2 ^ 29 ->
  0 <= stride < 2 ^ 31 -> forallb dim_ok [sx; sy; sw; sh; dw; dh] = true ->
  dh * sh < 2 ^ 31 -> dw * sw < 2 ^ 31 -> 0 < sw -> 0 < sh -> 0 <= dy < dh -> 0 <= dx < dw ->
  viewport_pixel ox oy src stride fmt sx sy sw sh dw dh dy dx dst =
  Ok (paint_step w h (is_argb fmt) (sample src stride (sx, sy, sw, sh, dw, dh)) oy ox dst (dy, dx)).
Proof.
  intros Hs Hox Hoy Hst Hd Hdh Hdw ? ? Hdy Hdx. cbn in Hd. unfold dim_ok in Hd. boolz.
  unfold viewport_pixel, paint_step. cbn [fst snd].
  rewrite (as_s_id 32 (oy + dy)), (as_s_id 32 (ox + dx)) by (unfold in_s; lia).
  destruct (scale_ok dy sh dh) as [-> Hqy]; [lia..|].
  destruct (scale_ok dx sw dw) as [-> Hqx]; [lia..|].
  rewrite (as_s_id 32 (sy + _)), (as_s_id 32 (sx + _)) by (unfold in_s; lia).
  case_decide as Hi.
  - destruct Hi as [Hiy Hix].
    rewrite !(proj2 (Z.ltb_ge _ 0)) by lia. rewrite !(proj2 (Z.leb_gt _ _)) by lia. cbn [orb].
    rewrite blit_pixel_paint by (try lia; done). f_equal. cbv zeta. unfold sample.
    rewrite !(proj2 (Z.ltb_lt _ _)), !(proj2 (Z.leb_le 0 _)) by lia. cbn [andb].
    case_decide; [by rewrite (proj2 (Z.leb_le _ _)) by lia | by rewrite (proj2 (Z.leb_gt _ _)) by lia].
  - case_match; [done|]. case_match; [done|]. boolz. destruct Hi. unfold inside. lia.
Qed.

Lemma blit_viewport_fold oy ox src stride fmt sx sy sw sh dw dh dst :
  sized w h dst -> - 2 ^ 29 < ox < 2 ^ 29 -> - 2 ^ 29 < oy < 2 ^ 29 ->
  0 <= stride < 2 ^ 31 -> forallb dim_ok [sx; sy; sw; sh; dw; dh] = true ->
  dh * sh < 2 ^ 31 -> dw * sw < 2 ^ 31 ->
  0 < sw -> 0 < sh -> 0 < dw -> 0 < dh ->
  blit_viewport w h (w * 4) ox oy src stride fmt sx sy sw sh dw dh dst =
  Ok (foldl (paint_step w h (is_argb fmt) (sample src stride (sx, sy, sw, sh, dw, dh)) oy ox) dst
        (pairs (range 0 dh) (range 0 dw))).
Proof.
  intros Hs Hox Hoy Hst Hd Hdh Hdw ? ? ? ?.
  unfold blit_viewport. rewrite !(proj2 (Z.leb_gt _ _)) by lia. cbn [orb].
  etrans; [apply (for_each_in_ext _ _ 
    (fun dy => for_each_in (range 0 dw) (viewport_pixel ox oy src stride fmt sx sy sw sh dw dh dy)))|].
  { intros dy d _. case_match eqn:E; [|].
    - symmetry. apply for_each_in_skip. intros dx _. unfold viewport_pixel. by rewrite E.
    - apply for_each_in_ext. intros dx d' _. unfold viewport_pixel. rewrite E. done. }
  rewrite for_each_in_nested. apply (for_each_in_fold (sized w h)); [|done].
  intros [dy dx] d Hin Hsz. apply elem_of_pairs in Hin as [Hdy Hdx].
  apply elem_of_range in Hdy, Hdx. cbn [fst snd].
  split; [by apply viewport_pixel_paint | apply paint_step_spec; [lia|lia|done]].
Qed.

Lemma blit_viewport_spec oy ox src stride fmt sx sy sw sh dw dh dst :
  sized w h dst -> - 2 ^ 29 < ox < 2 ^ 29 -> - 2 ^ 29 < oy < 2 ^ 29 ->
  0 <= stride < 2 ^ 31 -> forallb dim_ok [sx; sy; sw; sh; dw; dh] = true ->
  dh * sh < 2 ^ 31 -> dw * sw < 2 ^ 31 ->
  exists dst', blit_viewport w h (w * 4) ox oy src stride fmt sx sy sw sh dw dh dst = Ok dst' /\
    sized w h dst' /\
    forall y x, inside w h y x ->
      pixel dst' (pos w y x) =
      paint_pixel (is_argb fmt) (sample src stride (sx, sy, sw, sh, dw, dh) (y - oy, x - ox))
        (pixel dst (pos w y x)).
Proof.
  intros Hs Hox Hoy Hst Hd Hdh Hdw.
  destruct (decide (0 < sw /\ 0 < sh /\ 0 < dw /\ 0 < dh)) as [(? & ? & ? & ?)|Hno].
  - rewrite blit_viewport_fold by done. eexists. split; [done|].
    destruct (paint_fold_spec w h ltac:(lia) ltac:(lia) (is_argb fmt)
      (sample src stride (sx, sy, sw, sh, dw, dh)) oy ox (pairs (range 0 dh) (range 0 dw)) dst)
      as [Hz Hp]; [apply NoDup_pairs; apply NoDup_seqZ|done|].
    split; [done|]. intros y x Hyx. rewrite Hp by done. case_decide as D; [done|].
    rewrite elem_of_pairs, !elem_of_range in D. unfold sample.
    case_match eqn:E; [|done]. boolz. lia.
  - exists dst. split; [|split; [done|]].
    + unfold blit_viewport. case_match eqn:E; [done|]. boolz. destruct Hno. lia.
    + intros y x _. unfold sample. case_match eqn:E; [|done]. boolz. destruct Hno. lia.
Qed.

(** An identity viewport samples every pixel of the buffer. *)
Lemma sample_identity src stride sw sh dy dx :
  0 < sw -> 0 < sh -> sw * 4 <= stride -> len src = sh * stride ->
  sample src stride (0, 0, sw, sh, sw, sh) (dy, dx) =
  if decide (0 <= dx < sw /\ 0 <= dy < sh)
  then Some (pixel src (Z.to_nat (dy * stride + dx * 4))) else None.
Proof.
  intros ? ? Hst Hl. unfold sample. rewrite !Z.div_mul, !Z.add_0_l by lia.
  case_decide as D.
  - rewrite !(proj2 (Z.ltb_lt _ _)), !(proj2 (Z.leb_le 0 _)) by lia. cbn [andb].
    rewrite (proj2 (Z.leb_le _ _)) by nia. done.
  - case_match eqn:E; [|done]. boolz. destruct D. lia.
Qed.

Lemma blit_over_spec oy ox src sw sh stride fmt dst :
  sized w h dst -> - 2 ^ 29 < ox < 2 ^ 29 -> - 2 ^ 29 < oy < 2 ^ 29 ->
  0 < sw < 2 ^ 29 -> 0 < sh < 2 ^ 29 -> sw * 4 <= stride < 2 ^ 31 -> len src = sh * stride ->
  exists dst', blit_over w h (w * 4) ox oy src sw sh stride fmt dst = Ok dst' /\
    sized w h dst' /\
    forall y x, inside w h y x ->
      pixel dst' (pos w y x) =
      paint_pixel (is_argb fmt) (sample src stride (0, 0, sw, sh, sw, sh) (y - oy, x - ox))
        (pixel dst (pos w y x)).
Proof.
  intros Hs Hox Hoy Hsw Hsh Hst Hl.
  set (samp := fun p : Z * Z => sample src stride (0, 0, sw, sh, sw, sh) (p.1 - oy, p.2 - ox)).
  set (y0 := Z.max oy 0). set (y1 := Z.min (oy + sh) h).
  set (x0 := Z.max ox 0). set (x1 := Z.min (ox + sw) w).
  assert (E : blit_over w h (w * 4) ox oy src sw sh stride fmt dst =
    Ok (foldl (paint_step w h (is_argb fmt) samp 0 0) dst (pairs (range y0 y1) (range x0 x1)))).
  { unfold blit_over. rewrite !(proj2 (Z.leb_gt _ 0)) by lia. cbn [orb].
    rewrite (as_s_id 32 (ox + sw)), (as_s_id 32 (oy + sh)) by (unfold in_s; lia).
    fold x0 x1 y0 y1. case_match eqn:Eg.
    - assert (En : pairs (range y0 y1) (range x0 x1) = []); [|by rewrite En].
      apply elem_of_nil_inv. intros [y x]. rewrite elem_of_pairs, !elem_of_range. boolz. lia.
    - rewrite for_each_in_nested. apply (for_each_in_fold (sized w h)); [|done].
      intros [y x] d Hin Hsz. apply elem_of_pairs in Hin as [Hy Hx].
      apply elem_of_range in Hy, Hx. cbn [fst snd].
      split; [|apply paint_step_spec; [lia|lia|done]].
      rewrite (as_s_id 32 (y - oy)), (as_s_id 32 (x - ox)) by (unfold in_s; lia).
      assert (Hi : inside w h y x) by (unfold inside; lia).
      rewrite blit_pixel_paint by (try lia; done). f_equal. unfold paint_step. cbn [fst snd].
      rewrite !Z.add_0_l, (decide_True _ _ Hi). unfold samp. cbn [fst snd].
      rewrite sample_identity, (decide_True (P := _ /\ _)) by lia.
      cbv zeta. rewrite decide_True by nia. done. }
  rewrite E. eexists. split; [done|].
  destruct (paint_fold_spec w h ltac:(lia) ltac:(lia) (is_argb fmt) samp 0 0
    (pairs (range y0 y1) (range x0 x1)) dst) as [Hz Hp];
    [apply NoDup_pairs; apply NoDup_seqZ|done|].
  split; [done|]. intros y x Hyx. rewrite Hp by done.
  rewrite !Z.sub_0_r. unfold samp at 1. cbn [fst snd].
  case_decide as D; [done|]. rewrite elem_of_pairs, !elem_of_range in D.
  destruct Hyx. rewrite sample_identity by lia. rewrite decide_False by lia. done.
Qed.

Lemma blit_surface_spec sd oy ox dst :
  surface_ok sd = true -> sized w h dst -> - 2 ^ 29 < ox < 2 ^ 29 -> - 2 ^ 29 < oy < 2 ^ 29 ->
  exists dst', blit_surface w h (w * 4) sd ox oy dst = Ok dst' /\ sized w h dst' /\
    forall y x, inside w h y x ->
      pixel dst' (pos w y x) = paint_surface sd (y - oy) (x - ox) (pixel dst (pos w y x)).
Proof.
  intros Hok Hs Hox Hoy. unfold surface_ok in Hok. unfold blit_surface, paint_surface.
  destruct (_ ≫= _) as [[[[[bytes bw] bh] stride] fmt]|]; [|by eexists].
  destruct (viewport_rect _ _ _) as [[[[[sx sy] sw] sh] dw] dh].
  cbn [forallb] in Hok. boolz. unfold dim_ok in *. case_match eqn:Ef.
  - rewrite implb_true_iff in *. boolz.
    match goal with H : true = true -> _ |- _ => specialize (H eq_refl); boolz end. subst.
    apply blit_over_spec; try done; lia.
  - apply blit_viewport_spec; try done; [lia|]. cbn [forallb]. unfold dim_ok.
    repeat (apply andb_true_iff; split); try done; (apply Z.leb_le || apply Z.ltb_lt); lia.
Qed.
End blit.

(** ** The painter's list of a surface tree *)

Fixpoint painted (fuel : nat) (ss : surfaces) (s : surface) (ox oy : Z) :
    list (SurfaceData * Z * Z) :=
  match fuel with
  | O => []
  | S fuel =>
      match ss !! s with
      | None => []
      | Some sd =>
          (sd, ox, oy) ::
          (sd_children sd ≫= fun c => painted fuel ss (ch_surface c) (ox + ch_x c) (oy + ch_y c))
      end
  end.

Definition layer_ok (l : SurfaceData * Z * Z) : bool :=
  let '(sd, ox, oy) := l in
  surface_ok sd && (- 2 ^ 29 <? ox) && (ox <? 2 ^ 29) && (- 2 ^ 29 <? oy) && (oy <? 2 ^ 29).

(** The colour of a pixel: every layer in turn, bottom to top. *)
Definition paint_layers (y x : Z) (ls : list (SurfaceData * Z * Z)) (d : list Z) : list Z :=
  foldl (fun d '(sd, ox, oy) => paint_surface sd (y - oy) (x - ox) d) d ls.

(** Children have a smaller rank: the surfaces below form a tree. *)
Definition ranked (rk : surface -> nat) (ss : surfaces) : Prop :=
  forall s sd c, ss !! s = Some sd -> c ∈ sd_children sd -> (rk (ch_surface c) < rk s)%nat.

Lemma paint_layers_app y x l1 l2 d :
  paint_layers y x (l1 ++ l2) d = paint_layers y x l2 (paint_layers y x l1 d).
Proof. apply foldl_app. Qed.

Section tree.
Context (w h : Z) (Hw : 0 < w < 2 ^ 29) (Hh : 0 < h < 2 ^ 31) (ss : surfaces).

(** [m] turns [dst] into the picture that [ls] paints over it. *)
Definition paints (m : result (list Z) stop) (ls : list (SurfaceData * Z * Z)) (dst : list Z) : Prop :=
  exists dst', m = Ok dst' /\ sized w h dst' /\
    forall y x, inside w h y x ->
      pixel dst' (pos w y x) = paint_layers y x ls (pixel dst (pos w y x)).

Lemma paints_children (f : SubsurfaceChild -> list Z -> result (list Z) stop) g cs dst :
  (forall c dst, c ∈ cs -> sized w h dst -> paints (f c dst) (g c) dst) -> sized w h dst ->
  paints (for_each_in cs f dst) (cs ≫= g) dst.
Proof.
  revert dst. induction cs as [|c cs IH]; intros dst Hf Hs; cbn.
  { exists dst. by split_and!. }
  destruct (Hf c dst) as (d1 & -> & Hs1 & Hp1); [set_solver|done|].
  destruct (IH d1) as (d2 & -> & Hs2 & Hp2); [set_solver|done|].
  exists d2. split_and!; [done|done|]. intros y x Hyx.
  by rewrite Hp2, Hp1, paint_layers_app by done.
Qed.

(** The 32-bit offset of a child is exact, or nothing is painted at it. *)
Lemma child_offsets fuel s ox oy dst :
  forallb layer_ok (painted fuel ss s ox oy) = true ->
  composite_into fuel ss w h (w * 4) s (as_s 32 ox) (as_s 32 oy) dst =
  composite_into fuel ss w h (w * 4) s ox oy dst.
Proof.
  destruct fuel as [|fuel]; [done|]. cbn. destruct (ss !! s) as [sd|]; [|done].
  cbn [forallb]. unfold layer_ok at 1. intros H. boolz.
  by rewrite !as_s_id by (unfold in_s; lia).
Qed.

Lemma forallb_bind {A B} (p : B -> bool) (f : A -> list B) l a :
  forallb p (l ≫= f) = true -> a ∈ l -> forallb p (f a) = true.
Proof.
  intros H Ha. apply forallb_forall. intros b Hb. rewrite forallb_forall in H. apply H.
  apply list_elem_of_In, list_elem_of_bind. exists a. split; [by apply list_elem_of_In|done].
Qed.

Lemma composite_into_paints rk fuel s ox oy dst :
  ranked rk ss -> (rk s < fuel)%nat -> forallb layer_ok (painted fuel ss s ox oy) = true ->
  sized w h dst ->
  paints (composite_into fuel ss w h (w * 4) s ox oy dst) (painted fuel ss s ox oy) dst.
Proof.
  intros Hrk. revert s ox oy dst. induction fuel as [|fuel IH]; intros s ox oy dst Hf Hl Hs; [lia|].
  cbn in *. destruct (ss !! s) as [sd|] eqn:Es; [|by exists dst; split_and!].
  cbn [forallb] in Hl. apply andb_true_iff in Hl as [Hok Hl]. cbn [layer_ok] in Hok. boolz.
  destruct (blit_surface_spec w h Hw Hh sd oy ox dst) as (d1 & -> & Hs1 & Hp1); [done..|].
  destruct (paints_children (fun c => composite_into fuel ss w h (w * 4) (ch_surface c)
      (i32_add ox (ch_x c)) (i32_add oy (ch_y c)))
    (fun c => painted fuel ss (ch_surface c) (ox + ch_x c) (oy + ch_y c))
    (sd_children sd) d1) as (d2 & -> & Hs2 & Hp2); [|done|].
  - intros c d Hc Hd. pose proof (forallb_bind _ _ _ _ Hl Hc) as Hlc. cbn in Hlc.
    rewrite child_offsets by done. apply IH; [|done|done]. specialize (Hrk s sd c Es Hc). lia.
  - exists d2. split_and!; [done|done|]. intros y x Hyx. rewrite Hp2, Hp1 by done. done.
Qed.
End tree.

Lemma resize_zero_eq needed buf :
  0 <= needed < 2 ^ 63 -> resize_zero needed buf = Ok (replicate (Z.to_nat needed) 0).
Proof.
  intros H. unfold resize_zero. rewrite (proj2 (Z.leb_gt _ _)) by lia. cbv zeta. do 2 f_equal.
  unfold len. case_match; boolz; [lia|].
  rewrite length_app, length_take, length_replicate. lia.
Qed.

Lemma pixel_replicate n i : (i + 4 <= n)%nat -> pixel (replicate n 0) i = [0; 0; 0; 0].
Proof.
  intros H. unfold pixel. rewrite drop_replicate, take_replicate.
  by replace (4 `min` (n - i))%nat with 4%nat by lia.
Qed.

Lemma frame_dims_stride sd fallback w h stride :
  frame_dims sd fallback = Some (w, h, stride) -> 0 < w < 2 ^ 29 -> stride = w * 4.
Proof.
  unfold frame_dims. destruct (surface_dims _ _) as [a b]. case_match; [done|].
  destruct (if _ : bool then _ else _) as [w' h']. intros [= <- <- <-] Hw.
  apply as_s_id; [done|]. unfold in_s. lia.
Qed.

(** C11: the picture of a window is what its surface tree paints: when the
    surfaces below the root form a tree and each of them is one the code handles
    ([layer_ok]: all rows of its buffer are there, sizes and positions are within
    the index arithmetic, its source rectangle is not negative and is not an
    unscaled crop at the origin that is smaller than the buffer), and the output
    is less than 2^29 wide and 2^31 high, compositing does not panic and does not
    run out of stack, the output has the size of the root (or the session), and each
    of its pixels is the source-over of exactly the surfaces that cover it, in
    stacking order from transparent black, each sampled through its viewport by
    nearest neighbour and clipped to the output; whatever the reused buffer held
    before does not show. Without these conditions it is not so: see
    [negative_source_panics] and [origin_crop_ignored]. *)
Theorem composite_into_buf_paints rk fuel ss root sd buf fallback w h stride :
  ss !! root = Some sd -> frame_dims sd fallback = Some (w, h, stride) ->
  0 < w < 2 ^ 29 -> 0 < h < 2 ^ 31 -> ranked rk ss -> (rk root < fuel)%nat ->
  forallb layer_ok (painted fuel ss root 0 0) = true ->
  exists out, composite_into_buf fuel ss root buf fallback = Ok (out, Some (w, h, stride)) /\
    len out = h * stride /\
    forall y x, inside w h y x ->
      pixel out (pos w y x) = paint_layers y x (painted fuel ss root 0 0) [0; 0; 0; 0].
Proof.
  intros Es Ed Hw Hh Hrk Hf Hl. pose proof (frame_dims_stride _ _ _ _ _ Ed Hw) as ->.
  unfold composite_into_buf. rewrite Es. cbn [mbind option_bind]. rewrite Ed.
  assert (0 <= h * (w * 4) < 2 ^ 62) by nia.
  rewrite (as_u_id 64 h), (as_u_id 64 (w * 4)), as_u_id by (unfold in_u; lia).
  rewrite resize_zero_eq by lia.
  assert (Hs : sized w h (replicate (Z.to_nat (h * (w * 4))) 0)).
  { unfold sized. rewrite length_replicate. f_equal. ring. }
  destruct (composite_into_paints w h Hw Hh ss rk fuel root 0 0 _ Hrk Hf Hl Hs)
    as (out & -> & Hso & Hp).
  exists out. split_and!; [done| |].
  - destruct (sized_len w h Hw Hh out Hso). lia.
  - intros y x Hyx. rewrite Hp by done. f_equal. apply pixel_replicate.
    pose proof (pos_fits w h ltac:(lia) ltac:(lia) y x _ Hs Hyx) as P. rewrite length_replicate in P. apply P.
Qed.

(** ** Requests that break compositing *)

Lemma for_each_in_last {A S} (l : list A) a (f : A -> S -> result S stop) s out :
  for_each_in (l ++ [a]) f s = Ok out -> exists s', f a s' = Ok out.
Proof.
  rewrite for_each_in_app. case_match; [|done]. cbn. case_match eqn:E; [|done]. intros [= <-]. eauto.
Qed.

(** A surface that has been made a subsurface of itself can never be
    composited again: whatever the depth of the stack, no result is returned. *)
Theorem self_subsurface_never_returns ss s sd fuel w h stride ox oy dst out :
  ss !! s = Some sd ->
  composite_into fuel (get_subsurface s s ss) w h stride s ox oy dst <> Ok out.
Proof.
  intros Es. revert ox oy dst out. induction fuel as [|fuel IH]; intros ox oy dst out; [done|].
  cbn [composite_into]. unfold get_subsurface, upd_surface at 1. rewrite lookup_alter_eq, Es.
  cbn [fmap option_fmap option_map with_children sd_children].
  destruct (blit_surface _ _ _ _ _ _ _); [|done]. intros E.
  apply for_each_in_last in E as [d E]. cbn [ch_surface ch_x ch_y] in E. by apply IH in E.
Qed.

(** A 1x1 window whose client sets a source rectangle that starts above the
    buffer: [set_source] looks at the sign of [x] only. *)
Definition tiny_window : surfaces :=
  {[ 0%nat := {| sd_current_buffer := Some (SinglePixel 10 20 30 255); sd_children := [];
                 sd_viewport := {| vp_src := None; vp_dst := None |} |} ]}.

(** A negative vertical source offset crashes the capture: the source index
    wraps past the guard that should have skipped the pixel. *)
Theorem negative_source_panics :
  composite 1 (set_destination 0 4 4 (set_source 0 0 (-256) 256 256 tiny_window)) 0 (4, 4) =
  Err Panics.
Proof. vm_compute. reflexivity. Qed.

(** A 2x1 buffer, red then blue, cropped to its first pixel. *)
Definition two_pixels : BufferKind :=
  Shm {| shm_pool := {| pool_mmap := Some [0; 0; 255; 255; 255; 0; 0; 255] |};
         shm_offset := 0; shm_width := 2; shm_height := 1; shm_stride := 8;
         shm_format := Argb8888 |}.

Definition cropped_window : surfaces :=
  set_source 0 0 0 256 256
    {[ 0%nat := {| sd_current_buffer := Some two_pixels; sd_children := [];
                   sd_viewport := {| vp_src := None; vp_dst := None |} |} ]}.

(** A source rectangle at the origin that is not scaled is ignored: the
    pixel next to a 1x1 crop shows the buffer's second pixel, which the crop
    excludes and the reference leaves transparent. *)
Theorem origin_crop_ignored :
  exists out, composite_into_buf 1 cropped_window 0 [] (2, 1) = Ok (out, Some (2, 1, 8)) /\
    pixel out (pos 2 0 1) = [255; 0; 0; 255] /\
    paint_layers 0 1 (painted 1 cropped_window 0 0 0) [0; 0; 0; 0] = [0; 0; 0; 0].
Proof. eexists. split_and!; vm_compute; reflexivity. Qed.

(** ** Restacking *)

Lemma position_split id l i :
  position id l = Some i ->
  exists c l1 l2, l = l1 ++ c :: l2 /\ length l1 = i /\ ch_surface c = id /\
    Forall (fun d => ch_surface d <> id) l1.
Proof.
  unfold position. intros H. apply fmap_Some in H as ([j c] & H & ->). cbn.
  apply list_find_Some in H as (Hj & Hc & Hall).
  exists c, (take j l), (drop (S j) l). pose proof (lookup_lt_Some _ _ _ Hj).
  split_and!; [by rewrite take_drop_middle | rewrite length_take; lia | done |].
  apply Forall_lookup. intros k d Hk. apply lookup_take_Some in Hk as [Hk Hlt].
  by apply (Hall k d).
Qed.

Lemma position_None id l : position id l = None -> Forall (fun d => ch_surface d <> id) l.
Proof.
  unfold position. intros H%fmap_None. by apply list_find_None in H.
Qed.

Lemma position_in id l : id ∈ ch_surface <$> l -> exists i, position id l = Some i.
Proof.
  intros (c & -> & Hc)%list_elem_of_fmap. destruct (position (ch_surface c) l) as [i|] eqn:E; [eauto|].
  apply position_None in E. rewrite Forall_forall in E. by apply E in Hc.
Qed.

Lemma filter_all {A} (P : A -> Prop) `{forall x, Decision (P x)} (l : list A) :
  Forall P l -> filter P l = l.
Proof. induction 1 as [|x l Hx _ IH]; [done|]. by rewrite filter_cons_True, IH. Qed.

Lemma filter_other id l1 c l2 :
  NoDup (ch_surface <$> l1 ++ c :: l2) -> ch_surface c = id ->
  filter (fun d => ch_surface d <> id) (l1 ++ c :: l2) = l1 ++ l2.
Proof.
  rewrite fmap_app, fmap_cons. intros (_ & H1 & H2)%NoDup_app <-.
  apply NoDup_cons in H2 as [H2 _].
  rewrite filter_app, filter_cons_False by naive_solver.
  rewrite !filter_all; [done| |]; apply Forall_forall; intros d Hd E.
  - apply H2. rewrite <- E. by apply list_elem_of_fmap_2.
  - apply (H1 (ch_surface d)); [by apply list_elem_of_fmap_2|]. rewrite E. by left.
Qed.

Lemma insert_at_app l1 c l2 : insert_at (length l1) c (l1 ++ l2) = l1 ++ c :: l2.
Proof. unfold insert_at. by rewrite take_app_length, drop_app_length. Qed.

(** Restacking a subsurface moves it directly above, or directly below, the
    sibling it names and keeps the order of all the others. *)
Theorem restack_order child sibling parent cs :
  NoDup (ch_surface <$> cs) -> child ∈ ch_surface <$> cs -> sibling ∈ ch_surface <$> cs ->
  child <> sibling -> sibling <> parent ->
  exists c s l1 l2, c ∈ cs /\ ch_surface c = child /\ ch_surface s = sibling /\
    filter (fun d => ch_surface d <> child) cs = l1 ++ s :: l2 /\
    stack_above child sibling parent cs = l1 ++ s :: c :: l2 /\
    stack_below child sibling parent cs = l1 ++ c :: s :: l2.
Proof.
  intros Hnd Hc Hs Hne Hnp. destruct (position_in child cs Hc) as [ci Ei].
  destruct (position_split _ _ _ Ei) as (c & a & b & -> & <- & Ec & _).
  assert (Hs' : sibling ∈ ch_surface <$> a ++ b).
  { rewrite fmap_app, fmap_cons in Hs. rewrite fmap_app. set_solver. }
  destruct (position_in sibling (a ++ b) Hs') as [si Esi].
  destruct (position_split _ _ _ Esi) as (s & l1 & l2 & El & <- & Ess & _).
  exists c, s, l1, l2. split_and!; [set_solver|done|done|by rewrite filter_other| |].
  - unfold stack_above. rewrite Ei, list_lookup_middle, delete_middle by done.
    cbv zeta. rewrite decide_False, Esi, El by done.
    replace (S (length l1)) with (length (l1 ++ [s])) by (rewrite length_app; cbn; lia).
    replace (l1 ++ s :: l2) with ((l1 ++ [s]) ++ l2) by (by rewrite <- app_assoc).
    by rewrite insert_at_app, <- app_assoc.
  - unfold stack_below. rewrite Ei, list_lookup_middle, delete_middle by done.
    cbv zeta. rewrite decide_False, Esi, El by done. apply insert_at_app.
Qed.

Lemma restack_order_witness :
  let cs := [ {| ch_surface := 1; ch_x := 0; ch_y := 0 |}; {| ch_surface := 2; ch_x := 5; ch_y := 0 |};
              {| ch_surface := 3; ch_x := 9; ch_y := 0 |} ] in
  exists c s l1 l2, c ∈ cs /\ ch_surface c = 1%nat /\ ch_surface s = 3%nat /\
    filter (fun d => ch_surface d <> 1%nat) cs = l1 ++ s :: l2 /\
    stack_above 1 3 0 cs = l1 ++ s :: c :: l2 /\ stack_below 1 3 0 cs = l1 ++ c :: s :: l2.
Proof.
  intros cs. apply (restack_order 1 3 0 cs).
  - apply (bool_decide_unpack _). vm_compute. exact I.
  - apply (bool_decide_unpack _). vm_compute. exact I.
  - apply (bool_decide_unpack _). vm_compute. exact I.
  - discriminate.
  - discriminate.
Defined.

(** A window with an opaque background and a translucent subsurface to its
    right. *)
Definition sample_tree : surfaces :=
  <[0%nat := {| sd_current_buffer := Some (SinglePixel 10 20 30 255);
                sd_children := [ {| ch_surface := 1; ch_x := 1; ch_y := 0 |} ];
                sd_viewport := {| vp_src := None; vp_dst := Some (2, 1) |} |}]>
  {[1%nat := {| sd_current_buffer := Some (SinglePixel 100 0 0 128);
                sd_children := [];
                sd_viewport := {| vp_src := None; vp_dst := None |} |} ]}.

Lemma sample_tree_ranked : ranked (fun s => 1 - s)%nat sample_tree.
Proof.
  intros s sd c E Hc. unfold sample_tree in E.
  apply lookup_insert_Some in E as [[<- <-]|[_ [<- <-]%lookup_singleton_Some]]; cbn in *.
  - apply list_elem_of_singleton in Hc as ->. cbn. lia.
  - by apply not_elem_of_nil in Hc.
Qed.

Lemma composite_into_buf_paints_witness :
  exists out, composite_into_buf 2 sample_tree 0 [7] (2, 1) = Ok (out, Some (2, 1, 8)) /\
    pixel out (pos 2 0 1) = [104; 9; 14; 255].
Proof.
  destruct (composite_into_buf_paints (fun s => 1 - s)%nat 2 sample_tree 0
    {| sd_current_buffer := Some (SinglePixel 10 20 30 255);
       sd_children := [ {| ch_surface := 1; ch_x := 1; ch_y := 0 |} ];
       sd_viewport := {| vp_src := None; vp_dst := Some (2, 1) |} |} [7] (2, 1) 2 1 8)
    as (out & E & _ & Hp); [vm_compute; reflexivity | vm_compute; reflexivity | lia | lia
      | apply sample_tree_ranked | cbn; lia | vm_compute; reflexivity |].
  exists out. split; [exact E|]. rewrite Hp by (unfold inside; lia). vm_compute. reflexivity.
Defined.

Lemma self_subsurface_never_returns_witness :
  tiny_window !! 0%nat <> None /\
  forall out, composite_into 1000 (get_subsurface 0 0 tiny_window) 4 4 16 0 0 0 [] <> Ok out.
Proof.
  split; [vm_compute; discriminate|]. intros out.
  exact (self_subsurface_never_returns tiny_window 0
    {| sd_current_buffer := Some (SinglePixel 10 20 30 255); sd_children := [];
       sd_viewport := {| vp_src := None; vp_dst := None |} |} 1000 4 4 16 0 0 [] out eq_refl).
Defined.
