(* ===== verification/Floats.v ===== *)
(** * Floating-point values of the session

    An [f64] of the source is a [spec_float] of 53 bits of precision, with the
    operations of IEEE 754 as the Standard Library specifies them; an [f32] one
    of 24 bits. The payload of a NaN is not kept. *)

From Stdlib Require Import ZArith Lia SpecFloat.
From stdpp Require Import prelude.
From S2P Require Import Prelude Words.

Open Scope Z_scope.

Abbreviation f64 := spec_float.
Abbreviation f32 := spec_float.

#[global] Instance spec_float_eq_dec : EqDecision spec_float.
Proof. solve_decision. Defined.

Definition f64_zero : f64 := S754_zero false.

(** [x + y]. *)
Definition f64_add : f64 -> f64 -> f64 := SFadd 53 1024.

(** [x - y] and [x / y]. *)
Definition f64_sub : f64 -> f64 -> f64 := SFsub 53 1024.
Definition f64_div : f64 -> f64 -> f64 := SFdiv 53 1024.

(** [x * y], [x < y] and [f64::max]. *)
Definition f64_mul : f64 -> f64 -> f64 := SFmul 53 1024.
Definition f64_lt : f64 -> f64 -> bool := SFltb.

Definition f64_max (x y : f64) : f64 :=
  match x with S754_nan => y | _ => if f64_lt x y then y else x end.

(** [n as f64] of an integer. *)
Definition f64_of_int (n : Z) : f64 := binary_normalize 53 1024 n 0 false.

(** [x != 0.0]: both zeros are equal to zero, a NaN to nothing. *)
Definition f64_nonzero (x : f64) : bool := negb (SFeqb x f64_zero).

(** [x as f32]. *)
Definition f32_of_f64 (x : f64) : f32 :=
  match x with
  | S754_finite s m e => binary_round 24 128 s m e
  | _ => x
  end.

(** [f64::from_bits]: sign, biased exponent, fraction. *)
Definition f64_of_bits (b : Z) : f64 :=
  let s := Z.testbit b 63 in
  let e := Z.land (Z.shiftr b 52) 2047 in
  let m := Z.land b (2 ^ 52 - 1) in
  if e =? 2047 then (if m =? 0 then S754_infinity s else S754_nan)
  else if e =? 0 then
    match m with Zpos p => S754_finite s p (-1074) | _ => S754_zero s end
  else
    match m + 2 ^ 52 with Zpos p => S754_finite s p (e - 1075) | _ => S754_zero s end.

(** [f32::to_bits], with the one NaN the model has. *)
Definition f32_to_bits (x : f32) : Z :=
  let sign (s : bool) := if s then 2 ^ 31 else 0 in
  match x with
  | S754_zero s => sign s
  | S754_infinity s => sign s + Z.shiftl 255 23
  | S754_nan => Z.shiftl 255 23 + 2 ^ 22
  | S754_finite s m e =>
      sign s + (if 2 ^ 23 <=? Zpos m then Z.shiftl (e + 150) 23 + (Zpos m - 2 ^ 23) else Zpos m)
  end.

(** [Duration::as_secs_f64] of a duration in nanoseconds. *)
Definition as_secs_f64 (ns : Z) : f64 :=
  f64_add (f64_of_int (ns / 1000000000)) (f64_div (f64_of_int (ns mod 1000000000)) (f64_of_int 1000000000)).

(** Adding the inset zero changes no number but the sign of a negative zero, and
    that not beyond equality. *)
Lemma f64_add_zero x : SFeqb (f64_add x (f64_of_int 0)) x = SFeqb x x.
Proof. by destruct x as [[]|[]| |]. Qed.

Example f64_add_ex :
  f64_add (f64_of_bits 4613937818241073152) (f64_of_int 12) = f64_of_int 15.
Proof. reflexivity. Qed.

Example f64_of_bits_ex : f64_of_bits 4609434218613702656 = S754_finite false 6755399441055744 (-52).
Proof. reflexivity. Qed.

Example f32_to_bits_ex : f32_to_bits (f32_of_f64 (f64_of_bits 4613937818241073152)) = 1077936128.
Proof. reflexivity. Qed.

Example as_secs_ex : as_secs_f64 1500000000 = f64_of_bits 4609434218613702656.
Proof. reflexivity. Qed.
