(* ===== verification/Pixels.v ===== *)
(** * Pixel conversions of the recorder, the viewer and screenshots
    ([crates/waymux-session/src/recording.rs], [viewer/cursor.rs], [control.rs])

    Packing strided rows, BGRA to NV12, ARGB cursor images to RGBA, flipping rows,
    and the swizzle of a screenshot before it is compressed. Indices are [usize]
    and sizes [u32], wrapping as in the release profile; a slice out of range is a
    panic. *)

From Stdlib Require Import ZArith Lia.
From S2P Require Import Prelude Words Composite.
From stdpp Require Import prelude numbers list.

Open Scope Z_scope.

(** ** Slices and loops *)

(** [&l\[a..b\]]. *)
Definition slice (l : list Z) (a b : Z) : result (list Z) stop :=
  if (b <? a) || (len l <? b) then Err Panics
  else Ok (take (Z.to_nat (b - a)) (drop (Z.to_nat a) l)).

(** A row of results, in order; the first failure is the result. *)
Fixpoint map_res {A B} (f : A -> result B stop) (l : list A) : result (list B) stop :=
  match l with
  | [] => Ok []
  | a :: l' => let? b := f a in let? bs := map_res f l' in Ok (b :: bs)
  end.

(** The byte at an index that a slice of that length has. *)
Definition byte_at (l : list Z) (i : Z) : Z := nth (Z.to_nat i) l 0.

(** [v.clamp(0, 255) as u8]. *)
Definition clamp_u8 (v : Z) : Z := Z.min (Z.max v 0) 255.

(** ** Packing and NV12 ([recording.rs]) *)

Definition destride_bgra (src : list Z) (width height stride : Z) : result (list Z) stop :=
  let row_bytes := as_u 32 (width * 4) in
  let total := usize_mul row_bytes height in
  if stride =? row_bytes then slice src 0 total
  else
    let? rows := map_res (fun row =>
      slice src (usize_mul row stride) (usize_add (usize_mul row stride) row_bytes))
      (range 0 height) in
    Ok (concat rows).

(** Luma of one pixel at byte offset [p] of a row. *)
Definition luma (row : list Z) (p : Z) : Z :=
  let b := byte_at row p in
  let g := byte_at row (p + 1) in
  let r := byte_at row (p + 2) in
  let y := Z.shiftr (47 * r + 157 * g + 16 * b + 128) 8 in
  clamp_u8 (y + 16).

(** Chroma of the 2x2 block whose left column is [x]. *)
Definition chroma (r0 r1 : list Z) (x : Z) : list Z :=
  let avg off :=
    Z.quot (byte_at r0 (x * 4 + off) + byte_at r0 ((x + 1) * 4 + off)
            + byte_at r1 (x * 4 + off) + byte_at r1 ((x + 1) * 4 + off)) 4 in
  let b := avg 0 in
  let g := avg 1 in
  let r := avg 2 in
  let cb := Z.shiftr (- 26 * r - 87 * g + 112 * b + 128) 8 in
  let cr := Z.shiftr (112 * r - 102 * g - 10 * b + 128) 8 in
  [clamp_u8 (cb + 128); clamp_u8 (cr + 128)].

(** Row [row] of the packed frame. *)
Definition src_row (src : list Z) (w row : Z) : result (list Z) stop :=
  slice src (usize_mul (usize_mul row w) 4) (usize_mul (usize_mul (usize_add row 1) w) 4).

Definition y_row (src : list Z) (w row : Z) : result (list Z) stop :=
  let? r := src_row src w row in
  Ok (map (fun x => luma r (x * 4)) (range 0 w)).

(** A row of the interleaved plane; an odd width leaves its last byte zero. *)
Definition uv_row (src : list Z) (w row : Z) : result (list Z) stop :=
  let? r0 := src_row src w (row * 2) in
  let? r1 := src_row src w (row * 2 + 1) in
  Ok (concat (map (fun bx => chroma r0 r1 (bx * 2)) (range 0 (w / 2)))
      ++ replicate (Z.to_nat (w mod 2)) 0).

(** [par_chunks_exact_mut(w)] panics on a zero width; bytes past the last whole
    chunk stay zero. *)
Definition bgra_to_nv12 (src : list Z) (width height : Z) : result (list Z) stop :=
  let w := width in
  let h := height in
  let y_size := w * h in
  let uv_size := w * h / 2 in
  if 2 ^ 63 <=? y_size + uv_size then Err Panics
  else if w =? 0 then Err Panics
  else
    let? ys := map_res (y_row src w) (range 0 (y_size / w)) in
    let? uvs := map_res (uv_row src w) (range 0 (uv_size / w)) in
    Ok (concat ys ++ concat uvs ++ replicate (Z.to_nat (uv_size mod w)) 0).

Definition bgra_to_nv12_destride (src : list Z) (width height stride : Z) :
    result (list Z) stop :=
  let row_bytes := as_u 32 (width * 4) in
  if stride =? row_bytes then bgra_to_nv12 src width height
  else
    let? packed := destride_bgra src width height (as_u 32 stride) in
    bgra_to_nv12 packed width height.

(** ** Cursor images ([viewer/cursor.rs]) *)

Definition MAX_CURSOR_DIM : Z := 256.

(** [l\[i\] = v]. *)
Definition set_byte (i v : Z) (l : list Z) : result (list Z) stop :=
  if len l <=? i then Err Panics else Ok (<[Z.to_nat i := v]> l).

Definition rgba_pixel (src : list Z) (w stride y x : Z) (out : list Z) : result (list Z) stop :=
  let si := as_u 32 (as_u 32 (y * stride) + as_u 32 (x * 4)) in
  let di := as_u 32 (as_u 32 (as_u 32 (y * w) + x) * 4) in
  if len src <=? si + 3 then Ok out
  else
    let? out := set_byte di (byte_at src (si + 2)) out in
    let? out := set_byte (di + 1) (byte_at src (si + 1)) out in
    let? out := set_byte (di + 2) (byte_at src si) out in
    set_byte (di + 3) (byte_at src (si + 3)) out.

Definition argb8888_bytes_to_rgba (src : list Z) (w h stride : Z) : result (list Z) stop :=
  for_each_in (range 0 h) (fun y =>
    for_each_in (range 0 w) (fun x => rgba_pixel src w stride y x))
    (replicate (Z.to_nat (as_u 32 (as_u 32 (w * h) * 4))) 0).

(** The guard keeps the copy in range, so nothing panics. *)
Definition flip_row (src : list Z) (row h y : Z) (out : list Z) : list Z :=
  let sy := (h - 1 - y) * row in
  let dy := y * row in
  if (sy + row <=? len src) && (dy + row <=? len out) then
    overwrite (Z.to_nat dy) (take (Z.to_nat row) (drop (Z.to_nat sy) src)) out
  else out.

Definition flip_rows_rgba (src : list Z) (w h : Z) : list Z :=
  for_each (range 0 h) (flip_row src (as_u 32 (w * 4)) h) (replicate (length src) 0).

(** ** Screenshots ([control.rs], the part of [encode_png] before the encoder) *)

Inductive png_error := NegativeWidth | NegativeHeight | NegativeStride | UnsupportedFormat | ShortBuffer.

Definition png_pixel (pixels : list Z) (has_alpha : bool) (p : Z) : result (list Z) png_error :=
  if len pixels <? p + 4 then Err ShortBuffer
  else
    Ok ([byte_at pixels (p + 2); byte_at pixels (p + 1); byte_at pixels p] ++
        (if has_alpha then [byte_at pixels (p + 3)] else [])).

Fixpoint map_png {A} (f : A -> result (list Z) png_error) (l : list A) : result (list Z) png_error :=
  match l with
  | [] => Ok []
  | a :: l' => let? b := f a in let? bs := map_png f l' in Ok (b ++ bs)
  end.

(** The samples handed to the PNG encoder with the size and colour type. *)
Definition png_samples (pixels : list Z) (width height stride : Z) (format : Format) :
    result (Z * Z * bool * list Z) png_error :=
  if width <? 0 then Err NegativeWidth
  else if height <? 0 then Err NegativeHeight
  else if stride <? 0 then Err NegativeStride
  else
    match format with
    | OtherFormat _ => Err UnsupportedFormat
    | _ =>
        let has_alpha := is_argb format in
        let? out := map_png (fun y =>
          map_png (fun x => png_pixel pixels has_alpha (y * stride + x * 4)) (range 0 width))
          (range 0 height) in
        Ok (width, height, has_alpha, out)
    end.

(** ** Lemmas on slices and rows *)

Lemma usize_id z : 0 <= z < 2 ^ 64 -> usize z = z.
Proof. intros. by apply as_u_id. Qed.

Lemma slice_ok l a b : 0 <= a <= b -> b <= len l ->
  slice l a b = Ok (take (Z.to_nat (b - a)) (drop (Z.to_nat a) l)).
Proof.
  intros [??] ?. unfold slice.
  rewrite (proj2 (Z.ltb_ge b a)), (proj2 (Z.ltb_ge (len l) b)) by lia. done.
Qed.

Lemma slice_take l n a b : 0 <= a <= b -> b <= n -> n <= len l ->
  slice (take (Z.to_nat n) l) a b = slice l a b.
Proof.
  intros [??] ? Hn. unfold len in Hn. rewrite !slice_ok; unfold len; rewrite ?length_take; try lia.
  f_equal. rewrite skipn_firstn_comm, take_take. f_equal. lia.
Qed.

Lemma slice_err l a b e : slice l a b = Err e -> e = Panics.
Proof. unfold slice. case_match; congruence. Qed.

Lemma map_res_ext {A B} (f g : A -> result B stop) l :
  (forall a, a ∈ l -> f a = g a) -> map_res f l = map_res g l.
Proof.
  induction l as [|a l IH]; intros H; [done|]. cbn. rewrite (H a) by left.
  destruct (g a); [|done]. rewrite IH; [done|]. intros b Hb. apply H. by right.
Qed.

Lemma map_res_ok {A B} (f : A -> result B stop) (g : A -> B) l :
  (forall a, a ∈ l -> f a = Ok (g a)) -> map_res f l = Ok (map g l).
Proof.
  induction l as [|a l IH]; intros H; [done|]. cbn. rewrite (H a) by left.
  rewrite IH; [done|]. intros b Hb. apply H. by right.
Qed.

Lemma map_res_panics {A B} (f : A -> result B stop) l a :
  (forall b e, f b = Err e -> e = Panics) -> a ∈ l -> f a = Err Panics ->
  map_res f l = Err Panics.
Proof.
  intros Hp Ha Hf. induction l as [|b l IH]; [by apply not_elem_of_nil in Ha|].
  cbn. destruct (f b) as [v|e] eqn:E; [|by rewrite (Hp _ _ E)].
  rewrite IH; [done|]. apply elem_of_cons in Ha as [->|]; [congruence|done].
Qed.

(** A table of rows of one length, row after row. *)
Lemma length_concat_rows {A} (w : nat) (rows : list (list A)) :
  (forall r, r ∈ rows -> length r = w) -> length (concat rows) = (length rows * w)%nat.
Proof.
  induction rows as [|r rows IH]; intros H; [done|]. cbn.
  rewrite length_app, IH, (H r) by (by left || (intros; apply H; by right)). done.
Qed.

Lemma nth_concat_rows {A} (d : A) (w : nat) (rows : list (list A)) y x :
  (forall r, r ∈ rows -> length r = w) -> (x < w)%nat ->
  nth (y * w + x) (concat rows) d = nth x (nth y rows []) d.
Proof.
  revert y. induction rows as [|r rows IH]; intros y H Hx; cbn.
  - destruct (y * w + x)%nat, y; cbn; by destruct x.
  - assert (Hr : length r = w) by (apply H; left).
    destruct y as [|y]; cbn; [by rewrite app_nth1 by lia|].
    rewrite app_nth2 by lia. rewrite Hr.
    replace (w + y * w + x - w)%nat with (y * w + x)%nat by lia.
    apply IH; [|done]. intros r' ?. apply H. by right.
Qed.

Lemma nth_map_range {A} (f : Z -> A) d n i :
  0 <= i < n -> nth (Z.to_nat i) (map f (range 0 n)) d = f i.
Proof.
  intros Hi. rewrite nth_lookup.
  assert (E : range 0 n !! Z.to_nat i = Some i) by (apply lookup_seqZ; lia).
  change (map f (range 0 n)) with (f <$> range 0 n). by rewrite list_lookup_fmap, E.
Qed.

Lemma elem_of_map_range {A} (f : Z -> A) n r :
  r ∈ map f (range 0 n) -> exists i, 0 <= i < n /\ r = f i.
Proof.
  intros (i & -> & Hi)%list_elem_of_fmap. exists i. split; [|done].
  by apply elem_of_range in Hi.
Qed.

Lemma length_map_range {A} (f : Z -> A) n : length (map f (range 0 n)) = Z.to_nat n.
Proof. rewrite length_map, length_seqZ. f_equal. lia. Qed.

Lemma byte_at_range l i : is_bytes l -> 0 <= byte_at l i < 256.
Proof.
  intros H. unfold byte_at. destruct (nth_in_or_default (Z.to_nat i) l 0) as [Hi| ->]; [|lia].
  apply (proj1 (Forall_forall _ _) H). by apply list_elem_of_In.
Qed.

(** ** The fused conversion is the composition of its two passes *)

Lemma src_row_eq src w row :
  0 <= w -> 0 <= row < 2 ^ 32 -> 4 * w * (row + 1) < 2 ^ 64 ->
  src_row src w row = slice src (row * w * 4) ((row + 1) * w * 4).
Proof.
  intros Hw Hr Hb. assert (0 <= row * w <= (row + 1) * w) by nia.
  unfold src_row. rewrite (usize_id (row + 1)) by lia.
  rewrite (usize_id (row * w)), (usize_id ((row + 1) * w)) by lia.
  by rewrite !usize_id by lia.
Qed.

Lemma src_row_take src w h row :
  0 <= w -> 0 <= row < h -> h < 2 ^ 32 -> 4 * w * h <= len src -> 4 * w * h < 2 ^ 64 ->
  src_row (take (Z.to_nat (4 * w * h)) src) w row = src_row src w row.
Proof.
  intros Hw Hr Hh Hl Hb. assert (0 <= row * w <= (row + 1) * w) by nia.
  assert ((row + 1) * w <= h * w) by nia.
  rewrite !src_row_eq by lia. apply slice_take; lia.
Qed.

Lemma src_row_panics src w row :
  0 <= w -> 0 <= row < 2 ^ 32 -> len src < 4 * w * (row + 1) -> 4 * w * (row + 1) < 2 ^ 64 ->
  src_row src w row = Err Panics.
Proof.
  intros Hw Hr Hl Hb. rewrite src_row_eq by lia. unfold slice.
  rewrite (proj2 (Z.ltb_lt (len src) _)) by lia. by rewrite orb_true_r.
Qed.

Lemma src_row_err src w row e : src_row src w row = Err e -> e = Panics.
Proof. apply slice_err. Qed.

Lemma plane_rows w h : 0 < w -> w * h / w = h.
Proof. intros. rewrite Z.mul_comm. apply Z.div_mul. lia. Qed.

Lemma chroma_rows w h : 0 < w -> w * h / 2 / w = h / 2.
Proof.
  intros. rewrite Z.div_div, (Z.mul_comm 2 w), Z.div_mul_cancel_l by lia. done.
Qed.

(** The conversion reads the first [4 * w * h] bytes only. *)
Lemma bgra_to_nv12_take src w h :
  0 <= w < 2 ^ 30 -> 0 <= h < 2 ^ 32 -> 4 * w * h <= len src ->
  bgra_to_nv12 src w h = bgra_to_nv12 (take (Z.to_nat (4 * w * h)) src) w h.
Proof.
  intros Hw Hh Hl. assert (4 * w * h < 2 ^ 64) by nia. unfold bgra_to_nv12.
  case_match; [done|]. destruct (Z.eqb_spec w 0); [done|].
  rewrite plane_rows, chroma_rows by lia.
  rewrite (map_res_ext (y_row src w) (y_row (take (Z.to_nat (4 * w * h)) src) w)).
  2:{ intros row Hr%elem_of_range. unfold y_row. by rewrite (src_row_take src w h) by lia. }
  rewrite (map_res_ext (uv_row src w) (uv_row (take (Z.to_nat (4 * w * h)) src) w)); [done|].
  intros row Hr%elem_of_range. unfold uv_row. pose proof (Z.mul_div_le h 2 ltac:(lia)).
  by rewrite !(src_row_take src w h) by lia.
Qed.

Lemma bgra_to_nv12_short src w h :
  0 <= w < 2 ^ 30 -> 0 <= h < 2 ^ 32 -> len src < 4 * w * h ->
  bgra_to_nv12 src w h = Err Panics.
Proof.
  intros Hw Hh Hl. assert (4 * w * h < 2 ^ 64) by nia.
  assert (0 <= len src) by (unfold len; lia). unfold bgra_to_nv12.
  case_match; [done|]. destruct (Z.eqb_spec w 0); [done|]. rewrite plane_rows by lia.
  assert (0 < h) by nia.
  rewrite (map_res_panics _ _ (h - 1)); [done| | |].
  - intros b e. unfold y_row. destruct (src_row src w b) eqn:E; [done|].
    intros [= <-]. by apply src_row_err in E.
  - apply elem_of_range. lia.
  - unfold y_row. rewrite src_row_panics; [done|lia..].
Qed.

(** Converting a strided frame in one call gives what packing the rows and
    then converting gives, panics included: for every frame whose row length fits
    the [u32] it is computed in. *)
Theorem nv12_destride_equiv src w h stride :
  0 <= w < 2 ^ 30 -> 0 <= h < 2 ^ 32 -> 0 <= stride < 2 ^ 32 ->
  bgra_to_nv12_destride src w h stride =
    (let? packed := destride_bgra src w h stride in bgra_to_nv12 packed w h).
Proof.
  intros Hw Hh Hs. unfold bgra_to_nv12_destride.
  rewrite (as_u_id 32 (w * 4)), (as_u_id 32 stride) by (red; lia).
  destruct (Z.eqb_spec stride (w * 4)) as [->|]; [|done].
  unfold destride_bgra. rewrite (as_u_id 32 (w * 4)), Z.eqb_refl by (red; lia).
  rewrite usize_id by nia. replace (w * 4 * h) with (4 * w * h) by lia.
  destruct (Z_le_gt_dec (4 * w * h) (len src)) as [Hl|Hl].
  - rewrite slice_ok by nia. cbn [Z.to_nat drop]. rewrite Z.sub_0_r.
    by apply bgra_to_nv12_take.
  - unfold slice. rewrite (proj2 (Z.ltb_lt (len src) _)), orb_true_r by lia.
    apply bgra_to_nv12_short; lia.
Qed.

Lemma nv12_destride_equiv_witness :
  bgra_to_nv12_destride (replicate 20 100) 2 2 10 =
    (let? packed := destride_bgra (replicate 20 100) 2 2 10 in bgra_to_nv12 packed 2 2) /\
  bgra_to_nv12_destride (replicate 20 100) 2 2 10 = Ok [102; 102; 102; 102; 128; 128].
Proof. split; [apply nv12_destride_equiv; lia|]. reflexivity. Defined.

(** ** Every sample of the NV12 frame *)

(** The frame from row [r] on. *)
Definition rows_from (src : list Z) (w r : Z) : list Z := drop (Z.to_nat (r * w * 4)) src.

Lemma src_row_ok src w h row :
  0 < w < 2 ^ 30 -> 0 <= row < h -> h < 2 ^ 32 -> 4 * w * h <= len src ->
  src_row src w row = Ok (take (Z.to_nat (w * 4)) (rows_from src w row)).
Proof.
  intros Hw Hr Hh Hl. assert (0 <= row * w <= (row + 1) * w) by nia.
  assert ((row + 1) * w <= h * w) by nia. assert (4 * w * h < 2 ^ 64) by nia.
  rewrite src_row_eq by lia. rewrite slice_ok by lia. unfold rows_from. do 2 f_equal. lia.
Qed.

Lemma byte_at_take n l i : 0 <= i < n -> byte_at (take (Z.to_nat n) l) i = byte_at l i.
Proof. intros H. unfold byte_at. rewrite !nth_lookup, lookup_take_lt by lia. done. Qed.

Lemma luma_take n l p : 0 <= p -> p + 2 < n -> luma (take (Z.to_nat n) l) p = luma l p.
Proof. intros ??. unfold luma. by rewrite !byte_at_take by lia. Qed.

Lemma chroma_take n l1 l2 x : 0 <= x -> (x + 1) * 4 + 2 < n ->
  chroma (take (Z.to_nat n) l1) (take (Z.to_nat n) l2) x = chroma l1 l2 x.
Proof. intros ??. unfold chroma. by rewrite !byte_at_take by lia. Qed.

Lemma y_row_ok src w h row :
  0 < w < 2 ^ 30 -> 0 <= row < h -> h < 2 ^ 32 -> 4 * w * h <= len src ->
  y_row src w row = Ok (map (fun x => luma (rows_from src w row) (x * 4)) (range 0 w)).
Proof.
  intros. unfold y_row. rewrite (src_row_ok src w h) by done. f_equal.
  apply map_ext_in. intros x Hx%list_elem_of_In%elem_of_range. apply luma_take; lia.
Qed.

Lemma uv_row_ok src w h row :
  0 < w < 2 ^ 30 -> w mod 2 = 0 -> 0 <= row < h / 2 -> h < 2 ^ 32 -> 4 * w * h <= len src ->
  uv_row src w row =
    Ok (concat (map (fun bx => chroma (rows_from src w (row * 2)) (rows_from src w (row * 2 + 1)) (bx * 2))
                  (range 0 (w / 2)))).
Proof.
  intros Hw He Hr Hh Hl. pose proof (Z.mul_div_le h 2 ltac:(lia)).
  pose proof (Z.mul_div_le w 2 ltac:(lia)).
  unfold uv_row. rewrite !(src_row_ok src w h) by lia. rewrite He, app_nil_r. do 2 f_equal.
  apply map_ext_in. intros x Hx%list_elem_of_In%elem_of_range. apply chroma_take; lia.
Qed.

(** The two planes of the result. *)
Definition luma_plane (src : list Z) (w h : Z) : list Z :=
  concat (map (fun row => map (fun x => luma (rows_from src w row) (x * 4)) (range 0 w)) (range 0 h)).

Definition chroma_plane (src : list Z) (w h : Z) : list Z :=
  concat (map (fun row =>
    concat (map (fun bx => chroma (rows_from src w (row * 2)) (rows_from src w (row * 2 + 1)) (bx * 2))
              (range 0 (w / 2)))) (range 0 (h / 2))).

Lemma bgra_to_nv12_ok src w h :
  0 < w < 2 ^ 30 -> w mod 2 = 0 -> 0 <= h < 2 ^ 32 -> h mod 2 = 0 -> 4 * w * h <= len src ->
  len src < 2 ^ 63 ->
  bgra_to_nv12 src w h = Ok (luma_plane src w h ++ chroma_plane src w h).
Proof.
  intros Hw Hew Hh Heh Hl Hb.
  assert (Hm : (w * h / 2) mod w = 0).
  { rewrite (Z.div_mod h 2), Heh, Z.add_0_r by lia.
    replace (w * (2 * (h / 2))) with (h / 2 * w * 2) by lia.
    rewrite Z.div_mul by lia. apply Z.mod_mul. lia. }
  assert (Hs : w * h + w * h / 2 < 2 ^ 63) by (pose proof (Z.mul_div_le (w * h) 2); lia).
  unfold bgra_to_nv12. rewrite (proj2 (Z.leb_gt _ _)) by lia.
  rewrite (proj2 (Z.eqb_neq w 0)), plane_rows, chroma_rows, Hm by lia.
  rewrite (map_res_ok _ (fun row => map (fun x => luma (rows_from src w row) (x * 4)) (range 0 w))).
  2:{ intros row Hr%elem_of_range. apply y_row_ok with h; lia. }
  erewrite map_res_ok.
  2:{ intros row Hr%elem_of_range. apply uv_row_ok with h; lia. }
  cbn [Z.to_nat replicate]. by rewrite app_nil_r.
Qed.

Lemma length_luma_row src w r :
  length (map (fun x => luma (rows_from src w r) (x * 4)) (range 0 w)) = Z.to_nat w.
Proof. apply length_map_range. Qed.

Lemma length_chroma_row src w r : w mod 2 = 0 -> 0 <= w ->
  length (concat (map (fun bx => chroma (rows_from src w (r * 2)) (rows_from src w (r * 2 + 1)) (bx * 2))
    (range 0 (w / 2)))) = Z.to_nat w.
Proof.
  intros He Hw. pose proof (Z.div_mod w 2 ltac:(lia)).
  rewrite (length_concat_rows 2), length_map_range; [lia|].
  intros l (i & _ & ->)%elem_of_map_range. done.
Qed.

Lemma length_luma_plane src w h : 0 <= w -> 0 <= h -> len (luma_plane src w h) = w * h.
Proof.
  intros. unfold len, luma_plane.
  rewrite (length_concat_rows (Z.to_nat w)), length_map_range; [lia|].
  intros l (i & _ & ->)%elem_of_map_range. apply length_luma_row.
Qed.

Lemma length_chroma_plane src w h : w mod 2 = 0 -> 0 <= w -> 0 <= h ->
  len (chroma_plane src w h) = w * (h / 2).
Proof.
  intros. unfold len, chroma_plane. assert (0 <= h / 2) by (apply Z.div_pos; lia).
  rewrite (length_concat_rows (Z.to_nat w)), length_map_range; [lia|].
  intros l (i & _ & ->)%elem_of_map_range. by apply length_chroma_row.
Qed.

Lemma byte_at_app1 l k i : 0 <= i < len l -> byte_at (l ++ k) i = byte_at l i.
Proof. unfold len, byte_at. intros. apply app_nth1. lia. Qed.

Lemma byte_at_app2 l k i : 0 <= i -> byte_at (l ++ k) (len l + i) = byte_at k i.
Proof. unfold len, byte_at. intros. rewrite app_nth2 by lia. f_equal. lia. Qed.

Lemma luma_plane_at src w h x y : 0 <= x < w -> 0 <= y < h ->
  byte_at (luma_plane src w h) (y * w + x) = luma (rows_from src w y) (x * 4).
Proof.
  intros Hx Hy. unfold byte_at, luma_plane.
  replace (Z.to_nat (y * w + x)) with (Z.to_nat y * Z.to_nat w + Z.to_nat x)%nat by lia.
  rewrite nth_concat_rows; [|intros l (i & _ & ->)%elem_of_map_range; apply length_luma_row|lia].
  by rewrite !nth_map_range by lia.
Qed.

Lemma chroma_plane_at src w h bx by' c :
  w mod 2 = 0 -> 0 <= bx < w / 2 -> 0 <= by' < h / 2 -> 0 <= c < 2 ->
  byte_at (chroma_plane src w h) (by' * w + bx * 2 + c) =
    byte_at (chroma (rows_from src w (by' * 2)) (rows_from src w (by' * 2 + 1)) (bx * 2)) c.
Proof.
  intros He Hx Hy Hc. unfold byte_at, chroma_plane.
  pose proof (Z.div_mod w 2 ltac:(lia)).
  replace (Z.to_nat (by' * w + bx * 2 + c))
    with (Z.to_nat by' * Z.to_nat w + (Z.to_nat bx * 2 + Z.to_nat c))%nat by lia.
  rewrite nth_concat_rows.
  2:{ intros l (i & _ & ->)%elem_of_map_range. apply length_chroma_row; lia. }
  2:{ lia. }
  rewrite nth_map_range by lia. rewrite nth_concat_rows.
  2:{ intros l (i & _ & ->)%elem_of_map_range. done. }
  2:{ lia. }
  by rewrite nth_map_range by lia.
Qed.

(** On every frame of even size, the conversion succeeds, gives one and a
    half bytes per pixel, puts the luma of pixel [(x, y)] at [y * w + x] and the
    chroma pair of each two by two block at its place in the second plane. *)
Theorem nv12_planes src w h :
  0 < w < 2 ^ 30 -> w mod 2 = 0 -> 0 <= h < 2 ^ 32 -> h mod 2 = 0 ->
  4 * w * h <= len src -> len src < 2 ^ 63 ->
  exists out, bgra_to_nv12 src w h = Ok out /\ len out = w * h + w * h / 2 /\
    (forall x y, 0 <= x < w -> 0 <= y < h ->
       byte_at out (y * w + x) = luma (rows_from src w y) (x * 4)) /\
    (forall bx by' c, 0 <= bx < w / 2 -> 0 <= by' < h / 2 -> 0 <= c < 2 ->
       byte_at out (w * h + (by' * w + bx * 2 + c)) =
         byte_at (chroma (rows_from src w (by' * 2)) (rows_from src w (by' * 2 + 1)) (bx * 2)) c).
Proof.
  intros Hw Hew Hh Heh Hl Hb. eexists. split; [by apply bgra_to_nv12_ok|].
  pose proof (length_luma_plane src w h ltac:(lia) ltac:(lia)) as Ly.
  pose proof (length_chroma_plane src w h Hew ltac:(lia) ltac:(lia)) as Lc.
  pose proof (Z.div_mod h 2 ltac:(lia)).
  assert (Hd : w * h / 2 = w * (h / 2)).
  { replace (w * h) with (w * (h / 2) * 2) by lia. apply Z.div_mul. lia. }
  split_and!.
  - unfold len in *. rewrite length_app. lia.
  - intros x y Hx Hy. rewrite byte_at_app1 by (rewrite Ly; nia). by apply luma_plane_at.
  - intros bx by' c Hx Hy Hc. rewrite <- Ly, byte_at_app2 by nia. by apply chroma_plane_at.
Qed.

Lemma nv12_planes_witness : exists out,
  bgra_to_nv12 [10; 20; 30; 255; 11; 21; 31; 255; 12; 22; 32; 255; 13; 23; 33; 255] 2 2 = Ok out /\
  len out = 6.
Proof.
  destruct (nv12_planes [10; 20; 30; 255; 11; 21; 31; 255; 12; 22; 32; 255; 13; 23; 33; 255] 2 2)
    as (out & H & L & _); [done|done|done|done|done|done|].
  by exists out.
Defined.

(** ** The range of the samples *)

Lemma shiftr8 z : Z.shiftr z 8 = z / 256.
Proof. rewrite Z.shiftr_div_pow2 by lia. done. Qed.

Lemma luma_range l p : is_bytes l -> 16 <= luma l p <= 235.
Proof.
  intros H. unfold luma, clamp_u8. rewrite shiftr8.
  pose proof (byte_at_range l p H). pose proof (byte_at_range l (p + 1) H).
  pose proof (byte_at_range l (p + 2) H).
  remember (47 * byte_at l (p + 2) + 157 * byte_at l (p + 1) + 16 * byte_at l p + 128) as s.
  assert (0 <= s / 256 < 220); [|lia]. split; [apply Z.div_pos|apply Z.div_lt_upper_bound]; lia.
Qed.

Lemma avg_range a b c d : 0 <= a < 256 -> 0 <= b < 256 -> 0 <= c < 256 -> 0 <= d < 256 ->
  0 <= Z.quot (a + b + c + d) 4 < 256.
Proof.
  intros. rewrite Z.quot_div_nonneg by lia.
  split; [apply Z.div_pos|apply Z.div_lt_upper_bound]; lia.
Qed.

Lemma chroma_range l1 l2 x : is_bytes l1 -> is_bytes l2 ->
  Forall (fun c => 15 <= c <= 240) (chroma l1 l2 x).
Proof.
  intros H1 H2. unfold chroma. rewrite !shiftr8. cbv zeta.
  assert (A : forall off, 0 <= Z.quot (byte_at l1 (x * 4 + off) + byte_at l1 ((x + 1) * 4 + off)
            + byte_at l2 (x * 4 + off) + byte_at l2 ((x + 1) * 4 + off)) 4 < 256).
  { intros. apply avg_range; by apply byte_at_range. }
  pose proof (A 0) as Hb. pose proof (A 1) as Hg. pose proof (A 2) as Hr. clear A.
  remember (Z.quot (byte_at l1 (x * 4 + 0) + byte_at l1 ((x + 1) * 4 + 0)
    + byte_at l2 (x * 4 + 0) + byte_at l2 ((x + 1) * 4 + 0)) 4) as b.
  remember (Z.quot (byte_at l1 (x * 4 + 1) + byte_at l1 ((x + 1) * 4 + 1)
    + byte_at l2 (x * 4 + 1) + byte_at l2 ((x + 1) * 4 + 1)) 4) as g.
  remember (Z.quot (byte_at l1 (x * 4 + 2) + byte_at l1 ((x + 1) * 4 + 2)
    + byte_at l2 (x * 4 + 2) + byte_at l2 ((x + 1) * 4 + 2)) 4) as r.
  clear Heqb Heqg Heqr.
  assert (- 113 <= (- 26 * r - 87 * g + 112 * b + 128) / 256 < 113)
    by (split; [apply Z.div_le_lower_bound|apply Z.div_lt_upper_bound]; lia).
  assert (- 113 <= (112 * r - 102 * g - 10 * b + 128) / 256 < 113)
    by (split; [apply Z.div_le_lower_bound|apply Z.div_lt_upper_bound]; lia).
  unfold clamp_u8. repeat constructor; lia.
Qed.

Lemma rows_from_bytes src w r : is_bytes src -> is_bytes (rows_from src w r).
Proof. apply Forall_drop. Qed.

Lemma luma_plane_range src w h : is_bytes src ->
  Forall (fun y => 16 <= y <= 235) (luma_plane src w h).
Proof.
  intros H. apply Forall_concat, Forall_fmap, Forall_true. intros r.
  apply Forall_fmap, Forall_true. intros x. exact (luma_range _ _ (rows_from_bytes src w r H)).
Qed.

Lemma chroma_plane_range src w h : is_bytes src ->
  Forall (fun c => 15 <= c <= 240) (chroma_plane src w h).
Proof.
  intros H. apply Forall_concat, Forall_fmap, Forall_true. intros r.
  apply Forall_concat, Forall_fmap, Forall_true. intros x.
  exact (chroma_range _ _ _ (rows_from_bytes src w _ H) (rows_from_bytes src w _ H)).
Qed.

(** Luma stays in the limited range 16 to 235 and chroma within 15 to 240, so
    the clamps never act. *)
Theorem nv12_range src w h out :
  is_bytes src -> 0 < w < 2 ^ 30 -> w mod 2 = 0 -> 0 <= h < 2 ^ 32 -> h mod 2 = 0 ->
  4 * w * h <= len src -> len src < 2 ^ 63 -> bgra_to_nv12 src w h = Ok out ->
  Forall (fun y => 16 <= y <= 235) (take (Z.to_nat (w * h)) out) /\
  Forall (fun c => 15 <= c <= 240) (drop (Z.to_nat (w * h)) out).
Proof.
  intros Hb Hw He Hh Heh Hl Hs. rewrite bgra_to_nv12_ok by done. intros [= <-].
  pose proof (length_luma_plane src w h ltac:(lia) ltac:(lia)) as Ly. unfold len in Ly.
  rewrite <- Ly, Nat2Z.id, take_app_length, drop_app_length.
  split; [by apply luma_plane_range|by apply chroma_plane_range].
Qed.

(** Opaque yellow, and a two by two frame of it: the blue-difference sample is 15,
    one below the limited range. *)
Definition yellow : list Z := concat (replicate 4 [0; 255; 255; 255]).

Lemma nv12_range_witness :
  bgra_to_nv12 yellow 2 2 = Ok [219; 219; 219; 219; 15; 138] /\
  Forall (fun c => 15 <= c <= 240) [15; 138].
Proof.
  split; [reflexivity|].
  apply (nv12_range yellow 2 2 [219; 219; 219; 219; 15; 138]); try done.
  repeat constructor; lia.
Defined.

(** ** Cursor images *)

Lemma set_byte_ok i v l : 0 <= i < len l -> set_byte i v l = Ok (<[Z.to_nat i := v]> l).
Proof. intros. unfold set_byte. by rewrite (proj2 (Z.leb_gt _ _)) by lia. Qed.

Lemma len_insert (i : nat) (v : Z) (l : list Z) : len (<[i := v]> l) = len l.
Proof. unfold len. by rewrite length_insert. Qed.

(** What pixel [(x, y)] of the cursor becomes. *)
Definition rgba_at (src : list Z) (stride y x : Z) : list Z :=
  let si := as_u 32 (as_u 32 (y * stride) + as_u 32 (x * 4)) in
  if len src <=? si + 3 then [0; 0; 0; 0]
  else [byte_at src (si + 2); byte_at src (si + 1); byte_at src si; byte_at src (si + 3)].

(** The store of one pixel, without the machine arithmetic. *)
Definition store_pixel (src : list Z) (w stride : Z) (out : list Z) (p : Z * Z) : list Z :=
  let si := as_u 32 (as_u 32 (p.1 * stride) + as_u 32 (p.2 * 4)) in
  if len src <=? si + 3 then out
  else overwrite (Z.to_nat ((p.1 * w + p.2) * 4)) (rgba_at src stride p.1 p.2) out.

Lemma four_inserts (i : nat) (a b c d : Z) (l : list Z) : (i + 4 <= length l)%nat ->
  <[(i + 3)%nat := d]> (<[(i + 2)%nat := c]> (<[(i + 1)%nat := b]> (<[i := a]> l))) =
  overwrite i [a; b; c; d] l.
Proof.
  intros H. apply list_eq. intros j. unfold overwrite.
  destruct (decide (j < i)%nat).
  { rewrite !list_lookup_insert_ne by lia. rewrite lookup_app_l by (rewrite length_take; lia).
    by rewrite lookup_take_lt by lia. }
  rewrite lookup_app_r by (rewrite length_take; lia). rewrite length_take, Nat.min_l by lia.
  destruct (decide (j < i + 4)%nat).
  - rewrite lookup_app_l by (cbn; lia).
    assert (j = i \/ j = i + 1 \/ j = i + 2 \/ j = i + 3)%nat as [->|[->|[->| ->]]] by lia.
    + rewrite !list_lookup_insert_ne by lia. rewrite list_lookup_insert_eq by lia.
      by rewrite Nat.sub_diag.
    + rewrite !list_lookup_insert_ne by lia. rewrite list_lookup_insert_eq by (rewrite ?length_insert; lia).
      by replace (i + 1 - i)%nat with 1%nat by lia.
    + rewrite !list_lookup_insert_ne by lia. rewrite list_lookup_insert_eq by (rewrite ?length_insert; lia).
      by replace (i + 2 - i)%nat with 2%nat by lia.
    + rewrite list_lookup_insert_eq by (rewrite ?length_insert; lia).
      by replace (i + 3 - i)%nat with 3%nat by lia.
  - rewrite !list_lookup_insert_ne by lia. rewrite lookup_app_r by (cbn; lia).
    rewrite lookup_drop. f_equal. cbn. lia.
Qed.

Lemma length_rgba_at src stride y x : length (rgba_at src stride y x) = 4%nat.
Proof. unfold rgba_at. by case_match. Qed.

Lemma rgba_pixel_store src w h stride out y x :
  0 <= w <= 256 -> 0 <= h <= 256 -> 0 <= y < h -> 0 <= x < w -> len out = 4 * w * h ->
  rgba_pixel src w stride y x out = Ok (store_pixel src w stride out (y, x)) /\
  len (store_pixel src w stride out (y, x)) = 4 * w * h.
Proof.
  intros Hw Hh Hy Hx Hl. assert (0 <= y * w + x < w * h) by nia. assert (w * h <= 65536) by nia.
  assert (Hd : as_u 32 (as_u 32 (as_u 32 (y * w) + x) * 4) = (y * w + x) * 4).
  { rewrite (as_u_id 32 (y * w)), (as_u_id 32 (y * w + x)), as_u_id by (red; nia). done. }
  unfold rgba_pixel, store_pixel, rgba_at. cbn [fst snd]. rewrite Hd.
  case_match eqn:E; [done|].
  rewrite set_byte_ok by lia. rewrite set_byte_ok by (rewrite !len_insert; lia).
  rewrite set_byte_ok by (rewrite !len_insert; lia). rewrite set_byte_ok by (rewrite !len_insert; lia).
  unfold len in *. rewrite length_overwrite by (cbn; lia). split; [|done]. f_equal.
  rewrite <- four_inserts by lia. by rewrite !Z2Nat.inj_add by lia.
Qed.

Lemma store_pixel_at src w h stride out p y x :
  0 <= p.1 < h -> 0 <= p.2 < w -> 0 <= y < h -> 0 <= x < w -> len out = 4 * w * h ->
  pixel (store_pixel src w stride out p) (Z.to_nat ((y * w + x) * 4)) =
  if decide ((y, x) = p) then
    if len src <=? as_u 32 (as_u 32 (y * stride) + as_u 32 (x * 4)) + 3
    then pixel out (Z.to_nat ((y * w + x) * 4)) else rgba_at src stride y x
  else pixel out (Z.to_nat ((y * w + x) * 4)).
Proof.
  destruct p as [py px]. cbn [fst snd]. intros H1 H2 Hy Hx Hl. unfold len in Hl.
  assert (0 <= py * w + px < w * h) by nia. assert (0 <= y * w + x < w * h) by nia.
  unfold store_pixel. cbn [fst snd].
  destruct (decide ((y, x) = (py, px))) as [[= -> ->]|Hn].
  - case_match; [done|]. apply pixel_overwrite_same; [apply length_rgba_at|lia].
  - case_match; [done|]. apply pixel_overwrite_other; [apply length_rgba_at|lia|].
    assert ((y * w + x) <> (py * w + px)); [|lia]. intros Eq. apply Hn.
    assert (y = py) as -> by (destruct (Z.lt_trichotomy y py) as [?|[?|?]]; [nia|done|nia]).
    f_equal. lia.
Qed.

Lemma store_fold src w h stride l out :
  NoDup l -> Forall (fun p => 0 <= p.1 < h /\ 0 <= p.2 < w) l -> len out = 4 * w * h ->
  (forall y x, 0 <= y < h -> 0 <= x < w -> pixel out (Z.to_nat ((y * w + x) * 4)) = [0; 0; 0; 0] \/ (y, x) ∉ l) ->
  len (foldl (store_pixel src w stride) out l) = 4 * w * h /\
  forall y x, 0 <= y < h -> 0 <= x < w ->
    pixel (foldl (store_pixel src w stride) out l) (Z.to_nat ((y * w + x) * 4)) =
    if decide ((y, x) ∈ l) then rgba_at src stride y x
    else pixel out (Z.to_nat ((y * w + x) * 4)).
Proof.
  intros Hn. revert out. induction Hn as [|p l Hp Hn IH]; intros out Hin Hl Hz.
  { split; [done|]. intros. rewrite decide_False; [done|]. apply not_elem_of_nil. }
  apply Forall_cons in Hin as [[Hy Hx] Hin]. cbn [foldl].
  assert (Hl' : len (store_pixel src w stride out p) = 4 * w * h).
  { unfold store_pixel, len in *. case_match; [done|].
    rewrite length_overwrite; [done|]. rewrite length_rgba_at. nia. }
  destruct (IH (store_pixel src w stride out p)) as [H1 H2]; [done|done| |].
  { intros y x Hy' Hx'. rewrite store_pixel_at with (h := h) by done.
    case_decide as E; [right; by rewrite E|]. destruct (Hz y x Hy' Hx') as [|Hni]; [by left|].
    right. set_solver. }
  split; [done|]. intros y x Hy' Hx'. rewrite H2 by done.
  rewrite store_pixel_at with (h := h) by done.
  destruct (decide ((y, x) = p)) as [<-|Hne].
  - rewrite decide_False by done. rewrite (decide_True (P := (y, x) ∈ (y, x) :: l)) by left.
    unfold rgba_at. case_match; [|done].
    destruct (Hz y x Hy' Hx') as [->|[]%not_elem_of_cons]; done.
  - destruct (decide ((y, x) ∈ l)).
    + by rewrite decide_True by (by right).
    + rewrite decide_False; [done|]. set_solver.
Qed.

(** A cursor of at most 256 by 256 pixels is converted without a panic,
    whatever its stride and however short its buffer: each pixel of the result is
    the source's with red and blue exchanged, or zero where the buffer has none. *)
Theorem cursor_rgba_pixels src w h stride :
  0 <= w <= MAX_CURSOR_DIM -> 0 <= h <= MAX_CURSOR_DIM ->
  exists out, argb8888_bytes_to_rgba src w h stride = Ok out /\ len out = 4 * w * h /\
    forall y x, 0 <= y < h -> 0 <= x < w ->
      pixel out (Z.to_nat ((y * w + x) * 4)) = rgba_at src stride y x.
Proof.
  unfold MAX_CURSOR_DIM. intros Hw Hh. unfold argb8888_bytes_to_rgba.
  assert (w * h <= 65536) by nia. assert (0 <= w * h) by nia.
  rewrite (as_u_id 32 (w * h)), as_u_id by (red; lia).
  rewrite for_each_in_nested.
  set (z := replicate _ 0). assert (Lz : len z = 4 * w * h)
    by (unfold len, z; rewrite length_replicate; lia).
  set (l := pairs (range 0 h) (range 0 w)).
  assert (Hl : forall p, p ∈ l <-> 0 <= p.1 < h /\ 0 <= p.2 < w).
  { intros [y x]. unfold l. by rewrite elem_of_pairs, !elem_of_range. }
  rewrite (for_each_in_fold (fun o => len o = 4 * w * h) (store_pixel src w stride)); [|  |done].
  2:{ intros [y x] o [Hy Hx]%Hl Ho. by apply rgba_pixel_store. }
  destruct (store_fold src w h stride l z) as [L P]; try done.
  { apply NoDup_pairs; apply NoDup_seqZ. }
  { apply Forall_forall. intros p Hp. by apply Hl. }
  { intros y x Hy Hx. left. apply pixel_replicate. nia. }
  eexists. split; [done|]. split; [done|].
  intros y x Hy Hx. rewrite P by done. by rewrite decide_True by (by apply Hl).
Qed.

Lemma cursor_rgba_pixels_witness : exists out,
  argb8888_bytes_to_rgba [1; 2; 3; 4; 5; 6; 7; 8; 0; 0; 9; 10; 11; 12; 13] 2 2 10 = Ok out /\
  out = [3; 2; 1; 4; 7; 6; 5; 8; 11; 10; 9; 12; 0; 0; 0; 0].
Proof.
  destruct (cursor_rgba_pixels [1; 2; 3; 4; 5; 6; 7; 8; 0; 0; 9; 10; 11; 12; 13] 2 2 10)
    as (out & H & _); [done|done|].
  exists out. split; [done|]. apply (f_equal (fun r => match r with Ok o => o | Err _ => [] end)) in H.
  symmetry. vm_compute in H. exact H.
Defined.

(** Without that bound the conversion does panic, although its documentation
    says it never does: the size of the result wraps to zero. *)
Theorem cursor_rgba_unbounded_panics :
  argb8888_bytes_to_rgba [0; 0; 0; 0] 32768 32768 0 = Err Panics.
Proof. vm_compute. reflexivity. Qed.
