(* ===== verification/Session.v ===== *)
(** * The state of a session ([crates/waymux-session/src/state.rs])

    [State] with the fields of the source. A Wayland object is its id and the
    version it was bound at; the objects a client has not destroyed are the set
    [alive]. What the session does to the outside, the messages it queues on
    Wayland objects, the eventfds it pokes, the timeline points it signals, is
    appended to [out] in the order it happens. Objects that several parties share
    ([WlSurface] and [WlBuffer] data, task slots, buffer holds, stop flags) live in
    stores of the state and are referred to by address. The monotonic clock and
    the state of fences, which the kernel answers, are fields that operations only
    read. *)

From Stdlib Require Import ZArith Lia.
From S2P Require Import Prelude Words Floats Messages Composite.
From stdpp Require Import prelude strings gmap list.

Open Scope Z_scope.

Abbreviation client := nat.

(** A Wayland object: [ObjectId] and negotiated version. *)
Record resource := Res { res_id : nat; res_version : Z }.

#[global] Instance resource_eq_dec : EqDecision resource.
Proof. solve_decision. Defined.

(** The order in which a [HashMap] is traversed is not specified. *)
Class HashOrder := {
  hash_order : forall {K A} `{Countable K}, gmap K A -> list (K * A);
  hash_order_perm : forall {K A} `{Countable K} (m : gmap K A), hash_order m ≡ₚ map_to_list m;
}.

Definition values {HO : HashOrder} {K A} `{Countable K} (m : gmap K A) : list A :=
  (hash_order m).*2.

Definition keys {HO : HashOrder} {K A} `{Countable K} (m : gmap K A) : list K :=
  (hash_order m).*1.

Definition key_order : HashOrder.
Proof. by refine {| hash_order := fun K A _ _ m => map_to_list m |}. Defined.

(** ** Surfaces, buffers, tasks *)

(** A point on a client's timeline: the handle and the value. *)
Record TimelinePoint := { tp_timeline : nat; tp_point : Z }.

Record SurfaceSync := {
  pending_acquire : option TimelinePoint;
  pending_release : option TimelinePoint;
}.

(** The user data of a [wl_surface] ([compositor.rs]); buffers by id. *)
Record SurfaceUserData := {
  xdg_toplevel_id : option Z;
  pending_buffer : option nat;
  current_buffer : option nat;
  children : list SubsurfaceChild;
  viewport : ViewportData;
  shortcuts_inhibited : bool;
  pending_feedbacks : list resource;
  is_layer_surface : bool;
  layer_window_id : option Z;
  surface_frame_cbs : list resource;
  surface_sync : option SurfaceSync;
  content_rect : option Rect;
  layer_keyboard_interactivity : Z;
}.

#[export] Instance eta_SurfaceUserData : Eta SurfaceUserData := fun r =>
  Build_SurfaceUserData (xdg_toplevel_id r) (pending_buffer r) (current_buffer r) (children r)
    (viewport r) (shortcuts_inhibited r) (pending_feedbacks r) (is_layer_surface r)
    (layer_window_id r) (surface_frame_cbs r) (surface_sync r) (content_rect r)
    (layer_keyboard_interactivity r).

(** [SurfaceData::default]. *)
Definition surface_default : SurfaceUserData :=
  {| xdg_toplevel_id := None; pending_buffer := None; current_buffer := None; children := [];
     viewport := {| vp_src := None; vp_dst := None |}; shortcuts_inhibited := false;
     pending_feedbacks := []; is_layer_surface := false; layer_window_id := None;
     surface_frame_cbs := []; surface_sync := None; content_rect := None;
     layer_keyboard_interactivity := 0 |}.

(** The user data of a [wl_buffer], with what is asked of a dmabuf besides its
    pixels: fourcc, modifier and the address of its [Arc]. The protocol id is the
    client's own number for the object: it is not unique. *)
Record Buffer := {
  buf_protocol_id : Z;
  buf_kind : BufferKind;
  buf_drm_format : Z;
  buf_modifier : Z;
  buf_data : nat;
}.

(** [RecordingTask]; holds by address. *)
Inductive RecordingTask :=
| TaskPixels (pixels : list Z) (width height : Z)
| TaskDmabuf (dma : nat) (holds : list nat)
| TaskNal (data : list Z) (pts_us : Z) (is_keyframe : bool) (width height : Z)
    (codec_private : list Z).

Record LatestTaskSlot := {
  slot_inner : option RecordingTask;
  slot_produced : Z;
  slot_dropped : Z;
}.

#[export] Instance eta_LatestTaskSlot : Eta LatestTaskSlot := fun r =>
  Build_LatestTaskSlot (slot_inner r) (slot_produced r) (slot_dropped r).

(** A shared [InnerBufferHold]: the buffer it pins and how many [Arc]s there are. *)
Record InnerBufferHold := { ibh_buf : nat; ibh_refs : nat }.

Record BufferHoldState := { bhs_count : Z; bhs_release_requested : bool }.

Record RecordingHandle := {
  rh_stop : nat;
  rh_slot : nat;
  rh_mode : CaptureMode;
  rh_codec : RecordingCodec;
  rh_path : string;
}.

Record DualRecordingHandle := {
  drh_primary : RecordingHandle;
  drh_secondary : option RecordingHandle;
}.

Record ViewerHandle := {
  vh_url : string;
  vh_child : option nat;
  vh_stop_flag : nat;
  vh_codec : RecordingCodec;
  vh_frame_slot : nat;
}.

(** [viewer/cursor.rs]. *)
Record CursorImage := { ci_w : Z; ci_h : Z; ci_hot_x : Z; ci_hot_y : Z; ci_rgba : list Z }.
Record CursorPos := { cp_x : f32; cp_y : f32; cp_seq : Z }.

Inductive CursorUpdate := UpdImage (i : CursorImage) | UpdPos (p : CursorPos).

Record CursorChannel := { latest_image : option CursorImage; latest_pos : option CursorPos }.

#[export] Instance eta_CursorChannel : Eta CursorChannel := fun r =>
  Build_CursorChannel (latest_image r) (latest_pos r).

(** ** What the session does to the outside *)

Inductive Axis := VerticalScroll | HorizontalScroll.

Inductive output :=
| KbdKeymap (k : nat) (fd : nat) (size : Z)
| KbdRepeatInfo (k : nat) (rate delay : Z)
| KbdEnter (k : nat) (serial : Z) (s : surface)
| KbdLeave (k : nat) (serial : Z) (s : surface)
| KbdModifiers (k : nat) (serial depressed latched locked group : Z)
| KbdKey (k : nat) (serial time key : Z) (st : KeyState)
| PtrEnter (p : nat) (serial : Z) (s : surface) (x y : f64)
| PtrLeave (p : nat) (serial : Z) (s : surface)
| PtrMotion (p : nat) (time : Z) (x y : f64)
| PtrButton (p : nat) (serial time button : Z) (st : KeyState)
| PtrAxis (p : nat) (time : Z) (a : Axis) (v : f64)
| PtrAxisSource (p : nat) (source : Z)
| PtrAxisStop (p : nat) (time : Z) (a : Axis)
| PtrFrame (p : nat)
| TouchDown (t : nat) (serial time : Z) (s : surface) (id : Z) (x y : f64)
| TouchMotion (t : nat) (time id : Z) (x y : f64)
| TouchUp (t : nat) (serial time id : Z)
| TouchFrame (t : nat)
| RelMotion (p : nat) (utime_hi utime_lo : Z) (dx dy dx_unaccel dy_unaccel : f64)
| OutputMode (o : nat) (w h refresh : Z)
| OutputDone (o : nat)
| ToplevelConfigure (t : nat) (w h : Z)
| XdgSurfaceConfigure (x : nat) (serial : Z)
| LayerConfigure (l : nat) (serial w h : Z)
| CallbackDone (cb : nat) (ms : Z)
| PreferredBufferScale (s : surface) (scale : Z)
| FeedbackPresented (f : nat) (sec_hi sec_lo nsec refresh : Z)
| PlasmaWindow (m : nat) (window_id : Z)
| PlasmaWindowUuid (m : nat) (window_id : Z)
| PlasmaUnmapped (w : nat)
| PlasmaTitle (w : nat) (title : string)
| PlasmaAppId (w : nat) (app_id : string)
| PlasmaShowDesktop (m : nat)
| PlasmaStacking (m : nat)
| PlasmaStackingUuid (m : nat)
| PlasmaPid (w : nat) (pid : Z)
| PlasmaGeometry (w : nat) (geometry : Rect)
| PlasmaState (w : nat)
| PlasmaInitialState (w : nat)
| OutputGeometry (o : nat) (mm_w mm_h : Z)
| OutputScale (o : nat) (scale : Z)
| OutputName (o : nat)
| OutputDescription (o : nat)
| InhibitorActive (i : nat)
| PointerLocked (l : nat)
| OfferMade (dev offer : nat) (mimes : list string)
| FrameBuffer (f : nat) (w h stride : Z)
| FrameBufferDone (f : nat)
| FrameFlags (f : nat)
| FrameAlreadyUsed (f : nat)
| FrameFailed (f : nat)
| FrameReady (f : nat)
| AttachError (a : nat) (reason : string)
| SyncError (m : nat) (reason : string)
| BufferRelease (b : nat)
| PointSignal (p : TimelinePoint)
| WakeCompositor
| WakeOuter (fd : nat)
| HoldTaken (h : nat) (b : nat)
| HoldDropped (h : nat) (b : nat)
| RecorderSpawned (slot : nat) (codec : RecordingCodec) (path : string) (min_fps : option Z)
| BridgeSpawned (bin : string) (argv : list string)
| EncoderSpawned (slot : nat) (codec : RecordingCodec) (w h : Z)
| ChildTerm (pid : nat)
| ChildKill (pid : nat)
| ShutdownNotified.

(** ** The state *)

(** [EventSink]: the session's name and the bounded channel to the events task. *)
Record EventSink := {
  es_name : string;
  es_queue : list Ev.EventBody;
  es_closed : bool;
}.

#[export] Instance eta_EventSink : Eta EventSink := fun r =>
  Build_EventSink (es_name r) (es_queue r) (es_closed r).

Definition QUEUE_CAPACITY : nat := 256.

(** [EventSink::emit]: [try_send], which drops when the channel is full or closed. *)
Definition sink_emit (body : Ev.EventBody) (s : EventSink) : EventSink :=
  if es_closed s || (QUEUE_CAPACITY <=? length (es_queue s))%nat then s
  else s <| es_queue ::= (fun q => q ++ [body]) |>.

Record Inner := {
  width : Z;
  height : Z;
  scale : Z;
  next_window_id : Z;
  windows_map : gmap Z WindowInfo;
}.

#[export] Instance eta_Inner : Eta Inner := fun r =>
  Build_Inner (width r) (height r) (scale r) (next_window_id r) (windows_map r).

Record State := {
  st_name : string;
  inner : Inner;
  events : option EventSink;
  last_damage_ns : Z;
  windows_by_id : gmap Z (surface * client);
  keyboards : gmap client (list resource);
  pointers : gmap client (list resource);
  touches : gmap client (list resource);
  focused_window : option Z;
  content_fallback_warned : gset Z;
  serial_counter : Z;
  outer_wake_fd : option nat;
  last_activity_ms : Z;
  pending_frame_callbacks : list resource;
  keymap_override : option (nat * Z);
  share_clipboard : bool;
  outer_clipboard : option (list (string * list Z));
  outer_clipboard_version : Z;
  inner_data_devices : list resource;
  inner_selection : option (list string * nat);
  inner_selection_version : Z;
  any_shortcuts_inhibited : bool;
  pointer_lock_count : Z;
  relative_pointers : list resource;
  primary_selection : option (list string);
  primary_selection_devices : list resource;
  plasma_managers : list resource;
  plasma_windows : gmap Z (list resource);
  output_globals : list resource;
  toplevels : gmap Z (resource * resource);
  pending_dmabuf_releases : list nat;
  buffer_release_signals : gmap nat (list TimelinePoint);
  buffer_hold_state : gmap nat BufferHoldState;
  recording : option DualRecordingHandle;
  last_whole_desktop_capture : option Z;
  viewer : option ViewerHandle;
  cursor_surface : option (surface * Z * Z);
  cursor_channel : CursorChannel;
  cursor_shape_last : option Z;
  (* the shared stores *)
  surfs : gmap surface SurfaceUserData;
  bufs : gmap nat Buffer;
  slots : gmap nat LatestTaskSlot;
  holds : gmap nat InnerBufferHold;
  next_addr : nat;
  raised : gset nat;
  static_serial : Z;
  last_sent_clipboard : Z;
  (* the surroundings *)
  alive : gset nat;
  fence_ready : gset nat;
  clock_ns : Z;
  out : list output;
}.

#[export] Instance eta_State : Eta State := fun r =>
  Build_State (st_name r) (inner r) (events r) (last_damage_ns r) (windows_by_id r) (keyboards r)
    (pointers r) (touches r) (focused_window r) (content_fallback_warned r) (serial_counter r)
    (outer_wake_fd r) (last_activity_ms r) (pending_frame_callbacks r) (keymap_override r)
    (share_clipboard r) (outer_clipboard r) (outer_clipboard_version r) (inner_data_devices r)
    (inner_selection r) (inner_selection_version r) (any_shortcuts_inhibited r)
    (pointer_lock_count r) (relative_pointers r) (primary_selection r)
    (primary_selection_devices r) (plasma_managers r) (plasma_windows r) (output_globals r)
    (toplevels r) (pending_dmabuf_releases r) (buffer_release_signals r) (buffer_hold_state r)
    (recording r) (last_whole_desktop_capture r) (viewer r) (cursor_surface r) (cursor_channel r)
    (cursor_shape_last r) (surfs r) (bufs r) (slots r) (holds r) (next_addr r) (raised r)
    (static_serial r) (last_sent_clipboard r) (alive r) (fence_ready r) (clock_ns r) (out r).

(** ** Basic operations *)

Definition is_alive (st : State) (r : resource) : bool := bool_decide (res_id r ∈ alive st).

Definition buf_alive (st : State) (b : nat) : bool := bool_decide (b ∈ alive st).

(** [CLOCK_MONOTONIC] in milliseconds. *)
Definition monotonic_now_ms (st : State) : Z := as_u 64 (clock_ns st / 1000000).

Definition put (o : output) (st : State) : State := st <| out ::= (fun l => l ++ [o]) |>.

(** [fetch_add(1) & 0xFFFF_FFFF]. *)
Definition next_serial (st : State) : State * Z :=
  (st <| serial_counter ::= (fun n => as_u 64 (n + 1)) |>, Z.land (serial_counter st) 4294967295).

Definition wake_compositor (st : State) : State :=
  put WakeCompositor (st <| last_activity_ms := monotonic_now_ms st |>).

Definition note_activity (st : State) : State :=
  st <| last_activity_ms := monotonic_now_ms st |>.

Definition poke_outer_view (st : State) : State :=
  match outer_wake_fd st with Some fd => put (WakeOuter fd) st | None => st end.

Definition emit (body : Ev.EventBody) (st : State) : State :=
  st <| events ::= fmap (sink_emit body) |>.

Definition session_name (st : State) : string :=
  match events st with Some s => es_name s | None => EmptyString end.

(** [entry(k).or_default().push(v)]. *)
Definition push_entry {K V} `{Countable K} (k : K) (v : V) (m : gmap K (list V)) : gmap K (list V) :=
  <[k := default [] (m !! k) ++ [v]]> m.

(** [if let Some(v) = map.get_mut(k) { v.retain(..); if v.is_empty() { map.remove(k) } }]. *)
Definition drop_entry {K} `{Countable K} (k : K) (id : nat) (m : gmap K (list resource)) :
    gmap K (list resource) :=
  match m !! k with
  | None => m
  | Some v =>
      let v' := filter (fun r => res_id r ≠ id) v in
      if decide (v' = []) then delete k m else <[k := v']> m
  end.

(** The live entries of a list of objects. *)
Definition live (st : State) (l : list resource) : list resource :=
  filter (fun r => res_id r ∈ alive st) l.

(** [State::new]; [now] is the clock. *)
Definition state_new (name : string) (w h s : Z) (ev : option EventSink) (share : bool) (now : Z) :
    State :=
  {| st_name := name;
     inner := {| width := w; height := h; scale := s; next_window_id := 1; windows_map := ∅ |};
     events := ev; last_damage_ns := 0; windows_by_id := ∅; keyboards := ∅; pointers := ∅;
     touches := ∅; focused_window := None; content_fallback_warned := ∅; serial_counter := 1;
     outer_wake_fd := None; last_activity_ms := as_u 64 (now / 1000000);
     pending_frame_callbacks := []; keymap_override := None; share_clipboard := share;
     outer_clipboard := None; outer_clipboard_version := 0; inner_data_devices := [];
     inner_selection := None; inner_selection_version := 0; any_shortcuts_inhibited := false;
     pointer_lock_count := 0; relative_pointers := []; primary_selection := None;
     primary_selection_devices := []; plasma_managers := []; plasma_windows := ∅;
     output_globals := []; toplevels := ∅; pending_dmabuf_releases := [];
     buffer_release_signals := ∅; buffer_hold_state := ∅; recording := None;
     last_whole_desktop_capture := None; viewer := None; cursor_surface := None;
     cursor_channel := {| latest_image := None; latest_pos := None |}; cursor_shape_last := None;
     surfs := ∅; bufs := ∅; slots := ∅; holds := ∅; next_addr := 0; raised := ∅;
     static_serial := 1; last_sent_clipboard := 0;
     alive := ∅; fence_ready := ∅; clock_ns := now; out := [] |}.

(** ** Size, windows, events *)

Definition snapshot (st : State) : Z * Z * Z :=
  (width (inner st), height (inner st), scale (inner st)).

Definition window_count (st : State) : Z := as_u 32 (Z.of_nat (size (windows_map (inner st)))).

Definition default_change : WindowChange :=
  {| wc_title := None; wc_app_id := None; wc_geometry := None; wc_focused := None |}.

Definition notify_plasma_window_created (window_id : Z) (st : State) : State :=
  for_each (live st (plasma_managers st)) (fun m st =>
    let st := put (PlasmaWindow (res_id m) window_id) st in
    if 13 <=? res_version m then put (PlasmaWindowUuid (res_id m) window_id) st else st) st.

Definition notify_plasma (f : nat -> output) (window_id : Z) (st : State) : State :=
  for_each (live st (default [] (plasma_windows st !! window_id))) (fun w => put (f (res_id w))) st.

Definition notify_plasma_window_destroyed := notify_plasma PlasmaUnmapped.
Definition notify_plasma_window_title (window_id : Z) (title : string) :=
  notify_plasma (fun w => PlasmaTitle w title) window_id.
Definition notify_plasma_window_app_id (window_id : Z) (app_id : string) :=
  notify_plasma (fun w => PlasmaAppId w app_id) window_id.

Definition add_window (pid : Z) (geometry : Rect) (st : State) : State * Z :=
  let id := next_window_id (inner st) in
  let info := {| wi_id := id; wi_app_id := EmptyString; wi_title := EmptyString; wi_tags := [];
                 wi_geometry := geometry; wi_focused := false; wi_pid := pid;
                 wi_content_rect := None |} in
  let st := st <| inner ::= (fun s => s <| next_window_id := as_u 32 (id + 1) |>
                                       <| windows_map ::= insert id info |>) |> in
  let st := emit (Ev.WindowCreated (session_name st) id EmptyString EmptyString pid) st in
  (notify_plasma_window_created id st, id).

Definition remove_window (id : Z) (st : State) : State * bool :=
  let removed := bool_decide (is_Some (windows_map (inner st) !! id)) in
  let st := st <| inner ::= (fun s => s <| windows_map ::= delete id |>) |> in
  let now_empty := removed && bool_decide (windows_map (inner st) = ∅) in
  if removed then
    let st := notify_plasma_window_destroyed id st in
    let st := emit (Ev.WindowDestroyed (session_name st) id) st in
    (if now_empty then poke_outer_view st else st, true)
  else (st, false).

Definition with_app_id (a : string) (w : WindowInfo) : WindowInfo :=
  {| wi_id := wi_id w; wi_app_id := a; wi_title := wi_title w; wi_tags := wi_tags w;
     wi_geometry := wi_geometry w; wi_focused := wi_focused w; wi_pid := wi_pid w;
     wi_content_rect := wi_content_rect w |}.

Definition with_title (t : string) (w : WindowInfo) : WindowInfo :=
  {| wi_id := wi_id w; wi_app_id := wi_app_id w; wi_title := t; wi_tags := wi_tags w;
     wi_geometry := wi_geometry w; wi_focused := wi_focused w; wi_pid := wi_pid w;
     wi_content_rect := wi_content_rect w |}.

Definition with_content_rect (r : option Rect) (w : WindowInfo) : WindowInfo :=
  {| wi_id := wi_id w; wi_app_id := wi_app_id w; wi_title := wi_title w; wi_tags := wi_tags w;
     wi_geometry := wi_geometry w; wi_focused := wi_focused w; wi_pid := wi_pid w;
     wi_content_rect := r |}.

Definition set_app_id (id : Z) (app_id : string) (st : State) : State :=
  match windows_map (inner st) !! id with
  | Some w =>
      if decide (wi_app_id w = app_id) then st
      else
        let st := st <| inner ::= (fun s => s <| windows_map ::= insert id (with_app_id app_id w) |>) |> in
        let st := notify_plasma_window_app_id id app_id st in
        emit (Ev.WindowChanged (session_name st) id
          {| wc_title := None; wc_app_id := Some app_id; wc_geometry := None; wc_focused := None |}) st
  | None => st
  end.

Definition set_title (id : Z) (title : string) (st : State) : State :=
  match windows_map (inner st) !! id with
  | Some w =>
      if decide (wi_title w = title) then st
      else
        let st := st <| inner ::= (fun s => s <| windows_map ::= insert id (with_title title w) |>) |> in
        let st := notify_plasma_window_title id title st in
        emit (Ev.WindowChanged (session_name st) id
          {| wc_title := Some title; wc_app_id := None; wc_geometry := None; wc_focused := None |}) st
  | None => st
  end.

Section Ordered.
Context {HO : HashOrder}.

(** [State::windows]: the cached information with the content rectangle of the
    window's surface. *)
Definition windows (st : State) : list WindowInfo :=
  map (fun info =>
    match windows_by_id st !! wi_id info with
    | Some (s, _) =>
        match surfs st !! s with
        | Some sd => with_content_rect (content_rect sd) info
        | None => info
        end
    | None => info
    end) (values (windows_map (inner st))).

Definition window_ids (st : State) : list Z := keys (windows_map (inner st)).

(** [crate::compositor::VIRTUAL_OUTPUT_REFRESH_MHZ]. *)
Definition VIRTUAL_OUTPUT_REFRESH_MHZ : Z := 240000.

Definition readvertise (w h : Z) (o : resource) (st : State) : State :=
  let st := put (OutputMode (res_id o) (as_s 32 w) (as_s 32 h) VIRTUAL_OUTPUT_REFRESH_MHZ) st in
  if 2 <=? res_version o then put (OutputDone (res_id o)) st else st.

Definition reconfigure (w h : Z) (p : resource * resource) (st : State) : State :=
  let st := put (ToplevelConfigure (res_id p.2) (as_s 32 w) (as_s 32 h)) st in
  let '(st, serial) := next_serial st in
  put (XdgSurfaceConfigure (res_id p.1) serial) st.

Definition resize (w h : Z) (st : State) : State :=
  let st := st <| inner ::= (fun s => s <| width := w |> <| height := h |>) |> in
  let st := st <| output_globals ::= live st |> in
  let st := for_each (output_globals st) (readvertise w h) st in
  let st := st <| toplevels ::= filter (fun kp =>
                    res_id kp.2.1 ∈ alive st /\ res_id kp.2.2 ∈ alive st) |> in
  let st := for_each (values (toplevels st)) (reconfigure w h) st in
  wake_compositor st.

(** ** Keymap, frame callbacks, presentation *)

Definition update_keymap (fd : nat) (size : Z) (st : State) : State :=
  let st := st <| keymap_override := Some (fd, size) |> in
  let all_kbds := live st (concat (values (keyboards st))) in
  let st := for_each all_kbds (fun k => put (KbdKeymap (res_id k) fd size)) st in
  match all_kbds with [] => st | _ => wake_compositor st end.

(** [default_km] is the embedded keymap of [keymap.rs]. *)
Definition get_keymap (default_km : nat * Z) (st : State) : nat * Z :=
  default default_km (keymap_override st).

Definition queue_frame_callback (cb : resource) (st : State) : State :=
  st <| pending_frame_callbacks ::= (fun l => l ++ [cb]) |>.

(** [done] is a destructor event: the callback is dead after it. *)
Definition fire_callback (now_ms : Z) (cb : resource) (st : State) : State :=
  if is_alive st cb then
    put (CallbackDone (res_id cb) now_ms) (st <| alive ::= (fun a => a ∖ {[res_id cb]}) |>)
  else st.

Definition drain_frame_callbacks (st : State) : State :=
  let now_ms := as_u 32 (as_u 64 (clock_ns st / 1000000)) in
  let cbs := pending_frame_callbacks st in
  for_each cbs (fire_callback now_ms) (st <| pending_frame_callbacks := [] |>).

(** [vers s] is the version the surface was bound at. *)
Definition poke_client_surfaces (vers : surface -> Z) (st : State) : State :=
  for_each (values (windows_by_id st)) (fun p st =>
    if bool_decide (p.1 ∈ alive st) && (6 <=? vers p.1) then put (PreferredBufferScale p.1 1) st
    else st) st.

Definition PRESENTATION_REFRESH_PERIOD_NS : Z := 4166667.

(** [presented] is a destructor event too. *)
Definition fire_feedback (now_ns : Z) (fb : resource) (st : State) : State :=
  let tv_sec := now_ns / 1000000000 in
  if is_alive st fb then
    put (FeedbackPresented (res_id fb) (as_u 32 (Z.shiftr tv_sec 32)) (as_u 32 tv_sec)
           (now_ns mod 1000000000) PRESENTATION_REFRESH_PERIOD_NS)
        (st <| alive ::= (fun a => a ∖ {[res_id fb]}) |>)
  else st.

Definition drain_presentation_feedbacks (st : State) : State :=
  let now_ns := last_damage_ns st in
  if now_ns =? 0 then st
  else
    for_each (values (windows_by_id st)) (fun p st =>
      match surfs st !! p.1 with
      | None => st
      | Some sd =>
          for_each (pending_feedbacks sd) (fire_feedback now_ns)
            (st <| surfs ::= insert p.1 (sd <| pending_feedbacks := [] |>) |>)
      end) st.
End Ordered.

Definition record_damage (st : State) : State :=
  poke_outer_view (st <| last_damage_ns := as_u 64 (clock_ns st) |>).

(** ** Clipboard, shortcuts, pointer lock, relative pointers *)

Definition register_data_device (d : resource) (st : State) : State :=
  st <| inner_data_devices := live st (inner_data_devices st) ++ [d] |>.

Definition unregister_data_device (d : resource) (st : State) : State :=
  st <| inner_data_devices ::= filter (fun r => res_id r ≠ res_id d) |>.

Definition register_primary_device (d : resource) (st : State) : State :=
  st <| primary_selection_devices ::= (fun l => l ++ [d]) |>.

Definition unregister_primary_device (d : resource) (st : State) : State :=
  st <| primary_selection_devices ::= filter (fun r => res_id r ≠ res_id d) |>.

Definition set_inner_selection (mimes : list string) (source : nat) (st : State) : State :=
  st <| inner_selection := Some (mimes, source) |>
     <| inner_selection_version ::= (fun n => as_u 64 (n + 1)) |>.

Definition clear_inner_selection (st : State) : State :=
  st <| inner_selection := None |>
     <| inner_selection_version ::= (fun n => as_u 64 (n + 1)) |>.

Definition set_outer_clipboard (c : list (string * list Z)) (st : State) : State :=
  wake_compositor
    (st <| outer_clipboard := Some c |>
        <| outer_clipboard_version ::= (fun n => as_u 64 (n + 1)) |>).

Definition set_shortcuts_inhibited (b : bool) (st : State) : State :=
  st <| any_shortcuts_inhibited := b |>.

Definition inc_pointer_lock_count (st : State) : State :=
  poke_outer_view (st <| pointer_lock_count ::= (fun n => as_u 64 (n + 1)) |>).

Definition dec_pointer_lock_count (st : State) : State :=
  poke_outer_view (st <| pointer_lock_count ::= (fun n => as_u 64 (n - 1)) |>).

Definition pointer_lock_active (st : State) : bool := 0 <? pointer_lock_count st.

Definition add_relative_pointer (p : resource) (st : State) : State :=
  st <| relative_pointers ::= (fun l => l ++ [p]) |>.

Definition has_relative_pointers (st : State) : bool :=
  existsb (is_alive st) (relative_pointers st).

Definition inject_relative_pointer (utime_hi utime_lo : Z) (dx dy dxu dyu : f64) (st : State) :
    State :=
  let st := st <| relative_pointers ::= live st |> in
  match relative_pointers st with
  | [] => st
  | ptrs =>
      wake_compositor
        (for_each ptrs (fun p => put (RelMotion (res_id p) utime_hi utime_lo dx dy dxu dyu)) st)
  end.

(** ** Plasma windows, outputs and toplevels *)

Definition register_plasma_manager (m : resource) (st : State) : State :=
  st <| plasma_managers := live st (plasma_managers st) ++ [m] |>.

Definition register_plasma_window (window_id : Z) (w : resource) (st : State) : State :=
  st <| plasma_windows ::= push_entry window_id w |>.

Definition unregister_plasma_window (window_id : Z) (w : resource) (st : State) : State :=
  st <| plasma_windows ::= drop_entry window_id (res_id w) |>.

Definition register_output (o : resource) (st : State) : State :=
  st <| output_globals := live st (output_globals st) ++ [o] |>.

Definition register_toplevel (window_id : Z) (xs tl : resource) (st : State) : State :=
  st <| toplevels ::= insert window_id (xs, tl) |>.

Definition unregister_toplevel (window_id : Z) (st : State) : State :=
  st <| toplevels ::= delete window_id |>.

(** ** Focus *)

(** The live keyboards, pointers or touches of a client. *)
Definition live_of (m : gmap client (list resource)) (c : client) (st : State) : list resource :=
  live st (default [] (m !! c)).

Definition enter_keyboard (s : surface) (k : resource) (st : State) : State :=
  let '(st, serial) := next_serial st in
  let st := put (KbdEnter (res_id k) serial s) st in
  let '(st, serial) := next_serial st in
  put (KbdModifiers (res_id k) serial 0 0 0 0) st.

Definition frame_v5 (p : resource) (st : State) : State :=
  if 5 <=? res_version p then put (PtrFrame (res_id p)) st else st.

Definition enter_pointer (s : surface) (p : resource) (st : State) : State :=
  let '(st, serial) := next_serial st in
  frame_v5 p (put (PtrEnter (res_id p) serial s f64_zero f64_zero) st).

Definition leave_keyboard (s : surface) (k : resource) (st : State) : State :=
  let '(st, serial) := next_serial st in
  put (KbdLeave (res_id k) serial s) st.

Definition leave_pointer (s : surface) (p : resource) (st : State) : State :=
  let '(st, serial) := next_serial st in
  frame_v5 p (put (PtrLeave (res_id p) serial s) st).

Definition nonempty {A} (l : list A) : bool := match l with [] => false | _ => true end.

(** The common shape of [send_enter] and [send_leave]. *)
Definition notify_focus (fk fp : surface -> resource -> State -> State) (window_id : Z) (st : State) :
    State :=
  match windows_by_id st !! window_id with
  | None => st
  | Some (s, cid) =>
      let kbds := live_of (keyboards st) cid st in
      let ptrs := live_of (pointers st) cid st in
      let st := for_each kbds (fk s) st in
      let st := for_each ptrs (fp s) st in
      if nonempty kbds || nonempty ptrs then wake_compositor st else st
  end.

Definition send_enter := notify_focus enter_keyboard enter_pointer.
Definition send_leave := notify_focus leave_keyboard leave_pointer.

Definition register_surface (window_id : Z) (s : surface) (c : client) (st : State) : State :=
  let st := st <| windows_by_id ::= insert window_id (s, c) |> in
  let prev := focused_window st in
  let st := st <| focused_window := Some window_id |> in
  let st := match prev with
            | Some old => if old =? window_id then st else send_leave old st
            | None => st
            end in
  send_enter window_id st.

Definition register_surface_no_focus (window_id : Z) (s : surface) (c : client) (st : State) :
    State :=
  st <| windows_by_id ::= insert window_id (s, c) |>.

(** [keys().max()]. *)
Definition max_key {A} (m : gmap Z A) : option Z :=
  foldr (fun k acc => Some (match acc with Some a => Z.max k a | None => k end)) None
    (map_to_list m).*1.

Definition unregister_surface (window_id : Z) (st : State) : State :=
  let st := st <| windows_by_id ::= delete window_id |> in
  let st := unregister_toplevel window_id st in
  let new_focus :=
    if decide (focused_window st = Some window_id) then max_key (windows_by_id st)
    else focused_window st in
  let st := st <| focused_window := new_focus |> in
  match new_focus with Some new => send_enter new st | None => st end.

(** The late-binder case of [register_keyboard] and [register_pointer]. *)
Definition late_enter (enter : surface -> resource -> State -> State) (c : client) (r : resource)
    (st : State) : State :=
  match focused_window st with
  | Some wid =>
      match windows_by_id st !! wid with
      | Some (s, cid) =>
          if decide (cid = c) then wake_compositor (enter s r st) else st
      | None => st
      end
  | None => st
  end.

Definition register_keyboard (c : client) (k : resource) (st : State) : State :=
  late_enter enter_keyboard c k (st <| keyboards ::= push_entry c k |>).

Definition unregister_keyboard (c : client) (k : resource) (st : State) : State :=
  st <| keyboards ::= drop_entry c (res_id k) |>.

Definition register_pointer (c : client) (p : resource) (st : State) : State :=
  late_enter enter_pointer c p (st <| pointers ::= push_entry c p |>).

Definition unregister_pointer (c : client) (p : resource) (st : State) : State :=
  st <| pointers ::= drop_entry c (res_id p) |>.

Definition register_touch (c : client) (t : resource) (st : State) : State :=
  st <| touches ::= push_entry c t |>.

Definition unregister_touch (c : client) (t : resource) (st : State) : State :=
  st <| touches ::= drop_entry c (res_id t) |>.

(** ** Holds and releases of client buffers *)

Definition queue_deferred_release (b : nat) (st : State) : State :=
  st <| pending_dmabuf_releases ::= (fun l => l ++ [b]) |>.

(** The address of the dmabuf behind a buffer, when it is one. *)
Definition dmabuf_of (st : State) (b : nat) : option nat :=
  bf ← bufs st !! b;
  match buf_kind bf with Dmabuf _ _ _ _ _ => Some (buf_data bf) | _ => None end.

Definition take_pending_releases (st : State) : State * list nat :=
  (st <| pending_dmabuf_releases := [] |>, pending_dmabuf_releases st).

(** (deferred, immediate). *)
Definition take_pending_releases_split (forwarded : nat) (st : State) : State * (list nat * list nat) :=
  let '(st, all) := take_pending_releases st in
  (st, (filter (fun b => dmabuf_of st b = Some forwarded) all,
        filter (fun b => dmabuf_of st b ≠ Some forwarded) all)).

Definition note_buffer_release_point (b : nat) (p : TimelinePoint) (st : State) : State :=
  st <| buffer_release_signals ::= push_entry b p |>.

Definition do_release_inner_buffer (b : nat) (st : State) : State :=
  if negb (buf_alive st b) then st
  else
    match buffer_release_signals st !! b with
    | Some (p :: q) =>
        let st := st <| buffer_release_signals ::=
                         (fun m => if decide (q = []) then delete b m else <[b := q]> m) |> in
        put (PointSignal p) (put (BufferRelease b) st)
    | Some [] => put (BufferRelease b) (st <| buffer_release_signals ::= delete b |>)
    | None => put (BufferRelease b) st
    end.

Definition release_inner_buffer (b : nat) (st : State) : State :=
  if negb (buf_alive st b) then st
  else
    match buffer_hold_state st !! b with
    | Some h =>
        if 0 <? bhs_count h then
          st <| buffer_hold_state ::=
                insert b {| bhs_count := bhs_count h; bhs_release_requested := true |} |>
        else do_release_inner_buffer b st
    | None => do_release_inner_buffer b st
    end.

Definition flush_pending_releases (st : State) : State :=
  let '(st, bs) := take_pending_releases st in
  let st := for_each bs release_inner_buffer st in
  if nonempty bs then wake_compositor st else st.

Definition register_buffer_hold (b : nat) (st : State) : State :=
  let h := default {| bhs_count := 0; bhs_release_requested := false |} (buffer_hold_state st !! b) in
  st <| buffer_hold_state ::=
        insert b {| bhs_count := as_u 32 (bhs_count h + 1);
                    bhs_release_requested := bhs_release_requested h |} |>.

Definition drop_buffer_hold (b : nat) (st : State) : State :=
  match buffer_hold_state st !! b with
  | None => st
  | Some h =>
      let count := Z.max 0 (bhs_count h - 1) in
      if count =? 0 then
        let st := st <| buffer_hold_state ::= delete b |> in
        if bhs_release_requested h then do_release_inner_buffer b st else st
      else
        st <| buffer_hold_state ::=
              insert b {| bhs_count := count; bhs_release_requested := bhs_release_requested h |} |>
  end.

(** [InnerBufferHold::new]: a new [Arc] at a new address. *)
Definition hold_new (b : nat) (st : State) : State * nat :=
  let st := register_buffer_hold b st in
  let h := next_addr st in
  (put (HoldTaken h b)
     (st <| holds ::= insert h {| ibh_buf := b; ibh_refs := 1 |} |> <| next_addr ::= S |>), h).

(** Cloning and dropping an [Arc<InnerBufferHold>]; [Drop] runs with the last. *)
Definition hold_clone (h : nat) (st : State) : State :=
  st <| holds ::= alter (fun x => {| ibh_buf := ibh_buf x; ibh_refs := S (ibh_refs x) |}) h |>.

Definition hold_drop (h : nat) (st : State) : State :=
  match holds st !! h with
  | None => st
  | Some x =>
      match ibh_refs x with
      | S (S n) => st <| holds ::= insert h {| ibh_buf := ibh_buf x; ibh_refs := S n |} |>
      | _ =>
          let st := put (HoldDropped h (ibh_buf x)) (st <| holds ::= delete h |>) in
          wake_compositor (drop_buffer_hold (ibh_buf x) st)
      end
  end.

(** ** The attached view *)

Definition is_attached (st : State) : bool := bool_decide (is_Some (outer_wake_fd st)).

Definition set_outer_wake_fd (fd : option nat) (st : State) : State :=
  let was_attached := is_attached st in
  let st := st <| outer_wake_fd := fd |> in
  let now_attached := is_attached st in
  if eqb was_attached now_attached then st
  else
    let st := if now_attached then st else flush_pending_releases st in
    emit (Ev.Occluded (st_name st) (negb now_attached)) st.

Definition clear_outer_wake_fd_if_mine (fd : nat) (st : State) : State :=
  if decide (outer_wake_fd st = Some fd) then st <| outer_wake_fd := None |> else st.
