(* ===== verification/SessionInput.v ===== *)
(** * Synthetic input, cursor and capture ([crates/waymux-session/src/state.rs],
    [viewer/cursor.rs])

    The injection of keys, pointer motion, buttons, scrolling and touches into the
    client of the focused or of a named window, the cursor image that the viewer
    overlays, and the capture of a window or of the whole desktop, which composites
    the surface tree of [Composite]. *)

From Stdlib Require Import ZArith Lia.
From S2P Require Import Prelude Words Floats Messages Composite Pixels Session.
From stdpp Require Import prelude strings gmap numbers list.

Open Scope Z_scope.

(** ** Keys and scrolling *)

(** The client of the focused window. *)
Definition focused_client (st : State) : option client :=
  wid ← focused_window st; p ← windows_by_id st !! wid; Some p.2.

Definition key_state (pressed : bool) : KeyState := if pressed then Pressed else Released.

Definition inject_key (keycode : Z) (pressed : bool) (depressed latched locked group : Z)
    (st : State) : State * bool :=
  match focused_client st with
  | None => (st, false)
  | Some c =>
      match live_of (keyboards st) c st with
      | [] => (st, false)
      | kbds =>
          let '(st, serial_mods) := next_serial st in
          let '(st, serial_key) := next_serial st in
          let time_ms := as_u 32 (monotonic_now_ms st) in
          let st := for_each kbds (fun k st =>
            put (KbdKey (res_id k) serial_key time_ms keycode (key_state pressed))
              (put (KbdModifiers (res_id k) serial_mods depressed latched locked group) st)) st in
          (wake_compositor st, true)
      end
  end.

Definition when (b : bool) (f : State -> State) (st : State) : State := if b then f st else st.

Definition axis_events (source : option Z) (axis_h axis_v : f64) (stop_h stop_v : bool) (time_ms : Z)
    (p : resource) (st : State) : State :=
  let v5 := 5 <=? res_version p in
  let st := match source with Some src => when v5 (put (PtrAxisSource (res_id p) src)) st | None => st end in
  let st := when (f64_nonzero axis_v) (put (PtrAxis (res_id p) time_ms VerticalScroll axis_v)) st in
  let st := when (f64_nonzero axis_h) (put (PtrAxis (res_id p) time_ms HorizontalScroll axis_h)) st in
  let st := when (stop_v && v5) (put (PtrAxisStop (res_id p) time_ms VerticalScroll)) st in
  let st := when (stop_h && v5) (put (PtrAxisStop (res_id p) time_ms HorizontalScroll)) st in
  when v5 (put (PtrFrame (res_id p))) st.

Definition inject_axis (source : option Z) (axis_h axis_v : f64) (stop_h stop_v : bool) (st : State) :
    State * bool :=
  match focused_client st with
  | None => (st, false)
  | Some c =>
      match live_of (pointers st) c st with
      | [] => (st, false)
      | ptrs =>
          let time_ms := as_u 32 (monotonic_now_ms st) in
          let st := for_each ptrs (axis_events source axis_h axis_v stop_h stop_v time_ms) st in
          (wake_compositor st, true)
      end
  end.

(** ** Pointer and touch *)

(** [logical_to_surface_coord]. *)
Definition logical_to_surface_coord (x y : f64) (_scale : Z) : f64 * f64 := (x, y).

(** The inset of a window's content; a tracked surface has user data, else the
    [expect] panics. *)
Definition window_content_inset (window_id : Z) (st : State) : result (State * (Z * Z)) stop :=
  match windows_by_id st !! window_id with
  | None => Ok (st, (0, 0))
  | Some (s, _) =>
      match surfs st !! s with
      | None => Err Panics
      | Some sd =>
          match content_rect sd with
          | Some r => Ok (st, (Z.max (rect_x r) 0, Z.max (rect_y r) 0))
          | None => Ok (st <| content_fallback_warned ::= (fun w => {[window_id]} ∪ w) |>, (0, 0))
          end
      end
  end.

(** The coordinates delivered for the given ones. *)
Definition place (content : bool) (window_id : Z) (x y : f64) (st : State) :
    result (State * (f64 * f64)) stop :=
  let? r := (if content then
               let? r := window_content_inset window_id st in
               let '(st, (ix, iy)) := r in
               Ok (st, (f64_add x (f64_of_int ix), f64_add y (f64_of_int iy)))
             else Ok (st, (x, y))) in
  let '(st, (x, y)) := r in
  Ok (st, logical_to_surface_coord x y (scale (inner st))).

Definition pointer_events (x y : f64) (button : Z) (pressed : bool) (axis_x axis_y : f64)
    (time_ms : Z) (p : resource) (st : State) : State :=
  let needs_split := negb (button =? 0) || f64_nonzero axis_x || f64_nonzero axis_y in
  let v5 := 5 <=? res_version p in
  let st := put (PtrMotion (res_id p) time_ms x y) st in
  let st := when (needs_split && v5) (put (PtrFrame (res_id p))) st in
  let st := when (negb (button =? 0)) (fun st =>
    let '(st, serial) := next_serial st in
    put (PtrButton (res_id p) serial time_ms button (key_state pressed)) st) st in
  let st := when (f64_nonzero axis_x) (put (PtrAxis (res_id p) time_ms HorizontalScroll axis_x)) st in
  let st := when (f64_nonzero axis_y) (put (PtrAxis (res_id p) time_ms VerticalScroll axis_y)) st in
  when v5 (put (PtrFrame (res_id p))) st.

(** [CursorChannel]. *)
Definition push_image (i : CursorImage) (c : CursorChannel) : CursorChannel :=
  c <| latest_image := Some i |>.

Definition push_pos (p : CursorPos) (c : CursorChannel) : CursorChannel :=
  c <| latest_pos := Some p |>.

Definition drain (c : CursorChannel) : CursorChannel * list CursorUpdate :=
  ({| latest_image := None; latest_pos := None |},
   match latest_image c with Some i => [UpdImage i] | None => [] end ++
   match latest_pos c with Some p => [UpdPos p] | None => [] end).

Definition record_cursor_pos (x y : f32) (seq : Z) (st : State) : State :=
  st <| cursor_channel ::= push_pos {| cp_x := x; cp_y := y; cp_seq := seq |} |>.

Definition inject_pointer (window_id : option Z) (content : bool) (x y : f64) (button : Z)
    (pressed : bool) (axis_x axis_y : f64) (seq : Z) (st : State) : result (State * bool) stop :=
  match (match window_id with Some id => Some id | None => focused_window st end) with
  | None => Ok (st, false)
  | Some target =>
      match windows_by_id st !! target with
      | None => Ok (st, false)
      | Some (_, c) =>
          let? r := place content target x y st in
          let '(st, (x, y)) := r in
          match live_of (pointers st) c st with
          | [] => Ok (st, false)
          | ptrs =>
              let time_ms := as_u 32 (monotonic_now_ms st) in
              let st := for_each ptrs (pointer_events x y button pressed axis_x axis_y time_ms) st in
              let st := record_cursor_pos (f32_of_f64 x) (f32_of_f64 y) seq st in
              Ok (wake_compositor st, true)
          end
      end
  end.

Definition touch_events (s : surface) (id : Z) (x y : f64) (phase : TouchPhase) (time_ms : Z)
    (t : resource) (st : State) : State :=
  let st :=
    match phase with
    | Down =>
        let '(st, serial) := next_serial st in
        put (TouchDown (res_id t) serial time_ms s (as_s 32 id) x y) st
    | Motion => put (TouchMotion (res_id t) time_ms (as_s 32 id) x y) st
    | Up =>
        let '(st, serial) := next_serial st in
        put (TouchUp (res_id t) serial time_ms (as_s 32 id)) st
    end in
  put (TouchFrame (res_id t)) st.

Definition inject_touch (window_id : option Z) (content : bool) (id : Z) (x y : f64)
    (phase : TouchPhase) (st : State) : result (State * bool) stop :=
  match (match window_id with Some id => Some id | None => focused_window st end) with
  | None => Ok (st, false)
  | Some target =>
      match windows_by_id st !! target with
      | None => Ok (st, false)
      | Some (s, c) =>
          let? r := place content target x y st in
          let '(st, (x, y)) := r in
          match live_of (touches st) c st with
          | [] => Ok (st, false)
          | ts =>
              let time_ms := as_u 32 (monotonic_now_ms st) in
              let st := for_each ts (touch_events s id x y phase time_ms) st in
              Ok (wake_compositor st, true)
          end
      end
  end.

(** ** Capture *)

(** What compositing reads of a surface. *)
Definition surface_view (st : State) (sd : SurfaceUserData) : SurfaceData :=
  {| sd_current_buffer := current_buffer sd ≫= fun b => buf_kind <$> bufs st !! b;
     sd_children := children sd;
     sd_viewport := viewport sd |}.

Definition surfaces_view (st : State) : surfaces := surface_view st <$> surfs st.

(** A capture: bytes, width, height, stride, in [Argb8888]. *)
Abbreviation capture := (list Z * Z * Z * Z)%type.

Definition capture_window (fuel : nat) (window_id : Z) (st : State) : result (option capture) stop :=
  match windows_by_id st !! window_id with
  | None => Ok None
  | Some (s, _) =>
      let? r := composite fuel (surfaces_view st) s (width (inner st), height (inner st)) in
      match r with
      | None => Ok None
      | Some f => Ok (Some (cf_bytes f, cf_width f, cf_height f, cf_stride f))
      end
  end.

Section Ordered.
Context {HO : HashOrder}.

Definition is_layer (st : State) (s : surface) : bool :=
  match surfs st !! s with Some sd => is_layer_surface sd | None => false end.

(** Regular windows side by side, then layer surfaces at the origin. *)
Definition capture_desktop (fuel : nat) (st : State) : result (option capture) stop :=
  let '(sw, sh, _) := snapshot st in
  if (sw =? 0) || (sh =? 0) then Ok None
  else
    let w := as_s 32 sw in
    let h := as_s 32 sh in
    let stride := i32_mul w 4 in
    let size := usize_mul (usize h) (usize stride) in
    if 2 ^ 63 <=? size then Err Panics
    else
      let ss := surfaces_view st in
      let all := (values (windows_by_id st)).*1 in
      let regular := filter (fun s => is_layer st s = false) all in
      let layers := filter (fun s => is_layer st s = true) all in
      let n := Z.max (Z.of_nat (length regular)) 1 in
      let tile_w := Z.quot w (as_s 32 n) in
      let? buf := for_each_in (imap pair regular) (fun p =>
        composite_into fuel ss w h stride p.2 (i32_mul (as_s 32 (Z.of_nat p.1)) tile_w) 0)
        (replicate (Z.to_nat size) 0) in
      let? buf := for_each_in layers (fun s => composite_into fuel ss w h stride s 0 0) buf in
      if existsb (fun s => bool_decide (is_Some (surfs st !! s))) all
      then Ok (Some (buf, w, h, stride))
      else Ok None.
End Ordered.

(** [capture_focused_dims]. *)
Definition capture_focused_dims (st : State) : option (Z * Z) :=
  wid ← focused_window st;
  p ← windows_by_id st !! wid;
  sd ← surfs st !! p.1;
  let '(w, h) := surface_dims (surface_view st sd) (width (inner st), height (inner st)) in
  if (0 <? w) && (0 <? h) then Some (w, h) else None.

(** [capture_focused_into]. *)
Definition capture_focused_into (fuel : nat) (buf : list Z) (st : State) :
    result (list Z * option (Z * Z * Z)) stop :=
  match (wid ← focused_window st; windows_by_id st !! wid) with
  | None => Ok (buf, None)
  | Some (s, _) => composite_into_buf fuel (surfaces_view st) s buf (width (inner st), height (inner st))
  end.

(** [composite_focused_direct]. *)
Definition composite_focused_direct (fuel : nat) (output : list Z) (w h : Z) (st : State) :
    result (list Z * bool) stop :=
  match (wid ← focused_window st; windows_by_id st !! wid) with
  | None => Ok (output, false)
  | Some (s, _) => composite_into_slice fuel (surfaces_view st) s output w h
  end.

(** The dmabuf of one surface, with its size and the buffer. *)
Definition surface_dmabuf (st : State) (s : surface) : option (Z * Z * nat * nat) :=
  sd ← surfs st !! s;
  b ← current_buffer sd;
  bf ← bufs st !! b;
  match buf_kind bf with
  | Dmabuf w h _ _ _ => Some (w, h, buf_data bf, b)
  | _ => None
  end.

(** The larger of the best so far and a child's, the earlier one on a tie; areas
    are [i32] products. *)
Definition better (best : option (Z * Z * nat * nat)) (d : Z * Z * nat * nat) :
    option (Z * Z * nat * nat) :=
  match best with
  | None => Some d
  | Some b =>
      let '(w, h, _, _) := d in
      let '(bw, bh, _, _) := b in
      if i32_mul bw bh <? i32_mul w h then Some d else best
  end.

(** [clone_focused_dmabuf_with_buffer]; [clone_focused_dmabuf] is its first part. *)
Definition clone_focused_dmabuf_with_buffer (st : State) : option (Z * Z * nat * nat) :=
  wid ← focused_window st;
  p ← windows_by_id st !! wid;
  match surface_dmabuf st p.1 with
  | Some d => Some d
  | None =>
      sd ← surfs st !! p.1;
      foldl (fun best c =>
        match surface_dmabuf st (ch_surface c) with
        | Some d => better best d
        | None => best
        end) None (children sd)
  end.

Definition clone_focused_dmabuf (st : State) : option nat :=
  (fun d => match d with (_, _, ptr, _) => ptr end) <$> clone_focused_dmabuf_with_buffer st.

(** ** The cursor overlay *)

(** [CursorShapeTracker::changed]. *)
Definition shape_changed (buffer_id : Z) (last : option Z) : option Z * bool :=
  if decide (last = Some buffer_id) then (last, false) else (Some buffer_id, true).

(** [cursor_shm_argb_bytes]: width, height, stride, bytes, opaque. *)
Definition cursor_shm_argb_bytes (k : BufferKind) : option (Z * Z * Z * list Z * bool) :=
  r ← with_bytes k;
  let '(bytes, w, h, stride, format) := r in
  match format, k with
  | Xrgb8888, Shm _ => Some (as_u 32 w, as_u 32 h, as_u 32 stride, bytes, true)
  | Argb8888, Shm _ => Some (as_u 32 w, as_u 32 h, as_u 32 stride, bytes, false)
  | _, _ => None
  end.

(** The alpha byte of every pixel forced to 255. *)
Fixpoint opaque_rgba (l : list Z) : list Z :=
  match l with
  | r :: g :: b :: _ :: l' => r :: g :: b :: 255 :: opaque_rgba l'
  | _ => l
  end.

(** A readback of a cursor's dmabuf by the GPU, when it succeeds. *)
Class CursorReader := read_rgba : nat -> Z -> Z -> option (list Z).

Definition DRM_FORMAT_ARGB8888 : Z := 0x34325241.
Definition DRM_FORMAT_XRGB8888 : Z := 0x34325258.

Definition queue_cursor (w h hot_x hot_y : Z) (rgba : list Z) (st : State) : State :=
  st <| cursor_channel ::= push_image {| ci_w := as_u 16 w; ci_h := as_u 16 h;
                                         ci_hot_x := hot_x; ci_hot_y := hot_y; ci_rgba := rgba |} |>.

Definition note_cursor_dirty `{CursorReader} (st : State) : result State stop :=
  match cursor_surface st with
  | None => Ok (queue_cursor 0 0 0 0 [] st)
  | Some (s, hx, hy) =>
      let hot_x := as_u 16 (Z.max hx 0) in
      let hot_y := as_u 16 (Z.max hy 0) in
      match (sd ← surfs st !! s; b ← current_buffer sd; bufs st !! b) with
      | None => Ok st
      | Some bf =>
          let '(last, changed) := shape_changed (buf_protocol_id bf) (cursor_shape_last st) in
          let st := st <| cursor_shape_last := last |> in
          if negb changed then Ok st
          else
            match buf_kind bf with
            | Shm _ =>
                match cursor_shm_argb_bytes (buf_kind bf) with
                | None => Ok st
                | Some (w, h, stride, bytes, opaque) =>
                    if (MAX_CURSOR_DIM <? w) || (MAX_CURSOR_DIM <? h) then Ok st
                    else
                      let? rgba := argb8888_bytes_to_rgba bytes w h stride in
                      Ok (queue_cursor w h hot_x hot_y
                            (if opaque then opaque_rgba rgba else rgba) st)
                end
            | Dmabuf dw dh _ _ _ =>
                let w := as_u 32 dw in
                let h := as_u 32 dh in
                if (MAX_CURSOR_DIM <? w) || (MAX_CURSOR_DIM <? h) then Ok st
                else if negb ((buf_drm_format bf =? DRM_FORMAT_ARGB8888) ||
                              (buf_drm_format bf =? DRM_FORMAT_XRGB8888)) then Ok st
                else
                  match read_rgba (buf_data bf) w h with
                  | Some rgba => Ok (queue_cursor w h hot_x hot_y rgba st)
                  | None => Ok st
                  end
            | _ => Ok st
            end
      end
  end.
