(* ===== verification/SessionRecord.v ===== *)
(** * Feeding the encoders ([crates/waymux-session/src/recording.rs], [state.rs])

    The latest-only slot between the compositor and an encoder thread, and the tap
    that runs in every [wl_surface.commit]: which encoders are active, which frame
    each of them gets, and which buffers are pinned for them. A task that is
    replaced or consumed drops its holds. *)

From Stdlib Require Import ZArith Lia.
From S2P Require Import Prelude Words Messages Composite Pixels Session SessionInput.
From stdpp Require Import prelude strings gmap list.

Open Scope Z_scope.

(** ** Tasks and slots *)

Definition task_holds (t : RecordingTask) : list nat :=
  match t with TaskDmabuf _ hs => hs | _ => [] end.

(** Dropping a task drops its [Arc]s, in order. *)
Definition drop_task (t : RecordingTask) (st : State) : State :=
  for_each (task_holds t) hold_drop st.

Definition slot_new : LatestTaskSlot :=
  {| slot_inner := None; slot_produced := 0; slot_dropped := 0 |}.

(** [LatestTaskSlot::put]; assigning to the guard drops the old task. *)
Definition slot_put (a : nat) (t : RecordingTask) (st : State) : State :=
  match slots st !! a with
  | None => drop_task t st
  | Some sl =>
      let sl' := {| slot_inner := Some t;
                    slot_produced := as_u 64 (slot_produced sl + 1);
                    slot_dropped := match slot_inner sl with
                                    | Some _ => as_u 64 (slot_dropped sl + 1)
                                    | None => slot_dropped sl
                                    end |} in
      let st := st <| slots ::= insert a sl' |> in
      match slot_inner sl with Some old => drop_task old st | None => st end
  end.

(** [take_blocking] takes what is there when it looks, at once or after the wait;
    the consumer then owns the task. *)
Definition slot_take (a : nat) (st : State) : State * option RecordingTask :=
  match slots st !! a with
  | None => (st, None)
  | Some sl => (st <| slots ::= insert a (sl <| slot_inner := None |>) |>, slot_inner sl)
  end.

(** ** Handles *)

Definition is_raised (st : State) (flag : nat) : bool := bool_decide (flag ∈ raised st).

Definition is_active (d : DualRecordingHandle) (st : State) : bool :=
  negb (is_raised st (rh_stop (drh_primary d))).

(** [stop_both]; waking a condition variable changes no state. *)
Definition stop_both (d : DualRecordingHandle) (st : State) : State :=
  let st := st <| raised ::= (fun r => {[rh_stop (drh_primary d)]} ∪ r) |> in
  match drh_secondary d with
  | Some sec => st <| raised ::= (fun r => {[rh_stop sec]} ∪ r) |>
  | None => st
  end.

Definition is_recording (st : State) : bool :=
  match recording st with Some d => is_active d st | None => false end.

Definition has_active_frame_consumer (st : State) : bool :=
  is_attached st || is_recording st || bool_decide (is_Some (viewer st)).

Definition encoder_count_for_tap (st : State) : nat :=
  (match recording st with
   | Some d => 1 + (match drh_secondary d with Some _ => 1 | None => 0 end)
   | None => 0
   end +
   match viewer st with Some _ => 1 | None => 0 end)%nat.

(** ** Frames pushed by the attached view *)

Definition clone_task (t : RecordingTask) (st : State) : State :=
  for_each (task_holds t) hold_clone st.

(** [try_push_recording_pixels] and [try_push_recording_dmabuf]: the secondary gets
    a clone; when nothing is recording the task is dropped. *)
Definition try_push_recording (t : RecordingTask) (st : State) : State :=
  match recording st with
  | None => drop_task t st
  | Some d =>
      if is_raised st (rh_stop (drh_primary d)) then drop_task t st
      else
        let st :=
          match drh_secondary d with
          | Some sec =>
              if is_raised st (rh_stop sec) then st
              else slot_put (rh_slot sec) t (clone_task t st)
          | None => st
          end in
        slot_put (rh_slot (drh_primary d)) t st
  end.

(** ** Which frame an encoder gets *)

(** The buffer a surface shows. *)
Definition surface_buffer (st : State) (s : surface) : option (nat * Buffer) :=
  sd ← surfs st !! s; b ← current_buffer sd; bf ← bufs st !! b; Some (b, bf).

(** The encoders that import a dmabuf themselves. *)
Definition needs_vulkan (c : RecordingCodec) : bool :=
  match c with H264Vulkan | Ffv1Vulkan | H264VulkanLossless => true | _ => false end.

Definition needs_nv12 (c : RecordingCodec) : bool :=
  match c with H264Nvenc | H264Vaapi => true | _ => false end.

Definition wants_dmabuf (c : RecordingCodec) : bool :=
  needs_vulkan c || match c with CudaNvenc | H264Vaapi => true | _ => false end.

(** The encoders whose driver waits for the producer. *)
Definition gpu_path (c : RecordingCodec) : bool :=
  match c with
  | H264Nvenc | H264Vaapi | H264Vulkan | H264VulkanLossless | HevcVulkanLossless => true
  | _ => false
  end.

Definition DRM_FORMAT_MOD_LINEAR : Z := 0.

(** [dmabuf_fence_ready_now] of the fd behind a buffer. *)
Definition dmabuf_fence_ready_now (st : State) (b : nat) : bool := bool_decide (b ∈ fence_ready st).

Definition dmabuf_implicit_fence_ready (st : State) (s : surface) : bool :=
  match surface_buffer st s with
  | Some (b, bf) =>
      match buf_kind bf with Dmabuf _ _ _ _ _ => dmabuf_fence_ready_now st b | _ => true end
  | None => true
  end.

Definition surface_in_focused_tree (st : State) (s : surface) : bool :=
  match (wid ← focused_window st; windows_by_id st !! wid) with
  | Some (parent, _) => bool_decide (parent = s)
  | None => false
  end.

Definition committed_buffer_is_desktop_output (st : State) (s : surface) : bool :=
  match surface_buffer st s with
  | Some (_, bf) =>
      match buf_kind bf with
      | Dmabuf w h _ _ _ =>
          ((buf_drm_format bf =? DRM_FORMAT_ARGB8888) || (buf_drm_format bf =? DRM_FORMAT_XRGB8888))
          && (as_u 32 w =? width (inner st)) && (as_u 32 h =? height (inner st))
      | _ => false
      end
  | None => false
  end.

(** [read_surface_buffer_for_recording]: packed bytes, width, height. *)
Definition read_surface_buffer_for_recording (st : State) (s : surface) :
    result (option (list Z * Z * Z)) stop :=
  match surface_buffer st s with
  | None => Ok None
  | Some (b, bf) =>
      let gated :=
        match buf_kind bf with
        | Dmabuf _ _ _ _ _ =>
            negb (buf_modifier bf =? DRM_FORMAT_MOD_LINEAR) || negb (dmabuf_fence_ready_now st b)
        | _ => false
        end in
      if gated then Ok None
      else
        match with_bytes (buf_kind bf) with
        | None => Ok None
        | Some (bytes, w, h, stride, format) =>
            match format with
            | OtherFormat _ => Ok None
            | _ =>
                let? p := destride_bgra bytes (as_u 32 w) (as_u 32 h) (as_u 32 stride) in
                Ok (Some (p, as_u 32 w, as_u 32 h))
            end
        end
  end.

(** A dmabuf task with a hold of its own. *)
Definition put_dmabuf (slot b dma : nat) (st : State) : State :=
  let '(st, h) := hold_new b st in
  slot_put slot (TaskDmabuf dma [h]) st.

(** The eager readback of a linear dmabuf, pinned while it runs. *)
Definition put_readback (slot b : nat) (w h stride : Z) (readback : option (list Z)) (nv12 : bool)
    (st : State) : result State stop :=
  let '(st, hd) := hold_new b st in
  let fence := dmabuf_fence_ready_now st b in
  if negb nv12 && negb fence then Ok (hold_drop hd st)
  else
    match readback with
    | None => Ok (hold_drop hd st)
    | Some raw =>
        let? pixels := destride_bgra raw (as_u 32 w) (as_u 32 h) stride in
        Ok (hold_drop hd (slot_put slot (TaskPixels pixels (as_u 32 w) (as_u 32 h)) st))
    end.

Definition push_focused_buffer_to_recording (s : surface) (slot : nat) (codec : RecordingCodec)
    (st : State) : result State stop :=
  match surface_buffer st s with
  | None => Ok st
  | Some (b, bf) =>
      match buf_kind bf with
      | Dmabuf w h stride _ readback =>
          if wants_dmabuf codec || negb (buf_modifier bf =? DRM_FORMAT_MOD_LINEAR)
          then Ok (put_dmabuf slot b (buf_data bf) st)
          else put_readback slot b w h stride readback (needs_nv12 codec) st
      | Shm _ | SinglePixel _ _ _ _ =>
          let? r := read_surface_buffer_for_recording st s in
          match r with
          | Some (pixels, w, h) => Ok (slot_put slot (TaskPixels pixels w h) st)
          | None => Ok st
          end
      | Invalid => Ok st
      end
  end.

(** ** The tap *)

(** The active encoders with their capture mode; [None] when there is none. *)
Definition tap_encoders (st : State) : option (CaptureMode * list (nat * RecordingCodec)) :=
  let '(mode, encs) :=
    match recording st with
    | Some d =>
        if is_active d st then
          (rh_mode (drh_primary d),
           (rh_slot (drh_primary d), rh_codec (drh_primary d)) ::
           match drh_secondary d with
           | Some sec => if is_raised st (rh_stop sec) then [] else [(rh_slot sec, rh_codec sec)]
           | None => []
           end)
        else (WholeDesktop, [])
    | None => (WholeDesktop, [])
    end in
  let encs := encs ++
    match viewer st with
    | Some v => if is_raised st (vh_stop_flag v) then [] else [(vh_frame_slot v, vh_codec v)]
    | None => []
    end in
  match encs with [] => None | _ => Some (mode, encs) end.

Section Tap.
Context {HO : HashOrder}.

(** The CPU encoders share one composited desktop, at most ten a second. *)
Definition tap_cpu_slots (fuel : nat) (cpu : list nat) (st : State) : result State stop :=
  match cpu with
  | [] => Ok st
  | _ =>
      let now := clock_ns st in
      let should := match last_whole_desktop_capture st with
                    | Some prev => 100000000 <=? Z.max 0 (now - prev)
                    | None => true
                    end in
      if should then
        let st := st <| last_whole_desktop_capture := Some now |> in
        let? c := capture_desktop fuel st in
        match c with
        | None => Ok st
        | Some (pixels, w, h, _) =>
            Ok (for_each cpu (fun slot =>
                  slot_put slot (TaskPixels pixels (as_u 32 w) (as_u 32 h))) st)
        end
      else Ok st
  end.

Definition maybe_tap_for_recording (fuel : nat) (s : surface) (acquire_signaled : bool) (st : State) :
    result State stop :=
  match tap_encoders st with
  | None => Ok st
  | Some (FocusedWindow, encs) =>
      if negb (surface_in_focused_tree st s) then Ok st
      else if negb (forallb (fun e => gpu_path e.2) encs) && negb acquire_signaled
              && negb (dmabuf_implicit_fence_ready st s) then Ok st
      else for_each_in encs (fun e => push_focused_buffer_to_recording s e.1 e.2) st
  | Some (WholeDesktop, encs) =>
      let? st := for_each_in (filter (fun e => wants_dmabuf e.2 = true) encs)
                   (fun e => push_focused_buffer_to_recording s e.1 e.2) st in
      tap_cpu_slots fuel (filter (fun e => wants_dmabuf e.2 = false) encs).*1 st
  end.

Definition prime_recording_first_frame (fuel : nat) (st : State) : result State stop :=
  let all := (values (windows_by_id st)).*1 in
  let pick f := head (filter (fun s => f st s = true) all) in
  match pick committed_buffer_is_desktop_output with
  | Some s => maybe_tap_for_recording fuel s true st
  | None =>
      match pick surface_in_focused_tree with
      | Some s => maybe_tap_for_recording fuel s true st
      | None =>
          match head all with
          | Some s => maybe_tap_for_recording fuel s true st
          | None => Ok st
          end
      end
  end.
End Tap.
