(* ===== verification/Compositor.v ===== *)
(** * Request handlers of the inner compositor
    ([crates/waymux-session/src/compositor.rs], [attach_server.rs])

    One definition per request that changes the session: surfaces and their
    commits, seats, toplevels, layer surfaces, shortcuts, pointer locks, clipboard,
    screencopy, explicit synchronisation, one round of the compositor's loop, and
    the attaching and detaching of an outer view. The ids of new objects are
    arguments: the client chooses them. *)

From Stdlib Require Import ZArith Lia.
From S2P Require Import Prelude Words Floats Messages Composite Pixels Session SessionInput SessionRecord.
From stdpp Require Import prelude strings gmap list.

Open Scope Z_scope.

(** [di.init]: the object exists from now on. *)
Definition init_object (id : nat) (st : State) : State := st <| alive ::= (fun a => {[id]} ∪ a) |>.

(** The object is destroyed, by its client or with it. *)
Definition object_gone (id : nat) (st : State) : State := st <| alive ::= (fun a => a ∖ {[id]}) |>.

Definition upd_surf (s : surface) (f : SurfaceUserData -> SurfaceUserData) (st : State) : State :=
  st <| surfs ::= alter f s |>.

(** The serial of [compositor.rs], a counter of its own. *)
Definition comp_next_serial (st : State) : State * Z :=
  (st <| static_serial ::= (fun n => as_u 32 (n + 1)) |>, static_serial st).

(** ** Surfaces *)

Definition create_surface (s : surface) (st : State) : State :=
  init_object s (st <| surfs ::= insert s surface_default |>).

Definition surface_attach (s : surface) (b : option nat) : State -> State :=
  upd_surf s (fun sd => sd <| pending_buffer := b |>).

Definition surface_frame (s : surface) (cb : resource) (st : State) : State :=
  let st := init_object (res_id cb) st in
  let st := upd_surf s (fun sd => sd <| surface_frame_cbs ::= (fun l => l ++ [cb]) |>) st in
  queue_frame_callback cb st.

(** [SurfaceSync::take_pending] *)
Definition take_pending (s : surface) (st : State) :
    State * (option TimelinePoint * option TimelinePoint) :=
  match (sd ← surfs st !! s; surface_sync sd) with
  | None => (st, (None, None))
  | Some sync =>
      (upd_surf s (fun sd => sd <| surface_sync :=
         Some {| pending_acquire := None; pending_release := None |} |>) st,
       (pending_acquire sync, pending_release sync))
  end.

Definition is_dmabuf (st : State) (b : nat) : bool := bool_decide (is_Some (dmabuf_of st b)).

(** Pending becomes current; the buffer whose release waits for the tap, if any. *)
Definition promote_buffer (s : surface) (release_pt : option TimelinePoint) (st : State) :
    State * option nat :=
  match surfs st !! s with
  | None => (st, None)
  | Some sd =>
      match pending_buffer sd with
      | None => (st, None)
      | Some nb =>
          let prev := current_buffer sd in
          let st := upd_surf s (fun sd => sd <| pending_buffer := None |>
                                            <| current_buffer := Some nb |>) st in
          let st := match prev with
                    | Some p => if is_dmabuf st p then st else release_inner_buffer p st
                    | None => st
                    end in
          let st := match release_pt with
                    | Some pt => note_buffer_release_point nb pt st
                    | None => st
                    end in
          if is_dmabuf st nb && is_attached st then (queue_deferred_release nb st, None)
          else (st, Some nb)
      end
  end.

(** The callbacks of the surface become ready. *)
Definition ready_callbacks (s : surface) (st : State) : State :=
  match surfs st !! s with
  | None => st
  | Some sd =>
      for_each (surface_frame_cbs sd) queue_frame_callback
        (upd_surf s (fun sd => sd <| surface_frame_cbs := [] |>) st)
  end.

(** A layer surface becomes a window with its first commit. *)
Definition map_layer (s : surface) (c : client) (st : State) : State :=
  match surfs st !! s with
  | None => st
  | Some sd =>
      if is_layer_surface sd && bool_decide (layer_window_id sd = None) then
        let '(w, h, _) := snapshot st in
        let '(st, wid) := add_window (-1) {| rect_x := 0; rect_y := 0; rect_width := w; rect_height := h |} st in
        let st := if layer_keyboard_interactivity sd =? 1
                  then register_surface wid s c st
                  else register_surface_no_focus wid s c st in
        upd_surf s (fun sd => sd <| layer_window_id := Some wid |>) st
      else st
  end.

Definition is_cursor (st : State) (s : surface) : bool :=
  match cursor_surface st with Some (cs, _, _) => bool_decide (cs = s) | None => false end.

Section Handlers.
Context {HO : HashOrder} {CR : CursorReader}.

(** [wl_surface.commit]; [waited] is the answer of waiting for the acquire point. *)
Definition surface_commit (fuel : nat) (s : surface) (c : client) (waited : bool) (st : State) :
    result State stop :=
  let '(st, (acquire, release)) := take_pending s st in
  let acquire_signaled := match acquire with Some _ => waited | None => true end in
  let '(st, to_release) := promote_buffer s release st in
  let? st := maybe_tap_for_recording fuel s acquire_signaled st in
  let st := match to_release with Some b => release_inner_buffer b st | None => st end in
  let? st := (if is_cursor st s then note_cursor_dirty st else Ok st) in
  let st := ready_callbacks s st in
  let st := record_damage st in
  Ok (map_layer s c st).

(** [wl_pointer.set_cursor]. *)
Definition set_cursor (cur : option (surface * Z * Z)) (st : State) : result State stop :=
  note_cursor_dirty (st <| cursor_surface := cur |>).

(** ** Seats *)

Definition get_keyboard (default_km : nat * Z) (c : client) (k : resource) (st : State) : State :=
  let st := init_object (res_id k) st in
  let '(fd, size) := get_keymap default_km st in
  let st := put (KbdKeymap (res_id k) fd size) st in
  let st := if 4 <=? res_version k then put (KbdRepeatInfo (res_id k) 25 400) st else st in
  register_keyboard c k st.

Definition get_pointer (c : client) (p : resource) (st : State) : State :=
  register_pointer c p (init_object (res_id p) st).

Definition get_touch (c : client) (t : resource) (st : State) : State :=
  register_touch c t (init_object (res_id t) st).

(** The [destroyed] callbacks. *)
Definition keyboard_destroyed (c : client) (k : resource) (st : State) : State :=
  unregister_keyboard c k (object_gone (res_id k) st).
Definition pointer_destroyed (c : client) (p : resource) (st : State) : State :=
  unregister_pointer c p (object_gone (res_id p) st).
Definition touch_destroyed (c : client) (t : resource) (st : State) : State :=
  unregister_touch c t (object_gone (res_id t) st).

(** ** Toplevels *)

Definition get_toplevel (c : client) (pid : Z) (s : surface) (xs tl : resource) (st : State) : State :=
  let '(w, h, _) := snapshot st in
  let '(st, wid) := add_window pid {| rect_x := 0; rect_y := 0; rect_width := w; rect_height := h |} st in
  let st := init_object (res_id tl) st in
  let st := put (ToplevelConfigure (res_id tl) (as_s 32 w) (as_s 32 h)) st in
  let '(st, serial) := comp_next_serial st in
  let st := put (XdgSurfaceConfigure (res_id xs) serial) st in
  let st := upd_surf s (fun sd => sd <| xdg_toplevel_id := Some wid |>) st in
  let st := register_surface wid s c st in
  register_toplevel wid xs tl st.

Definition set_window_geometry (s : surface) (x y w h : Z) : State -> State :=
  let is_sentinel := (x =? -1) && (y =? -1) && (w <=? 0) && (h <=? 0) in
  upd_surf s (fun sd => sd <| content_rect :=
    if is_sentinel then None
    else Some {| rect_x := x; rect_y := y;
                 rect_width := as_u 32 (Z.max w 0); rect_height := as_u 32 (Z.max h 0) |} |>).

(** The body of both [xdg_toplevel.destroy] and the [destroyed] callback. *)
Definition toplevel_teardown (wid : Z) (st : State) : State :=
  (remove_window wid (unregister_surface wid st)).1.

(** The request, after which the object is destroyed and the callback runs. *)
Definition toplevel_destroy (wid : Z) (tl : nat) (st : State) : State :=
  toplevel_teardown wid (object_gone tl (toplevel_teardown wid st)).

(** The client disconnects: the callback alone. *)
Definition toplevel_destroyed (wid : Z) (tl : nat) (st : State) : State :=
  toplevel_teardown wid (object_gone tl st).

(** ** Layer surfaces *)

Definition get_layer_surface (s : surface) (l : nat) (st : State) : State :=
  let st := upd_surf s (fun sd => sd <| is_layer_surface := true |>) st in
  let st := init_object l st in
  let '(st, serial) := comp_next_serial st in
  put (LayerConfigure l serial 0 0) st.

Definition set_keyboard_interactivity (s : surface) (wire : Z) : State -> State :=
  upd_surf s (fun sd => sd <| layer_keyboard_interactivity := wire |>).

Definition layer_teardown (s : surface) (st : State) : State :=
  match (sd ← surfs st !! s; layer_window_id sd) with
  | None => st
  | Some wid => toplevel_teardown wid (upd_surf s (fun sd => sd <| layer_window_id := None |>) st)
  end.

Definition layer_destroy (s : surface) (l : nat) (st : State) : State :=
  layer_teardown s (object_gone l (layer_teardown s st)).

Definition layer_destroyed (s : surface) (l : nat) (st : State) : State :=
  layer_teardown s (object_gone l st).

(** ** Shortcuts, pointer locks, presentation, synchronisation *)

Definition inhibit_shortcuts (s : surface) (i : nat) (st : State) : State :=
  let st := match surfs st !! s with
            | Some _ => set_shortcuts_inhibited true
                          (upd_surf s (fun sd => sd <| shortcuts_inhibited := true |>) st)
            | None => st
            end in
  put (InhibitorActive i) (init_object i st).

Definition inhibitor_destroyed (s : surface) (i : nat) (st : State) : State :=
  set_shortcuts_inhibited false
    (upd_surf s (fun sd => sd <| shortcuts_inhibited := false |>) (object_gone i st)).

Definition lock_pointer (l : nat) (st : State) : State :=
  inc_pointer_lock_count (put (PointerLocked l) (init_object l st)).

(** The request [zwp_locked_pointer_v1.destroy]; there is no [destroyed] callback. *)
Definition locked_pointer_destroy (l : nat) (st : State) : State :=
  object_gone l (dec_pointer_lock_count st).

Definition get_relative_pointer (p : resource) (st : State) : State :=
  add_relative_pointer p (init_object (res_id p) st).

Definition presentation_feedback (s : surface) (fb : resource) (st : State) : State :=
  upd_surf s (fun sd => sd <| pending_feedbacks ::= (fun l => l ++ [fb]) |>)
    (init_object (res_id fb) st).

Definition sync_point (timeline : nat) (hi lo : Z) : TimelinePoint :=
  {| tp_timeline := timeline; tp_point := Z.lor (Z.shiftl hi 32) lo |}.

(** [wp_linux_drm_syncobj_manager_v1.get_surface] of manager [m]. *)
Definition sync_get_surface (m : nat) (s : surface) (id : nat) (st : State) : State :=
  match surfs st !! s with
  | None => put (SyncError m "wl_surface has no data") st
  | Some sd =>
      match surface_sync sd with
      | Some _ => put (SyncError m "surface already has a sync object") st
      | None =>
          init_object id (upd_surf s (fun sd => sd <| surface_sync :=
            Some {| pending_acquire := None; pending_release := None |} |>) st)
      end
  end.

(** [wp_linux_drm_syncobj_surface_v1.destroy] *)
Definition sync_surface_destroy (id : nat) (st : State) : State := object_gone id st.

Definition set_acquire_point (s : surface) (p : TimelinePoint) : State -> State :=
  upd_surf s (fun sd => sd <| surface_sync ::= fmap (fun y =>
    {| pending_acquire := Some p; pending_release := pending_release y |}) |>).

Definition set_release_point (s : surface) (p : TimelinePoint) : State -> State :=
  upd_surf s (fun sd => sd <| surface_sync ::= fmap (fun y =>
    {| pending_acquire := pending_acquire y; pending_release := Some p |}) |>).

(** ** Clipboard *)

Definition get_data_device (d : resource) (st : State) : State :=
  let st := init_object (res_id d) st in
  if share_clipboard st then register_data_device d st else st.

(** [mimes] are what the source has offered. *)
Definition set_selection (source : option (list string * nat)) (st : State) : State :=
  if share_clipboard st then
    match source with
    | Some (mimes, src) => set_inner_selection mimes src st
    | None => clear_inner_selection st
    end
  else st.

Definition data_device_gone (d : resource) (st : State) : State :=
  if share_clipboard st then unregister_data_device d st else st.

Definition set_primary_selection (source : option (list string)) (st : State) : State :=
  st <| primary_selection := source |>.

(** [drain_clipboard]; [offer d] is the object created for a device, when that
    succeeds. *)
Definition drain_clipboard (offer : resource -> option nat) (st : State) : State :=
  if negb (share_clipboard st) then st
  else if outer_clipboard_version st =? last_sent_clipboard st then st
  else
    let st := st <| last_sent_clipboard := outer_clipboard_version st |> in
    match outer_clipboard st with
    | None => st
    | Some entries =>
        for_each (live st (inner_data_devices st)) (fun d st =>
          match offer d with
          | Some o => put (OfferMade (res_id d) o entries.*1) (init_object o st)
          | None => st
          end) st
    end.

(** The bytes a client receives for a MIME type. *)
Definition offer_receive (entries : list (string * list Z)) (mime : string) : option (list Z) :=
  snd <$> (snd <$> list_find (fun e => e.1 = mime) entries).

(** ** Outputs and the task bar *)

Definition bind_output (o : resource) (st : State) : State :=
  let '(w, h, sc) := snapshot st in
  let st := init_object (res_id o) st in
  let mm v := Z.quot (i32_mul (as_s 32 v) 265) 1000 in
  let v := res_version o in
  let st := put (OutputGeometry (res_id o) (mm w) (mm h)) st in
  let st := put (OutputMode (res_id o) (as_s 32 w) (as_s 32 h) VIRTUAL_OUTPUT_REFRESH_MHZ) st in
  let st := when (2 <=? v) (put (OutputScale (res_id o) (as_s 32 sc))) st in
  let st := when (4 <=? v) (put (OutputName (res_id o))) st in
  let st := when (4 <=? v) (put (OutputDescription (res_id o))) st in
  let st := when (2 <=? v) (put (OutputDone (res_id o))) st in
  register_output o st.

Definition bind_plasma (m : resource) (st : State) : State :=
  let st := put (PlasmaShowDesktop (res_id m)) (init_object (res_id m) st) in
  let st := for_each (window_ids st) (fun wid st =>
    let st := put (PlasmaWindow (res_id m) wid) st in
    when (13 <=? res_version m) (put (PlasmaWindowUuid (res_id m) wid)) st) st in
  let st := when (11 <=? res_version m) (put (PlasmaStacking (res_id m))) st in
  let st := when (12 <=? res_version m) (put (PlasmaStackingUuid (res_id m))) st in
  register_plasma_manager m st.

(** [get_window] with [send_plasma_window_initial_state]. *)
Definition get_plasma_window (w : resource) (window_id : Z) (st : State) : State :=
  let st := init_object (res_id w) st in
  let v := res_version w in
  let st :=
    match list_find (fun i => wi_id i = window_id) (windows st) with
    | Some (_, info) =>
        let st := when (negb (String.eqb (wi_title info) EmptyString)) (put (PlasmaTitle (res_id w) (wi_title info))) st in
        let st := when (negb (String.eqb (wi_app_id info) EmptyString)) (put (PlasmaAppId (res_id w) (wi_app_id info))) st in
        let st := when (4 <=? v) (put (PlasmaPid (res_id w) (as_u 32 (wi_pid info)))) st in
        let st := when (6 <=? v) (put (PlasmaGeometry (res_id w) (wi_geometry info))) st in
        put (PlasmaState (res_id w)) st
    | None => put (PlasmaUnmapped (res_id w)) st
    end in
  let st := when (4 <=? v) (put (PlasmaInitialState (res_id w))) st in
  register_plasma_window window_id w st.

Definition plasma_window_destroyed (w : resource) (window_id : Z) (st : State) : State :=
  unregister_plasma_window window_id w (object_gone (res_id w) st).

(** ** Screencopy *)

(** [ScreencopyFrameData]. *)
Record ScreencopyFrame := { sf_width : Z; sf_height : Z; sf_stride : Z; sf_used : bool }.

Definition init_screencopy_frame (region : option (Z * Z * Z * Z)) (f : resource) (st : State) :
    State * ScreencopyFrame :=
  let '(sw, sh, _) := snapshot st in
  let '(w, h) :=
    match region with
    | Some (_, _, rw, rh) =>
        if (0 <? rw) && (0 <? rh) then (Z.min rw (as_s 32 sw), Z.min rh (as_s 32 sh))
        else (as_s 32 sw, as_s 32 sh)
    | None => (as_s 32 sw, as_s 32 sh)
    end in
  let stride := i32_mul w 4 in
  let st := put (FrameBuffer (res_id f) (as_u 32 w) (as_u 32 h) (as_u 32 stride))
              (init_object (res_id f) st) in
  (when (3 <=? res_version f) (put (FrameBufferDone (res_id f))) st,
   {| sf_width := w; sf_height := h; sf_stride := stride; sf_used := false |}).

(** [ShmPoolData::write_bytes] into a mapping of the pool. *)
Definition write_bytes (p : ShmPoolData) (offset : Z) (src : list Z) : option ShmPoolData :=
  if offset <? 0 then None
  else
    m ← pool_mmap p;
    end' ← checked_u64 (offset + len src);
    if len m <? end' then None
    else Some {| pool_mmap := Some (overwrite (Z.to_nat offset) src m) |}.

(** [copy] into the client's buffer [b]. *)
Definition screencopy_copy (fuel : nat) (f : nat) (d : ScreencopyFrame) (b : nat) (st : State) :
    result (State * ScreencopyFrame) stop :=
  if sf_used d then Ok (put (FrameAlreadyUsed f) st, d)
  else
    let d' := {| sf_width := sf_width d; sf_height := sf_height d; sf_stride := sf_stride d;
                 sf_used := true |} in
    let failed := Ok (put (FrameFailed f) st, d') in
    match bufs st !! b with
    | Some bf =>
        match buf_kind bf with
        | Shm shm =>
            if negb ((shm_width shm =? sf_width d) && (shm_height shm =? sf_height d)
                     && (shm_stride shm =? sf_stride d)
                     && match shm_format shm with OtherFormat _ => false | _ => true end)
            then failed
            else
              let? c := capture_desktop fuel st in
              match c with
              | Some (bytes, w, h, _) =>
                  if negb ((w =? sf_width d) && (h =? sf_height d)) then failed
                  else
                    match write_bytes (shm_pool shm) (shm_offset shm) bytes with
                    | None => failed
                    | Some pool =>
                        let shm' := {| shm_pool := pool; shm_offset := shm_offset shm;
                                       shm_width := shm_width shm; shm_height := shm_height shm;
                                       shm_stride := shm_stride shm; shm_format := shm_format shm |} in
                        let bf' := {| buf_protocol_id := buf_protocol_id bf; buf_kind := Shm shm';
                                      buf_drm_format := buf_drm_format bf;
                                      buf_modifier := buf_modifier bf; buf_data := buf_data bf |} in
                        Ok (put (FrameReady f) (put (FrameFlags f) (st <| bufs ::= insert b bf' |>)), d')
                    end
              | None => failed
              end
        | _ => failed
        end
    | None => failed
    end.

(** ** One round of the compositor's loop *)

Definition IDLE_GRACE_MS : Z := 30000.
Definition IDLE_POLL_TIMEOUT_MS : Z := 1000.
Definition ACTIVE_POLL_TIMEOUT_MS : Z := 8.
Definition IDLE_FRAME_INTERVAL_MS : Z := 1000.

Record LoopState := { last_poke_ms : Z; last_drain_cb_ms : Z }.

Definition is_idle (st : State) : bool :=
  negb (has_active_frame_consumer st)
  && (IDLE_GRACE_MS <=? Z.max 0 (monotonic_now_ms st - last_activity_ms st)).

(** After the requests were dispatched: callbacks and feedbacks, the poke, the
    clipboard; the result is the poll timeout. *)
Definition loop_round (vers : surface -> Z) (offer : resource -> option nat) (accepted_any : bool)
    (ls : LoopState) (st : State) : State * LoopState * Z :=
  let st := if accepted_any then note_activity st else st in
  let now := monotonic_now_ms st in
  let idle := is_idle st in
  let interval := if idle then IDLE_FRAME_INTERVAL_MS else 0 in
  let '(st, drained) :=
    if interval <=? Z.max 0 (now - last_drain_cb_ms ls)
    then (drain_presentation_feedbacks (drain_frame_callbacks st), now)
    else (st, last_drain_cb_ms ls) in
  let '(st, poked) :=
    if 16 <=? Z.max 0 (now - last_poke_ms ls)
    then (poke_client_surfaces vers st, now)
    else (st, last_poke_ms ls) in
  let st := drain_clipboard offer st in
  (st, {| last_poke_ms := poked; last_drain_cb_ms := drained |},
   if idle then IDLE_POLL_TIMEOUT_MS else ACTIVE_POLL_TIMEOUT_MS).
End Handlers.

(** ** Attaching and detaching ([attach_server.rs]) *)

(** The outer view's thread owns the eventfd it registered. Its teardown is
    [clear_outer_wake_fd_if_mine]. *)
Record AttachServer := { active_view : option nat; current_attach : option nat }.

(** The thread starts: [outer_view::run] up to its loop, as far as the session sees it. *)
Definition outer_view_start (fd : nat) : State -> State := set_outer_wake_fd (Some fd).

(** The thread has been joined. *)
Definition outer_view_join (fd : nat) : State -> State := clear_outer_wake_fd_if_mine fd.

Definition join_view (v : option nat) (st : State) : State :=
  match v with Some fd => outer_view_join fd st | None => st end.

Definition post_error (a : option nat) (reason : string) (st : State) : State :=
  match a with
  | Some r => if bool_decide (r ∈ alive st) then put (AttachError r reason) st else st
  | None => st
  end.

(** [get_surface]: the previous view is stopped and joined before the new one. *)
Definition attach_get_surface (res fd : nat) (sv : AttachServer) (st : State) : AttachServer * State :=
  let st := join_view (active_view sv) st in
  ({| active_view := Some fd; current_attach := Some res |}, outer_view_start fd st).

Definition attach_detach (sv : AttachServer) (st : State) : AttachServer * State :=
  let st := join_view (active_view sv) st in
  let st := post_error (current_attach sv) "detached" st in
  ({| active_view := None; current_attach := None |}, set_outer_wake_fd None st).

(** The outer window was closed: the server's loop finds the view stopped. *)
Definition attach_view_closed (sv : AttachServer) (st : State) : AttachServer * State :=
  let st := join_view (active_view sv) st in
  let st := set_outer_wake_fd None st in
  let st := post_error (current_attach sv) "outer window closed by compositor" st in
  ({| active_view := None; current_attach := None |}, st).
