(* ===== verification/SessionFocus.v ===== *)
(** * Keyboard and pointer focus

    What the clients of a session see of focus, as a function of the messages they
    were sent; that it agrees with the session's own focus in every state the
    session can reach; and what injected keys and pointer events do because of it. *)

From Stdlib Require Import ZArith Lia.
From S2P Require Import Prelude Words Floats Messages Composite Pixels Session SessionInput SessionRecord Compositor.
From stdpp Require Import prelude strings gmap list.

Open Scope Z_scope.

(** ** Focus as the clients see it *)

Definition kstep (k : nat) (f : option surface) (o : output) : option surface :=
  match o with
  | KbdEnter k' _ s => if decide (k' = k) then Some s else f
  | KbdLeave k' _ _ => if decide (k' = k) then None else f
  | _ => f
  end.

Definition pstep (p : nat) (f : option surface) (o : output) : option surface :=
  match o with
  | PtrEnter p' _ s _ _ => if decide (p' = p) then Some s else f
  | PtrLeave p' _ _ => if decide (p' = p) then None else f
  | _ => f
  end.

(** The surface a keyboard, or a pointer, was last told it is on. *)
Definition kbd_focus (k : nat) (l : list output) : option surface := foldl (kstep k) None l.
Definition ptr_focus (p : nat) (l : list output) : option surface := foldl (pstep p) None l.

Arguments kbd_focus : simpl never.
Arguments ptr_focus : simpl never.

Definition is_key (o : output) : bool := match o with KbdKey _ _ _ _ _ => true | _ => false end.

(** A message that concerns neither focus nor keys. *)
Definition silent (o : output) : Prop :=
  is_key o = false /\ (forall k f, kstep k f o = f) /\ (forall p f, pstep p f o = f).

(** Every key went to a keyboard that had been entered and not left since. *)
Definition keys_focused (l : list output) : Prop :=
  forall l1 k sr tm kc ks l2, l = l1 ++ KbdKey k sr tm kc ks :: l2 -> is_Some (kbd_focus k l1).

(** ** Operations that send messages and keep who has the focus *)

Record same_focus (st st' : State) : Prop := {
  sf_win : windows_by_id st' = windows_by_id st;
  sf_foc : focused_window st' = focused_window st;
  sf_kbd : keyboards st' = keyboards st;
  sf_ptr : pointers st' = pointers st;
  sf_next : next_window_id (inner st') = next_window_id (inner st);
  sf_alive : alive st' ⊆ alive st;
}.

Definition emits (P : list output -> Prop) (st st' : State) : Prop :=
  same_focus st st' /\ exists l, out st' = out st ++ l /\ P l.

(** Nothing about focus happens. *)
Abbreviation quiet := (emits (Forall silent)).

#[export] Instance same_focus_pre : PreOrder same_focus.
Proof.
  split; [by split|]. intros a b c [] []. split; try congruence. set_solver.
Qed.

Lemma emits_trans (P Q R : list output -> Prop) a b c :
  emits P a b -> emits Q b c -> (forall l1 l2, P l1 -> Q l2 -> R (l1 ++ l2)) -> emits R a c.
Proof.
  intros [S1 (l1 & E1 & H1)] [S2 (l2 & E2 & H2)] HR. split; [by transitivity b|].
  exists (l1 ++ l2). split; [|by apply HR]. by rewrite E2, E1, app_assoc.
Qed.

#[export] Instance quiet_pre : PreOrder quiet.
Proof.
  split.
  - intros st. split; [done|]. exists []. by rewrite app_nil_r.
  - intros a b c H1 H2. eapply emits_trans; [done|done|]. intros. by apply Forall_app.
Qed.

Lemma quiet_put o st : silent o -> quiet st (put o st).
Proof. intros H. split; [by split|]. exists [o]. split; [done|]. by apply Forall_singleton. Qed.

Lemma quiet_for_each {A} (l : list A) f st :
  (forall a st, quiet st (f a st)) -> quiet st (for_each l f st).
Proof.
  intros H. revert st. induction l as [|a l IH]; intros st; [done|]. cbn.
  transitivity (f a st); [apply H|apply IH].
Qed.

(** A state that differs in fields that focus does not depend on. *)
Ltac same_fields := split; [by split|exists []; cbn; by rewrite app_nil_r].

(** Discharge [silent] and compose quiet steps. *)
Ltac solve_silent := by repeat split.

Create HintDb quiet discriminated.
#[export] Hint Resolve quiet_put quiet_for_each : quiet.

Lemma quiet_serial st : quiet st (next_serial st).1.
Proof. same_fields. Qed.

Lemma quiet_wake st : quiet st (wake_compositor st).
Proof. transitivity (st <| last_activity_ms := monotonic_now_ms st |>); [same_fields|]. by apply quiet_put. Qed.

Lemma quiet_poke st : quiet st (poke_outer_view st).
Proof. unfold poke_outer_view. case_match; [by apply quiet_put|done]. Qed.

Lemma quiet_emit b st : quiet st (emit b st).
Proof. same_fields. Qed.

Lemma quiet_when b f st : (forall st, quiet st (f st)) -> quiet st (when b f st).
Proof. intros H. by destruct b; [apply H|]. Qed.
#[export] Hint Resolve quiet_wake quiet_poke quiet_emit quiet_when : quiet.

(** ** Entering and leaving *)

Lemma kbd_focus_app k l1 l2 : kbd_focus k (l1 ++ l2) = foldl (kstep k) (kbd_focus k l1) l2.
Proof. apply foldl_app. Qed.

Lemma ptr_focus_app p l1 l2 : ptr_focus p (l1 ++ l2) = foldl (pstep p) (ptr_focus p l1) l2.
Proof. apply foldl_app. Qed.

Lemma silent_folds l : Forall silent l ->
  (forall k f, foldl (kstep k) f l = f) /\ (forall p f, foldl (pstep p) f l = f) /\
  Forall (fun o => is_key o = false) l.
Proof.
  induction 1 as [|o l (Hk & Hs & Hp) _ (IH1 & IH2 & IH3)]; [done|]. split_and!; cbn.
  - intros. by rewrite Hs.
  - intros. by rewrite Hp.
  - by constructor.
Qed.

(** The messages set the focus of these keyboards and pointers, and no other. *)
Definition turns (ks ps : list nat) (to : option surface) (l : list output) : Prop :=
  (forall k f, foldl (kstep k) f l = if decide (k ∈ ks) then to else f) /\
  (forall p f, foldl (pstep p) f l = if decide (p ∈ ps) then to else f) /\
  Forall (fun o => is_key o = false) l.

Lemma turns_silent to l : Forall silent l -> turns [] [] to l.
Proof.
  intros (H1 & H2 & H3)%silent_folds. split_and!; [| |done]; intros;
    rewrite decide_False by apply not_elem_of_nil; auto.
Qed.

Lemma turns_app k1 p1 k2 p2 to l1 l2 :
  turns k1 p1 to l1 -> turns k2 p2 to l2 -> turns (k1 ++ k2) (p1 ++ p2) to (l1 ++ l2).
Proof.
  intros (K1 & P1 & N1) (K2 & P2 & N2). split_and!.
  - intros k f. rewrite foldl_app, K1, K2. repeat case_decide; set_solver.
  - intros p f. rewrite foldl_app, P1, P2. repeat case_decide; set_solver.
  - by apply Forall_app.
Qed.

Lemma emits_for_each {A} (P : list A -> list output -> Prop) (l : list A) f st :
  P [] [] -> (forall a k l1 l2, P [a] l1 -> P k l2 -> P (a :: k) (l1 ++ l2)) ->
  (forall a st, emits (P [a]) st (f a st)) -> emits (P l) st (for_each l f st).
Proof.
  intros H0 HS Hf. revert st. induction l as [|a l IH]; intros st.
  - split; [done|]. exists []. by rewrite app_nil_r.
  - cbn. eapply emits_trans; [apply Hf|apply IH|]. intros. by apply HS.
Qed.

Lemma turns_nil to : turns [] [] to [].
Proof. by apply turns_silent. Qed.

(** A message to one keyboard or pointer, with silent ones after it. *)
Lemma turns_kbd k o l to :
  (forall k' f, kstep k' f o = if decide (k = k') then to else f) ->
  (forall p f, pstep p f o = f) -> is_key o = false -> Forall silent l ->
  turns [k] [] to (o :: l).
Proof.
  intros Hk Hp Hn (H1 & H2 & H3)%silent_folds. split_and!; cbn.
  - intros. rewrite H1, Hk. by repeat case_decide; set_solver.
  - intros. rewrite H2, Hp. rewrite decide_False; [done|]. apply not_elem_of_nil.
  - by constructor.
Qed.

Lemma turns_ptr p o l to :
  (forall p' f, pstep p' f o = if decide (p = p') then to else f) ->
  (forall k f, kstep k f o = f) -> is_key o = false -> Forall silent l ->
  turns [] [p] to (o :: l).
Proof.
  intros Hp Hk Hn (H1 & H2 & H3)%silent_folds. split_and!; cbn.
  - intros. rewrite H1, Hk. rewrite decide_False; [done|]. apply not_elem_of_nil.
  - intros. rewrite H2, Hp. by repeat case_decide; set_solver.
  - by constructor.
Qed.

Lemma enter_keyboard_emits s k st : emits (turns [res_id k] [] (Some s)) st (enter_keyboard s k st).
Proof.
  split; [by split|]. eexists [_; _]. split; [cbn; by rewrite <- app_assoc|].
  by apply turns_kbd; repeat constructor.
Qed.

Lemma leave_keyboard_emits s k st : emits (turns [res_id k] [] None) st (leave_keyboard s k st).
Proof.
  split; [by split|]. eexists [_]. split; [cbn; done|]. by apply turns_kbd.
Qed.

Lemma frame_emits p l to st st' :
  same_focus st st' -> out st' = out st ++ l -> (forall l', Forall silent l' -> turns [] [res_id p] to (l ++ l')) ->
  emits (turns [] [res_id p] to) st (frame_v5 p st').
Proof.
  intros HS Ho Hl. unfold frame_v5. case_match.
  - split; [by destruct HS; split|]. exists (l ++ [PtrFrame (res_id p)]).
    split; [cbn; by rewrite Ho, app_assoc|]. apply Hl. by repeat constructor.
  - split; [done|]. exists l. split; [done|]. rewrite <- (app_nil_r l). by apply Hl.
Qed.

Lemma enter_pointer_emits s p st : emits (turns [] [res_id p] (Some s)) st (enter_pointer s p st).
Proof.
  apply frame_emits with [PtrEnter (res_id p) (Z.land (serial_counter st) 4294967295) s f64_zero f64_zero].
  - by split.
  - done.
  - intros l' Hl. cbn. by apply turns_ptr.
Qed.

Lemma leave_pointer_emits s p st : emits (turns [] [res_id p] None) st (leave_pointer s p st).
Proof.
  apply frame_emits with [PtrLeave (res_id p) (Z.land (serial_counter st) 4294967295) s].
  - by split.
  - done.
  - intros l' Hl. cbn. by apply turns_ptr.
Qed.

Definition ids (l : list resource) : list nat := res_id <$> l.

Lemma notify_focus_emits fk fp to w s c st :
  (forall k st, emits (turns [res_id k] [] to) st (fk s k st)) ->
  (forall p st, emits (turns [] [res_id p] to) st (fp s p st)) ->
  windows_by_id st !! w = Some (s, c) ->
  emits (turns (ids (live_of (keyboards st) c st)) (ids (live_of (pointers st) c st)) to)
    st (notify_focus fk fp w st).
Proof.
  intros Hk Hp Hw. unfold notify_focus. rewrite Hw.
  set (kbds := live_of (keyboards st) c st). set (ptrs := live_of (pointers st) c st).
  assert (H1 : emits (turns (ids kbds) [] to) st (for_each kbds (fk s) st)).
  { apply (emits_for_each (fun l => turns (ids l) [] to)); [apply turns_nil| |apply Hk].
    intros a l l1 l2 HP1 HP2. exact (turns_app [res_id a] [] (ids l) [] to l1 l2 HP1 HP2). }
  assert (H2 : forall st1, emits (turns [] (ids ptrs) to) st1 (for_each ptrs (fp s) st1)).
  { intros st1. apply (emits_for_each (fun l => turns [] (ids l) to)); [apply turns_nil| |apply Hp].
    intros a l l1 l2 HP1 HP2. exact (turns_app [] [res_id a] [] (ids l) to l1 l2 HP1 HP2). }
  assert (H3 : emits (turns (ids kbds) (ids ptrs) to) st (for_each ptrs (fp s) (for_each kbds (fk s) st))).
  { eapply emits_trans; [exact H1|apply H2|]. intros l1 l2 T1 T2.
    pose proof (turns_app _ _ _ _ _ _ _ T1 T2) as T. by rewrite app_nil_r in T. }
  case_match; [|done].
  eapply emits_trans; [exact H3|apply quiet_wake|]. intros l1 l2 T1 T2.
  pose proof (turns_app _ _ _ _ _ _ _ T1 (turns_silent to _ T2)) as T. by rewrite !app_nil_r in T.
Qed.

Lemma send_enter_emits w s c st :
  windows_by_id st !! w = Some (s, c) ->
  emits (turns (ids (live_of (keyboards st) c st)) (ids (live_of (pointers st) c st)) (Some s))
    st (send_enter w st).
Proof.
  apply notify_focus_emits; intros; [apply enter_keyboard_emits|apply enter_pointer_emits].
Qed.

Lemma send_leave_emits w s c st :
  windows_by_id st !! w = Some (s, c) ->
  emits (turns (ids (live_of (keyboards st) c st)) (ids (live_of (pointers st) c st)) None)
    st (send_leave w st).
Proof.
  apply notify_focus_emits; intros; [apply leave_keyboard_emits|apply leave_pointer_emits].
Qed.

(** ** The invariant *)

Record focus_inv (st : State) : Prop := {
  fi_dom : forall w, focused_window st = Some w -> is_Some (windows_by_id st !! w);
  fi_keys : forall w p, windows_by_id st !! w = Some p -> w < next_window_id (inner st);
  fi_kbd : forall w s c k, focused_window st = Some w -> windows_by_id st !! w = Some (s, c) ->
    k ∈ live_of (keyboards st) c st -> kbd_focus (res_id k) (out st) = Some s;
  fi_ptr : forall w s c p, focused_window st = Some w -> windows_by_id st !! w = Some (s, c) ->
    p ∈ live_of (pointers st) c st -> ptr_focus (res_id p) (out st) = Some s;
  fi_log : keys_focused (out st);
}.

Lemma keys_focused_app l l' :
  keys_focused l -> Forall (fun o => is_key o = false) l' -> keys_focused (l ++ l').
Proof.
  intros Hl Hn l1 k sr tm kc ks l2 E.
  apply app_eq_inv in E as [(m & -> & E)|(m & -> & ->)].
  - destruct m as [|o m].
    + destruct l' as [|o l']; [done|]. cbn in E. injection E as <- <-.
      by apply Forall_cons in Hn as [Hn _].
    + cbn in E. injection E as <- ->. by eapply Hl.
  - rewrite Forall_app in Hn. destruct Hn as [_ Hn]. by apply Forall_cons in Hn as [Hn _].
Qed.

Lemma elem_of_live st l r : r ∈ live st l <-> r ∈ l /\ res_id r ∈ alive st.
Proof. unfold live. rewrite list_elem_of_filter. tauto. Qed.

Lemma live_of_mono m c st st' r :
  alive st' ⊆ alive st -> r ∈ live_of m c st' -> r ∈ live_of m c st.
Proof. unfold live_of. rewrite !elem_of_live. set_solver. Qed.

Lemma focus_inv_quiet st st' : quiet st st' -> focus_inv st -> focus_inv st'.
Proof.
  intros [[Hw Hf Hk Hp Hn Ha] (l & Ho & Hl)] [I1 I2 I3 I4 I5].
  apply silent_folds in Hl as (F1 & F2 & F3). split; rewrite ?Hw, ?Hf, ?Hk, ?Hp, ?Hn, ?Ho.
  - done.
  - done.
  - intros w s c k ? ? Hin. rewrite kbd_focus_app, F1. eauto using live_of_mono.
  - intros w s c k ? ? Hin. rewrite ptr_focus_app, F2. eauto using live_of_mono.
  - by apply keys_focused_app.
Qed.

(** The window that is focused was just entered: the rest of the invariant is
    enough. *)
Lemma focus_inv_entered w s c st st' :
  focused_window st = Some w -> windows_by_id st !! w = Some (s, c) ->
  (forall w p, windows_by_id st !! w = Some p -> w < next_window_id (inner st)) ->
  keys_focused (out st) -> st' = send_enter w st -> focus_inv st'.
Proof.
  intros Ef Ew Hn Hl ->. destruct (send_enter_emits w s c st Ew) as [[Hw Hf Hk Hp Hx Ha] (l & Ho & T1 & T2 & T3)].
  split; rewrite ?Hw, ?Hf, ?Hk, ?Hp, ?Hx, ?Ho.
  - rewrite Ef. intros ? [= <-]. by rewrite Ew.
  - done.
  - rewrite Ef. intros ? s' c' k [= <-] E Hin. rewrite Ew in E. injection E as <- <-.
    rewrite kbd_focus_app, T1, decide_True; [done|].
    apply list_elem_of_fmap_2. eauto using live_of_mono.
  - rewrite Ef. intros ? s' c' k [= <-] E Hin. rewrite Ew in E. injection E as <- <-.
    rewrite ptr_focus_app, T2, decide_True; [done|].
    apply list_elem_of_fmap_2. eauto using live_of_mono.
  - by apply keys_focused_app.
Qed.

Lemma send_leave_same w st :
  same_focus st (send_leave w st) /\
  exists l, out (send_leave w st) = out st ++ l /\ Forall (fun o => is_key o = false) l.
Proof.
  destruct (windows_by_id st !! w) as [[s c]|] eqn:E.
  - destruct (send_leave_emits w s c st E) as [H (l & Ho & _ & _ & Hn)]. eauto.
  - unfold send_leave, notify_focus. rewrite E. split; [done|]. exists []. by rewrite app_nil_r.
Qed.

Lemma register_surface_inv w s c st :
  w < next_window_id (inner st) -> focus_inv st -> focus_inv (register_surface w s c st).
Proof.
  intros Hw I. unfold register_surface. cbv zeta.
  set (st1 := st <| windows_by_id ::= insert w (s, c) |> <| focused_window := Some w |>).
  assert (K1 : forall w' p, windows_by_id st1 !! w' = Some p -> w' < next_window_id (inner st1)).
  { cbn. intros w' p. rewrite lookup_insert. case_decide; [by intros; subst|]. apply (fi_keys st I). }
  assert (W1 : windows_by_id st1 !! w = Some (s, c)) by apply lookup_insert_eq.
  assert (L1 : keys_focused (out st1)) by apply (fi_log st I).
  change (focused_window (st <| windows_by_id ::= insert w (s, c) |>)) with (focused_window st).
  destruct (focused_window st) as [old|] eqn:Ef; [case_match|];
    try by eapply (focus_inv_entered w s c st1).
  destruct (send_leave_same old st1) as [[Sw Sf Sk Sp Sn Sa] (l & Ho & Hl)].
  eapply (focus_inv_entered w s c (send_leave old st1)); [by rewrite Sf|by rewrite Sw| | |done].
  - rewrite Sw, Sn. exact K1.
  - rewrite Ho. by apply keys_focused_app.
Qed.

Lemma register_surface_no_focus_inv w s c st :
  w < next_window_id (inner st) -> focused_window st <> Some w ->
  focus_inv st -> focus_inv (register_surface_no_focus w s c st).
Proof.
  intros Hw Hn [I1 I2 I3 I4 I5]. split; cbn; [| | | |done].
  - intros w' E. rewrite lookup_insert_ne by congruence. auto.
  - intros w' p. rewrite lookup_insert. case_decide; [by intros; subst|]. apply I2.
  - intros w' s' c' k E. rewrite lookup_insert_ne by congruence. by apply I3.
  - intros w' s' c' k E. rewrite lookup_insert_ne by congruence. by apply I4.
Qed.

Lemma max_key_spec {A} (m : gmap Z A) :
  match max_key m with
  | Some k => is_Some (m !! k) /\ forall k', is_Some (m !! k') -> k' <= k
  | None => m = ∅
  end.
Proof.
  unfold max_key.
  assert (H : forall k, is_Some (m !! k) <-> k ∈ (map_to_list m).*1).
  { intros k. rewrite list_elem_of_fmap. split.
    - intros [a Ha]. exists (k, a). split; [done|]. by apply elem_of_map_to_list.
    - intros ([k' a] & -> & Hin%elem_of_map_to_list). cbn. by exists a. }
  destruct (map_to_list m).*1 as [|x l] eqn:E; cbn [foldr].
  - apply map_empty. intros k. destruct (m !! k) eqn:Ek; [|done].
    assert (Hk : is_Some (m !! k)) by by rewrite Ek. apply H in Hk. by apply not_elem_of_nil in Hk.
  - assert (G : forall l, match foldr (fun k acc => Some (match acc with Some a => Z.max k a | None => k end)) None l with
                | Some k => k ∈ l /\ forall k', k' ∈ l -> k' <= k | None => l = [] end).
    { clear. induction l as [|x l IH]; cbn; [done|]. destruct (foldr _ None l) as [a|].
      - destruct IH as [I1 I2]. split; [destruct (Z.max_spec x a) as [[_ ->]|[_ ->]]; set_solver|].
        intros k' [->|Hk]%elem_of_cons; [lia|]. apply I2 in Hk. lia.
      - subst l. set_solver. }
    specialize (G (x :: l)). cbn [foldr] in G. destruct G as [G1 G2].
    split; [by apply H|]. intros k' Hk%H. by apply G2.
Qed.

Lemma unregister_surface_inv w st : focus_inv st -> focus_inv (unregister_surface w st).
Proof.
  intros I. unfold unregister_surface. cbv zeta.
  set (st1 := unregister_toplevel w (st <| windows_by_id ::= delete w |>)).
  change (focused_window st1) with (focused_window st).
  assert (K1 : forall f w' p, windows_by_id (st1 <| focused_window := f |>) !! w' = Some p ->
                 w' < next_window_id (inner (st1 <| focused_window := f |>))).
  { cbn. intros f w' p. rewrite lookup_delete. case_decide; [done|]. apply (fi_keys st I). }
  assert (N1 : focus_inv (st1 <| focused_window := None |>)) by (split; [done|by apply K1|done|done|apply (fi_log st I)]).
  case_decide as D.
  - pose proof (max_key_spec (windows_by_id st1)) as M.
    destruct (max_key (windows_by_id st1)) as [k|]; [|done].
    destruct M as [[[s c] Hk] _].
    by eapply (focus_inv_entered k s c (st1 <| focused_window := Some k |>)); [done|exact Hk|apply K1|apply (fi_log st I)|].
  - destruct (focused_window st) as [f|] eqn:Ef; [|done].
    destruct (fi_dom st I f Ef) as [[s c] Hf].
    eapply (focus_inv_entered f s c (st1 <| focused_window := Some f |>)); [done| |apply K1|apply (fi_log st I)|done].
    cbn. rewrite lookup_delete_ne by congruence. done.
Qed.

(** ** Keyboards and pointers *)

Lemma elem_of_push_entry (m : gmap client (list resource)) c r c' x :
  x ∈ default [] (push_entry c r m !! c') <->
  x ∈ default [] (m !! c') \/ (c' = c /\ x = r).
Proof.
  unfold push_entry. destruct (decide (c' = c)) as [->|].
  - rewrite lookup_insert_eq. cbn. rewrite elem_of_app, list_elem_of_singleton. tauto.
  - rewrite lookup_insert_ne by done. tauto.
Qed.

Lemma elem_of_drop_entry (m : gmap client (list resource)) c id c' x :
  x ∈ default [] (drop_entry c id m !! c') -> x ∈ default [] (m !! c').
Proof.
  unfold drop_entry. destruct (m !! c) as [v|] eqn:E; [|done].
  destruct (decide (c' = c)) as [->|].
  - case_decide as D.
    + rewrite lookup_delete_eq. intros H. by apply not_elem_of_nil in H.
    + rewrite lookup_insert_eq, E. cbn. by intros [_ ?]%list_elem_of_filter.
  - case_decide; [rewrite lookup_delete_ne by done|rewrite lookup_insert_ne by done]; done.
Qed.

(** Objects that no list of the seat mentions. *)
Definition unregistered (id : nat) (st : State) : Prop :=
  forall c r, r ∈ default [] (keyboards st !! c) \/ r ∈ default [] (pointers st !! c) -> res_id r <> id.

Lemma init_object_inv id st : unregistered id st -> focus_inv st -> focus_inv (init_object id st).
Proof.
  intros U [I1 I2 I3 I4 I5]. split; cbn; [done|done| | |done].
  - intros w s c k Hf Hw [Hk Ha]%elem_of_live. apply (I3 w s c k Hf Hw), elem_of_live.
    split; [done|]. cbn in Ha. assert (res_id k <> id) by (apply (U c); by left). set_solver.
  - intros w s c k Hf Hw [Hk Ha]%elem_of_live. apply (I4 w s c k Hf Hw), elem_of_live.
    split; [done|]. cbn in Ha. assert (res_id k <> id) by (apply (U c); by right). set_solver.
Qed.

Lemma quiet_object_gone id st : quiet st (object_gone id st).
Proof. split; [|exists []; cbn; by rewrite app_nil_r]. split; try done. cbn. set_solver. Qed.

(** A new keyboard: either its client has the focus and it is entered, or nothing. *)
Lemma register_keyboard_inv c k st : focus_inv st -> focus_inv (register_keyboard c k st).
Proof.
  intros [I1 I2 I3 I4 I5]. unfold register_keyboard, late_enter.
  set (st1 := st <| keyboards ::= push_entry c k |>).
  change (focused_window st1) with (focused_window st). change (windows_by_id st1) with (windows_by_id st).
  assert (B : forall w s c', focused_window st = Some w -> windows_by_id st !! w = Some (s, c') -> c' <> c ->
    focus_inv st1).
  { intros w s c' Ef Ew Hc. split; cbn; [done|done| |done|done].
    intros w' s' c'' r Hf Hw [Hr Ha]%elem_of_live. cbn in Hr, Ha.
    assert (c'' = c') as -> by congruence.
    apply elem_of_push_entry in Hr as [Hr|[-> _]]; [|done].
    eapply I3; [done|done|]. by apply elem_of_live. }
  destruct (focused_window st) as [w|] eqn:Ef; [|split; cbn; try done; congruence].
  destruct (I1 w eq_refl) as [[s c'] Ew]. rewrite Ew.
  case_decide as Hc; [subst c'|by eapply B].
  eapply focus_inv_quiet; [apply quiet_wake|].
  destruct (enter_keyboard_emits s k st1) as [[Hw Hf Hk Hp Hn Ha] (l & Ho & T1 & T2 & T3)].
  split; rewrite ?Hw, ?Hf, ?Hk, ?Hp, ?Hn, ?Ho; cbn.
  - by rewrite Ef.
  - done.
  - rewrite Ef. intros ? s' c' r [= <-] Ew' Hr. rewrite Ew in Ew'. injection Ew' as <- <-.
    rewrite kbd_focus_app, T1. case_decide as D; [done|].
    apply (live_of_mono _ _ st1) in Hr; [|done]. apply elem_of_live in Hr as [Hr Hal]. cbn in Hr, Hal.
    apply elem_of_push_entry in Hr as [Hr|[_ ->]]; [|set_solver].
    eapply I3; [done|done|]. by apply elem_of_live.
  - rewrite Ef. intros ? s' c' r [= <-] Ew' Hr. rewrite ptr_focus_app, T2.
    rewrite decide_False by apply not_elem_of_nil.
    eapply I4; [done|done|]. exact (live_of_mono _ _ st1 _ _ Ha Hr).
  - by apply keys_focused_app.
Qed.

Lemma register_pointer_inv c p st : focus_inv st -> focus_inv (register_pointer c p st).
Proof.
  intros [I1 I2 I3 I4 I5]. unfold register_pointer, late_enter.
  set (st1 := st <| pointers ::= push_entry c p |>).
  change (focused_window st1) with (focused_window st). change (windows_by_id st1) with (windows_by_id st).
  assert (B : forall w s c', focused_window st = Some w -> windows_by_id st !! w = Some (s, c') -> c' <> c ->
    focus_inv st1).
  { intros w s c' Ef Ew Hc. split; cbn; [done|done|done| |done].
    intros w' s' c'' r Hf Hw [Hr Ha]%elem_of_live. cbn in Hr, Ha.
    assert (c'' = c') as -> by congruence.
    apply elem_of_push_entry in Hr as [Hr|[-> _]]; [|done].
    eapply I4; [done|done|]. by apply elem_of_live. }
  destruct (focused_window st) as [w|] eqn:Ef; [|split; cbn; try done; congruence].
  destruct (I1 w eq_refl) as [[s c'] Ew]. rewrite Ew.
  case_decide as Hc; [subst c'|by eapply B].
  eapply focus_inv_quiet; [apply quiet_wake|].
  destruct (enter_pointer_emits s p st1) as [[Hw Hf Hk Hp Hn Ha] (l & Ho & T1 & T2 & T3)].
  split; rewrite ?Hw, ?Hf, ?Hk, ?Hp, ?Hn, ?Ho; cbn.
  - by rewrite Ef.
  - done.
  - rewrite Ef. intros ? s' c' r [= <-] Ew' Hr. rewrite kbd_focus_app, T1.
    rewrite decide_False by apply not_elem_of_nil.
    eapply I3; [done|done|]. exact (live_of_mono _ _ st1 _ _ Ha Hr).
  - rewrite Ef. intros ? s' c' r [= <-] Ew' Hr. rewrite Ew in Ew'. injection Ew' as <- <-.
    rewrite ptr_focus_app, T2. case_decide as D; [done|].
    apply (live_of_mono _ _ st1) in Hr; [|done]. apply elem_of_live in Hr as [Hr Hal]. cbn in Hr, Hal.
    apply elem_of_push_entry in Hr as [Hr|[_ ->]]; [|set_solver].
    eapply I4; [done|done|]. by apply elem_of_live.
  - by apply keys_focused_app.
Qed.

Lemma unregister_keyboard_inv c k st : focus_inv st -> focus_inv (unregister_keyboard c k st).
Proof.
  intros [I1 I2 I3 I4 I5]. split; cbn; [done|done| |done|done].
  intros w s c' r Hf Hw [Hr Ha]%elem_of_live. apply elem_of_drop_entry in Hr.
  eapply I3; [done|done|]. by apply elem_of_live.
Qed.

Lemma unregister_pointer_inv c p st : focus_inv st -> focus_inv (unregister_pointer c p st).
Proof.
  intros [I1 I2 I3 I4 I5]. split; cbn; [done|done|done| |done].
  intros w s c' r Hf Hw [Hr Ha]%elem_of_live. apply elem_of_drop_entry in Hr.
  eapply I4; [done|done|]. by apply elem_of_live.
Qed.

(** ** The other operations are quiet *)

(** Peel an operation off from the outside; the lemmas of the database [quiet] are
    for operations whose last argument is the state. *)
Ltac quiet_peel :=
  match goal with
  | |- quiet ?s ?s => reflexivity
  | |- quiet _ (put _ ?s) => transitivity s; [|apply quiet_put; solve_silent]
  | |- quiet _ (when _ _ ?s) => transitivity s; [|apply quiet_when; intros]
  | |- quiet _ (for_each _ _ ?s) => transitivity s; [|apply quiet_for_each; intros]
  | |- quiet _ (set_field _ _ ?s) => transitivity s; [|same_fields]
  | |- quiet _ (match _ with _ => _ end) => case_match
  | |- quiet _ (?f ?s) =>
      lazymatch type of s with State => transitivity s; [|solve [auto 1 with quiet nocore]] end
  end.
Ltac quiet_tac := cbv zeta; repeat (quiet_peel; cbv beta zeta).

#[export] Hint Resolve quiet_object_gone : quiet.

Lemma quiet_do_release b st : quiet st (do_release_inner_buffer b st).
Proof. unfold do_release_inner_buffer. quiet_tac. Qed.
#[export] Hint Resolve quiet_do_release : quiet.

Lemma quiet_release b st : quiet st (release_inner_buffer b st).
Proof. unfold release_inner_buffer. quiet_tac. Qed.
#[export] Hint Resolve quiet_release : quiet.

Lemma quiet_drop_buffer_hold b st : quiet st (drop_buffer_hold b st).
Proof. unfold drop_buffer_hold. quiet_tac. Qed.
#[export] Hint Resolve quiet_drop_buffer_hold : quiet.

Lemma quiet_hold_new b st : quiet st (hold_new b st).1.
Proof. unfold hold_new, register_buffer_hold. cbn [fst]. quiet_tac. Qed.

Lemma quiet_hold_clone h st : quiet st (hold_clone h st).
Proof. unfold hold_clone. quiet_tac. Qed.

Lemma quiet_hold_drop h st : quiet st (hold_drop h st).
Proof. unfold hold_drop. quiet_tac. Qed.
#[export] Hint Resolve quiet_hold_clone quiet_hold_drop : quiet.

Lemma quiet_flush st : quiet st (flush_pending_releases st).
Proof. unfold flush_pending_releases. cbn [take_pending_releases]. quiet_tac. Qed.
#[export] Hint Resolve quiet_flush : quiet.

Lemma quiet_set_outer fd st : quiet st (set_outer_wake_fd fd st).
Proof. unfold set_outer_wake_fd. quiet_tac. Qed.

Lemma quiet_clear_outer fd st : quiet st (clear_outer_wake_fd_if_mine fd st).
Proof. unfold clear_outer_wake_fd_if_mine. quiet_tac. Qed.

Lemma quiet_drop_task t st : quiet st (drop_task t st).
Proof. unfold drop_task. quiet_tac. Qed.
#[export] Hint Resolve quiet_set_outer quiet_clear_outer quiet_drop_task : quiet.

Lemma quiet_slot_put a t st : quiet st (slot_put a t st).
Proof. unfold slot_put. quiet_tac. Qed.
#[export] Hint Resolve quiet_slot_put : quiet.

Lemma quiet_slot_take a st : quiet st (slot_take a st).1.
Proof. unfold slot_take. case_match; [|done]. cbn [fst]. quiet_tac. Qed.

Lemma quiet_clone_task t st : quiet st (clone_task t st).
Proof. unfold clone_task. quiet_tac. Qed.
#[export] Hint Resolve quiet_clone_task : quiet.

Lemma quiet_try_push t st : quiet st (try_push_recording t st).
Proof. unfold try_push_recording. quiet_tac. Qed.

(** A fallible operation is quiet when it succeeds. *)
Definition quiet_res (st : State) (r : result State stop) : Prop :=
  match r with Ok st' => quiet st st' | Err _ => True end.

Lemma quiet_res_ok st : quiet_res st (Ok st).
Proof. cbn. reflexivity. Qed.

Lemma quiet_res_trans st st' r : quiet st st' -> quiet_res st' r -> quiet_res st r.
Proof. destruct r; [|done]. cbn. intros. by transitivity st'. Qed.

Lemma quiet_res_bind st r (k : State -> result State stop) :
  quiet_res st r -> (forall st', quiet st st' -> quiet_res st (k st')) ->
  quiet_res st (match r with Ok s => k s | Err e => Err e end).
Proof. intros Hr Hk. destruct r; [|done]. by apply Hk. Qed.

Lemma quiet_for_each_in {A} (l : list A) f st :
  (forall a st, quiet_res st (f a st)) -> quiet_res st (for_each_in l f st).
Proof.
  intros H. revert st. induction l as [|a l IH]; intros st; cbn; [reflexivity|].
  apply quiet_res_bind; [apply H|]. intros st' Hq. by eapply quiet_res_trans; [|apply IH].
Qed.

Lemma quiet_put_readback slot b w h stride rb nv st :
  quiet_res st (put_readback slot b w h stride rb nv st).
Proof.
  unfold put_readback. pose proof (quiet_hold_new b st) as H.
  destruct (hold_new b st) as [st1 hd]. cbn [fst] in H.
  assert (D : forall st', quiet st1 st' -> quiet st (hold_drop hd st'))
    by (intros st' H'; transitivity st1; [done|]; transitivity st'; [done|apply quiet_hold_drop]).
  repeat case_match; cbn; try done; apply D; quiet_tac.
Qed.

Lemma quiet_put_dmabuf slot b d st : quiet st (put_dmabuf slot b d st).
Proof.
  unfold put_dmabuf. pose proof (quiet_hold_new b st) as H.
  destruct (hold_new b st) as [st1 h]. cbn [fst] in H. transitivity st1; [done|]. quiet_tac.
Qed.

Lemma quiet_push_focused s slot c st : quiet_res st (push_focused_buffer_to_recording s slot c st).
Proof.
  unfold push_focused_buffer_to_recording.
  destruct (surface_buffer st s) as [[b bf]|]; [|apply quiet_res_ok].
  destruct (buf_kind bf); [| | |apply quiet_res_ok];
    try (destruct (read_surface_buffer_for_recording st s) as [[[[??]?]|]|?]; cbn; quiet_tac; done).
  case_match; [apply quiet_put_dmabuf|apply quiet_put_readback].
Qed.

Section Ordered.
Context {HO : HashOrder} {CR : CursorReader}.

Lemma quiet_tap fuel s a st : quiet_res st (maybe_tap_for_recording fuel s a st).
Proof.
  unfold maybe_tap_for_recording. destruct (tap_encoders st) as [[[|] encs]|]; [| |apply quiet_res_ok].
  - repeat case_match; try apply quiet_res_ok. apply quiet_for_each_in. intros. apply quiet_push_focused.
  - apply quiet_res_bind; [apply quiet_for_each_in; intros; apply quiet_push_focused|].
    intros st' H. apply (quiet_res_trans _ st'); [done|].
    unfold tap_cpu_slots. case_match; [apply quiet_res_ok|]. cbv zeta. case_match; [|apply quiet_res_ok].
    destruct (capture_desktop fuel _) as [[[[[pixels w] h] ?]|]|?]; cbn [quiet_res]; [|quiet_tac|done].
    quiet_tac.
Qed.

Lemma quiet_cursor st : quiet_res st (note_cursor_dirty st).
Proof. unfold note_cursor_dirty, queue_cursor. repeat case_match; cbn; quiet_tac; done. Qed.

Lemma quiet_take_pending s st : quiet st (take_pending s st).1.
Proof. unfold take_pending, upd_surf. case_match; [|done]. cbn [fst]. quiet_tac. Qed.

Lemma quiet_promote s pt st : quiet st (promote_buffer s pt st).1.
Proof.
  unfold promote_buffer, upd_surf, note_buffer_release_point, queue_deferred_release.
  cbv zeta. case_match; [|done]. case_match; [|done]. case_match; cbn [fst]; quiet_tac.
Qed.

Lemma quiet_ready_callbacks s st : quiet st (ready_callbacks s st).
Proof.
  unfold ready_callbacks, upd_surf, queue_frame_callback. quiet_tac.
Qed.

Lemma quiet_record_damage st : quiet st (record_damage st).
Proof. unfold record_damage. quiet_tac. Qed.

Lemma quiet_notify_plasma f w st : (forall n, silent (f n)) -> quiet st (notify_plasma f w st).
Proof. intros H. unfold notify_plasma. quiet_tac. by apply quiet_put. Qed.

Lemma quiet_notify_created w st : quiet st (notify_plasma_window_created w st).
Proof. unfold notify_plasma_window_created. quiet_tac. Qed.

Lemma quiet_remove_window w st : quiet st (remove_window w st).1.
Proof.
  unfold remove_window. cbv zeta. case_match; cbn [fst].
  - transitivity (notify_plasma_window_destroyed w
      (st <| inner ::= (fun s => s <| windows_map ::= delete w |>) |>)); [|quiet_tac].
    etransitivity; [|apply quiet_notify_plasma; solve_silent]. quiet_tac.
  - quiet_tac.
Qed.

Lemma quiet_set_title w t st : quiet st (set_title w t st).
Proof.
  unfold set_title, notify_plasma_window_title. quiet_tac.
  etransitivity; [|apply quiet_notify_plasma; solve_silent]. quiet_tac.
Qed.

Lemma quiet_set_app_id w t st : quiet st (set_app_id w t st).
Proof.
  unfold set_app_id, notify_plasma_window_app_id. quiet_tac.
  etransitivity; [|apply quiet_notify_plasma; solve_silent]. quiet_tac.
Qed.

Lemma quiet_resize w h st : quiet st (Session.resize w h st).
Proof.
  unfold Session.resize, readvertise, reconfigure. cbn [next_serial]. quiet_tac.
Qed.

Lemma quiet_update_keymap fd n st : quiet st (update_keymap fd n st).
Proof. unfold update_keymap. quiet_tac. Qed.

Lemma quiet_drain_frame_callbacks st : quiet st (drain_frame_callbacks st).
Proof.
  unfold drain_frame_callbacks, fire_callback. quiet_tac. apply quiet_object_gone.
Qed.

Lemma quiet_drain_feedbacks st : quiet st (drain_presentation_feedbacks st).
Proof.
  unfold drain_presentation_feedbacks, fire_feedback. quiet_tac. apply quiet_object_gone.
Qed.

Lemma quiet_poke_surfaces v st : quiet st (poke_client_surfaces v st).
Proof. unfold poke_client_surfaces. quiet_tac. Qed.

Lemma quiet_relative a b c d e f st : quiet st (inject_relative_pointer a b c d e f st).
Proof. unfold inject_relative_pointer. quiet_tac. Qed.

(** ** Injection *)

Lemma quiet_axis src h v sh sv st : quiet st (inject_axis src h v sh sv st).1.
Proof.
  unfold inject_axis, axis_events. repeat case_match; cbn [fst]; quiet_tac.
Qed.

Lemma quiet_place content w x y st st' p : place content w x y st = Ok (st', p) -> quiet st st'.
Proof.
  unfold place, window_content_inset. intros H. repeat case_match; simplify_eq; quiet_tac; done.
Qed.

Lemma quiet_pointer_events x y b pr ax ay tm p st : quiet st (pointer_events x y b pr ax ay tm p st).
Proof. unfold pointer_events. cbn [next_serial]. quiet_tac. Qed.

Lemma quiet_touch_events s i x y ph tm t st : quiet st (touch_events s i x y ph tm t st).
Proof. unfold touch_events. cbn [next_serial]. quiet_tac. Qed.
End Ordered.
#[export] Hint Resolve quiet_pointer_events quiet_touch_events quiet_record_damage quiet_ready_callbacks : quiet.

Lemma quiet_inject_pointer w c x y b pr ax ay sq st st' d :
  inject_pointer w c x y b pr ax ay sq st = Ok (st', d) -> quiet st st'.
Proof.
  unfold inject_pointer, record_cursor_pos. intros H. repeat case_match; simplify_eq; try done;
    (etransitivity; [by eapply quiet_place|]); quiet_tac.
Qed.

Lemma quiet_inject_touch w c i x y ph st st' d :
  inject_touch w c i x y ph st = Ok (st', d) -> quiet st st'.
Proof.
  unfold inject_touch. intros H. repeat case_match; simplify_eq; try done;
    (etransitivity; [by eapply quiet_place|]); quiet_tac.
Qed.

(** What a key does to the log: the modifiers and the key, to each keyboard. *)
Definition key_messages (kbds : list resource) (sm sk tm kc : Z) (ks : KeyState) (d l k g : Z) :
    list output :=
  concat (map (fun r => [KbdModifiers (res_id r) sm d l k g; KbdKey (res_id r) sk tm kc ks]) kbds).

Lemma key_loop kbds sm sk tm kc ks d l k g st :
  let st' := for_each kbds (fun r st =>
    put (KbdKey (res_id r) sk tm kc ks) (put (KbdModifiers (res_id r) sm d l k g) st)) st in
  same_focus st st' /\ out st' = out st ++ key_messages kbds sm sk tm kc ks d l k g.
Proof.
  cbv zeta. revert st. induction kbds as [|r kbds IH]; intros st.
  - split; [done|]. cbn. by rewrite app_nil_r.
  - destruct (IH (put (KbdKey (res_id r) sk tm kc ks) (put (KbdModifiers (res_id r) sm d l k g) st))) as [S O].
    split; [by etransitivity; [|exact S]; split|]. etransitivity; [exact O|]. cbn. by rewrite <- !app_assoc.
Qed.

Lemma key_messages_step kbds sm sk tm kc ks d l k g j f :
  foldl (kstep j) f (key_messages kbds sm sk tm kc ks d l k g) = f /\
  foldl (pstep j) f (key_messages kbds sm sk tm kc ks d l k g) = f.
Proof. induction kbds; [done|]. done. Qed.

Lemma keys_focused_keys (L m : list output) :
  keys_focused L -> (forall o, o ∈ m -> forall j f, kstep j f o = f) ->
  (forall j a b c e, KbdKey j a b c e ∈ m -> is_Some (kbd_focus j L)) -> keys_focused (L ++ m).
Proof.
  intros HL Hs Hk l1 k sr tm kc ks l2 E.
  apply app_eq_inv in E as [(r & -> & E)|(r & -> & ->)].
  - destruct r as [|o r].
    + cbn in E. subst m. rewrite app_nil_r in Hk. eapply Hk. left.
    + cbn in E. injection E as <- ->. by eapply HL.
  - rewrite kbd_focus_app.
    assert (F : foldl (kstep k) (kbd_focus k L) r = kbd_focus k L).
    { assert (Hr : forall o, o ∈ r -> forall j f, kstep j f o = f) by (intros; apply Hs; set_solver).
      clear -Hr. induction r as [|o r IH] using rev_ind; [done|].
      rewrite foldl_app. cbn. rewrite Hr by set_solver. apply IH. set_solver. }
    rewrite F. apply (Hk k sr tm kc ks). set_solver.
Qed.

Lemma elem_of_key_messages kbds sm sk tm kc ks d l k g o :
  o ∈ key_messages kbds sm sk tm kc ks d l k g ->
  exists r, r ∈ kbds /\ (o = KbdModifiers (res_id r) sm d l k g \/ o = KbdKey (res_id r) sk tm kc ks).
Proof.
  unfold key_messages. intros Ho. apply list_elem_of_In, in_concat in Ho as (x & Hx & Ho).
  apply in_map_iff in Hx as (r & <- & Hr). exists r. split; [by apply list_elem_of_In|].
  cbn in Ho. destruct Ho as [<-|[<-|[]]]; auto.
Qed.

(** Injecting a key, in full. *)
Lemma inject_key_none kc pr d la lo g st :
  (forall c, focused_client st = Some c -> live_of (keyboards st) c st = []) ->
  inject_key kc pr d la lo g st = (st, false).
Proof. intros H. unfold inject_key. destruct (focused_client st) as [c|]; [|done]. by rewrite (H c). Qed.

Lemma inject_key_some kc pr d la lo g c st :
  focused_client st = Some c -> live_of (keyboards st) c st <> [] ->
  exists st' sm sk tm, inject_key kc pr d la lo g st = (st', true) /\ same_focus st st' /\
    out st' = out st ++
      key_messages (live_of (keyboards st) c st) sm sk tm kc (key_state pr) d la lo g ++ [WakeCompositor].
Proof.
  intros Hc Hk. unfold inject_key. rewrite Hc.
  destruct (live_of (keyboards st) c st) as [|k ks]; [done|]. cbn [next_serial]. cbv zeta.
  match goal with |- context [for_each (k :: ks) ?f ?s] =>
    destruct (key_loop (k :: ks) (Z.land (serial_counter st) 4294967295)
      (Z.land (as_u 64 (serial_counter st + 1)) 4294967295) (as_u 32 (monotonic_now_ms s)) kc
      (key_state pr) d la lo g s) as [S O] end.
  do 4 eexists. split; [reflexivity|]. split.
  - etransitivity; [|exact (proj1 (quiet_wake _))]. etransitivity; [|exact S]. by split.
  - cbn [wake_compositor]. change (out (put ?o ?s)) with (out s ++ [o]).
    etransitivity; [apply (f_equal (fun l => l ++ [WakeCompositor])); exact O|].
    cbn [out]. by rewrite <- app_assoc.
Qed.

Lemma focused_client_spec st c :
  focused_client st = Some c <->
  exists w s, focused_window st = Some w /\ windows_by_id st !! w = Some (s, c).
Proof.
  unfold focused_client. destruct (focused_window st) as [w|]; cbn; [|naive_solver].
  destruct (windows_by_id st !! w) as [[s c']|] eqn:E; cbn; naive_solver.
Qed.

Lemma inject_key_inv kc pr d la lo g st :
  focus_inv st -> focus_inv (inject_key kc pr d la lo g st).1.
Proof.
  intros I. destruct (focused_client st) as [c|] eqn:Hc.
  2:{ rewrite inject_key_none; [done|congruence]. }
  destruct (decide (live_of (keyboards st) c st = [])) as [E|E].
  { rewrite inject_key_none; [done|congruence]. }
  destruct (inject_key_some kc pr d la lo g c st Hc E) as (st' & sm & sk & tm & -> & S & O). cbn [fst].
  apply focused_client_spec in Hc as (w & s & Hf & Hw).
  destruct S as [Sw Sf Sk Sp Sn Sa]. destruct I as [I1 I2 I3 I4 I5].
  split; rewrite ?Sw, ?Sf, ?Sk, ?Sp, ?Sn, ?O; [done|done| | |].
  - intros w' s' c' k Hf' Hw' Hk. rewrite kbd_focus_app, foldl_app, (proj1 (key_messages_step _ _ _ _ _ _ _ _ _ _ _ _)).
    cbn. eauto using live_of_mono.
  - intros w' s' c' k Hf' Hw' Hk. rewrite ptr_focus_app, foldl_app, (proj2 (key_messages_step _ _ _ _ _ _ _ _ _ _ _ _)).
    cbn. eauto using live_of_mono.
  - rewrite app_assoc. apply keys_focused_app; [|by repeat constructor].
    apply keys_focused_keys; [done| |].
    + intros o (r & _ & [-> | ->])%elem_of_key_messages; done.
    + intros j a b x e (r & Hr & [|[= -> _ _ _ _]])%elem_of_key_messages; [done|].
      exists s. eauto.
Qed.

(** ** Windows and their surfaces *)

Lemma add_window_inv pid g st :
  0 <= next_window_id (inner st) < 2 ^ 32 - 1 -> focus_inv st ->
  focus_inv (add_window pid g st).1 /\
  (add_window pid g st).2 = next_window_id (inner st) /\
  next_window_id (inner (add_window pid g st).1) = next_window_id (inner st) + 1 /\
  focused_window (add_window pid g st).1 = focused_window st /\
  surfs (add_window pid g st).1 = surfs st.
Proof.
  intros Hn [I1 I2 I3 I4 I5]. unfold add_window. cbv zeta. cbn [fst snd].
  set (st1 := emit _ _).
  assert (I' : focus_inv st1).
  { split; cbn; [done| |done|done|done]. intros w p Hw%I2. rewrite as_u_id by (red; lia). lia. }
  pose proof (quiet_notify_created (next_window_id (inner st)) st1) as Q.
  pose proof (focus_inv_quiet _ _ Q I') as I''. destruct Q as [[Qw Qf Qk Qp Qn Qa] _].
  split_and!; [done|done| |done|].
  - rewrite Qn. cbn. apply as_u_id. red. lia.
  - unfold notify_plasma_window_created. apply (for_each_inv (fun s => surfs s = surfs st)); [done|].
    intros a s _ Hs. by case_match.
Qed.

(** Window ids have not run out. *)
Definition ids_left (st : State) : Prop := 0 <= next_window_id (inner st) < 2 ^ 32 - 1.

Lemma quiet_upd_surf s f st : quiet st (upd_surf s f st).
Proof. unfold upd_surf. quiet_tac. Qed.
#[export] Hint Resolve quiet_upd_surf : quiet.

Lemma quiet_register_toplevel w xs tl st : quiet st (register_toplevel w xs tl st).
Proof. unfold register_toplevel. quiet_tac. Qed.

Lemma map_layer_inv s c st : ids_left st -> focus_inv st -> focus_inv (map_layer s c st).
Proof.
  intros Hn I. unfold map_layer. destruct (surfs st !! s) as [sd|]; [|done].
  case_match; [|done]. cbn [snapshot]. cbv zeta.
  set (g := {| rect_x := 0; rect_y := 0; rect_width := _; rect_height := _ |}).
  destruct (add_window_inv (-1) g st Hn I) as (I1 & Ew & En & Ef & _).
  destruct (add_window (-1) g st) as [st1 wid]. cbn [fst snd] in *. subst wid.
  eapply focus_inv_quiet; [apply quiet_upd_surf|]. case_match.
  - apply register_surface_inv; [lia|done].
  - apply register_surface_no_focus_inv; [lia| |done]. rewrite Ef. intros Hf.
    destruct (fi_dom st I _ Hf) as [p Hp]. apply (fi_keys st I) in Hp. lia.
Qed.

Lemma toplevel_teardown_inv w st : focus_inv st -> focus_inv (toplevel_teardown w st).
Proof.
  intros I. eapply focus_inv_quiet; [apply quiet_remove_window|]. by apply unregister_surface_inv.
Qed.

Lemma layer_teardown_inv s st : focus_inv st -> focus_inv (layer_teardown s st).
Proof.
  intros I. unfold layer_teardown. case_match; [|done].
  apply toplevel_teardown_inv. eapply focus_inv_quiet; [apply quiet_upd_surf|done].
Qed.

Lemma get_toplevel_inv c pid s xs tl st :
  ids_left st -> unregistered (res_id tl) st -> focus_inv st ->
  focus_inv (get_toplevel c pid s xs tl st).
Proof.
  intros Hn Hu I. unfold get_toplevel. cbn [snapshot comp_next_serial]. cbv zeta.
  set (g := {| rect_x := 0; rect_y := 0; rect_width := _; rect_height := _ |}).
  destruct (add_window_inv pid g st Hn I) as (I1 & Ew & En & Ef & _).
  assert (U : unregistered (res_id tl) (add_window pid g st).1).
  { unfold add_window. cbn [fst]. cbv zeta. set (st1 := emit _ _).
    destruct (quiet_notify_created (next_window_id (inner st)) st1) as [[Qw Qf Qk Qp Qn Qa] _].
    intros c' r. rewrite Qk, Qp. apply (Hu c' r). }
  destruct (add_window pid g st) as [st1 wid]. cbn [fst snd] in *. subst wid.
  eapply focus_inv_quiet; [apply quiet_register_toplevel|].
  match goal with |- focus_inv (register_surface _ _ _ ?s2) => set (st2 := s2) end.
  assert (Q : quiet (init_object (res_id tl) st1) st2) by (unfold st2; quiet_tac).
  apply register_surface_inv.
  - destruct Q as [[_ _ _ _ Qn _] _]. rewrite Qn. cbn. lia.
  - eapply focus_inv_quiet; [exact Q|]. by apply init_object_inv.
Qed.

Section Commit.
Context {HO : HashOrder} {CR : CursorReader}.

Lemma surface_commit_inv fuel s c waited st st' :
  ids_left st -> surface_commit fuel s c waited st = Ok st' -> focus_inv st -> focus_inv st'.
Proof.
  intros Hn H I. unfold surface_commit in H.
  pose proof (quiet_take_pending s st) as Q1.
  destruct (take_pending s st) as [st1 [acq rel]]. cbn [fst] in Q1.
  pose proof (quiet_promote s rel st1) as Q2.
  destruct (promote_buffer s rel st1) as [st2 to_release]. cbn [fst] in Q2. cbv zeta in H.
  pose proof (quiet_tap fuel s (match acq with Some _ => waited | None => true end) st2) as Q3.
  destruct (maybe_tap_for_recording _ _ _ _) as [st3|]; [|done]. cbn [quiet_res] in Q3.
  set (st4 := match to_release with Some b => release_inner_buffer b st3 | None => st3 end) in H.
  assert (Q4 : quiet st3 st4) by (unfold st4; quiet_tac).
  assert (Q5 : quiet_res st4 (if is_cursor st4 s then note_cursor_dirty st4 else Ok st4))
    by (destruct (is_cursor st4 s); [apply quiet_cursor|apply quiet_res_ok]).
  destruct (if is_cursor st4 s then _ else _) as [st5|]; [|done]. cbn [quiet_res] in Q5.
  injection H as <-.
  assert (Q : quiet st (record_damage (ready_callbacks s st5))).
  { rewrite Q1, Q2, Q3, Q4, Q5. quiet_tac. }
  apply map_layer_inv; [|by eapply focus_inv_quiet].
  destruct Q as [[_ _ _ _ Qn _] _]. unfold ids_left. by rewrite Qn.
Qed.
End Commit.

(** ** What the clients observe *)

(** In a session state that satisfies the invariant a key is delivered exactly
    when the focused window's client has a live keyboard; then every such keyboard
    gets the modifiers and the key, in this order, and has been told that it is on
    the focused window's surface. *)
Lemma inject_key_delivers kc pr d la lo g st :
  focus_inv st ->
  (inject_key kc pr d la lo g st).2 =
    match focused_client st with Some c => nonempty (live_of (keyboards st) c st) | None => false end /\
  forall w s c, focused_window st = Some w -> windows_by_id st !! w = Some (s, c) ->
    live_of (keyboards st) c st <> [] ->
    exists sm sk tm,
      out (inject_key kc pr d la lo g st).1 = out st ++
        key_messages (live_of (keyboards st) c st) sm sk tm kc (key_state pr) d la lo g ++ [WakeCompositor] /\
      Forall (fun k => kbd_focus (res_id k) (out st) = Some s) (live_of (keyboards st) c st).
Proof.
  intros I. split.
  - destruct (focused_client st) as [c|] eqn:Hc; [|rewrite inject_key_none; [done|congruence]].
    destruct (decide (live_of (keyboards st) c st = [])) as [E|E].
    { rewrite inject_key_none, E; [done|congruence]. }
    destruct (inject_key_some kc pr d la lo g c st Hc E) as (st' & ? & ? & ? & -> & _).
    by destruct (live_of (keyboards st) c st).
  - intros w s c Hf Hw E.
    assert (Hc : focused_client st = Some c) by (apply focused_client_spec; eauto).
    destruct (inject_key_some kc pr d la lo g c st Hc E) as (st' & sm & sk & tm & -> & _ & O).
    exists sm, sk, tm. split; [done|]. apply Forall_forall. intros k Hk. by eapply (fi_kbd st I).
Qed.
