(* ===== verification/SessionBuffers.v ===== *)
(** * Buffers are not given back while they are read

    An encoder that is handed a client's buffer holds it; the buffer is released to
    the client when the last hold is gone. The invariant below relates the counts
    of the session to the holds that exist, the holds to the tasks that own them,
    and both to the messages sent. *)

From Stdlib Require Import ZArith Lia.
From stdpp Require Import prelude strings gmap list.
From S2P Require Import Prelude Words Messages Composite Pixels Session SessionInput SessionRecord Compositor.

Open Scope Z_scope.

(** ** Counting *)

Definition cnt (h : nat) (l : list nat) : nat := length (filter (fun x => x = h) l).

Arguments cnt : simpl never.

Lemma cnt_nil h : cnt h [] = 0%nat.
Proof. done. Qed.

Lemma cnt_app h l k : cnt h (l ++ k) = (cnt h l + cnt h k)%nat.
Proof. unfold cnt. by rewrite filter_app, length_app. Qed.

Lemma cnt_cons h x l : cnt h (x :: l) = ((if decide (x = h) then 1 else 0) + cnt h l)%nat.
Proof. unfold cnt. rewrite filter_cons. by case_decide. Qed.

Definition slot_refs (sl : LatestTaskSlot) : list nat :=
  match slot_inner sl with Some t => task_holds t | None => [] end.

(** References to a hold from the waiting tasks. *)
Definition occ (h : nat) (m : gmap nat LatestTaskSlot) : nat :=
  map_fold (fun _ sl n => cnt h (slot_refs sl) + n)%nat 0%nat m.

Arguments occ : simpl never.

Lemma occ_insert_new h a sl m : m !! a = None -> occ h (<[a := sl]> m) = (cnt h (slot_refs sl) + occ h m)%nat.
Proof. intros E. unfold occ. rewrite map_fold_insert_L; [done| |done]. intros. lia. Qed.

Lemma occ_insert h a sl sl' m : m !! a = Some sl ->
  (occ h (<[a := sl']> m) + cnt h (slot_refs sl))%nat = (occ h m + cnt h (slot_refs sl'))%nat.
Proof.
  intros E. rewrite <- (insert_delete_id m a sl) at 2 by done.
  rewrite <- (insert_delete_eq m a sl'). rewrite !occ_insert_new by apply lookup_delete_eq. lia.
Qed.

(** How many holds pin a buffer. *)
Definition hold_count (b : nat) (m : gmap nat InnerBufferHold) : nat :=
  size (filter (fun hx => ibh_buf hx.2 = b) m).

Arguments hold_count : simpl never.

Lemma hold_count_insert b h x m : m !! h = None ->
  hold_count b (<[h := x]> m) = ((if decide (ibh_buf x = b) then 1 else 0) + hold_count b m)%nat.
Proof.
  intros E. unfold hold_count. case_decide as D.
  - rewrite map_filter_insert_True by done. rewrite map_size_insert_None; [done|].
    apply map_lookup_filter_None_2. by left.
  - rewrite map_filter_insert_not'; [done|done|]. intros y. by rewrite E.
Qed.

Lemma hold_count_delete b h x m : m !! h = Some x ->
  hold_count b m = ((if decide (ibh_buf x = b) then 1 else 0) + hold_count b (delete h m))%nat.
Proof.
  intros E. rewrite <- (insert_delete_id m h x) at 1 by done. apply hold_count_insert, lookup_delete_eq.
Qed.

Lemma hold_count_same b h x y m : m !! h = Some x -> ibh_buf y = ibh_buf x ->
  hold_count b (<[h := y]> m) = hold_count b m.
Proof.
  intros E Hb. rewrite (hold_count_delete b h y) by apply lookup_insert_eq.
  rewrite delete_insert_eq, Hb. by rewrite <- hold_count_delete.
Qed.

Lemma hold_count_size b m : (hold_count b m <= size m)%nat.
Proof. unfold hold_count. apply map_size_filter. Qed.

(** ** The log of holds and releases *)

Definition held_step (b : nat) (n : Z) (o : output) : Z :=
  match o with
  | HoldTaken _ b' => if decide (b' = b) then n + 1 else n
  | HoldDropped _ b' => if decide (b' = b) then n - 1 else n
  | _ => n
  end.

(** Holds on a buffer after these messages. *)
Definition held (b : nat) (l : list output) : Z := foldl (held_step b) 0 l.
Arguments held : simpl never.

Lemma held_snoc b l o : held b (l ++ [o]) = held_step b (held b l) o.
Proof. unfold held. by rewrite foldl_app. Qed.

(** No buffer is released while a hold pins it. *)
Definition releases_safe (l : list output) : Prop :=
  forall l1 b l2, l = l1 ++ BufferRelease b :: l2 -> held b l1 = 0.

Definition is_release (o : output) : bool := match o with BufferRelease _ => true | _ => false end.

Lemma releases_safe_snoc l o :
  releases_safe l -> (forall b, o = BufferRelease b -> held b l = 0) -> releases_safe (l ++ [o]).
Proof.
  intros Hl Ho l1 b l2 E. destruct l2 as [|o' l2 _] using rev_ind.
  - apply app_inj_tail in E as [-> ->]. by apply Ho.
  - rewrite app_comm_cons, app_assoc in E. apply app_inj_tail in E as [-> _]. by eapply Hl.
Qed.

(** ** The invariant *)

Definition refs_of (m : gmap nat InnerBufferHold) (h : nat) : nat :=
  match m !! h with Some x => ibh_refs x | None => 0%nat end.

(** [own] are the references held outside the slots: by an encoder that reads a
    frame, by the attached view, or by the operation that is running. *)
Record hold_inv (own : list nat) (st : State) : Prop := {
  hi_count : forall b,
    match buffer_hold_state st !! b with
    | Some hs => bhs_count hs = Z.of_nat (hold_count b (holds st)) /\ (0 < hold_count b (holds st))%nat
    | None => hold_count b (holds st) = 0%nat
    end;
  hi_refs : forall h, refs_of (holds st) h = (occ h (slots st) + cnt h own)%nat;
  hi_pos : forall h x, holds st !! h = Some x -> (0 < ibh_refs x)%nat /\ (h < next_addr st)%nat;
  hi_held : forall b, held b (out st) = Z.of_nat (hold_count b (holds st));
  hi_safe : releases_safe (out st);
  hi_slots : forall a, is_Some (slots st !! a) -> (a < next_addr st)%nat;
}.

Lemma hold_inv_own own own' st :
  (forall h, cnt h own = cnt h own') -> hold_inv own st -> hold_inv own' st.
Proof. intros H []. split; try done. intros h. by rewrite <- H. Qed.

(** There is room for [n] more holds. *)
Definition room (n : Z) (st : State) : Prop := Z.of_nat (size (holds st)) + n < 2 ^ 32.

(** Operations that leave buffers alone. *)
Definition still_out (o : output) : Prop :=
  is_release o = false /\ forall b n, held_step b n o = n.

Record still (st st' : State) : Prop := {
  sl_state : buffer_hold_state st' = buffer_hold_state st;
  sl_holds : holds st' = holds st;
  sl_slots : slots st' = slots st;
  sl_addr : next_addr st' = next_addr st;
  sl_out : exists l, out st' = out st ++ l /\ Forall still_out l;
}.

#[export] Instance still_pre : PreOrder still.
Proof.
  split.
  - intros st. split; try done. exists []. by rewrite app_nil_r.
  - intros a b c [? ? ? ? (l1 & E1 & H1)] [? ? ? ? (l2 & E2 & H2)]. split; try congruence.
    exists (l1 ++ l2). rewrite E2, E1, app_assoc. split; [done|]. by apply Forall_app.
Qed.

Lemma hold_inv_still own st st' : still st st' -> hold_inv own st -> hold_inv own st'.
Proof.
  intros [S1 S2 S3 S4 (l & Ho & Hl)] [I1 I2 I3 I4 I5 I6].
  assert (G : (forall b, held b (out st ++ l) = Z.of_nat (hold_count b (holds st))) /\ releases_safe (out st ++ l)).
  { clear Ho. induction l as [|o l IH] using rev_ind; [by rewrite app_nil_r|].
    rewrite Forall_app, Forall_singleton in Hl. destruct Hl as [Hl [Hr Hs]].
    destruct (IH Hl) as [J1 J2]. rewrite app_assoc. split.
    - intros b. by rewrite held_snoc, Hs.
    - apply releases_safe_snoc; [done|]. by intros b ->. }
  destruct G. split; rewrite ?S1, ?S2, ?S3, ?S4, ?Ho; done.
Qed.

Lemma still_put o st : still_out o -> still st (put o st).
Proof. intros H. split; try done. exists [o]. split; [done|]. by apply Forall_singleton. Qed.

Ltac still_fields :=
  split; [reflexivity|reflexivity|reflexivity|reflexivity|
    exists []; rewrite app_nil_r; split; [reflexivity|constructor]].

Lemma still_wake st : still st (wake_compositor st).
Proof.
  transitivity (st <| last_activity_ms := monotonic_now_ms st |>); [still_fields|]. by apply still_put.
Qed.

(** ** Releases and holds *)

Lemma do_release_inv own b st :
  hold_count b (holds st) = 0%nat -> hold_inv own st -> hold_inv own (do_release_inner_buffer b st).
Proof.
  intros Hb I. unfold do_release_inner_buffer. case_match; [done|].
  assert (R : forall st1, still st st1 -> hold_inv own (put (BufferRelease b) st1)).
  { intros st1 S1. assert (I1 : hold_inv own st1) by by eapply hold_inv_still.
    destruct I1 as [J1 J2 J3 J4 J5 J6]. split; cbn; [done|done|done| | |done].
    - intros b'. rewrite held_snoc. apply J4.
    - apply releases_safe_snoc; [done|]. intros b' [= <-]. rewrite J4, (sl_holds _ _ S1), Hb. done. }
  destruct (buffer_release_signals st !! b) as [[|p q]|].
  - apply R. still_fields.
  - eapply hold_inv_still; [by apply still_put|]. apply R. still_fields.
  - by apply R.
Qed.

Lemma release_inner_buffer_inv own b st : hold_inv own st -> hold_inv own (release_inner_buffer b st).
Proof.
  intros I. unfold release_inner_buffer. case_match; [done|].
  pose proof (hi_count own st I b) as C. destruct (buffer_hold_state st !! b) as [hs|] eqn:E.
  - destruct C as [C1 C2]. rewrite (proj2 (Z.ltb_lt _ _)) by lia.
    destruct I as [I1 I2 I3 I4 I5 I6]. split; cbn; [|done|done|done|done|done].
    intros b'. destruct (decide (b' = b)) as [->|].
    + rewrite lookup_insert_eq. cbn. lia.
    + rewrite lookup_insert_ne by done. apply I1.
  - by apply do_release_inv.
Qed.

Lemma hold_new_inv own b st :
  room 1 st -> hold_inv own st ->
  hold_inv ((hold_new b st).2 :: own) (hold_new b st).1 /\
  size (holds (hold_new b st).1) = S (size (holds st)).
Proof.
  intros Hr [I1 I2 I3 I4 I5 I6]. unfold hold_new. cbn [fst snd].
  assert (Hf : holds st !! next_addr st = None).
  { destruct (holds st !! next_addr st) eqn:E; [|done]. apply I3 in E. lia. }
  split; [|cbn; by rewrite map_size_insert_None].
  pose proof (hold_count_size b (holds st)) as Hs. unfold room in Hr. split; cbn.
  - intros b'. rewrite hold_count_insert by done. cbn [ibh_buf].
    destruct (decide (b' = b)) as [->|Hn].
    + rewrite lookup_insert_eq, decide_True by done. cbn. specialize (I1 b).
      destruct (buffer_hold_state st !! b) as [hs|]; cbn.
      * destruct I1 as [E _]. rewrite E, as_u_id by (red; lia). lia.
      * rewrite I1, as_u_id by (red; lia). lia.
    + rewrite lookup_insert_ne by done. rewrite decide_False by done. apply I1.
  - intros h. unfold refs_of. rewrite cnt_cons. pose proof (I2 h) as E. unfold refs_of in E.
    destruct (decide (next_addr st = h)) as [<-|Hn].
    + rewrite lookup_insert_eq. cbn. rewrite Hf in E. lia.
    + rewrite lookup_insert_ne by done. lia.
  - intros h x. rewrite lookup_insert. case_decide; [intros [= <-]; cbn; subst; lia|].
    intros Hx%I3. lia.
  - intros b'. rewrite held_snoc. cbn. rewrite hold_count_insert by done. cbn [ibh_buf].
    rewrite I4. case_decide; lia.
  - apply releases_safe_snoc; [done|]. congruence.
  - intros a Ha%I6. lia.
Qed.

Lemma drop_buffer_hold_inv own b st :
  (match buffer_hold_state st !! b with
   | Some hs => bhs_count hs = Z.of_nat (S (hold_count b (holds st)))
   | None => False
   end) ->
  (forall b', b' <> b -> match buffer_hold_state st !! b' with
    | Some hs => bhs_count hs = Z.of_nat (hold_count b' (holds st)) /\ (0 < hold_count b' (holds st))%nat
    | None => hold_count b' (holds st) = 0%nat end) ->
  (forall h, refs_of (holds st) h = (occ h (slots st) + cnt h own)%nat) ->
  (forall h x, holds st !! h = Some x -> (0 < ibh_refs x)%nat /\ (h < next_addr st)%nat) ->
  (forall b', held b' (out st) = Z.of_nat (hold_count b' (holds st))) ->
  releases_safe (out st) -> (forall a, is_Some (slots st !! a) -> (a < next_addr st)%nat) ->
  hold_inv own (drop_buffer_hold b st).
Proof.
  intros C O R P H Hs Hsl. unfold drop_buffer_hold.
  destruct (buffer_hold_state st !! b) as [hs|] eqn:E; [|done]. cbv zeta.
  rewrite C. replace (Z.max 0 (Z.of_nat (S (hold_count b (holds st))) - 1))
    with (Z.of_nat (hold_count b (holds st))) by lia.
  destruct (Z.eqb_spec (Z.of_nat (hold_count b (holds st))) 0) as [Z0|Z0].
  - assert (J : hold_inv own (st <| buffer_hold_state ::= delete b |>)).
    { split; cbn; [|done|done|done|done|done]. intros b'. destruct (decide (b' = b)) as [->|].
      - rewrite lookup_delete_eq. lia.
      - rewrite lookup_delete_ne by done. by apply O. }
    case_match; [|done]. apply do_release_inv; [|done]. cbn. lia.
  - split; cbn; [|done|done|done|done|done]. intros b'. destruct (decide (b' = b)) as [->|].
    + rewrite lookup_insert_eq. cbn. lia.
    + rewrite lookup_insert_ne by done. by apply O.
Qed.

Lemma hold_drop_inv own h st : hold_inv (h :: own) st -> hold_inv own (hold_drop h st).
Proof.
  intros [I1 I2 I3 I4 I5 I6]. unfold hold_drop.
  pose proof (I2 h) as Eh. rewrite cnt_cons, decide_True in Eh by done. unfold refs_of in Eh.
  destruct (holds st !! h) as [x|] eqn:Ex; [|lia].
  destruct (ibh_refs x) as [|[|n]] eqn:Er; [lia| |].
  - eapply hold_inv_still; [apply still_wake|]. pose proof (I1 (ibh_buf x)) as C.
    assert (D : forall b, hold_count b (holds st) = ((if decide (ibh_buf x = b) then 1 else 0) + hold_count b (delete h (holds st)))%nat)
      by (intros; by apply hold_count_delete).
    apply drop_buffer_hold_inv; cbn.
    + specialize (D (ibh_buf x)). rewrite decide_True in D by done.
      destruct (buffer_hold_state st !! ibh_buf x); [destruct C; lia|lia].
    + intros b' Hb. specialize (D b'). rewrite decide_False in D by done.
      specialize (I1 b'). destruct (buffer_hold_state st !! b'); lia.
    + intros h'. unfold refs_of. pose proof (I2 h') as E. unfold refs_of in E. rewrite cnt_cons in E.
      destruct (decide (h = h')) as [<-|].
      * rewrite lookup_delete_eq. rewrite Ex, Er in E. lia.
      * rewrite lookup_delete_ne by done. lia.
    + intros h' y Hy. apply (I3 h'). by apply lookup_delete_Some in Hy as [_ ?].
    + intros b'. rewrite held_snoc. cbn. specialize (D b'). rewrite I4. case_decide; lia.
    + apply releases_safe_snoc; [done|]. congruence.
    + done.
  - split; cbn; [| | | |done|done].
    + intros b. rewrite (hold_count_same b h x) by done. apply I1.
    + intros h'. unfold refs_of. pose proof (I2 h') as E. unfold refs_of in E. rewrite cnt_cons in E.
      destruct (decide (h = h')) as [<-|].
      * rewrite lookup_insert_eq. cbn. rewrite Ex, Er in E. lia.
      * rewrite lookup_insert_ne by done. lia.
    + intros h' y. rewrite lookup_insert. case_decide; [intros [= <-]; subst; split; [cbn; lia|by eapply I3]|].
      apply I3.
    + intros b. rewrite (hold_count_same b h x) by done. apply I4.
Qed.

(** ** Tasks and slots *)

Lemma holds_do_release b st : holds (do_release_inner_buffer b st) = holds st.
Proof. unfold do_release_inner_buffer. by repeat case_match. Qed.

Lemma holds_release b st : holds (release_inner_buffer b st) = holds st.
Proof. unfold release_inner_buffer. repeat case_match; cbn; rewrite ?holds_do_release; done. Qed.

Lemma size_hold_drop h st : (size (holds (hold_drop h st)) <= size (holds st))%nat.
Proof.
  assert (D : forall b st, holds (drop_buffer_hold b st) = holds st).
  { intros. unfold drop_buffer_hold. repeat case_match; cbn; rewrite ?holds_do_release; done. }
  unfold hold_drop. destruct (holds st !! h) as [x|] eqn:E; [|done].
  assert (W : forall st, holds (wake_compositor st) = holds st) by done.
  destruct (ibh_refs x) as [|[|n]].
  - rewrite W, D. cbn. rewrite map_size_delete, E. lia.
  - rewrite W, D. cbn. rewrite map_size_delete, E. lia.
  - cbn. rewrite map_size_insert, E. done.
Qed.

(** The task goes, and its references with it. *)
Lemma drop_task_inv own t st : hold_inv (task_holds t ++ own) st -> hold_inv own (drop_task t st).
Proof.
  unfold drop_task. generalize (task_holds t) as hs. intros hs. revert st.
  induction hs as [|h hs IH]; intros st I; [done|]. cbn. apply IH. by apply hold_drop_inv.
Qed.

Lemma size_drop_task t st : (size (holds (drop_task t st)) <= size (holds st))%nat.
Proof.
  unfold drop_task. apply (for_each_inv (fun s => (size (holds s) <= size (holds st))%nat)); [done|].
  intros h s _ Hs. pose proof (size_hold_drop h s). lia.
Qed.

(** A slot takes over the references of the task. *)
Lemma slot_store_inv own own' a sl sl' st :
  slots st !! a = Some sl -> hold_inv own st ->
  (forall h, (cnt h (slot_refs sl') + cnt h own' = cnt h own + cnt h (slot_refs sl))%nat) ->
  hold_inv own' (st <| slots ::= insert a sl' |>).
Proof.
  intros E [I1 I2 I3 I4 I5 I6] Hc. split; cbn; [done| |done|done|done|].
  2:{ intros b. rewrite lookup_insert. case_decide; [intros _; subst; apply I6; eauto|apply I6]. }
  intros h. pose proof (occ_insert h a sl sl' (slots st) E). specialize (Hc h). rewrite I2. lia.
Qed.

Lemma slot_put_inv own a t st :
  hold_inv (task_holds t ++ own) st -> hold_inv own (slot_put a t st).
Proof.
  intros I. unfold slot_put. destruct (slots st !! a) as [sl|] eqn:E; [|by apply drop_task_inv].
  cbv zeta. destruct (slot_inner sl) as [old|] eqn:Eo.
  - apply drop_task_inv. eapply slot_store_inv; [done|done|]. intros h. unfold slot_refs. rewrite Eo.
    cbn [slot_inner]. rewrite !cnt_app. lia.
  - eapply slot_store_inv; [done|done|]. intros h. unfold slot_refs. rewrite Eo.
    cbn [slot_inner]. rewrite !cnt_app, cnt_nil. lia.
Qed.

Lemma size_slot_put a t st : (size (holds (slot_put a t st)) <= size (holds st))%nat.
Proof.
  unfold slot_put. destruct (slots st !! a) as [sl|]; [|apply size_drop_task]. cbv zeta.
  case_match; [|done]. etransitivity; [apply size_drop_task|]. done.
Qed.

Lemma slot_take_inv own a st :
  hold_inv own st ->
  hold_inv (match (slot_take a st).2 with Some t => task_holds t | None => [] end ++ own) (slot_take a st).1.
Proof.
  intros I. unfold slot_take. destruct (slots st !! a) as [sl|] eqn:E; [|done]. cbn [fst snd].
  eapply slot_store_inv; [done|done|]. intros h. unfold slot_refs. cbn.
  destruct (slot_inner sl); rewrite !cnt_app, cnt_nil; lia.
Qed.

Lemma hold_clone_inv own h st : h ∈ own -> hold_inv own st -> hold_inv (h :: own) (hold_clone h st).
Proof.
  intros Hh [I1 I2 I3 I4 I5 I6]. unfold hold_clone.
  assert (Hc : (0 < cnt h own)%nat).
  { clear -Hh. induction own as [|x own IH]; [set_solver|]. rewrite cnt_cons. case_decide; [lia|].
    assert (h ∈ own) by set_solver. specialize (IH H0). lia. }
  pose proof (I2 h) as Eh. unfold refs_of in Eh. destruct (holds st !! h) as [x|] eqn:Ex; [|lia].
  set (y := {| ibh_buf := ibh_buf x; ibh_refs := S (ibh_refs x) |}).
  assert (Ea : alter (fun x => {| ibh_buf := ibh_buf x; ibh_refs := S (ibh_refs x) |}) h (holds st) = <[h := y]> (holds st)).
  { symmetry. exact (insert_alter (holds st) h (fun x => {| ibh_buf := ibh_buf x; ibh_refs := S (ibh_refs x) |}) x Ex). }
  split; cbn; rewrite ?Ea; [| | | |done|done].
  - intros b. rewrite (hold_count_same b h x) by done. apply I1.
  - intros h'. unfold refs_of. rewrite cnt_cons. pose proof (I2 h') as E. unfold refs_of in E.
    destruct (decide (h = h')) as [<-|].
    + rewrite lookup_insert_eq. cbn. rewrite Ex in E. lia.
    + rewrite lookup_insert_ne by done. lia.
  - intros h' z. rewrite lookup_insert. case_decide; [intros [= <-]; subst; split; [cbn; lia|by eapply I3]|].
    apply I3.
  - intros b. rewrite (hold_count_same b h x) by done. apply I4.
Qed.

Lemma clone_task_inv own t st :
  hold_inv (task_holds t ++ own) st -> hold_inv (task_holds t ++ task_holds t ++ own) (clone_task t st).
Proof.
  unfold clone_task. generalize (task_holds t) as hs. intros hs.
  assert (G : forall hs' own' st, (forall h, h ∈ hs' -> h ∈ own') -> hold_inv own' st ->
    hold_inv (hs' ++ own') (for_each hs' hold_clone st)).
  { induction hs' as [|h hs' IH]; intros own' st' Hin I; [done|]. cbn.
    eapply hold_inv_own; [|apply (IH (h :: own')); [|apply hold_clone_inv; [|exact I]]].
    - intros h'. rewrite !cnt_app, !cnt_cons, cnt_app. lia.
    - set_solver.
    - set_solver. }
  apply G. set_solver.
Qed.

Lemma try_push_inv own t st :
  hold_inv (task_holds t ++ own) st -> hold_inv own (try_push_recording t st).
Proof.
  intros I. unfold try_push_recording. destruct (recording st) as [d|]; [|by apply drop_task_inv].
  case_match; [by apply drop_task_inv|]. apply slot_put_inv.
  destruct (drh_secondary d); [|done]. case_match; [done|].
  apply slot_put_inv. by apply clone_task_inv.
Qed.

(** ** The tap *)

(** The invariant holds afterwards, with at most [n] more holds. *)
Definition grows (n : nat) (own : list nat) (st st' : State) : Prop :=
  hold_inv own st' /\ (size (holds st') <= size (holds st) + n)%nat.

Definition grows_res (n : nat) (own : list nat) (st : State) (r : result State stop) : Prop :=
  match r with Ok st' => grows n own st st' | Err _ => True end.

Lemma grows_put own a t n st st' :
  hold_inv (task_holds t ++ own) st' -> (size (holds st') <= size (holds st) + n)%nat ->
  grows n own st (slot_put a t st').
Proof. intros I Hs. split; [by apply slot_put_inv|]. pose proof (size_slot_put a t st'). lia. Qed.

Lemma put_dmabuf_inv own slot b dma st :
  room 1 st -> hold_inv own st -> grows 1 own st (put_dmabuf slot b dma st).
Proof.
  intros Hr I. unfold put_dmabuf. destruct (hold_new_inv own b st Hr I) as [I1 S1].
  destruct (hold_new b st) as [st1 h]. cbn [fst snd] in *. apply grows_put; [done|]. lia.
Qed.

Lemma put_readback_inv own slot b w h stride rb nv st :
  room 1 st -> hold_inv own st -> grows_res 1 own st (put_readback slot b w h stride rb nv st).
Proof.
  intros Hr I. unfold put_readback. destruct (hold_new_inv own b st Hr I) as [I1 S1].
  destruct (hold_new b st) as [st1 hd]. cbn [fst snd] in *.
  assert (D : forall st2, hold_inv (hd :: own) st2 -> (size (holds st2) <= size (holds st1))%nat ->
    grows 1 own st (hold_drop hd st2)).
  { intros st2 I2 S2. split; [by apply hold_drop_inv|]. pose proof (size_hold_drop hd st2). lia. }
  cbv zeta. case_match; [by apply D|]. destruct rb as [raw|]; [|by apply D].
  destruct (destride_bgra _ _ _ _); [|done]. apply D; [|apply size_slot_put].
  by apply slot_put_inv.
Qed.

Lemma push_focused_inv own s slot c st :
  room 1 st -> hold_inv own st -> grows_res 1 own st (push_focused_buffer_to_recording s slot c st).
Proof.
  intros Hr I. assert (K : grows 1 own st st) by (split; [done|lia]).
  unfold push_focused_buffer_to_recording.
  assert (R : grows_res 1 own st (let? r := read_surface_buffer_for_recording st s in
    match r with Some (pixels, w, h) => Ok (slot_put slot (TaskPixels pixels w h) st) | None => Ok st end)).
  { destruct (read_surface_buffer_for_recording st s) as [[[[px w] h]|]|]; [|done|done].
    apply grows_put; [done|lia]. }
  destruct (surface_buffer st s) as [[b bf]|]; [|done].
  destruct (buf_kind bf); [exact R| |exact R|exact K].
  destruct (wants_dmabuf c || _); [by apply put_dmabuf_inv|by apply put_readback_inv].
Qed.

Lemma room_grows n own st st' : room (Z.of_nat (S n)) st -> grows 1 own st st' -> room (Z.of_nat n) st'.
Proof. unfold room. intros H [_ S]. lia. Qed.

(** The encoders in turn. *)
Lemma push_all_inv own s (encs : list (nat * RecordingCodec)) st :
  room (Z.of_nat (length encs)) st -> hold_inv own st ->
  grows_res (length encs) own st
    (for_each_in encs (fun e => push_focused_buffer_to_recording s e.1 e.2) st).
Proof.
  revert st. induction encs as [|e encs IH]; intros st Hr I; cbn [for_each_in].
  - split; [done|lia].
  - assert (Hr1 : room 1 st) by (unfold room in *; cbn in Hr; lia).
    pose proof (push_focused_inv own s e.1 e.2 st Hr1 I) as G.
    destruct (push_focused_buffer_to_recording s e.1 e.2 st) as [st1|]; [|done]. cbn [grows_res] in G.
    specialize (IH st1 (room_grows (length encs) own st st1 Hr G) (proj1 G)).
    destruct (for_each_in encs _ st1) as [st2|]; [|done]. destruct G, IH. split; [done|]. cbn. lia.
Qed.

Lemma tap_encoders_length st mode encs : tap_encoders st = Some (mode, encs) -> (length encs <= 3)%nat.
Proof.
  unfold tap_encoders. intros H. repeat case_match; simplify_eq; cbn in *; simplify_eq; cbn; lia.
Qed.

Section Tap.
Context {HO : HashOrder} {CR : CursorReader}.

Lemma tap_inv own fuel s a st :
  room 3 st -> hold_inv own st -> grows_res 3 own st (maybe_tap_for_recording fuel s a st).
Proof.
  intros Hr I. assert (K : grows 3 own st st) by (split; [done|lia]).
  unfold maybe_tap_for_recording. destruct (tap_encoders st) as [[mode encs]|] eqn:E; [|done].
  apply tap_encoders_length in E.
  assert (P : forall l, (length l <= 3)%nat -> grows_res 3 own st
    (for_each_in l (fun e => push_focused_buffer_to_recording s e.1 e.2) st)).
  { intros l Hl. pose proof (push_all_inv own s l st) as G. unfold room in *.
    destruct (for_each_in l _ st) as [st'|]; [|done]. cbn in *.
    destruct (G ltac:(lia) I) as [G1 G2]. split; [done|lia]. }
  destruct mode.
  - case_match; [done|]. case_match; [done|]. by apply P.
  - specialize (P (filter (fun e => wants_dmabuf e.2 = true) encs)).
    assert (Hl : (length (filter (fun e => wants_dmabuf e.2 = true) encs) <= 3)%nat)
      by (etransitivity; [apply length_filter|done]).
    specialize (P Hl). destruct (for_each_in _ _ st) as [st1|]; [|done]. cbn [grows_res] in P.
    unfold tap_cpu_slots. case_match; [done|]. cbv zeta. case_match; [|done].
    set (st2 := st1 <| last_whole_desktop_capture := Some (clock_ns st1) |>).
    assert (P2 : grows 3 own st st2).
    { destruct P as [P1 P2]. split; [|exact P2]. eapply hold_inv_still; [|exact P1]. still_fields. }
    destruct (capture_desktop fuel st2) as [[[[[px w] h] ?]|]|]; [|done|done]. cbn [grows_res].
    apply (for_each_inv (grows 3 own st)); [done|]. intros slot st3 _ [G1 G2].
    apply grows_put; [exact G1|exact G2].
Qed.
End Tap.

(** ** Operations that leave buffers alone *)

Lemma still_for_each {A} (l : list A) f st : (forall a st, still st (f a st)) -> still st (for_each l f st).
Proof.
  intros H. apply (for_each_inv (still st)); [done|]. intros a s _ Hs. by transitivity s.
Qed.

Lemma still_when b f st : (forall st, still st (f st)) -> still st (when b f st).
Proof. intros H. by destruct b; [apply H|]. Qed.

Create HintDb still discriminated.

(** Peel an operation off from the outside, as for focus. *)
Ltac still_peel :=
  match goal with
  | |- still ?s ?s => reflexivity
  | |- still _ (put _ ?s) => transitivity s; [|apply still_put; by split]
  | |- still _ (when _ _ ?s) => transitivity s; [|apply still_when; intros]
  | |- still _ (for_each _ _ ?s) => transitivity s; [|apply still_for_each; intros]
  | |- still _ (set_field _ _ ?s) => transitivity s; [|still_fields]
  | |- still _ (match _ with _ => _ end) => case_match
  | |- still _ (?f ?s) =>
      lazymatch type of s with State => transitivity s; [|solve [auto 1 with still nocore]] end
  end.
Ltac still_tac := cbv zeta; repeat (still_peel; cbv beta zeta).

#[export] Hint Resolve still_wake : still.

Lemma still_poke st : still st (poke_outer_view st).
Proof. unfold poke_outer_view. still_tac. Qed.

Lemma still_emit b st : still st (emit b st).
Proof. still_fields. Qed.

Lemma still_upd_surf s f st : still st (upd_surf s f st).
Proof. still_fields. Qed.

Lemma still_init id st : still st (init_object id st).
Proof. still_fields. Qed.

Lemma still_gone id st : still st (object_gone id st).
Proof. still_fields. Qed.
#[export] Hint Resolve still_poke still_emit still_upd_surf still_init still_gone : still.

Lemma still_notify_focus fk fp w st :
  (forall s r st, still st (fk s r st)) -> (forall s r st, still st (fp s r st)) ->
  still st (notify_focus fk fp w st).
Proof.
  intros Hk Hp. unfold notify_focus. destruct (windows_by_id st !! w) as [[s c]|]; [|done]. cbv zeta.
  set (st1 := for_each _ (fk s) st). set (st2 := for_each _ (fp s) st1).
  assert (S2 : still st st2).
  { unfold st2. transitivity st1; unfold st1; apply still_for_each; intros; auto. }
  case_match; [|done]. transitivity st2; [done|apply still_wake].
Qed.

Lemma still_enter_keyboard s k st : still st (enter_keyboard s k st).
Proof. unfold enter_keyboard. cbn [next_serial]. still_tac. Qed.

Lemma still_leave_keyboard s k st : still st (leave_keyboard s k st).
Proof. unfold leave_keyboard. cbn [next_serial]. still_tac. Qed.

Lemma still_enter_pointer s p st : still st (enter_pointer s p st).
Proof. unfold enter_pointer, frame_v5. cbn [next_serial]. still_tac. Qed.

Lemma still_leave_pointer s p st : still st (leave_pointer s p st).
Proof. unfold leave_pointer, frame_v5. cbn [next_serial]. still_tac. Qed.
#[export] Hint Resolve still_enter_keyboard still_leave_keyboard still_enter_pointer still_leave_pointer : still.

Lemma still_send_enter w st : still st (send_enter w st).
Proof. apply still_notify_focus; auto with still nocore. Qed.

Lemma still_send_leave w st : still st (send_leave w st).
Proof. apply still_notify_focus; auto with still nocore. Qed.
#[export] Hint Resolve still_send_enter still_send_leave : still.

Lemma still_register_surface w s c st : still st (register_surface w s c st).
Proof. unfold register_surface. still_tac. Qed.

Lemma still_register_no_focus w s c st : still st (register_surface_no_focus w s c st).
Proof. still_fields. Qed.

Lemma still_unregister_surface w st : still st (unregister_surface w st).
Proof. unfold unregister_surface, unregister_toplevel. still_tac. Qed.

Lemma still_late_enter f c r st : (forall s r st, still st (f s r st)) -> still st (late_enter f c r st).
Proof. intros H. unfold late_enter. still_tac; done. Qed.

Lemma still_register_keyboard c k st : still st (register_keyboard c k st).
Proof.
  unfold register_keyboard. transitivity (st <| keyboards ::= push_entry c k |>); [still_fields|].
  apply still_late_enter. intros. apply still_enter_keyboard.
Qed.

Lemma still_register_pointer c p st : still st (register_pointer c p st).
Proof.
  unfold register_pointer. transitivity (st <| pointers ::= push_entry c p |>); [still_fields|].
  apply still_late_enter. intros. apply still_enter_pointer.
Qed.

Lemma still_notify_plasma f w st : (forall n, still_out (f n)) -> still st (notify_plasma f w st).
Proof. intros H. unfold notify_plasma. apply still_for_each. intros. by apply still_put. Qed.

Lemma still_add_window pid g st : still st (add_window pid g st).1.
Proof. unfold add_window, notify_plasma_window_created. cbn [fst]. still_tac. Qed.

Lemma still_remove_window w st : still st (remove_window w st).1.
Proof.
  unfold remove_window. cbv zeta. case_match; cbn [fst]; [|still_tac].
  still_tac; (etransitivity; [|apply still_notify_plasma; by split]); still_tac.
Qed.
#[export] Hint Resolve still_register_surface still_register_no_focus still_unregister_surface
  still_register_keyboard still_register_pointer : still.

Lemma still_teardown w st : still st (toplevel_teardown w st).
Proof. unfold toplevel_teardown. etransitivity; [|apply still_remove_window]. still_tac. Qed.
#[export] Hint Resolve still_teardown : still.

Lemma still_layer_teardown s st : still st (layer_teardown s st).
Proof. unfold layer_teardown. still_tac. Qed.

Lemma still_map_layer s c st : still st (map_layer s c st).
Proof.
  unfold map_layer. destruct (surfs st !! s) as [sd|]; [|done]. case_match; [|done]. cbn [snapshot]. cbv zeta.
  set (g := {| rect_x := 0; rect_y := 0; rect_width := _; rect_height := _ |}).
  pose proof (still_add_window (-1) g st) as A. destruct (add_window (-1) g st) as [st1 wid]. cbn [fst] in A.
  etransitivity; [exact A|]. still_tac.
Qed.
#[export] Hint Resolve still_layer_teardown still_map_layer : still.

Lemma still_register_toplevel w xs tl st : still st (register_toplevel w xs tl st).
Proof. still_fields. Qed.
#[export] Hint Resolve still_register_toplevel : still.

Lemma still_get_toplevel c pid s xs tl st : still st (get_toplevel c pid s xs tl st).
Proof.
  unfold get_toplevel. cbn [snapshot comp_next_serial]. cbv zeta.
  set (g := {| rect_x := 0; rect_y := 0; rect_width := _; rect_height := _ |}).
  pose proof (still_add_window pid g st) as A. destruct (add_window pid g st) as [st1 wid]. cbn [fst] in A.
  etransitivity; [exact A|]. still_tac.
Qed.

Lemma still_get_keyboard km c k st : still st (get_keyboard km c k st).
Proof. unfold get_keyboard. destruct (get_keymap km _) as [fd n]. still_tac. Qed.

Lemma still_record_damage st : still st (record_damage st).
Proof. unfold record_damage. still_tac. Qed.

Lemma still_ready_callbacks s st : still st (ready_callbacks s st).
Proof. unfold ready_callbacks, queue_frame_callback. still_tac. Qed.
#[export] Hint Resolve still_get_keyboard still_record_damage still_ready_callbacks : still.

Section Ordered.
Context {HO : HashOrder} {CR : CursorReader}.

Lemma still_resize w h st : still st (Session.resize w h st).
Proof. unfold Session.resize, readvertise, reconfigure. cbn [next_serial]. still_tac. Qed.

Lemma still_update_keymap fd n st : still st (update_keymap fd n st).
Proof. unfold update_keymap. still_tac. Qed.

Lemma still_drain_callbacks st : still st (drain_frame_callbacks st).
Proof. unfold drain_frame_callbacks, fire_callback. still_tac. Qed.

Lemma still_drain_feedbacks st : still st (drain_presentation_feedbacks st).
Proof. unfold drain_presentation_feedbacks, fire_feedback. still_tac. Qed.

Lemma still_poke_surfaces v st : still st (poke_client_surfaces v st).
Proof. unfold poke_client_surfaces. still_tac. Qed.

Lemma still_bind_plasma m st : still st (bind_plasma m st).
Proof. unfold bind_plasma, register_plasma_manager. still_tac. Qed.

Lemma still_get_plasma_window w n st : still st (get_plasma_window w n st).
Proof. unfold get_plasma_window, register_plasma_window. still_tac. Qed.

Definition still_res {A} (f : A -> State) (st : State) (r : result A stop) : Prop :=
  match r with Ok a => still st (f a) | Err _ => True end.

Lemma still_cursor st : still_res id st (note_cursor_dirty st).
Proof. unfold note_cursor_dirty, queue_cursor. repeat case_match; cbn; still_tac; done. Qed.

Lemma still_screencopy fuel f d b st : still_res fst st (screencopy_copy fuel f d b st).
Proof.
  unfold screencopy_copy. cbv zeta. repeat case_match; cbn [still_res fst]; try done; still_tac.
Qed.
End Ordered.

Lemma still_clipboard offer st : still st (drain_clipboard offer st).
Proof. unfold drain_clipboard. still_tac. Qed.

Lemma still_bind_output o st : still st (bind_output o st).
Proof. unfold bind_output, register_output. cbn [snapshot]. still_tac. Qed.

Lemma still_take_pending s st : still st (take_pending s st).1.
Proof. unfold take_pending. case_match; cbn [fst]; [still_tac|done]. Qed.

Lemma still_set_title w x st : still st (set_title w x st).
Proof.
  unfold set_title, notify_plasma_window_title. still_tac.
  etransitivity; [|apply still_notify_plasma; by split]. still_tac.
Qed.

Lemma still_set_app_id w x st : still st (set_app_id w x st).
Proof.
  unfold set_app_id, notify_plasma_window_app_id. still_tac.
  etransitivity; [|apply still_notify_plasma; by split]. still_tac.
Qed.

Lemma still_inject_key kc pr d la lo g st : still st (inject_key kc pr d la lo g st).1.
Proof. unfold inject_key. cbn [next_serial]. cbv zeta. repeat case_match; cbn [fst]; still_tac. Qed.

Lemma still_axis src h v sh sv st : still st (inject_axis src h v sh sv st).1.
Proof. unfold inject_axis, axis_events. repeat case_match; cbn [fst]; still_tac. Qed.

Lemma still_relative a b c d e f st : still st (inject_relative_pointer a b c d e f st).
Proof. unfold inject_relative_pointer. still_tac. Qed.

Lemma still_place content w x y st st' p : place content w x y st = Ok (st', p) -> still st st'.
Proof.
  unfold place, window_content_inset. intros H. repeat case_match; simplify_eq; still_tac; done.
Qed.

Lemma still_pointer_events x y b pr ax ay tm p st : still st (pointer_events x y b pr ax ay tm p st).
Proof. unfold pointer_events. cbn [next_serial]. still_tac. Qed.

Lemma still_touch_events s i x y ph tm t st : still st (touch_events s i x y ph tm t st).
Proof. unfold touch_events. cbn [next_serial]. still_tac. Qed.
#[export] Hint Resolve still_pointer_events still_touch_events : still.

Lemma still_inject_pointer w c x y b pr ax ay sq st st' d :
  inject_pointer w c x y b pr ax ay sq st = Ok (st', d) -> still st st'.
Proof.
  unfold inject_pointer, record_cursor_pos. intros H. repeat case_match; simplify_eq; try done;
    (etransitivity; [by eapply still_place|]); still_tac.
Qed.

Lemma still_inject_touch w c i x y ph st st' d :
  inject_touch w c i x y ph st = Ok (st', d) -> still st st'.
Proof.
  unfold inject_touch. intros H. repeat case_match; simplify_eq; try done;
    (etransitivity; [by eapply still_place|]); still_tac.
Qed.

(** ** Releases in bulk, and the commit *)

Lemma release_list_inv own bs st : hold_inv own st -> hold_inv own (for_each bs release_inner_buffer st).
Proof. intros I. apply (for_each_inv (hold_inv own)); [done|]. intros. by apply release_inner_buffer_inv. Qed.

Lemma hold_inv_fields own st st' : hold_inv own st -> still st st' -> hold_inv own st'.
Proof. intros I S. by eapply hold_inv_still. Qed.

Lemma flush_inv own st : hold_inv own st -> hold_inv own (flush_pending_releases st).
Proof.
  intros I. unfold flush_pending_releases. cbn [take_pending_releases].
  assert (J : hold_inv own (for_each (pending_dmabuf_releases st) release_inner_buffer
    (st <| pending_dmabuf_releases := [] |>))).
  { apply release_list_inv. eapply hold_inv_fields; [exact I|still_fields]. }
  case_match; [|done]. eapply hold_inv_fields; [exact J|apply still_wake].
Qed.

Lemma set_outer_inv own fd st : hold_inv own st -> hold_inv own (set_outer_wake_fd fd st).
Proof.
  intros I. unfold set_outer_wake_fd. cbv zeta.
  assert (J : hold_inv own (st <| outer_wake_fd := fd |>)) by (eapply hold_inv_fields; [exact I|still_fields]).
  case_match; [done|]. eapply hold_inv_fields; [|apply still_emit]. case_match; [done|by apply flush_inv].
Qed.

Lemma promote_inv own s pt st : hold_inv own st -> hold_inv own (promote_buffer s pt st).1.
Proof.
  intros I. unfold promote_buffer, note_buffer_release_point, queue_deferred_release.
  destruct (surfs st !! s) as [sd|]; [|done]. destruct (pending_buffer sd) as [nb|]; [|done]. cbv zeta.
  set (st1 := upd_surf s _ st).
  assert (J1 : hold_inv own st1) by (eapply hold_inv_fields; [exact I|apply still_upd_surf]).
  set (st2 := match current_buffer sd with Some p => _ | None => st1 end).
  assert (J2 : hold_inv own st2).
  { unfold st2. destruct (current_buffer sd); [|done]. case_match; [done|by apply release_inner_buffer_inv]. }
  set (st3 := match pt with Some _ => _ | None => st2 end).
  assert (J3 : hold_inv own st3).
  { unfold st3. destruct pt; [|done]. eapply hold_inv_fields; [exact J2|still_fields]. }
  destruct (_ && _); cbn [fst]; [|done]. eapply hold_inv_fields; [exact J3|still_fields].
Qed.

Lemma holds_promote s pt st : holds (promote_buffer s pt st).1 = holds st.
Proof.
  unfold promote_buffer. destruct (surfs st !! s) as [sd|]; [|done].
  destruct (pending_buffer sd) as [nb|]; [|done]. cbv zeta.
  set (st2 := match current_buffer sd with Some p => _ | None => _ end).
  assert (E : holds st2 = holds st).
  { unfold st2. destruct (current_buffer sd); [|done]. case_match; [done|]. by rewrite holds_release. }
  destruct pt; destruct (_ && _); exact E.
Qed.

Lemma commit_hold_inv {HO : HashOrder} {CR : CursorReader} own fuel s c waited st st' :
  room 3 st -> surface_commit fuel s c waited st = Ok st' -> hold_inv own st -> hold_inv own st'.
Proof.
  intros Hr H I. unfold surface_commit in H.
  pose proof (still_take_pending s st) as S1. destruct (take_pending s st) as [st1 [acq rel]]. cbn [fst] in S1.
  pose proof (promote_inv own s rel st1 (hold_inv_still own _ _ S1 I)) as I2.
  pose proof (holds_promote s rel st1) as H2.
  destruct (promote_buffer s rel st1) as [st2 to_release]. cbn [fst] in I2, H2. cbv zeta in H.
  pose proof (tap_inv own fuel s (match acq with Some _ => waited | None => true end) st2
    ltac:(unfold room in *; rewrite H2, (sl_holds _ _ S1); done) I2) as G.
  destruct (maybe_tap_for_recording _ _ _ _) as [st3|]; [|done]. destruct G as [I3 _].
  set (st4 := match to_release with Some b => release_inner_buffer b st3 | None => st3 end) in H.
  assert (I4 : hold_inv own st4) by (unfold st4; destruct to_release; [by apply release_inner_buffer_inv|done]).
  assert (S5 : still_res id st4 (if is_cursor st4 s then note_cursor_dirty st4 else Ok st4))
    by (destruct (is_cursor st4 s); [apply still_cursor|cbn; reflexivity]).
  destruct (if is_cursor st4 s then _ else _) as [st5|]; [|done]. cbn in S5. injection H as <-.
  eapply hold_inv_fields; [exact I4|]. rewrite S5. still_tac.
Qed.
