(* ===== verification/Control.v ===== *)
(** * The session's control socket
    ([crates/waymux-session/src/control.rs], with the parts of [recording.rs],
    [viewer/bridge.rs] and [viewer/encoder.rs] it calls)

    One definition per method, the dispatcher, and the loop of a connection. What
    the process asks of its surroundings while it serves a request, environment
    variables, files, child processes and threads, is the class [CtlEnv]. The
    reply of a method is a value of [reply]; [respond] makes the wire response. *)

From Stdlib Require Import ZArith Lia Ascii.
From stdpp Require Import prelude strings gmap list pretty.
From S2P Require Import Prelude Words Codec Messages Sys Server.
From S2P Require Import Floats Composite Pixels Session SessionInput SessionRecord Compositor.

Open Scope Z_scope.

(** ** Surroundings *)

Class CtlEnv := {
  getenv : string -> option string;
  pw_dir : option string;                  (* [getpwuid(getuid())], when readable *)
  getuid : Z;
  create_dir_all : nat -> option string;   (* the error of the [n]-th call *)
  now_secs : Z;
  ffmpeg_found : bool;
  ffmpeg_knows : string -> result bool string;
  path_exists : string -> bool;
  is_file : string -> bool;
  current_exe_dir : option string;
  vk_open : result (bool * string) string; (* Hi444 support and device name *)
  thread_spawn : nat -> option string;     (* the error of the [n]-th spawn *)
  cuda_loads : bool;
  nvenc_loads : bool;
  vulkan_h264 : bool;
  bind_listener : string -> option string;
  ephemeral_port : result Z string;
  spawn_child : string -> list string -> result nat string;
  accept_bridge : option string;
  clone_socket : option string;
  try_wait : nat -> result bool unit;      (* exited? at the [n]-th poll *)
  elapsed_ms : nat -> Z;                   (* since the signal, after that poll *)
  png_encode : Z -> Z -> bool -> list Z -> result (list Z) string;
}.

(** ** Paths as strings *)

Definition is_absolute (p : string) : bool := starts_with "/" p.

Definition ends_with_slash (p : string) : bool :=
  match rev (String.list_ascii_of_string p) with "/"%char :: _ => true | _ => false end.

(** [Path::join] *)
Definition join (p s : string) : string :=
  if is_absolute s then s
  else if (p =? "")%string || ends_with_slash p then (p +:+ s)%string
  else (p +:+ "/" +:+ s)%string.

(** [Path::starts_with] of an absolute path: component by component. *)
Definition path_inside (dir p : string) : bool :=
  is_absolute dir && bool_decide (path_components dir `prefix_of` path_components p).

(** The split of a file name at its last dot: [file_stem] and [extension]. *)
Fixpoint split_last_dot (l : list ascii) : option (list ascii * list ascii) :=
  match l with
  | [] => None
  | c :: l' =>
      match split_last_dot l' with
      | Some (a, b) => Some (c :: a, b)
      | None => if Ascii.eqb c "." then Some ([], l') else None
      end
  end.

Definition stem_ext (name : string) : string * option string :=
  match split_last_dot (String.list_ascii_of_string name) with
  | None | Some ([], _) => (name, None)
  | Some (a, b) => (String.string_of_list_ascii a, Some (String.string_of_list_ascii b))
  end.

(** [Path::parent] of an absolute path, as the string it borrows: the pieces up to
    the last component, without separators and dots at its end. *)
Fixpoint trim_pieces (l : list string) : list string :=
  match l with
  | [] => []
  | c :: l' => if (c =? "")%string || (c =? ".")%string then trim_pieces l' else l
  end.

Fixpoint join_pieces (l : list string) : string :=
  match l with
  | [] => ""
  | [c] => c
  | c :: l' => (c +:+ "/" +:+ join_pieces l')%string
  end.

Definition parent (p : string) : option string :=
  match trim_pieces (rev (split_on "/"%char p)) with
  | [] => None
  | _ :: up =>
      match trim_pieces up with
      | [] => Some (if is_absolute p then "/" else "")%string
      | l => Some (join_pieces (rev l))
      end
  end.

(** The component a path ends in, unless it is [".."]. *)
Definition file_name (p : string) : option string := path_file_name (path_components p).

(** ["out.mkv"] becomes ["out.secondary.mkv"]. *)
Definition secondary_path_of (primary_path : string) : string :=
  match parent primary_path, stem_ext <$> file_name primary_path with
  | Some dir, Some (stem, Some ext) => join dir (stem +:+ ".secondary." +:+ ext)%string
  | _, _ => (primary_path +:+ ".secondary")%string
  end.

Section Control.
Context {CE : CtlEnv} {HO : HashOrder} {CR : CursorReader}.

(** ** Where recordings go ([recording.rs]) *)

Definition home_dir : string :=
  match getenv "HOME" with
  | Some h => if (h =? "")%string then default "/tmp"%string pw_dir else h
  | None => default "/tmp"%string pw_dir
  end.

(** The [n]-th time the directory is created in this request. *)
Definition recordings_dir (n : nat) : result string string :=
  let dir := join home_dir ".local/share/waymux/recordings" in
  match create_dir_all n with
  | Some e => Err ("create recordings dir: " +:+ e)%string
  | None => Ok dir
  end.

Definition default_recording_path (session_name : string) : result string string :=
  let? dir := recordings_dir 0 in
  Ok (join dir (session_name +:+ "-" +:+ pretty now_secs +:+ ".mkv")%string).

(** The closure [validate] of [RecordStart]. *)
Definition validate (n : nat) (path : string) : result unit string :=
  if negb (is_absolute path) then Err "recording path must be absolute"%string
  else if existsb (fun c => (c =? "..")%string) (path_components path)
  then Err "recording path must not contain '..'"%string
  else
    let? allowed := recordings_dir n in
    if negb (path_inside allowed path)
    then Err ("recording path must be inside " +:+ allowed)%string
    else Ok ().

(** ** Probes *)

Definition quoted (s : string) : string :=
  String "034" (s +:+ String "034" EmptyString)%string.

Definition probe_ffmpeg : result unit string :=
  if ffmpeg_found then Ok ()
  else Err "ffmpeg not found in PATH — install ffmpeg to use recording"%string.

Definition encoder_name (c : RecordingCodec) : string :=
  match c with
  | Ffv1 => "ffv1"
  | X264Lossless => "libx264rgb"
  | H264Nvenc => "h264_nvenc"
  | H264Vaapi => "h264_vaapi"
  | H264Vulkan => "h264-vulkan"
  | Ffv1Vulkan => "ffv1-vulkan"
  | H264VulkanLossless => "h264-vulkan-lossless"
  | HevcVulkanLossless => "hevc-vulkan-lossless"
  | CudaNvenc => "h264_nvenc"
  end.

Definition probe_codec (c : RecordingCodec) : result unit string :=
  match c with
  | H264Vulkan | H264VulkanLossless | HevcVulkanLossless => Ok ()
  | _ =>
      let encoder := encoder_name c in
      match ffmpeg_knows encoder with
      | Err e => Err ("probe ffmpeg encoder=" +:+ encoder +:+ ": " +:+ e)%string
      | Ok false =>
          Err ("encoder " +:+ quoted encoder +:+ " not available in this ffmpeg build — " +:+
               "install an ffmpeg with the matching codec, or pick a different --codec value")%string
      | Ok true =>
          if bool_decide (c = H264Vaapi) && negb (path_exists "/dev/dri/renderD128")
          then Err ("h264-vaapi requires /dev/dri/renderD128 — host has no DRM render " +:+
                    "node available; either grant the daemon access to it or pick a " +:+
                    "different --codec")%string
          else Ok ()
      end
  end.

(** ** Recording threads *)

(** The [n]-th thread of the request: a new slot and a new stop flag. *)
Definition spawn_recording_thread (n : nat) (path : string) (codec : RecordingCodec)
    (mode : CaptureMode) (min_fps : option Z) (st : State) : State * result RecordingHandle string :=
  let refusal :=
    match codec with
    | HevcVulkanLossless =>
        match vk_open with
        | Ok (false, device) =>
            Some ("hevc-vulkan-lossless requires Vulkan-video HEVC 4:4:4 (Hi444) caps, " +:+
                  "not exposed by this device (" +:+ device +:+ "); use ffv1-vulkan or " +:+
                  "h264-vulkan-lossless for lossless capture on this GPU")%string
        | Ok (true, _) => None
        | Err e => Some ("hevc-vulkan-lossless: cannot open a Vulkan device to verify caps: " +:+ e)%string
        end
    | _ => None
    end in
  match refusal with
  | Some e => (st, Err e)
  | None =>
      let slot := next_addr st in
      let stop := S slot in
      match thread_spawn n with
      | Some e => (st <| next_addr := S stop |>, Err ("spawn recording thread: " +:+ e)%string)
      | None =>
          (put (RecorderSpawned slot codec path min_fps)
             (st <| next_addr := S stop |> <| slots ::= insert slot slot_new |>),
           Ok {| rh_stop := stop; rh_slot := slot; rh_mode := mode; rh_codec := codec;
                 rh_path := path |})
      end
  end.

(** ** Replies *)

Inductive reply :=
| RInfo (i : SessionCtlInfo)
| RWindows (w : SessionCtlWindows)
| RScreenshot (s : SessionCtlScreenshot)
| RRecordStarted (r : SessionCtlRecordStarted)
| RRecordStatus (r : RecordStatusResponse)
| RViewerStarted (v : ViewerStarted)
| RViewerStatus (v : ViewerStatusResponse)
| RUnit
| RFailure (msg : string).

Definition info (st : State) : reply :=
  let '(w, h, s) := snapshot st in
  RInfo {| sci_width := w; sci_height := h; sci_scale := s; sci_window_count := window_count st;
           sci_last_damage_ns := last_damage_ns st |}.

Definition delivered_or (msg : string) (delivered : bool) : reply :=
  if delivered then RUnit else RFailure msg.

Definition is_pressed (s : KeyState) : bool := match s with Pressed => true | Released => false end.

(** One operation of a batch; the result says whether it was delivered. *)
Definition inject_op (op : Op.InjectOp) (st : State) : result (State * bool) stop :=
  match op with
  | Op.Key keycode s modifiers => Ok (inject_key keycode (is_pressed s) modifiers 0 0 0 st)
  | Op.Pointer x y button s ax ay window_id content seq =>
      inject_pointer window_id content (f64_of_bits x) (f64_of_bits y) button (is_pressed s)
        (f64_of_bits ax) (f64_of_bits ay) seq st
  | Op.Touch id x y phase window_id content =>
      inject_touch window_id content id (f64_of_bits x) (f64_of_bits y) phase st
  end.

Fixpoint inject_batch (ops : list Op.InjectOp) (delivered_count : nat) (st : State) :
    result (State * nat) stop :=
  match ops with
  | [] => Ok (st, delivered_count)
  | op :: ops' =>
      let? r := inject_op op st in
      let '(st, d) := r in
      inject_batch ops' (if d : bool then S delivered_count else delivered_count) st
  end.

Definition png_error_string (e : png_error) : string :=
  match e with
  | NegativeWidth => "negative width"
  | NegativeHeight => "negative height"
  | NegativeStride => "negative stride"
  | UnsupportedFormat => "unsupported shm format"
  | ShortBuffer => "shm buffer shorter than declared geometry"
  end.

(** [encode_png]: swizzled samples, then the encoder. *)
Definition encode_png (pixels : list Z) (width height stride : Z) (format : Format) :
    result (list Z) string :=
  match png_samples pixels width height stride format with
  | Err e => Err (png_error_string e)
  | Ok (w, h, has_alpha, out) => png_encode w h has_alpha out
  end.

(** The reply to a screenshot, of what was captured. *)
Definition screenshot_reply (none : string) (c : option capture) : reply :=
  match c with
  | None => RFailure none
  | Some (pixels, width, height, stride) =>
      match encode_png pixels width height stride Argb8888 with
      | Ok png => RScreenshot {| scs_width := as_u 32 width; scs_height := as_u 32 height; scs_png := png |}
      | Err e => RFailure ("encode png: " +:+ e)%string
      end
  end.

(** ** Recording *)

(** [RecordStart] after the paths and codecs were accepted: under the lock of
    [recording]. *)
Definition record_launch (fuel : nat) (primary_path : string) (secondary_path : option string)
    (codec : RecordingCodec) (secondary_codec : option RecordingCodec) (mode : CaptureMode)
    (min_fps : option Z) (st : State) : result (State * reply) stop :=
  match recording st with
  | Some _ => Ok (st, RFailure "already recording")
  | None =>
      let '(st, r) := spawn_recording_thread 0 primary_path codec mode min_fps st in
      match r with
      | Err e => Ok (st, RFailure e)
      | Ok primary =>
          let '(st, r2) :=
            match secondary_codec, secondary_path with
            | Some sc, Some sp =>
                let '(st, h) := spawn_recording_thread 1 sp sc mode min_fps st in
                (st, match h with Ok h => Ok (Some h) | Err e => Err e end)
            | _, _ => (st, Ok None)
            end in
          match r2 with
          | Err e =>
              Ok (st <| raised ::= (fun s => {[rh_stop primary]} ∪ s) |>,
                  RFailure ("secondary encoder: " +:+ e)%string)
          | Ok secondary =>
              let st := st <| recording := Some {| drh_primary := primary; drh_secondary := secondary |} |> in
              let? st := prime_recording_first_frame fuel st in
              Ok (st, RRecordStarted {| scr_path := primary_path; scr_secondary_path := secondary_path |})
          end
      end
  end.

(** The checks of [RecordStart] that come before the lock. *)
Definition record_checks (primary_path : string) (secondary_path : option string)
    (codec : RecordingCodec) (secondary_codec : option RecordingCodec) : result unit string :=
  let? _ := validate 1 primary_path in
  let? _ := match secondary_path with Some sp => validate 2 sp | None => Ok () end in
  let? _ := probe_ffmpeg in
  let? _ := probe_codec codec in
  match secondary_codec with
  | Some sc =>
      match probe_codec sc with
      | Err e => Err ("secondary codec: " +:+ e)%string
      | Ok _ => Ok ()
      end
  | None => Ok ()
  end.

Definition record_start (fuel : nat) (path : option string) (codec secondary_codec : option RecordingCodec)
    (mode : option CaptureMode) (min_fps : option Z) (st : State) : result (State * reply) stop :=
  let codec := default Ffv1 codec in
  let mode := default FocusedWindow mode in
  match (match path with Some p => Ok p | None => default_recording_path (st_name st) end) with
  | Err e => Ok (st, RFailure e)
  | Ok primary_path =>
      let secondary_path := (fun _ => secondary_path_of primary_path) <$> secondary_codec in
      match record_checks primary_path secondary_path codec secondary_codec with
      | Err e => Ok (st, RFailure e)
      | Ok _ => record_launch fuel primary_path secondary_path codec secondary_codec mode min_fps st
      end
  end.

(** [stop_both] on the recording that is taken out of the state. *)
Definition take_recording (st : State) : State * bool :=
  match recording st with
  | None => (st, false)
  | Some d => (stop_both d (st <| recording := None |>), true)
  end.

Definition record_stop (st : State) : State * reply :=
  let '(st, was) := take_recording st in
  (st, if was : bool then RUnit else RFailure "not currently recording").

(** [codec_to_kebab]: the name serde gives the variant. *)
Definition codec_to_kebab (c : RecordingCodec) : string :=
  match c with
  | Ffv1 => "ffv1"
  | X264Lossless => "x264-lossless"
  | H264Nvenc => "h264-nvenc"
  | H264Vaapi => "h264-vaapi"
  | H264Vulkan => "h264-vulkan"
  | Ffv1Vulkan => "ffv1-vulkan"
  | H264VulkanLossless => "h264-vulkan-lossless"
  | HevcVulkanLossless => "hevc-vulkan-lossless"
  | CudaNvenc => "cuda-nvenc"
  end.

Definition record_status (st : State) : RecordStatusResponse :=
  match recording st with
  | Some d =>
      {| rsr_recording := true; rsr_path := Some (rh_path (drh_primary d));
         rsr_secondary_path := rh_path <$> drh_secondary d;
         rsr_codec := Some (codec_to_kebab (rh_codec (drh_primary d))) |}
  | None => {| rsr_recording := false; rsr_path := None; rsr_secondary_path := None; rsr_codec := None |}
  end.

(** ** The viewer *)

Definition pick_viewer_codec_with_probes (probes : list (RecordingCodec * bool)) : option RecordingCodec :=
  fst <$> (snd <$> list_find (fun p => p.2 = true) probes).

Definition probe_cuda_nvenc_for_viewer : bool := cuda_loads && nvenc_loads.

Definition probe_h264_nvenc_for_viewer : bool :=
  if negb (path_exists "/dev/nvidia0") && negb (path_exists "/dev/nvidiactl") then false
  else match ffmpeg_knows "h264_nvenc" with Ok b => b | Err _ => false end.

Definition select_viewer_codec : option RecordingCodec :=
  match getenv "WAYMUX_VIEWER_CODEC" with
  | Some forced =>
      if (forced =? "cuda-nvenc")%string then Some CudaNvenc
      else if (forced =? "h264-nvenc")%string then Some H264Nvenc
      else if (forced =? "h264-vaapi")%string || (forced =? "h264-software")%string
              || (forced =? "x264")%string then Some H264Nvenc
      else if (forced =? "h264-vaapi-inproc")%string then Some H264Vaapi
      else if (forced =? "h264-vulkan")%string then Some H264Vulkan
      else None
  | None =>
      pick_viewer_codec_with_probes
        [(CudaNvenc, probe_cuda_nvenc_for_viewer);
         (H264Nvenc, probe_h264_nvenc_for_viewer);
         (H264Vulkan, vulkan_h264)]
  end.

Definition url_for_bind (bind : option string) (port : Z) : string :=
  ("http://" +:+ default "127.0.0.1" bind +:+ ":" +:+ pretty port)%string.

Definition bridge_binary_path : string :=
  match getenv "WAYMUX_NEKO_BRIDGE_BIN" with
  | Some p => p
  | None =>
      let sibling := (fun d => join d "waymux-neko-bridge") <$> current_exe_dir in
      match (s ← sibling; if is_file s then Some s else None) with
      | Some s => s
      | None =>
          match (p ← getenv "PATH";
                 snd <$> list_find (fun c => is_file c = true)
                   ((fun d => join d "waymux-neko-bridge") <$> split_on ":"%char p)) with
          | Some c => c
          | None => "/usr/local/bin/waymux-neko-bridge"
          end
      end
  end.

(** [spawn_bridge]: the child and its url. *)
Definition spawn_bridge (session_name : string) (bind : option string) (port : option Z)
    (width height : Z) (st : State) : State * result (nat * string) string :=
  let bin := bridge_binary_path in
  if negb (path_exists bin) then
    (st, Err ("bridge binary not found at " +:+ quoted bin +:+ "; build crates/waymux-neko-bridge first " +:+
              "(override path with $WAYMUX_NEKO_BRIDGE_BIN)")%string)
  else
    let runtime_dir := default ("/run/user/" +:+ pretty getuid)%string (getenv "XDG_RUNTIME_DIR") in
    let sock_path := (runtime_dir +:+ "/waymux-neko-" +:+ session_name +:+ ".sock")%string in
    match bind_listener sock_path with
    | Some _ => (st, Err ("bind " +:+ sock_path)%string)
    | None =>
        match (match port with
               | Some p => if p =? 0 then ephemeral_port else Ok p
               | None => ephemeral_port
               end) with
        | Err e => (st, Err e)
        | Ok port =>
            let url := url_for_bind bind port in
            let effective_bind :=
              match bind with
              | Some b => b
              | None => default "127.0.0.1"%string (getenv "WAYMUX_VIEWER_DEFAULT_BIND")
              end in
            let argv := ["--bind"; effective_bind; "--port"; pretty port; "--socket"; sock_path;
                         "--width"; pretty width; "--height"; pretty height]%string in
            match spawn_child bin argv with
            | Err e => (st, Err ("spawning " +:+ quoted bin)%string)
            | Ok pid =>
                let st := put (BridgeSpawned bin argv) st in
                match accept_bridge with
                | Some _ => (st, Err "accepting bridge control connection"%string)
                | None => (st, Ok (pid, url))
                end
            end
        end
    end.

(** [ViewerStart]; the spawn of the encoder's thread is an [expect]. *)
Definition viewer_start (bind : option string) (port : option Z) (st : State) :
    result (State * reply) stop :=
  match viewer st with
  | Some _ => Ok (st, RFailure "viewer already active for this session")
  | None =>
      match select_viewer_codec with
      | None => Ok (st, RFailure "no viewer-capable encoder available (probed h264-nvenc, h264-vulkan)")
      | Some codec =>
          let '(w, h, _) := snapshot st in
          let stop_flag := next_addr st in
          let st := st <| next_addr ::= S |> in
          let '(st, b) := spawn_bridge (st_name st) bind port w h st in
          match b with
          | Err e => Ok (st, RFailure ("bridge spawn failed: " +:+ e)%string)
          | Ok (child, url) =>
              match clone_socket with
              | Some e => Ok (st, RFailure ("clone socket: " +:+ e)%string)
              | None =>
                  let slot := next_addr st in
                  let st := st <| next_addr ::= S |> <| slots ::= insert slot slot_new |> in
                  match thread_spawn 0 with
                  | Some _ => Err Panics
                  | None =>
                      let st := put (EncoderSpawned slot codec w h) st in
                      let st := st <| viewer := Some {| vh_url := url; vh_child := Some child;
                                                        vh_stop_flag := stop_flag; vh_codec := codec;
                                                        vh_frame_slot := slot |} |> in
                      Ok (st, RViewerStarted {| vs_url := url |})
                  end
              end
          end
      end
  end.

(** The polls of [kill_viewer_child]: whether it comes to SIGKILL. *)
Fixpoint poll_child (fuel n : nat) : option bool :=
  match fuel with
  | O => None
  | S fuel' =>
      match try_wait n with
      | Ok true | Err _ => Some false
      | Ok false => if 2000 <=? elapsed_ms n then Some true else poll_child fuel' (S n)
      end
  end.

Definition kill_viewer_child (fuel : nat) (child : option nat) (st : State) : result State stop :=
  match child with
  | None => Ok st
  | Some pid =>
      let st := put (ChildTerm pid) st in
      match poll_child fuel 0 with
      | None => Err OutOfFuel
      | Some escalate => Ok (if escalate then put (ChildKill pid) st else st)
      end
  end.

(** The viewer is taken out of the state, its flag raised and its child killed. *)
Definition take_viewer (fuel : nat) (st : State) : result State stop :=
  match viewer st with
  | None => Ok st
  | Some v =>
      let st := st <| viewer := None |> <| raised ::= (fun s => {[vh_stop_flag v]} ∪ s) |> in
      kill_viewer_child fuel (vh_child v) st
  end.

Definition shutdown (fuel : nat) (st : State) : result State stop :=
  let? st := take_viewer fuel (take_recording st).1 in
  Ok (put ShutdownNotified st).

(** ** The dispatcher *)

Definition with_reply (r : reply) (st : result State stop) : result (State * reply) stop :=
  let? s := st in Ok (s, r).

Definition dispatch (fuel : nat) (m : Ctl.SessionCtlMethod) (st : State) : result (State * reply) stop :=
  match m with
  | Ctl.Info => Ok (st, info st)
  | Ctl.ListWindows => Ok (st, RWindows {| scw_windows := windows st |})
  | Ctl.Resize w h => Ok (Session.resize w h st, RUnit)
  | Ctl.InjectKey keycode s modifiers =>
      let? r := inject_op (Op.Key keycode s modifiers) st in
      Ok (r.1, delivered_or "no focused client with a wl_keyboard to deliver the event to" r.2)
  | Ctl.InjectPointer x y button s ax ay window_id content =>
      let? r := inject_op (Op.Pointer x y button s ax ay window_id content 0) st in
      Ok (r.1, delivered_or "no focused client with a wl_pointer to deliver the event to" r.2)
  | Ctl.InjectTouch id x y phase window_id content =>
      let? r := inject_op (Op.Touch id x y phase window_id content) st in
      Ok (r.1, delivered_or "no target client with a wl_touch to deliver the event to" r.2)
  | Ctl.InjectBatch ops => let? r := inject_batch ops 0 st in Ok (r.1, RUnit)
  | Ctl.Screenshot window_id =>
      let? c := capture_window fuel window_id st in
      Ok (st, screenshot_reply ("no committed buffer for window " +:+ pretty window_id) c)
  | Ctl.ScreenshotDesktop =>
      let? c := capture_desktop fuel st in
      Ok (st, screenshot_reply "no windows available to composite" c)
  | Ctl.Shutdown => with_reply RUnit (shutdown fuel st)
  | Ctl.RecordStart path codec secondary_codec mode min_fps =>
      record_start fuel path codec secondary_codec mode min_fps st
  | Ctl.RecordStatus => Ok (st, RRecordStatus (record_status st))
  | Ctl.RecordStop => Ok (record_stop st)
  | Ctl.ViewerStart bind port => viewer_start bind port st
  | Ctl.ViewerStop => with_reply RUnit (take_viewer fuel st)
  | Ctl.ViewerStatus => Ok (st, RViewerStatus {| vsr_url := vh_url <$> viewer st |})
  end.

(** ** A connection *)

Section Wire.
Context `{W : Wire}.

(** [success(..).unwrap_or_else(|e| failure(..))]; [None] is the panic inside
    [success]. *)
Definition or_failure (id : Z) (r : option (result SessionCtlResponse string)) :
    option SessionCtlResponse :=
  match r with
  | None => None
  | Some (Ok r) => Some r
  | Some (Err e) => Some (ctl_failure id e)
  end.

Definition respond (id : Z) (r : reply) : option SessionCtlResponse :=
  match r with
  | RInfo i => or_failure id (ctl_success id i)
  | RWindows w => or_failure id (ctl_success id w)
  | RScreenshot s => or_failure id (ctl_success id s)
  | RRecordStarted s => or_failure id (ctl_success id s)
  | RRecordStatus s => or_failure id (ctl_success id s)
  | RViewerStarted s => or_failure id (ctl_success id s)
  | RViewerStatus s => or_failure id (ctl_success id s)
  | RUnit => or_failure id (ctl_success id Build_UnitResult)
  | RFailure e => Some (ctl_failure id e)
  end.

(** How [handle] ends, besides a panic. *)
Inductive handle_end :=
| Rejected
| Closed
| ReadFailed (e : read_error)
| BadRequest (e : DecodeError)
| BadResponse (e : EncodeError)
| WriteFailed (e : string).

(** The connection's [read_frame] is the daemon's. *)
Definition ctl_read_frame : Eff stream read_error (option (list Z)) := read_frame.

(** The loop of [handle]: requests are served in order until the peer closes; [writes n] is the error of the
    [n]-th response written. [frames] bounds the number of requests. *)
Fixpoint handle_loop (fuel frames n : nat) (writes : nat -> option string) (s : stream) (sent : list Z)
    (st : State) : result (State * list Z * handle_end) stop :=
  match frames with
  | O => Err OutOfFuel
  | S frames' =>
      match ctl_read_frame s with
      | (_, Err e) => Ok (st, sent, ReadFailed e)
      | (_, Ok None) => Ok (st, sent, Closed)
      | (s', Ok (Some frame)) =>
          match decode_frame (T := SessionCtlRequest) frame with
          | Err e => Ok (st, sent, BadRequest e)
          | Ok req =>
              let? r := dispatch fuel (scq_method req) st in
              match respond (scq_id req) r.2 with
              | None => Err Panics
              | Some resp =>
                  match encode_frame resp [] with
                  | (_, Err e) => Ok (r.1, sent, BadResponse e)
                  | (buf, Ok _) =>
                      match writes n with
                      | Some e => Ok (r.1, sent, WriteFailed e)
                      | None => handle_loop fuel frames' (S n) writes s' (sent ++ buf) r.1
                      end
                  end
              end
          end
      end
  end.

Definition handle (fuel : nat) (peer_uid : result Z string) (writes : nat -> option string) (s : stream)
    (st : State) : result (State * list Z * handle_end) stop :=
  if accept_peer getuid peer_uid
  then handle_loop fuel (S (length (st_bytes s))) 0 writes s [] st
  else Ok (st, [], Rejected).
End Wire.
End Control.
