(* ===== verification/ControlProps.v ===== *)
(** * What the control socket guarantees

    Recordings are written inside the recordings directory and nowhere else, the
    default path is accepted, a connection answers its requests in order, and
    stopping a viewer ends. *)

From Stdlib Require Import ZArith Lia Ascii.
From stdpp Require Import prelude strings gmap list pretty.
From S2P Require Import Prelude Words Codec Messages Sys Server.
From S2P Require Import Floats Composite Pixels Session SessionInput SessionRecord Compositor Control.

Open Scope Z_scope.

(** ** Paths *)

Lemma split_on_nonempty c s : split_on c s <> [].
Proof. destruct s as [|x s]; cbn; [done|]. destruct (Ascii.eqb x c); [done|]. by destruct (split_on c s). Qed.

Lemma split_on_app c a b : split_on c (a +:+ String c b) = split_on c a ++ split_on c b.
Proof.
  induction a as [|x a IH]; cbn -[split_on].
  - change (split_on c (String c b) = [EmptyString] ++ split_on c b). cbn. by rewrite Ascii.eqb_refl.
  - change (split_on c (String x (a +:+ String c b)) = split_on c (String x a) ++ split_on c b).
    cbn [split_on]. rewrite IH. destruct (Ascii.eqb x c); [done|].
    pose proof (split_on_nonempty c a). by destruct (split_on c a).
Qed.

Lemma path_components_sep a b :
  path_components (a +:+ String "/" b) = path_components a ++ path_components b.
Proof. unfold path_components. by rewrite split_on_app, filter_app. Qed.

Lemma string_app_nil s : (s +:+ "")%string = s.
Proof. induction s as [|c s IH]; [done|]. change (String c (s +:+ "") = String c s). by rewrite IH. Qed.

Lemma string_app_assoc (a b c : string) : ((a +:+ b) +:+ c = a +:+ (b +:+ c))%string.
Proof.
  induction a as [|x a IH]; [done|].
  change (String x ((a +:+ b) +:+ c) = String x (a +:+ (b +:+ c)))%string. by rewrite IH.
Qed.

Lemma string_length_app (a b : string) :
  String.length (a +:+ b) = (String.length a + String.length b)%nat.
Proof.
  induction a as [|x a IH]; [done|].
  change (S (String.length (a +:+ b)) = S (String.length a + String.length b)). by rewrite IH.
Qed.

Lemma ends_with_slash_spec p : ends_with_slash p = true -> exists q, p = (q +:+ "/")%string.
Proof.
  unfold ends_with_slash. intros H. destruct (rev (String.list_ascii_of_string p)) as [|c r] eqn:E; [done|].
  assert (Hc : c = "/"%char) by (destruct c as [[] [] [] [] [] [] [] []]; done). subst c.
  exists (String.string_of_list_ascii (rev r)).
  rewrite <- (String.string_of_list_ascii_of_string p), <- (rev_involutive (String.list_ascii_of_string p)), E.
  cbn [rev]. generalize (rev r) as l. induction l as [|x l IH]; [done|].
  change (String x (String.string_of_list_ascii (l ++ ["/"%char])) =
          String x (String.string_of_list_ascii l +:+ "/")). by rewrite IH.
Qed.

(** Joining a relative path appends its components. *)
Lemma path_components_join p s :
  is_absolute s = false -> path_components (join p s) = path_components p ++ path_components s.
Proof.
  intros Hs. unfold join. rewrite Hs. destruct (String.eqb_spec p "") as [->|Hp]; [done|]. cbn [orb].
  destruct (ends_with_slash p) eqn:E.
  - apply ends_with_slash_spec in E as [q ->]. rewrite string_app_assoc.
    change ("/" +:+ s)%string with (String "/" s). rewrite path_components_sep.
    change (q +:+ "/")%string with (q +:+ String "/" "")%string. rewrite path_components_sep.
    by rewrite app_nil_r.
  - change (p +:+ "/" +:+ s)%string with (p +:+ String "/" s)%string. apply path_components_sep.
Qed.

Lemma is_absolute_app p s : is_absolute p = true -> is_absolute (p +:+ s) = true.
Proof.
  unfold is_absolute, starts_with. destruct p as [|c p]; [done|].
  change (String c p +:+ s)%string with (String c (p +:+ s)). cbn [str_strip_prefix].
  by destruct (Ascii.eqb "/" c).
Qed.

Lemma is_absolute_join p s : is_absolute p = true -> is_absolute (join p s) = true.
Proof.
  intros H. unfold join. destruct (is_absolute s) eqn:E; [done|].
  destruct (_ || _); by apply is_absolute_app.
Qed.

(** A name without separators is one component. *)
Definition no_slash (s : string) : Prop := split_on "/"%char s = [s].

Lemma no_slash_app a b : no_slash a -> no_slash b -> no_slash (a +:+ b).
Proof.
  unfold no_slash. revert b. induction a as [|c a IH]; intros b Ha Hb; [done|].
  change (String c a +:+ b)%string with (String c (a +:+ b)). cbn [split_on] in *.
  destruct (Ascii.eqb c "/"); [done|].
  assert (Ha' : split_on "/" a = [a]).
  { pose proof (split_on_nonempty "/" a). destruct (split_on "/" a) as [|w [|]]; [done| |done].
    by injection Ha as ->. }
  by rewrite (IH b Ha' Hb).
Qed.

Lemma no_slash_char c : Ascii.eqb c "/" = false -> no_slash (String c "").
Proof. intros H. unfold no_slash. cbn. by rewrite H. Qed.

Lemma path_components_name s : no_slash s -> s <> "" -> s <> "." -> path_components s = [s].
Proof. intros H1 H2 H3. unfold path_components. rewrite H1. by rewrite filter_cons_True. Qed.

Lemma no_slash_relative s : no_slash s -> is_absolute s = false.
Proof.
  unfold no_slash, is_absolute, starts_with. destruct s as [|c s]; [done|].
  cbn [split_on str_strip_prefix]. destruct (Ascii.eqb_spec "/" c) as [<-|]; [|done]. done.
Qed.

(** The pieces of a string have no separator, and give it back. *)
Lemma split_on_pieces s : Forall no_slash (split_on "/" s).
Proof.
  induction s as [|c s IH]; [by repeat constructor|]. cbn [split_on].
  destruct (Ascii.eqb c "/") eqn:E; [by constructor|].
  pose proof (split_on_nonempty "/" s). destruct (split_on "/" s) as [|w ws]; [done|].
  apply Forall_cons in IH as [Hw Hs]. constructor; [|done].
  change (String c w) with (String c "" +:+ w)%string. apply no_slash_app; [by apply no_slash_char|done].
Qed.

Lemma split_join_pieces l : Forall no_slash l -> l <> [] -> split_on "/" (join_pieces l) = l.
Proof.
  induction 1 as [|c l Hc Hl IH]; [done|]. intros _. destruct l as [|d l]; [done|].
  change (join_pieces (c :: d :: l)) with (c +:+ String "/" (join_pieces (d :: l)))%string.
  rewrite split_on_app, (IH ltac:(done)), Hc. done.
Qed.

Definition keep_piece (c : string) : Prop := c <> ""%string /\ c <> "."%string.

Lemma trim_pieces_spec l :
  exists k, l = k ++ trim_pieces l /\ filter keep_piece k = [] /\
    match trim_pieces l with [] => True | c :: _ => keep_piece c end.
Proof.
  induction l as [|c l (k & E & Hk & Hc)]; [by exists []|]. cbn [trim_pieces].
  destruct ((c =? "")%string || (c =? ".")%string) eqn:D.
  - exists (c :: k). split; [cbn; by rewrite <- E|]. split; [|done].
    rewrite filter_cons_False; [done|]. unfold keep_piece.
    apply orb_true_iff in D as [->%String.eqb_eq| ->%String.eqb_eq]; naive_solver.
  - exists []. split_and!; [done|done|]. apply orb_false_iff in D as [?%String.eqb_neq ?%String.eqb_neq].
    by split.
Qed.

Lemma path_components_keep s : path_components s = filter keep_piece (split_on "/" s).
Proof. done. Qed.

Lemma filter_rev' (l : list string) : filter keep_piece (rev l) = rev (filter keep_piece l).
Proof.
  induction l as [|c l IH]; [done|]. cbn [rev]. rewrite filter_app, IH, !filter_cons.
  case_decide; [done|]. by rewrite app_nil_r.
Qed.

(** The parent of a path has all its components but the last. *)
Lemma parent_components p dir :
  parent p = Some dir -> exists c, path_components p = path_components dir ++ [c].
Proof.
  unfold parent. intros H. rewrite path_components_keep.
  destruct (trim_pieces_spec (rev (split_on "/" p))) as (k & E & Hk & Hc).
  destruct (trim_pieces (rev (split_on "/" p))) as [|c up] eqn:T; [done|].
  exists c. rewrite <- (rev_involutive (split_on "/" p)), E, filter_rev', filter_app, Hk, filter_cons_True by done.
  cbn [app rev]. f_equal.
  destruct (trim_pieces_spec up) as (k2 & E2 & Hk2 & _).
  assert (D : path_components dir = rev (filter keep_piece (trim_pieces up))).
  { destruct (trim_pieces up) as [|d l] eqn:T2.
    - injection H as <-. by destruct (is_absolute p).
    - assert (dir = join_pieces (rev (d :: l))) as -> by congruence.
      rewrite path_components_keep, split_join_pieces; [by rewrite filter_rev'| |].
      + apply Forall_rev. assert (F : Forall no_slash (rev (split_on "/" p))) by apply Forall_rev, split_on_pieces.
        rewrite E in F. apply Forall_app in F as [_ F]. apply Forall_cons in F as [_ F].
        rewrite E2 in F. by apply Forall_app in F as [_ F].
      + by destruct (rev (d :: l)) eqn:R; [apply (f_equal length) in R; rewrite length_rev in R|]. }
  rewrite D, E2 at 1. by rewrite filter_app, Hk2.
Qed.

Lemma absolute_split p : is_absolute p = true -> exists l, split_on "/" p = "" :: l.
Proof.
  destruct p as [|c p]; [done|]. unfold is_absolute, starts_with. cbn [str_strip_prefix].
  destruct (Ascii.eqb_spec "/" c) as [<-|]; [|done]. intros _. cbn. eauto.
Qed.

Lemma parent_absolute p dir : is_absolute p = true -> parent p = Some dir -> is_absolute dir = true.
Proof.
  intros A. destruct (absolute_split p A) as [ps Eps]. unfold parent. rewrite A, Eps. intros H.
  cbn [rev] in H. destruct (trim_pieces_spec (rev ps ++ [""%string])) as (k & E & Hk & Hc).
  destruct (trim_pieces (rev ps ++ [""%string])) as [|c up] eqn:T; [done|].
  destruct (trim_pieces_spec up) as (k2 & E2 & Hk2 & Hc2).
  destruct (trim_pieces up) as [|d l] eqn:T2; [by injection H as <-|].
  assert (dir = join_pieces (rev l ++ [d])) as -> by congruence.
  change (rev l ++ [d]) with (rev (d :: l)).
  assert (L : last (d :: l) = Some ""%string).
  { apply (f_equal last) in E. rewrite last_snoc in E. rewrite E2 in E.
    rewrite app_comm_cons, app_assoc, last_app in E.
    destruct (last (d :: l)) eqn:X; [congruence|]. by apply last_None in X. }
  destruct l as [|e l]; [injection L as ->; destruct Hc2; done|].
  apply last_Some in L as [l' L']. rewrite L', rev_app_distr. cbn [rev app].
  destruct (rev l') as [|x r] eqn:R; [|done].
  apply (f_equal (@length string)) in R. apply (f_equal (@length string)) in L'.
  rewrite length_rev in R. rewrite length_app in L'. cbn in *. lia.
Qed.

(** The two parts of a name with an extension. *)
Lemma split_last_dot_spec l a b : split_last_dot l = Some (a, b) -> l = a ++ "."%char :: b.
Proof.
  revert a. induction l as [|c l IH]; intros a; [done|]. cbn [split_last_dot].
  destruct (split_last_dot l) as [[x y]|].
  - intros [= <- <-]. cbn. f_equal. by apply IH.
  - destruct (Ascii.eqb_spec c ".") as [->|]; [|done]. by intros [= <- <-].
Qed.

Lemma string_of_app l k :
  String.string_of_list_ascii (l ++ k) =
  (String.string_of_list_ascii l +:+ String.string_of_list_ascii k)%string.
Proof.
  induction l as [|c l IH]; [done|].
  change (String c (String.string_of_list_ascii (l ++ k)) =
    String c (String.string_of_list_ascii l +:+ String.string_of_list_ascii k)). by rewrite IH.
Qed.

Lemma stem_ext_spec name stem ext :
  stem_ext name = (stem, Some ext) -> name = (stem +:+ "." +:+ ext)%string /\ stem <> ""%string.
Proof.
  unfold stem_ext. destruct (split_last_dot _) as [[[|c a] b]|] eqn:E; [done| |done].
  intros [= <- <-]. split; [|done]. apply split_last_dot_spec in E.
  rewrite <- (String.string_of_list_ascii_of_string name), E.
  change (c :: a ++ "."%char :: b) with ((c :: a) ++ "."%char :: b). by rewrite string_of_app.
Qed.

Lemma no_slash_inv a b : no_slash (a +:+ b) -> no_slash a /\ no_slash b.
Proof.
  unfold no_slash. induction a as [|c a IH]; [done|].
  change (String c a +:+ b)%string with (String c (a +:+ b)). cbn [split_on].
  destruct (Ascii.eqb c "/"); [done|]. intros H.
  assert (Ha : split_on "/" (a +:+ b) = [(a +:+ b)%string]).
  { pose proof (split_on_nonempty "/" (a +:+ b)). destruct (split_on "/" (a +:+ b)) as [|w [|]]; [done| |done].
    by injection H as ->. }
  destruct (IH Ha) as [-> ?]. done.
Qed.

(** The decimal digits of a number contain no separator. *)
Lemma no_slash_pretty_N (n : N) : no_slash (pretty n).
Proof.
  unfold pretty, pretty_N. destruct (decide (n = 0%N)); [done|].
  assert (G : forall n s, no_slash s -> no_slash (pretty_N_go n s)); [|by apply G].
  clear. intros n. induction (N.lt_wf_0 n) as [n _ IH]. intros s Hs.
  destruct (decide (0 < n)%N) as [Hn|Hn].
  - rewrite pretty_N_go_step by done. apply IH; [apply N.div_lt; lia|].
    change (String (pretty_N_char (n mod 10)) s) with (String (pretty_N_char (n mod 10)) "" +:+ s)%string.
    apply no_slash_app; [|done]. apply no_slash_char. unfold pretty_N_char. by repeat case_match.
  - assert (n = 0%N) as -> by lia. by rewrite pretty_N_go_0.
Qed.

Lemma no_slash_pretty (z : Z) : no_slash (pretty z).
Proof.
  unfold pretty, pretty_Z. destruct z; [done|apply (no_slash_pretty_N (Npos p))|].
  apply (no_slash_app "-"); [done|]. apply (no_slash_pretty_N (Npos p)).
Qed.

(** ** Where recordings go *)

Section Paths.
Context {CE : CtlEnv}.

Definition allowed_dir : string := join home_dir ".local/share/waymux/recordings".

(** Inside the directory, with no way up. *)
Definition confined (p : string) : Prop :=
  is_absolute p = true /\ (".."%string ∉ path_components p) /\
  (path_components allowed_dir) `prefix_of` (path_components p).

Lemma existsb_dotdot l : existsb (fun c => (c =? "..")%string) l = false <-> ".."%string ∉ l.
Proof.
  rewrite <- not_true_iff_false, existsb_exists, (list_elem_of_In l). split; intros H.
  - intros Hin. apply H. by exists ".."%string.
  - intros (x & Hx & E). apply String.eqb_eq in E. by subst.
Qed.

Lemma validate_ok n p : validate n p = Ok () -> confined p.
Proof.
  unfold validate, recordings_dir. intros H.
  destruct (is_absolute p) eqn:A; [|done]. cbn [negb] in H.
  destruct (existsb _ _) eqn:D; [done|]. apply existsb_dotdot in D.
  destruct (create_dir_all n); [done|]. cbn in H.
  destruct (path_inside _ p) eqn:P; [|done]. unfold path_inside in P. apply andb_true_iff in P as [_ P].
  apply bool_decide_eq_true in P. by split_and!.
Qed.

Lemma validate_accepts n p :
  create_dir_all n = None -> is_absolute home_dir = true -> confined p -> validate n p = Ok ().
Proof.
  intros M Hh (A & D & P). unfold validate, recordings_dir. rewrite A. cbn [negb].
  rewrite (proj2 (existsb_dotdot _) D), M. cbv beta iota zeta. unfold path_inside.
  change (join home_dir ".local/share/waymux/recordings") with allowed_dir.
  assert (is_absolute allowed_dir = true) as -> by by apply is_absolute_join.
  by rewrite bool_decide_true.
Qed.

(** A plain name in the directory is confined. *)
Lemma confined_in dir name :
  is_absolute dir = true -> ".."%string ∉ path_components dir ->
  (path_components allowed_dir) `prefix_of` (path_components dir) ->
  no_slash name -> name <> "" -> name <> "." -> name <> ".." -> confined (join dir name).
Proof.
  intros A D P N1 N2 N3 N4. split_and!; [by apply is_absolute_join| |];
    rewrite path_components_join, (path_components_name name) by auto using no_slash_relative.
  - set_solver.
  - by apply prefix_app_r.
Qed.

Hypothesis home_absolute : is_absolute home_dir = true.
Hypothesis home_plain : ".."%string ∉ path_components home_dir.

Lemma allowed_plain : ".."%string ∉ path_components allowed_dir.
Proof.
  unfold allowed_dir. rewrite path_components_join by done. apply not_elem_of_app. split; [done|].
  change (path_components ".local/share/waymux/recordings") with [".local"; "share"; "waymux"; "recordings"]%string.
  set_solver.
Qed.

Lemma default_path_confined name p :
  no_slash name -> default_recording_path name = Ok p -> confined p.
Proof.
  intros N. unfold default_recording_path, recordings_dir. destruct (create_dir_all 0); [done|].
  change (join home_dir ".local/share/waymux/recordings") with allowed_dir. intros [= <-].
  assert (L : forall s, (s +:+ "-" +:+ pretty now_secs +:+ ".mkv")%string <> ""%string /\
    (s +:+ "-" +:+ pretty now_secs +:+ ".mkv")%string <> "."%string /\
    (s +:+ "-" +:+ pretty now_secs +:+ ".mkv")%string <> ".."%string).
  { intros s. assert (G : (4 < String.length (s +:+ "-" +:+ pretty now_secs +:+ ".mkv"))%nat).
    { rewrite !string_length_app. cbn. lia. }
    split_and!; intros E; rewrite E in G; cbn in G; lia. }
  destruct (L name) as (L1 & L2 & L3).
  apply confined_in; [by apply is_absolute_join|apply allowed_plain|done| |done|done|done].
  apply no_slash_app; [done|]. apply (no_slash_app "-"); [done|].
  apply no_slash_app; [apply no_slash_pretty|done].
Qed.

Lemma prefix_snoc_inv {A} (l k : list A) x : l `prefix_of` (k ++ [x]) -> l = k ++ [x] \/ l `prefix_of` k.
Proof.
  intros [r E]. destruct r as [|y r _] using rev_ind; [left; by rewrite E, app_nil_r|]. right.
  rewrite app_assoc in E. apply app_inj_tail in E as [-> _]. by exists r.
Qed.

Lemma components_no_slash p c : c ∈ path_components p -> no_slash c /\ keep_piece c.
Proof.
  rewrite path_components_keep. intros (K & H)%list_elem_of_filter. split; [|done].
  pose proof (split_on_pieces p) as F. rewrite Forall_forall in F. by apply F.
Qed.

(** The second file of a recording lands beside the first. *)
Lemma secondary_beside p dir stem ext :
  confined p -> parent p = Some dir -> stem_ext <$> file_name p = Some (stem, Some ext) ->
  confined (secondary_path_of p) /\
  path_components (secondary_path_of p) =
    path_components dir ++ [(stem +:+ ".secondary." +:+ ext)%string].
Proof.
  intros (A & D & P) Hp Hf. unfold secondary_path_of. rewrite Hp, Hf.
  destruct (parent_components p dir Hp) as [c Ec].
  apply fmap_Some in Hf as (name & Hn & Hs). symmetry in Hs.
  unfold file_name, path_file_name in Hn. rewrite Ec, last_snoc in Hn. case_match; [done|].
  injection Hn as ->. destruct (stem_ext_spec _ _ _ Hs) as [En Hne].
  destruct (components_no_slash p name) as [Nn _]; [rewrite Ec; set_solver|].
  rewrite En in Nn. apply no_slash_inv in Nn as [N1 N2]. apply (no_slash_inv ".") in N2 as [_ N2].
  assert (L : (1 < String.length (stem +:+ ".secondary." +:+ ext))%nat).
  { rewrite !string_length_app. cbn. lia. }
  assert (L' : (2 < String.length (stem +:+ ".secondary." +:+ ext))%nat).
  { rewrite !string_length_app. cbn. lia. }
  assert (N : no_slash (stem +:+ ".secondary." +:+ ext)).
  { apply no_slash_app; [done|]. by apply (no_slash_app ".secondary."). }
  assert (Nz : (stem +:+ ".secondary." +:+ ext)%string <> ""%string) by (intros E; rewrite E in L; cbn in L; lia).
  assert (Nd : (stem +:+ ".secondary." +:+ ext)%string <> "."%string) by (intros E; rewrite E in L; cbn in L; lia).
  split.
  - apply confined_in; [by eapply parent_absolute| | |done|done|done|].
    + rewrite Ec in D. set_solver.
    + rewrite Ec in P. apply prefix_snoc_inv in P as [E|P]; [|done]. exfalso.
      apply (f_equal last) in E. rewrite last_snoc in E. unfold allowed_dir in E.
      rewrite path_components_join in E by done.
      change (path_components ".local/share/waymux/recordings") with
        ([".local"%string; "share"%string; "waymux"%string] ++ ["recordings"%string]) in E.
      rewrite app_assoc, last_snoc in E. injection E as <-. done.
    + intros E; rewrite E in L'; cbn in L'; lia.
  - by rewrite path_components_join, (path_components_name (stem +:+ ".secondary." +:+ ext)) by auto using no_slash_relative.
Qed.

(** The default name has a stem and an extension. *)
Lemma split_last_dot_app l b :
  split_last_dot b = None -> split_last_dot (l ++ "."%char :: b) = Some (l, b).
Proof. intros Hb. induction l as [|c l IH]; cbn; [by rewrite Hb|by rewrite IH]. Qed.

Lemma stem_ext_name s : s <> ""%string -> stem_ext (s +:+ ".mkv") = (s, Some "mkv"%string).
Proof.
  intros Hs. unfold stem_ext.
  assert (E : String.list_ascii_of_string (s +:+ ".mkv") =
    String.list_ascii_of_string s ++ "."%char :: ["m"; "k"; "v"]%char).
  { clear. induction s as [|c s IH]; [done|].
    change (c :: String.list_ascii_of_string (s +:+ ".mkv") =
      c :: (String.list_ascii_of_string s ++ "."%char :: ["m"; "k"; "v"]%char)). by rewrite IH. }
  rewrite E, split_last_dot_app by done. destruct s as [|c s]; [done|].
  change (String.list_ascii_of_string (String c s)) with (c :: String.list_ascii_of_string s). cbv beta iota.
  f_equal. change (String c (String.string_of_list_ascii (String.list_ascii_of_string s)) = String c s).
  by rewrite String.string_of_list_ascii_of_string.
Qed.

Lemma trim_pieces_keep l : trim_pieces l = [] <-> filter keep_piece l = [].
Proof.
  destruct (trim_pieces_spec l) as (k & E & Hk & Hc). rewrite E at 2. rewrite filter_app, Hk. cbn [app].
  destruct (trim_pieces l); [done|]. by rewrite filter_cons_True.
Qed.

Lemma parent_some p c l : path_components p = l ++ [c] -> is_Some (parent p).
Proof.
  intros E. unfold parent. destruct (trim_pieces (rev (split_on "/" p))) eqn:T.
  - apply trim_pieces_keep in T. rewrite filter_rev', <- path_components_keep, E, rev_app_distr in T. done.
  - case_match; eauto.
Qed.

(** Both files of a recording at the default path. *)
Lemma default_paths_confined name p :
  no_slash name -> default_recording_path name = Ok p ->
  confined p /\ confined (secondary_path_of p).
Proof.
  intros N H. pose proof (default_path_confined name p N H) as C. split; [done|].
  unfold default_recording_path, recordings_dir in H. destruct (create_dir_all 0); [done|].
  change (join home_dir ".local/share/waymux/recordings") with allowed_dir in H. injection H as <-.
  set (stem := (name +:+ "-" +:+ pretty now_secs)%string).
  assert (En : (name +:+ "-" +:+ pretty now_secs +:+ ".mkv")%string = (stem +:+ ".mkv")%string).
  { unfold stem. by rewrite !string_app_assoc. }
  rewrite En in *.
  assert (Ns : no_slash (stem +:+ ".mkv")).
  { apply no_slash_app; [|done]. apply no_slash_app; [done|]. apply (no_slash_app "-"); [done|apply no_slash_pretty]. }
  assert (L : (4 < String.length (stem +:+ ".mkv"))%nat).
  { unfold stem. rewrite !string_length_app. cbn. lia. }
  assert (Ec : path_components (join allowed_dir (stem +:+ ".mkv")) =
    path_components allowed_dir ++ [(stem +:+ ".mkv")%string]).
  { rewrite path_components_join, (path_components_name (stem +:+ ".mkv")); auto using no_slash_relative;
      intros E; rewrite E in L; cbn in L; lia. }
  destruct (parent_some _ _ _ Ec) as [dir Hd].
  refine (proj1 (secondary_beside _ dir stem "mkv" C Hd _)).
  unfold file_name, path_file_name. rewrite Ec, last_snoc.
  destruct (String.eqb_spec (stem +:+ ".mkv") "..") as [E|_]; [rewrite E in L; cbn in L; lia|].
  cbn. rewrite stem_ext_name; [done|]. intros E. rewrite string_length_app, E in L. cbn in L. lia.
Qed.
End Paths.

(** ** What the tap writes *)

(** Only the slots [A] may have changed, and no handle did. *)
Record feeds (A : list nat) (st st' : State) : Prop := {
  fe_recording : recording st' = recording st;
  fe_viewer : viewer st' = viewer st;
  fe_raised : raised st' = raised st;
  fe_slots : forall a, a ∉ A -> slots st' !! a = slots st !! a;
}.

Definition feeds_res (A : list nat) (st : State) (r : result State stop) : Prop :=
  match r with Ok st' => feeds A st st' | Err _ => True end.

Lemma feeds_refl A st : feeds A st st.
Proof. by split. Qed.

Lemma feeds_trans A B C st st' st'' :
  feeds A st st' -> feeds B st' st'' -> A ⊆ C -> B ⊆ C -> feeds C st st''.
Proof.
  intros [R1 V1 S1 F1] [R2 V2 S2 F2] HA HB. split; [congruence..|].
  intros a Ha. rewrite F2, F1; set_solver.
Qed.

Lemma feeds_mono A B st st' : feeds A st st' -> A ⊆ B -> feeds B st st'.
Proof. intros [] H. split; try done. intros a Ha. apply fe_slots0. set_solver. Qed.

(** An operation that touches neither handles nor slots, of which there are many. *)
Ltac feeds_fields := by split.

Lemma feeds_wake st : feeds [] st (wake_compositor st).
Proof. feeds_fields. Qed.

Lemma feeds_do_release b st : feeds [] st (do_release_inner_buffer b st).
Proof. unfold do_release_inner_buffer. repeat case_match; feeds_fields. Qed.

Lemma feeds_drop_hold b st : feeds [] st (drop_buffer_hold b st).
Proof.
  unfold drop_buffer_hold. repeat case_match; try feeds_fields.
  eapply feeds_trans; [|apply feeds_do_release|done|done]. feeds_fields.
Qed.

Lemma feeds_hold_drop h st : feeds [] st (hold_drop h st).
Proof.
  unfold hold_drop. destruct (holds st !! h) as [x|]; [|feeds_fields].
  assert (D : feeds [] st (wake_compositor (drop_buffer_hold (ibh_buf x)
    (put (HoldDropped h (ibh_buf x)) (st <| holds ::= delete h |>))))).
  { eapply (feeds_trans [] []); [|apply feeds_wake|done|done].
    eapply (feeds_trans [] []); [|apply feeds_drop_hold|done|done]. feeds_fields. }
  destruct (ibh_refs x) as [|[|n]]; [exact D|exact D|feeds_fields].
Qed.

Lemma feeds_for_each {X} (l : list X) f A st :
  (forall x st, feeds A st (f x st)) -> feeds A st (Prelude.for_each l f st).
Proof.
  intros H. apply (for_each_inv (feeds A st)); [apply feeds_refl|]. intros x s _ Hs.
  by eapply (feeds_trans A A).
Qed.

Lemma feeds_drop_task t st : feeds [] st (drop_task t st).
Proof. apply feeds_for_each. apply feeds_hold_drop. Qed.

Lemma feeds_slot_put a t st : feeds [a] st (slot_put a t st).
Proof.
  unfold slot_put. destruct (slots st !! a) as [sl|]; [|eapply feeds_mono; [apply feeds_drop_task|set_solver]].
  cbv zeta.
  assert (S1 : forall sl', feeds [a] st (st <| slots ::= insert a sl' |>)).
  { intros sl'. split; try done. intros b Hb. cbn. apply lookup_insert_ne. set_solver. }
  destruct (slot_inner sl); [|apply S1].
  eapply (feeds_trans [a] []); [apply S1|apply feeds_drop_task|done|set_solver].
Qed.

Lemma feeds_hold_new b st : feeds [] st (hold_new b st).1.
Proof. feeds_fields. Qed.

Lemma feeds_put_dmabuf slot b dma st : feeds [slot] st (put_dmabuf slot b dma st).
Proof.
  unfold put_dmabuf. pose proof (feeds_hold_new b st) as F. destruct (hold_new b st) as [st1 h]. cbn [fst] in F.
  eapply feeds_trans; [exact F|apply feeds_slot_put|set_solver|done].
Qed.

Lemma feeds_put_readback slot b w h stride rb nv st :
  feeds_res [slot] st (put_readback slot b w h stride rb nv st).
Proof.
  unfold put_readback. pose proof (feeds_hold_new b st) as F. destruct (hold_new b st) as [st1 hd]. cbn [fst] in F.
  assert (D : feeds [slot] st (hold_drop hd st1)).
  { eapply feeds_trans; [exact F|apply feeds_hold_drop|set_solver|set_solver]. }
  cbv zeta. destruct (negb nv && _); [done|]. destruct rb as [raw|]; [|done].
  destruct (destride_bgra _ _ _ _); [|done]. cbn [feeds_res].
  eapply (feeds_trans [slot] []); [|apply feeds_hold_drop|done|set_solver].
  eapply feeds_trans; [exact F|apply feeds_slot_put|set_solver|done].
Qed.

Lemma feeds_push_focused s slot c st : feeds_res [slot] st (push_focused_buffer_to_recording s slot c st).
Proof.
  unfold push_focused_buffer_to_recording.
  assert (R : feeds_res [slot] st (let? r := read_surface_buffer_for_recording st s in
    match r with Some (pixels, w, h) => Ok (slot_put slot (TaskPixels pixels w h) st) | None => Ok st end)).
  { destruct (read_surface_buffer_for_recording st s) as [[[[px w] h]|]|]; [apply feeds_slot_put|apply feeds_refl|done]. }
  destruct (surface_buffer st s) as [[b bf]|]; [|apply feeds_refl].
  destruct (buf_kind bf); [exact R| |exact R|apply feeds_refl].
  destruct (wants_dmabuf c || _); [apply feeds_put_dmabuf|apply feeds_put_readback].
Qed.

Lemma feeds_push_all s (encs : list (nat * RecordingCodec)) st :
  feeds_res encs.*1 st (for_each_in encs (fun e => push_focused_buffer_to_recording s e.1 e.2) st).
Proof.
  revert st. induction encs as [|e encs IH]; intros st; cbn [for_each_in]; [apply feeds_refl|].
  pose proof (feeds_push_focused s e.1 e.2 st) as F.
  destruct (push_focused_buffer_to_recording s e.1 e.2 st) as [st1|]; [|done].
  specialize (IH st1). destruct (for_each_in encs _ st1) as [st2|]; [|done]. cbn [feeds_res] in *.
  rewrite fmap_cons. eapply feeds_trans; [exact F|exact IH|set_solver|set_solver].
Qed.

Lemma fst_filter_subseteq {A B} (P : A * B -> Prop) `{!forall x, Decision (P x)} (l : list (A * B)) :
  (filter P l).*1 ⊆ l.*1.
Proof. intros x (y & -> & [_ Hy]%list_elem_of_filter)%list_elem_of_fmap. apply list_elem_of_fmap. eauto. Qed.

(** The slots of the encoders that are active. *)
Definition active_slots (st : State) : list nat :=
  match tap_encoders st with Some (_, encs) => encs.*1 | None => [] end.

Section Feeds.
Context {HO : HashOrder}.

Lemma feeds_tap fuel s a st : feeds_res (active_slots st) st (maybe_tap_for_recording fuel s a st).
Proof.
  unfold maybe_tap_for_recording, active_slots. destruct (tap_encoders st) as [[mode encs]|]; [|apply feeds_refl].
  destruct mode.
  - destruct (negb (surface_in_focused_tree st s)); [apply feeds_refl|].
    destruct (_ && _); [apply feeds_refl|apply feeds_push_all].
  - set (dm := filter (fun e => wants_dmabuf e.2 = true) encs).
    set (cp := filter (fun e => wants_dmabuf e.2 = false) encs).
    assert (Hd : dm.*1 ⊆ encs.*1) by apply fst_filter_subseteq.
    assert (Hc : cp.*1 ⊆ encs.*1) by apply fst_filter_subseteq.
    pose proof (feeds_push_all s dm st) as F.
    destruct (for_each_in dm _ st) as [st1|]; [|done]. cbn [feeds_res] in F.
    assert (F1 : feeds encs.*1 st st1) by by eapply feeds_mono.
    unfold tap_cpu_slots. destruct cp.*1 as [|x l] eqn:E; [done|]. rewrite <- E in *. cbv zeta.
    destruct (match last_whole_desktop_capture st1 with Some _ => _ | None => _ end); [|done].
    set (st2 := st1 <| last_whole_desktop_capture := Some (clock_ns st1) |>).
    assert (F2 : feeds encs.*1 st st2) by (eapply (feeds_trans _ []); [exact F1|feeds_fields|done|set_solver]).
    destruct (capture_desktop fuel st2) as [[[[[px w] h] ?]|]|]; [|done|done]. cbn [feeds_res].
    apply (for_each_inv (feeds encs.*1 st)); [done|]. intros slot st3 Hin G.
    eapply (feeds_trans _ [slot]); [exact G|apply feeds_slot_put|done|]. set_solver.
Qed.

Lemma feeds_prime fuel st : feeds_res (active_slots st) st (prime_recording_first_frame fuel st).
Proof.
  unfold prime_recording_first_frame. cbv zeta.
  repeat match goal with |- context [match ?x with Some _ => _ | None => _ end] => destruct x end;
    apply feeds_tap || apply feeds_refl.
Qed.
End Feeds.

(** ** Recording *)

Arguments validate : simpl never.
Arguments secondary_path_of : simpl never.
Arguments probe_codec : simpl never.
Arguments spawn_recording_thread : simpl never.
Arguments prime_recording_first_frame : simpl never.

Section Recording.
Context {CE : CtlEnv} {HO : HashOrder}.

Lemma spawn_thread_spec n path codec mode fps st :
  let '(st', r) := spawn_recording_thread n path codec mode fps st in
  recording st' = recording st /\ viewer st' = viewer st /\
  match r with
  | Ok h => rh_path h = path /\ rh_codec h = codec /\ rh_mode h = mode /\
            rh_stop h = S (next_addr st) /\ rh_slot h = next_addr st /\
            next_addr st' = S (S (next_addr st)) /\ raised st' = raised st /\
            slots st' = <[next_addr st := slot_new]> (slots st)
  | Err _ => raised st' = raised st
  end.
Proof. unfold spawn_recording_thread. cbv zeta. repeat case_match; simplify_eq; done. Qed.

(** What [record_launch] leaves behind when it answers that it has started. *)
Lemma record_launch_started fuel p sp c sc mode fps st st' r :
  record_launch fuel p sp c sc mode fps st = Ok (st', RRecordStarted r) ->
  r = {| scr_path := p; scr_secondary_path := sp |} /\ recording st = None /\
  exists d, recording st' = Some d /\ rh_path (drh_primary d) = p /\ rh_codec (drh_primary d) = c /\
    rh_mode (drh_primary d) = mode /\
    rh_path <$> drh_secondary d = match sc with Some _ => sp | None => None end.
Proof.
  unfold record_launch. destruct (recording st) eqn:E0; [done|].
  pose proof (spawn_thread_spec 0 p c mode fps st) as S1.
  destruct (spawn_recording_thread 0 p c mode fps st) as [st1 [h1|e1]]; [|done].
  destruct S1 as (_ & _ & P1 & C1 & M1 & _).
  assert (G : forall st2 o, rh_path <$> o = match sc with Some _ => sp | None => None end ->
    (let? st3 := prime_recording_first_frame fuel
       (st2 <| recording := Some {| drh_primary := h1; drh_secondary := o |} |>) in
     Ok (st3, RRecordStarted {| scr_path := p; scr_secondary_path := sp |})) = Ok (st', RRecordStarted r) ->
    r = {| scr_path := p; scr_secondary_path := sp |} /\ None = @None DualRecordingHandle /\
    exists d, recording st' = Some d /\ rh_path (drh_primary d) = p /\ rh_codec (drh_primary d) = c /\
      rh_mode (drh_primary d) = mode /\
      rh_path <$> drh_secondary d = match sc with Some _ => sp | None => None end).
  { intros st2 o Ho H. set (st3 := st2 <| recording := _ |>) in H.
    pose proof (feeds_prime fuel st3) as F.
    destruct (prime_recording_first_frame fuel st3) as [st4|]; [|done]. injection H as <- <-.
    split_and!; [done|done|]. eexists. split; [exact (fe_recording _ _ _ F)|]. cbn. by rewrite P1, C1, M1. }
  destruct sc as [sc|]; [destruct sp as [sp|]|].
  - pose proof (spawn_thread_spec 1 sp sc mode fps st1) as S2.
    destruct (spawn_recording_thread 1 sp sc mode fps st1) as [st2 [h2|e2]]; [|done].
    apply G. destruct S2 as (_ & _ & P2 & _). cbn. by rewrite P2.
  - by apply G.
  - by apply G.
Qed.

(** C12: A recording that is reported as started is stored under the reported paths,
    no other recording was running, and each of its files lies inside the
    recordings directory, at an absolute path without a way up. *)
Theorem record_start_confined fuel path codec sc mode fps st st' r :
  record_start fuel path codec sc mode fps st = Ok (st', RRecordStarted r) ->
  recording st = None /\
  exists d, recording st' = Some d /\
    rh_path (drh_primary d) = scr_path r /\ rh_path <$> drh_secondary d = scr_secondary_path r /\
    confined (scr_path r) /\
    match scr_secondary_path r with Some p => confined p | None => True end.
Proof.
  unfold record_start. intros H. cbv zeta in H.
  destruct (match path with Some p => Ok p | None => _ end) as [p|]; [|done].
  destruct (record_checks _ _ _ _) as [[]|] eqn:K; [|done].
  apply record_launch_started in H as (-> & E & d & Hd & Hp & _ & _ & Hs). split; [done|].
  exists d. cbn [scr_path scr_secondary_path].
  assert (V : validate 1 p = Ok () /\
    match (fun _ => secondary_path_of p) <$> sc with Some sp => validate 2 sp = Ok () | None => True end).
  { unfold record_checks in K. destruct (validate 1 p) as [[]|]; [|done]. split; [done|].
    destruct sc as [sc|]; [|done]. cbn in *. by destruct (validate 2 _) as [[]|]. }
  destruct V as [V1 V2]. split_and!; [done|done| |by eapply validate_ok|].
  - rewrite Hs. by destruct sc.
  - destruct sc; [|done]. exact (validate_ok 2 _ V2).
Qed.

(** The encoders' devices and threads are there. *)
Definition launchable (c : RecordingCodec) : Prop :=
  probe_codec c = Ok () /\ (c = HevcVulkanLossless -> exists dev, vk_open = Ok (true, dev)).

Lemma spawn_thread_ok n path codec mode fps st :
  launchable codec -> thread_spawn n = None ->
  exists st' h, spawn_recording_thread n path codec mode fps st = (st', Ok h).
Proof.
  intros [_ Hv] Ht. unfold spawn_recording_thread. rewrite Ht.
  destruct codec; try by eauto. destruct (Hv eq_refl) as [dev ->]. eauto.
Qed.

(** Without a path, a recording always starts when nothing is recording, the
    codecs are usable and the surroundings cooperate: the default path and the
    second path derived from it pass the checks, the encoders are installed, and
    what remains is to composite a first frame for them. *)
Theorem record_start_default fuel codec sc mode fps st :
  is_absolute home_dir = true -> ".."%string ∉ path_components home_dir -> no_slash (st_name st) ->
  (forall n, create_dir_all n = None) -> (forall n, thread_spawn n = None) -> ffmpeg_found = true ->
  launchable (default Ffv1 codec) -> (forall c, sc = Some c -> launchable c) ->
  recording st = None -> (forall f, f ∈ raised st -> (f < next_addr st)%nat) ->
  exists st1 p d, default_recording_path (st_name st) = Ok p /\
    recording st1 = Some d /\ rh_path (drh_primary d) = p /\
    (is_Some (drh_secondary d) <-> is_Some sc) /\ is_recording st1 = true /\
    record_start fuel None codec sc mode fps st =
      (let? st2 := prime_recording_first_frame fuel st1 in
       Ok (st2, RRecordStarted {| scr_path := p; scr_secondary_path := (fun _ => secondary_path_of p) <$> sc |})).
Proof.
  intros Ha Hp Hn Hm Ht Hf Hc Hs Hr Ho. unfold record_start. cbv zeta.
  destruct (default_recording_path (st_name st)) as [p|] eqn:Ep;
    [|by unfold default_recording_path, recordings_dir in Ep; rewrite Hm in Ep].
  destruct (default_paths_confined Ha Hp _ _ Hn Ep) as [C1 C2].
  assert (K : record_checks p ((fun _ => secondary_path_of p) <$> sc) (default Ffv1 codec) sc = Ok ()).
  { unfold record_checks. rewrite (validate_accepts 1 p) by done. unfold probe_ffmpeg. rewrite Hf.
    destruct sc as [c|]; cbn; rewrite ?(validate_accepts 2) by done; rewrite (proj1 Hc); [|done].
    by rewrite (proj1 (Hs c eq_refl)). }
  rewrite K. unfold record_launch. rewrite Hr.
  destruct (spawn_thread_ok 0 p _ (default FocusedWindow mode) fps st Hc (Ht 0%nat)) as (st1 & h1 & E1).
  pose proof (spawn_thread_spec 0 p (default Ffv1 codec) (default FocusedWindow mode) fps st) as S1.
  rewrite E1 in *. destruct S1 as (_ & _ & P1 & _ & _ & T1 & _ & N1 & R1 & _).
  assert (A1 : rh_stop h1 ∉ raised st1) by (rewrite R1; intros F%Ho; lia).
  destruct sc as [c|]; cbn [fmap option_fmap option_map].
  - destruct (spawn_thread_ok 1 (secondary_path_of p) c (default FocusedWindow mode) fps st1 (Hs c eq_refl) (Ht 1%nat))
      as (st2 & h2 & E2).
    pose proof (spawn_thread_spec 1 (secondary_path_of p) c (default FocusedWindow mode) fps st1) as S2.
    rewrite E2 in *. destruct S2 as (_ & _ & _ & _ & _ & _ & _ & _ & R2 & _).
    set (d := {| drh_primary := h1; drh_secondary := Some h2 |}).
    exists (st2 <| recording := Some d |>), p, d. split_and!; [done|done|done|by split; eauto| |done].
    unfold is_recording, is_active, is_raised. cbn. rewrite bool_decide_false; [done|]. by rewrite R2.
  - set (d := {| drh_primary := h1; drh_secondary := None |}).
    exists (st1 <| recording := Some d |>), p, d. split_and!; [done|done|done|by split; intros [? ?]| |done].
    unfold is_recording, is_active, is_raised. cbn. by rewrite bool_decide_false.
Qed.

(** After [RecordStop] the session is not recording, both stop flags are raised,
    a second [RecordStop] is refused, and no commit feeds the stopped encoders: their
    slots keep what they hold. *)
Theorem record_stop_silences fuel s a d st :
  recording st = Some d ->
  let st1 := (record_stop st).1 in
  (record_stop st).2 = RUnit /\ is_recording st1 = false /\ rh_stop (drh_primary d) ∈ raised st1 /\
  (forall sec, drh_secondary d = Some sec -> rh_stop sec ∈ raised st1) /\
  record_stop st1 = (st1, RFailure "not currently recording") /\
  forall st2 slot, maybe_tap_for_recording fuel s a st1 = Ok st2 ->
    (forall v, viewer st = Some v -> slot <> vh_frame_slot v) -> slots st2 !! slot = slots st1 !! slot.
Proof.
  intros Hd. unfold record_stop, take_recording. rewrite Hd. cbv zeta. cbn [fst snd].
  set (st1 := stop_both d _).
  assert (E : recording st1 = None /\ viewer st1 = viewer st).
  { unfold st1, stop_both. by destruct (drh_secondary d). }
  destruct E as [E1 E2]. unfold is_recording. rewrite E1. split_and!; [done|done| | |done|].
  - unfold st1, stop_both. destruct (drh_secondary d); cbn; set_solver.
  - intros sec Hs. unfold st1, stop_both. rewrite Hs. cbn. set_solver.
  - intros st2 slot H Hv. pose proof (feeds_tap fuel s a st1) as F. rewrite H in F.
    apply (fe_slots _ _ _ F). unfold active_slots, tap_encoders. rewrite E1, E2.
    destruct (viewer st) as [v|] eqn:V; [|set_solver]. specialize (Hv v eq_refl).
    destruct (is_raised st1 (vh_stop_flag v)); cbn; set_solver.
Qed.

(** Recording with [ffv1-vulkan] never starts where the media tool has no
    encoder of that literal name: the probe asks it for the label, although this
    encoder does not go through it. *)
Theorem ffv1_vulkan_refused fuel path sc mode fps st :
  ffmpeg_knows "ffv1-vulkan" = Ok false ->
  exists e, record_start fuel path (Some Ffv1Vulkan) sc mode fps st = Ok (st, RFailure e).
Proof.
  intros H. unfold record_start. cbv zeta.
  destruct (match path with Some p => Ok p | None => _ end) as [p|e]; [|by eauto].
  assert (K : exists e, record_checks p ((fun _ => secondary_path_of p) <$> sc) Ffv1Vulkan sc = Err e).
  { unfold record_checks. destruct (validate 1 p) as [[]|]; [|by eauto]. cbn.
    destruct (match _ with Some sp => validate 2 sp | None => Ok () end) as [[]|]; [|by eauto].
    destruct probe_ffmpeg as [[]|]; [|by eauto]. unfold probe_codec. cbn. rewrite H. eauto. }
  destruct K as [e K]. change (default Ffv1 (Some Ffv1Vulkan)) with Ffv1Vulkan. rewrite K. eauto.
Qed.
End Recording.

(** ** Stopping the viewer *)

Section Viewer.
Context {CE : CtlEnv}.

(** Between two polls the thread sleeps for a tenth of a second. *)
Hypothesis sleeps_between : forall n, 100 * Z.of_nat n <= elapsed_ms n.

Lemma poll_child_spec fuel k : (20 < k + fuel)%nat -> (0 < fuel)%nat ->
  exists n, (k <= n)%nat /\ (n <= Nat.max k 20)%nat /\ (forall m, (k <= m < n)%nat -> try_wait m = Ok false) /\
  exists b, poll_child fuel k = Some b /\
    (if b : bool then try_wait n = Ok false /\ 2000 <= elapsed_ms n else try_wait n <> Ok false).
Proof.
  revert k. induction fuel as [|fuel IH]; intros k Hk Hf; [lia|]. cbn [poll_child].
  destruct (try_wait k) as [[]|[]] eqn:W;
    [exists k; split_and!; [lia|lia|lia|exists false; by rewrite W]| |exists k; split_and!; [lia|lia|lia|exists false; by rewrite W]].
  destruct (Z.leb_spec 2000 (elapsed_ms k)) as [H|H];
    [exists k; split_and!; [lia|lia|lia|by exists true]|].
  pose proof (sleeps_between k). destruct (IH (S k)) as (n & H1 & H2 & H3 & b & Hb); [lia|lia|].
  exists n. split_and!; [lia|lia| |by exists b].
  intros m Hm. destruct (decide (m = k)) as [->|]; [done|]. apply H3. lia.
Qed.

(** Stopping the viewer always ends, within the two seconds of polling that 21
    polls cover: the viewer is gone from the session and its flag raised, its child
    got SIGTERM, and SIGKILL too exactly when no poll before the deadline found that
    it had exited. *)
Theorem viewer_stop_ends fuel v pid st :
  (20 < fuel)%nat -> viewer st = Some v -> vh_child v = Some pid ->
  exists st', take_viewer fuel st = Ok st' /\ viewer st' = None /\ vh_stop_flag v ∈ raised st' /\
    exists n, (n <= 20)%nat /\ (forall m, (m < n)%nat -> try_wait m = Ok false) /\
      ((out st' = out st ++ [ChildTerm pid] /\ try_wait n <> Ok false) \/
       (out st' = out st ++ [ChildTerm pid; ChildKill pid] /\ try_wait n = Ok false /\ 2000 <= elapsed_ms n)).
Proof.
  intros Hf Hv Hc. unfold take_viewer. rewrite Hv, Hc. cbn [kill_viewer_child].
  destruct (poll_child_spec fuel 0 ltac:(lia) ltac:(lia)) as (n & _ & Hn & Hw & b & -> & Hb).
  eexists. split; [reflexivity|].
  destruct b; (split_and!; [done|cbn; set_solver|]); exists n; (split; [done|]);
    (split; [intros m Hm; apply Hw; lia|]).
  - right. split; [cbn; by rewrite <- app_assoc|]. tauto.
  - left. split; [done|]. tauto.
Qed.
End Viewer.

(** ** A connection *)

(** What the session relies on of the serializers of its replies. *)
Class CtlWireOk `{Wire} := {
  cwl_request :: SerdeLaws SessionCtlRequest;
  cwl_info :: WireLaws SessionCtlInfo;
  cwl_windows :: WireLaws SessionCtlWindows;
  cwl_screenshot :: WireLaws SessionCtlScreenshot;
  cwl_started :: WireLaws SessionCtlRecordStarted;
  cwl_status :: WireLaws RecordStatusResponse;
  cwl_viewer_started :: WireLaws ViewerStarted;
  cwl_viewer_status :: WireLaws ViewerStatusResponse;
  cwl_unit :: WireLaws UnitResult;
}.

Section Connection.
Context {CE : CtlEnv} {HO : HashOrder} `{CtlWireOk}.

Lemma ctl_success_total {T} `{WireLaws T} id (v : T) :
  exists r, or_failure id (ctl_success id v) = Some r /\ scp_id r = id.
Proof.
  unfold ctl_success. pose proof (to_value_spec v) as S.
  destruct (to_value v) as [[val|e]|]; [eexists; split; [reflexivity|done]..|done].
Qed.

(** Every reply has a response, with the id of the request. *)
Lemma respond_total id r : exists resp, respond id r = Some resp /\ scp_id resp = id.
Proof. destruct r; cbn [respond]; [apply ctl_success_total..|eauto]. Qed.

(** The requests of a connection, one after another. *)
Fixpoint answers (fuel : nat) (reqs : list SessionCtlRequest) (st : State) :
    result (State * list SessionCtlResponse) stop :=
  match reqs with
  | [] => Ok (st, [])
  | req :: reqs' =>
      let? r := dispatch fuel (scq_method req) st in
      match respond (scq_id req) r.2 with
      | None => Err Panics
      | Some resp => let? t := answers fuel reqs' r.1 in Ok (t.1, resp :: t.2)
      end
  end.

Lemma answers_ids fuel reqs st st' resps :
  answers fuel reqs st = Ok (st', resps) -> scp_id <$> resps = scq_id <$> reqs.
Proof.
  revert st st' resps. induction reqs as [|q reqs IH]; intros st st' resps E; [by injection E as <- <-|].
  cbn [answers] in E. destruct (dispatch fuel (scq_method q) st) as [[st1 rep]|]; [|done]. cbn [fst snd] in E.
  destruct (respond_total (scq_id q) rep) as (resp & Hr & Hid). rewrite Hr in E.
  destruct (answers fuel reqs st1) as [[st2 l]|] eqn:A; [|done]. injection E as <- <-.
  rewrite !fmap_cons, Hid. f_equal. by eapply IH.
Qed.

Lemma handle_loop_serves fuel reqs pre bytes st st' resps sent out n frames :
  encode_all reqs pre = (bytes, Ok ()) -> answers fuel reqs st = Ok (st', resps) ->
  encode_all resps sent = (out, Ok ()) -> (length reqs < frames)%nat ->
  exists suffix, bytes = pre ++ suffix /\ (length reqs <= length suffix)%nat /\
    handle_loop fuel frames n (fun _ => None) (Stream suffix Eof) sent st = Ok (st', out, Closed).
Proof.
  revert pre st resps sent n frames.
  induction reqs as [|q reqs IH]; intros pre st resps sent n frames Eq Ea Er Hf;
    (destruct frames as [|frames]; [cbn in Hf; lia|]).
  - exists []. injection Eq as <-. injection Ea as <- <-. injection Er as <-.
    split_and!; [by rewrite app_nil_r|done|done].
  - cbn [encode_all] in Eq. unfold mbind, eff_mbind in Eq. rewrite encode_frame_eq in Eq.
    destruct (write_named q) as [p [?|]] eqn:Ew; [done|].
    destruct (Z.ltb_spec MAX_FRAME_SIZE (len_z p)) as [L|L]; [done|].
    cbn [answers] in Ea. destruct (dispatch fuel (scq_method q) st) as [[st1 rep]|] eqn:Ed; [|done].
    cbn [fst snd] in Ea. destruct (respond (scq_id q) rep) as [resp|] eqn:Hr; [|done].
    destruct (answers fuel reqs st1) as [[st2 l]|] eqn:A; [|done]. injection Ea as <- <-.
    cbn [encode_all] in Er. unfold mbind, eff_mbind in Er. rewrite encode_frame_eq in Er.
    destruct (write_named resp) as [rp [?|]] eqn:Erp; [done|].
    destruct (Z.ltb_spec MAX_FRAME_SIZE (len_z rp)) as [L2|L2]; [done|].
    destruct (IH _ _ _ _ (S n) frames Eq A Er ltac:(cbn in Hf; lia)) as (sfx & -> & Hl & Hh).
    exists (frame_bytes p ++ sfx). split; [by rewrite app_assoc|]. split.
    { rewrite length_app. unfold frame_bytes. rewrite length_app, length_to_be. cbn. lia. }
    cbn [handle_loop]. unfold ctl_read_frame.
    rewrite read_frame_bytes, decode_frame_bytes, (from_slice_write_named q p Ew) by done.
    rewrite Ed. cbn [fst snd]. rewrite Hr, encode_frame_eq, Erp, (proj2 (Z.ltb_ge _ _)) by done. exact Hh.
Qed.

(** C8: Whatever requests a client of the session's own user encodes onto its
    connection, if each of them returns and each response fits a frame, the
    connection answers all of them, in order and with their ids, each served in the
    state the one before left, and ends when the client closes it. *)
Theorem control_answers_in_order fuel reqs bytes st st' resps out :
  encode_all reqs [] = (bytes, Ok ()) -> answers fuel reqs st = Ok (st', resps) ->
  encode_all resps [] = (out, Ok ()) ->
  handle fuel (Ok getuid) (fun _ => None) (Stream bytes Eof) st = Ok (st', out, Closed) /\
  scp_id <$> resps = scq_id <$> reqs.
Proof.
  intros Eq Ea Er. split; [|by eapply answers_ids].
  assert (Hl : (length reqs <= length bytes)%nat).
  { destruct (handle_loop_serves fuel reqs [] bytes st st' resps [] out 0 (S (length reqs)) Eq Ea Er ltac:(lia))
      as (sfx & -> & Hl & _). exact Hl. }
  destruct (handle_loop_serves fuel reqs [] bytes st st' resps [] out 0 (S (length bytes)) Eq Ea Er ltac:(lia))
    as (sfx & -> & _ & Hh).
  unfold handle, accept_peer. rewrite Z.eqb_refl. exact Hh.
Qed.

End Connection.

(** ** Screenshots *)

(** Samples of equal size, one after another. *)
Lemma map_png_chunks {A} (f : A -> result (list Z) png_error) k l out :
  (forall a b, f a = Ok b -> length b = k) -> map_png f l = Ok out ->
  length out = (length l * k)%nat /\
  forall i a, l !! i = Some a -> f a = Ok (take k (drop (i * k) out)).
Proof.
  intros Hk. revert out. induction l as [|a l IH]; intros out H; [by injection H as <-|].
  cbn [map_png] in H. destruct (f a) as [b|] eqn:Ea; [|done].
  destruct (map_png f l) as [bs|] eqn:El; [|done]. injection H as <-.
  destruct (IH bs eq_refl) as [L G]. pose proof (Hk a b Ea) as Hb. split.
  - rewrite length_app, Hb, L. cbn. lia.
  - intros [|i] a'.
    + intros [= <-]. by rewrite drop_0, take_app_exact.
    + intros Hi. rewrite (G i a' Hi). do 2 f_equal. cbn [Nat.mul]. rewrite drop_app, (drop_ge b) by lia.
      cbn. f_equal. lia.
Qed.

Lemma range_lookup n i : 0 <= i < n -> range 0 n !! Z.to_nat i = Some i.
Proof.
  intros Hi. unfold range. rewrite list_lookup_fmap, lookup_seq_lt by lia. cbn. f_equal. lia.
Qed.

Lemma length_range n : length (range 0 n) = Z.to_nat n.
Proof. unfold range. rewrite length_fmap, length_seq. f_equal. lia. Qed.

(** The pixel of the frame, in the order of the picture. *)
Definition rgba_of (bytes : list Z) (stride x y : Z) : list Z :=
  let p := y * stride + x * 4 in
  [byte_at bytes (p + 2); byte_at bytes (p + 1); byte_at bytes p; byte_at bytes (p + 3)].

Lemma png_samples_pixels pixels w h stride w' h' a out :
  png_samples pixels w h stride Argb8888 = Ok (w', h', a, out) ->
  w' = w /\ h' = h /\ a = true /\ 0 <= w /\ 0 <= h /\ len out = w * h * 4 /\
  forall x y, 0 <= x < w -> 0 <= y < h ->
    take 4 (drop (Z.to_nat ((y * w + x) * 4)) out) = rgba_of pixels stride x y.
Proof.
  unfold png_samples. destruct (Z.ltb_spec w 0) as [|Hw]; [done|]. destruct (Z.ltb_spec h 0) as [|Hh]; [done|].
  destruct (stride <? 0); [done|]. cbn [is_argb].
  set (px := fun y x => png_pixel pixels true (y * stride + x * 4)).
  destruct (map_png _ (range 0 h)) as [bs|] eqn:E; [|done]. intros [= <- <- <- <-].
  assert (P : forall y x b, px y x = Ok b -> length b = 4%nat /\ b = rgba_of pixels stride x y).
  { intros y x b. unfold px, png_pixel. destruct (_ <? _); [done|]. by intros [= <-]. }
  assert (R : forall y b, map_png (px y) (range 0 w) = Ok b -> length b = (Z.to_nat w * 4)%nat /\
    forall i x, range 0 w !! i = Some x -> px y x = Ok (take 4 (drop (i * 4) b))).
  { intros y b Hb. destruct (map_png_chunks (px y) 4 _ b (fun x c Hc => proj1 (P y x c Hc)) Hb) as [L G].
    split; [|done]. by rewrite L, length_range. }
  destruct (map_png_chunks (fun y => map_png (px y) (range 0 w)) (Z.to_nat w * 4) _ bs
    (fun y b Hb => proj1 (R y b Hb)) E) as [L G].
  split_and!; try done.
  - unfold len. rewrite L, length_range. nia.
  - intros x y Hx Hy. specialize (G _ _ (range_lookup h y Hy)). apply R in G as [Lr G].
    specialize (G _ _ (range_lookup w x Hx)). apply P in G as [_ <-].
    rewrite skipn_firstn_comm, take_take, drop_drop. f_equal; [nia|]. f_equal. nia.
Qed.

Section Screenshots.
Context {CE : CtlEnv} {HO : HashOrder}.

(** A screenshot that succeeds leaves the session as it is and is the encoding
    of the window's composited frame: of its size, and each of its pixels the red,
    green, blue and alpha bytes of the frame at that place. *)
Theorem screenshot_pixels fuel wid st st' s :
  dispatch fuel (Ctl.Screenshot wid) st = Ok (st', RScreenshot s) ->
  st' = st /\ exists bytes w h stride samples,
    capture_window fuel wid st = Ok (Some (bytes, w, h, stride)) /\
    scs_width s = as_u 32 w /\ scs_height s = as_u 32 h /\
    png_encode w h true samples = Ok (scs_png s) /\ len samples = w * h * 4 /\
    forall x y, 0 <= x < w -> 0 <= y < h ->
      take 4 (drop (Z.to_nat ((y * w + x) * 4)) samples) = rgba_of bytes stride x y.
Proof.
  cbn [dispatch]. destruct (capture_window fuel wid st) as [[[[[bytes w] h] stride]|]|] eqn:C; [|done|done].
  unfold screenshot_reply, encode_png.
  destruct (png_samples bytes w h stride Argb8888) as [[[[w' h'] a] samples]|] eqn:P; [|done].
  destruct (png_samples_pixels _ _ _ _ _ _ _ _ P) as (-> & -> & -> & _ & _ & L & G).
  destruct (png_encode w h true samples) as [png|] eqn:Ep; [|done]. intros [= <- <-]. split; [done|].
  exists bytes, w, h, stride, samples. by split_and!.
Qed.
End Screenshots.

(** ** Examples *)

Definition demo_ctl : CtlEnv := {|
  getenv s := if (s =? "HOME")%string then Some "/home/u"%string else None;
  pw_dir := None; getuid := 1000; create_dir_all _ := None; now_secs := 1700000000;
  ffmpeg_found := true; ffmpeg_knows e := Ok (negb (e =? "ffv1-vulkan")%string);
  path_exists _ := true; is_file _ := false; current_exe_dir := None; vk_open := Ok (true, "gpu"%string);
  thread_spawn _ := None; cuda_loads := false; nvenc_loads := false; vulkan_h264 := true;
  bind_listener _ := None; ephemeral_port := Ok 40000; spawn_child _ _ := Ok 77%nat;
  accept_bridge := None; clone_socket := None;
  try_wait n := Ok (3 <=? n)%nat; elapsed_ms n := 100 * Z.of_nat n;
  png_encode _ _ _ samples := Ok samples;
|}.

Definition demo_session : State := state_new "demo" 2 1 1 None false 5000000.

Definition demo_started : State * reply :=
  match @record_start demo_ctl key_order 0 None None (Some H264Nvenc) None None demo_session with
  | Ok r => r
  | Err _ => (demo_session, RUnit)
  end.

Lemma record_start_confined_witness :
  exists d, recording demo_started.1 = Some d /\
    rh_path (drh_primary d) =
      "/home/u/.local/share/waymux/recordings/demo-1700000000.mkv"%string /\
    @confined demo_ctl "/home/u/.local/share/waymux/recordings/demo-1700000000.mkv" /\
    @confined demo_ctl "/home/u/.local/share/waymux/recordings/demo-1700000000.secondary.mkv".
Proof.
  destruct (@record_start_confined demo_ctl key_order 0 None None (Some H264Nvenc) None None demo_session
    demo_started.1
    {| scr_path := "/home/u/.local/share/waymux/recordings/demo-1700000000.mkv";
       scr_secondary_path := Some "/home/u/.local/share/waymux/recordings/demo-1700000000.secondary.mkv"%string |})
    as (_ & d & Hd & Hp & _ & C1 & C2).
  { vm_compute. reflexivity. }
  exists d. split; [exact Hd|]. split; [exact Hp|]. split; [exact C1|exact C2].
Defined.

Lemma record_start_default_witness :
  exists st1 d, recording st1 = Some d /\ is_recording st1 = true /\ is_Some (drh_secondary d).
Proof.
  destruct (@record_start_default demo_ctl key_order 0 None (Some H264Nvenc) None None demo_session)
    as (st1 & p & d & _ & Hd & _ & Hs & Hr & _).
  - reflexivity.
  - vm_compute. intros H. repeat (apply elem_of_cons in H as [H|H]; [discriminate H|]). inversion H.
  - reflexivity.
  - reflexivity.
  - reflexivity.
  - reflexivity.
  - split; [reflexivity|]. discriminate.
  - intros c E. injection E as <-. split; [reflexivity|]. discriminate.
  - reflexivity.
  - intros f Hf. exfalso. set_solver.
  - exists st1, d. split; [exact Hd|]. split; [exact Hr|]. apply Hs. eauto.
Defined.

Lemma record_stop_silences_witness :
  exists d, recording demo_started.1 = Some d /\
    (record_stop demo_started.1).2 = RUnit /\ is_recording (record_stop demo_started.1).1 = false.
Proof.
  destruct (recording demo_started.1) as [d|] eqn:E; [|vm_compute in E; discriminate E].
  exists d. split; [reflexivity|].
  destruct (@record_stop_silences key_order 0 0%nat true d demo_started.1 E) as (H1 & H2 & _).
  split; [exact H1|exact H2].
Defined.

Lemma ffv1_vulkan_refused_witness :
  exists e, @record_start demo_ctl key_order 0 None (Some Ffv1Vulkan) None None None demo_session =
    Ok (demo_session, RFailure e).
Proof. apply (@ffv1_vulkan_refused demo_ctl key_order). reflexivity. Defined.

Definition demo_viewed : State :=
  demo_session <| viewer := Some {| vh_url := ""; vh_child := Some 77%nat; vh_stop_flag := 3%nat;
                                    vh_codec := H264Vulkan; vh_frame_slot := 4%nat |} |>.

Lemma viewer_stop_ends_witness :
  exists st', @take_viewer demo_ctl 21 demo_viewed = Ok st' /\ viewer st' = None.
Proof.
  destruct (@viewer_stop_ends demo_ctl (fun n => Z.le_refl _) 21
    {| vh_url := ""; vh_child := Some 77%nat; vh_stop_flag := 3%nat; vh_codec := H264Vulkan;
       vh_frame_slot := 4%nat |} 77 demo_viewed) as (st' & H1 & H2 & _).
  - lia.
  - reflexivity.
  - reflexivity.
  - exists st'. split; [exact H1|exact H2].
Defined.

(** Two requests, a byte each; replies of one byte, the id. *)
Definition ctl_status : SessionCtlRequest := {| scq_id := 3; scq_method := Ctl.RecordStop |}.
Definition ctl_resize : SessionCtlRequest := {| scq_id := 4; scq_method := Ctl.Resize 8 6 |}.

Definition ctl_msgpack : MsgPack := {|
  Value := list Z;
  value_serde := {| write_named (v : list Z) := (v, None); from_slice l := Ok l |};
  write_value v := Ok v;
|}.

Definition ctl_refuse {T} : Serde T := {|
  write_named (_ : T) := ([], Some "unsupported"%string);
  from_slice _ := Err "unsupported"%string;
|}.

Definition ctl_request_serde : Serde SessionCtlRequest := {|
  write_named (r : SessionCtlRequest) :=
    match r with
    | {| scq_id := 3; scq_method := Ctl.RecordStop |} => ([3], None)
    | {| scq_id := 4; scq_method := Ctl.Resize 8 6 |} => ([4], None)
    | _ => ([], Some "unsupported"%string)
    end;
  from_slice (l : list Z) :=
    match l with
    | [3] => Ok ctl_status
    | [4] => Ok ctl_resize
    | _ => Err "unsupported"%string
    end;
|}.

Definition ctl_response_serde : Serde (@SessionCtlResponse ctl_msgpack) := {|
  write_named (r : @SessionCtlResponse ctl_msgpack) := ([scp_id r], None);
  from_slice _ := Err "unused"%string;
|}.

Definition ctl_wire : @Wire ctl_msgpack := {|
  w_request := ctl_refuse; w_response := ctl_refuse; w_event := ctl_refuse;
  w_ctl_request := ctl_request_serde; w_ctl_response := ctl_response_serde;
  w_ctl_windows := ctl_refuse; w_ctl_info := ctl_refuse;
  w_screenshot := ctl_refuse; w_record_started := ctl_refuse; w_record_status := ctl_refuse;
  w_viewer_started := ctl_refuse; w_viewer_status := ctl_refuse; w_hello := ctl_refuse;
  w_sessions := ctl_refuse; w_created := ctl_refuse; w_attach := ctl_refuse; w_windows := ctl_refuse;
  w_unit := ctl_refuse; w_spawn := ctl_refuse; w_idle := ctl_refuse;
|}.

Lemma ctl_refuse_wire {T} : @WireLaws T ctl_msgpack ctl_refuse.
Proof. split; [|done|done]. split; cbn; [done | constructor]. Qed.

Lemma ctl_request_laws : @SerdeLaws SessionCtlRequest ctl_request_serde.
Proof.
  split.
  - intros v bytes. cbn. repeat (case_match; try discriminate); intros; simplify_eq; done.
  - intros v. cbn. repeat case_match; repeat constructor; done.
Qed.

Lemma ctl_wire_ok : @CtlWireOk ctl_msgpack ctl_wire.
Proof. split; first [apply ctl_request_laws | apply ctl_refuse_wire]. Qed.

Lemma control_answers_in_order_witness :
  exists st' out, @handle demo_ctl key_order ctl_msgpack ctl_wire 0 (Ok 1000) (fun _ => None)
    (Stream [0; 0; 0; 1; 3; 0; 0; 0; 1; 4] Eof) demo_session = Ok (st', out, Closed) /\
    snapshot st' = (8, 6, 1).
Proof.
  destruct (@answers demo_ctl key_order ctl_msgpack ctl_wire 0 [ctl_status; ctl_resize] demo_session)
    as [[st' resps]|] eqn:E; [|vm_compute in E; discriminate E].
  exists st', [0; 0; 0; 1; 3; 0; 0; 0; 1; 4]. split.
  - refine (proj1 (@control_answers_in_order demo_ctl key_order ctl_msgpack ctl_wire ctl_wire_ok 0
      [ctl_status; ctl_resize] _ demo_session st' resps _ _ E _)).
    + vm_compute. reflexivity.
    + vm_compute in E. injection E as <- <-. vm_compute. reflexivity.
  - vm_compute in E. injection E as <- <-. vm_compute. reflexivity.
Defined.

(** One window whose buffer is two pixels wide. *)
Definition demo_shot : State :=
  demo_session
    <| windows_by_id := {[1 := (5%nat, 0%nat)]} |>
    <| surfs := {[5%nat := surface_default <| current_buffer := Some 9%nat |>]} |>
    <| bufs := {[9%nat := {| buf_protocol_id := 3; buf_drm_format := 0; buf_modifier := 0; buf_data := 0%nat;
         buf_kind := Shm {| shm_pool := {| pool_mmap := Some [1; 2; 3; 255; 5; 6; 7; 255] |};
                            shm_offset := 0; shm_width := 2; shm_height := 1; shm_stride := 8;
                            shm_format := Argb8888 |} |}]} |>.

Lemma screenshot_pixels_witness :
  exists st' s samples, @dispatch demo_ctl key_order 5 (Ctl.Screenshot 1) demo_shot = Ok (st', RScreenshot s) /\
    take 4 (drop 4 samples) = [7; 6; 5; 255].
Proof.
  destruct (@dispatch demo_ctl key_order 5 (Ctl.Screenshot 1) demo_shot) as [[st' rep]|] eqn:E;
    [|vm_compute in E; discriminate E].
  destruct rep as [| |s| | | | | |]; try (vm_compute in E; discriminate E).
  destruct (@screenshot_pixels demo_ctl key_order 5 1 demo_shot st' s E)
    as (_ & bytes & w & h & stride & samples & C & _ & _ & _ & _ & G).
  exists st', s, samples. split; [reflexivity|].
  assert (K : (w, h) = (2, 1)) by (vm_compute in C; injection C as <- <- <- <-; reflexivity).
  injection K as -> ->. specialize (G 1 0 ltac:(lia) ltac:(lia)).
  change (Z.to_nat ((0 * 2 + 1) * 4)) with 4%nat in G. rewrite G.
  vm_compute in C. injection C as <- <-. vm_compute. reflexivity.
Defined.
