(* ===== verification/InputBridge.v ===== *)
(** * Input from the host compositor ([crates/waymux-session/src/input_bridge.rs])

    The bridge owns what the host has granted to the attached window, a shortcuts
    inhibitor, a pointer lock, a relative pointer, and remembers the keys and
    buttons that are down. Its requests to the host are the log [host]; what it
    does to the session is the session's own injection. *)

From Stdlib Require Import ZArith Lia.
From stdpp Require Import prelude strings gmap list.
From S2P Require Import Prelude Words Floats Messages Composite Session SessionInput.

Open Scope Z_scope.

Inductive LockState := Unlocked | Requesting | Active | Suspended.

#[global] Instance LockState_eq_dec : EqDecision LockState.
Proof. solve_decision. Defined.

(** The [AxisSource]s of the protocol: wheel, finger, continuous, wheel tilt. *)
Record PendingAxis := { pa_source : option Z; pa_v : f64; pa_h : f64; pa_stop_v : bool; pa_stop_h : bool }.

Definition pending_axis_default : PendingAxis :=
  {| pa_source := None; pa_v := f64_zero; pa_h := f64_zero; pa_stop_v := false; pa_stop_h := false |}.

(** Requests to the host. *)
Inductive host_request :=
| InhibitShortcuts (id : nat)
| InhibitorDestroy (id : nat)
| LockPointer (id : nat)
| LockDestroy (id : nat)
| GetRelativePointer (id : nat)
| RelativeDestroy (id : nat).

Record Bridge := {
  current_modifiers : Z;
  current_mods_latched : Z;
  current_mods_locked : Z;
  current_mod_group : Z;
  keys_held : gset Z;
  last_pointer_x : f64;
  last_pointer_y : f64;
  buttons_held : gset Z;
  pending_axis : PendingAxis;
  inhibit_manager : bool;
  outer_inhibitor : option nat;
  pointer_constraints : bool;
  relative_manager : bool;
  active_lock : option nat;
  active_relative : option nat;
  lock_state : LockState;
  host : list host_request;
  host_next : nat;
}.

#[export] Instance eta_Bridge : Eta Bridge := fun r =>
  Build_Bridge (current_modifiers r) (current_mods_latched r) (current_mods_locked r)
    (current_mod_group r) (keys_held r) (last_pointer_x r) (last_pointer_y r) (buttons_held r)
    (pending_axis r) (inhibit_manager r) (outer_inhibitor r) (pointer_constraints r)
    (relative_manager r) (active_lock r) (active_relative r) (lock_state r) (host r) (host_next r).

(** [InputBridge::new], of the managers the host has. *)
Definition bridge_new (inhibit constraints relative : bool) : Bridge :=
  {| current_modifiers := 0; current_mods_latched := 0; current_mods_locked := 0;
     current_mod_group := 0; keys_held := ∅; last_pointer_x := f64_zero; last_pointer_y := f64_zero;
     buttons_held := ∅; pending_axis := pending_axis_default; inhibit_manager := inhibit;
     outer_inhibitor := None; pointer_constraints := constraints; relative_manager := relative;
     active_lock := None; active_relative := None; lock_state := Unlocked; host := []; host_next := 0 |}.

Definition request (r : host_request) (b : Bridge) : Bridge := b <| host ::= (fun l => l ++ [r]) |>.

(** A new object of the host. *)
Definition create (mk : nat -> host_request) (b : Bridge) : Bridge * nat :=
  let id := host_next b in (request (mk id) (b <| host_next ::= S |>), id).

(** ** Shortcuts inhibitor *)

Definition destroy_inhibitor (b : Bridge) : Bridge :=
  match outer_inhibitor b with
  | Some i => request (InhibitorDestroy i) (b <| outer_inhibitor := None |>)
  | None => b
  end.

Definition update_inhibitor (want : bool) (b : Bridge) : Bridge :=
  let have := bool_decide (is_Some (outer_inhibitor b)) in
  if want && negb have then
    if inhibit_manager b then
      let '(b, id) := create InhibitShortcuts b in b <| outer_inhibitor := Some id |>
    else b
  else if negb want && have then destroy_inhibitor b
  else b.

Definition destroy_lock (b : Bridge) : Bridge :=
  match active_lock b with
  | Some l => request (LockDestroy l) (b <| active_lock := None |>)
  | None => b
  end.

Definition destroy_relative (b : Bridge) : Bridge :=
  match active_relative b with
  | Some r => request (RelativeDestroy r) (b <| active_relative := None |>)
  | None => b
  end.

Definition cleanup (b : Bridge) : Bridge := destroy_lock (destroy_relative (destroy_inhibitor b)).

Definition reset_for_seat_change (b : Bridge) : Bridge := (destroy_inhibitor b) <| keys_held := ∅ |>.

(** ** Pointer lock *)

(** A position without a button, a key or a scroll. *)
Definition move_pointer (x y : f64) (st : State) : result State stop :=
  let? r := inject_pointer None false x y 0 false f64_zero f64_zero 0 st in Ok r.1.

(** [pointer] says whether the seat has one. *)
Definition update_lock (pointer : bool) (b : Bridge) (st : State) : result (Bridge * State) stop :=
  match lock_state b, pointer_lock_active st with
  | Unlocked, true =>
      if pointer_constraints b && pointer then
        let '(b, id) := create LockPointer b in
        Ok (b <| active_lock := Some id |> <| lock_state := Requesting |>, st)
      else Ok (b, st)
  | Active, false | Suspended, false | Requesting, false =>
      let b := (destroy_lock b) <| lock_state := Unlocked |> in
      let '(w, h, _) := snapshot st in
      let x := f64_div (f64_of_int w) (f64_of_int 2) in
      let y := f64_div (f64_of_int h) (f64_of_int 2) in
      let b := b <| last_pointer_x := x |> <| last_pointer_y := y |> in
      let? st := move_pointer x y st in
      Ok (b, st)
  | _, _ => Ok (b, st)
  end.

Definition on_niri_locked (pointer : bool) (b : Bridge) : Bridge :=
  match lock_state b with
  | Requesting =>
      let b :=
        match active_relative b with
        | None =>
            if relative_manager b && pointer then
              let '(b, id) := create GetRelativePointer b in b <| active_relative := Some id |>
            else b
        | Some _ => b
        end in
      b <| lock_state := Active |>
  | Suspended => b <| lock_state := Active |>
  | _ => b
  end.

Definition on_niri_unlocked (b : Bridge) : Bridge :=
  if decide (lock_state b = Active) then b <| lock_state := Suspended |> else b.

Definition on_relative_motion (utime_hi utime_lo : Z) (dx dy dxu dyu : f64) (b : Bridge) (st : State) :
    result (Bridge * State) stop :=
  let x := f64_add (last_pointer_x b) dx in
  let y := f64_add (last_pointer_y b) dy in
  let b := b <| last_pointer_x := x |> <| last_pointer_y := y |> in
  let? st := move_pointer x y st in
  Ok (b, inject_relative_pointer utime_hi utime_lo dx dy dxu dyu st).

(** ** Keyboard *)

(** [chunks_exact(4)] of the array of the enter event, as little-endian words. *)
Fixpoint key_codes (bytes : list Z) : list Z :=
  match bytes with
  | a :: b :: c :: d :: rest => from_le [a; b; c; d] :: key_codes rest
  | _ => []
  end.

Definition on_keyboard_enter (keys : list Z) (b : Bridge) : Bridge :=
  b <| keys_held := list_to_set (key_codes keys) |>.

(** [order] is the order in which the set drains. *)
Definition on_keyboard_leave (order : gset Z -> list Z) (b : Bridge) (st : State) : Bridge * State :=
  (b <| keys_held := ∅ |>,
   for_each (order (keys_held b)) (fun key st => (inject_key key false 0 0 0 0 st).1) st).

Definition on_keyboard_modifiers (depressed latched locked group : Z) (b : Bridge) : Bridge :=
  b <| current_modifiers := depressed |> <| current_mods_latched := latched |>
    <| current_mods_locked := locked |> <| current_mod_group := group |>.

Definition on_keyboard_key (key : Z) (pressed : bool) (b : Bridge) (st : State) : Bridge * State :=
  let b := b <| keys_held ::= (fun s => if pressed then {[key]} ∪ s else s ∖ {[key]}) |> in
  (b, (inject_key key pressed (current_modifiers b) (current_mods_latched b) (current_mods_locked b)
         (current_mod_group b) st).1).

(** ** Pointer *)

Definition on_pointer_motion (x y : f64) (b : Bridge) (st : State) : result (Bridge * State) stop :=
  let dx := f64_sub x (last_pointer_x b) in
  let dy := f64_sub y (last_pointer_y b) in
  let b := b <| last_pointer_x := x |> <| last_pointer_y := y |> in
  let? st := move_pointer x y st in
  Ok (b, if (f64_nonzero dx || f64_nonzero dy) && has_relative_pointers st
         then inject_relative_pointer 0 0 dx dy dx dy st else st).

Definition button_event (button : Z) (pressed : bool) (b : Bridge) (st : State) : result State stop :=
  let? r := inject_pointer None false (last_pointer_x b) (last_pointer_y b) button pressed
              f64_zero f64_zero 0 st in
  Ok r.1.

Definition on_pointer_button (button : Z) (pressed : bool) (b : Bridge) (st : State) :
    result (Bridge * State) stop :=
  let b := b <| buttons_held ::= (fun s => if pressed then {[button]} ∪ s else s ∖ {[button]}) |> in
  let? st := button_event button pressed b st in
  Ok (b, st).

(** Unknown sources are [None]. *)
Definition on_pointer_axis_source (source : option Z) (b : Bridge) : Bridge :=
  b <| pending_axis ::= (fun a => {| pa_source := source; pa_v := pa_v a; pa_h := pa_h a;
                                     pa_stop_v := pa_stop_v a; pa_stop_h := pa_stop_h a |}) |>.

Definition on_pointer_axis (axis : option Axis) (value : f64) (b : Bridge) : Bridge :=
  b <| pending_axis ::= (fun a =>
    match axis with
    | Some VerticalScroll => {| pa_source := pa_source a; pa_v := f64_add (pa_v a) value; pa_h := pa_h a;
                                pa_stop_v := pa_stop_v a; pa_stop_h := pa_stop_h a |}
    | Some HorizontalScroll => {| pa_source := pa_source a; pa_v := pa_v a; pa_h := f64_add (pa_h a) value;
                                  pa_stop_v := pa_stop_v a; pa_stop_h := pa_stop_h a |}
    | None => a
    end) |>.

Definition on_pointer_axis_stop (axis : option Axis) (b : Bridge) : Bridge :=
  b <| pending_axis ::= (fun a =>
    match axis with
    | Some VerticalScroll => {| pa_source := pa_source a; pa_v := pa_v a; pa_h := pa_h a;
                                pa_stop_v := true; pa_stop_h := pa_stop_h a |}
    | Some HorizontalScroll => {| pa_source := pa_source a; pa_v := pa_v a; pa_h := pa_h a;
                                  pa_stop_v := pa_stop_v a; pa_stop_h := true |}
    | None => a
    end) |>.

Definition on_pointer_frame (b : Bridge) (st : State) : Bridge * State :=
  let a := pending_axis b in
  (b <| pending_axis := pending_axis_default |>,
   if f64_nonzero (pa_v a) || f64_nonzero (pa_h a) || pa_stop_v a || pa_stop_h a
   then (inject_axis (pa_source a) (pa_h a) (pa_v a) (pa_stop_h a) (pa_stop_v a) st).1 else st).

Definition on_pointer_leave (order : gset Z -> list Z) (b : Bridge) (st : State) :
    result (Bridge * State) stop :=
  let? st := for_each_in (order (buttons_held b)) (fun btn => button_event btn false b) st in
  Ok (b <| buttons_held := ∅ |>, st).
