(* ===== verification/InputBridgeProps.v ===== *)
(** * What the host and the session see of the input bridge

    No key stays down in the session once the host takes the keyboard away; the
    host never sees a second inhibitor, lock or relative pointer while the bridge
    still has one, and nothing is left after the cleanup. *)

From Stdlib Require Import ZArith Lia.
From stdpp Require Import prelude strings gmap list.
From S2P Require Import Prelude Words Floats Messages Composite Session SessionInput Compositor SessionFocus InputBridge.

Open Scope Z_scope.

(** ** Keys as the clients see them *)

Definition kd_step (k : nat) (x : Z) (d : bool) (o : output) : bool :=
  match o with
  | KbdKey k' _ _ x' s => if decide (k' = k /\ x' = x) then bool_decide (s = Pressed) else d
  | _ => d
  end.

(** Keyboard [k] was told last that key [x] is down. *)
Definition key_down (k : nat) (x : Z) (l : list output) : bool := foldl (kd_step k x) false l.

(** The keyboards an injected key goes to. *)
Definition target_kbds (st : State) : list resource :=
  match focused_client st with Some c => live_of (keyboards st) c st | None => [] end.

Lemma key_messages_down kbds sm sk tm kc pr d la lo g k x b0 :
  foldl (kd_step k x) b0 (key_messages kbds sm sk tm kc (key_state pr) d la lo g) =
  if decide (x = kc /\ k ∈ ids kbds) then pr else b0.
Proof.
  revert b0. induction kbds as [|r kbds IH]; intros b0.
  - cbn. rewrite decide_False; [done|]. intros [_ H]. by apply elem_of_nil in H.
  - change (key_messages (r :: kbds) sm sk tm kc (key_state pr) d la lo g) with
      ([KbdModifiers (res_id r) sm d la lo g; KbdKey (res_id r) sk tm kc (key_state pr)] ++
       key_messages kbds sm sk tm kc (key_state pr) d la lo g).
    rewrite foldl_app, IH. cbn [foldl kd_step]. unfold ids. rewrite fmap_cons.
    assert (P : bool_decide (key_state pr = Pressed) = pr) by by destruct pr.
    rewrite P. repeat case_decide; try done; exfalso; set_solver.
Qed.

Lemma target_ext st st' :
  focused_client st' = focused_client st /\ keyboards st' = keyboards st /\ alive st' = alive st ->
  target_kbds st' = target_kbds st.
Proof. intros (E1 & E2 & E3). unfold target_kbds, live_of, live. by rewrite E1, E2, E3. Qed.

Lemma inject_key_targets kc pr d la lo g st :
  target_kbds (inject_key kc pr d la lo g st).1 = target_kbds st.
Proof.
  unfold inject_key. destruct (focused_client st) as [c|] eqn:Hc; [|done].
  destruct (live_of (keyboards st) c st) as [|k ks] eqn:L; [done|]. cbn [next_serial]. cbv zeta. cbn [fst].
  match goal with |- target_kbds (wake_compositor ?s) = _ => change (target_kbds s = target_kbds st) end.
  apply target_ext.
  by apply (for_each_inv (fun x => focused_client x = focused_client st /\ keyboards x = keyboards st /\ alive x = alive st)).
Qed.

(** What a key does to the log. *)
Lemma inject_key_log kc pr d la lo g st :
  exists l, out (inject_key kc pr d la lo g st).1 = out st ++ l /\
    forall k x b0, foldl (kd_step k x) b0 l =
      if decide (x = kc /\ k ∈ ids (target_kbds st)) then pr else b0.
Proof.
  unfold target_kbds. destruct (focused_client st) as [c|] eqn:Hc.
  2:{ exists []. rewrite inject_key_none by congruence. split; [by rewrite app_nil_r|].
      intros. cbn. rewrite decide_False; [done|]. intros [_ H]. by apply elem_of_nil in H. }
  destruct (decide (live_of (keyboards st) c st = [])) as [E|E].
  { exists []. rewrite inject_key_none by congruence. split; [by rewrite app_nil_r|].
    intros. cbn. rewrite decide_False; [done|]. rewrite E. intros [_ H]. by apply elem_of_nil in H. }
  destruct (inject_key_some kc pr d la lo g c st Hc E) as (st' & sm & sk & tm & -> & _ & O). cbn [fst].
  eexists. split; [exact O|]. intros k x b0. rewrite foldl_app. cbn. apply key_messages_down.
Qed.

(** ** A focus period of the host's keyboard *)

Inductive kbd_event :=
| Modifiers (depressed latched locked group : Z)
| Key (key : Z) (pressed : bool).

Definition on_kbd_event (e : kbd_event) (s : Bridge * State) : Bridge * State :=
  match e with
  | Modifiers d la lo g => (on_keyboard_modifiers d la lo g s.1, s.2)
  | Key key pressed => on_keyboard_key key pressed s.1 s.2
  end.

(** Keys that are down since [st0] are held, and only target keyboards know of any. *)
Definition held_inv (st0 : State) (b : Bridge) (st : State) : Prop :=
  target_kbds st = target_kbds st0 /\
  exists l, out st = out st0 ++ l /\
    forall k x, key_down k x l = true -> x ∈ keys_held b /\ k ∈ ids (target_kbds st0).

Lemma held_inv_key st0 b st kc pr d la lo g held :
  held_inv st0 b st -> (pr = true -> kc ∈ held) ->
  (pr = false -> keys_held b ∖ {[kc]} ⊆ held) -> (pr = true -> keys_held b ⊆ held) ->
  held_inv st0 (b <| keys_held := held |>) (inject_key kc pr d la lo g st).1.
Proof.
  intros (T & l & O & H) Hp Hr Hs. split; [by rewrite inject_key_targets|].
  destruct (inject_key_log kc pr d la lo g st) as (m & Om & D). exists (l ++ m).
  split; [by rewrite Om, O, app_assoc|]. intros k x. unfold key_down. rewrite foldl_app, D, T.
  change (foldl (kd_step k x) false l) with (key_down k x l). cbn [keys_held].
  destruct (decide (x = kc /\ k ∈ ids (target_kbds st0))) as [[-> Hk]|N].
  - intros ->. split; [by apply Hp|done].
  - intros Hd. destruct (H k x Hd) as [Hx Hk]. split; [|done]. cbn.
    destruct pr; [by apply Hs|]. apply Hr; [done|]. set_solver.
Qed.

Lemma held_inv_event st0 e s : held_inv st0 s.1 s.2 -> held_inv st0 (on_kbd_event e s).1 (on_kbd_event e s).2.
Proof.
  destruct s as [b st], e as [d la lo g|key pr]; cbn [fst snd on_kbd_event]; [done|]. intros I.
  unfold on_keyboard_key. cbn [fst snd].
  change (b <| keys_held ::= _ |>) with
    (b <| keys_held := (if pr then {[key]} ∪ keys_held b else keys_held b ∖ {[key]}) |>).
  apply held_inv_key; [done|..]; destruct pr; intros; try done; set_solver.
Qed.

Lemma held_inv_leave order st0 b st :
  (forall s : gset Z, order s ≡ₚ elements s) -> held_inv st0 b st ->
  held_inv st0 (on_keyboard_leave order b st).1 (on_keyboard_leave order b st).2.
Proof.
  intros Ho I. unfold on_keyboard_leave. cbn [fst snd].
  assert (G : forall keys b st, held_inv st0 b st ->
    held_inv st0 (b <| keys_held := keys_held b ∖ list_to_set keys |>)
      (for_each keys (fun key st => (inject_key key false 0 0 0 0 st).1) st)).
  { clear b st I. induction keys as [|key keys IH]; intros b st I; cbn [for_each].
    - destruct I as (T & l & O & H). split; [done|]. exists l. split; [done|]. intros k x Hd. cbn.
      destruct (H k x Hd). set_solver.
    - assert (I1 : held_inv st0 (b <| keys_held := keys_held b ∖ {[key]} |>) (inject_key key false 0 0 0 0 st).1).
      { apply held_inv_key; [done|..]; intros; try done; set_solver. }
      specialize (IH _ _ I1). cbn [keys_held] in IH.
      destruct IH as (T & l & O & H). split; [done|]. exists l. split; [done|]. intros k x Hd.
      destruct (H k x Hd) as [Hx Hk]. split; [|done]. cbn in *. set_solver. }
  specialize (G (order (keys_held b)) b st I). destruct G as (T & l & O & H). split; [done|].
  exists l. split; [done|]. intros k x Hd. destruct (H k x Hd) as [Hx _]. exfalso. cbn in Hx.
  apply elem_of_difference in Hx as [Hx Hn]. apply Hn. rewrite elem_of_list_to_set, Ho.
  by apply elem_of_elements.
Qed.

(** C32: However many keys and modifiers the host sends between giving the keyboard to
    the attached window and taking it away, afterwards no keyboard of the session was
    left with a key down: every key pressed in between was released again, in whatever
    order the held keys drain. *)
Theorem no_stuck_keys order keys evs b st :
  (forall s : gset Z, order s ≡ₚ elements s) ->
  let s1 := fold_left (fun s e => on_kbd_event e s) evs (on_keyboard_enter keys b, st) in
  let s2 := on_keyboard_leave order s1.1 s1.2 in
  keys_held s2.1 = ∅ /\
  exists l, out s2.2 = out st ++ l /\ forall k x, key_down k x l = false.
Proof.
  intros Ho s1 s2. split; [done|].
  assert (I : held_inv st s1.1 s1.2).
  { unfold s1. assert (I0 : held_inv st (on_keyboard_enter keys b, st).1 (on_keyboard_enter keys b, st).2).
    { split; [done|]. exists []. split; [by rewrite app_nil_r|]. by intros k x [=]. }
    revert I0. generalize (on_keyboard_enter keys b, st) as s. clear s1 s2.
    induction evs as [|e evs IH]; intros s I0; [exact I0|]. cbn. apply IH. by apply held_inv_event. }
  destruct (held_inv_leave order st s1.1 s1.2 Ho I) as (_ & l & O & H).
  exists l. split; [exact O|]. intros k x. destruct (key_down k x l) eqn:D; [|done].
  destruct (H k x D) as [Hx _]. by apply elem_of_empty in Hx.
Qed.

(** A session with one focused keyboard. *)
Definition typing : State :=
  (state_new "demo" 640 480 1 None false 0)
    <| windows_by_id := {[1 := (5%nat, 0%nat)]} |> <| focused_window := Some 1 |>
    <| keyboards := {[0%nat := [Res 7 4]]} |> <| alive := {[7%nat]} |>.

Lemma no_stuck_keys_witness :
  exists l, out (on_keyboard_leave elements
      (on_keyboard_key 30 true (bridge_new true true true) typing).1
      (on_keyboard_key 30 true (bridge_new true true true) typing).2).2 = out typing ++ l /\
    key_down 7 30 l = false.
Proof.
  destruct (no_stuck_keys elements [] [Key 30 true] (bridge_new true true true) typing (fun s => reflexivity _))
    as (_ & l & O & H).
  exists l. split; [exact O|apply H].
Defined.

(** When the host announces new seat capabilities the bridge forgets the keys that
    are down without releasing them, so a key pressed before stays down in the session
    even after the keyboard is taken away. *)
Theorem seat_change_sticks_key :
  let s1 := on_keyboard_key 30 true (bridge_new true true true) typing in
  let s2 := on_keyboard_leave elements (reset_for_seat_change s1.1) s1.2 in
  key_down 7 30 (out s2.2) = true.
Proof. vm_compute. reflexivity. Qed.

(** ** Objects of the host *)

(** The objects that are alive after these requests. *)
Record host_objects := { inhibitors : gset nat; locks : gset nat; relatives : gset nat }.

Definition host_step (h : host_objects) (r : host_request) : host_objects :=
  match r with
  | InhibitShortcuts i => {| inhibitors := {[i]} ∪ inhibitors h; locks := locks h; relatives := relatives h |}
  | InhibitorDestroy i => {| inhibitors := inhibitors h ∖ {[i]}; locks := locks h; relatives := relatives h |}
  | LockPointer i => {| inhibitors := inhibitors h; locks := {[i]} ∪ locks h; relatives := relatives h |}
  | LockDestroy i => {| inhibitors := inhibitors h; locks := locks h ∖ {[i]}; relatives := relatives h |}
  | GetRelativePointer i => {| inhibitors := inhibitors h; locks := locks h; relatives := {[i]} ∪ relatives h |}
  | RelativeDestroy i => {| inhibitors := inhibitors h; locks := locks h; relatives := relatives h ∖ {[i]} |}
  end.

Definition host_objects_of (l : list host_request) : host_objects :=
  foldl host_step {| inhibitors := ∅; locks := ∅; relatives := ∅ |} l.

Arguments host_objects_of : simpl never.

(** The host accepts a request: a second inhibitor or lock on a surface is a protocol
    error, and so is a request on an object that does not exist. *)
Definition host_accepts (h : host_objects) (r : host_request) : Prop :=
  match r with
  | InhibitShortcuts _ => inhibitors h = ∅
  | LockPointer _ => locks h = ∅
  | GetRelativePointer _ => relatives h = ∅
  | InhibitorDestroy i => i ∈ inhibitors h
  | LockDestroy i => i ∈ locks h
  | RelativeDestroy i => i ∈ relatives h
  end.

Definition accepted (l : list host_request) : Prop :=
  forall l1 r l2, l = l1 ++ r :: l2 -> host_accepts (host_objects_of l1) r.

Lemma accepted_snoc l r : accepted l -> host_accepts (host_objects_of l) r -> accepted (l ++ [r]).
Proof.
  intros Hl Hr l1 r' l2 E. destruct l2 as [|x l2 _] using rev_ind.
  - apply app_inj_tail in E as [-> ->]. done.
  - rewrite app_comm_cons, app_assoc in E. apply app_inj_tail in E as [-> _]. by eapply Hl.
Qed.

Record host_inv (b : Bridge) : Prop := {
  ho_inhibitors : inhibitors (host_objects_of (host b)) = option_to_set (outer_inhibitor b);
  ho_locks : locks (host_objects_of (host b)) = option_to_set (active_lock b);
  ho_relatives : relatives (host_objects_of (host b)) = option_to_set (active_relative b);
  ho_unlocked : lock_state b = Unlocked -> active_lock b = None;
  ho_accepted : accepted (host b);
}.

(** One event at the bridge, from the host, from the session or from the view's loop. *)
Inductive bridge_step : Bridge * State -> Bridge * State -> Prop :=
| bs_inhibitor want b st : bridge_step (b, st) (update_inhibitor want b, st)
| bs_seat b st : bridge_step (b, st) (reset_for_seat_change b, st)
| bs_update_lock ptr b st b' st' : update_lock ptr b st = Ok (b', st') -> bridge_step (b, st) (b', st')
| bs_locked ptr b st : bridge_step (b, st) (on_niri_locked ptr b, st)
| bs_unlocked b st : bridge_step (b, st) (on_niri_unlocked b, st)
| bs_relative hi lo dx dy dxu dyu b st b' st' :
    on_relative_motion hi lo dx dy dxu dyu b st = Ok (b', st') -> bridge_step (b, st) (b', st')
| bs_enter keys b st : bridge_step (b, st) (on_keyboard_enter keys b, st)
| bs_leave order b st : bridge_step (b, st) (on_keyboard_leave order b st)
| bs_kbd e b st : bridge_step (b, st) (on_kbd_event e (b, st))
| bs_motion x y b st b' st' : on_pointer_motion x y b st = Ok (b', st') -> bridge_step (b, st) (b', st')
| bs_button btn pr b st b' st' : on_pointer_button btn pr b st = Ok (b', st') -> bridge_step (b, st) (b', st')
| bs_axis_source src b st : bridge_step (b, st) (on_pointer_axis_source src b, st)
| bs_axis a v b st : bridge_step (b, st) (on_pointer_axis a v b, st)
| bs_axis_stop a b st : bridge_step (b, st) (on_pointer_axis_stop a b, st)
| bs_frame b st : bridge_step (b, st) (on_pointer_frame b st)
| bs_ptr_leave order b st b' st' : on_pointer_leave order b st = Ok (b', st') -> bridge_step (b, st) (b', st')
| bs_session b st st' : bridge_step (b, st) (b, st').

(** A bridge that differs in fields the host does not see. *)
Lemma host_inv_same b b' :
  host_inv b -> host b' = host b -> outer_inhibitor b' = outer_inhibitor b ->
  active_lock b' = active_lock b -> active_relative b' = active_relative b ->
  (lock_state b' = Unlocked -> lock_state b = Unlocked) -> host_inv b'.
Proof. intros [] E1 E2 E3 E4 E5. split; rewrite ?E1, ?E2, ?E3, ?E4; auto. Qed.

Lemma host_objects_snoc l r : host_objects_of (l ++ [r]) = host_step (host_objects_of l) r.
Proof. unfold host_objects_of. by rewrite foldl_app. Qed.

(** The solver for a request and the field that goes with it. *)
Ltac host_tac :=
  split; cbn [host outer_inhibitor active_lock active_relative lock_state set_field request create fst];
  rewrite ?host_objects_snoc; cbn; try done; try congruence;
  try (apply accepted_snoc; [done|cbn; set_solver]); set_solver.

Lemma destroy_inhibitor_inv b :
  host_inv b -> host_inv (destroy_inhibitor b) /\ outer_inhibitor (destroy_inhibitor b) = None.
Proof.
  intros I. unfold destroy_inhibitor. destruct (outer_inhibitor b) as [i|] eqn:E; [|done].
  split; [|done]. destruct I as [I1 I2 I3 I4 I5]. host_tac.
Qed.

Lemma destroy_lock_inv b :
  host_inv b -> host_inv (destroy_lock b) /\ active_lock (destroy_lock b) = None.
Proof.
  intros I. unfold destroy_lock. destruct (active_lock b) as [i|] eqn:E; [|done].
  split; [|done]. destruct I as [I1 I2 I3 I4 I5]. host_tac.
Qed.

Lemma destroy_relative_inv b :
  host_inv b -> host_inv (destroy_relative b) /\ active_relative (destroy_relative b) = None.
Proof.
  intros I. unfold destroy_relative. destruct (active_relative b) as [i|] eqn:E; [|done].
  split; [|done]. destruct I as [I1 I2 I3 I4 I5]. host_tac.
Qed.

Lemma update_inhibitor_inv want b : host_inv b -> host_inv (update_inhibitor want b).
Proof.
  intros I. unfold update_inhibitor. destruct (want && _) eqn:W.
  - apply andb_true_iff in W as [_ W]. apply negb_true_iff, bool_decide_eq_false in W.
    assert (E : outer_inhibitor b = None) by (destruct (outer_inhibitor b); [destruct W; eauto|done]).
    destruct (inhibit_manager b); [|done]. cbn [create]. destruct I as [I1 I2 I3 I4 I5]. rewrite E in I1.
    host_tac.
  - destruct (negb want && _); [by apply destroy_inhibitor_inv|done].
Qed.

Lemma lock_create_inv b :
  lock_state b = Unlocked -> host_inv b ->
  host_inv ((create LockPointer b).1 <| active_lock := Some (host_next b) |> <| lock_state := Requesting |>).
Proof. intros Hu [I1 I2 I3 I4 I5]. rewrite (I4 Hu) in I2. clear I4. host_tac. Qed.

Lemma update_lock_inv ptr b st b' st' :
  update_lock ptr b st = Ok (b', st') -> host_inv b -> host_inv b'.
Proof.
  unfold update_lock. intros H I.
  assert (R : forall x y, host_inv ((destroy_lock b) <| lock_state := Unlocked |> <| last_pointer_x := x |> <| last_pointer_y := y |>)).
  { intros x y. destruct (destroy_lock_inv b I) as [[J1 J2 J3 J4 J5] E].
    split; [exact J1|exact J2|exact J3|intros _; exact E|exact J5]. }
  destruct (lock_state b) eqn:L, (pointer_lock_active st); cbn [snapshot] in H; try (by injection H as <- <-).
  - destruct (_ && _); [|by injection H as <- <-]. injection H as <- <-. by apply lock_create_inv.
  - destruct (move_pointer _ _ st); [|done]. injection H as <- <-. apply R.
  - destruct (move_pointer _ _ st); [|done]. injection H as <- <-. apply R.
  - destruct (move_pointer _ _ st); [|done]. injection H as <- <-. apply R.
Qed.

Lemma on_niri_locked_inv ptr b : host_inv b -> host_inv (on_niri_locked ptr b).
Proof.
  intros I. unfold on_niri_locked. destruct (lock_state b) eqn:L; try done.
  - destruct (active_relative b) as [r|] eqn:E; [by eapply host_inv_same|].
    destruct (relative_manager b && ptr); [|by eapply host_inv_same]. cbn [create].
    destruct I as [I1 I2 I3 I4 I5]. rewrite E in I3. host_tac.
  - by eapply host_inv_same.
Qed.

Lemma bridge_step_inv s s' : bridge_step s s' -> host_inv s.1 -> host_inv s'.1.
Proof.
  destruct 1; cbn [fst]; intros I; try (by eapply host_inv_same); try done.
  - by apply update_inhibitor_inv.
  - destruct (destroy_inhibitor_inv b I) as [J _]. by eapply host_inv_same.
  - by eapply update_lock_inv.
  - by apply on_niri_locked_inv.
  - unfold on_niri_unlocked. case_decide; [|done]. by eapply host_inv_same.
  - unfold on_relative_motion in *. destruct (move_pointer _ _ st); [|done]. simplify_eq. by eapply host_inv_same.
  - destruct e; by eapply host_inv_same.
  - unfold on_pointer_motion in *. destruct (move_pointer _ _ st); [|done]. simplify_eq. by eapply host_inv_same.
  - unfold on_pointer_button in *. destruct (button_event _ _ _ st); [|done]. simplify_eq. by eapply host_inv_same.
  - unfold on_pointer_leave in *. destruct (for_each_in _ _ st); [|done]. simplify_eq. by eapply host_inv_same.
Qed.

(** Whatever happens at the bridge of an attached view, the host accepts all its
    requests: it never asks for a second inhibitor, lock or relative pointer while one
    is alive and destroys only what it has; and when the view ends nothing of it is
    left at the host. *)
Theorem bridge_host_discipline i c r st b' st' :
  rtc bridge_step (bridge_new i c r, st) (b', st') ->
  accepted (host (cleanup b')) /\
  host_objects_of (host (cleanup b')) = {| inhibitors := ∅; locks := ∅; relatives := ∅ |}.
Proof.
  intros H.
  assert (I : host_inv b').
  { assert (G : forall s s', rtc bridge_step s s' -> host_inv s.1 -> host_inv s'.1).
    { induction 1; [done|]. intros. eauto using bridge_step_inv. }
    apply (G _ _ H). split; try done. intros l1 x l2 E. by destruct l1. }
  unfold cleanup. destruct (destroy_inhibitor_inv b' I) as [I1 E1].
  destruct (destroy_relative_inv _ I1) as [I2 E2]. destruct (destroy_lock_inv _ I2) as [[J1 J2 J3 J4 J5] E3].
  split; [done|].
  assert (F : outer_inhibitor (destroy_lock (destroy_relative (destroy_inhibitor b'))) = None /\
              active_relative (destroy_lock (destroy_relative (destroy_inhibitor b'))) = None).
  { assert (K : forall b, outer_inhibitor (destroy_lock b) = outer_inhibitor b /\
      active_relative (destroy_lock b) = active_relative b /\
      outer_inhibitor (destroy_relative b) = outer_inhibitor b).
    { intros b. split_and!; [unfold destroy_lock..|unfold destroy_relative]; by case_match. }
    split; [rewrite (proj1 (K _)), (proj2 (proj2 (K _))); exact E1|rewrite (proj1 (proj2 (K _))); exact E2]. }
  destruct F as [F1 F2]. rewrite F1 in J1. rewrite E3 in J2. rewrite F2 in J3.
  destruct (host_objects_of _) as [a b c']; cbn in *. by subst.
Qed.

Lemma bridge_host_discipline_witness :
  accepted (host (cleanup (update_inhibitor true (bridge_new true true true)))).
Proof.
  refine (proj1 (bridge_host_discipline true true true typing _ typing _)).
  eapply rtc_l; [apply bs_inhibitor|apply rtc_refl].
Defined.
