(* ===== verification/OuterView.v ===== *)
(** * The attached view ([crates/waymux-session/src/outer_view.rs])

    A thread per attach that is a client of the host compositor: it shows the focused
    window, by forwarding its dmabuf or by compositing into shared memory, feeds the
    recording from there, and hands buffers back when the host is done with them.
    The state of the view, the events of the host and the body of its loop; requests
    to the host are the log [ov_out]. The frame counters of the log line are left out. *)

From Stdlib Require Import ZArith Lia.
From stdpp Require Import prelude strings gmap list.
From S2P Require Import Prelude Words Floats Messages Composite Pixels Session SessionInput SessionRecord InputBridge.

Open Scope Z_scope.

(** ** Buffers of the host *)

(** What happens to the client's buffers when the host releases the view's. *)
Inductive InnerReleases :=
| Direct (bufs : list nat)
| Refcounted (holds : list nat).

Record OuterBuf := { ob_released : bool; ob_inner : InnerReleases }.

#[export] Instance eta_OuterBuf : Eta OuterBuf := fun r => Build_OuterBuf (ob_released r) (ob_inner r).

(** One half of the double buffer. *)
Record ShmSlot := { ss_id : nat; ss_mmap : list Z; ss_released : bool }.

#[export] Instance eta_ShmSlot : Eta ShmSlot := fun r => Build_ShmSlot (ss_id r) (ss_mmap r) (ss_released r).

Record Framebuffer := {
  fb_width : Z;
  fb_height : Z;
  fb_stride : Z;
  fb_slots : list ShmSlot;
  fb_write_idx : nat;
}.

#[export] Instance eta_Framebuffer : Eta Framebuffer := fun r =>
  Build_Framebuffer (fb_width r) (fb_height r) (fb_stride r) (fb_slots r) (fb_write_idx r).

(** [alloc_slot] and [Framebuffer::new], of two new ids. *)
Definition alloc_slot (id : nat) (h stride : Z) : ShmSlot :=
  {| ss_id := id; ss_mmap := replicate (Z.to_nat (usize_mul (usize stride) h)) 0; ss_released := true |}.

Definition framebuffer_new (id : nat) (w h : Z) : Framebuffer :=
  let stride := as_s 32 (as_u 32 (w * 4)) in
  {| fb_width := w; fb_height := h; fb_stride := stride;
     fb_slots := [alloc_slot id h stride; alloc_slot (S id) h stride]; fb_write_idx := 0 |}.

(** The border is magenta, the inside a shade of gray. *)
Definition placeholder_pixel (w h gray x y : Z) : list Z :=
  if (x <? 4) || (y <? 4) || (w <=? x + 4) || (h <=? y + 4) then [255; 0; 255; 255]
  else [gray; gray; gray; 255].

Definition set_pixel (p : Z) (px : list Z) (mmap : list Z) : result (list Z) stop :=
  for_each_in (imap pair px) (fun ip => set_byte (p + Z.of_nat ip.1) ip.2) mmap.

Definition paint (w h stride gray : Z) (mmap : list Z) : result (list Z) stop :=
  for_each_in (range 0 h) (fun y => for_each_in (range 0 w) (fun x =>
    set_pixel (y * usize stride + x * 4) (placeholder_pixel w h gray x y))) mmap.

Definition paint_slot (fb : Framebuffer) (gray : Z) (s : ShmSlot) : result ShmSlot stop :=
  let? m := paint (fb_width fb) (fb_height fb) (fb_stride fb) gray (ss_mmap s) in
  Ok (s <| ss_mmap := m |>).

Fixpoint map_slots (f : ShmSlot -> result ShmSlot stop) (l : list ShmSlot) : result (list ShmSlot) stop :=
  match l with
  | [] => Ok []
  | s :: l' => let? s' := f s in let? r := map_slots f l' in Ok (s' :: r)
  end.

Definition paint_placeholder (fb : Framebuffer) : result Framebuffer stop :=
  let? l := map_slots (paint_slot fb 64) (fb_slots fb) in
  Ok (fb <| fb_slots := l |>).

(** ** The view *)

Inductive view_request :=
| VAttachDmabuf (id : nat) (dma : nat) (w h format : Z)
| VAttachShm (id : nat)
| VFrame
| VCommit
| VBufferDestroy (id : nat)
| VHideCursor (serial : Z)
| VCreateSource (src : nat) (mimes : list string) (inner : nat)
| VSetSelection (src : option nat).

Record View := {
  bridge : Bridge;
  configured : bool;
  toplevel_fullscreen : bool;
  stopped : bool;
  pointer_enter_serial : Z;
  session_empty : bool;
  frame_callback_fired : bool;
  pending_frame_cb : bool;
  has_new_damage : bool;
  last_damage_checked : Z;
  inner_sel_version : Z;
  outer_source : option nat;
  pending_offers : gmap nat (list string);
  has_seat : bool;
  has_keyboard : bool;
  has_pointer : bool;
  data_device : bool;
  data_device_manager : bool;
  outer_dmabuf : bool;
  dmabuf_in_flight : list nat;
  outer_bufs : gmap nat OuterBuf;
  fb : Framebuffer;
  ov_next : nat;
  ov_out : list view_request;
}.

#[export] Instance eta_View : Eta View := fun r =>
  Build_View (bridge r) (configured r) (toplevel_fullscreen r) (stopped r) (pointer_enter_serial r)
    (session_empty r) (frame_callback_fired r) (pending_frame_cb r) (has_new_damage r)
    (last_damage_checked r) (inner_sel_version r) (outer_source r) (pending_offers r) (has_seat r)
    (has_keyboard r) (has_pointer r) (data_device r) (data_device_manager r) (outer_dmabuf r)
    (dmabuf_in_flight r) (outer_bufs r) (fb r) (ov_next r) (ov_out r).

Definition vput (r : view_request) (v : View) : View := v <| ov_out ::= (fun l => l ++ [r]) |>.

(** The request and the pending callback go together. *)
Definition request_frame (v : View) : View := vput VFrame v <| pending_frame_cb := true |>.

(** The slot that is written next. *)
Definition write_slot (f : Framebuffer) : option ShmSlot := fb_slots f !! fb_write_idx f.

(** [write_slot_mmap]: nothing while the host still reads the slot. *)
Definition write_slot_mmap (f : Framebuffer) : option (list Z * Z * Z) :=
  s ← write_slot f;
  if ss_released s then Some (ss_mmap s, as_s 32 (fb_width f), as_s 32 (fb_height f)) else None.

(** [commit_write_slot] with the bytes that were composited into the slot. *)
Definition commit_slot (mmap : list Z) (v : View) : View :=
  match write_slot (fb v) with
  | None => v
  | Some s =>
      let s' := {| ss_id := ss_id s; ss_mmap := mmap; ss_released := false |} in
      let f := (fb v) <| fb_slots ::= <[fb_write_idx (fb v) := s']> |>
                      <| fb_write_idx := (1 - fb_write_idx (fb v))%nat |> in
      vput VCommit (vput (VAttachShm (ss_id s)) (v <| fb := f |>))
  end.

Definition commit_placeholder (v : View) : result (View * bool) stop :=
  match write_slot (fb v) with
  | None => Ok (v, false)
  | Some s =>
      if negb (ss_released s) then Ok (v, false)
      else
        let? s' := paint_slot (fb v) 32 s in
        Ok (commit_slot (ss_mmap s') v, true)
  end.

(** A new framebuffer when the size has changed; [ok] says whether it could be made. *)
Definition resize_fb (ok : bool) (w h : Z) (v : View) : View :=
  if (w =? fb_width (fb v)) && (h =? fb_height (fb v)) then v
  else if ok then v <| fb := framebuffer_new (ov_next v) w h |> <| ov_next ::= (fun n => S (S n)) |>
  else v.

(** ** Forwarding a dmabuf *)

(** [Vec::swap_remove] *)
Definition swap_remove (i : nat) (l : list nat) : list nat :=
  match last l with
  | Some x => if (S i =? length l)%nat then removelast l else removelast (<[i := x]> l)
  | None => []
  end.

(** The loop that takes out what the host has released: what stays, what went. *)
Fixpoint prune_loop (fuel : nat) (gone : nat -> bool) (i : nat) (l : list nat) : list nat * list nat :=
  match fuel, l !! i with
  | S fuel', Some id =>
      if gone id then
        let '(kept, removed) := prune_loop fuel' gone i (swap_remove i l) in (kept, id :: removed)
      else prune_loop fuel' gone (S i) l
  | _, _ => (l, [])
  end.

Definition is_released (v : View) (id : nat) : bool :=
  match outer_bufs v !! id with Some ob => ob_released ob | None => false end.

Definition prune_in_flight (v : View) : View :=
  let '(kept, removed) := prune_loop (length (dmabuf_in_flight v)) (is_released v) 0 (dmabuf_in_flight v) in
  for_each removed (fun id => vput (VBufferDestroy id)) (v <| dmabuf_in_flight := kept |>).

(** One hold per buffer. *)
Fixpoint pin_all (bs : list nat) (st : State) : State * list nat :=
  match bs with
  | [] => (st, [])
  | b :: bs' =>
      let '(st, h) := hold_new b st in
      let '(st, hs) := pin_all bs' st in
      (st, h :: hs)
  end.

(** The buffers are shared by the host's buffer and the recording. *)
Definition forward_dmabuf (w h : Z) (dma b : nat) (v : View) (st : State) : View * State :=
  let v := prune_in_flight v in
  let '(st, (inner_releases, skipped)) := take_pending_releases_split dma st in
  let st := for_each skipped release_inner_buffer st in
  let st := if nonempty skipped then wake_compositor st else st in
  let format := match bufs st !! b with Some bf => buf_drm_format bf | None => 0 end in
  let '(st, kind, rec_holds) :=
    if is_recording st then
      let '(st, pinned) := pin_all inner_releases st in
      (for_each pinned hold_clone st, Refcounted pinned, Some pinned)
    else (st, Direct inner_releases, None) in
  let id := ov_next v in
  let v := v <| outer_bufs ::= insert id {| ob_released := false; ob_inner := kind |} |>
             <| ov_next ::= S |> in
  let v := vput (VAttachDmabuf id dma w h format) v in
  let v := v <| dmabuf_in_flight ::= (fun l => l ++ [id]) |> in
  let v := vput VCommit (request_frame v) in
  let v := v <| has_new_damage := false |> in
  (v, match rec_holds with
      | Some hs => try_push_recording (TaskDmabuf dma hs) st
      | None => st
      end).

(** ** The fallback through shared memory *)

Definition forward_shm (fuel : nat) (alloc_ok : bool) (v : View) (st : State) : result (View * State) stop :=
  match capture_focused_dims st with
  | Some (iw, ih) =>
      let v := resize_fb alloc_ok iw ih (v <| session_empty := false |>) in
      let st := flush_pending_releases st in
      match write_slot_mmap (fb v) with
      | None => Ok (v, st)
      | Some (mmap, sw, sh) =>
          let? r := composite_focused_direct fuel mmap sw sh st in
          let '(mmap, ok) := r in
          let v := v <| fb := (fb v) <| fb_slots ::= alter (fun s => s <| ss_mmap := mmap |>) (fb_write_idx (fb v)) |> |> in
          if ok : bool then
            let len := usize_mul (usize_mul (usize sw) (usize sh)) 4 in
            let? st :=
              (if is_recording st then
                 let? pixels := slice mmap 0 len in
                 Ok (try_push_recording (TaskPixels pixels (as_u 32 sw) (as_u 32 sh)) st)
               else Ok st) in
            let v := request_frame (v <| has_new_damage := false |>) in
            Ok (commit_slot mmap v, st)
          else Ok (v, st)
      end
  | None =>
      if negb (session_empty v) then
        let v := v <| session_empty := true |> <| has_new_damage := false |> in
        let st := flush_pending_releases st in
        let? r := commit_placeholder (request_frame v) in
        Ok (r.1, st)
      else Ok (v <| has_new_damage := false |>, st)
  end.

(** The commit block of the loop. *)
Definition should_commit (v : View) : bool :=
  frame_callback_fired v || (has_new_damage v && negb (pending_frame_cb v)).

Definition commit_block (fuel : nat) (alloc_ok : bool) (v : View) (st : State) : result (View * State) stop :=
  if negb (should_commit v) then Ok (v, st)
  else
    let v := v <| frame_callback_fired := false |> in
    if negb (has_new_damage v) then Ok (v, flush_pending_releases st)
    else
      match (if outer_dmabuf v then clone_focused_dmabuf_with_buffer st else None) with
      | Some (w, h, dma, b) =>
          let v := v <| session_empty := false |> in
          let v := resize_fb alloc_ok (as_u 32 w) (as_u 32 h) v in
          Ok (forward_dmabuf w h dma b v st)
      | None => forward_shm fuel alloc_ok v st
      end.

(** ** Events of the host *)

Section Events.
Variable order : gset Z -> list Z.

(** [wl_buffer.release] on a buffer of the framebuffer or on a forwarded one. *)
Definition on_shm_release (id : nat) (v : View) : View :=
  v <| fb ::= (fun f => f <| fb_slots ::= fmap (fun s =>
         if decide (ss_id s = id) then s <| ss_released := true |> else s) |>) |>.

Definition on_dmabuf_release (id : nat) (v : View) (st : State) : View * State :=
  match outer_bufs v !! id with
  | None => (v, st)
  | Some ob =>
      let after kind := v <| outer_bufs ::= insert id {| ob_released := true; ob_inner := kind |} |> in
      match ob_inner ob with
      | Direct bs =>
          let st := for_each bs release_inner_buffer st in
          (after (Direct bs), if nonempty bs then wake_compositor st else st)
      | Refcounted hs => (after (Refcounted []), for_each hs hold_drop st)
      end
  end.

Definition on_callback_done (v : View) (st : State) : View * State :=
  (v <| pending_frame_cb := false |> <| frame_callback_fired := true |>, wake_compositor st).

Definition on_configure (v : View) : View := v <| configured := true |>.

Definition on_toplevel_close (v : View) : View := v <| stopped := true |>.

(** [states] are the words of the event; 2 is fullscreen. *)
Definition on_toplevel_configure (states : list Z) (v : View) : View :=
  v <| toplevel_fullscreen := existsb (fun s => s =? 2) states |>.

Definition on_capabilities (keyboard pointer : bool) (v : View) : View :=
  v <| has_keyboard := keyboard |> <| has_pointer := pointer |> <| bridge ::= reset_for_seat_change |>.

(** The keymap of the host, once it was copied to a descriptor [fd] of its own. *)
Definition on_keymap (xkb_v1 : bool) (copied : option nat) (size : Z) `{HashOrder} (v : View) (st : State) :
    View * State :=
  match xkb_v1, copied with
  | true, Some fd => (v, update_keymap fd size st)
  | _, _ => (v, st)
  end.

Definition with_bridge (r : Bridge * State) (v : View) : View * State := (v <| bridge := r.1 |>, r.2).

Definition on_pointer_enter (serial : Z) (v : View) (st : State) : View :=
  let v := v <| pointer_enter_serial := serial |> in
  if pointer_lock_active st then vput (VHideCursor serial) v else v.

(** ** Clipboard *)

Definition on_data_offer (id : nat) (v : View) : View := v <| pending_offers ::= insert id [] |>.

Definition on_offer_mime (id : nat) (mime : string) (v : View) : View :=
  v <| pending_offers ::= alter (fun l => l ++ [mime]) id |>.

Definition TEXT_MIMES : list string :=
  ["text/plain;charset=utf-8"; "text/plain;charset=UTF-8"; "UTF8_STRING"; "text/plain"; "TEXT"; "STRING"]%string.

Definition lower (c : Ascii.ascii) : Ascii.ascii :=
  let n := Ascii.nat_of_ascii c in
  if ((65 <=? n) && (n <=? 90))%nat then Ascii.ascii_of_nat (n + 32) else c.

Definition eq_ignore_ascii_case (a b : string) : bool :=
  bool_decide (lower <$> String.list_ascii_of_string a = lower <$> String.list_ascii_of_string b).

(** The type that is asked for, of those on offer. *)
Definition choose_mime (offered : list string) : option string :=
  snd <$> list_find (fun m => existsb (fun t => eq_ignore_ascii_case t m) offered = true) TEXT_MIMES.

(** The offer becomes the selection; [received] is what the reading thread gets for a
    type, when the pipe and the thread could be made. *)
Definition on_selection (id : option nat) (received : string -> option (list Z)) (v : View) (st : State) :
    View * State :=
  match id with
  | None => (v, st)
  | Some oid =>
      let mimes := default [] (pending_offers v !! oid) in
      let v := v <| pending_offers ::= delete oid |> in
      match choose_mime mimes with
      | Some mime =>
          match received mime with
          | Some data => (v, set_outer_clipboard [(mime, data)] st)
          | None => (v, st)
          end
      | None => (v, st)
      end
  end.

Definition on_source_cancelled (v : View) (st : State) : View * State :=
  (v <| outer_source := None |>, clear_inner_selection st).

(** The selection of the session is offered to the host when it has changed. *)
Definition sync_selection (v : View) (st : State) : View :=
  if negb (share_clipboard st) then v
  else if inner_selection_version st =? inner_sel_version v then v
  else
    let v := v <| inner_sel_version := inner_selection_version st |> in
    match inner_selection st, data_device_manager v with
    | Some (mimes, src), true =>
        let id := ov_next v in
        let v := vput (VCreateSource id mimes src) (v <| ov_next ::= S |>) in
        let v := if data_device v then vput (VSetSelection (Some id)) v else v in
        v <| outer_source := Some id |>
    | _, _ =>
        match outer_source v with
        | Some _ =>
            let v := if data_device v then vput (VSetSelection None) v else v in
            v <| outer_source := None |>
        | None => v
        end
    end.

(** ** The loop *)

Definition detect_damage (v : View) (st : State) : View :=
  if last_damage_ns st =? last_damage_checked v then v
  else v <| last_damage_checked := last_damage_ns st |> <| has_new_damage := true |>.

(** Inhibitor and pointer lock follow what the session's clients hold. *)
Definition sync_input (v : View) (st : State) : result (View * State) stop :=
  if negb (configured v) then Ok (v, st)
  else
    let want_lock := pointer_lock_active st in
    let want_inhibit := any_shortcuts_inhibited st || want_lock in
    let v := if has_seat v then v <| bridge ::= update_inhibitor want_inhibit |> else v in
    let? r := update_lock (has_pointer v) (bridge v) st in
    let v := v <| bridge := r.1 |> in
    Ok (if want_lock && has_pointer v then vput (VHideCursor (pointer_enter_serial v)) v else v, r.2).

(** One turn of the loop after the host's events were dispatched. *)
Definition view_round (fuel : nat) (alloc_ok : bool) (v : View) (st : State) : result (View * State) stop :=
  let v := detect_damage v st in
  let v := sync_selection v st in
  let? r := sync_input v st in
  let '(v, st) := r in
  commit_block fuel alloc_ok (detect_damage v st) st.

(** [run] up to its loop, once the host has sent its configure event. *)
Definition view_start (inhibit constraints relative seat dmabuf ddm : bool) (fd : nat) (st : State) :
    result (View * State) stop :=
  let '(w, h, _) := snapshot st in
  let? f := paint_placeholder (framebuffer_new 0 w h) in
  let v := {| bridge := bridge_new inhibit constraints relative; configured := true;
              toplevel_fullscreen := false; stopped := false; pointer_enter_serial := 0;
              session_empty := false; frame_callback_fired := false; pending_frame_cb := false;
              has_new_damage := true; last_damage_checked := 0; inner_sel_version := 0;
              outer_source := None; pending_offers := ∅; has_seat := seat; has_keyboard := seat;
              has_pointer := seat; data_device := ddm && seat; data_device_manager := ddm;
              outer_dmabuf := dmabuf; dmabuf_in_flight := []; outer_bufs := ∅; fb := f; ov_next := 2;
              ov_out := [] |} in
  let v := match write_slot (fb v) with Some s => commit_slot (ss_mmap s) v | None => v end in
  Ok (v, set_outer_wake_fd (Some fd) st).

(** What the thread does when its loop has ended. *)
Definition view_end (fd : nat) (v : View) (st : State) : result (View * State) stop :=
  let r := on_keyboard_leave order (bridge v) st in
  let? r := on_pointer_leave order r.1 r.2 in
  Ok (v <| bridge := cleanup r.1 |>, clear_outer_wake_fd_if_mine fd r.2).
End Events.
