(* ===== verification/OuterViewProps.v ===== *)
(** * What the attached view does with frames and buffers

    Frames are paced by the host; buffers that were forwarded come back when the host
    releases them, unless the session records: then they never do. A detach leaves
    buffers behind, and an empty session can freeze the view. *)

From Stdlib Require Import ZArith Lia.
From stdpp Require Import prelude strings gmap list.
From S2P Require Import Prelude Words Floats Messages Composite Pixels Session SessionInput SessionRecord Compositor SessionBuffers InputBridge OuterView.

Open Scope Z_scope.

(** ** Pacing *)

Definition is_commit (r : view_request) : bool := match r with VCommit | VFrame => true | _ => false end.

(** The frames and commits among requests. *)
Definition commits (l : list view_request) : list view_request := filter (fun r => is_commit r = true) l.

Lemma commits_app l k : commits (l ++ k) = commits l ++ commits k.
Proof. apply filter_app. Qed.

(** A view that differs in what the host is not told, or in other requests. *)
Record paced (v v' : View) : Prop := {
  pc_pending : pending_frame_cb v' = pending_frame_cb v;
  pc_fired : frame_callback_fired v' = frame_callback_fired v;
  pc_out : commits (ov_out v') = commits (ov_out v);
}.

#[export] Instance paced_pre : PreOrder paced.
Proof. split; [by split|]. intros a b c [] []. split; congruence. Qed.

Lemma paced_vput r v : is_commit r = false -> paced v (vput r v).
Proof.
  intros H. split; [done|done|]. cbn. rewrite commits_app. unfold commits at 2.
  rewrite filter_cons_False by congruence. apply app_nil_r.
Qed.

Lemma paced_detect v st : paced v (detect_damage v st).
Proof. unfold detect_damage. by case_match. Qed.

Lemma paced_sync_selection v st : paced v (sync_selection v st).
Proof.
  assert (S1 : forall v s, paced v (v <| outer_source := s |>)) by (by split).
  unfold sync_selection. destruct (negb _); [done|]. destruct (_ =? _); [done|].
  set (v1 := v <| inner_sel_version := _ |>). assert (P1 : paced v v1) by by split.
  assert (D : paced v1 (match outer_source v1 with
    | Some _ => (if data_device v1 then vput (VSetSelection None) v1 else v1) <| outer_source := None |>
    | None => v1 end)).
  { destruct (outer_source v1); [|done]. etransitivity; [|apply S1].
    destruct (data_device v1); [by apply paced_vput|done]. }
  destruct (inner_selection st) as [[mimes src]|]; [|by etransitivity].
  destruct (data_device_manager v1); [|by etransitivity].
  set (v2 := vput _ _). assert (P2 : paced v1 v2).
  { etransitivity; [|by apply paced_vput]. by split. }
  etransitivity; [exact P1|]. etransitivity; [exact P2|]. etransitivity; [|apply S1].
  destruct (data_device v2); [by apply paced_vput|done].
Qed.

Lemma paced_sync_input v st v' st' : sync_input v st = Ok (v', st') -> paced v v'.
Proof.
  unfold sync_input. destruct (negb _); [by intros [= <- <-]|].
  set (v1 := if has_seat v then _ else v). assert (P1 : paced v v1) by (unfold v1; by destruct (has_seat v)).
  destruct (update_lock _ _ _) as [[b st1]|]; [|done]. intros [= <- <-]. cbn [fst].
  etransitivity; [exact P1|]. etransitivity; [|destruct (_ && _); [by apply paced_vput|done]]. by split.
Qed.

Lemma paced_resize ok w h v : paced v (resize_fb ok w h v).
Proof. unfold resize_fb. by repeat case_match. Qed.

Lemma paced_prune v : paced v (prune_in_flight v).
Proof.
  unfold prune_in_flight. destruct (prune_loop _ _ _ _) as [kept removed].
  apply (for_each_inv (paced v)); [by split|]. intros id v' _ P. etransitivity; [exact P|]. by apply paced_vput.
Qed.

(** What a commit block does to the host: nothing, or one frame callback with at most
    one commit after it. *)
Inductive frame_outcome (v v' : View) : Prop :=
| fo_none : commits (ov_out v') = commits (ov_out v) -> pending_frame_cb v' = pending_frame_cb v ->
    frame_outcome v v'
| fo_frame k : commits (ov_out v') = commits (ov_out v) ++ VFrame :: k -> k = [VCommit] \/ k = [] ->
    pending_frame_cb v = false -> pending_frame_cb v' = true -> frame_outcome v v'.

Lemma commit_slot_out m v :
  frame_callback_fired (commit_slot m v) = frame_callback_fired v /\
  pending_frame_cb (commit_slot m v) = pending_frame_cb v /\
  exists k, commits (ov_out (commit_slot m v)) = commits (ov_out v) ++ k /\ (k = [VCommit] \/ k = []).
Proof.
  unfold commit_slot. destruct (write_slot (fb v)).
  - split_and!; [done|done|]. exists [VCommit]. split; [|by left]. cbn. by rewrite !commits_app, app_nil_r.
  - split_and!; [done|done|]. exists []. by rewrite app_nil_r; auto.
Qed.

(** From a view that asks for a frame to the outcome. *)
Lemma frame_then v v1 m :
  paced v v1 -> pending_frame_cb v = false -> frame_outcome v (commit_slot m (request_frame v1)) /\
  frame_callback_fired (commit_slot m (request_frame v1)) = frame_callback_fired v.
Proof.
  intros [P1 P2 P3] Hp. destruct (commit_slot_out m (request_frame v1)) as (F & G & k & E & Hk).
  split; [|by rewrite F]. eapply (fo_frame _ _ k); [|done|done|by rewrite G].
  rewrite E. cbn. rewrite commits_app, P3. by rewrite <- app_assoc.
Qed.

Lemma forward_dmabuf_frame w h dma b v st v' st' :
  pending_frame_cb v = false -> forward_dmabuf w h dma b v st = (v', st') ->
  frame_outcome v v' /\ frame_callback_fired v' = frame_callback_fired v.
Proof.
  intros Hp. unfold forward_dmabuf. pose proof (paced_prune v) as [P1 P2 P3].
  destruct (take_pending_releases_split dma st) as [st1 [ir sk]].
  match goal with |- context [if is_recording ?s then _ else _] => destruct (if is_recording s then _ else _) as [[st2 kind] rh] end.
  intros [= <- _]. split; [|done]. eapply (fo_frame _ _ [VCommit]); [|by left|done|done].
  cbn. rewrite !commits_app, P3. by rewrite <- !app_assoc.
Qed.

Lemma forward_shm_frame fuel ok v st v' st' :
  pending_frame_cb v = false -> forward_shm fuel ok v st = Ok (v', st') ->
  frame_outcome v v' /\ frame_callback_fired v' = frame_callback_fired v.
Proof.
  intros Hp. unfold forward_shm.
  assert (N : forall v1, paced v v1 -> frame_outcome v v1 /\ frame_callback_fired v1 = frame_callback_fired v).
  { intros v1 []. split; [|done]. by apply fo_none. }
  destruct (capture_focused_dims st) as [[iw ih]|].
  - set (v1 := resize_fb ok iw ih _). cbv zeta.
    assert (P1 : paced v v1) by (etransitivity; [|apply paced_resize]; by split).
    destruct (write_slot_mmap (fb v1)) as [[[mm sw] sh]|]; [|intros [= <- <-]; by apply N].
    destruct (composite_focused_direct fuel mm sw sh _) as [[mm2 done_]|]; [|done].
    set (v2 := v1 <| fb := _ |>). assert (P2 : paced v v2) by (etransitivity; [exact P1|by split]).
    destruct done_; [|intros [= <- <-]; by apply N].
    match goal with |- context [if is_recording ?s then _ else _] => destruct (if is_recording s then _ else _) as [st2|]; [|done] end.
    intros [= <- <-]. apply frame_then; [|done]. etransitivity; [exact P2|by split].
  - destruct (negb (session_empty v)); [|intros [= <- <-]; apply N; by split].
    set (v1 := v <| session_empty := true |> <| has_new_damage := false |>).
    assert (P1 : paced v v1) by by split.
    unfold commit_placeholder.
    assert (K : frame_outcome v (request_frame v1) /\ frame_callback_fired (request_frame v1) = frame_callback_fired v).
    { split; [|done]. eapply (fo_frame _ _ []); [|by right|done|done]. cbn. by rewrite commits_app. }
    destruct (write_slot (fb (request_frame v1))) as [s|]; [|by intros [= <- <-]].
    destruct (negb (ss_released s)); [by intros [= <- <-]|].
    destruct (paint_slot _ _ s) as [s'|]; [|done]. intros [= <- <-]. by apply frame_then.
Qed.

(** No callback is outstanding when one has just fired. *)
Definition pace_inv (v : View) : Prop := frame_callback_fired v = true -> pending_frame_cb v = false.

Lemma commit_block_frame fuel ok v st v' st' :
  pace_inv v -> commit_block fuel ok v st = Ok (v', st') -> frame_outcome v v' /\ pace_inv v'.
Proof.
  intros I. unfold commit_block. destruct (negb (should_commit v)) eqn:C; [intros [= <- <-]; split; [by apply fo_none|done]|].
  apply negb_false_iff in C. unfold should_commit in C.
  assert (Hp : pending_frame_cb v = false).
  { destruct (frame_callback_fired v) eqn:F; [by apply I|]. cbn in C. apply andb_true_iff in C as [_ C].
    by apply negb_true_iff in C. }
  cbv zeta. set (v1 := v <| frame_callback_fired := false |>).
  assert (T : forall v2, pending_frame_cb v2 = false -> commits (ov_out v2) = commits (ov_out v) ->
    frame_callback_fired v2 = false -> frame_outcome v2 v' /\ frame_callback_fired v' = frame_callback_fired v2 ->
    frame_outcome v v' /\ pace_inv v').
  { intros v2 H1 H2 H3 [O F]. split; [|intros G; congruence]. destruct O as [O1 O2|k O1 O2 O3 O4].
    - apply fo_none; congruence.
    - eapply fo_frame; [by rewrite O1, H2|done|done|done]. }
  destruct (negb (has_new_damage v1)).
  { intros [= <- <-]. apply (T v1); [done|done|done|]. split; [by apply fo_none|done]. }
  assert (S : forall v2, paced v1 v2 -> pending_frame_cb v2 = false /\ commits (ov_out v2) = commits (ov_out v) /\
    frame_callback_fired v2 = false).
  { intros v2 [P1 P2 P3]. rewrite P1, P2, P3. done. }
  destruct (if outer_dmabuf v1 then _ else _) as [[[[w h] dma] b]|].
  - intros [= H]. set (v2 := resize_fb ok _ _ _) in H.
    destruct (S v2) as (A1 & A2 & A3); [etransitivity; [|apply paced_resize]; by split|].
    apply (T v2); [done..|]. by eapply forward_dmabuf_frame.
  - intros H. apply (T v1); [done..|]. by eapply forward_shm_frame.
Qed.

Lemma view_round_frame fuel ok v st v' st' :
  pace_inv v -> view_round fuel ok v st = Ok (v', st') -> frame_outcome v v' /\ pace_inv v'.
Proof.
  intros I. unfold view_round.
  set (v1 := sync_selection (detect_damage v st) st).
  assert (P1 : paced v v1) by (etransitivity; [apply paced_detect|apply paced_sync_selection]).
  destruct (sync_input v1 st) as [[v2 st2]|] eqn:E; [|done]. intros H.
  assert (P2 : paced v (detect_damage v2 st2)).
  { etransitivity; [exact P1|]. etransitivity; [by eapply paced_sync_input|apply paced_detect]. }
  destruct P2 as [Q1 Q2 Q3].
  destruct (commit_block_frame _ _ _ _ _ _ ltac:(unfold pace_inv; rewrite Q1, Q2; exact I) H) as [O J].
  split; [|done]. destruct O as [O1 O2|k O1 O2 O3 O4].
  - apply fo_none; congruence.
  - eapply fo_frame; [by rewrite O1, Q3|done|congruence|done].
Qed.

(** C33: The view never has two frame callbacks outstanding: a round of its loop asks the
    host for a frame only when none is outstanding, then exactly once and before at most
    one commit, and otherwise commits nothing. *)
Theorem view_round_paced fuel ok v st v' st' :
  pace_inv v -> view_round fuel ok v st = Ok (v', st') -> frame_outcome v v' /\ pace_inv v'.
Proof. apply view_round_frame. Qed.

(** ** A frozen view *)

(** Everything that happens to a view but the frame callback of the host. *)
Inductive turn : View -> View -> Prop :=
| t_round fuel ok v st v' st' : view_round fuel ok v st = Ok (v', st') -> turn v v'
| t_shm_release id v : turn v (on_shm_release id v)
| t_dmabuf_release id v st : turn v (on_dmabuf_release id v st).1
| t_configure v : turn v (on_configure v)
| t_toplevel states v : turn v (on_toplevel_configure states v)
| t_capabilities k p v : turn v (on_capabilities k p v)
| t_bridge r v : turn v (with_bridge r v).1
| t_pointer_enter serial v st : turn v (on_pointer_enter serial v st)
| t_offer id v : turn v (on_data_offer id v)
| t_mime id m v : turn v (on_offer_mime id m v)
| t_selection id received v st : turn v (on_selection id received v st).1
| t_cancelled v st : turn v (on_source_cancelled v st).1.

Lemma turn_waiting v v' : turn v v' -> frame_callback_fired v = false -> pending_frame_cb v = true ->
  paced v v'.
Proof.
  destruct 1 as [fuel ok v st v' st' H| |id v st| | | | |serial v st| | |id received v st|]; intros F P; try by split.
  - destruct (view_round_frame fuel ok v st v' st' ltac:(unfold pace_inv; congruence) H) as [[O1 O2|] J]; [|congruence].
    split; [done| |done]. destruct (frame_callback_fired v') eqn:G; [|done]. specialize (J G). congruence.
  - unfold on_dmabuf_release. destruct (outer_bufs v !! id); [|by split]. cbv zeta. case_match; by split.
  - unfold on_pointer_enter. cbv zeta. case_match; [|by split]. etransitivity; [|by apply paced_vput]. by split.
  - unfold on_selection. repeat case_match; by split.
Qed.

(** When the last window goes while the host still reads the slot that is written
    next, the view asks the host for a frame callback without committing anything; and
    from then on, whatever else happens, it commits nothing until that callback fires,
    which takes a commit. *)
Theorem busy_placeholder_freezes fuel ok v st s :
  pending_frame_cb v = false -> has_new_damage v = true -> session_empty v = false ->
  capture_focused_dims st = None -> clone_focused_dmabuf_with_buffer st = None ->
  write_slot (fb v) = Some s -> ss_released s = false ->
  exists v' st', commit_block fuel ok v st = Ok (v', st') /\ ov_out v' = ov_out v ++ [VFrame] /\
    forall v'', rtc turn v' v'' -> commits (ov_out v'') = commits (ov_out v').
Proof.
  intros Hp Hd He Hc Hm Hs Hr. unfold commit_block, should_commit. rewrite Hp, Hd, orb_true_r. cbn [negb andb].
  cbv zeta. change (has_new_damage (v <| frame_callback_fired := false |>)) with (has_new_damage v). rewrite Hd.
  assert (E : (if outer_dmabuf (v <| frame_callback_fired := false |>) then clone_focused_dmabuf_with_buffer st else None) = None)
    by (rewrite Hm; by case_match).
  rewrite E. unfold forward_shm. rewrite Hc.
  change (session_empty (v <| frame_callback_fired := false |>)) with (session_empty v). rewrite He. cbn [negb].
  unfold commit_placeholder.
  match goal with |- context [write_slot (fb (request_frame ?x))] => change (fb (request_frame x)) with (fb v) end.
  rewrite Hs, Hr. cbn [negb fst]. do 2 eexists. split; [reflexivity|]. split; [done|].
  set (v1 := request_frame _). intros v'' H.
  assert (G : paced v1 v'').
  { assert (K : forall a b, rtc turn a b -> frame_callback_fired a = false -> pending_frame_cb a = true -> paced a b).
    { induction 1 as [|a b c T _ IH]; intros F P; [done|]. pose proof (turn_waiting a b T F P) as [Q1 Q2 Q3].
      etransitivity; [by split|]. apply IH; congruence. }
    by apply K. }
  by destruct G.
Qed.

(** ** Buffers come back *)

Definition gets_release (b : nat) (l : list output) : Prop := BufferRelease b ∈ l.

(** Releasing keeps who is alive and who is held, and only adds to the log. *)
Lemma release_frame b st :
  alive (release_inner_buffer b st) = alive st /\
  (buffer_hold_state st = ∅ -> buffer_hold_state (release_inner_buffer b st) = ∅) /\
  (exists l, out (release_inner_buffer b st) = out st ++ l) /\
  (buffer_hold_state st = ∅ -> b ∈ alive st -> BufferRelease b ∈ out (release_inner_buffer b st)).
Proof.
  unfold release_inner_buffer, buf_alive. destruct (bool_decide_reflect (b ∈ alive st)) as [A|A]; cbn [negb].
  2:{ split_and!; [done|done|exists []; by rewrite app_nil_r|done]. }
  assert (D : let st' := do_release_inner_buffer b st in alive st' = alive st /\
    buffer_hold_state st' = buffer_hold_state st /\ (exists l, out st' = out st ++ l) /\ BufferRelease b ∈ out st').
  { unfold do_release_inner_buffer, buf_alive. rewrite bool_decide_true by done. cbn [negb].
    destruct (buffer_release_signals st !! b) as [[|p q]|]; cbn; split_and!; try done; try (eexists; rewrite <- ?app_assoc; reflexivity); set_solver. }
  destruct D as (D1 & D2 & D3 & D4).
  destruct (buffer_hold_state st !! b) as [h|] eqn:H.
  - destruct (0 <? bhs_count h); [|split_and!; [done|by intros E; rewrite D2|done|done]].
    split_and!; [done|intros E; rewrite E in H; done|exists []; cbn; by rewrite app_nil_r|intros E; rewrite E in H; done].
  - split_and!; [done|by intros E; rewrite D2|done|done].
Qed.

Lemma release_all bs st :
  let st' := for_each bs release_inner_buffer st in
  alive st' = alive st /\ (buffer_hold_state st = ∅ -> buffer_hold_state st' = ∅) /\
  (exists l, out st' = out st ++ l) /\
  (buffer_hold_state st = ∅ -> forall b, b ∈ bs -> b ∈ alive st -> BufferRelease b ∈ out st').
Proof.
  cbv zeta. revert st. induction bs as [|b bs IH]; intros st; cbn [for_each].
  - split_and!; [done|done|exists []; by rewrite app_nil_r|]. intros _ b Hb. by apply elem_of_nil in Hb.
  - destruct (release_frame b st) as (A1 & H1 & (l1 & O1) & R1).
    destruct (IH (release_inner_buffer b st)) as (A2 & H2 & (l2 & O2) & R2).
    split_and!; [by etransitivity|auto|exists (l1 ++ l2); etransitivity; [exact O2|]; by rewrite O1, app_assoc|].
    intros E b' [-> |Hb]%elem_of_cons Ha.
    + eapply eq_ind_r; [|exact O2]. apply elem_of_app. left. auto.
    + apply R2; [auto|done|by rewrite A1].
Qed.

(** Fields that a release leaves alone. *)
Lemma release_fields b st :
  recording (release_inner_buffer b st) = recording st /\ raised (release_inner_buffer b st) = raised st /\
  pending_dmabuf_releases (release_inner_buffer b st) = pending_dmabuf_releases st.
Proof.
  assert (D : forall st, recording (do_release_inner_buffer b st) = recording st /\
    raised (do_release_inner_buffer b st) = raised st /\
    pending_dmabuf_releases (do_release_inner_buffer b st) = pending_dmabuf_releases st).
  { intros s. unfold do_release_inner_buffer. by repeat case_match. }
  unfold release_inner_buffer. repeat case_match; done.
Qed.

(** While nothing is recording, a frame that the view forwards gives every buffer
    back that was waiting: the frames it skipped at once, the one the host reads when the
    host releases it. *)
Theorem forwarded_buffers_return w h dma b v st v1 st1 v2 st2 :
  is_recording st = false -> buffer_hold_state st = ∅ ->
  forward_dmabuf w h dma b v st = (v1, st1) ->
  on_dmabuf_release (ov_next (prune_in_flight v)) v1 st1 = (v2, st2) ->
  pending_dmabuf_releases st1 = [] /\
  forall x, x ∈ pending_dmabuf_releases st -> x ∈ alive st -> BufferRelease x ∈ out st2.
Proof.
  intros Hr Hh. unfold forward_dmabuf, take_pending_releases_split. cbn [take_pending_releases]. cbv zeta.
  set (st0 := st <| pending_dmabuf_releases := [] |>).
  set (ir := filter (fun b => dmabuf_of st0 b = Some dma) (pending_dmabuf_releases st)).
  set (sk := filter (fun b => dmabuf_of st0 b <> Some dma) (pending_dmabuf_releases st)).
  pose proof (release_all sk st0) as (A1 & H1 & (l1 & O1) & R1). specialize (H1 Hh). specialize (R1 Hh).
  set (sta := for_each sk release_inner_buffer st0) in *.
  set (stb := if nonempty sk then wake_compositor sta else sta).
  assert (B : alive stb = alive st /\ buffer_hold_state stb = ∅ /\ is_recording stb = false /\
    pending_dmabuf_releases stb = [] /\ exists l, out stb = out sta ++ l).
  { assert (S : recording sta = recording st /\ raised sta = raised st /\ pending_dmabuf_releases sta = []).
    { unfold sta. apply (for_each_inv (fun s => recording s = recording st /\ raised s = raised st /\
        pending_dmabuf_releases s = [])); [done|]. intros x s _ Hs. destruct (release_fields x s) as (-> & -> & ->). done. }
    destruct S as (S1 & S2 & S3).
    assert (Rc : is_recording sta = false).
    { unfold is_recording, is_active, is_raised in *. by rewrite S1, S2. }
    unfold stb. destruct (nonempty sk); split_and!; try done; [by exists [WakeCompositor]|exists []; by rewrite app_nil_r]. }
  destruct B as (B1 & B2 & B3 & B4 & (l2 & B5)). rewrite B3.
  intros [= <- <-]. unfold on_dmabuf_release. cbn [outer_bufs]. cbn. rewrite lookup_insert_eq. cbn [ob_inner].
  pose proof (release_all ir stb) as (_ & _ & (l3 & O3) & R3). specialize (R3 B2).
  intros [= <- <-]. split; [exact B4|]. intros x Hx Ha.
  assert (F : BufferRelease x ∈ out (for_each ir release_inner_buffer stb)).
  { destruct (decide (dmabuf_of st0 x = Some dma)) as [D|D].
    - apply R3; [by apply list_elem_of_filter|by rewrite B1].
    - rewrite O3. apply elem_of_app. left. rewrite B5. apply elem_of_app. left.
      apply R1; [by apply list_elem_of_filter|done]. }
  destruct (nonempty ir); [|done]. cbn. apply elem_of_app. by left.
Qed.

(** ** Buffers nobody asks for *)

(** No release of [x] is queued, and none waits for the last hold on it. *)
Definition unasked (x : nat) (st : State) : Prop :=
  (x ∉ pending_dmabuf_releases st) /\
  match buffer_hold_state st !! x with Some h => bhs_release_requested h = false | None => True end.

(** What an operation does to a buffer in that state: it stays in it, and is not released. *)
Definition spares (x : nat) (st st' : State) : Prop :=
  unasked x st -> unasked x st' /\ exists l, out st' = out st ++ l /\ BufferRelease x ∉ l.

#[export] Instance spares_pre x : PreOrder (spares x).
Proof.
  split.
  - intros st U. split; [done|]. exists []. rewrite app_nil_r. split; [done|apply not_elem_of_nil].
  - intros a b c H1 H2 U. destruct (H1 U) as (U1 & l1 & E1 & N1). destruct (H2 U1) as (U2 & l2 & E2 & N2).
    split; [done|]. exists (l1 ++ l2). rewrite E2, E1, app_assoc. split; [done|]. by rewrite not_elem_of_app.
Qed.

Lemma spares_refl x st : spares x st st.
Proof. reflexivity. Qed.

Lemma spares_trans x a b c : spares x a b -> spares x b c -> spares x a c.
Proof. apply transitivity. Qed.

Lemma spares_still x st st' :
  still st st' -> pending_dmabuf_releases st' = pending_dmabuf_releases st -> spares x st st'.
Proof.
  intros [S1 _ _ _ (l & O & F)] P [U1 U2]. split; [unfold unasked; by rewrite P, S1|]. exists l. split; [done|].
  intros Hin. rewrite Forall_forall in F. by destruct (F _ Hin).
Qed.

(** Changes elsewhere in the state. *)
Lemma spares_same x st st' :
  pending_dmabuf_releases st' = pending_dmabuf_releases st -> buffer_hold_state st' = buffer_hold_state st ->
  out st' = out st -> spares x st st'.
Proof.
  intros P S O U. split; [unfold unasked; by rewrite P, S|]. exists []. rewrite O, app_nil_r. split; [done|apply not_elem_of_nil].
Qed.

Lemma spares_put x o st : o <> BufferRelease x -> spares x st (put o st).
Proof. intros Ho U. split; [done|]. exists [o]. split; [done|]. intros E%list_elem_of_singleton. by subst. Qed.

Lemma spares_do_release x y st : y <> x -> spares x st (do_release_inner_buffer y st).
Proof.
  intros Hy. unfold do_release_inner_buffer. repeat case_match; try reflexivity;
    repeat (etransitivity; [|apply spares_put; congruence]); by apply spares_same.
Qed.

Lemma spares_hold_state x y o st :
  y <> x \/ match o with Some h => bhs_release_requested h = false | None => True end ->
  spares x st (st <| buffer_hold_state ::= partial_alter (fun _ => o) y |>).
Proof.
  intros Hy [U1 U2]. split.
  - split; [done|]. cbn. destruct (decide (y = x)) as [->|Hn].
    + rewrite lookup_partial_alter_eq. by destruct Hy.
    + by rewrite lookup_partial_alter_ne.
  - exists []. rewrite app_nil_r. split; [done|apply not_elem_of_nil].
Qed.

Lemma spares_release x y st : y <> x -> spares x st (release_inner_buffer y st).
Proof.
  intros Hy. unfold release_inner_buffer. repeat case_match; try reflexivity; try by apply spares_do_release.
  apply (spares_hold_state x y (Some _)). by left.
Qed.

Lemma spares_wake x st : spares x st (wake_compositor st).
Proof. apply spares_still; [apply still_wake|done]. Qed.

Lemma spares_drop_buffer_hold x y st : spares x st (drop_buffer_hold y st).
Proof.
  intros U. pose proof U as [_ U2]. unfold drop_buffer_hold. destruct (buffer_hold_state st !! y) as [h|] eqn:E; [|by apply (spares_refl x st)].
  assert (Hr : y <> x \/ bhs_release_requested h = false).
  { destruct (decide (y = x)) as [->|]; [right; by rewrite E in U2|by left]. }
  revert U. cbv zeta. destruct (_ =? 0).
  - assert (Sd : spares x st (st <| buffer_hold_state ::= delete y |>)) by (apply (spares_hold_state x y None); by right).
    destruct (bhs_release_requested h); [|exact Sd]. destruct Hr as [Hr|Hr]; [|done].
    apply (spares_trans x _ _ _ Sd). by apply spares_do_release.
  - apply (spares_hold_state x y (Some _)). cbn. tauto.
Qed.

Lemma spares_hold_drop x h st : spares x st (hold_drop h st).
Proof.
  unfold hold_drop. destruct (holds st !! h) as [[b [|[|n]]]|]; cbn [ibh_refs ibh_buf]; [| |by apply spares_same|reflexivity];
    (etransitivity; [|apply spares_wake]); (etransitivity; [|apply spares_drop_buffer_hold]);
    (etransitivity; [|by apply spares_put]); by apply spares_same.
Qed.

Lemma spares_hold_new x b st : spares x st (hold_new b st).1.
Proof.
  unfold hold_new. cbn [fst]. etransitivity; [|by apply spares_put].
  transitivity (register_buffer_hold b st); [|by apply spares_same].
  intros U. pose proof U as [_ U2]. revert U. unfold register_buffer_hold. cbv zeta.
  apply (spares_hold_state x b (Some _)). destruct (decide (b = x)) as [->|]; [right|by left].
  by destruct (buffer_hold_state st !! x).
Qed.

Lemma spares_for_each {A} x (f : A -> State -> State) l st :
  (forall a s, a ∈ l -> spares x s (f a s)) -> spares x st (for_each l f st).
Proof.
  intros H. apply (for_each_inv (spares x st)); [reflexivity|]. intros a s Ha Hs.
  etransitivity; [exact Hs|]. by apply H.
Qed.

Lemma spares_drop_task x t st : spares x st (drop_task t st).
Proof. apply spares_for_each. intros; apply spares_hold_drop. Qed.

Lemma spares_slot_put x a t st : spares x st (slot_put a t st).
Proof.
  unfold slot_put. destruct (slots st !! a) as [sl|]; [|apply spares_drop_task]. cbv zeta.
  destruct (slot_inner sl); [etransitivity; [|apply spares_drop_task]|]; by apply spares_same.
Qed.

Lemma spares_slot_take x a st : spares x st (slot_take a st).1.
Proof. unfold slot_take. destruct (slots st !! a); [by apply spares_same|reflexivity]. Qed.

Lemma spares_clones x hs st : spares x st (for_each hs hold_clone st).
Proof. apply spares_for_each. intros; by apply spares_same. Qed.

Lemma spares_push x t st : spares x st (try_push_recording t st).
Proof.
  unfold try_push_recording. destruct (recording st) as [d|]; [|apply spares_drop_task].
  destruct (is_raised st _); [apply spares_drop_task|]. etransitivity; [|apply spares_slot_put].
  destruct (drh_secondary d); [|reflexivity]. destruct (is_raised st _); [reflexivity|].
  etransitivity; [apply spares_clones|apply spares_slot_put].
Qed.

Lemma spares_pin_all x bs st : spares x st (pin_all bs st).1.
Proof.
  revert st. induction bs as [|b bs IH]; intros st; cbn [pin_all]; [reflexivity|].
  pose proof (spares_hold_new x b st) as H1. destruct (hold_new b st) as [st1 h].
  pose proof (IH st1) as H2. destruct (pin_all bs st1) as [st2 hs]. by etransitivity.
Qed.

Lemma spares_releases x bs st : x ∉ bs -> spares x st (for_each bs release_inner_buffer st).
Proof. intros Hb. apply spares_for_each. intros y s Hy. apply spares_release. congruence. Qed.

Lemma spares_take x st : spares x st (take_pending_releases st).1.
Proof. intros [U1 U2]. split; [split; [apply not_elem_of_nil|done]|]. exists []. rewrite app_nil_r. split; [done|apply not_elem_of_nil]. Qed.

(** Releasing what another frame replaced, and waking the compositor. *)
Lemma spares_release_all x bs st : x ∉ bs ->
  spares x st (let st := for_each bs release_inner_buffer st in if nonempty bs then wake_compositor st else st).
Proof.
  intros Hb. cbv zeta. destruct (nonempty bs); [etransitivity; [|apply spares_wake]|]; by apply spares_releases.
Qed.

Lemma spares_flush x st : spares x st (flush_pending_releases st).
Proof.
  intros U. pose proof U as [U1 _]. revert U. unfold flush_pending_releases. cbn [take_pending_releases]. cbv beta iota.
  apply (spares_trans x _ _ _ (spares_take x st)). by apply spares_release_all.
Qed.

(** ** What follows a forwarded frame *)

(** The buffers of the host that are still out give [x] back to nobody. *)
Definition not_direct (x : nat) (v : View) : Prop := forall id ob bs,
  outer_bufs v !! id = Some ob -> ob_released ob = false -> ob_inner ob = Direct bs -> x ∉ bs.

(** What may happen to the view and the session after a frame was forwarded: rounds of the
    view, releases by the host, of each of its buffers once, encoders that take frames, keep
    and drop them, in particular after the recording was stopped, commits of other buffers,
    and all that does not touch buffers. *)
Inductive aftermath (x : nat) : View * State -> View * State -> Prop :=
| a_round fuel ok v st v' st' : commit_block fuel ok v st = Ok (v', st') -> aftermath x (v, st) (v', st')
| a_host id v st : is_released v id = false -> aftermath x (v, st) (on_dmabuf_release id v st)
| a_take a v st : aftermath x (v, st) (v, (slot_take a st).1)
| a_done t v st : aftermath x (v, st) (v, drop_task t st)
| a_drop h v st : aftermath x (v, st) (v, hold_drop h st)
| a_clone h v st : aftermath x (v, st) (v, hold_clone h st)
| a_hold b v st : aftermath x (v, st) (v, (hold_new b st).1)
| a_put a t v st : aftermath x (v, st) (v, slot_put a t st)
| a_flush v st : aftermath x (v, st) (v, flush_pending_releases st)
| a_queue y v st : y <> x -> aftermath x (v, st) (v, queue_deferred_release y st)
| a_release y v st : y <> x -> aftermath x (v, st) (v, release_inner_buffer y st)
| a_else v st v' st' : outer_bufs v' = outer_bufs v -> still st st' ->
    pending_dmabuf_releases st' = pending_dmabuf_releases st -> aftermath x (v, st) (v', st').

Definition lost (x : nat) (v : View) (st : State) : Prop := unasked x st /\ not_direct x v.

Lemma prune_outer_bufs v : outer_bufs (prune_in_flight v) = outer_bufs v.
Proof.
  unfold prune_in_flight. destruct (prune_loop _ _ _ _) as [kept removed].
  by apply (for_each_inv (fun v' => outer_bufs v' = outer_bufs v)).
Qed.

Lemma not_direct_insert x id ob v v' :
  outer_bufs v' = <[id := ob]> (outer_bufs v) -> not_direct x v ->
  match ob_inner ob with Direct bs => ob_released ob = false -> x ∉ bs | Refcounted _ => True end -> not_direct x v'.
Proof.
  intros E Hd Ho i o bs. rewrite E. rewrite lookup_insert. case_decide.
  - intros [= <-] Hr Hi. rewrite Hi in Ho. auto.
  - apply Hd.
Qed.

Lemma not_direct_same x v v' : outer_bufs v' = outer_bufs v -> not_direct x v -> not_direct x v'.
Proof. intros E Hd i o bs. rewrite E. apply Hd. Qed.

(** Forwarding any frame spares a buffer that is not queued. *)
Lemma forward_spares x w h dma b v st :
  unasked x st -> not_direct x v ->
  spares x st (forward_dmabuf w h dma b v st).2 /\ not_direct x (forward_dmabuf w h dma b v st).1.
Proof.
  intros [U1 U2] Hd. unfold forward_dmabuf, take_pending_releases_split. cbn [take_pending_releases]. cbv zeta beta iota.
  set (st0 := st <| pending_dmabuf_releases := [] |>).
  set (ir := filter (fun b => dmabuf_of st0 b = Some dma) (pending_dmabuf_releases st)).
  set (sk := filter (fun b => dmabuf_of st0 b <> Some dma) (pending_dmabuf_releases st)).
  assert (Hir : x ∉ ir) by (by intros [_ ?]%list_elem_of_filter).
  assert (Hsk : x ∉ sk) by (by intros [_ ?]%list_elem_of_filter).
  set (st1 := if nonempty sk then _ else _).
  assert (S1 : spares x st st1) by (etransitivity; [apply spares_take|by apply spares_release_all]).
  clearbody st1. destruct (is_recording st1).
  - pose proof (spares_pin_all x ir st1) as S2. destruct (pin_all ir st1) as [st2 hs]. cbn [fst snd] in *. split.
    + etransitivity; [exact S1|]. etransitivity; [exact S2|]. etransitivity; [apply spares_clones|apply spares_push].
    + eapply (not_direct_insert x _ {| ob_released := false; ob_inner := Refcounted hs |} v); [|exact Hd|exact I].
      cbn. by rewrite prune_outer_bufs.
  - split; [exact S1|]. eapply (not_direct_insert x _ {| ob_released := false; ob_inner := Direct ir |} v);
      [|exact Hd|intros _; exact Hir].
    cbn. by rewrite prune_outer_bufs.
Qed.

Lemma spares_lost x v st v' st' :
  lost x v st -> spares x st st' -> not_direct x v' ->
  lost x v' st' /\ exists l, out st' = out st ++ l /\ BufferRelease x ∉ l.
Proof. intros [U D] S D'. destruct (S U) as [U' Ho]. by split; [split|]. Qed.

Lemma resize_outer_bufs ok w h v : outer_bufs (resize_fb ok w h v) = outer_bufs v.
Proof. unfold resize_fb. by repeat case_match. Qed.

Lemma commit_slot_outer_bufs m v : outer_bufs (commit_slot m v) = outer_bufs v.
Proof. unfold commit_slot. by case_match. Qed.

(** The fallback only flushes and records. *)
Lemma shm_spares x fuel ok v st v' st' :
  forward_shm fuel ok v st = Ok (v', st') -> spares x st st' /\ outer_bufs v' = outer_bufs v.
Proof.
  unfold forward_shm. destruct (capture_focused_dims st) as [[iw ih]|].
  - cbv zeta. destruct (write_slot_mmap _) as [[[m sw] sh]|].
    2: { intros [= <- <-]. split; [apply spares_flush|by rewrite resize_outer_bufs]. }
    destruct (composite_focused_direct _ _ _ _ _) as [[m' okc]|]; [|done].
    destruct okc.
    2: { intros [= <- <-]. split; [apply spares_flush|cbn; by rewrite resize_outer_bufs]. }
    destruct (is_recording _); [destruct (slice _ _ _) as [px|]; [|done]|]; intros [= <- <-];
      rewrite commit_slot_outer_bufs; cbn; rewrite resize_outer_bufs; (split; [|done]).
    + etransitivity; [apply spares_flush|apply spares_push].
    + apply spares_flush.
  - destruct (negb _); [|intros [= <- <-]; by split]. cbv zeta.
    destruct (commit_placeholder _) as [[v1 b]|] eqn:E; [|done]. intros [= <- <-].
    split; [apply spares_flush|]. unfold commit_placeholder in E. revert E. repeat case_match; intros E; simplify_eq/=; try done.
    by rewrite commit_slot_outer_bufs.
Qed.

Lemma aftermath_lost x s s' : aftermath x s s' -> lost x s.1 s.2 ->
  lost x s'.1 s'.2 /\ exists l, out s'.2 = out s.2 ++ l /\ BufferRelease x ∉ l.
Proof.
  destruct 1 as [fuel ok v st v' st' E|id v st Hr|a v st|t v st|h v st|h v st|b v st|a t v st|v st|y v st Hy|y v st Hy|v st v' st' Ev S P];
    cbn [fst snd]; intros Hl; (eapply spares_lost; [exact Hl| |]); destruct Hl as [U D]; try exact D.
  - unfold commit_block in E. destruct (negb (should_commit v)); [by injection E as <- <-|]. cbv zeta in E.
    destruct (negb _); [injection E as <- <-; apply spares_flush|].
    destruct (if outer_dmabuf _ then _ else _) as [[[[w h] dma] b]|]; [injection E as E|by eapply shm_spares].
    match type of E with forward_dmabuf _ _ _ _ ?v1 _ = _ => pose proof (forward_spares x w h dma b v1 st U) as F end.
    rewrite E in F. apply F. eapply not_direct_same; [|exact D]. by rewrite resize_outer_bufs.
  - unfold commit_block in E. destruct (negb (should_commit v)); [by injection E as <- <-|]. cbv zeta in E.
    destruct (negb _); [injection E as <- <-; done|].
    destruct (if outer_dmabuf _ then _ else _) as [[[[w h] dma] b]|]; [injection E as E|].
    + match type of E with forward_dmabuf _ _ _ _ ?v1 _ = _ => pose proof (forward_spares x w h dma b v1 st U) as F end.
      rewrite E in F. apply F. eapply not_direct_same; [|exact D]. by rewrite resize_outer_bufs.
    + apply (shm_spares x) in E as [_ E]. eapply not_direct_same; [exact E|done].
  - unfold on_dmabuf_release. destruct (outer_bufs v !! id) as [[r k]|] eqn:E; [|reflexivity]. cbn [ob_inner].
    unfold is_released in Hr. rewrite E in Hr. destruct k as [bs|hs]; cbn [snd].
    + apply spares_release_all. by eapply D.
    + apply spares_for_each. intros; apply spares_hold_drop.
  - unfold on_dmabuf_release. destruct (outer_bufs v !! id) as [[r k]|] eqn:E; [|done]. cbn [ob_inner].
    destruct k as [bs|hs]; cbn [fst]; (eapply not_direct_insert; [reflexivity|exact D|done]).
  - apply spares_slot_take.
  - apply spares_drop_task.
  - apply spares_hold_drop.
  - by apply spares_same.
  - apply spares_hold_new.
  - apply spares_slot_put.
  - apply spares_flush.
  - intros [U1 U2]. split; [split; [|done]|].
    + cbn. rewrite not_elem_of_app. split; [done|]. by intros ?%list_elem_of_singleton.
    + exists []. rewrite app_nil_r. split; [done|apply not_elem_of_nil].
  - by apply spares_release.
  - by apply spares_still.
  - by eapply not_direct_same.
Qed.

Lemma aftermath_run x s s' : rtc (aftermath x) s s' -> lost x s.1 s.2 ->
  lost x s'.1 s'.2 /\ exists l, out s'.2 = out s.2 ++ l /\ BufferRelease x ∉ l.
Proof.
  induction 1 as [s|s s' s'' A _ IH]; intros L.
  - split; [done|]. exists []. rewrite app_nil_r. split; [done|apply not_elem_of_nil].
  - destruct (aftermath_lost x s s' A L) as [L' (l & O & N)]. destruct (IH L') as [L'' (l' & O' & N')].
    split; [done|]. exists (l ++ l'). rewrite O', O, app_assoc. split; [done|]. by rewrite not_elem_of_app.
Qed.

Lemma recording_kept x s st : recording s = recording st -> raised s = raised st ->
  recording (release_inner_buffer x s) = recording st /\ raised (release_inner_buffer x s) = raised st.
Proof. intros E1 E2. by destruct (release_fields x s) as (-> & -> & _). Qed.

(** Forwarding while recording takes the buffer off the queue, and nothing asks for it. *)
Lemma forward_recording_lost w h dma b v st x :
  is_recording st = true -> dmabuf_of st x = Some dma ->
  match buffer_hold_state st !! x with Some h => bhs_release_requested h = false | None => True end -> not_direct x v ->
  lost x (forward_dmabuf w h dma b v st).1 (forward_dmabuf w h dma b v st).2 /\
  exists l, out (forward_dmabuf w h dma b v st).2 = out st ++ l /\ BufferRelease x ∉ l.
Proof.
  intros Hr Hx U2 Hd. unfold forward_dmabuf, take_pending_releases_split. cbn [take_pending_releases]. cbv zeta beta iota.
  set (st0 := st <| pending_dmabuf_releases := [] |>).
  assert (U0 : unasked x st0) by (split; [apply not_elem_of_nil|exact U2]).
  set (ir := filter (fun b => dmabuf_of st0 b = Some dma) (pending_dmabuf_releases st)).
  set (sk := filter (fun b => dmabuf_of st0 b <> Some dma) (pending_dmabuf_releases st)).
  assert (Hsk : x ∉ sk) by (by intros [? _]%list_elem_of_filter).
  set (st1 := if nonempty sk then _ else _).
  assert (S1 : spares x st0 st1) by (by apply spares_release_all).
  assert (R1 : recording st1 = recording st /\ raised st1 = raised st).
  { assert (R : recording (for_each sk release_inner_buffer st0) = recording st /\
                raised (for_each sk release_inner_buffer st0) = raised st).
    { apply (for_each_inv (fun s => recording s = recording st /\ raised s = raised st)); [done|].
      intros y s _ [E1 E2]. by apply recording_kept. }
    unfold st1. by destruct (nonempty sk). }
  clearbody st1. assert (is_recording st1 = true) as ->.
  { unfold is_recording, is_active, is_raised in *. by destruct R1 as [-> ->]. }
  pose proof (spares_pin_all x ir st1) as S2. destruct (pin_all ir st1) as [st2 hs]. cbn [fst snd] in *.
  assert (S3 : spares x st0 (try_push_recording (TaskDmabuf dma hs) (for_each hs hold_clone st2))).
  { etransitivity; [exact S1|]. etransitivity; [exact S2|]. etransitivity; [apply spares_clones|apply spares_push]. }
  destruct (S3 U0) as [U3 O3]. split; [|exact O3]. split; [exact U3|].
  eapply (not_direct_insert x _ {| ob_released := false; ob_inner := Refcounted hs |} v); [|exact Hd|exact I].
  cbn. by rewrite prune_outer_bufs.
Qed.

(** C34: A buffer that is forwarded while the session records is never given back to its
    client: whatever then happens, in any order and however often (the host releases the
    frame, the encoders take, share and drop it, the recording stops, the view goes on
    forwarding or falls back to copying, other buffers are committed and released), no release
    of it is sent, unless the client commits that very buffer again, which it may not before
    it has been released. The buffer was waiting for its release, the host had no earlier
    frame of it that was still out, and no release of it was already due when the last hold
    on it ends. *)
Theorem recording_while_attached_leaks w h dma b v st v1 st1 x v2 st2 :
  is_recording st = true -> x ∈ pending_dmabuf_releases st -> dmabuf_of st x = Some dma ->
  match buffer_hold_state st !! x with Some h => bhs_release_requested h = false | None => True end -> not_direct x v ->
  forward_dmabuf w h dma b v st = (v1, st1) -> rtc (aftermath x) (v1, st1) (v2, st2) ->
  (x ∉ pending_dmabuf_releases st2) /\ exists l, out st2 = out st ++ l /\ BufferRelease x ∉ l.
Proof.
  intros Hr _ Hx U Hd E R. pose proof (forward_recording_lost w h dma b v st x Hr Hx U Hd) as F. rewrite E in F.
  cbn [fst snd] in F. destruct F as [L (l0 & O0 & N0)].
  destruct (aftermath_run x _ _ R L) as [[[P _] _] (l & O & N)]. cbn [snd] in *. split; [done|].
  exists (l0 ++ l). rewrite O, O0, app_assoc. split; [done|]. by rewrite not_elem_of_app.
Qed.

(** ** Examples *)

(** An attached session whose window shows a dmabuf and has committed the next one. *)
Definition dmabuf_of_size (w h : Z) (data : nat) : Buffer :=
  {| buf_protocol_id := 3; buf_drm_format := 0; buf_modifier := 0; buf_data := data;
     buf_kind := Dmabuf w h (w * 4) Argb8888 None |}.

Definition attached (rec : option DualRecordingHandle) : State :=
  (state_new "demo" 8 6 1 None false 5000000)
    <| windows_by_id := {[1 := (5%nat, 0%nat)]} |> <| focused_window := Some 1 |>
    <| surfs := {[5%nat := surface_default <| pending_buffer := Some 9%nat |>]} |>
    <| bufs := {[9%nat := dmabuf_of_size 8 6 100]} |> <| alive := {[5%nat; 9%nat]} |>
    <| outer_wake_fd := Some 3%nat |> <| slots := {[20%nat := slot_new]} |> <| next_addr := 30%nat |>
    <| recording := rec |>.

Definition one_recording : DualRecordingHandle :=
  {| drh_primary := {| rh_stop := 21; rh_slot := 20; rh_mode := FocusedWindow; rh_codec := H264Vulkan;
                       rh_path := "/r/a.mkv" |}; drh_secondary := None |}.

Definition a_view (dmabuf : bool) : View :=
  {| bridge := bridge_new true true true; configured := true; toplevel_fullscreen := false; stopped := false;
     pointer_enter_serial := 0; session_empty := false; frame_callback_fired := false;
     pending_frame_cb := false; has_new_damage := true; last_damage_checked := 0; inner_sel_version := 0;
     outer_source := None; pending_offers := ∅; has_seat := true; has_keyboard := true; has_pointer := true;
     data_device := false; data_device_manager := false; outer_dmabuf := dmabuf; dmabuf_in_flight := [];
     outer_bufs := ∅; fb := framebuffer_new 0 8 6; ov_next := 2; ov_out := [] |}.

(** The client commits, the view forwards, the host is done with the frame, and so is the
    encoder. *)
Definition forwarded (rec : option DualRecordingHandle) : result (View * State) stop :=
  let? st := @surface_commit key_order (fun _ _ _ => None) 4 5 0 true (attached rec) in
  let? r := view_round 4 true (a_view true) st in
  let '(v, st) := on_dmabuf_release 2 r.1 r.2 in
  let '(st, t) := slot_take 20 st in
  Ok (v, match t with Some t => drop_task t st | None => st end).

Definition released_to_client (b : nat) (r : result (View * State) stop) : option bool :=
  match r with
  | Ok (_, st) => Some (existsb (fun o => match o with BufferRelease x => (x =? b)%nat | _ => false end) (out st))
  | Err _ => None
  end.

(** Nothing in the session refers to the buffer any more. *)
Definition forgotten (b : nat) (r : result (View * State) stop) : bool :=
  match r with
  | Ok (_, st) => bool_decide (pending_dmabuf_releases st = []) && bool_decide (size (holds st) = 0%nat)
                  && bool_decide (size (buffer_hold_state st) = 0%nat)
  | Err _ => false
  end.

(** The whole of it on one buffer: the host has released the frame, the encoder has dropped
    it, no hold and no queue mentions it, and no release was sent; without the recording there
    is one. *)
Example recording_leak_run :
  released_to_client 9 (forwarded (Some one_recording)) = Some false /\
  forgotten 9 (forwarded (Some one_recording)) = true /\
  released_to_client 9 (forwarded None) = Some true.
Proof. vm_compute. done. Qed.

(** The session when the view comes to forward. *)
Definition committed : State :=
  match @surface_commit key_order (fun _ _ _ => None) 4 5 0 true (attached (Some one_recording)) with
  | Ok st => st
  | Err _ => attached (Some one_recording)
  end.

Definition after_forward : View * State := forward_dmabuf 8 6 100 9 (a_view true) committed.

Lemma recording_while_attached_leaks_witness :
  let r := on_dmabuf_release 2 after_forward.1 after_forward.2 in
  (9%nat ∉ pending_dmabuf_releases (slot_take 20 r.2).1) /\
  exists l, out (slot_take 20 r.2).1 = out committed ++ l /\ BufferRelease 9 ∉ l.
Proof.
  intros r. apply (recording_while_attached_leaks 8 6 100 9 (a_view true) committed after_forward.1 after_forward.2 9 r.1).
  - vm_compute. reflexivity.
  - apply (bool_decide_eq_true_1 _); vm_compute; reflexivity.
  - vm_compute. reflexivity.
  - vm_compute. reflexivity.
  - intros id ob bs. cbn. by rewrite lookup_empty.
  - clear r. unfold after_forward. destruct (forward_dmabuf _ _ _ _ _ _). reflexivity.
  - eapply rtc_l; [apply (a_host 9 2); vm_compute; reflexivity|]. fold r. destruct r as [v' st'].
    apply rtc_once. apply a_take.
Defined.

Lemma view_round_paced_witness :
  exists v' st', view_round 4 true (a_view true) (attached None) = Ok (v', st') /\
    frame_outcome (a_view true) v' /\ pace_inv v'.
Proof.
  destruct (view_round 4 true (a_view true) (attached None)) as [[v' st']|] eqn:E;
    [|vm_compute in E; discriminate E].
  exists v', st'. split; [reflexivity|].
  apply (view_round_paced 4 true (a_view true) (attached None) v' st'); [discriminate|exact E].
Defined.

Definition busy_view : View :=
  (a_view true) <| fb ::= (fun f => f <| fb_slots ::= fmap (fun s => s <| ss_released := false |>) |>) |>.

Definition empty_session : State := state_new "demo" 8 6 1 None false 5000000.

Lemma busy_placeholder_freezes_witness :
  exists v' st', commit_block 4 true busy_view empty_session = Ok (v', st') /\ ov_out v' = [VFrame].
Proof.
  destruct (busy_placeholder_freezes 4 true busy_view empty_session
    ((alloc_slot 0 6 32) <| ss_released := false |>)) as (v' & st' & E & O & _);
    [reflexivity..|].
  exists v', st'. split; [exact E|exact O].
Defined.

Definition pending_one : State := (attached None) <| pending_dmabuf_releases := [9%nat] |>.

Lemma forwarded_buffers_return_witness :
  BufferRelease 9 ∈ out (on_dmabuf_release 2 (forward_dmabuf 8 6 100 9 (a_view true) pending_one).1
                                             (forward_dmabuf 8 6 100 9 (a_view true) pending_one).2).2.
Proof.
  destruct (forward_dmabuf 8 6 100 9 (a_view true) pending_one) as [v1 st1] eqn:E1. cbn [fst snd].
  destruct (on_dmabuf_release 2 v1 st1) as [v2 st2] eqn:E2. cbn [snd].
  refine (proj2 (forwarded_buffers_return 8 6 100 9 (a_view true) pending_one v1 st1 v2 st2 _ _ E1 E2) 9%nat _ _).
  - reflexivity.
  - reflexivity.
  - apply list_elem_of_In. left. reflexivity.
  - apply elem_of_union_r, elem_of_singleton. reflexivity.
Defined.

(** ** Detaching *)

(** Detaching an outer view gives no waiting buffer back and tells no one that the
    session is hidden: by the time the server clears the wake descriptor the view's own
    thread has cleared it. *)
Theorem detach_skips_flush sv fd st :
  active_view sv = Some fd -> outer_wake_fd st = Some fd ->
  let st' := (attach_detach sv st).2 in
  is_attached st' = false /\ pending_dmabuf_releases st' = pending_dmabuf_releases st /\
  events st' = events st.
Proof.
  intros Ha Hf. unfold attach_detach, join_view. rewrite Ha. unfold outer_view_join, clear_outer_wake_fd_if_mine.
  rewrite decide_True by done. cbv zeta. cbn [snd].
  set (st1 := post_error _ _ _).
  assert (E : outer_wake_fd st1 = None /\ pending_dmabuf_releases st1 = pending_dmabuf_releases st /\ events st1 = events st).
  { unfold st1, post_error. destruct (current_attach sv); [|done]. by case_match. }
  destruct E as (E1 & E2 & E3). unfold set_outer_wake_fd, is_attached. rewrite E1. cbn. done.
Qed.

Lemma detach_skips_flush_witness :
  pending_dmabuf_releases (attach_detach {| active_view := Some 3%nat; current_attach := Some 4%nat |} pending_one).2
    = [9%nat].
Proof.
  refine (proj1 (proj2 (detach_skips_flush {| active_view := Some 3%nat; current_attach := Some 4%nat |} 3 pending_one _ _)));
    reflexivity.
Defined.
