(* ===== verification/SessionRun.v ===== *)
(** * A session as a whole

    Everything that can happen to a session, one constructor per request of a client,
    command of the control socket, action of the attached view or of an encoder's
    thread; and the two invariants that hold in every state a session reaches: keys
    go only to keyboards that were told they have the focus, and no buffer is given
    back to its client while an encoder or the host still reads it.

    A step is one whole operation. The code takes the locks of the session's parts one
    after the other and sends after it has dropped them, and requests, the control socket,
    the view and the encoders run on threads of their own, so interleavings inside an
    operation are not covered: [inject_key] looks up the focused client, then its
    keyboards, and then sends, so that a leave can come in between; [register_surface]
    changes the focus and sends the events afterwards; [release_inner_buffer] looks at the
    holds under one lock and releases after it, so that a hold can be taken in between. *)

From Stdlib Require Import ZArith Lia.
From stdpp Require Import prelude strings gmap list.
From S2P Require Import Prelude Words Floats Messages Composite Pixels Session SessionInput SessionRecord.
From S2P Require Import Compositor SessionFocus SessionBuffers InputBridge OuterView Control ControlProps.

Open Scope Z_scope.

Section Run.
Context {HO : HashOrder} {CR : CursorReader} {CE : CtlEnv}.

(** ** Steps *)

(** What clients and the compositor's loop do. The ids of new objects are new: no
    keyboard or pointer of the session has them. *)
Inductive client_step : State -> State -> Prop :=
| c_create_surface s st : unregistered s st -> client_step st (create_surface s st)
| c_create_buffer b bf st : unregistered b st ->
    client_step st (init_object b (st <| bufs ::= insert b bf |>))
| c_destroy id st : client_step st (object_gone id st)
| c_attach s b st : client_step st (surface_attach s b st)
| c_frame s cb st : unregistered (res_id cb) st -> client_step st (surface_frame s cb st)
| c_commit fuel s c waited st st' : ids_left st -> room 3 st ->
    surface_commit fuel s c waited st = Ok st' -> client_step st st'
| c_set_cursor cur st st' : set_cursor cur st = Ok st' -> client_step st st'
| c_get_keyboard km c k st : unregistered (res_id k) st -> client_step st (get_keyboard km c k st)
| c_keyboard_gone c k st : client_step st (keyboard_destroyed c k st)
| c_get_pointer c p st : unregistered (res_id p) st -> client_step st (get_pointer c p st)
| c_pointer_gone c p st : client_step st (pointer_destroyed c p st)
| c_get_touch c t st : unregistered (res_id t) st -> client_step st (get_touch c t st)
| c_touch_gone c t st : client_step st (touch_destroyed c t st)
| c_get_toplevel c pid s xs tl st : ids_left st -> unregistered (res_id tl) st ->
    client_step st (get_toplevel c pid s xs tl st)
| c_title w x st : client_step st (set_title w x st)
| c_app_id w x st : client_step st (set_app_id w x st)
| c_geometry s x y w h st : client_step st (set_window_geometry s x y w h st)
| c_toplevel_destroy w tl st : client_step st (toplevel_destroy w tl st)
| c_toplevel_gone w tl st : client_step st (toplevel_destroyed w tl st)
| c_get_layer s l st : unregistered l st -> client_step st (get_layer_surface s l st)
| c_interactivity s n st : client_step st (set_keyboard_interactivity s n st)
| c_layer_destroy s l st : client_step st (layer_destroy s l st)
| c_layer_gone s l st : client_step st (layer_destroyed s l st)
| c_inhibit s i st : unregistered i st -> client_step st (inhibit_shortcuts s i st)
| c_inhibitor_gone s i st : client_step st (inhibitor_destroyed s i st)
| c_lock l st : unregistered l st -> client_step st (lock_pointer l st)
| c_unlock l st : client_step st (locked_pointer_destroy l st)
| c_relative p st : unregistered (res_id p) st -> client_step st (get_relative_pointer p st)
| c_feedback s f st : unregistered (res_id f) st -> client_step st (presentation_feedback s f st)
| c_sync_surface m s id st : unregistered id st -> client_step st (sync_get_surface m s id st)
| c_acquire s p st : client_step st (set_acquire_point s p st)
| c_release_point s p st : client_step st (set_release_point s p st)
| c_data_device d st : unregistered (res_id d) st -> client_step st (get_data_device d st)
| c_selection src st : client_step st (set_selection src st)
| c_data_device_gone d st : client_step st (data_device_gone d st)
| c_primary src st : client_step st (set_primary_selection src st)
| c_output o st : unregistered (res_id o) st -> client_step st (bind_output o st)
| c_plasma m st : unregistered (res_id m) st -> client_step st (bind_plasma m st)
| c_plasma_window w n st : unregistered (res_id w) st -> client_step st (get_plasma_window w n st)
| c_plasma_window_gone w n st : client_step st (plasma_window_destroyed w n st)
| c_screencopy region f st : unregistered (res_id f) st ->
    client_step st (init_screencopy_frame region f st).1
| c_copy fuel f d b st st' d' : screencopy_copy fuel f d b st = Ok (st', d') -> client_step st st'
| c_round vers offer acc ls st : (forall d o, offer d = Some o -> unregistered o st) ->
    client_step st (loop_round vers offer acc ls st).1.1.

(** What the control socket, the attached view and the clock do to the session, besides
    what they do to holds. *)
Inductive other_step : State -> State -> Prop :=
| o_dispatch fuel m st st' r : room 3 st -> dispatch fuel m st = Ok (st', r) -> other_step st st'
| o_attach res fd sv st : other_step st (attach_get_surface res fd sv st).2
| o_detach sv st : other_step st (attach_detach sv st).2
| o_closed sv st : other_step st (attach_view_closed sv st).2
| o_key kc pr d la lo g st : other_step st (inject_key kc pr d la lo g st).1
| o_pointer w c x y b pr ax ay sq st st' d :
    inject_pointer w c x y b pr ax ay sq st = Ok (st', d) -> other_step st st'
| o_axis src h v sh sv st : other_step st (inject_axis src h v sh sv st).1
| o_relative hi lo dx dy dxu dyu st : other_step st (inject_relative_pointer hi lo dx dy dxu dyu st)
| o_keymap fd n st : other_step st (update_keymap fd n st)
| o_clipboard c st : other_step st (set_outer_clipboard c st)
| o_flush st : other_step st (flush_pending_releases st)
| o_split dma st : other_step st (take_pending_releases_split dma st).1
| o_release b st : other_step st (release_inner_buffer b st)
| o_wake st : other_step st (wake_compositor st)
| o_push_pixels px w h st : other_step st (try_push_recording (TaskPixels px w h) st)
| o_tick t st : clock_ns st <= t -> other_step st (st <| clock_ns := t |>)
| o_fences f st : other_step st (st <| fence_ready := f |>).

(** A session with the references to holds that its encoders and its view have taken. *)
Inductive step : list nat * State -> list nat * State -> Prop :=
| s_client own st st' : client_step st st' -> step (own, st) (own, st')
| s_other own st st' : other_step st st' -> step (own, st) (own, st')
| s_take own a st : step (own, st)
    (match (slot_take a st).2 with Some t => task_holds t | None => [] end ++ own, (slot_take a st).1)
| s_done t own own' st : own ≡ₚ task_holds t ++ own' -> step (own, st) (own', drop_task t st)
| s_pin bs dma own st : room (Z.of_nat (length bs)) st ->
    step (own, st)
      ((pin_all bs st).2 ++ own,
       let '(st, hs) := pin_all bs st in
       try_push_recording (TaskDmabuf dma hs) (for_each hs hold_clone st))
| s_unpin hs own own' st : own ≡ₚ hs ++ own' -> step (own, st) (own', for_each hs hold_drop st).

(** ** Focus *)

Lemma init_then id st st' :
  unregistered id st -> quiet (init_object id st) st' -> focus_inv st -> focus_inv st'.
Proof. intros U Q I. eapply focus_inv_quiet; [exact Q|]. by apply init_object_inv. Qed.

(** Creating an object does not disturb what is quiet. *)
Lemma quiet_init_mono id st st' : quiet st st' -> quiet (init_object id st) (init_object id st').
Proof.
  intros [[] (l & O & H)]. split; [|by exists l]. split; try done. cbn. set_solver.
Qed.

(** A request that creates an object: the object, then quiet operations. *)
Ltac created :=
  eapply init_then; [eassumption| |assumption];
  quiet_tac; try (apply quiet_init_mono; quiet_tac); try done.

Lemma quiet_clipboard_step (l : list resource) offer entries st :
  (forall d o, offer d = Some o -> unregistered o st) -> focus_inv st ->
  focus_inv (for_each l (fun d st => match offer d with
    | Some o => put (OfferMade (res_id d) o entries) (init_object o st) | None => st end) st).
Proof.
  intros U I.
  assert (G : (fun s => keyboards s = keyboards st /\ pointers s = pointers st /\ focus_inv s)
    (for_each l (fun d st => match offer d with
      | Some o => put (OfferMade (res_id d) o entries) (init_object o st) | None => st end) st)).
  { apply for_each_inv; [done|]. intros d s _ (K & P & J). destruct (offer d) as [o|] eqn:E; [|done].
    split_and!; [done|done|]. eapply focus_inv_quiet; [by apply quiet_put|]. apply init_object_inv; [|done].
    intros c r. rewrite K, P. by apply (U d o E). }
  apply G.
Qed.

Lemma loop_round_focus vers offer acc ls st :
  (forall d o, offer d = Some o -> unregistered o st) -> focus_inv st ->
  focus_inv (loop_round vers offer acc ls st).1.1.
Proof.
  intros U I. unfold loop_round. cbv zeta.
  set (st1 := if acc then note_activity st else st).
  assert (Q1 : quiet st st1) by (unfold st1, note_activity; destruct acc; quiet_tac).
  destruct (if _ <=? _ then _ else _) as [st2 t2] eqn:E2.
  assert (Q2 : quiet st1 st2).
  { destruct (_ <=? _) in E2; injection E2 as <- <-; [|done].
    etransitivity; [apply quiet_drain_frame_callbacks|apply quiet_drain_feedbacks]. }
  destruct (if 16 <=? _ then _ else _) as [st3 t3] eqn:E3.
  assert (Q3 : quiet st2 st3).
  { destruct (16 <=? _) in E3; injection E3 as <- <-; [apply quiet_poke_surfaces|done]. }
  cbn [fst]. assert (Q : quiet st st3) by (by rewrite Q1, Q2).
  unfold drain_clipboard. destruct (negb _); [exact (focus_inv_quiet _ _ Q I)|].
  destruct (_ =? _); [exact (focus_inv_quiet _ _ Q I)|].
  set (st4 := st3 <| last_sent_clipboard := _ |>).
  assert (Q4 : quiet st st4) by (etransitivity; [exact Q|unfold st4; quiet_tac]).
  cbv zeta. destruct (outer_clipboard st4); [|exact (focus_inv_quiet _ _ Q4 I)].
  apply quiet_clipboard_step; [|exact (focus_inv_quiet _ _ Q4 I)].
  intros d o Ho c r. destruct Q4 as [[_ _ -> -> _ _] _]. by apply (U d o Ho).
Qed.

Lemma client_focus st st' : client_step st st' -> focus_inv st -> focus_inv st'.
Proof.
  destruct 1; intros I.
  - unfold create_surface. created.
  - created.
  - eapply focus_inv_quiet; [apply quiet_object_gone|done].
  - eapply focus_inv_quiet; [apply quiet_upd_surf|done].
  - unfold surface_frame, queue_frame_callback. created.
  - by eapply surface_commit_inv.
  - pose proof (quiet_cursor (st <| cursor_surface := cur |>)) as Q. unfold set_cursor in H. rewrite H in Q.
    eapply focus_inv_quiet; [|exact I]. etransitivity; [|exact Q]. quiet_tac.
  - unfold get_keyboard. destruct (get_keymap km _) as [fd n]. apply register_keyboard_inv. created.
  - apply unregister_keyboard_inv. eapply focus_inv_quiet; [apply quiet_object_gone|done].
  - apply register_pointer_inv. by apply init_object_inv.
  - apply unregister_pointer_inv. eapply focus_inv_quiet; [apply quiet_object_gone|done].
  - unfold get_touch, register_touch. created.
  - unfold touch_destroyed, unregister_touch. eapply focus_inv_quiet; [|exact I]. quiet_tac.
  - by apply get_toplevel_inv.
  - eapply focus_inv_quiet; [apply quiet_set_title|done].
  - eapply focus_inv_quiet; [apply quiet_set_app_id|done].
  - eapply focus_inv_quiet; [apply quiet_upd_surf|done].
  - apply toplevel_teardown_inv. eapply focus_inv_quiet; [apply quiet_object_gone|]. by apply toplevel_teardown_inv.
  - apply toplevel_teardown_inv. eapply focus_inv_quiet; [apply quiet_object_gone|done].
  - unfold get_layer_surface. cbn [comp_next_serial]. created.
  - eapply focus_inv_quiet; [apply quiet_upd_surf|done].
  - apply layer_teardown_inv. eapply focus_inv_quiet; [apply quiet_object_gone|]. by apply layer_teardown_inv.
  - apply layer_teardown_inv. eapply focus_inv_quiet; [apply quiet_object_gone|done].
  - unfold inhibit_shortcuts, set_shortcuts_inhibited. created.
  - unfold inhibitor_destroyed, set_shortcuts_inhibited. eapply focus_inv_quiet; [|exact I]. quiet_tac.
  - unfold lock_pointer, inc_pointer_lock_count. created.
  - unfold locked_pointer_destroy, dec_pointer_lock_count. eapply focus_inv_quiet; [|exact I]. quiet_tac.
  - unfold get_relative_pointer, add_relative_pointer. created.
  - unfold presentation_feedback. created.
  - unfold sync_get_surface.
    destruct (surfs st !! s) as [sd|]; [destruct (surface_sync sd)|].
    + eapply focus_inv_quiet; [|exact I]. quiet_tac.
    + created.
    + eapply focus_inv_quiet; [|exact I]. quiet_tac.
  - eapply focus_inv_quiet; [apply quiet_upd_surf|done].
  - eapply focus_inv_quiet; [apply quiet_upd_surf|done].
  - unfold get_data_device, register_data_device. cbv zeta. created.
  - unfold set_selection, set_inner_selection, clear_inner_selection. eapply focus_inv_quiet; [|exact I]. quiet_tac.
  - unfold data_device_gone, unregister_data_device. eapply focus_inv_quiet; [|exact I]. quiet_tac.
  - unfold set_primary_selection. eapply focus_inv_quiet; [|exact I]. quiet_tac.
  - unfold bind_output, register_output. cbn [snapshot]. created.
  - unfold bind_plasma, register_plasma_manager. created.
  - unfold get_plasma_window, register_plasma_window. created.
  - unfold plasma_window_destroyed, unregister_plasma_window. eapply focus_inv_quiet; [|exact I]. quiet_tac.
  - unfold init_screencopy_frame. cbn [snapshot]. cbv zeta. destruct (match region with Some _ => _ | None => _ end).
    cbn [fst]. created.
  - eapply focus_inv_quiet; [|exact I]. unfold screencopy_copy in *. cbv zeta in *.
    repeat case_match; simplify_eq; quiet_tac.
  - by apply loop_round_focus.
Qed.

(** ** Focus, the control socket and the view *)

Lemma quiet_take_recording st : quiet st (take_recording st).1.
Proof. unfold take_recording, stop_both. case_match; cbn [fst]; quiet_tac. Qed.

Lemma quiet_take_viewer fuel st : quiet_res st (take_viewer fuel st).
Proof.
  unfold take_viewer, kill_viewer_child. repeat case_match; cbn [quiet_res]; try done; quiet_tac.
Qed.

Lemma quiet_spawn_thread n p c m f st : quiet st (spawn_recording_thread n p c m f st).1.
Proof. unfold spawn_recording_thread. cbv zeta. repeat case_match; cbn [fst]; quiet_tac. Qed.

Lemma quiet_prime fuel st : quiet_res st (prime_recording_first_frame fuel st).
Proof.
  unfold prime_recording_first_frame. cbv zeta.
  repeat match goal with |- context [match ?x with Some _ => _ | None => _ end] => destruct x end;
    apply quiet_tap || apply quiet_res_ok.
Qed.

(** The state of a reply. *)
Definition quiet_reply {A} (st : State) (r : result (State * A) stop) : Prop :=
  match r with Ok (st', _) => quiet st st' | Err _ => True end.

Lemma quiet_record_launch fuel p sp c sc m f st : quiet_reply st (record_launch fuel p sp c sc m f st).
Proof.
  unfold record_launch. destruct (recording st); [cbn; reflexivity|].
  pose proof (quiet_spawn_thread 0 p c m f st) as Q1.
  destruct (spawn_recording_thread 0 p c m f st) as [st1 [h1|e1]]; [|exact Q1]. cbn [fst] in Q1.
  assert (P : forall st2 d, quiet st st2 -> quiet_reply st
    (let? st3 := prime_recording_first_frame fuel (st2 <| recording := d |>) in
     Ok (st3, RRecordStarted {| scr_path := p; scr_secondary_path := sp |}))).
  { intros st2 d Q2. pose proof (quiet_prime fuel (st2 <| recording := d |>)) as Q3.
    destruct (prime_recording_first_frame fuel _) as [st3|]; [|done]. cbn [quiet_res quiet_reply] in *.
    rewrite Q2. etransitivity; [|exact Q3]. quiet_tac. }
  destruct sc as [sc|]; [destruct sp as [sp|]|]; [|by apply P|by apply P].
  pose proof (quiet_spawn_thread 1 sp sc m f st1) as Q2.
  destruct (spawn_recording_thread 1 sp sc m f st1) as [st2 [h2|e2]]; cbn [fst] in Q2.
  - apply P. by rewrite Q1.
  - cbn [quiet_reply]. rewrite Q1, Q2. quiet_tac.
Qed.

Lemma quiet_viewer_start bind port st : quiet_reply st (viewer_start bind port st).
Proof.
  assert (B : forall n b p w h st, quiet st (spawn_bridge n b p w h st).1).
  { intros. unfold spawn_bridge. cbv zeta. repeat case_match; cbn [fst]; quiet_tac. }
  unfold viewer_start. destruct (viewer st); [cbn; reflexivity|]. destruct select_viewer_codec; [|cbn; reflexivity].
  cbn [snapshot]. cbv zeta. set (st1 := st <| next_addr ::= S |>).
  assert (Q1 : quiet st st1) by (unfold st1; quiet_tac).
  pose proof (B (st_name st1) bind port (width (inner st)) (height (inner st)) st1) as Q2.
  destruct (spawn_bridge _ _ _ _ _ st1) as [st2 [[child url]|e]]; cbn [fst] in Q2; [|cbn; by transitivity st1].
  destruct clone_socket; [cbn; by transitivity st1|]. destruct (thread_spawn 0); [done|]. cbn [quiet_reply].
  transitivity st2; [by transitivity st1|]. quiet_tac.
Qed.

Lemma inject_op_focus op st st' d : inject_op op st = Ok (st', d) -> focus_inv st -> focus_inv st'.
Proof.
  destruct op; cbn [inject_op]; intros H I.
  - injection H as H. pose proof (inject_key_inv keycode (is_pressed state) modifiers 0 0 0 st I) as J.
    by rewrite H in J.
  - eapply focus_inv_quiet; [by eapply quiet_inject_pointer|done].
  - eapply focus_inv_quiet; [by eapply quiet_inject_touch|done].
Qed.

Lemma inject_batch_focus ops n st st' k : inject_batch ops n st = Ok (st', k) -> focus_inv st -> focus_inv st'.
Proof.
  revert n st. induction ops as [|op ops IH]; intros n st H I; [by injection H as <- <-|].
  cbn [inject_batch] in H. destruct (inject_op op st) as [[st1 d]|] eqn:E; [|done].
  eapply IH; [exact H|]. by eapply inject_op_focus.
Qed.

Lemma dispatch_focus fuel m st st' r : dispatch fuel m st = Ok (st', r) -> focus_inv st -> focus_inv st'.
Proof.
  intros H I.
  assert (Qr : forall x : result (State * reply) stop, x = Ok (st', r) -> quiet_reply st x -> focus_inv st').
  { intros x -> Q. by eapply focus_inv_quiet. }
  destruct m; cbn [dispatch] in H.
  - by injection H as <- <-.
  - by injection H as <- <-.
  - injection H as <- <-. eapply focus_inv_quiet; [apply quiet_resize|done].
  - destruct (capture_window _ _ st); [|done]. by injection H as <- <-.
  - destruct (capture_desktop _ st); [|done]. by injection H as <- <-.
  - destruct (inject_op _ st) as [[st1 d]|] eqn:E; [|done]. injection H as <- <-. by eapply inject_op_focus.
  - destruct (inject_op _ st) as [[st1 d]|] eqn:E; [|done]. injection H as <- <-. by eapply inject_op_focus.
  - destruct (inject_op _ st) as [[st1 d]|] eqn:E; [|done]. injection H as <- <-. by eapply inject_op_focus.
  - destruct (inject_batch ops 0 st) as [[st1 d]|] eqn:E; [|done]. injection H as <- <-. by eapply inject_batch_focus.
  - unfold with_reply, shutdown in H. pose proof (quiet_take_recording st) as Q1.
    pose proof (quiet_take_viewer fuel (take_recording st).1) as Q2.
    destruct (take_viewer fuel _) as [st1|]; [|done]. injection H as <- <-. cbn [quiet_res] in Q2.
    eapply focus_inv_quiet; [|exact I]. rewrite Q1, Q2. quiet_tac.
  - unfold record_start in H. cbv zeta in H.
    destruct (match path with Some p => Ok p | None => _ end) as [p|]; [|by injection H as <- <-].
    destruct (record_checks _ _ _ _); [|by injection H as <- <-].
    eapply Qr; [exact H|]. apply quiet_record_launch.
  - unfold record_stop in H. pose proof (quiet_take_recording st) as Q.
    destruct (take_recording st) as [st1 was]. injection H as <- <-. by eapply focus_inv_quiet.
  - by injection H as <- <-.
  - eapply Qr; [exact H|]. apply quiet_viewer_start.
  - unfold with_reply in H. pose proof (quiet_take_viewer fuel st) as Q.
    destruct (take_viewer fuel st) as [st1|]; [|done]. injection H as <- <-. by eapply focus_inv_quiet.
  - by injection H as <- <-.
Qed.

Lemma quiet_join v st : quiet st (join_view v st).
Proof. unfold join_view, outer_view_join. quiet_tac. Qed.

Lemma quiet_post_error a x st : quiet st (post_error a x st).
Proof. unfold post_error. quiet_tac. Qed.

Lemma other_focus st st' : other_step st st' -> focus_inv st -> focus_inv st'.
Proof.
  destruct 1; intros I; try (by apply inject_key_inv); try (by eapply dispatch_focus);
    (eapply focus_inv_quiet; [|exact I]).
  - unfold attach_get_surface, outer_view_start. cbn [snd]. etransitivity; [apply quiet_join|apply quiet_set_outer].
  - unfold attach_detach. cbn [snd]. etransitivity; [apply quiet_join|].
    etransitivity; [apply quiet_post_error|apply quiet_set_outer].
  - unfold attach_view_closed. cbn [snd]. etransitivity; [|apply quiet_post_error].
    etransitivity; [apply quiet_join|apply quiet_set_outer].
  - by eapply quiet_inject_pointer.
  - apply quiet_axis.
  - apply quiet_relative.
  - apply quiet_update_keymap.
  - unfold set_outer_clipboard. quiet_tac.
  - apply quiet_flush.
  - unfold take_pending_releases_split. cbn [take_pending_releases fst]. quiet_tac.
  - apply quiet_release.
  - apply quiet_wake.
  - apply quiet_try_push.
  - quiet_tac.
  - quiet_tac.
Qed.

Lemma quiet_pin_all bs st : quiet st (pin_all bs st).1.
Proof.
  revert st. induction bs as [|b bs IH]; intros st; [cbn; reflexivity|]. cbn [pin_all].
  pose proof (quiet_hold_new b st) as Q. destruct (hold_new b st) as [st1 h]. cbn [fst] in Q.
  specialize (IH st1). destruct (pin_all bs st1) as [st2 hs]. cbn [fst] in *. by rewrite Q.
Qed.

Lemma step_focus s s' : step s s' -> focus_inv s.2 -> focus_inv s'.2.
Proof.
  destruct 1; cbn [snd]; intros I.
  - by eapply client_focus.
  - by eapply other_focus.
  - eapply focus_inv_quiet; [apply quiet_slot_take|done].
  - eapply focus_inv_quiet; [apply quiet_drop_task|done].
  - eapply focus_inv_quiet; [|exact I]. pose proof (quiet_pin_all bs st) as Q.
    destruct (pin_all bs st) as [st1 hs]. cbn [fst] in Q. rewrite Q. etransitivity; [|apply quiet_try_push]. quiet_tac.
  - eapply focus_inv_quiet; [|exact I]. quiet_tac.
Qed.

(** ** Holds *)

Ltac by_still := eapply hold_inv_fields; [eassumption|]; still_tac.

Lemma still_loop_round vers offer acc ls st : still st (loop_round vers offer acc ls st).1.1.
Proof.
  unfold loop_round. cbv zeta. set (st1 := if acc then note_activity st else st).
  assert (S1 : still st st1) by (unfold st1, note_activity; destruct acc; still_tac).
  destruct (if _ <=? _ then _ else _) as [st2 t2] eqn:E2.
  assert (S2 : still st1 st2).
  { destruct (_ <=? _) in E2; injection E2 as <- <-; [|done].
    etransitivity; [apply still_drain_callbacks|apply still_drain_feedbacks]. }
  destruct (if 16 <=? _ then _ else _) as [st3 t3] eqn:E3.
  assert (S3 : still st2 st3).
  { destruct (16 <=? _) in E3; injection E3 as <- <-; [apply still_poke_surfaces|done]. }
  cbn [fst]. transitivity st3; [by rewrite S1, S2|apply still_clipboard].
Qed.

Lemma client_holds own st st' : client_step st st' -> hold_inv own st -> hold_inv own st'.
Proof.
  destruct 1; intros I; try (by eapply commit_hold_inv);
    (eapply hold_inv_fields; [exact I|]).
  - unfold create_surface. still_tac.
  - still_tac.
  - apply still_gone.
  - apply still_upd_surf.
  - unfold surface_frame, queue_frame_callback. still_tac.
  - pose proof (still_cursor (st <| cursor_surface := cur |>)) as S. unfold set_cursor in H. rewrite H in S.
    etransitivity; [|exact S]. still_tac.
  - apply still_get_keyboard.
  - unfold keyboard_destroyed, unregister_keyboard. still_tac.
  - unfold get_pointer. still_tac.
  - unfold pointer_destroyed, unregister_pointer. still_tac.
  - unfold get_touch, register_touch. still_tac.
  - unfold touch_destroyed, unregister_touch. still_tac.
  - apply still_get_toplevel.
  - apply still_set_title.
  - apply still_set_app_id.
  - apply still_upd_surf.
  - unfold toplevel_destroy. still_tac.
  - unfold toplevel_destroyed. still_tac.
  - unfold get_layer_surface. cbn [comp_next_serial]. still_tac.
  - apply still_upd_surf.
  - unfold layer_destroy. still_tac.
  - unfold layer_destroyed. still_tac.
  - unfold inhibit_shortcuts, set_shortcuts_inhibited. still_tac.
  - unfold inhibitor_destroyed, set_shortcuts_inhibited. still_tac.
  - unfold lock_pointer, inc_pointer_lock_count. still_tac.
  - unfold locked_pointer_destroy, dec_pointer_lock_count. still_tac.
  - unfold get_relative_pointer, add_relative_pointer. still_tac.
  - unfold presentation_feedback. still_tac.
  - unfold sync_get_surface. still_tac.
  - apply still_upd_surf.
  - apply still_upd_surf.
  - unfold get_data_device, register_data_device. still_tac.
  - unfold set_selection, set_inner_selection, clear_inner_selection. still_tac.
  - unfold data_device_gone, unregister_data_device. still_tac.
  - unfold set_primary_selection. still_tac.
  - apply still_bind_output.
  - apply still_bind_plasma.
  - apply still_get_plasma_window.
  - unfold plasma_window_destroyed, unregister_plasma_window. still_tac.
  - unfold init_screencopy_frame. cbn [snapshot]. cbv zeta. destruct (match region with Some _ => _ | None => _ end).
    cbn [fst]. still_tac.
  - pose proof (still_screencopy fuel f d b st) as S. by rewrite H in S.
  - apply still_loop_round.
Qed.

(** A new slot is empty. *)
Lemma new_slot_inv own st : hold_inv own st ->
  hold_inv own (st <| next_addr ::= S |> <| slots ::= insert (next_addr st) slot_new |>).
Proof.
  intros [I1 I2 I3 I4 I5 I6].
  assert (N : slots st !! next_addr st = None).
  { destruct (slots st !! next_addr st) eqn:E; [|done]. specialize (I6 (next_addr st) ltac:(eauto)). lia. }
  split; cbn; [done| | |done|done|].
  - intros h. rewrite occ_insert_new by done. change (slot_refs slot_new) with (@nil nat). rewrite cnt_nil. apply I2.
  - intros h x Hx. destruct (I3 h x Hx). lia.
  - intros a. rewrite lookup_insert. case_decide; [subst; lia|]. intros Ha%I6. lia.
Qed.

Lemma next_addr_inv own st : hold_inv own st -> hold_inv own (st <| next_addr ::= S |>).
Proof.
  intros [I1 I2 I3 I4 I5 I6]. split; cbn; [done|done| |done|done|].
  - intros h x Hx. destruct (I3 h x Hx). lia.
  - intros a Ha%I6. lia.
Qed.

Lemma spawn_thread_inv own n p c m f st : hold_inv own st ->
  hold_inv own (spawn_recording_thread n p c m f st).1 /\ holds (spawn_recording_thread n p c m f st).1 = holds st.
Proof.
  intros I. unfold spawn_recording_thread. cbv zeta.
  destruct (match c with HevcVulkanLossless => _ | _ => None end); [done|].
  destruct (thread_spawn n); cbn [fst]; (split; [|done]).
  - exact (next_addr_inv own _ (next_addr_inv own st I)).
  - eapply hold_inv_fields; [|by apply still_put; split].
    exact (next_addr_inv own _ (new_slot_inv own st I)).
Qed.

Lemma prime_inv own fuel st : room 3 st -> hold_inv own st ->
  match prime_recording_first_frame fuel st with Ok st' => hold_inv own st' | Err _ => True end.
Proof.
  intros Hr I. unfold prime_recording_first_frame. cbv zeta.
  assert (T : forall s, match maybe_tap_for_recording fuel s true st with Ok st' => hold_inv own st' | Err _ => True end).
  { intros s. pose proof (tap_inv own fuel s true st Hr I) as G.
    destruct (maybe_tap_for_recording fuel s true st); [apply G|done]. }
  destruct (head (filter (fun s => committed_buffer_is_desktop_output st s = true) _)); [apply T|].
  destruct (head (filter (fun s => surface_in_focused_tree st s = true) _)); [apply T|].
  destruct (head _); [apply T|done].
Qed.

Definition holds_reply {A} (own : list nat) (r : result (State * A) stop) : Prop :=
  match r with Ok (st', _) => hold_inv own st' | Err _ => True end.

Lemma record_launch_inv own fuel p sp c sc m f st :
  room 3 st -> hold_inv own st -> holds_reply own (record_launch fuel p sp c sc m f st).
Proof.
  intros Hr I. unfold record_launch. destruct (recording st); [done|].
  destruct (spawn_thread_inv own 0 p c m f st I) as [I1 E1].
  destruct (spawn_recording_thread 0 p c m f st) as [st1 [h1|e1]]; [|done]. cbn [fst] in *.
  assert (P : forall st2 d, hold_inv own st2 -> holds st2 = holds st -> holds_reply own
    (let? st3 := prime_recording_first_frame fuel (st2 <| recording := d |>) in
     Ok (st3, RRecordStarted {| scr_path := p; scr_secondary_path := sp |}))).
  { intros st2 d J E. pose proof (prime_inv own fuel (st2 <| recording := d |>)) as G.
    assert (Hr2 : room 3 (st2 <| recording := d |>)) by (unfold room in *; cbn; by rewrite E).
    specialize (G Hr2 ltac:(eapply hold_inv_fields; [exact J|still_fields])).
    by destruct (prime_recording_first_frame fuel _). }
  destruct sc as [sc|]; [destruct sp as [sp|]|]; [|by apply P|by apply P].
  destruct (spawn_thread_inv own 1 sp sc m f st1 I1) as [I2 E2].
  destruct (spawn_recording_thread 1 sp sc m f st1) as [st2 [h2|e2]]; cbn [fst] in *.
  - apply P; [done|]. by rewrite E2.
  - cbn [holds_reply]. by_still.
Qed.

Lemma viewer_start_inv own bind port st :
  hold_inv own st -> holds_reply own (viewer_start bind port st).
Proof.
  intros I.
  assert (B : forall n b p w h st, still st (spawn_bridge n b p w h st).1).
  { intros. unfold spawn_bridge. cbv zeta. repeat case_match; cbn [fst]; still_tac. }
  unfold viewer_start. destruct (viewer st); [done|]. destruct select_viewer_codec; [|done].
  cbn [snapshot]. cbv zeta. set (st1 := st <| next_addr ::= S |>).
  assert (I1 : hold_inv own st1) by by apply next_addr_inv.
  pose proof (B (st_name st1) bind port (width (inner st)) (height (inner st)) st1) as S2.
  destruct (spawn_bridge _ _ _ _ _ st1) as [st2 [[child url]|e]]; cbn [fst] in S2;
    pose proof (hold_inv_still own _ _ S2 I1) as I2; [|done].
  destruct clone_socket; [done|]. destruct (thread_spawn 0); [done|]. cbn [holds_reply].
  pose proof (new_slot_inv own st2 I2) as I3. eapply hold_inv_fields; [exact I3|]. still_tac.
Qed.

Lemma still_take_recording st : still st (take_recording st).1.
Proof. unfold take_recording, stop_both. case_match; cbn [fst]; still_tac. Qed.

Lemma still_take_viewer fuel st : still_res id st (take_viewer fuel st).
Proof. unfold take_viewer, kill_viewer_child. repeat case_match; cbn [still_res]; try done; unfold id; still_tac. Qed.

Lemma still_inject_op op st st' d : inject_op op st = Ok (st', d) -> still st st'.
Proof.
  destruct op; cbn [inject_op]; intros H.
  - injection H as H. pose proof (still_inject_key keycode (is_pressed state) modifiers 0 0 0 st) as S. by rewrite H in S.
  - by eapply still_inject_pointer.
  - by eapply still_inject_touch.
Qed.

Lemma still_inject_batch ops n st st' k : inject_batch ops n st = Ok (st', k) -> still st st'.
Proof.
  revert n st. induction ops as [|op ops IH]; intros n st H; [by injection H as <- <-|].
  cbn [inject_batch] in H. destruct (inject_op op st) as [[st1 d]|] eqn:E; [|done].
  transitivity st1; [by eapply still_inject_op|by eapply IH].
Qed.

Lemma dispatch_holds own fuel m st st' r :
  room 3 st -> dispatch fuel m st = Ok (st', r) -> hold_inv own st -> hold_inv own st'.
Proof.
  intros Hr H I.
  assert (Qr : forall x : result (State * reply) stop, x = Ok (st', r) -> holds_reply own x -> hold_inv own st')
    by (by intros x ->).
  destruct m; cbn [dispatch] in H.
  - by injection H as <- <-.
  - by injection H as <- <-.
  - injection H as <- <-. eapply hold_inv_fields; [exact I|apply still_resize].
  - destruct (capture_window _ _ st); [|done]. by injection H as <- <-.
  - destruct (capture_desktop _ st); [|done]. by injection H as <- <-.
  - destruct (inject_op _ st) as [[st1 d]|] eqn:E; [|done]. injection H as <- <-.
    eapply hold_inv_fields; [exact I|by eapply still_inject_op].
  - destruct (inject_op _ st) as [[st1 d]|] eqn:E; [|done]. injection H as <- <-.
    eapply hold_inv_fields; [exact I|by eapply still_inject_op].
  - destruct (inject_op _ st) as [[st1 d]|] eqn:E; [|done]. injection H as <- <-.
    eapply hold_inv_fields; [exact I|by eapply still_inject_op].
  - destruct (inject_batch ops 0 st) as [[st1 d]|] eqn:E; [|done]. injection H as <- <-.
    eapply hold_inv_fields; [exact I|by eapply still_inject_batch].
  - unfold with_reply, shutdown in H. pose proof (still_take_recording st) as S1.
    pose proof (still_take_viewer fuel (take_recording st).1) as S2.
    destruct (take_viewer fuel _) as [st1|]; [|done]. injection H as <- <-. cbn [still_res] in S2. unfold id in S2.
    eapply hold_inv_fields; [exact I|]. rewrite S1, S2. still_tac.
  - unfold record_start in H. cbv zeta in H.
    destruct (match path with Some p => Ok p | None => _ end) as [p|]; [|by injection H as <- <-].
    destruct (record_checks _ _ _ _); [|by injection H as <- <-].
    eapply Qr; [exact H|]. by apply record_launch_inv.
  - unfold record_stop in H. pose proof (still_take_recording st) as S.
    destruct (take_recording st) as [st1 was]. injection H as <- <-. by eapply hold_inv_fields.
  - by injection H as <- <-.
  - eapply Qr; [exact H|]. by apply viewer_start_inv.
  - unfold with_reply in H. pose proof (still_take_viewer fuel st) as S.
    destruct (take_viewer fuel st) as [st1|]; [|done]. injection H as <- <-. by eapply hold_inv_fields.
  - by injection H as <- <-.
Qed.

Lemma still_join v st : still st (join_view v st).
Proof. unfold join_view, outer_view_join, clear_outer_wake_fd_if_mine. still_tac. Qed.

Lemma still_post_error a x st : still st (post_error a x st).
Proof. unfold post_error. still_tac. Qed.

Lemma other_holds own st st' : other_step st st' -> hold_inv own st -> hold_inv own st'.
Proof.
  destruct 1; intros I; try (by eapply dispatch_holds); try (by apply flush_inv);
    try (by apply release_inner_buffer_inv); try (by apply try_push_inv).
  - unfold attach_get_surface, outer_view_start. cbn [snd]. apply set_outer_inv.
    eapply hold_inv_fields; [exact I|apply still_join].
  - unfold attach_detach. cbn [snd]. apply set_outer_inv.
    eapply hold_inv_fields; [exact I|]. etransitivity; [apply still_join|apply still_post_error].
  - unfold attach_view_closed. cbn [snd]. eapply hold_inv_fields; [|apply still_post_error].
    apply set_outer_inv. eapply hold_inv_fields; [exact I|apply still_join].
  - eapply hold_inv_fields; [exact I|apply still_inject_key].
  - eapply hold_inv_fields; [exact I|by eapply still_inject_pointer].
  - eapply hold_inv_fields; [exact I|apply still_axis].
  - eapply hold_inv_fields; [exact I|apply still_relative].
  - eapply hold_inv_fields; [exact I|apply still_update_keymap].
  - eapply hold_inv_fields; [exact I|unfold set_outer_clipboard; still_tac].
  - eapply hold_inv_fields; [exact I|]. unfold take_pending_releases_split.
    cbn [take_pending_releases fst]. still_tac.
  - eapply hold_inv_fields; [exact I|apply still_wake].
  - by_still.
  - by_still.
Qed.

(** Pinning takes one hold per buffer. *)
Lemma pin_all_inv bs : forall own st, room (Z.of_nat (length bs)) st -> hold_inv own st ->
  hold_inv ((pin_all bs st).2 ++ own) (pin_all bs st).1.
Proof.
  induction bs as [|b bs IH]; intros own st Hr I; [done|]. cbn [pin_all].
  assert (Hr1 : room 1 st) by (unfold room in *; cbn [length] in Hr; lia).
  destruct (hold_new_inv own b st Hr1 I) as [I1 S1]. destruct (hold_new b st) as [st1 h]. cbn [fst snd] in *.
  assert (Hr2 : room (Z.of_nat (length bs)) st1) by (unfold room in *; cbn [length] in Hr; lia).
  specialize (IH (h :: own) st1 Hr2 I1). destruct (pin_all bs st1) as [st2 hs]. cbn [fst snd] in *.
  eapply hold_inv_own; [|exact IH]. intros x. rewrite !cnt_app, !cnt_cons, ?cnt_app. lia.
Qed.

Lemma cnt_perm h l k : l ≡ₚ k -> cnt h l = cnt h k.
Proof. intros P. unfold cnt. by rewrite P. Qed.

Lemma step_holds s s' : step s s' -> hold_inv s.1 s.2 -> hold_inv s'.1 s'.2.
Proof.
  destruct 1 as [| |own a st|t own own' st P|bs dma own st Hr|hs own own' st P]; cbn [fst snd]; intros I.
  - by eapply client_holds.
  - by eapply other_holds.
  - by apply slot_take_inv.
  - apply drop_task_inv. eapply hold_inv_own; [|exact I]. intros. by apply cnt_perm.
  - pose proof (pin_all_inv bs own st Hr I) as J. destruct (pin_all bs st) as [st1 hs]. cbn [fst snd] in *.
    apply try_push_inv. exact (clone_task_inv own (TaskDmabuf dma hs) st1 J).
  - apply (drop_task_inv own' (TaskDmabuf 0 hs)). eapply hold_inv_own; [|exact I]. intros. by apply cnt_perm.
Qed.

(** ** The sessions that can be reached *)

Lemma state_new_focus name w h s ev share now : focus_inv (state_new name w h s ev share now).
Proof.
  split; cbn; [done|done|done|done|]. intros l1 k sr tm kc ks l2 E. by destruct l1.
Qed.

Lemma state_new_holds name w h s ev share now : hold_inv [] (state_new name w h s ev share now).
Proof.
  split; cbn; [done|done|done|done| |].
  - intros l1 b l2 E. by destruct l1.
  - intros a [x Hx]. by rewrite lookup_empty in Hx.
Qed.

Definition reachable (st0 : State) (own : list nat) (st : State) : Prop := rtc step ([], st0) (own, st).

Lemma reachable_focus st0 own st : reachable st0 own st -> focus_inv st0 -> focus_inv st.
Proof.
  intros R I. apply (rtc_ind_r (fun s => focus_inv s.2) ([], st0)) in R; [exact R|done|].
  intros y z _ S J. by eapply step_focus.
Qed.

Lemma reachable_holds st0 own st : reachable st0 own st -> hold_inv [] st0 -> hold_inv own st.
Proof.
  intros R I. apply (rtc_ind_r (fun s => hold_inv s.1 s.2) ([], st0)) in R; [exact R|done|].
  intros y z _ S J. by eapply step_holds.
Qed.
End Run.

(** C2: In every state a session can reach, every key that was sent went to a keyboard
    that had been told it has the focus; and every live keyboard and pointer of the
    client that owns the focused window was last told to be on that window's surface.
    Operations are whole steps, in any order. *)
Theorem session_keys_focused {HO : HashOrder} {CR : CursorReader} {CE : CtlEnv}
    name w h sc ev share now own st :
  reachable (state_new name w h sc ev share now) own st ->
  keys_focused (out st) /\
  forall wid s c, focused_window st = Some wid -> windows_by_id st !! wid = Some (s, c) ->
    (forall k, k ∈ live_of (keyboards st) c st -> kbd_focus (res_id k) (out st) = Some s) /\
    (forall p, p ∈ live_of (pointers st) c st -> ptr_focus (res_id p) (out st) = Some s).
Proof.
  intros R. destruct (reachable_focus _ _ _ R (state_new_focus name w h sc ev share now)) as [_ _ Ik Ip Il].
  split; [exact Il|]. intros wid s c Hf Hw. split; intros r Hr; [by eapply Ik|by eapply Ip].
Qed.

(** C3: In every state a session can reach no buffer was released to its client while an
    encoder's task or the attached view held it; and when no task waits and nothing was
    taken out, no hold is left over. Operations are whole steps, in any order. *)
Theorem session_buffers_safe {HO : HashOrder} {CR : CursorReader} {CE : CtlEnv}
    name w h sc ev share now own st :
  reachable (state_new name w h sc ev share now) own st ->
  releases_safe (out st) /\
  (forall b, held b (out st) = Z.of_nat (hold_count b (holds st))) /\
  (own = [] -> (forall a sl, slots st !! a = Some sl -> slot_inner sl = None) ->
    holds st = ∅ /\ buffer_hold_state st = ∅).
Proof.
  intros R. pose proof (reachable_holds _ _ _ R (state_new_holds name w h sc ev share now)) as [I1 I2 I3 I4 I5 _].
  split; [exact I5|]. split; [exact I4|]. intros -> Hs.
  assert (O : forall x, occ x (slots st) = 0%nat).
  { intros x. unfold occ. apply (map_fold_weak_ind (fun n m => map_Forall (fun _ sl => slot_inner sl = None) m -> n = 0%nat));
      [done| |by intros a sl; apply Hs].
    intros a sl m n Hn IH Hm. apply map_Forall_insert in Hm as [Ha Hm]; [|done].
    rewrite IH by done. unfold slot_refs. by rewrite Ha. }
  assert (E : holds st = ∅).
  { apply map_eq. intros x. rewrite lookup_empty. destruct (holds st !! x) as [y|] eqn:Ex; [|done].
    specialize (I2 x). unfold refs_of in I2. rewrite Ex, O, cnt_nil in I2. apply I3 in Ex as [? _]. lia. }
  split; [done|]. apply map_eq. intros b. rewrite lookup_empty. specialize (I1 b).
  destruct (buffer_hold_state st !! b); [|done]. rewrite E in I1. destruct I1 as [_ I1]. by vm_compute in I1; apply Nat.lt_irrefl in I1.
Qed.

(** In every state a session can reach, an injected key is reported as delivered
    exactly when the client of the focused window has a live keyboard; then every such
    keyboard, and no other object, gets the modifiers and the key, in this order, having
    last been told that it is on the focused window's surface. *)
Theorem session_key_delivery {HO : HashOrder} {CR : CursorReader} {CE : CtlEnv}
    name w h sc ev share now own kc pr d la lo g st :
  reachable (state_new name w h sc ev share now) own st ->
  (inject_key kc pr d la lo g st).2 =
    match focused_client st with Some c => nonempty (live_of (keyboards st) c st) | None => false end /\
  forall wid s c, focused_window st = Some wid -> windows_by_id st !! wid = Some (s, c) ->
    live_of (keyboards st) c st <> [] ->
    exists sm sk tm,
      out (inject_key kc pr d la lo g st).1 = out st ++
        key_messages (live_of (keyboards st) c st) sm sk tm kc (key_state pr) d la lo g ++ [WakeCompositor] /\
      Forall (fun k => kbd_focus (res_id k) (out st) = Some s) (live_of (keyboards st) c st).
Proof.
  intros R. apply inject_key_delivers. exact (reachable_focus _ _ _ R (state_new_focus name w h sc ev share now)).
Qed.

(** ** A session that records *)

Definition no_cursor : CursorReader := fun _ _ _ => None.

Definition ok_or (st : State) (r : result State stop) : State := match r with Ok s => s | Err _ => st end.

(** One client, one window, a keyboard, and two dmabufs. *)
Definition run_ready : State :=
  get_keyboard (7%nat, 100) 0 (Res 20 4)
    (init_object 10 ((init_object 9 ((get_toplevel 0 77 5 (Res 6 3) (Res 8 3)
      (create_surface 5 demo_session)) <| bufs ::= insert 9%nat {| buf_protocol_id := 3; buf_drm_format := 0;
        buf_modifier := 0; buf_data := 100; buf_kind := Dmabuf 2 1 8 Argb8888 None |} |>))
      <| bufs ::= insert 10%nat {| buf_protocol_id := 4; buf_drm_format := 0;
        buf_modifier := 0; buf_data := 101; buf_kind := Dmabuf 2 1 8 Argb8888 None |} |>)).

Definition run_recording : State :=
  match @dispatch demo_ctl key_order 4 (Ctl.RecordStart None (Some H264Vulkan) None None None) run_ready with
  | Ok (st, _) => st
  | Err _ => run_ready
  end.

Definition commit_buffer (b : nat) (st : State) : State :=
  ok_or st (@surface_commit key_order no_cursor 4 5 0 true (surface_attach 5 (Some b) st)).

(** A key arrives, a frame is taken by the encoder, the client commits another one, and
    the encoder is done with both. *)
Definition run_key : State := (inject_key 30 true 0 0 0 0 (commit_buffer 9 run_recording)).1.
Definition run_taken : State := (slot_take 0 run_key).1.
Definition run_second : State := commit_buffer 10 run_taken.
Definition run_encoded : State := drop_task (TaskDmabuf 100 [2%nat]) run_second.
Definition run_idle : State := drop_task (TaskDmabuf 101 [3%nat]) (slot_take 0 run_encoded).1.

Lemma unregistered_none id st : keyboards st = ∅ -> pointers st = ∅ -> unregistered id st.
Proof. intros K P c r [H|H]; rewrite ?K, ?P, lookup_empty in H; by apply elem_of_nil in H. Qed.

Ltac go_client c := eapply rtc_l; [apply s_client, c; try (by apply unregistered_none)|].

#[local] Existing Instances key_order no_cursor demo_ctl.

Lemma run_key_reachable : reachable demo_session [] run_key.
Proof.
  unfold reachable, run_key.
  go_client (c_create_surface 5).
  go_client (c_get_toplevel 0 77 5 (Res 6 3) (Res 8 3)); [by vm_compute; split|].
  go_client (c_create_buffer 9 {| buf_protocol_id := 3; buf_drm_format := 0; buf_modifier := 0;
    buf_data := 100; buf_kind := Dmabuf 2 1 8 Argb8888 None |}).
  go_client (c_create_buffer 10 {| buf_protocol_id := 4; buf_drm_format := 0; buf_modifier := 0;
    buf_data := 101; buf_kind := Dmabuf 2 1 8 Argb8888 None |}).
  go_client (c_get_keyboard (7%nat, 100) 0 (Res 20 4)).
  eapply rtc_l.
  { apply s_other. apply (o_dispatch 4 (Ctl.RecordStart None (Some H264Vulkan) None None None) _ run_recording
      (RRecordStarted {| scr_path := "/home/u/.local/share/waymux/recordings/demo-1700000000.mkv";
                         scr_secondary_path := None |})); by vm_compute. }
  go_client (c_attach 5 (Some 9%nat)).
  eapply rtc_l.
  { apply s_client. apply (c_commit 4 5 0 true _ (commit_buffer 9 run_recording)); by vm_compute; try split. }
  eapply rtc_l; [apply s_other, (o_key 30 true 0 0 0 0)|]. apply rtc_refl.
Qed.

(** The encoder takes the waiting task, whose holds are [hs]. *)
Lemma take_step a t st : (slot_take a st).2 = Some t -> step ([], st) (task_holds t ++ [], (slot_take a st).1).
Proof. intros E. pose proof (s_take [] a st) as S. by rewrite E in S. Qed.

Lemma run_reachable : reachable demo_session [2%nat] run_second.
Proof.
  unfold reachable. etransitivity; [exact run_key_reachable|].
  eapply rtc_l; [apply (take_step 0 (TaskDmabuf 100 [2%nat])); by vm_compute|].
  change (task_holds (TaskDmabuf 100 [2%nat]) ++ []) with [2%nat].
  eapply rtc_l; [apply s_client, (c_attach 5 (Some 10%nat))|].
  eapply rtc_l; [|apply rtc_refl].
  apply s_client. apply (c_commit 4 5 0 true _ run_second); by vm_compute; try split.
Qed.

Lemma run_idle_reachable : reachable demo_session [] run_idle.
Proof.
  unfold reachable, run_idle, run_encoded. etransitivity; [apply run_reachable|].
  eapply rtc_l; [by apply (s_done (TaskDmabuf 100 [2%nat]) _ [])|].
  eapply rtc_l; [apply (take_step 0 (TaskDmabuf 101 [3%nat])); by vm_compute|].
  eapply rtc_l; [|apply rtc_refl]. by apply (s_done (TaskDmabuf 101 [3%nat]) _ []).
Qed.

Lemma session_keys_focused_witness :
  existsb is_key (out run_second) = true /\ keys_focused (out run_second) /\
  kbd_focus 20 (out run_second) = Some 5%nat.
Proof.
  destruct (@session_keys_focused key_order no_cursor demo_ctl "demo" 2 1 1 None false 5000000
    [2%nat] run_second run_reachable) as [K F].
  split; [vm_compute; reflexivity|]. split; [exact K|].
  refine (proj1 (F 1 5%nat 0%nat _ _) (Res 20 4) _); [vm_compute; reflexivity|vm_compute; reflexivity|].
  apply list_elem_of_In. vm_compute. left. reflexivity.
Defined.

Lemma session_buffers_safe_witness :
  BufferRelease 9 ∈ out run_idle /\ releases_safe (out run_idle) /\ holds run_idle = ∅.
Proof.
  destruct (@session_buffers_safe key_order no_cursor demo_ctl "demo" 2 1 1 None false 5000000
    [] run_idle run_idle_reachable) as (S & _ & E).
  split; [apply list_elem_of_In; vm_compute; tauto|]. split; [exact S|]. apply E; [reflexivity|].
  intros a sl Ha. assert (K : slots run_idle = {[0%nat := {| slot_inner := None; slot_produced := 2; slot_dropped := 0 |}]})
    by (vm_compute; reflexivity).
  rewrite K in Ha. apply lookup_singleton_Some in Ha as [_ <-]. reflexivity.
Defined.

Lemma session_key_delivery_witness :
  (inject_key 30 false 0 0 0 0 run_second).2 = true.
Proof.
  rewrite (proj1 (@session_key_delivery key_order no_cursor demo_ctl "demo" 2 1 1 None false 5000000
    [2%nat] 30 false 0 0 0 0 run_second run_reachable)).
  vm_compute. reflexivity.
Defined.
