(* ===== verification/Decimal.v ===== *)
(** * Decimal numbers

    [str::parse] for the unsigned integers and its inverse, the decimal printing
    the programs use ([pretty]). *)

From Stdlib Require Import ZArith Lia Ascii.
From stdpp Require Import prelude strings pretty.
From S2P Require Import Prelude Words.

Open Scope Z_scope.

Definition digit (c : ascii) : option Z :=
  let n := Z.of_nat (nat_of_ascii c) in
  if (48 <=? n) && (n <=? 57) then Some (n - 48) else None.

Arguments digit : simpl never.

Fixpoint digits (acc : Z) (s : string) : option Z :=
  match s with
  | EmptyString => Some acc
  | String c s' => match digit c with Some d => digits (acc * 10 + d) s' | None => None end
  end.

(** One sign is allowed, a number is required, and it has to fit. *)
Definition parse_unsigned (bits : Z) (s : string) : option Z :=
  let body := match s with String "+" s' => s' | _ => s end in
  match body with
  | EmptyString => None
  | _ => match digits 0 body with
         | Some n => if n <? 2 ^ bits then Some n else None
         | None => None
         end
  end.

Lemma digit_pretty (n : N) : (n < 10)%N -> digit (pretty_N_char n) = Some (Z.of_N n).
Proof.
  intros H. assert (K : (n ∈ [0; 1; 2; 3; 4; 5; 6; 7; 8; 9])%N) by (rewrite list_elem_of_In; cbn; lia).
  repeat (apply elem_of_cons in K as [->|K]; [reflexivity|]). by apply elem_of_nil in K.
Qed.

Lemma digits_pretty_go (n : N) : forall s, digits 0 (pretty_N_go n s) = digits (Z.of_N n) s.
Proof.
  induction (N.lt_wf_0 n) as [n _ IH]. intros s. destruct (decide (0 < n)%N) as [Hn|Hn].
  - rewrite pretty_N_go_step by done. rewrite IH by (apply N.div_lt; lia). cbn [digits].
    rewrite digit_pretty by (apply N.mod_lt; lia). f_equal.
    rewrite N2Z.inj_div, N2Z.inj_mod. pose proof (Z_div_mod_eq_full (Z.of_N n) 10). lia.
  - assert (n = 0%N) as -> by lia. by rewrite pretty_N_go_0.
Qed.

Lemma digits_pretty_N (n : N) : digits 0 (pretty n) = Some (Z.of_N n).
Proof.
  unfold pretty, pretty_N. destruct (decide (n = 0%N)) as [->|]; [done|].
  by rewrite digits_pretty_go.
Qed.

(** A printed number starts with a digit. *)
Lemma pretty_go_head (n : N) : forall s, (0 < n)%N ->
  exists c s', pretty_N_go n s = String c s' /\ is_Some (digit c).
Proof.
  induction (N.lt_wf_0 n) as [n _ IH]. intros s Hn. rewrite pretty_N_go_step by done.
  destruct (decide (n / 10 = 0)%N) as [Hd|Hd].
  2: { apply IH; [apply N.div_lt; lia|by apply N.neq_0_lt_0]. }
  - rewrite Hd, pretty_N_go_0.
    eexists _, _. split; [done|]. rewrite digit_pretty by (apply N.mod_lt; lia). eauto.
Qed.

Lemma pretty_head (n : N) : exists c s', pretty n = String c s' /\ is_Some (digit c).
Proof.
  unfold pretty, pretty_N. destruct (decide (n = 0%N)); [eexists _, _; split; [done|]; by eexists|].
  apply pretty_go_head. lia.
Qed.

(** What is printed parses back, when it fits. *)
Lemma parse_pretty bits n : 0 <= n < 2 ^ bits -> parse_unsigned bits (pretty n) = Some n.
Proof.
  intros H. assert (E : pretty n = pretty (Z.to_N n)) by (by destruct n; [| |lia]).
  rewrite E. unfold parse_unsigned. pose proof (digits_pretty_N (Z.to_N n)) as D.
  destruct (pretty_head (Z.to_N n)) as (c & s' & Ep & Hc). rewrite Ep in *.
  assert (B : match String c s' with String "+" x => x | _ => String c s' end = String c s').
  { by destruct c as [[] [] [] [] [] [] [] []]; try done; destruct Hc. }
  rewrite B, D, Z2N.id by lia. by rewrite (proj2 (Z.ltb_lt _ _)) by lia.
Qed.

(** The digits of a number contain no other character. *)
Lemma pretty_no_char (x : ascii) n : digit x = None -> 0 <= n ->
  forall p q, pretty n <> (p +:+ String x q)%string.
Proof.
  intros Hx Hn p q E. assert (E' : pretty n = pretty (Z.to_N n)) by (by destruct n; [| |lia]).
  pose proof (digits_pretty_N (Z.to_N n)) as D. rewrite <- E', E in D.
  clear -Hx D. revert D. generalize 0 as a. induction p as [|c p IH]; intros a D.
  - change (digits a (String x q) = Some (Z.of_N (Z.to_N n))) in D. cbn [digits] in D. by rewrite Hx in D.
  - change (digits a (String c (p +:+ String x q)) = Some (Z.of_N (Z.to_N n))) in D. cbn [digits] in D.
    destruct (digit c); [by eapply IH|done].
Qed.

(** ** Signed numbers *)

(** [str::parse] for a signed integer of [bits] bits. *)
Definition parse_signed (bits : Z) (s : string) : option Z :=
  let '(neg, body) :=
    match s with String "-" s' => (true, s') | String "+" s' => (false, s') | _ => (false, s) end in
  match body with
  | EmptyString => None
  | _ => match digits 0 body with
         | Some n =>
             let n := if neg : bool then - n else n in
             if (- 2 ^ (bits - 1) <=? n) && (n <? 2 ^ (bits - 1)) then Some n else None
         | None => None
         end
  end.
