(* ===== verification/Recorder.v ===== *)
(** * The recording threads ([crates/waymux-session/src/recording.rs])

    A thread takes tasks out of its slot, encodes them and writes a file: in the
    process with one of four Vulkan encoders and the Matroska writer, or by feeding
    raw frames to ffmpeg. A turn of its loop is what the surroundings answer in it:
    the stop flag, the clock, the slot, the fence and the mapping of a dmabuf. A
    thread runs over a list of turns; [None] says that it is still running when
    they are used up. The encoders are parameters. Holds of a task are dropped at
    the end of its turn, which is [s_take] and [s_done] of the session. *)

From Stdlib Require Import ZArith Lia Ascii.
From stdpp Require Import prelude strings gmap list pretty.
From S2P Require Import Prelude Words Decimal Io Mkv Messages Composite Pixels Session.

Open Scope Z_scope.

(** ** Surroundings *)

(** Clock readings are in nanoseconds. *)
Record Turn := {
  t_stop : bool;                  (* [stop] at the head of the loop *)
  t_head : Z;                     (* the clock there *)
  t_woken : Z;                    (* the clock after the sleep of a paced loop *)
  t_task : option RecordingTask;  (* what [take_blocking] returns *)
  t_stopped : bool;               (* [stop] after the take *)
  t_ready : bool;                 (* the fence of the task's dmabuf *)
  t_raw : option (list Z);        (* its mapped bytes *)
  t_now : Z;                      (* the clock when the frame is stamped *)
  t_writes : nat;                 (* how many writes to ffmpeg have returned meanwhile *)
}.

(** Width, height and stride of a dmabuf, by the address of its data. *)
Class Dmabufs := dma_geometry : nat -> Z * Z * Z.

Definition dma_size `{Dmabufs} (dma : nat) : Z * Z :=
  let '(w, h, _) := dma_geometry dma in (as_u 32 w, as_u 32 h).

(** ** What the threads share *)

Definition FIRST_FRAME_TIMEOUT : Z := 30000000000.
Definition MIN_DIM : Z := 32.

Definition too_small (w h : Z) : bool := (w <? MIN_DIM) || (h <? MIN_DIM).

(** [start.elapsed().as_millis() as i64] and the same in microseconds. *)
Definition elapsed_ms (start now : Z) : Z := as_s 64 (Z.max 0 (now - start) / 1000000).
Definition elapsed_us (start now : Z) : Z := as_s 64 (Z.max 0 (now - start) / 1000).

Definition us_of_ms (ms : Z) : Z := as_s 64 (ms * 1000).

(** The tick of a minimal frame rate. *)
Definition frame_interval (min_fps : option Z) : option Z :=
  match min_fps with
  | Some n => if 0 <? n then Some (1000000 / n * 1000) else None
  | None => None
  end.

Definition is_paced (interval : option Z) : bool := bool_decide (is_Some interval).

(** How a thread ends: before it has a file, or with the file as [finish] leaves it. *)
Inductive ended (W : Type) :=
| Aborted
| Finished (r : result W io_kind) (frames : Z).
Arguments Aborted {W}.
Arguments Finished {W} r frames.

Section Threads.
Context {DB : Dmabufs}.

(** [read_task]: packed pixels. *)
Definition read_task (t : Turn) (task : RecordingTask) : result (option (list Z * Z * Z)) stop :=
  match task with
  | TaskPixels pixels w h => Ok (Some (pixels, w, h))
  | TaskNal _ _ _ _ _ _ => Ok None
  | TaskDmabuf dma _ =>
      if negb (t_ready t) then Ok None
      else
        match t_raw t with
        | None => Ok None
        | Some raw =>
            let '(w, h) := dma_size dma in
            let? pixels := destride_bgra raw w h (dma_geometry dma).2 in
            Ok (Some (pixels, w, h))
        end
  end.

Inductive First :=
| FirstPixels (pixels : list Z)
| FirstDmabuf (t : Turn) (task : RecordingTask) (dma : nat)
| FirstNal (data : list Z) (pts_us : Z) (key : bool) (private : list Z).

Inductive waiting :=
| Waiting
| GaveUp
| Found (f : First) (w h : Z) (rest : list Turn).

(** The wait for a first frame of a usable size; only the H.264 thread takes one that
    is encoded already. *)
Fixpoint wait_first (nal_ok : bool) (deadline : Z) (ts : list Turn) : waiting :=
  match ts with
  | [] => Waiting
  | t :: ts' =>
      if t_stop t then GaveUp
      else if deadline <=? t_head t then GaveUp
      else
        match t_task t with
        | None => wait_first nal_ok deadline ts'
        | Some (TaskPixels pixels w h) =>
            if too_small w h then wait_first nal_ok deadline ts'
            else Found (FirstPixels pixels) w h ts'
        | Some (TaskNal data pts_us key w h private) =>
            if nal_ok then
              if too_small w h then wait_first nal_ok deadline ts'
              else Found (FirstNal data pts_us key private) w h ts'
            else GaveUp
        | Some (TaskDmabuf dma hs) =>
            let '(w, h) := dma_size dma in
            if too_small w h then wait_first nal_ok deadline ts'
            else Found (FirstDmabuf t (TaskDmabuf dma hs) dma) w h ts'
        end
  end.

(** The loop of the four in-process threads. A paced loop sleeps until its tick and
    takes what is there; the other waits for a task. The result of a step says
    whether to go on. *)
Fixpoint paced_loop {S} (interval : option Z)
    (on_task : Turn -> RecordingTask -> S -> result (S * bool) stop)
    (on_idle : Turn -> S -> result (S * bool) stop) (ts : list Turn) (s : S) :
    result (option S) stop :=
  match ts with
  | [] => Ok None
  | t :: ts' =>
      if t_stop t then Ok (Some s)
      else if t_stopped t then Ok (Some s)
      else
        let? r :=
          match t_task t with
          | Some task => on_task t task s
          | None => if is_paced interval then on_idle t s else Ok (s, true)
          end in
        if r.2 then paced_loop interval on_task on_idle ts' r.1 else Ok (Some r.1)
  end.

(** The clock answers honestly: a paced loop does not wake before its tick, and the
    clock does not run backwards. *)
Fixpoint honest_clock (interval : option Z) (tick before : Z) (ts : list Turn) : Prop :=
  match ts with
  | [] => True
  | t :: ts' =>
      before <= t_head t /\ Z.max (t_head t) tick <= t_woken t /\ t_woken t <= t_now t /\
      honest_clock interval (match interval with Some i => t_woken t + i | None => tick end) (t_now t) ts'
  end.

Context {W : Type} `{Write W, Seek W}.

(** ** H.264: one access unit per frame *)

Record Nal := { nal_data : list Z; nal_key : bool }.

(** [VkRecorder] or [VkRecorderLossless]: opened for a size, with the private data of
    the track; an encoding may fail. *)
Class NalEncoder := {
  enc_state : Type;
  enc_new : Z -> Z -> option (enc_state * list Z);
  enc_dmabuf : nat -> Z -> enc_state -> enc_state * option Nal;
  enc_bgra : list Z -> Z -> enc_state -> enc_state * option Nal;
}.

Section Nals.
Context {NE : NalEncoder}.

Record Rec := {
  rc_writer : MkvWriter W;
  rc_enc : option enc_state;
  rc_first_pts : option Z;
  rc_last : option (list Z * bool);
  rc_frames : Z;
}.

#[export] Instance eta_Rec : Eta Rec := fun r =>
  Build_Rec (rc_writer r) (rc_enc r) (rc_first_pts r) (rc_last r) (rc_frames r).

(** A frame is written, remembered when the loop is paced, and counted; [false] when
    the writer fails. *)
Definition emit_nal (keep : bool) (data : list Z) (pts_ms : Z) (key : bool) (s : Rec) : Rec * bool :=
  match write_frame data pts_ms key (rc_writer s) with
  | (m, Err _) => (s <| rc_writer := m |>, false)
  | (m, Ok _) =>
      (s <| rc_writer := m |> <| rc_last ::= (fun l => if keep then Some (data, key) else l) |>
         <| rc_frames ::= (fun n => as_u 64 (n + 1)) |>, true)
  end.

(** The first frame: what the writer says is ignored. *)
Definition emit_first (keep : bool) (data : list Z) (key : bool) (s : Rec) : Rec :=
  s <| rc_writer := (write_frame data 0 key (rc_writer s)).1 |>
    <| rc_last ::= (fun l => if keep then Some (data, key) else l) |>
    <| rc_frames ::= (fun n => as_u 64 (n + 1)) |>.

(** The encoder runs, when there is one, and its frame is written. *)
Definition encode_emit (keep : bool) (pts_ms : Z) (enc : Z -> enc_state -> enc_state * option Nal) (s : Rec) :
    Rec * bool :=
  match rc_enc s with
  | None => (s, true)
  | Some e =>
      let '(e, r) := enc (us_of_ms pts_ms) e in
      let s := s <| rc_enc := Some e |> in
      match r with
      | None => (s, true)
      | Some nal => emit_nal keep (nal_data nal) pts_ms (nal_key nal) s
      end
  end.

(** No task within the tick: the last frame again, with a new time. *)
Definition repeat_last (start : Z) (t : Turn) (s : Rec) : result (Rec * bool) stop :=
  Ok (match rc_last s with
      | Some (bytes, key) => emit_nal false bytes (elapsed_ms start (t_now t)) key s
      | None => (s, true)
      end).

(** One task of [vulkan_recording_thread]. *)
Definition vulkan_task (keep : bool) (w h start : Z) (t : Turn) (task : RecordingTask) (s : Rec) :
    result (Rec * bool) stop :=
  let pts_ms := elapsed_ms start (t_now t) in
  Ok (match task with
      | TaskNal data pts_us key _ _ _ =>
          let first_pts := default pts_us (rc_first_pts s) in
          emit_nal keep data (Z.quot (i64_sub pts_us first_pts) 1000) key
            (s <| rc_first_pts := Some first_pts |>)
      | TaskDmabuf dma _ =>
          if negb (bool_decide (dma_size dma = (w, h))) then (s, true)
          else encode_emit keep pts_ms (enc_dmabuf dma) s
      | TaskPixels pixels fw fh =>
          if negb ((fw =? w) && (fh =? h)) then (s, true)
          else encode_emit keep pts_ms (enc_bgra pixels) s
      end).

(** The first frame of [vulkan_recording_thread]. *)
Definition vulkan_first (keep : bool) (start now : Z) (f : First) (s : Rec) : Rec :=
  match f, rc_enc s with
  | FirstNal data pts_us key _, _ => emit_first keep data key (s <| rc_first_pts := Some pts_us |>)
  | FirstDmabuf _ _ dma, Some e =>
      let '(e, r) := enc_dmabuf dma (elapsed_us start now) e in
      let s := s <| rc_enc := Some e |> in
      match r with Some nal => emit_first keep (nal_data nal) (nal_key nal) s | None => s end
  | FirstPixels pixels, Some e =>
      let '(e, r) := enc_bgra pixels 0 e in
      let s := s <| rc_enc := Some e |> in
      match r with Some nal => emit_first keep (nal_data nal) (nal_key nal) s | None => s end
  | _, None => s
  end.

(** The encoder and the private data of the track. *)
Definition vulkan_open (f : First) (w h : Z) : option (option enc_state * list Z) :=
  match f with
  | FirstNal _ _ _ [] => None
  | FirstNal _ _ _ private => Some (None, private)
  | _ => match enc_new w h with Some (e, private) => Some (Some e, private) | None => None end
  end.

Definition rec_new (m : MkvWriter W) (e : option enc_state) : Rec :=
  {| rc_writer := m; rc_enc := e; rc_first_pts := None; rc_last := None; rc_frames := 0 |}.

Definition rec_finish (s : Rec) : ended W := Finished (finish (rc_writer s)) (rc_frames s).

(** [began] is the clock when the wait starts, [start] when the file is open, [now]
    when the first frame is encoded; [created] is what creating the file gives. *)
Definition vulkan_recording_thread (min_fps : option Z) (began start now : Z) (created : option W)
    (ts : list Turn) : result (option (ended W)) stop :=
  let interval := frame_interval min_fps in
  let keep := is_paced interval in
  match wait_first true (began + FIRST_FRAME_TIMEOUT) ts with
  | Waiting => Ok None
  | GaveUp => Ok (Some Aborted)
  | Found f w h ts =>
      match vulkan_open f w h, created with
      | Some (e, private), Some file =>
          match new file w h private with
          | Err _ => Ok (Some Aborted)
          | Ok m =>
              let s := vulkan_first keep start now f (rec_new m e) in
              let? r := paced_loop interval (vulkan_task keep w h start) (repeat_last start) ts s in
              Ok (rec_finish <$> r)
          end
      | _, _ => Ok (Some Aborted)
      end
  end.

(** [vulkan_lossless_recording_thread]: every frame goes through packed pixels. *)
Definition lossless_task (keep : bool) (w h start : Z) (t : Turn) (task : RecordingTask) (s : Rec) :
    result (Rec * bool) stop :=
  let? p := read_task t task in
  Ok (match p with
      | None => (s, true)
      | Some (pixels, fw, fh) =>
          if negb ((fw =? w) && (fh =? h)) then (s, true)
          else encode_emit keep (elapsed_ms start (t_now t)) (enc_bgra pixels) s
      end).

Definition lossless_first (keep : bool) (w h : Z) (f : First) (s : Rec) : result Rec stop :=
  let encode pixels :=
    match rc_enc s with
    | None => s
    | Some e =>
        let '(e, r) := enc_bgra pixels 0 e in
        let s := s <| rc_enc := Some e |> in
        match r with Some nal => emit_first keep (nal_data nal) (nal_key nal) s | None => s end
    end in
  match f with
  | FirstPixels pixels => Ok (encode pixels)
  | FirstDmabuf t task _ =>
      let? p := read_task t task in
      Ok (match p with
          | Some (pixels, fw, fh) => if (fw =? w) && (fh =? h) then encode pixels else s
          | None => s
          end)
  | FirstNal _ _ _ _ => Ok s
  end.

Definition vulkan_lossless_recording_thread (min_fps : option Z) (began start : Z) (created : option W)
    (ts : list Turn) : result (option (ended W)) stop :=
  let interval := frame_interval min_fps in
  let keep := is_paced interval in
  match wait_first false (began + FIRST_FRAME_TIMEOUT) ts with
  | Waiting => Ok None
  | GaveUp => Ok (Some Aborted)
  | Found f w h ts =>
      match enc_new w h, created with
      | Some (e, private), Some file =>
          match new file w h private with
          | Err _ => Ok (Some Aborted)
          | Ok m =>
              let? s := lossless_first keep w h f (rec_new m (Some e)) in
              let? r := paced_loop interval (lossless_task keep w h start) (repeat_last start) ts s in
              Ok (rec_finish <$> r)
          end
      | _, _ => Ok (Some Aborted)
      end
  end.
End Nals.

(** ** FFV1 and HEVC: encoders that return packets *)

Record Packet := { pk_data : list Z; pk_pts_us : Z; pk_key : bool }.

(** [Ffv1VkEncoder] or [HevcVkEncoder] with its device. [pe_input] imports a dmabuf or
    uploads pixels; [pe_encode] encodes what was put there, [None] for pixels that were
    uploaded or converted. *)
Class PacketEncoder := {
  pe_state : Type;
  pe_open : Z -> Z -> option pe_state;
  pe_track : pe_state -> Z * Z * list Z;
  pe_codec_id : string;
  pe_import : nat -> option string;
  pe_upload : list Z -> option string;
  pe_encode : (nat + list Z) -> Z -> pe_state -> pe_state * result (list Packet) string;
  pe_flush : pe_state -> pe_state * result (list Packet) string;
}.

Section Packets.
Context {PE : PacketEncoder}.

Record PRec := {
  pr_writer : MkvWriter W;
  pr_enc : pe_state;
  pr_last : option (list Z);
  pr_frames : Z;
}.

#[export] Instance eta_PRec : Eta PRec := fun r =>
  Build_PRec (pr_writer r) (pr_enc r) (pr_last r) (pr_frames r).

(** The packets in turn, up to the first that cannot be written; how many were. *)
Fixpoint write_packets (stamp : Packet -> Z) (ps : list Packet) (m : MkvWriter W) : MkvWriter W * nat :=
  match ps with
  | [] => (m, 0%nat)
  | p :: ps' =>
      match write_frame (pk_data p) (stamp p) (pk_key p) m with
      | (m, Err _) => (m, 0%nat)
      | (m, Ok _) => let '(m, n) := write_packets stamp ps' m in (m, S n)
      end
  end.

Definition count_frames (n : nat) (s : PRec) : PRec :=
  s <| pr_frames ::= (fun k => as_u 64 (k + Z.of_nat n)) |>.

(** One frame is encoded and its packets written; the result says whether all of it
    succeeded, and only then the packets are counted. *)
Definition encode_packets (src : nat + list Z) (pts_us pts_ms : Z) (s : PRec) : PRec * bool :=
  let '(e, r) := pe_encode src pts_us (pr_enc s) in
  let s := s <| pr_enc := e |> in
  match r with
  | Err _ => (s, false)
  | Ok ps =>
      let '(m, n) := write_packets (fun _ => pts_ms) ps (pr_writer s) in
      let s := s <| pr_writer := m |> in
      if (n =? length ps)%nat then (count_frames n s, true) else (s, false)
  end.

(** [FrameSource] *)
Inductive FrameSource :=
| SrcDmabuf (t : Turn) (dma : nat)
| SrcPixels (bgra : list Z).

(** [encode_source] with [encode_imported]: the size of an imported image is checked
    before it is encoded; pixels for repeating are kept only after a success. *)
Definition encode_source (cache : bool) (w h : Z) (src : FrameSource) (pts_us pts_ms : Z) (s : PRec) :
    result PRec stop :=
  match src with
  | SrcDmabuf t dma =>
      match pe_import dma with
      | Some _ => Ok s
      | None =>
          if negb (bool_decide (dma_size dma = (w, h))) then Ok s
          else
            let '(s, ok) := encode_packets (inl dma) pts_us pts_ms s in
            if ok && cache then
              let? p := read_task t (TaskDmabuf dma []) in
              Ok (match p with Some (bgra, _, _) => s <| pr_last := Some bgra |> | None => s end)
            else Ok s
      end
  | SrcPixels bgra =>
      match pe_upload bgra with
      | Some _ => Ok s
      | None =>
          let '(s, ok) := encode_packets (inr bgra) pts_us pts_ms s in
          Ok (if ok && cache then s <| pr_last := Some bgra |> else s)
      end
  end.

Definition go_on {S} (r : result S stop) : result (S * bool) stop := let? s := r in Ok (s, true).

Definition ffv1_task (keep : bool) (w h start : Z) (t : Turn) (task : RecordingTask) (s : PRec) :
    result (PRec * bool) stop :=
  let pts_ms := elapsed_ms start (t_now t) in
  go_on match task with
        | TaskDmabuf dma _ => encode_source keep w h (SrcDmabuf t dma) (us_of_ms pts_ms) pts_ms s
        | TaskPixels pixels fw fh =>
            if negb ((fw =? w) && (fh =? h)) then Ok s
            else encode_source keep w h (SrcPixels pixels) (us_of_ms pts_ms) pts_ms s
        | TaskNal _ _ _ _ _ _ => Ok s
        end.

Definition ffv1_idle (w h start : Z) (t : Turn) (s : PRec) : result (PRec * bool) stop :=
  let pts_ms := elapsed_ms start (t_now t) in
  go_on match pr_last s with
        | Some bgra => encode_source false w h (SrcPixels bgra) (us_of_ms pts_ms) pts_ms s
        | None => Ok s
        end.

(** What the encoder still holds is written with its own times. *)
Definition flush_tail (start now : Z) (s : PRec) : PRec :=
  let '(e, r) := pe_flush (pr_enc s) in
  let s := s <| pr_enc := e |> in
  match r with
  | Err _ => s
  | Ok ps =>
      let stamp p := if 0 <=? pk_pts_us p then pk_pts_us p / 1000 else elapsed_ms start now in
      let '(m, n) := write_packets stamp ps (pr_writer s) in
      count_frames n (s <| pr_writer := m |>)
  end.

Definition prec_finish (start now : Z) (s : PRec) : ended W :=
  let s := flush_tail start now s in Finished (finish (pr_writer s)) (pr_frames s).

(** Encoder, file and track header. *)
Definition prec_open (w h : Z) (created : option W) : option PRec :=
  match pe_open w h, created with
  | Some e, Some file =>
      let '(tw, th, private) := pe_track e in
      match new_for_codec file tw th private pe_codec_id with
      | Ok m => Some {| pr_writer := m; pr_enc := e; pr_last := None; pr_frames := 0 |}
      | Err _ => None
      end
  | _, _ => None
  end.

(** [closing] is the clock when the encoder is flushed. *)
Definition ffv1_vulkan_recording_thread (min_fps : option Z) (began start closing : Z) (created : option W)
    (ts : list Turn) : result (option (ended W)) stop :=
  let interval := frame_interval min_fps in
  let keep := is_paced interval in
  match wait_first false (began + FIRST_FRAME_TIMEOUT) ts with
  | Waiting => Ok None
  | GaveUp => Ok (Some Aborted)
  | Found f w h ts =>
      match prec_open w h created with
      | None => Ok (Some Aborted)
      | Some s =>
          let? s :=
            match f with
            | FirstDmabuf t _ dma => encode_source keep w h (SrcDmabuf t dma) 0 0 s
            | FirstPixels pixels => encode_source keep w h (SrcPixels pixels) 0 0 s
            | FirstNal _ _ _ _ => Ok s
            end in
          let? r := paced_loop interval (ffv1_task keep w h start) (ffv1_idle w h start) ts s in
          Ok (prec_finish start closing <$> r)
      end
  end.

(** [encode_one_bgra] of the HEVC thread: the shader, then the encoder. *)
Definition hevc_encode (bgra : list Z) (pts_us pts_ms : Z) (s : PRec) : PRec :=
  match pe_upload bgra with
  | Some _ => s
  | None => (encode_packets (inr bgra) pts_us pts_ms s).1
  end.

Definition keep_pixels (keep : bool) (pixels : list Z) (s : PRec) : PRec :=
  if keep then s <| pr_last := Some pixels |> else s.

Definition hevc_task (keep : bool) (w h start : Z) (t : Turn) (task : RecordingTask) (s : PRec) :
    result (PRec * bool) stop :=
  let? p := read_task t task in
  Ok (match p with
      | None => s
      | Some (pixels, fw, fh) =>
          if negb ((fw =? w) && (fh =? h)) then s
          else
            let pts_ms := elapsed_ms start (t_now t) in
            keep_pixels keep pixels (hevc_encode pixels (us_of_ms pts_ms) pts_ms s)
      end, true).

Definition hevc_idle (start : Z) (t : Turn) (s : PRec) : result (PRec * bool) stop :=
  Ok (match pr_last s with
      | Some pixels =>
          let pts_ms := elapsed_ms start (t_now t) in hevc_encode pixels (us_of_ms pts_ms) pts_ms s
      | None => s
      end, true).

Definition hevc_first (keep : bool) (w h : Z) (f : First) (s : PRec) : result PRec stop :=
  match f with
  | FirstPixels pixels => Ok (keep_pixels keep pixels (hevc_encode pixels 0 0 s))
  | FirstDmabuf t task _ =>
      let? p := read_task t task in
      Ok (match p with
          | Some (pixels, fw, fh) =>
              if (fw =? w) && (fh =? h) then keep_pixels keep pixels (hevc_encode pixels 0 0 s) else s
          | None => s
          end)
  | FirstNal _ _ _ _ => Ok s
  end.

Definition hevc_vulkan_recording_thread (min_fps : option Z) (began start closing : Z) (created : option W)
    (ts : list Turn) : result (option (ended W)) stop :=
  let interval := frame_interval min_fps in
  let keep := is_paced interval in
  match wait_first false (began + FIRST_FRAME_TIMEOUT) ts with
  | Waiting => Ok None
  | GaveUp => Ok (Some Aborted)
  | Found f w h ts =>
      match prec_open w h created with
      | None => Ok (Some Aborted)
      | Some s =>
          let? s := hevc_first keep w h f s in
          let? r := paced_loop interval (hevc_task keep w h start) (hevc_idle start) ts s in
          Ok (prec_finish start closing <$> r)
      end
  end.
End Packets.
End Threads.
