(* ===== verification/Ffmpeg.v ===== *)
(** * Recording through ffmpeg ([crates/waymux-session/src/recording.rs])

    [recording_thread] waits for a first frame, starts ffmpeg for its size and sends
    raw frames down a channel of two places to a thread that writes them to ffmpeg's
    input; at the end it closes the channel, waits for that thread and for ffmpeg. The
    turns are those of [Recorder]; [t_writes] says how many writes have returned before
    the turn's frame is sent. A send to a full channel blocks until a write returns. *)

From Stdlib Require Import ZArith Lia Ascii.
From stdpp Require Import prelude strings gmap list pretty.
From S2P Require Import Prelude Words Decimal Io Mkv Messages Composite Pixels Session Recorder.

Open Scope Z_scope.

(** [str::split_once] with a character. *)
Fixpoint split_once (x : ascii) (s : string) : option (string * string) :=
  match s with
  | EmptyString => None
  | String c s' =>
      if bool_decide (c = x) then Some ("", s')
      else match split_once x s' with Some (a, b) => Some (String c a, b) | None => None end
  end.

(** [bitrate_for_size]; [kbps] is the variable WAYMUX_NVENC_BITRATE_KBPS. *)
Definition bitrate_for_size (kbps : option string) (size_str : string) : Z :=
  match kbps ≫= parse_unsigned 32 with
  | Some n => n
  | None =>
      match split_once "x" size_str with
      | None => 5000
      | Some (w, h) =>
          match parse_unsigned 32 w, parse_unsigned 32 h with
          | Some w, Some h =>
              let pixels := as_u 64 (w * h) in
              let scaled := as_u 64 (5000 * pixels) / Z.max (1920 * 1080) 1 in
              as_u 32 (Z.min (Z.max scaled 2000) 50000)
          | _, _ => 5000
          end
      end
  end.

(** Codecs that ffmpeg is given as NV12: [push_nv12] and [needs_nv12]. *)
Definition needs_nv12 (codec : RecordingCodec) : bool :=
  match codec with H264Nvenc | H264Vaapi => true | _ => false end.

Definition input_pix_fmt (codec : RecordingCodec) : string :=
  if needs_nv12 codec then "nv12"
  else match codec with X264Lossless => "bgr0" | _ => "bgra" end.

(** The arguments of one codec; [unreachable!] for those with a thread of their own. *)
Definition codec_args (kbps : option string) (codec : RecordingCodec) (size_str : string) :
    result (list string) stop :=
  match codec with
  | Ffv1 => Ok ["-vcodec"; "ffv1"; "-level"; "3"; "-slices"; "4"; "-threads"; "0"]
  | X264Lossless => Ok ["-vcodec"; "libx264rgb"; "-qp"; "0"; "-preset"; "ultrafast"; "-threads"; "0"]
  | H264Nvenc =>
      Ok ["-c:v"; "h264_nvenc"; "-preset"; "p4"; "-tune"; "ll"; "-rc"; "vbr"; "-b:v";
          pretty (bitrate_for_size kbps size_str) +:+ "k"; "-level"; "6.2"]
  | H264Vaapi => Ok ["-vf"; "hwupload"; "-c:v"; "h264_vaapi"; "-qp"; "22"]
  | H264Vulkan | Ffv1Vulkan | H264VulkanLossless | HevcVulkanLossless | CudaNvenc => Err Panics
  end.

Definition build_ffmpeg_argv (kbps : option string) (codec : RecordingCodec) (size_str path : string) :
    result (list string) stop :=
  let device := match codec with H264Vaapi => ["-vaapi_device"; "/dev/dri/renderD128"] | _ => [] end in
  let? args := codec_args kbps codec size_str in
  Ok (["-y"; "-hide_banner"] ++ device ++
      ["-f"; "rawvideo"; "-pixel_format"; input_pix_fmt codec; "-video_size"; size_str;
       "-framerate"; "240"; "-use_wallclock_as_timestamps"; "1"; "-i"; "pipe:0"] ++
      args ++ ["-vsync"; "vfr"; "-an"; path]).

(** [to_wire] *)
Definition to_wire (codec : RecordingCodec) (buf : list Z) (w h : Z) : result (list Z) stop :=
  if negb (needs_nv12 codec) then Ok buf
  else if len buf =? usize (usize (w * h) * 3) / 2 then Ok buf
  else if len buf =? usize (usize (w * h) * 4) then bgra_to_nv12 buf w h
  else Ok buf.

Definition size_string (w h : Z) : string := pretty w +:+ "x" +:+ pretty h.

(** ** The writer's thread *)

(** The frames in the channel, the one that is being written, those that were, whether the
    thread has left its loop, and how many writes have returned. *)
Record Writer := {
  wr_queue : list (list Z);
  wr_hand : option (list Z);
  wr_written : list (list Z);
  wr_gone : bool;
  wr_count : nat;
}.

#[export] Instance eta_Writer : Eta Writer := fun w =>
  Build_Writer (wr_queue w) (wr_hand w) (wr_written w) (wr_gone w) (wr_count w).

Definition writer_new : Writer :=
  {| wr_queue := []; wr_hand := None; wr_written := []; wr_gone := false; wr_count := 0 |}.

(** [sync_channel(2)] *)
Definition CHANNEL : nat := 2.

(** [rx.recv()], as soon as there is a frame and nothing else to do. *)
Definition recv (w : Writer) : Writer :=
  match wr_hand w, wr_queue w with
  | None, f :: q => w <| wr_hand := Some f |> <| wr_queue := q |>
  | _, _ => w
  end.

Section Writing.
(** The outcome of each [write_all]; [None] for one that never returns. *)
Variable writes : nat -> option bool.

(** A write returns: with success the next frame is received, with an error the thread
    leaves its loop and what is in the channel is lost. *)
Definition write_returns (w : Writer) : Writer :=
  match wr_hand w with
  | None => w
  | Some f =>
      match writes (wr_count w) with
      | None => w
      | Some true =>
          recv (w <| wr_hand := None |> <| wr_written ::= (fun l => l ++ [f]) |> <| wr_count ::= S |>)
      | Some false => w <| wr_hand := None |> <| wr_queue := [] |> <| wr_gone := true |> <| wr_count ::= S |>
      end
  end.

(** [tx.send]: whether the frame was accepted; [None] when it blocks for ever. *)
Definition channel_send (wire : list Z) (w : Writer) : Writer * option bool :=
  let push w := recv (w <| wr_queue ::= (fun q => q ++ [wire]) |>) in
  if wr_gone w then (w, Some false)
  else if (length (wr_queue w) <? CHANNEL)%nat then (push w, Some true)
  else
    let w := write_returns w in
    if wr_gone w then (w, Some false)
    else if (length (wr_queue w) <? CHANNEL)%nat then (push w, Some true)
    else (w, None).

(** [drop(tx); writer.join()]: the thread writes what is left; whether it ends. *)
Fixpoint write_rest (fuel : nat) (w : Writer) : Writer * bool :=
  match wr_hand w, fuel with
  | None, _ => (w, true)
  | Some _, O => (w, false)
  | Some _, S fuel => write_rest fuel (write_returns w)
  end.

Definition join_writer (w : Writer) : Writer * bool := write_rest (S (length (wr_queue w))) w.
End Writing.

(** ** The thread *)

(** Ffmpeg's arguments, the frames it was sent, and the writer's end. *)
Record Feed := {
  fd_argv : list string;
  fd_sent : list (list Z);
  fd_last : list Z;
  fd_frames : Z;
  fd_writer : Writer;
}.

#[export] Instance eta_Feed : Eta Feed := fun f =>
  Build_Feed (fd_argv f) (fd_sent f) (fd_last f) (fd_frames f) (fd_writer f).

(** Where the thread can be stuck. *)
Inductive stuck := InSend | InJoin | InWait.

(** What became of ffmpeg: it was never started, it has been fed and has ended, or the thread
    waits for ever. *)
Inductive feeding :=
| FeedAborted
| Fed (f : Feed)
| Hung (f : Feed) (at_ : stuck).

Section Thread.
Context {DB : Dmabufs}.

Inductive first_pixels :=
| StillWaiting
| NoPixels
| FirstFrame (pixels : list Z) (w h : Z) (rest : list Turn).

(** The wait for a first frame that can be read. *)
Fixpoint wait_pixels (deadline : Z) (ts : list Turn) : result first_pixels stop :=
  match ts with
  | [] => Ok StillWaiting
  | t :: ts' =>
      if t_stop t then Ok NoPixels
      else if deadline <=? t_head t then Ok NoPixels
      else
        match t_task t with
        | None => wait_pixels deadline ts'
        | Some task =>
            let? p := read_task t task in
            match p with
            | Some (pixels, w, h) => Ok (FirstFrame pixels w h ts')
            | None => wait_pixels deadline ts'
            end
        end
  end.

(** What a turn wants to send: nothing, or a frame with its size. *)
Definition turn_frame (codec : RecordingCodec) (paced : bool) (first_w first_h : Z) (t : Turn) (f : Feed) :
    result (option (list Z * Z * Z)) stop :=
  match t_task t with
  | Some task =>
      let? p := read_task t task in
      match p with
      | None => Ok None
      | Some (pixels, w, h) => let? wire := to_wire codec pixels w h in Ok (Some (wire, w, h))
      end
  | None => if paced then Ok (Some (fd_last f, first_w, first_h)) else Ok None
  end.

(** How the frame loop ends. *)
Inductive loop_end := LoopEnds (f : Feed) | LoopBlocked (f : Feed).

Section Feeding.
(** Whether each write to ffmpeg returns and how, and whether ffmpeg exits once its input is
    closed. *)
Variables (writes : nat -> option bool) (exits : bool).

(** [tx.send]; the frame is remembered before it is known to be accepted. *)
Definition send_frame (keep : bool) (wire : list Z) (t : Turn) (f : Feed) : Feed * option bool :=
  let f := if keep then f <| fd_last := wire |> else f in
  let '(w, r) := channel_send writes wire (Nat.iter (t_writes t) (write_returns writes) (fd_writer f)) in
  let f := f <| fd_writer := w |> in
  match r with
  | Some true => (f <| fd_sent ::= (fun l => l ++ [wire]) |> <| fd_frames ::= (fun n => as_u 64 (n + 1)) |>, r)
  | _ => (f, r)
  end.

Fixpoint feed_loop (codec : RecordingCodec) (paced : bool) (w h : Z) (ts : list Turn) (f : Feed) :
    result (option loop_end) stop :=
  match ts with
  | [] => Ok None
  | t :: ts' =>
      if t_stop t then Ok (Some (LoopEnds f))
      else if t_stopped t then Ok (Some (LoopEnds f))
      else
        let? r := turn_frame codec paced w h t f in
        match r with
        | None => feed_loop codec paced w h ts' f
        | Some (wire, fw, fh) =>
            if negb ((fw =? w) && (fh =? h)) then Ok (Some (LoopEnds f))
            else
              match send_frame paced wire t f with
              | (f, Some true) => feed_loop codec paced w h ts' f
              | (f, Some false) => Ok (Some (LoopEnds f))
              | (f, None) => Ok (Some (LoopBlocked f))
              end
        end
  end.

(** [drop(tx)], [writer.join()] and [child.wait()]. *)
Definition shutdown_feed (f : Feed) : feeding :=
  let '(w, ended) := join_writer writes (fd_writer f) in
  let f := f <| fd_writer := w |> in
  if negb ended then Hung f InJoin
  else if exits then Fed f else Hung f InWait.

(** [spawned] says whether ffmpeg can be started. *)
Definition recording_thread (kbps : option string) (codec : RecordingCodec) (path : string)
    (min_fps : option Z) (began : Z) (spawned : bool) (ts : list Turn) :
    result (option feeding) stop :=
  let? first := wait_pixels (began + FIRST_FRAME_TIMEOUT) ts in
  match first with
  | StillWaiting => Ok None
  | NoPixels => Ok (Some FeedAborted)
  | FirstFrame pixels w h ts =>
      let? argv := build_ffmpeg_argv kbps codec (size_string w h) path in
      if negb spawned then Ok (Some FeedAborted)
      else
        let? wire := to_wire codec pixels w h in
        let paced := is_paced (frame_interval min_fps) in
        let f := {| fd_argv := argv; fd_sent := []; fd_last := if paced then wire else []; fd_frames := 0;
                    fd_writer := writer_new |} in
        match channel_send writes wire (fd_writer f) with
        | (wr, Some true) =>
            let f := f <| fd_writer := wr |> <| fd_sent := [wire] |> <| fd_frames := 1 |> in
            let? r := feed_loop codec paced w h ts f in
            Ok ((fun e => match e with
                          | LoopEnds f => shutdown_feed f
                          | LoopBlocked f => Hung f InSend
                          end) <$> r)
        | (wr, Some false) => Ok (Some (shutdown_feed (f <| fd_writer := wr |>)))
        | (wr, None) => Ok (Some (Hung (f <| fd_writer := wr |>) InSend))
        end
  end.
End Feeding.

(** ** Which thread a recording gets: the end of [spawn_recording_thread] *)

Inductive thread := VulkanThread | Ffv1VulkanThread | VulkanLosslessThread | HevcVulkanThread | FfmpegThread.

Definition thread_of (codec : RecordingCodec) : thread :=
  match codec with
  | H264Vulkan => VulkanThread
  | Ffv1Vulkan => Ffv1VulkanThread
  | H264VulkanLossless => VulkanLosslessThread
  | HevcVulkanLossless => HevcVulkanThread
  | _ => FfmpegThread
  end.
End Thread.
