(* ===== verification/RecorderProps.v ===== *)
(** * What a recording thread writes

    A reference for the H.264 threads: the calls of the encoder that a run of turns
    asks for, and the frames the encoder answers with. The threads refine it: when a
    thread ends its file demuxes to those frames and no others. The clock makes the
    timestamps ascend, which is what the Matroska writer needs. *)

From Stdlib Require Import ZArith Lia.
From stdpp Require Import prelude strings gmap list sorting.
From S2P Require Import Prelude Words Io Ebml Mkv Messages Composite Pixels Session Recorder.

Open Scope Z_scope.

Section Reference.
Context {DB : Dmabufs} {NE : NalEncoder}.

(** What a turn asks of the encoder: a dmabuf, pixels, or ([None]) the last frame
    again; the time it is told and the time of the block. *)
Record Call := { c_src : option (nat + list Z); c_us : Z; c_ms : Z }.

Definition encode (src : nat + list Z) : Z -> enc_state -> enc_state * option Nal :=
  match src with inl dma => enc_dmabuf dma | inr pixels => enc_bgra pixels end.

(** The frames of a sequence of calls. *)
Fixpoint run_calls (keep : bool) (cs : list Call) (e : enc_state) (last : option (list Z * bool)) :
    list frame :=
  match cs with
  | [] => []
  | c :: cs =>
      match c_src c with
      | None =>
          match last with
          | Some (data, key) => Frame data (c_ms c) key :: run_calls keep cs e last
          | None => run_calls keep cs e last
          end
      | Some src =>
          let '(e, r) := encode src (c_us c) e in
          match r with
          | Some nal =>
              Frame (nal_data nal) (c_ms c) (nal_key nal)
                :: run_calls keep cs e (if keep then Some (nal_data nal, nal_key nal) else last)
          | None => run_calls keep cs e last
          end
      end
  end.

(** The calls of the turns before the thread is told to stop; [None] when it never is. *)
Fixpoint calls (call_of : Turn -> option Call) (ts : list Turn) : option (list Call) :=
  match ts with
  | [] => None
  | t :: ts =>
      if t_stop t || t_stopped t then Some []
      else match call_of t with Some c => cons c <$> calls call_of ts | None => calls call_of ts end
  end.

Definition call_at (start : Z) (t : Turn) (src : option (nat + list Z)) : Call :=
  let ms := elapsed_ms start (t_now t) in {| c_src := src; c_us := us_of_ms ms; c_ms := ms |}.

(** A turn of the H.264 thread: frames of another size are skipped. *)
Definition vulkan_call (paced : bool) (w h start : Z) (t : Turn) : option Call :=
  match t_task t with
  | Some (TaskDmabuf dma _) =>
      if bool_decide (dma_size dma = (w, h)) then Some (call_at start t (Some (inl dma))) else None
  | Some (TaskPixels pixels fw fh) =>
      if (fw =? w) && (fh =? h) then Some (call_at start t (Some (inr pixels))) else None
  | Some (TaskNal _ _ _ _ _ _) => None
  | None => if paced then Some (call_at start t None) else None
  end.

(** A turn of the lossless thread, which reads every task into memory. *)
Definition lossless_call (paced : bool) (w h start : Z) (t : Turn) : option Call :=
  match t_task t with
  | Some task =>
      match read_task t task with
      | Ok (Some (pixels, fw, fh)) =>
          if (fw =? w) && (fh =? h) then Some (call_at start t (Some (inr pixels))) else None
      | _ => None
      end
  | None => if paced then Some (call_at start t None) else None
  end.

(** The first frame, stamped zero. *)
Definition vulkan_first_call (start now : Z) (f : First) : option Call :=
  match f with
  | FirstPixels pixels => Some {| c_src := Some (inr pixels); c_us := 0; c_ms := 0 |}
  | FirstDmabuf _ _ dma => Some {| c_src := Some (inl dma); c_us := elapsed_us start now; c_ms := 0 |}
  | FirstNal _ _ _ _ => None
  end.

Definition not_encoded (t : Turn) : Prop :=
  match t_task t with Some (TaskNal _ _ _ _ _ _) => False | _ => True end.

Definition readable (t : Turn) : Prop :=
  match t_task t with Some task => exists p, read_task t task = Ok p | None => True end.

(** What the format can hold of the encoder's output. *)
Class SmallNals := small_nals src us e e' nal :
  encode src us e = (e', Some nal) -> Z.of_nat (length (nal_data nal)) < 2 ^ 56 - 16.

(** ** A thread makes the calls *)

Section Writer.
Context {W : Type} `{Write W, Seek W}.

Definition do_call (keep : bool) (c : Call) (s : Rec (W:=W)) : Rec * bool :=
  match c_src c with
  | None =>
      match rc_last s with
      | Some (data, key) => emit_nal false data (c_ms c) key s
      | None => (s, true)
      end
  | Some src =>
      match rc_enc s with
      | None => (s, true)
      | Some e =>
          let '(e, r) := encode src (c_us c) e in
          let s := s <| rc_enc := Some e |> in
          match r with
          | None => (s, true)
          | Some nal => emit_nal keep (nal_data nal) (c_ms c) (nal_key nal) s
          end
      end
  end.

Fixpoint do_calls (keep : bool) (cs : list Call) (s : Rec (W:=W)) : Rec :=
  match cs with
  | [] => s
  | c :: cs => let '(s, ok) := do_call keep c s in if ok then do_calls keep cs s else s
  end.

Lemma emit_nal_enc keep data ms key s : rc_enc (emit_nal keep data ms key s).1 = rc_enc s.
Proof. unfold emit_nal. by destruct write_frame as [m []]. Qed.

Lemma do_call_enc keep c s : is_Some (rc_enc s) -> is_Some (rc_enc (do_call keep c s).1).
Proof.
  intros H1. unfold do_call. destruct (c_src c) as [src|].
  - destruct H1 as [e He]. rewrite He. destruct encode as [e' [nal|]]; [|by eexists].
    rewrite emit_nal_enc. by eexists.
  - destruct (rc_last s) as [[]|]; [by rewrite emit_nal_enc|done].
Qed.

Definition turn_call (keep : bool) (c : option Call) (s : Rec (W:=W)) : Rec * bool :=
  match c with Some c => do_call keep c s | None => (s, true) end.

(** The loop of a thread whose turns are calls makes them. *)
Lemma paced_loop_calls interval keep call_of on_task on_idle ts cs : forall s,
  is_Some (rc_enc s) ->
  Forall (fun t => forall s : Rec (W:=W), is_Some (rc_enc s) ->
    match t_task t with
    | Some task => on_task t task s = Ok (turn_call keep (call_of t) s)
    | None => (if is_paced interval then on_idle t s else Ok (s, true)) = Ok (turn_call keep (call_of t) s)
    end) ts ->
  calls call_of ts = Some cs ->
  paced_loop interval on_task on_idle ts s = Ok (Some (do_calls keep cs s)).
Proof.
  revert cs. induction ts as [|t ts IH]; intros cs s He Ht Hc; [done|].
  inversion Ht as [|? ? Ht0 Ht']; subst. specialize (Ht0 s He). cbn [paced_loop calls] in *.
  destruct (t_stop t); [cbn in Hc; by simplify_eq|]. destruct (t_stopped t); [cbn in Hc; by simplify_eq|].
  cbn [orb] in Hc.
  assert (E : match t_task t with
              | Some task => on_task t task s
              | None => if is_paced interval then on_idle t s else Ok (s, true)
              end = Ok (turn_call keep (call_of t) s)) by (by destruct (t_task t)).
  rewrite E. cbn [turn_call]. destruct (call_of t) as [c|]; cbn [turn_call].
  - destruct (calls call_of ts) as [cs'|] eqn:Ec; [|done]. cbn in Hc. simplify_eq.
    cbn [do_calls]. pose proof (do_call_enc keep c s He) as He'.
    destruct (do_call keep c s) as [s' ok]. cbn [fst snd] in *. destruct ok; [|done].
    by apply IH.
  - by apply IH.
Qed.

Lemma vulkan_turns interval w h start ts :
  Forall not_encoded ts ->
  Forall (fun t => forall s : Rec (W:=W), is_Some (rc_enc s) ->
    match t_task t with
    | Some task => vulkan_task (is_paced interval) w h start t task s =
                   Ok (turn_call (is_paced interval) (vulkan_call (is_paced interval) w h start t) s)
    | None => (if is_paced interval then repeat_last start t s else Ok (s, true)) =
              Ok (turn_call (is_paced interval) (vulkan_call (is_paced interval) w h start t) s)
    end) ts.
Proof.
  intros Hn. eapply Forall_impl; [exact Hn|]. intros t Ht s [e He]. unfold not_encoded in Ht.
  unfold vulkan_call. destruct (t_task t) as [[pixels fw fh|dma hs|]|]; [| |done|].
  - unfold vulkan_task. destruct ((fw =? w) && (fh =? h)); [|done]. cbn [negb turn_call].
    unfold encode_emit, do_call, call_at. cbn [c_src c_us c_ms encode]. by rewrite He.
  - unfold vulkan_task. case_bool_decide; [|done]. cbn [negb turn_call].
    unfold encode_emit, do_call, call_at. cbn [c_src c_us c_ms encode]. by rewrite He.
  - by destruct (is_paced interval).
Qed.

Lemma lossless_turns interval w h start ts :
  Forall readable ts ->
  Forall (fun t => forall s : Rec (W:=W), is_Some (rc_enc s) ->
    match t_task t with
    | Some task => lossless_task (is_paced interval) w h start t task s =
                   Ok (turn_call (is_paced interval) (lossless_call (is_paced interval) w h start t) s)
    | None => (if is_paced interval then repeat_last start t s else Ok (s, true)) =
              Ok (turn_call (is_paced interval) (lossless_call (is_paced interval) w h start t) s)
    end) ts.
Proof.
  intros Hn. eapply Forall_impl; [exact Hn|]. intros t Ht s [e He]. unfold readable in Ht.
  unfold lossless_call. destruct (t_task t) as [task|].
  - destruct Ht as [p Hp]. unfold lossless_task. rewrite Hp. destruct p as [[[pixels fw] fh]|]; [|done].
    destruct ((fw =? w) && (fh =? h)); [|done]. cbn [negb turn_call].
    unfold encode_emit, do_call, call_at. cbn [c_src c_us c_ms encode]. by rewrite He.
  - by destruct (is_paced interval).
Qed.
End Writer.

(** ** The calls leave their frames in the file *)

Lemma sound_prefix fs gs : sound_frames (fs ++ gs) -> sound_frames fs.
Proof.
  intros (H1 & H2 & H3 & H4). apply Forall_app in H1 as [H1 _]. apply Forall_app in H2 as [H2 _].
  apply StronglySorted_app_1_l in H3. rewrite length_app in H4. repeat split; try done. lia.
Qed.

Lemma write_frames_app {W} `{Write W, Seek W} fs gs (m m' : MkvWriter W) :
  write_frames fs m = (m', Ok ()) -> write_frames (fs ++ gs) m = write_frames gs m'.
Proof.
  revert m. induction fs as [|[d p k] fs IH]; intros m E; [by injection E as ->|].
  cbn [write_frames app] in *. unfold mbind, eff_mbind in *.
  destruct (write_frame d p k m) as [m1 [[]|]]; [by apply IH|done].
Qed.

Lemma write_sound w h priv cid fs :
  sound_frames fs -> exists m, write_frames fs (opened_at w h priv cid) = (m, Ok ()).
Proof.
  intros (H1 & H2 & H3 & H4).
  destruct (write_frames_img fs (preamble 0 w h priv cid) false 0 0 0) as (o & b & E);
    [lia..|done|done|done|]. by eexists.
Qed.

(** The frame after those that are in the file. *)
Lemma write_next w h priv cid fs d p k m :
  sound_frames (fs ++ [Frame d p k]) -> write_frames fs (opened_at w h priv cid) = (m, Ok ()) ->
  exists m', write_frame d p k m = (m', Ok ()) /\
    write_frames (fs ++ [Frame d p k]) (opened_at w h priv cid) = (m', Ok ()).
Proof.
  intros Hs Hm. destruct (write_sound w h priv cid _ Hs) as [m' E].
  pose proof E as E'. rewrite (write_frames_app fs _ _ m) in E' by done.
  cbn [write_frames] in E'. unfold mbind, eff_mbind in E'.
  destruct (write_frame d p k m) as [m1 [[]|]]; [|done].
  exists m'. split; [|done]. by injection E' as ->.
Qed.

Lemma do_calls_file w h priv cid keep cs : forall fs e s,
  rc_enc s = Some e -> write_frames fs (opened_at w h priv cid) = (rc_writer s, Ok ()) ->
  rc_frames s = Z.of_nat (length fs) ->
  sound_frames (fs ++ run_calls keep cs e (rc_last s)) ->
  let all := fs ++ run_calls keep cs e (rc_last s) in
  write_frames all (opened_at w h priv cid) = (rc_writer (do_calls keep cs s), Ok ()) /\
  rc_frames (do_calls keep cs s) = Z.of_nat (length all).
Proof.
  induction cs as [|c cs IH]; intros fs e s He Hw Hn Hs; cbn [run_calls do_calls] in *.
  { by rewrite app_nil_r. }
  assert (step : forall d key keep' s0 last, rc_writer s0 = rc_writer s -> rc_frames s0 = rc_frames s ->
    is_Some (rc_enc s0) ->
    sound_frames (fs ++ [Frame d (c_ms c) key] ++ last) ->
    let r := emit_nal keep' d (c_ms c) key s0 in
    r.2 = true /\ rc_enc r.1 = rc_enc s0 /\ rc_last r.1 = (if keep' then Some (d, key) else rc_last s0) /\
    write_frames (fs ++ [Frame d (c_ms c) key]) (opened_at w h priv cid) = (rc_writer r.1, Ok ()) /\
    rc_frames r.1 = Z.of_nat (length (fs ++ [Frame d (c_ms c) key]))).
  { intros d key keep' s0 last E1 E2 _ Hs0. rewrite app_assoc in Hs0. apply sound_prefix in Hs0.
    destruct (write_next _ _ _ _ _ _ _ _ _ Hs0 Hw) as (m' & E & Ef). unfold emit_nal. rewrite E1, E.
    cbn. repeat split; try done. rewrite E2, Hn. rewrite as_u_id; [rewrite length_app; cbn; lia|].
    destruct Hs0 as (_ & _ & _ & Hl). rewrite length_app in Hl. cbn in Hl. unfold in_u. lia. }
  unfold do_call. destruct (c_src c) as [src|].
  - rewrite He. destruct (encode src (c_us c) e) as [e' [nal|]].
    + set (s0 := s <| rc_enc := Some e' |>).
      destruct (step (nal_data nal) (nal_key nal) keep s0 _ eq_refl eq_refl ltac:(by eexists) Hs) as (R1 & R2 & R3 & R4 & R5).
      destruct (emit_nal keep _ _ _ _) as [s1 ok]. cbn [fst snd] in *. subst ok.
      rewrite cons_middle, app_assoc in Hs |- *.
      change (rc_last s0) with (rc_last s) in R3. rewrite <- R3 in Hs |- *.
      by apply IH.
    + set (s0 := s <| rc_enc := Some e' |>). by apply (IH fs e' s0).
  - destruct (rc_last s) as [[d key]|] eqn:El.
    + destruct (step d key false s _ eq_refl eq_refl ltac:(by eexists) Hs) as (R1 & R2 & R3 & R4 & R5).
      destruct (emit_nal false _ _ _ _) as [s1 ok]. cbn [fst snd] in *. subst ok.
      rewrite cons_middle, app_assoc in Hs |- *. rewrite El in R3. rewrite <- R3 in Hs |- *.
      apply IH; [congruence|done..].
    + rewrite <- El in Hs |- *. by apply IH.
Qed.


(** ** The clock keeps the frames in order *)

Definition max_run : Z := (2 ^ 53 - 16) * 1000000.

Lemma elapsed_ms_exact start now : now - start < max_run ->
  elapsed_ms start now = Z.max 0 (now - start) / 1000000 /\ 0 <= elapsed_ms start now < 2 ^ 53 - 16.
Proof.
  intros Hn. unfold max_run in Hn. unfold elapsed_ms.
  assert (0 <= Z.max 0 (now - start) / 1000000 < 2 ^ 53 - 16)
    by (split; [apply Z.div_pos; lia|apply Z.div_lt_upper_bound; lia]).
  rewrite as_s_id by (unfold in_s; lia). lia.
Qed.

Lemma elapsed_ms_mono start a b : a <= b -> b - start < max_run -> elapsed_ms start a <= elapsed_ms start b.
Proof.
  intros Hab Hb. destruct (elapsed_ms_exact start a) as [-> _]; [lia|].
  destruct (elapsed_ms_exact start b) as [-> _]; [done|]. apply Z.div_le_mono; lia.
Qed.

Lemma calls_ascend call_of start interval ts cs : forall tick before,
  (forall t c, call_of t = Some c -> c_ms c = elapsed_ms start (t_now t)) ->
  honest_clock interval tick before ts -> Forall (fun t => t_now t - start < max_run) ts ->
  calls call_of ts = Some cs ->
  StronglySorted Z.le (c_ms <$> cs) /\
  Forall (fun c => elapsed_ms start before <= c_ms c < 2 ^ 53 - 16) cs.
Proof.
  revert cs. induction ts as [|t ts IH]; intros cs tick before Hc Hk Hb E; [done|].
  destruct Hk as (K1 & K2 & K3 & K4). inversion Hb as [|? ? Hb0 Hb']; subst. cbn [calls] in E.
  destruct (t_stop t || t_stopped t); [simplify_eq; split; constructor|].
  assert (M : elapsed_ms start before <= elapsed_ms start (t_now t)) by (apply elapsed_ms_mono; lia).
  destruct (elapsed_ms_exact start (t_now t) Hb0) as [_ R].
  destruct (call_of t) as [c|] eqn:Et.
  - destruct (calls call_of ts) as [cs'|]; [|done]. cbn in E. simplify_eq.
    destruct (IH cs' _ _ Hc K4 Hb' eq_refl) as [I1 I2]. rewrite fmap_cons. pose proof (Hc _ _ Et) as Em.
    split; constructor; try done; rewrite ?Em.
    + apply Forall_fmap. eapply Forall_impl; [exact I2|]. cbn. intros. lia.
    + lia.
    + eapply Forall_impl; [exact I2|]. cbn. intros. lia.
  - destruct (IH cs _ _ Hc K4 Hb' E) as [I1 I2]. split; [done|].
    eapply Forall_impl; [exact I2|]. cbn. intros. lia.
Qed.

Definition small_last (last : option (list Z * bool)) : Prop :=
  match last with Some (data, _) => Z.of_nat (length data) < 2 ^ 56 - 16 | None => True end.

Lemma run_calls_stamps keep cs : forall e last,
  (fr_pts <$> run_calls keep cs e last) `sublist_of` (c_ms <$> cs).
Proof.
  induction cs as [|c cs IH]; intros e last; cbn [run_calls]; [done|]. rewrite fmap_cons.
  repeat case_match; rewrite ?fmap_cons; cbn [fr_pts]; by constructor.
Qed.

Lemma run_calls_small `{SmallNals} keep cs : forall e last, small_last last ->
  Forall (fun f => Z.of_nat (length (fr_data f)) < 2 ^ 56 - 16) (run_calls keep cs e last).
Proof.
  induction cs as [|c cs IH]; intros e last Hl; cbn [run_calls]; [constructor|].
  destruct (c_src c) as [src|].
  - destruct (encode src (c_us c) e) as [e' [nal|]] eqn:E; [|by apply IH].
    apply small_nals in E. constructor; [done|]. apply IH. by destruct keep.
  - destruct last as [[d k]|]; [|by apply IH]. constructor; [done|]. by apply IH.
Qed.

Lemma sublist_all {A} (P : A -> Prop) l k : l `sublist_of` k -> Forall P k -> Forall P l.
Proof. rewrite !Forall_forall. intros Hs Hk x Hx. apply Hk. by eapply elem_of_sublist. Qed.

Lemma sublist_sorted {A} (R : A -> A -> Prop) l k :
  l `sublist_of` k -> StronglySorted R k -> StronglySorted R l.
Proof.
  induction 1 as [|x l k Hlk IH|x l k _ IH]; intros Hk; [done| |].
  - inversion Hk as [|? ? Hk' Hall]; subst. constructor; [by apply IH|].
    by eapply sublist_all.
  - inversion Hk; subst. by apply IH.
Qed.

Lemma run_calls_sound `{SmallNals} keep cs e :
  StronglySorted Z.le (c_ms <$> cs) -> Forall (fun c => 0 <= c_ms c < 2 ^ 53 - 16) cs ->
  Z.of_nat (length cs) < 2 ^ 64 -> sound_frames (run_calls keep cs e None).
Proof.
  intros Hs Hr Hl. pose proof (run_calls_stamps keep cs e None) as Hsub.
  assert (P : Forall (fun f => 0 <= fr_pts f < 2 ^ 53 - 16) (run_calls keep cs e None)).
  { change (Forall ((fun p => 0 <= p < 2 ^ 53 - 16) ∘ fr_pts) (run_calls keep cs e None)).
    apply Forall_fmap. eapply sublist_all; [exact Hsub|].
    by apply Forall_fmap. }
  split; [|split; [done|split]].
  - apply Forall_forall. intros f Hf. rewrite Forall_forall in P. specialize (P f Hf).
    pose proof (run_calls_small keep cs e None I) as S. rewrite Forall_forall in S. specialize (S f Hf).
    split; [lia|done].
  - pose proof (sublist_sorted _ _ _ Hsub Hs) as Q. clear -Q.
    induction (run_calls keep cs e None) as [|f fs IH]; [constructor|]. rewrite fmap_cons in Q.
    inversion Q as [|? ? Q1 Q2]; subst. constructor; [by apply IH|].
    apply Forall_forall. intros g Hg. pose proof (proj1 (Forall_forall _ _) Q2 (fr_pts g)) as Q3.
    specialize (Q3 ltac:(by apply list_elem_of_fmap_2)). lia.
  - apply sublist_length in Hsub. rewrite !length_fmap in Hsub. lia.
Qed.

(** ** The threads *)

Definition avc : string := "V_MPEG4/ISO/AVC".

(** The state after the first frame is that of a first call. *)
Lemma vulkan_first_do keep start now f c0 (s : Rec (W:=file)) :
  vulkan_first_call start now f = Some c0 -> is_Some (rc_enc s) ->
  (do_call keep c0 s).2 = true -> vulkan_first keep start now f s = (do_call keep c0 s).1.
Proof.
  intros Hf [e He]. unfold vulkan_first, do_call. rewrite He.
  destruct f as [pixels|t task dma|]; [| |done]; cbn in Hf; simplify_eq; cbn [c_src c_us c_ms encode];
    destruct (_ : enc_state * option Nal) as [e' [nal|]]; try done;
    unfold emit_nal, emit_first; by destruct write_frame as [m []].
Qed.

Section Refinement.
Context `{SmallNals}.

(** The frames of a first call and of the turns after it, in the file a thread
    leaves. *)
Lemma thread_file w h priv e keep c0 cs (s : Rec (W:=file)) interval call_of on_task on_idle ts :
  in_u 32 w -> in_u 32 h -> track_strings_ok priv avc ->
  StronglySorted Z.le (c_ms <$> c0 :: cs) -> Forall (fun c => 0 <= c_ms c < 2 ^ 53 - 16) (c0 :: cs) ->
  Z.of_nat (length (c0 :: cs)) < 2 ^ 64 ->
  calls call_of ts = Some cs ->
  Forall (fun t => forall s : Rec (W:=file), is_Some (rc_enc s) ->
    match t_task t with
    | Some task => on_task t task s = Ok (turn_call keep (call_of t) s)
    | None => (if is_paced interval then on_idle t s else Ok (s, true)) = Ok (turn_call keep (call_of t) s)
    end) ts ->
  ((do_call keep c0 (rec_new (opened_at w h priv avc) (Some e))).2 = true ->
   s = (do_call keep c0 (rec_new (opened_at w h priv avc) (Some e))).1) ->
  let fs := run_calls keep (c0 :: cs) e None in
  exists f, (let? r := paced_loop interval on_task on_idle ts s in Ok (rec_finish <$> r)) =
            Ok (Some (Finished (Ok f) (Z.of_nat (length fs)))) /\
    demux (f_data f) = Some (Movie (last_pts 0 fs + 16) w h (bytes_of_string avc) priv (block_of <$> fs)).
Proof.
  intros Hw Hh Hp Hs Hr Hl Hc Ht H0 fs. pose proof (run_calls_sound keep (c0 :: cs) e Hs Hr Hl) as G.
  set (s0 := rec_new (opened_at w h priv avc) (Some e)) in *.
  destruct (do_calls_file w h priv avc keep (c0 :: cs) [] e s0) as [E1 E2]; [done..|].
  assert (Hok : (do_call keep c0 s0).2 = true).
  { unfold s0, do_call in *. cbn [rc_enc rec_new rc_last]. cbn [run_calls] in G.
    destruct (c_src c0) as [src|]; [|done]. destruct encode as [e' [nal|]]; [|done].
    apply (sound_prefix [_]) in G. destruct (write_next w h priv avc [] _ _ _ _ G eq_refl) as (m' & Ew & _).
    unfold emit_nal. cbn [rc_writer]. unfold set_field. cbn [rc_writer rec_new]. by rewrite Ew. }
  specialize (H0 Hok). pose proof (do_call_enc keep c0 s0 ltac:(by eexists)) as He'.
  cbn [do_calls] in E1, E2. destruct (do_call keep c0 s0) as [s1 ok]. cbn [fst snd] in *. subst ok s1.
  rewrite (paced_loop_calls interval keep call_of on_task on_idle ts cs s He' Ht Hc). cbn [fmap option_fmap option_map].
  destruct (finish_sound w h priv avc fs _ Hw Hh Hp G E1) as (f & Ef & _ & Ed).
  exists f. split; [|done]. unfold rec_finish. rewrite Ef, E2. done.
Qed.

Lemma calls_length call_of ts cs : calls call_of ts = Some cs -> (length cs <= length ts)%nat.
Proof.
  revert cs. induction ts as [|t ts IH]; intros cs E; [done|]. cbn [calls] in E. repeat case_match; simplify_eq.
  - cbn. lia.
  - destruct (calls call_of ts) as [k|]; [|done]. cbn in E. simplify_eq. cbn. specialize (IH k eq_refl). lia.
  - specialize (IH _ E). cbn. lia.
Qed.

(** A first call at zero and the calls of an honest clock. *)
Lemma calls_from_zero call_of start interval tick ts c0 cs :
  (forall t c, call_of t = Some c -> c_ms c = elapsed_ms start (t_now t)) -> c_ms c0 = 0 ->
  honest_clock interval tick start ts -> Forall (fun t => t_now t - start < max_run) ts ->
  calls call_of ts = Some cs ->
  StronglySorted Z.le (c_ms <$> c0 :: cs) /\ Forall (fun c => 0 <= c_ms c < 2 ^ 53 - 16) (c0 :: cs).
Proof.
  intros Hc H0 Hk Hb E. destruct (calls_ascend call_of start interval ts cs tick start Hc Hk Hb E) as [I1 I2].
  assert (Z0 : elapsed_ms start start = 0) by (unfold elapsed_ms; by rewrite Z.sub_diag). rewrite Z0 in I2.
  rewrite fmap_cons, H0. split; constructor; try done; [|lia]. apply Forall_fmap.
  eapply Forall_impl; [exact I2|]. cbn. intros. lia.
Qed.

Lemma vulkan_call_stamp paced w h start t c :
  vulkan_call paced w h start t = Some c -> c_ms c = elapsed_ms start (t_now t).
Proof. unfold vulkan_call. intros E. repeat case_match; by simplify_eq. Qed.

Lemma lossless_call_stamp paced w h start t c :
  lossless_call paced w h start t = Some c -> c_ms c = elapsed_ms start (t_now t).
Proof. unfold lossless_call. intros E. repeat case_match; by simplify_eq. Qed.

(** C6: what an H.264 recording leaves behind. A thread that found a first frame of
    [w] by [h] and is told to stop later (here [calls] is defined) ends with a finished
    file. The file demuxes to a track of that size with the encoder's private data and
    to exactly the frames the encoder answered, in the order of the calls: the first
    one at time zero, then one call per task of that size at the milliseconds that had
    passed, and, in a paced recording, the last frame again in every turn without a
    task; frames of another size are skipped and failed encodings leave no frame. The
    thread reports their number. *)
Theorem vulkan_recording_file min_fps began start now tick ts f w h rest e priv c0 cs :
  let interval := frame_interval min_fps in
  let paced := is_paced interval in
  wait_first true (began + FIRST_FRAME_TIMEOUT) ts = Found f w h rest ->
  vulkan_first_call start now f = Some c0 -> enc_new w h = Some (e, priv) ->
  in_u 32 w -> in_u 32 h -> track_strings_ok priv avc ->
  Forall not_encoded rest -> honest_clock interval tick start rest ->
  Forall (fun t => t_now t - start < max_run) rest -> Z.of_nat (length rest) < 2 ^ 64 - 1 ->
  calls (vulkan_call paced w h start) rest = Some cs ->
  let fs := run_calls paced (c0 :: cs) e None in
  exists file,
    vulkan_recording_thread min_fps began start now (Some (new_file None)) ts =
      Ok (Some (Finished (Ok file) (Z.of_nat (length fs)))) /\
    demux (f_data file) = Some (Movie (last_pts 0 fs + 16) w h (bytes_of_string avc) priv (block_of <$> fs)).
Proof.
  intros interval paced Hwait Hf Hnew Hw Hh Hp Hn Hk Hb Hl Hc fs.
  assert (H0 : c_ms c0 = 0) by (by destruct f; cbn in Hf; simplify_eq).
  destruct (calls_from_zero _ start interval tick rest c0 cs (vulkan_call_stamp paced w h start) H0 Hk Hb Hc)
    as [Hs Hr].
  pose proof (calls_length _ _ _ Hc) as Hlen.
  unfold vulkan_recording_thread. fold interval. fold paced. rewrite Hwait.
  assert (Eo : vulkan_open f w h = Some (Some e, priv)) by (unfold vulkan_open; rewrite Hnew; by destruct f).
  rewrite Eo. unfold new. fold avc. rewrite new_for_codec_img by (unfold in_u in *; done || lia).
  eapply (thread_file w h priv e paced c0 cs _ interval); try done.
  - cbn [length]. lia.
  - by apply vulkan_turns.
  - intros Hok. apply vulkan_first_do; [done|by eexists|done].
Qed.

(** The first frame of the lossless thread: a dmabuf is read like any other task. *)
Definition lossless_first_call (w h : Z) (f : First) : option Call :=
  match f with
  | FirstPixels pixels => Some {| c_src := Some (inr pixels); c_us := 0; c_ms := 0 |}
  | FirstDmabuf t task _ =>
      match read_task t task with
      | Ok (Some (pixels, fw, fh)) =>
          if (fw =? w) && (fh =? h) then Some {| c_src := Some (inr pixels); c_us := 0; c_ms := 0 |} else None
      | _ => None
      end
  | FirstNal _ _ _ _ => None
  end.

Lemma lossless_first_do keep w h f c0 (s : Rec (W:=file)) :
  lossless_first_call w h f = Some c0 -> is_Some (rc_enc s) ->
  exists s', lossless_first keep w h f s = Ok s' /\
    ((do_call keep c0 s).2 = true -> s' = (do_call keep c0 s).1).
Proof.
  intros Hf [e He]. unfold lossless_first, do_call. rewrite He.
  destruct f as [pixels|t task dma|]; [| |done]; cbn in Hf.
  2: destruct (read_task t task) as [[[[pixels fw] fh]|]|]; try done; destruct ((fw =? w) && (fh =? h)); try done.
  all: simplify_eq; cbn [c_src c_us c_ms encode]; eexists; (split; [reflexivity|]);
    destruct (enc_bgra _ _ _) as [e' [nal|]]; try done;
    unfold emit_nal, emit_first; by destruct write_frame as [m []].
Qed.

(** The same for the lossless H.264 recording, whose turns read every task into
    memory: a dmabuf whose fence is not ready, or that cannot be mapped, is skipped. *)
Theorem lossless_recording_file min_fps began start tick ts f w h rest e priv c0 cs :
  let interval := frame_interval min_fps in
  let paced := is_paced interval in
  wait_first false (began + FIRST_FRAME_TIMEOUT) ts = Found f w h rest ->
  lossless_first_call w h f = Some c0 -> enc_new w h = Some (e, priv) ->
  in_u 32 w -> in_u 32 h -> track_strings_ok priv avc ->
  Forall readable rest -> honest_clock interval tick start rest ->
  Forall (fun t => t_now t - start < max_run) rest -> Z.of_nat (length rest) < 2 ^ 64 - 1 ->
  calls (lossless_call paced w h start) rest = Some cs ->
  let fs := run_calls paced (c0 :: cs) e None in
  exists file,
    vulkan_lossless_recording_thread min_fps began start (Some (new_file None)) ts =
      Ok (Some (Finished (Ok file) (Z.of_nat (length fs)))) /\
    demux (f_data file) = Some (Movie (last_pts 0 fs + 16) w h (bytes_of_string avc) priv (block_of <$> fs)).
Proof.
  intros interval paced Hwait Hf Hnew Hw Hh Hp Hn Hk Hb Hl Hc fs.
  assert (H0 : c_ms c0 = 0) by (unfold lossless_first_call in Hf; repeat case_match; by simplify_eq).
  destruct (calls_from_zero _ start interval tick rest c0 cs (lossless_call_stamp paced w h start) H0 Hk Hb Hc)
    as [Hs Hr].
  pose proof (calls_length _ _ _ Hc) as Hlen.
  unfold vulkan_lossless_recording_thread. fold interval. fold paced. rewrite Hwait, Hnew.
  unfold new. fold avc. rewrite new_for_codec_img by (unfold in_u in *; done || lia).
  destruct (lossless_first_do paced w h f c0 (rec_new (opened_at w h priv avc) (Some e)) Hf) as (s' & Es & Ei);
    [by eexists|].
  fold (opened_at w h priv avc). rewrite Es.
  eapply (thread_file w h priv e paced c0 cs _ interval); try done.
  - cbn [length]. lia.
  - by apply lossless_turns.
Qed.
End Refinement.
End Reference.

(** ** A short recording *)

Definition flat_dmabufs : Dmabufs := fun _ => (64, 48, 256).

(** An encoder that numbers its frames and refuses empty pixels. *)
Definition counting_encoder : NalEncoder := {|
  enc_state := nat;
  enc_new := fun w h => Some (O, [1; 100]);
  enc_dmabuf := fun dma us n => (S n, Some {| nal_data := [9; Z.of_nat n]; nal_key := true |});
  enc_bgra := fun pixels us n =>
    match pixels with
    | [] => (n, None)
    | p :: _ => (S n, Some {| nal_data := [p; Z.of_nat n]; nal_key := (n =? 0)%nat |})
    end;
|}.

Lemma counting_small : @SmallNals counting_encoder.
Proof.
  intros [dma|[|p px]] us e e' nal E; cbn in E; simplify_eq; cbn; lia.
Qed.

Definition a_turn (task : option RecordingTask) (ms : Z) : Turn :=
  {| t_stop := false; t_head := ms * 1000000; t_woken := ms * 1000000; t_task := task; t_stopped := false;
     t_ready := true; t_raw := Some (replicate (64 * 192) 7); t_now := ms * 1000000; t_writes := 1 |}.

Definition stop_turn (ms : Z) : Turn :=
  {| t_stop := true; t_head := ms * 1000000; t_woken := ms * 1000000; t_task := None; t_stopped := true;
     t_ready := true; t_raw := None; t_now := ms * 1000000; t_writes := 1 |}.

(** A placeholder, the first frame, a dmabuf, nothing, a frame of another size, the stop. *)
Definition first_turns : list Turn :=
  [a_turn (Some (TaskPixels [0; 0; 0; 0] 1 1)) 0; a_turn (Some (TaskPixels [5; 5; 5; 5] 64 48)) 10].
Definition later_turns : list Turn :=
  [a_turn (Some (TaskDmabuf 3 [])) 60; a_turn None 100; a_turn (Some (TaskPixels [6; 6; 6; 6] 32 32)) 140;
   a_turn (Some (TaskPixels [8; 8; 8; 8] 64 48)) 1200; stop_turn 1300].

Ltac clock := cbn [honest_clock later_turns]; split_and!; try done; vm_compute; discriminate.

Lemma vulkan_recording_file_witness :
  exists file,
    @vulkan_recording_thread flat_dmabufs Io.file _ _ counting_encoder (Some 30) 0 20000000 21000000 (Some (new_file None))
      (first_turns ++ later_turns) = Ok (Some (Finished (Ok file) 4)) /\
    demux (f_data file) =
    Some (Movie 1196 64 48 (bytes_of_string avc) [1; 100]
      [Block 1 0 true [5; 0]; Block 1 40 true [9; 1]; Block 1 80 true [9; 1]; Block 1 1180 false [8; 2]]).
Proof.
  destruct (@vulkan_recording_file flat_dmabufs counting_encoder counting_small (Some 30) 0 20000000 21000000
    20000000 (first_turns ++ later_turns) (FirstPixels [5; 5; 5; 5]) 64 48 later_turns O [1; 100]
    {| c_src := Some (inr [5; 5; 5; 5]); c_us := 0; c_ms := 0 |}
    [{| c_src := Some (inl 3%nat); c_us := 40000; c_ms := 40 |}; {| c_src := None; c_us := 80000; c_ms := 80 |};
     {| c_src := Some (inr [8; 8; 8; 8]); c_us := 1180000; c_ms := 1180 |}]) as (file & E1 & E2).
  - reflexivity.
  - reflexivity.
  - reflexivity.
  - unfold in_u; lia.
  - unfold in_u; lia.
  - split; cbn; lia.
  - unfold later_turns, a_turn, stop_turn. repeat constructor.
  - clock.
  - unfold max_run. repeat constructor; cbn; lia.
  - cbn. lia.
  - vm_compute. reflexivity.
  - exists file. split; [exact E1|exact E2].
Defined.

Lemma lossless_recording_file_witness :
  exists file,
    @vulkan_lossless_recording_thread flat_dmabufs Io.file _ _ counting_encoder None 0 20000000 (Some (new_file None))
      (first_turns ++ later_turns) = Ok (Some (Finished (Ok file) 3)) /\
    demux (f_data file) =
    Some (Movie 1196 64 48 (bytes_of_string avc) [1; 100]
      [Block 1 0 true [5; 0]; Block 1 40 false [7; 1]; Block 1 1180 false [8; 2]]).
Proof.
  destruct (@lossless_recording_file flat_dmabufs counting_encoder counting_small None 0 20000000
    20000000 (first_turns ++ later_turns) (FirstPixels [5; 5; 5; 5]) 64 48 later_turns O [1; 100]
    {| c_src := Some (inr [5; 5; 5; 5]); c_us := 0; c_ms := 0 |}
    [{| c_src := Some (inr (replicate (64 * 192) 7)); c_us := 40000; c_ms := 40 |};
     {| c_src := Some (inr [8; 8; 8; 8]); c_us := 1180000; c_ms := 1180 |}]) as (file & E1 & E2).
  - reflexivity.
  - reflexivity.
  - reflexivity.
  - unfold in_u; lia.
  - unfold in_u; lia.
  - split; cbn; lia.
  - unfold later_turns. repeat (constructor; [try (by eexists); exists (Some (replicate (64 * 192) 7, 64, 48)); vm_compute; reflexivity|]). constructor.
  - clock.
  - unfold max_run. repeat constructor; cbn; lia.
  - cbn. lia.
  - vm_compute. reflexivity.
  - exists file. split; [exact E1|exact E2].
Defined.
