(* ===== verification/FfmpegProps.v ===== *)
(** * The recording threads end, keep their pace and feed ffmpeg whole frames

    Results about all five recording threads: they stop when they are told to; a paced
    one keeps under its rate. Results about the one that runs ffmpeg: what its writer has
    written, and that it hangs only on ffmpeg; it sends frames of
    the size ffmpeg was told, it ends at the first frame of another size, and the codec
    that has no thread of its own cannot be recorded. *)

From Stdlib Require Import ZArith Lia Ascii.
From stdpp Require Import prelude strings gmap list pretty.
From S2P Require Import Prelude Words Decimal Io Ebml Mkv Messages Composite Pixels Session Control ControlProps Recorder RecorderProps Ffmpeg.

Open Scope Z_scope.

(** ** The writer's thread *)

(** What was accepted is written, being written or in the channel, in this order, as long as
    the thread runs; it does not idle beside a frame, and the channel has two places. *)
Record writer_ok (sent : list (list Z)) (w : Writer) : Prop := {
  wk_all : wr_gone w = false -> sent = wr_written w ++ option_list (wr_hand w) ++ wr_queue w;
  wk_written : wr_written w `prefix_of` sent;
  wk_idle : wr_hand w = None -> wr_queue w = [];
  wk_gone : wr_gone w = true -> wr_hand w = None;
  wk_room : (length (wr_queue w) <= CHANNEL)%nat;
}.

Lemma recv_ok sent w :
  (wr_gone w = false -> sent = wr_written w ++ option_list (wr_hand w) ++ wr_queue w) ->
  wr_written w `prefix_of` sent -> (wr_gone w = true -> wr_hand w = None /\ wr_queue w = []) ->
  (length (wr_queue w) <= CHANNEL \/ wr_hand w = None /\ length (wr_queue w) <= S CHANNEL)%nat ->
  writer_ok sent (recv w).
Proof.
  intros H1 H2 H3 H4. unfold recv. destruct (wr_hand w) as [f|] eqn:Eh; [|destruct (wr_queue w) as [|f q] eqn:Eq].
  - split; rewrite ?Eh; try done; [intros Hg; by destruct (H3 Hg)|by destruct H4 as [|[? _]]].
  - split; rewrite ?Eh, ?Eq; try done. cbn. lia.
  - split; cbn; try done.
    + intros Hg. by destruct (H3 Hg).
    + cbn in H4. destruct H4; lia.
Qed.

Section Writes.
Context (writes : nat -> option bool).

Lemma write_returns_ok sent w : writer_ok sent w -> writer_ok sent (write_returns writes w).
Proof.
  intros Hw. pose proof Hw as [H1 H2 H3 H4 H5]. unfold write_returns. destruct (wr_hand w) as [f|] eqn:Eh; [|done].
  assert (Hg : wr_gone w = false) by (destruct (wr_gone w); naive_solver). specialize (H1 Hg).
  destruct (writes (wr_count w)) as [[]|] eqn:Ew; [|split; cbn; try done; lia|done].
  apply recv_ok; cbn.
  - intros _. by rewrite <- app_assoc.
  - exists (wr_queue w). by rewrite H1, <- app_assoc.
  - by rewrite Hg.
  - by left.
Qed.

Lemma writes_return_ok sent n w : writer_ok sent w -> writer_ok sent (Nat.iter n (write_returns writes) w).
Proof. intros Hw. induction n as [|n IH]; [done|]. by apply write_returns_ok. Qed.

(** A write that returns makes room. *)
Lemma write_returns_room w sent :
  writer_ok sent w -> writes (wr_count w) <> None -> (length (wr_queue (write_returns writes w)) < CHANNEL)%nat.
Proof.
  intros [_ _ H3 _ H5] Hw. unfold write_returns, CHANNEL in *. destruct (wr_hand w) as [f|] eqn:Eh; [|rewrite H3; cbn; done || lia].
  destruct (writes (wr_count w)) as [[]|]; [|cbn; lia|done].
  unfold recv. cbn. destruct (wr_queue w) as [|f' q] eqn:Eq; cbn in *; [rewrite Eq; cbn|]; lia.
Qed.

Lemma channel_send_ok sent wire w : writer_ok sent w ->
  match channel_send writes wire w with
  | (w', Some true) => writer_ok (sent ++ [wire]) w'
  | (w', Some false) => writer_ok sent w'
  | (w', None) => writer_ok sent w' /\ exists n, writes n = None
  end.
Proof.
  assert (P : forall w, writer_ok sent w -> wr_gone w = false -> (length (wr_queue w) < CHANNEL)%nat ->
    writer_ok (sent ++ [wire]) (recv (w <| wr_queue ::= (fun q => q ++ [wire]) |>))).
  { clear w. intros w [H1 H2 H3 H4 H5] Hg Hl. apply recv_ok; cbn.
    - intros _. rewrite (H1 Hg) at 1. by rewrite <- !app_assoc.
    - by apply prefix_app_r.
    - by rewrite Hg.
    - left. rewrite length_app. cbn. lia. }
  intros Hw. unfold channel_send. cbv zeta. destruct (wr_gone w) eqn:Eg; [done|].
  destruct (Nat.ltb_spec (length (wr_queue w)) CHANNEL) as [Hl|Hl]; [by apply P|].
  pose proof (write_returns_ok sent w Hw) as Hw'. destruct (wr_gone (write_returns writes w)) eqn:Eg'; [done|].
  destruct (Nat.ltb_spec (length (wr_queue (write_returns writes w))) CHANNEL) as [Hl'|Hl']; [by apply P|].
  split; [done|]. exists (wr_count w). destruct (writes (wr_count w)) eqn:E; [|done].
  pose proof (write_returns_room w sent Hw ltac:(congruence)). lia.
Qed.

Lemma write_rest_ok sent fuel : forall w, writer_ok sent w -> (length (option_list (wr_hand w)) + length (wr_queue w) <= fuel)%nat ->
  let '(w', ended) := write_rest writes fuel w in
  writer_ok sent w' /\ (if ended then wr_hand w' = None else exists n, writes n = None) /\
  ((forall n, writes n <> Some false) -> wr_gone w = false -> wr_gone w' = false).
Proof.
  induction fuel as [|fuel IH]; intros w Hw Hl; cbn [write_rest]; destruct (wr_hand w) as [f|] eqn:Eh; [cbn in Hl; lia|done| |done].
  pose proof (write_returns_ok sent w Hw) as Hw'. destruct (writes (wr_count w)) as [b|] eqn:Ew.
  - specialize (IH _ Hw'). assert (Hd : (length (option_list (wr_hand (write_returns writes w))) +
      length (wr_queue (write_returns writes w)) <= fuel)%nat /\
      ((forall n, writes n <> Some false) -> wr_gone w = false -> wr_gone (write_returns writes w) = false)).
    { unfold write_returns. rewrite Eh, Ew. cbn in Hl. destruct b; cbn; [|split; [lia|intros Hf; by destruct (Hf (wr_count w))]].
      unfold recv. cbn. destruct (wr_queue w) eqn:Eq; cbn in *; rewrite ?Eq; cbn; (split; [lia|done]). }
    destruct Hd as [Hd Hg]. specialize (IH Hd). destruct (write_rest writes fuel _) as [w' ended].
    destruct IH as (I1 & I2 & I3). split_and!; auto.
  - assert (E : write_returns writes w = w) by (unfold write_returns; by rewrite Eh, Ew).
    assert (D : forall k, write_rest writes k w = (w, false)).
    { induction k as [|k IHk]; cbn [write_rest]; rewrite Eh; [done|]. by rewrite E. }
    rewrite E, D. split_and!; [done|by exists (wr_count w)|done].
Qed.

Lemma join_ok sent w : writer_ok sent w ->
  let '(w', ended) := join_writer writes w in
  writer_ok sent w' /\ (if ended then wr_hand w' = None else exists n, writes n = None) /\
  ((forall n, writes n <> Some false) -> wr_gone w = false -> wr_gone w' = false).
Proof.
  intros Hw. apply write_rest_ok; [done|]. destruct (wr_hand w); cbn; lia.
Qed.

(** The first frame is received at once. *)
Definition first_writer (wire : list Z) : Writer := writer_new <| wr_hand := Some wire |>.

Lemma first_send wire : channel_send writes wire writer_new = (first_writer wire, Some true).
Proof. done. Qed.

Lemma first_writer_ok wire : writer_ok [wire] (first_writer wire).
Proof. exact (channel_send_ok [] wire writer_new ltac:(split; cbn; try done; lia)). Qed.

(** Nothing goes wrong as long as no write fails. *)
Definition unfailing (w : Writer) : Prop := (forall n, writes n <> Some false) -> wr_gone w = false.

Lemma write_returns_unfailing w : unfailing w -> unfailing (write_returns writes w).
Proof.
  intros Hu Hf. unfold write_returns. destruct (wr_hand w); [|by apply Hu].
  destruct (writes (wr_count w)) as [[]|] eqn:E; [|by apply Hf in E|by apply Hu].
  unfold recv. cbn. by case_match; apply Hu.
Qed.

Lemma writes_return_unfailing n w : unfailing w -> unfailing (Nat.iter n (write_returns writes) w).
Proof. intros Hu. induction n as [|n IH]; [done|]. by apply write_returns_unfailing. Qed.

Lemma channel_send_unfailing wire w : unfailing w -> unfailing (channel_send writes wire w).1.
Proof.
  intros Hu. pose proof (write_returns_unfailing w Hu) as Hu'.
  assert (P : forall w, unfailing w -> unfailing (recv (w <| wr_queue ::= (fun q => q ++ [wire]) |>))).
  { clear. intros w Hu Hf. unfold recv. cbn. repeat case_match; by apply Hu. }
  unfold channel_send. cbv zeta. repeat case_match; cbn [fst]; auto.
Qed.
End Writes.

(** ** Stopping *)

Section Stopping.
Context {DB : Dmabufs} {W : Type} `{Write W, Seek W}.

Lemma paced_loop_stops {S} interval on_task on_idle ts : forall s : S,
  Exists (fun t => t_stop t = true) ts -> paced_loop interval on_task on_idle ts s <> Ok None.
Proof.
  induction ts as [|t ts IH]; intros s Hs; [by inversion Hs|]. cbn [paced_loop].
  destruct (t_stop t) eqn:Et; [done|]. destruct (t_stopped t); [done|].
  assert (Hs' : Exists (fun t => t_stop t = true) ts) by (inversion Hs; subst; [congruence|done]).
  destruct (match t_task t with Some _ => _ | None => _ end) as [[s' []]|]; [|done..].
  by apply IH.
Qed.

Lemma wait_first_stops ok deadline ts :
  Exists (fun t => t_stop t = true) ts ->
  match wait_first ok deadline ts with
  | Waiting => False
  | GaveUp => True
  | Found _ _ _ rest => Exists (fun t => t_stop t = true) rest
  end.
Proof.
  induction ts as [|t ts IH]; intros Hs; [by inversion Hs|]. cbn [wait_first].
  destruct (t_stop t) eqn:Et; [done|].
  assert (Hs' : Exists (fun t => t_stop t = true) ts) by (inversion Hs; subst; [congruence|done]).
  specialize (IH Hs'). destruct (deadline <=? t_head t); [done|].
  destruct (t_task t) as [[pixels w h|dma hs|data pts key w h priv]|]; [| | |done].
  - by destruct (too_small w h).
  - destruct (dma_size dma) as [w h]. by destruct (too_small w h).
  - destruct ok; [|done]. by destruct (too_small w h).
Qed.

(** The writer's part of a feed. *)
Definition feed_written (writes : nat -> option bool) (f : Feed) : Prop :=
  writer_ok (fd_sent f) (fd_writer f) /\ unfailing writes (fd_writer f).

Lemma send_frame_written writes keep wire t f : feed_written writes f ->
  let '(f', r) := send_frame writes keep wire t f in
  feed_written writes f' /\ (r = None -> exists n, writes n = None).
Proof.
  intros [Hw Hu]. unfold send_frame.
  set (g := if keep then f <| fd_last := wire |> else f).
  assert (E : fd_writer g = fd_writer f /\ fd_sent g = fd_sent f) by (unfold g; by destruct keep).
  destruct E as [E1 E2]. rewrite E1.
  pose proof (channel_send_ok writes (fd_sent f) wire _ (writes_return_ok writes _ (t_writes t) _ Hw)) as C.
  pose proof (channel_send_unfailing writes wire _ (writes_return_unfailing writes (t_writes t) _ Hu)) as U.
  destruct (channel_send writes wire _) as [w [[]|]]; cbn [fst] in U; unfold feed_written; cbn; rewrite E2; split_and!; try done.
  - by destruct C.
  - by destruct C as [_ ?].
Qed.

Lemma feed_loop_stops writes codec paced w h ts : forall f,
  Exists (fun t => t_stop t = true) ts -> feed_written writes f ->
  match feed_loop writes codec paced w h ts f with
  | Ok None => False
  | Ok (Some (LoopEnds f')) => feed_written writes f'
  | Ok (Some (LoopBlocked f')) => exists n, writes n = None
  | Err _ => True
  end.
Proof.
  induction ts as [|t ts IH]; intros f Hs Hf; [by inversion Hs|]. cbn [feed_loop].
  destruct (t_stop t) eqn:Et; [done|]. destruct (t_stopped t); [done|].
  assert (Hs' : Exists (fun t => t_stop t = true) ts) by (inversion Hs; subst; [congruence|done]).
  destruct turn_frame as [[[[wire fw] fh]|]|]; [|by apply IH|done].
  destruct (negb _); [done|]. pose proof (send_frame_written writes paced wire t f Hf) as S.
  destruct (send_frame writes paced wire t f) as [f' [[]|]]; destruct S as [S1 S2]; [by apply IH|done|by apply S2].
Qed.

(** How the thread may end: having fed ffmpeg all that was accepted, if no write failed; it
    hangs only on a write that does not return or on an ffmpeg that does not exit. *)
Definition feed_result (writes : nat -> option bool) (exits : bool) (r : feeding) : Prop :=
  match r with
  | FeedAborted => True
  | Fed f => wr_written (fd_writer f) `prefix_of` fd_sent f /\
             ((forall n, writes n <> Some false) -> wr_written (fd_writer f) = fd_sent f)
  | Hung f InWait => exits = false
  | Hung f _ => exists n, writes n = None
  end.

Lemma shutdown_result writes exits f : feed_written writes f -> feed_result writes exits (shutdown_feed writes exits f).
Proof.
  intros [Hw Hu]. unfold shutdown_feed. pose proof (join_ok writes _ _ Hw) as J.
  destruct (join_writer writes (fd_writer f)) as [w ended]. destruct J as (J1 & J2 & J3).
  destruct ended; cbn [negb]; [|done]. destruct exits; [|done]. cbn. split; [apply J1|].
  intros Hf. specialize (J3 Hf (Hu Hf)). destruct J1 as [K1 _ K3 _ _]. specialize (K1 J3). specialize (K3 J2).
  rewrite J2, K3 in K1. cbn in K1. by rewrite app_nil_r in K1.
Qed.

Lemma wait_pixels_stops deadline ts :
  Exists (fun t => t_stop t = true) ts ->
  match wait_pixels deadline ts with
  | Ok StillWaiting => False
  | Ok (FirstFrame _ _ _ rest) => Exists (fun t => t_stop t = true) rest
  | _ => True
  end.
Proof.
  induction ts as [|t ts IH]; intros Hs; [by inversion Hs|]. cbn [wait_pixels].
  destruct (t_stop t) eqn:Et; [done|].
  assert (Hs' : Exists (fun t => t_stop t = true) ts) by (inversion Hs; subst; [congruence|done]).
  specialize (IH Hs'). destruct (deadline <=? t_head t); [done|]. destruct (t_task t) as [task|]; [|done].
  by destruct (read_task t task) as [[[[] ]|]|].
Qed.

Lemma finish_some {A B} (f : A -> B) (r : result (option A) stop) :
  r <> Ok None -> (let? x := r in Ok (f <$> x)) <> Ok None.
Proof. by destruct r as [[]|]. Qed.

(** C35: every recording thread obeys its stop flag: whatever tasks, times and failures
    a run of turns holds, when the flag is up in one of them the thread does not run
    on after it: it has ended, with a file or without, or it has panicked before. The one
    that feeds ffmpeg then closes the channel and waits for its writer and for ffmpeg: it
    ends unless a write to ffmpeg never returns or ffmpeg does not exit when its input is
    closed, in which cases, and only then, it hangs (before the flag is seen, if the
    channel is full). What was written when it ends is a prefix of the frames it sent, and
    all of them if no write failed. *)
Theorem recorders_stop {NE : NalEncoder} {PE : PacketEncoder} min_fps began start now created kbps codec path
    writes exits spawned ts :
  Exists (fun t => t_stop t = true) ts ->
  vulkan_recording_thread (W:=W) min_fps began start now created ts <> Ok None /\
  vulkan_lossless_recording_thread (W:=W) min_fps began start created ts <> Ok None /\
  ffv1_vulkan_recording_thread (W:=W) min_fps began start now created ts <> Ok None /\
  hevc_vulkan_recording_thread (W:=W) min_fps began start now created ts <> Ok None /\
  match recording_thread writes exits kbps codec path min_fps began spawned ts with
  | Ok None => False
  | Ok (Some r) => feed_result writes exits r
  | Err _ => True
  end.
Proof.
  intros Hs.
  pose proof (wait_first_stops true (began + FIRST_FRAME_TIMEOUT) ts Hs) as W1.
  pose proof (wait_first_stops false (began + FIRST_FRAME_TIMEOUT) ts Hs) as W2.
  pose proof (wait_pixels_stops (began + FIRST_FRAME_TIMEOUT) ts Hs) as W3.
  unfold vulkan_recording_thread, vulkan_lossless_recording_thread, ffv1_vulkan_recording_thread,
    hevc_vulkan_recording_thread, recording_thread.
  split; [|split; [|split; [|split]]].
  - destruct (wait_first true _ ts) as [| |f w h rest]; [done..|].
    destruct (vulkan_open f w h) as [[e priv]|], created as [file|]; try done.
    destruct (new file w h priv); [|done].
    by apply finish_some, paced_loop_stops.
  - destruct (wait_first false _ ts) as [| |f w h rest]; [done..|].
    destruct (enc_new w h) as [[e priv]|], created as [file|]; try done.
    destruct (new file w h priv); [|done]. destruct lossless_first; [|done].
    by apply finish_some, paced_loop_stops.
  - destruct (wait_first false _ ts) as [| |f w h rest]; [done..|].
    destruct (prec_open w h created); [|done].
    destruct (match f with FirstPixels _ => _ | FirstDmabuf _ _ _ => _ | FirstNal _ _ _ _ => _ end); [|done].
    by apply finish_some, paced_loop_stops.
  - destruct (wait_first false _ ts) as [| |f w h rest]; [done..|].
    destruct (prec_open w h created); [|done]. destruct hevc_first; [|done].
    by apply finish_some, paced_loop_stops.
  - destruct (wait_pixels _ ts) as [[| |px w h rest]|]; [done..| |done].
    destruct build_ffmpeg_argv; [|done]. destruct (negb spawned); [done|].
    destruct to_wire as [wire|]; [|done]. cbn [fd_writer]. rewrite first_send.
    match goal with |- context [feed_loop _ _ ?p _ _ _ ?g] =>
      assert (F0 : feed_written writes g) by (split; [exact (first_writer_ok writes wire)|by intros _]);
      pose proof (feed_loop_stops writes codec p w h rest g W3 F0) as F;
      destruct (feed_loop writes codec p w h rest g) as [[[f|f]|]|] end; cbn; try done.
    by apply shutdown_result.
Qed.

(** ** Pace *)

Lemma honest_clock_ticks i ts t : 0 <= i -> forall tick before,
  honest_clock (Some i) tick before ts -> last ts = Some t ->
  Z.max before tick + (Z.of_nat (length ts) - 1) * i <= t_woken t.
Proof.
  intros Hi. induction ts as [|t0 ts IH]; intros tick before Hk Hl; [done|].
  destruct Hk as (K1 & K2 & K3 & K4). destruct ts as [|t1 ts].
  - cbn in Hl. simplify_eq. cbn [length]. lia.
  - specialize (IH _ _ K4 Hl). cbn [length] in *. lia.
Qed.

Definition one_more (a b : Z) : Prop := 0 <= a -> 0 <= b <= a + 1.

Lemma paced_loop_count {S} (count : S -> Z) interval on_task on_idle ts : forall s s' : S,
  (forall t task s r, on_task t task s = Ok r -> one_more (count s) (count r.1)) ->
  (forall t s r, on_idle t s = Ok r -> one_more (count s) (count r.1)) ->
  0 <= count s -> paced_loop interval on_task on_idle ts s = Ok (Some s') ->
  0 <= count s' <= count s + Z.of_nat (length ts).
Proof.
  induction ts as [|t ts IH]; intros s s' H1 H2 Hz E; [done|]. cbn [paced_loop length] in *.
  destruct (t_stop t); [simplify_eq; lia|]. destruct (t_stopped t); [simplify_eq; lia|].
  destruct (match t_task t with Some _ => _ | None => _ end) as [[s1 ok]|] eqn:Er; [|done]. cbn [fst snd] in E.
  assert (D : 0 <= count s1 <= count s + 1).
  { destruct (t_task t) as [task|]; [by apply H1 in Er; apply Er|].
    destruct (is_paced interval); [by apply H2 in Er; apply Er|]. simplify_eq. lia. }
  destruct ok; [|simplify_eq; lia]. apply IH in E; [lia|done|done|lia].
Qed.

Lemma as_u_le n : 0 <= n -> 0 <= as_u 64 (n + 1) <= n + 1.
Proof. intros Hn. unfold as_u. pose proof (Z.mod_pos_bound (n + 1) (2 ^ 64)). pose proof (Z.mod_le (n + 1) (2 ^ 64)). lia. Qed.

Context {NE : NalEncoder}.

Lemma emit_nal_count keep data ms key (s : Rec (W:=W)) : one_more (rc_frames s) (rc_frames (emit_nal keep data ms key s).1).
Proof.
  intros Hn. unfold emit_nal. destruct write_frame as [m []]; cbn; [by apply as_u_le|lia].
Qed.

Lemma vulkan_task_count keep w h start t task (s : Rec (W:=W)) r :
  vulkan_task keep w h start t task s = Ok r -> one_more (rc_frames s) (rc_frames r.1).
Proof.
  intros E. unfold vulkan_task in E. injection E as <-.
  assert (R : one_more (rc_frames s) (rc_frames s)) by (intros ?; lia).
  assert (C : forall enc ms, one_more (rc_frames s) (rc_frames (encode_emit keep ms enc s).1)).
  { intros enc ms. unfold encode_emit. destruct (rc_enc s) as [e|]; [|done].
    destruct enc as [e' [nal|]]; [|done]. 
    match goal with |- one_more _ (rc_frames (emit_nal _ _ _ _ ?x).1) => exact (emit_nal_count keep _ _ _ x) end. }
  destruct task; [by destruct (negb _)|by destruct (negb _)|].
  match goal with |- one_more _ (rc_frames (emit_nal _ _ _ _ ?x).1) => exact (emit_nal_count _ _ _ _ x) end.
Qed.

Lemma repeat_last_count start t (s : Rec (W:=W)) r :
  repeat_last start t s = Ok r -> one_more (rc_frames s) (rc_frames r.1).
Proof.
  intros E. unfold repeat_last in E. injection E as <-.
  destruct (rc_last s) as [[]|]; [apply emit_nal_count|intros ?; cbn; lia].
Qed.

Lemma vulkan_first_count keep start now f m e :
  0 <= rc_frames (vulkan_first (W:=W) keep start now f (rec_new m e)) <= 1.
Proof.
  unfold vulkan_first, emit_first. repeat case_match; split; vm_compute; discriminate.
Qed.

(** The rate of a paced H.264 recording is capped, and not only from below: with
    [n] frames a second asked for and a clock that does not wake a sleeper early, the
    thread writes at most two frames more than ticks of [1000000 / n] microseconds
    passed, whatever the session commits, whatever the encoder and the disk do. *)
Theorem paced_recording_rate n began start now tick created ts f w h rest t r frames :
  0 < n <= 1000000 ->
  wait_first true (began + FIRST_FRAME_TIMEOUT) ts = Found f w h rest ->
  honest_clock (frame_interval (Some n)) tick start rest -> last rest = Some t ->
  vulkan_recording_thread (W:=W) (Some n) began start now created ts = Ok (Some (Finished r frames)) ->
  frames <= 2 + (t_woken t - start) / (1000000 / n * 1000).
Proof.
  intros Hn Hw Hk Hl. unfold vulkan_recording_thread. rewrite Hw.
  assert (Ei : frame_interval (Some n) = Some (1000000 / n * 1000)) by (unfold frame_interval; by rewrite (proj2 (Z.ltb_lt _ _)) by lia).
  rewrite Ei in *. assert (Hi : 1 <= 1000000 / n) by (apply Z.div_le_lower_bound; lia).
  apply honest_clock_ticks with (t := t) in Hk; [|lia|done].
  destruct (vulkan_open f w h) as [[e priv]|], created as [file|]; try done.
  destruct (new file w h priv) as [m|]; [|done]. cbn [is_paced].
  destruct (paced_loop _ _ _ _ _) as [[s'|]|] eqn:El; [|done..]. cbn. intros [= _ <-].
  apply (paced_loop_count rc_frames) in El.
  - pose proof (vulkan_first_count (is_paced (Some (1000000 / n * 1000))) start now f m e) as F.
    set (c0 := rc_frames (vulkan_first _ _ _ _ _)) in *. set (i := 1000000 / n * 1000) in *.
    assert (Z.of_nat (length rest) - 1 <= (t_woken t - start) / i); [|lia].
    apply Z.div_le_lower_bound; lia.
  - intros. by eapply vulkan_task_count.
  - intros. by eapply repeat_last_count.
  - apply vulkan_first_count.
Qed.
End Stopping.

(** ** What ffmpeg is fed *)

(** The bytes ffmpeg reads for one frame of its raw input. *)
Definition raw_frame_bytes (codec : RecordingCodec) (w h : Z) : Z :=
  if needs_nv12 codec then w * h + 2 * ((w + 1) / 2) * ((h + 1) / 2) else 4 * w * h.

Definition dims_fit (codec : RecordingCodec) (w h : Z) : Prop :=
  0 < w < 2 ^ 15 /\ 0 < h < 2 ^ 15 /\ (needs_nv12 codec = true -> w mod 2 = 0 /\ h mod 2 = 0).

(** Packed pixels, or NV12 already when the codec wants it. *)
Definition pixels_fit (codec : RecordingCodec) (pixels : list Z) (w h : Z) : Prop :=
  dims_fit codec w h /\ (len pixels = 4 * w * h \/ (needs_nv12 codec = true /\ 2 * len pixels = 3 * w * h)).

Definition codec_for_ffmpeg (codec : RecordingCodec) : bool :=
  match codec with Ffv1 | X264Lossless | H264Nvenc | H264Vaapi => true | _ => false end.

Lemma destride_fits raw w h stride :
  0 < w < 2 ^ 15 -> 0 < h < 2 ^ 15 -> 4 * w <= stride < 2 ^ 32 -> stride * h <= len raw ->
  exists p, destride_bgra raw w h stride = Ok p /\ len p = 4 * w * h.
Proof.
  intros Hw Hh Hs Hl. unfold destride_bgra. rewrite (as_u_id 32) by (red; lia).
  destruct (stride =? w * 4) eqn:E; boolz.
  - rewrite usize_id by nia. rewrite slice_ok by nia. eexists. split; [done|].
    unfold len in *. rewrite length_take, length_drop. nia.
  - erewrite map_res_ok.
    2:{ intros row Hr%elem_of_range. assert (0 <= row * stride <= (h - 1) * stride) by nia.
        rewrite !usize_id by (rewrite ?usize_id; nia). apply slice_ok; nia. }
    eexists. split; [done|]. unfold len. rewrite (length_concat_rows (Z.to_nat (4 * w))), length_map_range; [lia|].
    intros l (row & Hr & ->)%elem_of_map_range. unfold len in Hl.
    assert (0 <= row * stride <= (h - 1) * stride) by nia. rewrite length_take, length_drop. nia.
Qed.

Section Feeding.
Context {DB : Dmabufs}.

(** Tasks as the session makes them. *)
Definition turn_fits (codec : RecordingCodec) (t : Turn) : Prop :=
  match t_task t with
  | Some (TaskPixels pixels w h) => pixels_fit codec pixels w h
  | Some (TaskDmabuf dma _) =>
      let '(w, h, stride) := dma_geometry dma in
      dims_fit codec w h /\ 4 * w <= stride < 2 ^ 32 /\
      match t_raw t with Some raw => stride * h <= len raw | None => True end
  | _ => True
  end.

Lemma read_task_fits codec t task :
  turn_fits codec t -> t_task t = Some task ->
  exists p, read_task t task = Ok p /\
    match p with Some (pixels, w, h) => pixels_fit codec pixels w h | None => True end.
Proof.
  intros Ht E. unfold turn_fits in Ht. rewrite E in Ht. destruct task as [pixels w h|dma hs|]; [by eexists| |by eexists].
  cbn [read_task]. unfold dma_size. destruct (dma_geometry dma) as [[w h] stride] eqn:Eg. cbn [snd].
  destruct Ht as ((Hw & Hh & He) & Hs & Hr).
  destruct (t_ready t); [|by eexists]. cbn [negb]. destruct (t_raw t) as [raw|]; [|by eexists].
  rewrite !(as_u_id 32) by (red; lia). destruct (destride_fits raw w h stride Hw Hh Hs Hr) as (p & -> & Hp).
  eexists. split; [done|]. split; [by split_and!; lia || apply He|by left].
Qed.

Lemma to_wire_fits codec pixels w h :
  pixels_fit codec pixels w h ->
  exists wire, to_wire codec pixels w h = Ok wire /\ len wire = raw_frame_bytes codec w h.
Proof.
  intros ((Hw & Hh & He) & Hl). unfold to_wire, raw_frame_bytes.
  destruct (needs_nv12 codec); cbn [negb].
  2: { exists pixels. split; [done|]. by destruct Hl as [|[? _]]. }
  destruct (He eq_refl) as [Ew Eh].
  assert (A : w = 2 * (w / 2)) by (pose proof (Z.div_mod w 2); lia).
  assert (B : h = 2 * (h / 2)) by (pose proof (Z.div_mod h 2); lia).
  set (a := w / 2) in *. set (b := h / 2) in *.
  assert (C : (w + 1) / 2 = a) by (rewrite A; replace (2 * a + 1) with (1 + a * 2) by lia; by rewrite Z.div_add by lia).
  assert (D : (h + 1) / 2 = b) by (rewrite B; replace (2 * b + 1) with (1 + b * 2) by lia; by rewrite Z.div_add by lia).
  assert (N : 0 < a * b < 2 ^ 30) by nia.
  rewrite C, D. rewrite !usize_id by (rewrite ?usize_id; nia).
  assert (Q : w * h * 3 / 2 = 6 * a * b).
  { rewrite A, B. replace (2 * a * (2 * b) * 3) with (6 * a * b * 2) by lia. by rewrite Z.div_mul. }
  rewrite Q. destruct (len pixels =? 6 * a * b) eqn:E1; boolz.
  { exists pixels. split; [done|]. nia. }
  destruct Hl as [Hl|[_ Hl]]; [|exfalso; nia].
  rewrite (proj2 (Z.eqb_eq _ _)) by lia. rewrite bgra_to_nv12_ok by (done || nia).
  eexists. split; [done|]. unfold len. rewrite length_app, Nat2Z.inj_add. fold (len (luma_plane pixels w h)).
  fold (len (chroma_plane pixels w h)). rewrite length_luma_plane, length_chroma_plane by (done || lia).
  fold b. nia.
Qed.

Definition feed_ok (codec : RecordingCodec) (w h : Z) (f : Feed) : Prop :=
  Forall (fun fr => len fr = raw_frame_bytes codec w h) (fd_sent f) /\
  fd_frames f = Z.of_nat (length (fd_sent f)).

Definition loop_feed (e : loop_end) : Feed := match e with LoopEnds f | LoopBlocked f => f end.

Lemma feed_loop_ok writes codec paced w h ts : forall f,
  Forall (turn_fits codec) ts -> feed_ok codec w h f ->
  (paced = true -> len (fd_last f) = raw_frame_bytes codec w h) ->
  Z.of_nat (length (fd_sent f)) + Z.of_nat (length ts) < 2 ^ 64 ->
  exists r, feed_loop writes codec paced w h ts f = Ok r /\
    match r with Some e => feed_ok codec w h (loop_feed e) /\ fd_argv (loop_feed e) = fd_argv f | None => True end.
Proof.
  induction ts as [|t ts IH]; intros f Ht Hf Hp Hn; cbn [feed_loop]; [by eexists|].
  inversion Ht as [|? ? Ht0 Ht']; subst. cbn [length] in Hn.
  destruct (t_stop t); [by eexists|]. destruct (t_stopped t); [by eexists|].
  assert (F : exists p, turn_frame codec paced w h t f = Ok p /\
    match p with
    | Some (wire, fw, fh) => (fw =? w) && (fh =? h) = true -> len wire = raw_frame_bytes codec w h
    | None => True
    end).
  { unfold turn_frame. destruct (t_task t) as [task|] eqn:Et.
    - destruct (read_task_fits codec t task Ht0 Et) as (p & -> & Hpx). destruct p as [[[px fw] fh]|]; [|by eexists].
      destruct (to_wire_fits codec px fw fh Hpx) as (wire & -> & Hw). eexists. split; [done|]. cbn.
      intros K. boolz. by subst.
    - destruct paced; [|by eexists]. eexists. split; [done|]. cbn. intros _. by apply Hp. }
  destruct F as (p & -> & Hw). destruct p as [[[wire fw] fh]|]; [|apply IH; [done..|lia]].
  destruct ((fw =? w) && (fh =? h)); cbn [negb]; [|by eexists]. specialize (Hw eq_refl).
  unfold send_frame. destruct Hf as [Hf1 Hf2].
  assert (S0 : forall (b : bool) g, (if b then g <| fd_last := wire |> else g) = g <| fd_last := if b then wire else fd_last g |>).
  { intros [] []; done. }
  rewrite S0. set (g := f <| fd_last := _ |>). cbv zeta.
  destruct (channel_send _ _ _) as [wr [[]|]]; [|by eexists|by eexists].
  destruct (IH (g <| fd_writer := wr |> <| fd_sent ::= (fun l => l ++ [wire]) |> <| fd_frames ::= (fun n => as_u 64 (n + 1)) |>)) as (r & Er & Hr).
  - done.
  - split; cbn; [by apply Forall_app; split; [|constructor]|].
    rewrite Hf2, as_u_id by (red; lia). rewrite length_app. cbn. lia.
  - cbn. by intros ->.
  - cbn. rewrite length_app. cbn. lia.
  - exists r. split; [done|]. by destruct r.
Qed.

Lemma argv_ok kbps codec size path :
  codec_for_ffmpeg codec = true ->
  exists pre post, build_ffmpeg_argv kbps codec size path =
    Ok (pre ++ ["-pixel_format"; input_pix_fmt codec; "-video_size"; size] ++ post ++ [path]).
Proof.
  intros Hc. unfold build_ffmpeg_argv.
  assert (E : exists args, codec_args kbps codec size = Ok args) by (destruct codec; first [done|by eexists]).
  destruct E as [args ->].
  exists (["-y"; "-hide_banner"] ++
          (match codec with H264Vaapi => ["-vaapi_device"; "/dev/dri/renderD128"] | _ => [] end) ++ ["-f"; "rawvideo"]),
    (["-framerate"; "240"; "-use_wallclock_as_timestamps"; "1"; "-i"; "pipe:0"] ++ args ++ ["-vsync"; "vfr"; "-an"]).
  f_equal. rewrite <- !app_assoc. done.
Qed.

(** recording through ffmpeg never panics for the four codecs that use it, and the
    stream stays aligned: whatever the tasks are and however the thread ends, ffmpeg was
    told the size and pixel format of the first frame, and every frame it was sent
    has exactly the bytes it reads for a frame of that format and size, including
    frames that were NV12 already, frames converted on the way and repeated ones.
    (Sizes are even for the codecs that take NV12.) *)
Theorem ffmpeg_fed_whole_frames writes exits kbps codec path min_fps began spawned ts :
  codec_for_ffmpeg codec = true -> Forall (turn_fits codec) ts -> Z.of_nat (length ts) < 2 ^ 64 - 1 ->
  exists r, recording_thread writes exits kbps codec path min_fps began spawned ts = Ok r /\
    forall f, r = Some (Fed f) \/ (exists at_, r = Some (Hung f at_)) -> exists w h pre post,
      fd_argv f = pre ++ ["-pixel_format"; input_pix_fmt codec; "-video_size"; size_string w h] ++ post ++ [path] /\
      Forall (fun fr => len fr = raw_frame_bytes codec w h) (fd_sent f) /\
      fd_frames f = Z.of_nat (length (fd_sent f)).
Proof.
  intros Hc Ht Hn. unfold recording_thread.
  assert (W : exists p, wait_pixels (began + FIRST_FRAME_TIMEOUT) ts = Ok p /\
    match p with
    | FirstFrame px w h rest => pixels_fit codec px w h /\ Forall (turn_fits codec) rest /\ (length rest < length ts)%nat
    | _ => True
    end).
  { clear Hn. induction ts as [|t ts IH]; [by eexists|]. inversion Ht as [|? ? Ht0 Ht']; subst. cbn [wait_pixels].
    destruct (t_stop t); [by eexists|]. destruct (_ <=? t_head t); [by eexists|].
    assert (N : exists p, wait_pixels (began + FIRST_FRAME_TIMEOUT) ts = Ok p /\
      match p with
      | FirstFrame px w h rest => pixels_fit codec px w h /\ Forall (turn_fits codec) rest /\ (length rest < length (t :: ts))%nat
      | _ => True
      end).
    { destruct (IH Ht') as (p & E & Hp). exists p. split; [done|]. destruct p; try done. cbn. naive_solver lia. }
    destruct (t_task t) as [task|] eqn:Et; [|done].
    destruct (read_task_fits codec t task Ht0 Et) as (p & -> & Hp). destruct p as [[[px w] h]|]; [|done].
    eexists. split; [done|]. cbn. auto. }
  assert (N : forall o : option feeding, (forall f, o <> Some (Fed f)) -> (forall f a, o <> Some (Hung f a)) ->
    forall (P : Feed -> Prop) f, o = Some (Fed f) \/ (exists at_, o = Some (Hung f at_)) -> P f) by naive_solver.
  destruct W as (p & -> & Hp). destruct p as [| |px w h rest]; [eexists; split; [done|]; by apply N..|].
  destruct Hp as (Hpx & Hr & Hlen).
  destruct (argv_ok kbps codec (size_string w h) path Hc) as (pre & post & ->).
  destruct spawned; [|eexists; split; [done|]; by apply N]. cbn [negb].
  destruct (to_wire_fits codec px w h Hpx) as (wire & -> & Hw).
  cbn [fd_writer]. rewrite first_send.
  match goal with |- context [feed_loop _ _ ?pc _ _ _ ?g] =>
    destruct (feed_loop_ok writes codec pc w h rest g) as (r & Er & Hf) end.
  - done.
  - split; cbn; [by constructor|done].
  - cbn. by intros ->.
  - cbn. lia.
  - rewrite Er. eexists. split; [done|]. intros f E. destruct r as [e|]; [|cbn in E; naive_solver].
    assert (G : fd_sent f = fd_sent (loop_feed e) /\ fd_frames f = fd_frames (loop_feed e) /\ fd_argv f = fd_argv (loop_feed e)).
    { destruct e as [g|g]; cbn in E |- *; [|destruct E as [E|[? E]]; by simplify_eq].
      unfold shutdown_feed in E. destruct (join_writer writes (fd_writer g)) as [wr []]; cbn in E;
        [destruct exits|]; (destruct E as [E|[? E]]; by simplify_eq). }
    destruct G as (G1 & G2 & G3). destruct Hf as [[F1 F2] Fa]. exists w, h, pre, post. by rewrite G1, G2, G3, Fa.
Qed.

Lemma shutdown_first writes f px : fd_writer f = first_writer px -> writes 0%nat <> None ->
  exists f', shutdown_feed writes true f = Fed f' /\ fd_sent f' = fd_sent f.
Proof.
  intros E Hw. unfold shutdown_feed, join_writer. rewrite E. cbn. unfold write_returns. cbn.
  destruct (writes 0%nat) as [[]|]; [by eexists..|done].
Qed.

(** The first readable frame decides, even when it is a placeholder: when a second
    frame of another size follows, the thread has ended there, with the one frame of
    the first size in its stream, provided the write of it returns and ffmpeg exits. (The Vulkan threads wait for a frame of at least 32
    by 32.) *)
Theorem first_size_ends_ffmpeg writes kbps codec path min_fps began t1 t2 rest px1 w1 h1 px2 w2 h2 :
  codec_for_ffmpeg codec = true -> needs_nv12 codec = false ->
  t_stop t1 = false -> t_head t1 < began + FIRST_FRAME_TIMEOUT -> t_task t1 = Some (TaskPixels px1 w1 h1) ->
  t_stop t2 = false -> t_stopped t2 = false -> t_task t2 = Some (TaskPixels px2 w2 h2) ->
  (w1, h1) <> (w2, h2) -> writes 0%nat <> None ->
  exists f, recording_thread writes true kbps codec path min_fps began true (t1 :: t2 :: rest) = Ok (Some (Fed f)) /\
    fd_sent f = [px1] /\
    (too_small w1 h1 = true ->
     forall ok, wait_first ok (began + FIRST_FRAME_TIMEOUT) (t1 :: t2 :: rest) =
                wait_first ok (began + FIRST_FRAME_TIMEOUT) (t2 :: rest)).
Proof.
  intros Hc Hv S1 D1 T1 S2 P2 T2 Hd Hw. unfold recording_thread. cbn [wait_pixels].
  rewrite S1, T1, (proj2 (Z.leb_gt _ _)) by lia. cbn [read_task].
  destruct (argv_ok kbps codec (size_string w1 h1) path Hc) as (pre & post & ->). cbn [negb].
  unfold to_wire at 1. rewrite Hv. cbn [negb fd_writer]. rewrite first_send. cbn [feed_loop]. rewrite S2, P2. unfold turn_frame. rewrite T2.
  cbn [read_task]. unfold to_wire. rewrite Hv. cbn [negb].
  assert (E : (w2 =? w1) && (h2 =? h1) = false).
  { apply not_true_is_false. intros K. boolz. subst. done. }
  rewrite E. cbn [negb fmap option_fmap option_map].
  match goal with |- context [shutdown_feed writes true ?g] =>
    destruct (shutdown_first writes g px1 eq_refl Hw) as (f & -> & Hf) end.
  exists f. split; [done|]. split; [done|].
  intros Hs ok. cbn [wait_first]. by rewrite S1, T1, Hs, (proj2 (Z.leb_gt _ _)) by lia.
Qed.

(** A recording with the CUDA codec is accepted, when ffmpeg lists the encoder, and
    gets the ffmpeg thread, which panics at its first frame: the argument list has no
    entry for the codec. *)
Theorem cuda_recording_panics {CE : CtlEnv} writes exits kbps path min_fps began spawned ts px w h rest :
  ffmpeg_knows (encoder_name CudaNvenc) = Ok true ->
  wait_pixels (began + FIRST_FRAME_TIMEOUT) ts = Ok (FirstFrame px w h rest) ->
  probe_codec CudaNvenc = Ok () /\ thread_of CudaNvenc = FfmpegThread /\
  recording_thread writes exits kbps CudaNvenc path min_fps began spawned ts = Err Panics.
Proof.
  intros Hk Hw. unfold probe_codec. rewrite Hk. split; [done|]. split; [done|].
  unfold recording_thread. by rewrite Hw.
Qed.
End Feeding.

(** ** The bitrate *)

Lemma split_once_app (x : ascii) (a b : string) :
  (forall p q, a <> (p +:+ String x q)%string) -> split_once x (a +:+ String x b) = Some (a, b).
Proof.
  induction a as [|c a IH]; intros Ha.
  - change (split_once x (String x b) = Some (EmptyString, b)). cbn [split_once]. by rewrite bool_decide_eq_true_2.
  - change (split_once x (String c (a +:+ String x b)) = Some (String c a, b)). cbn [split_once].
    rewrite bool_decide_eq_false_2 by (intros ->; by apply (Ha EmptyString a)).
    rewrite IH; [done|]. intros p q ->. by apply (Ha (String c p) q).
Qed.

(** Without an override the bitrate asked of the hardware encoder grows with the
    number of pixels, 5000 kbit/s for 1080p, and stays between 2000 and 50000; the size
    is read back from the text that ffmpeg is given. *)
Theorem bitrate_in_range w h :
  in_u 32 w -> in_u 32 h -> w * h < 2 ^ 51 ->
  let b := bitrate_for_size None (size_string w h) in
  b = Z.min (Z.max (5000 * (w * h) / 2073600) 2000) 50000 /\ 2000 <= b <= 50000.
Proof.
  unfold in_u. intros Hw Hh Hp. cbv zeta. unfold bitrate_for_size, size_string. cbn [mbind option_bind].
  change ("x" +:+ pretty h)%string with (String "x" (pretty h)).
  rewrite split_once_app by (apply pretty_no_char; [done|lia]).
  rewrite !parse_pretty by lia. rewrite (as_u_id 64 (w * h)), (as_u_id 64 (5000 * (w * h))) by (red; nia).
  change (Z.max (1920 * 1080) 1) with 2073600. rewrite as_u_id by (red; lia). lia.
Qed.

(** ** Runs *)

Definition no_packets : PacketEncoder := {|
  pe_state := unit;
  pe_open := fun w h => Some ();
  pe_track := fun _ => (64, 48, [2]);
  pe_codec_id := "V_FFV1";
  pe_import := fun _ => None;
  pe_upload := fun _ => None;
  pe_encode := fun _ us s => (s, Ok [{| pk_data := [us]; pk_pts_us := us; pk_key := true |}]);
  pe_flush := fun s => (s, Ok []);
|}.

(** Every write succeeds. *)
Definition all_written : nat -> option bool := fun _ => Some true.

Lemma recorders_stop_witness :
  @vulkan_recording_thread flat_dmabufs file _ _ counting_encoder None 0 0 0 (Some (new_file None))
    (first_turns ++ later_turns) <> Ok None /\
  @ffv1_vulkan_recording_thread flat_dmabufs file _ _ no_packets None 0 0 0 (Some (new_file None))
    (first_turns ++ later_turns) <> Ok None /\
  match @recording_thread flat_dmabufs all_written true None Ffv1 "a.mkv" None 0 true (first_turns ++ later_turns) with
  | Ok None => False
  | Ok (Some r) => feed_result all_written true r
  | Err _ => True
  end.
Proof.
  destruct (@recorders_stop flat_dmabufs file _ _ counting_encoder no_packets None 0 0 0 (Some (new_file None)) None
    Ffv1 "a.mkv" all_written true true (first_turns ++ later_turns)) as (H1 & _ & H3 & _ & H5).
  - do 6 apply Exists_cons_tl. by apply Exists_cons_hd.
  - split; [exact H1|split; [exact H3|exact H5]].
Defined.

Lemma paced_recording_rate_witness : exists r frames,
  @vulkan_recording_thread flat_dmabufs file _ _ counting_encoder (Some 30) 0 20000000 21000000 (Some (new_file None))
    (first_turns ++ later_turns) = Ok (Some (Finished r frames)) /\ frames <= 40.
Proof.
  destruct (@vulkan_recording_thread flat_dmabufs file _ _ counting_encoder (Some 30) 0 20000000 21000000
    (Some (new_file None)) (first_turns ++ later_turns)) as [[[|r frames]|]|] eqn:E; try (vm_compute in E; discriminate).
  exists r, frames. split; [reflexivity|].
  refine (@paced_recording_rate flat_dmabufs file _ _ counting_encoder 30 0 20000000 21000000 20000000
    (Some (new_file None)) (first_turns ++ later_turns) (FirstPixels [5; 5; 5; 5]) 64 48 later_turns (stop_turn 1300)
    r frames _ _ _ _ E).
  - lia.
  - reflexivity.
  - clock.
  - reflexivity.
Defined.

Definition small_turns : list Turn :=
  [a_turn (Some (TaskPixels (replicate 16 1) 2 2)) 10; a_turn (Some (TaskPixels (replicate 6 2) 2 2)) 30;
   a_turn None 50; stop_turn 90].

Lemma ffmpeg_fed_whole_frames_witness :
  exists f, @recording_thread flat_dmabufs all_written true None H264Nvenc "a.mkv" (Some 30) 0 true small_turns = Ok (Some (Fed f)) /\
    fd_frames f = 3 /\ Forall (fun fr => len fr = 6) (fd_sent f) /\ fd_frames f = Z.of_nat (length (fd_sent f)).
Proof.
  destruct (@ffmpeg_fed_whole_frames flat_dmabufs all_written true None H264Nvenc "a.mkv" (Some 30) 0 true small_turns) as (r & E & Hr).
  - reflexivity.
  - assert (D : dims_fit H264Nvenc 2 2) by (unfold dims_fit; split_and!; done).
    apply Forall_cons_2. { split; [exact D|left; reflexivity]. }
    apply Forall_cons_2. { split; [exact D|right; split; reflexivity]. }
    apply Forall_cons_2. { exact I. }
    apply Forall_cons_2. { exact I. }
    apply Forall_nil_2.
  - cbn. lia.
  - destruct r as [[|f|f at_]|]; try (vm_compute in E; discriminate). exists f. split; [exact E|].
    vm_compute in E. injection E as <-. destruct (Hr _ (or_introl eq_refl)) as (w & h & pre & post & _ & _ & H3).
    split; [reflexivity|]. split; [repeat constructor|exact H3].
Defined.

Lemma first_size_ends_ffmpeg_witness :
  exists f, @recording_thread flat_dmabufs all_written true None Ffv1 "a.mkv" None 0 true (first_turns ++ later_turns) = Ok (Some (Fed f)) /\
    fd_sent f = [[0; 0; 0; 0]].
Proof.
  destruct (@first_size_ends_ffmpeg flat_dmabufs all_written None Ffv1 "a.mkv" None 0
    (a_turn (Some (TaskPixels [0; 0; 0; 0] 1 1)) 0) (a_turn (Some (TaskPixels [5; 5; 5; 5] 64 48)) 10) later_turns
    [0; 0; 0; 0] 1 1 [5; 5; 5; 5] 64 48) as (f & E & Es & _); try reflexivity.
  - discriminate.
  - discriminate.
  - exists f. split; [exact E|exact Es].
Defined.

Lemma cuda_recording_panics_witness :
  @recording_thread flat_dmabufs all_written true None CudaNvenc "a.mkv" None 0 true (first_turns ++ later_turns) = Err Panics.
Proof.
  refine (proj2 (proj2 (@cuda_recording_panics flat_dmabufs demo_ctl all_written true None "a.mkv" None 0 true
    (first_turns ++ later_turns) [0; 0; 0; 0] 1 1 (tail first_turns ++ later_turns) _ _))); reflexivity.
Defined.

(** An ffmpeg that stops reading, or that does not exit: the thread is stuck in its send, in
    the join of the writer or in the wait for the process, although the flag was raised. *)
Definition some_frames (n : nat) : list Turn :=
  replicate n (a_turn (Some (TaskPixels (replicate 16 1) 2 2)) 10) ++ [stop_turn 90].

Example stuck_ffmpeg_hangs :
  let r writes exits n :=
    match @recording_thread flat_dmabufs writes exits None Ffv1 "a.mkv" None 0 true (some_frames n) with
    | Ok (Some (Hung f at_)) => Some (at_, fd_frames f)
    | _ => None
    end in
  r (fun _ => None) true 4%nat = Some (InSend, 3) /\ r (fun _ => None) true 3%nat = Some (InJoin, 3) /\
  r all_written false 3%nat = Some (InWait, 3) /\ r all_written true 3%nat = None.
Proof. vm_compute. repeat split. Qed.

Lemma bitrate_in_range_witness :
  bitrate_for_size None (size_string 3840 2160) = 20000 /\
  2000 <= bitrate_for_size None (size_string 3840 2160) <= 50000.
Proof.
  destruct (bitrate_in_range 3840 2160) as [E B]; [unfold in_u; lia..|lia|].
  split; [rewrite E; reflexivity|exact B].
Defined.
