(* ===== verification/AnnexB.v ===== *)
(** * Annex-B streams ([crates/waymux-session/src/viewer/encoder.rs])

    The splitter of an Annex-B byte stream and the thread that reads ffmpeg's output,
    cuts its NAL units into frames and writes them to the viewer's socket. *)

From Stdlib Require Import ZArith Lia.
From stdpp Require Import prelude list.
From S2P Require Import Prelude Words Io ViewerProtocol.

Open Scope Z_scope.

Import Viewer.

(** ** The splitter *)

Abbreviation at_ buf i := (nth i buf 0).

Fixpoint find_loop (fuel i : nat) (buf : list Z) : option nat :=
  match fuel with
  | O => None
  | S fuel =>
      if (at_ buf i =? 1) && (at_ buf (i - 1) =? 0) && (at_ buf (i - 2) =? 0) then Some i
      else find_loop fuel (S i) buf
  end.

(** [find_annex_b_one] *)
Definition find_annex_b_one (buf : list Z) (from : nat) : option nat :=
  let i := Nat.max from 2 in find_loop (length buf - i) i buf.

(** The walk back over the zeros that belong to the next start code. *)
Fixpoint strip_zeros (buf : list Z) (body_start body_end : nat) : nat :=
  match body_end with
  | O => O
  | S m => if (body_start <? S m)%nat && (at_ buf m =? 0) then strip_zeros buf body_start m else S m
  end.

(** [next_annex_b_nalu] *)
Definition next_annex_b_nalu (buf : list Z) : option (list Z * nat) :=
  match find_annex_b_one buf 0 with
  | None => None
  | Some first_one =>
      let body_start := S first_one in
      match find_annex_b_one buf body_start with
      | None => None
      | Some next_one =>
          let body_end := strip_zeros buf body_start next_one in
          Some (take (body_end - body_start) (drop body_start buf), body_end)
      end
  end.

(** ** The reader of ffmpeg's output *)

Definition START_CODE : list Z := [0; 0; 0; 1].

Definition is_vcl (nalu : list Z) : bool :=
  let nal_type := Z.land (at_ nalu 0) 31 in (1 <=? nal_type) && (nal_type <=? 5).

Section Parser.
Context {W : Type} `{Write W}.

Record Parser := {
  ps_buf : list Z;
  ps_pending : list Z;   (* the access unit under construction *)
  ps_vcl : bool;         (* whether it has its slice *)
  ps_w : W;
}.

(** One NAL unit; an error is a socket that cannot be written to. *)
Definition take_nalu (nalu : list Z) (s : Parser) : result Parser W :=
  match nalu with
  | [] => Ok s
  | _ =>
      let? s :=
        if ps_vcl s then
          match write_frame (Nalu (ps_pending s)) (ps_w s) with
          | (w, Ok _) => Ok {| ps_buf := ps_buf s; ps_pending := []; ps_vcl := false; ps_w := w |}
          | (w, Err _) => Err w
          end
        else Ok s in
      Ok {| ps_buf := ps_buf s; ps_pending := ps_pending s ++ START_CODE ++ nalu;
            ps_vcl := is_vcl nalu || ps_vcl s; ps_w := ps_w s |}
  end.

Definition set_buf (buf : list Z) (s : Parser) : Parser :=
  {| ps_buf := buf; ps_pending := ps_pending s; ps_vcl := ps_vcl s; ps_w := ps_w s |}.

(** [while let Some(..) = next_annex_b_nalu(&buf)] *)
Fixpoint split_loop (fuel : nat) (s : Parser) : result Parser W :=
  match fuel with
  | O => Ok s
  | S fuel =>
      match next_annex_b_nalu (ps_buf s) with
      | None => Ok s
      | Some (nalu, consumed) =>
          let? s' := take_nalu nalu s in
          split_loop fuel (set_buf (drop consumed (ps_buf s)) s')
      end
  end.

(** A read that gave some bytes. *)
Definition on_chunk (chunk : list Z) (s : Parser) : result Parser W :=
  let s := set_buf (ps_buf s ++ chunk) s in
  split_loop (length (ps_buf s)) s.

(** The end of the thread: what is complete is still sent. *)
Definition parser_end (s : Parser) : W :=
  if ps_vcl s && negb (bool_decide (ps_pending s = []))
  then (write_frame (Nalu (ps_pending s)) (ps_w s)).1
  else ps_w s.

(** The stop flag before a read, and what the read gives; an empty read is the end of
    the stream. *)
Record Read := { r_stop : bool; r_data : result (list Z) io_kind }.

(** The writer at the end and whether the thread raised the stop flag; [None] when it
    is still running. *)
Fixpoint parser_thread (rs : list Read) (s : Parser) : option (W * bool) :=
  match rs with
  | [] => None
  | r :: rs =>
      if r_stop r then Some (parser_end s, false)
      else
        match r_data r with
        | Err _ => Some (parser_end s, false)
        | Ok [] => Some (parser_end s, false)
        | Ok chunk =>
            match on_chunk chunk s with
            | Err w => Some (w, true)
            | Ok s => parser_thread rs s
            end
        end
  end.

Definition parser_start (w : W) : Parser := {| ps_buf := []; ps_pending := []; ps_vcl := false; ps_w := w |}.
End Parser.

(** ** The splitter finds start codes *)

Definition code_at (buf : list Z) (i : nat) : bool :=
  (at_ buf i =? 1) && (at_ buf (i - 1) =? 0) && (at_ buf (i - 2) =? 0).

Lemma find_loop_spec fuel buf : forall i,
  match find_loop fuel i buf with
  | Some k => (i <= k < i + fuel)%nat /\ code_at buf k = true /\ forall j, (i <= j < k)%nat -> code_at buf j = false
  | None => forall j, (i <= j < i + fuel)%nat -> code_at buf j = false
  end.
Proof.
  induction fuel as [|fuel IH]; intros i; cbn [find_loop]; [intros; lia|].
  fold (code_at buf i). destruct (code_at buf i) eqn:E.
  - split; [lia|]. split; [done|]. intros; lia.
  - specialize (IH (S i)). destruct (find_loop fuel (S i) buf) as [k|].
    + destruct IH as (H1 & H2 & H3). split; [lia|]. split; [done|].
      intros j Hj. destruct (decide (j = i)) as [->|]; [done|apply H3; lia].
    + intros j Hj. destruct (decide (j = i)) as [->|]; [done|apply IH; lia].
Qed.

Lemma find_loop_some fuel buf i k :
  (i <= k < i + fuel)%nat -> code_at buf k = true -> (forall j, (i <= j < k)%nat -> code_at buf j = false) ->
  find_loop fuel i buf = Some k.
Proof.
  intros Hk Hc Hn. pose proof (find_loop_spec fuel buf i) as S. destruct (find_loop fuel i buf) as [m|].
  - destruct S as (H1 & H2 & H3). f_equal.
    destruct (Nat.lt_trichotomy m k) as [L|[->|L]]; [|done|].
    + rewrite Hn in H2 by lia. done.
    + rewrite H3 in Hc by lia. done.
  - rewrite S in Hc by lia. done.
Qed.

Lemma find_one_spec buf from :
  match find_annex_b_one buf from with
  | Some k => (Nat.max from 2 <= k < length buf)%nat /\ code_at buf k = true /\
              forall j, (Nat.max from 2 <= j < k)%nat -> code_at buf j = false
  | None => forall j, (Nat.max from 2 <= j < length buf)%nat -> code_at buf j = false
  end.
Proof.
  unfold find_annex_b_one. pose proof (find_loop_spec (length buf - Nat.max from 2) buf (Nat.max from 2)) as S.
  destruct find_loop as [k|].
  - destruct S as (H1 & H2 & H3). split; [lia|done].
  - intros j Hj. apply S. lia.
Qed.

Lemma find_one_some buf from k :
  (Nat.max from 2 <= k < length buf)%nat -> code_at buf k = true ->
  (forall j, (Nat.max from 2 <= j < k)%nat -> code_at buf j = false) -> find_annex_b_one buf from = Some k.
Proof. intros. apply find_loop_some; [lia|done..]. Qed.

Lemma at_app1 buf more i : (i < length buf)%nat -> at_ (buf ++ more) i = at_ buf i.
Proof. apply app_nth1. Qed.

Lemma code_at_app buf more i : (2 <= i < length buf)%nat -> code_at (buf ++ more) i = code_at buf i.
Proof. intros. unfold code_at. by rewrite !at_app1 by lia. Qed.

Lemma find_one_app buf more from k :
  find_annex_b_one buf from = Some k -> find_annex_b_one (buf ++ more) from = Some k.
Proof.
  intros E. pose proof (find_one_spec buf from) as S. rewrite E in S. destruct S as (H1 & H2 & H3).
  apply find_one_some.
  - rewrite length_app. lia.
  - by rewrite code_at_app by lia.
  - intros j Hj. rewrite code_at_app by lia. by apply H3.
Qed.

Lemma strip_zeros_range buf a b : (a <= b)%nat -> (a <= strip_zeros buf a b <= b)%nat.
Proof.
  induction b as [|b IH]; intros Hab; cbn [strip_zeros]; [lia|].
  destruct (a <? S b)%nat eqn:E; cbn [andb]; [|lia]. apply Nat.ltb_lt in E.
  destruct (at_ buf b =? 0); [specialize (IH ltac:(lia)); lia|lia].
Qed.

Lemma strip_zeros_app buf more a b :
  (b <= length buf)%nat -> strip_zeros (buf ++ more) a b = strip_zeros buf a b.
Proof.
  induction b as [|b IH]; intros Hb; cbn [strip_zeros]; [done|].
  rewrite at_app1 by lia. by rewrite IH by lia.
Qed.

Lemma next_range buf nalu c :
  next_annex_b_nalu buf = Some (nalu, c) -> (3 <= c <= length buf)%nat.
Proof.
  unfold next_annex_b_nalu. intros E.
  pose proof (find_one_spec buf 0) as S1. destruct (find_annex_b_one buf 0) as [k|]; [|done].
  pose proof (find_one_spec buf (S k)) as S2. destruct (find_annex_b_one buf (S k)) as [m|]; [|done].
  destruct S1 as ((A & _) & _), S2 as ((B & C) & _). simplify_eq.
  pose proof (strip_zeros_range buf (S k) m). lia.
Qed.

(** What has been found stays found when more bytes arrive. *)
Lemma next_app buf more r :
  next_annex_b_nalu buf = Some r -> next_annex_b_nalu (buf ++ more) = Some r.
Proof.
  unfold next_annex_b_nalu. intros E.
  destruct (find_annex_b_one buf 0) as [k|] eqn:E1; [|done]. rewrite (find_one_app _ more _ _ E1).
  pose proof (find_one_spec buf (S k)) as S2.
  destruct (find_annex_b_one buf (S k)) as [m|] eqn:E2; [|done]. rewrite (find_one_app _ more _ _ E2).
  destruct S2 as ((B & C) & _). pose proof (strip_zeros_range buf (S k) m).
  rewrite strip_zeros_app by lia. rewrite <- E, (drop_app_le buf), (take_app_le (drop _ buf)) by (rewrite ?length_drop; lia).
  done.
Qed.

Section ParserProps.
Context {W : Type} `{Write W}.

Lemma take_nalu_buf nalu (s s' : Parser (W:=W)) : take_nalu nalu s = Ok s' -> ps_buf s' = ps_buf s.
Proof.
  unfold take_nalu. destruct nalu; [by intros [= ->]|].
  destruct (ps_vcl s); [destruct write_frame as [w []]|]; intros; by simplify_eq.
Qed.

(** A NAL unit does not depend on what is left in the buffer. *)
Lemma take_nalu_set nalu buf (s : Parser (W:=W)) :
  take_nalu nalu (set_buf buf s) = (let? s' := take_nalu nalu s in Ok (set_buf buf s')).
Proof.
  unfold take_nalu. destruct nalu; [done|]. cbn [ps_vcl set_buf ps_pending ps_w].
  destruct (ps_vcl s); [destruct write_frame as [w []]|]; done.
Qed.

Lemma set_set (a b : list Z) (s : Parser (W:=W)) : set_buf a (set_buf b s) = set_buf a s.
Proof. done. Qed.

Lemma set_same (s : Parser (W:=W)) : set_buf (ps_buf s) s = s.
Proof. by destruct s. Qed.

(** More fuel than bytes changes nothing. *)
Lemma split_loop_fuel n : forall m (s : Parser (W:=W)),
  (length (ps_buf s) <= n)%nat -> (length (ps_buf s) <= m)%nat -> split_loop n s = split_loop m s.
Proof.
  induction n as [|n IH]; intros m s Hn Hm.
  - destruct (ps_buf s) eqn:E; [|cbn in Hn; lia]. destruct m; [done|]. cbn [split_loop]. by rewrite E.
  - destruct m as [|m].
    { destruct (ps_buf s) eqn:E; [|cbn in Hm; lia]. cbn [split_loop]. by rewrite E. }
    cbn [split_loop]. destruct (next_annex_b_nalu (ps_buf s)) as [[nalu c]|] eqn:E; [|done].
    destruct (take_nalu nalu s); [|done]. apply next_range in E. apply IH; cbn [ps_buf set_buf]; rewrite length_drop; lia.
Qed.

Definition split_all (s : Parser (W:=W)) : result Parser W := split_loop (length (ps_buf s)) s.

Lemma split_all_step (s : Parser (W:=W)) nalu c :
  next_annex_b_nalu (ps_buf s) = Some (nalu, c) ->
  split_all s = (let? s' := take_nalu nalu s in split_all (set_buf (drop c (ps_buf s)) s')).
Proof.
  intros E. pose proof (next_range _ _ _ E) as R. unfold split_all.
  destruct (length (ps_buf s)) as [|n] eqn:El; [lia|]. cbn [split_loop]. rewrite E.
  destruct (take_nalu nalu s) as [s'|]; [|done]. apply split_loop_fuel; cbn [ps_buf set_buf]; rewrite length_drop; lia.
Qed.

Lemma split_all_none (s : Parser (W:=W)) : next_annex_b_nalu (ps_buf s) = None -> split_all s = Ok s.
Proof.
  intros E. unfold split_all. destruct (length (ps_buf s)); [done|]. cbn [split_loop]. by rewrite E.
Qed.

(** Splitting what is there and then the rest is splitting all of it. *)
Lemma split_all_app (s : Parser (W:=W)) more :
  split_all (set_buf (ps_buf s ++ more) s) =
  (let? s' := split_all s in split_all (set_buf (ps_buf s' ++ more) s')).
Proof.
  remember (length (ps_buf s)) as n eqn:Hn. revert s Hn.
  induction (lt_wf n) as [n _ IH]. intros s ->.
  destruct (next_annex_b_nalu (ps_buf s)) as [[nalu c]|] eqn:E.
  - rewrite (split_all_step s _ _ E). pose proof (next_range _ _ _ E) as R.
    rewrite (split_all_step (set_buf (ps_buf s ++ more) s) nalu c) by (cbn [ps_buf set_buf]; by apply next_app).
    rewrite take_nalu_set. destruct (take_nalu nalu s) as [s'|]; [|done]. cbn [ps_buf set_buf].
    rewrite set_set, drop_app_le by lia.
    specialize (IH (length (drop c (ps_buf s))) ltac:(rewrite length_drop; lia) (set_buf (drop c (ps_buf s)) s') eq_refl).
    cbn [ps_buf set_buf] in IH. rewrite set_set in IH. exact IH.
  - by rewrite (split_all_none s E).
Qed.

Lemma on_chunk_eq chunk (s : Parser (W:=W)) : on_chunk chunk s = split_all (set_buf (ps_buf s ++ chunk) s).
Proof. done. Qed.

Lemma on_chunk_app a b (s : Parser (W:=W)) :
  on_chunk (a ++ b) s = (let? s' := on_chunk a s in on_chunk b s').
Proof.
  rewrite !on_chunk_eq, app_assoc. pose proof (split_all_app (set_buf (ps_buf s ++ a) s) b) as E.
  cbn [ps_buf set_buf] in E. rewrite set_set in E. rewrite E. by destruct (split_all _).
Qed.

(** Reads that are not the end of the stream. *)
Definition chunks (cs : list (list Z)) : list Read :=
  (fun c => {| r_stop := false; r_data := Ok c |}) <$> cs.

Definition end_of_stream : Read := {| r_stop := false; r_data := Ok [] |}.

Lemma parser_chunks cs rest : Forall (fun c => c <> []) cs -> forall s : Parser (W:=W),
  next_annex_b_nalu (ps_buf s) = None ->
  parser_thread (chunks cs ++ rest) s =
  match on_chunk (concat cs) s with Ok s' => parser_thread rest s' | Err w => Some (w, true) end.
Proof.
  induction 1 as [|c cs Hc Hcs IH]; intros s Hn.
  - cbn [chunks fmap list_fmap app concat]. rewrite on_chunk_eq, app_nil_r, set_same. by rewrite split_all_none.
  - cbn [chunks fmap list_fmap app concat parser_thread r_stop r_data]. fold (chunks cs).
    rewrite on_chunk_app. destruct c as [|b c]; [done|].
    destruct (on_chunk (b :: c) s) as [s'|w] eqn:E; [|done]. apply IH.
    rewrite on_chunk_eq in E. revert E. set (s0 := set_buf _ s). clearbody s0. clear.
    remember (length (ps_buf s0)) as n eqn:Hn. revert s0 Hn. induction (lt_wf n) as [n _ IH]. intros s ->.
    destruct (next_annex_b_nalu (ps_buf s)) as [[nalu c]|] eqn:E.
    + rewrite (split_all_step s _ _ E). destruct (take_nalu nalu s) as [s1|]; [|done].
      pose proof (next_range _ _ _ E). eapply IH; [|reflexivity]. cbn [ps_buf set_buf]. rewrite length_drop. lia.
    + rewrite (split_all_none s E). by intros [= <-].
Qed.

(** How ffmpeg's output is cut into reads does not matter: for every stream of bytes
    and any two ways of reading it in non-empty pieces, with the same reads after, the
    thread ends the same way and has written the same to the socket. *)
Theorem chunking_irrelevant cs cs' rest (w : W) :
  Forall (fun c => c <> []) cs -> Forall (fun c => c <> []) cs' -> concat cs = concat cs' ->
  parser_thread (chunks cs ++ rest) (parser_start w) = parser_thread (chunks cs' ++ rest) (parser_start w).
Proof. intros H1 H2 E. rewrite !parser_chunks by done. by rewrite E. Qed.
End ParserProps.

(** ** Round trip *)

(** A NAL unit as an encoder writes it: not empty, no start code inside, no zero at its
    end. *)
Definition clean (n : list Z) : Prop :=
  n <> [] /\ last n <> Some 0 /\ forall i, (2 <= i < length n)%nat -> code_at n i = false.

(** Its bytes in the stream, behind a start code of [z] zeros and a one. *)
Definition framed (zn : nat * list Z) : list Z := replicate (fst zn) 0 ++ [1] ++ snd zn.

Definition stream (l : list (nat * list Z)) : list Z := concat (framed <$> l).

Definition framed_ok (zn : nat * list Z) : Prop := (2 <= fst zn)%nat /\ clean (snd zn).

Lemma at_zeros z rest i : (i < z)%nat -> at_ (replicate z 0 ++ rest) i = 0.
Proof.
  intros Hi. rewrite at_app1 by (by rewrite length_replicate). revert z Hi. induction i; intros [|z] Hi; try lia; [done|].
  cbn. apply IHi. lia.
Qed.

Lemma at_after a rest i : at_ (a ++ rest) (length a + i) = at_ rest i.
Proof. rewrite app_nth2 by lia. f_equal. lia. Qed.

(** Where the first start code of a framed unit is, and no other before its end. *)
Lemma framed_codes z n rest i :
  (2 <= z)%nat -> clean n -> (2 <= i < z + 1 + length n)%nat ->
  code_at (framed (z, n) ++ rest) i = bool_decide (i = z).
Proof.
  intros Hz (Hn & Hl & Hc) Hi. unfold framed. cbn [fst snd].
  set (b := (replicate z 0 ++ [1] ++ n) ++ rest).
  assert (B0 : forall j, (j < z)%nat -> at_ b j = 0).
  { intros j Hj. unfold b. rewrite <- app_assoc. by apply at_zeros. }
  assert (B1 : at_ b z = 1).
  { unfold b. rewrite <- app_assoc. pose proof (at_after (replicate z 0) (([1] ++ n) ++ rest) 0) as E.
    rewrite length_replicate, Nat.add_0_r in E. by rewrite E. }
  assert (B2 : forall j, (j < length n)%nat -> at_ b (z + 1 + j) = at_ n j).
  { intros j Hj. unfold b. rewrite <- app_assoc, <- app_assoc.
    pose proof (at_after (replicate z 0) ([1] ++ n ++ rest) (1 + j)) as E. rewrite length_replicate in E.
    replace (z + 1 + j)%nat with (z + (1 + j))%nat by lia. rewrite E. cbn. by apply at_app1. }
  unfold code_at. destruct (Nat.lt_trichotomy i z) as [L|[->|L]].
  - rewrite bool_decide_eq_false_2 by lia. by rewrite B0 by lia.
  - rewrite bool_decide_eq_true_2 by done. by rewrite B1, !B0 by lia.
  - rewrite bool_decide_eq_false_2 by lia. destruct (decide (i = z + 1)%nat) as [->|].
    { replace (z + 1 - 1)%nat with z by lia. rewrite B1. by rewrite andb_false_r. }
    destruct (decide (i = z + 2)%nat) as [->|].
    { replace (z + 2 - 2)%nat with z by lia. rewrite B1. by rewrite andb_false_r. }
    set (k := (i - z - 1)%nat). specialize (Hc k ltac:(lia)). unfold code_at in Hc.
    replace i with (z + 1 + k)%nat by lia. rewrite (B2 k) by lia.
    replace (z + 1 + k - 1)%nat with (z + 1 + (k - 1))%nat by lia. rewrite (B2 (k - 1)%nat) by lia.
    replace (z + 1 + k - 2)%nat with (z + 1 + (k - 2))%nat by lia. by rewrite (B2 (k - 2)%nat) by lia.
Qed.

Lemma framed_length z n : length (framed (z, n)) = (z + 1 + length n)%nat.
Proof. unfold framed. rewrite !length_app, length_replicate. cbn. lia. Qed.

Lemma find_first z n rest : (2 <= z)%nat -> clean n -> find_annex_b_one (framed (z, n) ++ rest) 0 = Some z.
Proof.
  intros Hz Hn. apply find_one_some.
  - rewrite length_app, framed_length. lia.
  - rewrite framed_codes by (done || (destruct Hn as [? _]; destruct n; [done|cbn; lia])). by apply bool_decide_eq_true_2.
  - intros j Hj. rewrite framed_codes by (done || lia). apply bool_decide_eq_false_2. lia.
Qed.

Lemma strip_zeros_to buf a e b :
  (a < e <= b)%nat -> (forall j, (e <= j < b)%nat -> at_ buf j = 0) -> at_ buf (e - 1) <> 0 ->
  strip_zeros buf a b = e.
Proof.
  induction b as [|b IH]; intros He Hz Hn; [lia|]. cbn [strip_zeros].
  destruct (decide (e = S b)) as [->|].
  - replace (S b - 1)%nat with b in Hn by lia. destruct (a <? S b)%nat; [|done].
    cbn [andb]. by rewrite (proj2 (Z.eqb_neq _ _)).
  - rewrite (proj2 (Nat.ltb_lt _ _)), Hz by lia. cbn [andb Z.eqb]. apply IH; [lia| |done]. intros j Hj. apply Hz. lia.
Qed.

Lemma last_at n : n <> [] -> last n = Some (at_ n (length n - 1)).
Proof.
  induction n as [|x n IH]; intros Hn; [done|]. destruct n as [|y n]; [done|].
  rewrite last_cons_cons, IH by done. cbn [length]. f_equal. cbn. by rewrite Nat.sub_0_r.
Qed.

(** A framed unit in front of another start code is the next one found. *)
Lemma next_framed z n z' rest :
  (2 <= z)%nat -> clean n -> (2 <= z')%nat ->
  next_annex_b_nalu (framed (z, n) ++ replicate z' 0 ++ [1] ++ rest) = Some (n, (z + 1 + length n)%nat).
Proof.
  intros Hz Hn Hz'. set (tail := replicate z' 0 ++ [1] ++ rest). set (e := (z + 1 + length n)%nat).
  assert (Len : length (framed (z, n)) = e) by apply framed_length.
  assert (T0 : forall j, (j < z')%nat -> at_ (framed (z, n) ++ tail) (e + j) = 0).
  { intros j Hj. rewrite <- Len, at_after. by apply at_zeros. }
  assert (T1 : at_ (framed (z, n) ++ tail) (e + z') = 1).
  { rewrite <- Len, at_after. unfold tail. pose proof (at_after (replicate z' 0) ([1] ++ rest) 0) as E.
    rewrite length_replicate, Nat.add_0_r in E. by rewrite E. }
  assert (Nl : (1 <= length n)%nat) by (destruct Hn as [? _]; destruct n; [done|cbn; lia]).
  unfold next_annex_b_nalu. rewrite find_first by done.
  assert (F : find_annex_b_one (framed (z, n) ++ tail) (S z) = Some (e + z')%nat).
  { apply find_one_some.
    - rewrite length_app, Len. unfold tail. rewrite !length_app, length_replicate. cbn. lia.
    - unfold code_at. rewrite T1. replace (e + z' - 1)%nat with (e + (z' - 1))%nat by lia.
      replace (e + z' - 2)%nat with (e + (z' - 2))%nat by lia. by rewrite !T0 by lia.
    - intros j Hj. destruct (decide (j < e)%nat).
      + rewrite framed_codes by (done || lia). apply bool_decide_eq_false_2. lia.
      + unfold code_at. replace j with (e + (j - e))%nat at 1 by lia. by rewrite T0 by lia. }
  rewrite F. rewrite (strip_zeros_to _ (S z) e).
  - replace (e - S z)%nat with (length n) by lia. unfold framed. cbn [fst snd].
    rewrite (assoc_L (++)), <- (assoc_L (++) _ n tail), drop_app_length' by (rewrite length_app, length_replicate; cbn; lia).
    by rewrite take_app_length.
  - lia.
  - intros j Hj. replace j with (e + (j - e))%nat by lia. apply T0. lia.
  - destruct Hn as (Hne & Hl & _). rewrite last_at in Hl by done. rewrite at_app1 by lia.
    unfold framed. cbn [fst snd]. pose proof (at_after (replicate z 0 ++ [1]) n (length n - 1)) as E.
    rewrite length_app, length_replicate in E. cbn [length] in E.
    replace (e - 1)%nat with (z + 1 + (length n - 1))%nat by lia. rewrite (assoc_L (++)), E. congruence.
Qed.

Lemma next_alone z n : (2 <= z)%nat -> clean n -> next_annex_b_nalu (framed (z, n)) = None.
Proof.
  intros Hz Hn. unfold next_annex_b_nalu.
  pose proof (find_first z n [] Hz Hn) as F. rewrite app_nil_r in F. rewrite F.
  pose proof (find_one_spec (framed (z, n)) (S z)) as Q.
  destruct (find_annex_b_one (framed (z, n)) (S z)) as [m|]; [|done].
  destruct Q as (H1 & H2 & _). rewrite framed_length in H1.
  pose proof (framed_codes z n [] m Hz Hn ltac:(lia)) as C. rewrite app_nil_r, H2 in C.
  symmetry in C. apply bool_decide_eq_true in C. lia.
Qed.

(** How the thread cuts a run of NAL units: behind every slice; and what is left. *)
Fixpoint cut_units (acc : list (list Z)) (ns : list (list Z)) : list (list (list Z)) * list (list Z) :=
  match ns with
  | [] => ([], acc)
  | n :: ns =>
      if is_vcl n then let '(us, t) := cut_units [] ns in ((acc ++ [n]) :: us, t)
      else cut_units (acc ++ [n]) ns
  end.

Definition unit_bytes (u : list (list Z)) : list Z := concat ((fun n => START_CODE ++ n) <$> u).

Lemma unit_bytes_app u v : unit_bytes (u ++ v) = unit_bytes u ++ unit_bytes v.
Proof. unfold unit_bytes. by rewrite fmap_app, concat_app. Qed.

Lemma stream_cons x l : stream (x :: l) = framed x ++ stream l.
Proof. done. Qed.

Lemma framed_eq z n : framed (z, n) = replicate z 0 ++ [1] ++ n.
Proof. done. Qed.

Section Roundtrip.
Context {W : Type} `{Write W}.

Fixpoint take_all (ns : list (list Z)) (s : Parser (W:=W)) : result Parser W :=
  match ns with
  | [] => Ok s
  | n :: ns => let? s' := take_nalu n s in take_all ns s'
  end.

(** The parser takes all units of a stream but the last. *)
Lemma split_stream l : forall x (s : Parser (W:=W)),
  Forall framed_ok (x :: l) -> ps_buf s = stream (x :: l) ->
  split_all s = (let? s' := take_all (removelast (snd <$> x :: l)) s in
                 Ok (set_buf (framed (default x (last l))) s')).
Proof.
  induction l as [|[z' n'] l IH]; intros [z n] s Hf Hb.
  - apply Forall_singleton in Hf as [Hz Hn]. cbn [fst snd] in *. cbn in Hb. rewrite app_nil_r in Hb.
    rewrite split_all_none by (rewrite Hb; by apply next_alone). cbn. by rewrite <- Hb, set_same.
  - apply Forall_cons in Hf as [[Hz Hn] Hf]. cbn [fst snd] in *.
    assert (E : ps_buf s = framed (z, n) ++ replicate z' 0 ++ [1] ++ n' ++ stream l).
    { by rewrite Hb, !stream_cons, (framed_eq z' n'), <- !app_assoc. }
    pose proof Hf as Hf'. apply Forall_cons in Hf' as [[Hz' _] _]. cbn [fst] in Hz'.
    rewrite (split_all_step s n (z + 1 + length n)%nat) by (rewrite E; by apply next_framed).
    change (removelast (snd <$> (z, n) :: (z', n') :: l)) with (n :: removelast (snd <$> (z', n') :: l)).
    cbn [take_all]. destruct (take_nalu n s) as [s'|] eqn:Et; [|done].
    rewrite (IH (z', n')); [|done|].
    2: { cbn [ps_buf set_buf]. rewrite E, drop_app_length' by (by rewrite framed_length).
         by rewrite stream_cons, (framed_eq z' n'), <- !app_assoc. }
    assert (S : forall ns buf (a : Parser (W:=W)),
      take_all ns (set_buf buf a) = (let? b := take_all ns a in Ok (set_buf buf b))).
    { clear. induction ns as [|m ns IH]; intros buf a; [done|]. cbn [take_all]. rewrite take_nalu_set.
      destruct (take_nalu m a); [apply IH|done]. }
    rewrite S. destruct (take_all _ s'); [|done]. rewrite set_set, last_cons. by destruct (last l).
Qed.

Definition sent (us : list (list (list Z))) : list Frame := (fun u => Nalu (unit_bytes u)) <$> us.

Lemma take_first n acc (s : Parser (W:=W)) :
  n <> [] -> ps_vcl s = false -> ps_pending s = unit_bytes acc ->
  take_nalu n s = Ok {| ps_buf := ps_buf s; ps_pending := unit_bytes (acc ++ [n]); ps_vcl := is_vcl n; ps_w := ps_w s |}.
Proof.
  intros Hn Hv Hp. unfold take_nalu. destruct n; [done|]. rewrite Hv. cbv iota. rewrite Hv, Hp, orb_false_r, unit_bytes_app.
  do 2 f_equal. unfold unit_bytes. cbn [fmap list_fmap concat]. by rewrite app_nil_r.
Qed.

(** A complete unit is written when the next one begins, an incomplete one grows; at
    the end everything complete has been written, in order. *)
Lemma take_all_units ns w' : Forall (fun n => n <> []) ns ->
  (forall acc (s : Parser (W:=W)), ps_vcl s = false -> ps_pending s = unit_bytes acc ->
     write_frames (sent (cut_units acc ns).1) (ps_w s) = (w', Ok ()) ->
     exists s', take_all ns s = Ok s' /\ parser_end s' = w') /\
  (forall u n (s : Parser (W:=W)), ps_vcl s = true -> ps_pending s = unit_bytes (u ++ [n]) ->
     write_frames (sent ((u ++ [n]) :: (cut_units [] ns).1)) (ps_w s) = (w', Ok ()) ->
     exists s', take_all ns s = Ok s' /\ parser_end s' = w').
Proof.
  induction 1 as [|n ns Hn _ [IHa IHb]]; split.
  - intros acc s Hv Hp E. exists s. split; [done|]. unfold parser_end. rewrite Hv. by injection E.
  - intros u n s Hv Hp E. exists s. split; [done|]. unfold parser_end. rewrite Hv, Hp, unit_bytes_app.
    rewrite bool_decide_eq_false_2 by (cbn; by destruct (unit_bytes u)). cbn [andb negb].
    cbn [cut_units fst] in E. unfold sent in E. cbn [fmap list_fmap write_frames] in E.
    rewrite unit_bytes_app in E. unfold mbind, eff_mbind in E. destruct write_frame as [w1 [[]|]]; [|done]. by injection E.
  - intros acc s Hv Hp E. cbn [take_all]. rewrite (take_first n acc s Hn Hv Hp). cbn [cut_units] in E.
    destruct (is_vcl n) eqn:Ev.
    + destruct (cut_units [] ns) as [us t] eqn:Eu. by eapply IHb.
    + by eapply IHa.
  - intros u m s Hv Hp E. unfold sent in E. cbn [fmap list_fmap write_frames] in E. unfold mbind, eff_mbind in E.
    destruct (write_frame (Nalu (unit_bytes (u ++ [m]))) (ps_w s)) as [w1 [[]|]] eqn:Ew; [|done].
    fold (sent (cut_units [] (n :: ns)).1) in E.
    set (s1 := {| ps_buf := ps_buf s; ps_pending := []; ps_vcl := false; ps_w := w1 |}).
    assert (T : take_nalu n s = take_nalu n s1).
    { unfold take_nalu. destruct n; [done|]. rewrite Hv, Hp, Ew. done. }
    cbn [take_all]. rewrite T, (take_first n [] s1 Hn eq_refl eq_refl). cbn [cut_units] in E.
    destruct (is_vcl n) eqn:Ev.
    + destruct (cut_units [] ns) as [us t] eqn:Eu. by eapply (IHb []).
    + by eapply IHa.
Qed.

(** ** Pictures

    The output of an H.264 encoder is a sequence of access units, one per coded picture:
    the NAL units before its first slice (delimiter, parameter sets, SEI), its slices, of
    which there can be several, and what may follow them (filler data, the end of a
    sequence). *)
Record picture := {
  pc_headers : list (list Z);
  pc_slice : list Z;
  pc_slices : list (list Z);     (* the slices after the first *)
  pc_trailers : list (list Z);
}.

Definition picture_nalus (p : picture) : list (list Z) :=
  pc_headers p ++ [pc_slice p] ++ pc_slices p ++ pc_trailers p.

Definition coded (p : picture) : Prop :=
  Forall (fun n => is_vcl n = false) (pc_headers p) /\ is_vcl (pc_slice p) = true /\
  Forall (fun n => is_vcl n = true) (pc_slices p) /\ Forall (fun n => is_vcl n = false) (pc_trailers p).

(** One slice, and nothing behind it. *)
Definition one_slice (p : picture) : Prop := pc_slices p = [] /\ pc_trailers p = [].

(** The frames the viewer gets: a picture's headers go with its first slice, behind what
    the picture before it left, and each further slice is a frame of its own. *)
Fixpoint frames_of (carry : list (list Z)) (pics : list picture) : list (list (list Z)) :=
  match pics with
  | [] => []
  | p :: pics =>
      (carry ++ pc_headers p ++ [pc_slice p]) :: ((fun s => [s]) <$> pc_slices p) ++ frames_of (pc_trailers p) pics
  end.

Lemma frames_of_one_slice pics : Forall one_slice pics -> frames_of [] pics = picture_nalus <$> pics.
Proof.
  induction 1 as [|p pics [Es Et] _ IH]; [done|]. cbn [frames_of fmap list_fmap]. rewrite Es, Et, IH.
  unfold picture_nalus. by rewrite Es, Et.
Qed.

(** A frame per slice. *)
Lemma length_frames_of pics : forall carry,
  length (frames_of carry pics) = sum_list ((fun p => S (length (pc_slices p))) <$> pics).
Proof.
  induction pics as [|p pics IH]; intros carry; [done|]. cbn [frames_of fmap list_fmap sum_list length].
  by rewrite length_app, length_fmap, IH.
Qed.

Lemma cut_headers hs ns : Forall (fun n => is_vcl n = false) hs ->
  forall acc, cut_units acc (hs ++ ns) = cut_units (acc ++ hs) ns.
Proof.
  induction 1 as [|h hs Hh _ IH]; intros acc; [by rewrite app_nil_r|].
  cbn [app cut_units]. by rewrite Hh, IH, <- app_assoc.
Qed.

Lemma cut_slices ss ns : Forall (fun n => is_vcl n = true) ss ->
  (cut_units [] (ss ++ ns)).1 = ((fun s => [s]) <$> ss) ++ (cut_units [] ns).1.
Proof.
  induction 1 as [|h hs Hh _ IH]; [done|]. cbn [app cut_units fmap list_fmap]. rewrite Hh, <- IH.
  by destruct (cut_units [] (hs ++ ns)).
Qed.

Lemma cut_pictures hs pics : Forall coded pics -> Forall (fun n => is_vcl n = false) hs ->
  forall acc, (cut_units acc (concat (picture_nalus <$> pics) ++ hs)).1 = frames_of acc pics.
Proof.
  intros Hp Hh. induction Hp as [|p pics (H1 & H2 & H3 & H4) _ IH]; intros acc.
  - cbn [fmap list_fmap concat app frames_of]. rewrite <- (app_nil_r hs). by rewrite cut_headers.
  - cbn [fmap list_fmap concat frames_of]. unfold picture_nalus at 1. rewrite <- !app_assoc, cut_headers by done.
    cbn [app cut_units]. rewrite H2.
    pose proof (cut_slices (pc_slices p) (pc_trailers p ++ concat (picture_nalus <$> pics) ++ hs) H3) as E.
    rewrite (cut_headers (pc_trailers p)), IH in E by done. cbn [app] in E.
    destruct (cut_units [] (pc_slices p ++ _)) as [us t]. cbn [fst] in *. by rewrite E, <- app_assoc.
Qed.

(** C18: the way of an encoded stream to the viewer. Whatever pictures an encoder writes,
    with start codes of any length, and however its bytes arrive, when ffmpeg closes its
    output the socket has got, behind four-byte start codes and in order: of each picture
    one frame with its headers and its first slice, and one frame more for each further
    slice; what follows a picture's slices goes with the next picture. So a picture is one
    frame exactly when it has one slice and nothing behind it. The last NAL unit of the
    stream, which no start code follows, is left out, and with it the headers before it. *)
Theorem units_delivered pics hs n l cs (w w' : W) :
  Forall coded pics -> Forall (fun h => is_vcl h = false) hs ->
  Forall framed_ok l -> snd <$> l = concat (picture_nalus <$> pics) ++ hs ++ [n] ->
  Forall (fun c => c <> []) cs -> concat cs = stream l ->
  write_frames (sent (frames_of [] pics)) w = (w', Ok ()) ->
  parser_thread (chunks cs ++ [end_of_stream]) (parser_start w) = Some (w', false) /\
  length (frames_of [] pics) = sum_list ((fun p => S (length (pc_slices p))) <$> pics) /\
  (Forall one_slice pics -> frames_of [] pics = picture_nalus <$> pics).
Proof.
  intros Hp Hh Hf El Hc E Hw. split_and!; [|apply length_frames_of|apply frames_of_one_slice].
  destruct l as [|x l]; [by rewrite app_assoc in El; destruct (concat _ ++ hs)|].
  assert (Er : removelast (snd <$> x :: l) = concat (picture_nalus <$> pics) ++ hs).
  { by rewrite El, app_assoc, removelast_last. }
  rewrite parser_chunks by done. rewrite E, on_chunk_eq, (split_stream l x), Er by done.
  assert (Hn : Forall (fun n => n <> []) (concat (picture_nalus <$> pics) ++ hs)).
  { assert (Ha : Forall (fun n => n <> []) (snd <$> x :: l)).
    { apply Forall_fmap. eapply Forall_impl; [exact Hf|]. by intros ? [_ [? _]]. }
    rewrite El, app_assoc in Ha. by apply Forall_app in Ha as [Ha _]. }
  destruct (take_all_units _ w' Hn) as [A _].
  set (s0 := set_buf (ps_buf (parser_start w) ++ stream (x :: l)) (parser_start w)).
  destruct (A [] s0 eq_refl eq_refl ltac:(by rewrite cut_pictures)) as (s' & -> & Hend).
  cbn [chunks app parser_thread end_of_stream r_stop r_data]. by rewrite <- Hend.
Qed.
End Roundtrip.

(** ** A short stream *)

(** Parameter sets, an intra slice and two predicted ones. *)
Definition short_stream : list (nat * list Z) :=
  [(3%nat, [103; 1]); (3%nat, [104; 2]); (2%nat, [101; 0; 0; 3; 7]); (3%nat, [65; 5]); (2%nat, [65; 6])].

Lemma short_stream_ok : Forall framed_ok short_stream.
Proof.
  repeat (apply Forall_cons_2; [split; [cbn; lia|]; split; [done|]; split; [done|];
    intros i Hi; cbn in Hi; do 5 (destruct i as [|i]; [try lia; reflexivity|]); lia|]).
  apply Forall_nil_2.
Qed.

Definition cut (n : nat) (l : list Z) : list (list Z) := [take n l; drop n l].

Lemma chunking_irrelevant_witness :
  parser_thread (chunks (cut 3 (stream short_stream)) ++ [end_of_stream]) (parser_start []) =
  parser_thread (chunks (cut 21 (stream short_stream)) ++ [end_of_stream]) (parser_start []).
Proof.
  apply chunking_irrelevant.
  - repeat (apply Forall_cons_2; [discriminate|]). apply Forall_nil_2.
  - repeat (apply Forall_cons_2; [discriminate|]). apply Forall_nil_2.
  - reflexivity.
Defined.

Definition picture1 (hs : list (list Z)) (s : list Z) : picture :=
  {| pc_headers := hs; pc_slice := s; pc_slices := []; pc_trailers := [] |}.

Definition short_pictures : list picture := [picture1 [[103; 1]; [104; 2]] [101; 0; 0; 3; 7]; picture1 [] [65; 5]].

Lemma units_delivered_witness :
  parser_thread (chunks (cut 9 (stream short_stream)) ++ [end_of_stream]) (parser_start []) =
  Some (concat (image <$> [Nalu [0; 0; 0; 1; 103; 1; 0; 0; 0; 1; 104; 2; 0; 0; 0; 1; 101; 0; 0; 3; 7];
                           Nalu [0; 0; 0; 1; 65; 5]]), false) /\
  length (frames_of [] short_pictures) = 2%nat /\
  (Forall one_slice short_pictures -> frames_of [] short_pictures = picture_nalus <$> short_pictures).
Proof.
  apply (units_delivered short_pictures [] [65; 6] short_stream).
  - repeat (apply Forall_cons_2; [repeat split; repeat constructor|]). apply Forall_nil_2.
  - apply Forall_nil_2.
  - exact short_stream_ok.
  - reflexivity.
  - repeat (apply Forall_cons_2; [discriminate|]). apply Forall_nil_2.
  - reflexivity.
  - vm_compute. reflexivity.
Defined.

(** A picture of two slices reaches the viewer as two frames. *)
Example two_slices_two_frames :
  parser_thread (chunks [stream [(3%nat, [101; 5]); (2%nat, [101; 133]); (3%nat, [9; 240]); (2%nat, [65; 6])]] ++ [end_of_stream])
    (parser_start []) =
  Some (concat (image <$> [Nalu [0; 0; 0; 1; 101; 5]; Nalu [0; 0; 0; 1; 101; 133]]), false).
Proof. reflexivity. Qed.

(** Two whole frames have arrived and nothing has been sent: a unit waits for the
    start code behind the NAL unit after it. *)
Example units_lag :
  match on_chunk (stream [(3%nat, [65; 5]); (3%nat, [65; 6])]) (parser_start []) with
  | Ok s => ps_w s = []
  | Err _ => False
  end.
Proof. reflexivity. Qed.
