(* ===== verification/H264.v ===== *)
(** * The H.264 encoder's parameters ([crates/waymux-session/src/vulkan_record.rs])

    What the Vulkan encoder computes itself: levels and parameter sets, the decoder
    configuration record, the quantizer, the reference slots of its pictures, the choice
    of a device. What the driver does, serializing parameter sets and encoding a
    picture, is the class [Gpu]. *)

From Stdlib Require Import ZArith Lia.
From stdpp Require Import prelude strings list pretty.
From S2P Require Import Prelude Words Decimal Io Session Recorder.

Open Scope Z_scope.

(** ** Kinds, levels, parameter sets *)

Inductive EncodeKind := Main420 | Hi444Lossless.

(** The constants of the Vulkan video headers. *)
Definition PROFILE_MAIN : Z := 77.
Definition PROFILE_HIGH_444_PREDICTIVE : Z := 244.
Definition LEVEL_4_0 : Z := 10.
Definition LEVEL_4_1 : Z := 11.
Definition LEVEL_4_2 : Z := 12.
Definition LEVEL_5_0 : Z := 13.
Definition LEVEL_5_1 : Z := 14.
Definition LEVEL_5_2 : Z := 15.

Definition std_profile_idc (k : EncodeKind) : Z :=
  match k with Main420 => PROFILE_MAIN | Hi444Lossless => PROFILE_HIGH_444_PREDICTIVE end.

Definition chroma_format_idc (k : EncodeKind) : Z :=
  match k with Main420 => 1 | Hi444Lossless => 3 end.

Abbreviation u32_mul a b := (as_u 32 (a * b)).
Abbreviation u32_sub a b := (as_u 32 (a - b)).

(** [u32::div_ceil] with 16. *)
Definition div_ceil16 (n : Z) : Z := (n + 15) / 16.

Definition pick_h264_level (width height : Z) : Z :=
  let mbs := u32_mul (div_ceil16 width) (div_ceil16 height) in
  let rate := u32_mul mbs 60 in
  if rate <=? 245760 then LEVEL_4_0
  else if rate <=? 522240 then LEVEL_4_2
  else if rate <=? 983040 then LEVEL_5_1
  else LEVEL_5_2.

Record Sps := {
  sps_direct_8x8_inference : bool;
  sps_frame_mbs_only : bool;
  sps_frame_cropping : bool;
  sps_qpprime_y_zero_transform_bypass : bool;
  sps_profile_idc : Z;
  sps_level_idc : Z;
  sps_chroma_format_idc : Z;
  sps_log2_max_frame_num_minus4 : Z;
  sps_pic_order_cnt_type : Z;
  sps_max_num_ref_frames : Z;
  sps_pic_width_in_mbs_minus1 : Z;
  sps_pic_height_in_map_units_minus1 : Z;
  sps_crop_left : Z;
  sps_crop_right : Z;
  sps_crop_top : Z;
  sps_crop_bottom : Z;
}.

Definition build_h264_sps (width height : Z) (kind : EncodeKind) : Sps :=
  let mb_w := div_ceil16 width in
  let mb_h := div_ceil16 height in
  let crop_right := u32_sub (u32_mul mb_w 16) width in
  let crop_bottom := u32_sub (u32_mul mb_h 16) height in
  {| sps_direct_8x8_inference := true;
     sps_frame_mbs_only := true;
     sps_frame_cropping := negb (crop_right =? 0) || negb (crop_bottom =? 0);
     sps_qpprime_y_zero_transform_bypass := match kind with Hi444Lossless => true | Main420 => false end;
     sps_profile_idc := std_profile_idc kind;
     sps_level_idc := pick_h264_level width height;
     sps_chroma_format_idc := chroma_format_idc kind;
     sps_log2_max_frame_num_minus4 := 0;
     sps_pic_order_cnt_type := 2;
     sps_max_num_ref_frames := 1;
     sps_pic_width_in_mbs_minus1 := u32_sub mb_w 1;
     sps_pic_height_in_map_units_minus1 := u32_sub mb_h 1;
     sps_crop_left := 0;
     sps_crop_right := crop_right / 2;
     sps_crop_top := 0;
     sps_crop_bottom := crop_bottom / 2 |}.

Record Pps := {
  pps_entropy_coding_mode : bool;
  pps_deblocking_filter_control_present : bool;
  pps_transform_8x8_mode : bool;
}.

Definition build_h264_pps (kind : EncodeKind) : Pps :=
  {| pps_entropy_coding_mode := true;
     pps_deblocking_filter_control_present := true;
     pps_transform_8x8_mode := match kind with Hi444Lossless => true | Main420 => false end |}.

(** ** The decoder configuration record *)

Abbreviation byte_of l i := (nth i l 0).

Fixpoint starts_loop (fuel i : nat) (data : list Z) : list nat :=
  match fuel with
  | O => []
  | S fuel =>
      if negb (i + 3 <? length data)%nat then []
      else
        let four := (byte_of data i =? 0) && (byte_of data (i + 1) =? 0) && (byte_of data (i + 2) =? 0)
                    && (byte_of data (i + 3) =? 1) in
        let three := (byte_of data i =? 0) && (byte_of data (i + 1) =? 0) && (byte_of data (i + 2) =? 1) in
        if four then (i + 4)%nat :: starts_loop fuel (i + 4) data
        else if three then (i + 3)%nat :: starts_loop fuel (i + 3) data
        else starts_loop fuel (i + 1) data
  end.

(** The units between the places where they start. *)
Fixpoint cut_nalus (data : list Z) (starts : list nat) : list (list Z) :=
  match starts with
  | [] => []
  | start :: rest =>
      let stop :=
        match rest with
        | n :: _ => if (4 <=? n)%nat && (byte_of data (n - 4) =? 0) then (n - 4)%nat else (n - 3)%nat
        | [] => length data
        end in
      take (stop - start) (drop start data) :: cut_nalus data rest
  end.

Definition split_annexb_nalus (data : list Z) : list (list Z) :=
  cut_nalus data (starts_loop (length data) 0 data).

Definition nal_unit_type (n : list Z) : Z := Z.land (byte_of n 0) 31.

Definition is_type (ty : Z) (n : list Z) : bool := negb (bool_decide (n = [])) && (nal_unit_type n =? ty).

Inductive avcc_error := MissingParameterSets (sps pps : nat) | SpsTooShort.

(** A parameter set with its length as a big-endian [u16]. *)
Definition length_prefixed (n : list Z) : list Z := to_be 2 (as_u 16 (Z.of_nat (length n))) ++ n.

Definition build_avc_decoder_config_record (nalus : list (list Z)) : result (list Z) avcc_error :=
  let sps_nals := List.filter (is_type 7) nalus in
  let pps_nals := List.filter (is_type 8) nalus in
  match sps_nals, pps_nals with
  | sps :: _, _ :: _ =>
      if (4 <=? length sps)%nat then
        Ok ([1; byte_of sps 1; 0; byte_of sps 3; 255;
             Z.lor 224 (Z.land (as_u 8 (Z.of_nat (length sps_nals))) 31)]
            ++ concat (length_prefixed <$> sps_nals)
            ++ [as_u 8 (Z.of_nat (length pps_nals))]
            ++ concat (length_prefixed <$> pps_nals))
      else Err SpsTooShort
  | _, _ => Err (MissingParameterSets (length sps_nals) (length pps_nals))
  end.

Definition build_synthetic_avcc (profile_idc level_idc : Z) : list Z :=
  let level_byte :=
    if level_idc =? LEVEL_4_0 then 40
    else if level_idc =? LEVEL_4_1 then 41
    else if level_idc =? LEVEL_4_2 then 42
    else if level_idc =? LEVEL_5_0 then 50
    else if level_idc =? LEVEL_5_1 then 51
    else if level_idc =? LEVEL_5_2 then 52
    else 41 in
  [1; as_u 8 profile_idc; 0; level_byte; 255; 224; 0].

(** ** Settings *)

Definition clamp_fence_timeout (parsed : option Z) : Z := Z.min (default 3000000000 parsed) 10000000000.

Definition fence_timeout_ns (var : option string) : Z := clamp_fence_timeout (var ≫= parse_unsigned 64).

Definition clamp (lo hi v : Z) : Z := Z.min (Z.max v lo) hi.

(** [vk_encode_qp]: [dynamic] is [VIEWER_DYNAMIC_QP], [var] is WAYMUX_VK_ENCODE_QP. *)
Definition vk_encode_qp (dynamic : Z) (var : option string) : Z :=
  if 0 <=? dynamic then clamp 0 51 dynamic
  else match var ≫= parse_signed 32 with Some q => clamp 0 51 q | None => 20 end.

Definition constant_qp (k : EncodeKind) (dynamic : Z) (var : option string) : Z :=
  match k with Main420 => vk_encode_qp dynamic var | Hi444Lossless => 0 end.

Definition align_to_ctu (n : Z) : Z := Z.land (as_u 32 (n + 63)) (Z.lxor (2 ^ 32 - 1) 63).

(** ** Devices *)

Definition REQUIRED_DEVICE_EXTENSION_NAMES : list string :=
  ["VK_KHR_external_memory_fd"; "VK_KHR_external_semaphore_fd"; "VK_KHR_synchronization2";
   "VK_KHR_video_queue"; "VK_KHR_video_encode_queue"; "VK_KHR_video_encode_h264"].

(** A physical device as Vulkan enumerates it; a queue family by its two flags. *)
Record QueueFamily := { qf_encode : bool; qf_compute : bool }.

Record PhysicalDevice := {
  pd_name : string;
  pd_extensions : result (list string) string;
  pd_queues : list QueueFamily;
}.

Definition has_ext (name : string) (exts : list string) : bool := existsb (String.eqb name) exts.

Inductive select_error :=
| NoDevice
| EnumerateExtensions (e : string)
| MissingExtensions (device : string) (missing : list string)
| NoQueueFamily (device : string).

(** [Iterator::position] *)
Fixpoint position {A} (p : A -> bool) (l : list A) : option nat :=
  match l with
  | [] => None
  | a :: l => if p a then Some O else S <$> position p l
  end.

(** Device, compute family, encode family. *)
Fixpoint select_loop (last_err : select_error) (ds : list PhysicalDevice) :
    result (PhysicalDevice * nat * nat) select_error :=
  match ds with
  | [] => Err last_err
  | d :: ds =>
      match pd_extensions d with
      | Err e => Err (EnumerateExtensions e)
      | Ok exts =>
          let missing := List.filter (fun n => negb (has_ext n exts)) REQUIRED_DEVICE_EXTENSION_NAMES in
          match missing with
          | _ :: _ => select_loop (MissingExtensions (pd_name d) missing) ds
          | [] =>
              match position qf_encode (pd_queues d), position qf_compute (pd_queues d) with
              | Some v, Some c => Ok (d, c, v)
              | _, _ => select_loop (NoQueueFamily (pd_name d)) ds
              end
          end
      end
  end.

Definition select_physical_device (ds : list PhysicalDevice) :
    result (PhysicalDevice * nat * nat) select_error := select_loop NoDevice ds.

(** The devices of [probe]: whether H.264 encoding is supported, and the queues. *)
Fixpoint probe_devices (ds : list PhysicalDevice) : result (list (bool * list QueueFamily)) select_error :=
  match ds with
  | [] => Ok []
  | d :: ds =>
      match pd_extensions d with
      | Err e => Err (EnumerateExtensions e)
      | Ok exts =>
          let h264 := has_ext "VK_KHR_video_queue" exts && has_ext "VK_KHR_video_encode_queue" exts
                      && has_ext "VK_KHR_video_encode_h264" exts in
          let? rest := probe_devices ds in Ok ((h264, pd_queues d) :: rest)
      end
  end.

Definition vulkan_probe_indicates_h264_encode (devices : list (bool * list QueueFamily)) : bool :=
  existsb (fun d => d.1 && existsb qf_encode d.2) devices.

Definition probe_h264_vulkan_for_viewer (ds : list PhysicalDevice) : bool :=
  match probe_devices ds with Ok p => vulkan_probe_indicates_h264_encode p | Err _ => false end.

(** [pick_memory_type]: the first type in the mask that has the required properties. *)
Definition pick_memory_type (types : list Z) (type_mask required : Z) : option nat :=
  position (fun i => negb (Z.land type_mask (Z.shiftl 1 (Z.of_nat i)) =? 0)
                     && (Z.land (byte_of types i) required =? required)) (seq 0 (length types)).

(** ** The recorder *)

Record PicParams := {
  pp_is_idr : bool;
  pp_frame_num : Z;
  pp_ref_slot : Z;
  pp_setup_slot : Z;
}.

(** The driver: sessions, their serialized parameter sets, and one picture. *)
Class Gpu := {
  gpu_state : Type;
  gpu_open : EncodeKind -> Z -> Z -> option gpu_state;         (* device and video session *)
  gpu_parameters : Sps -> Pps -> gpu_state -> option unit;    (* parameters object *)
  gpu_serialized : gpu_state -> result (list Z) bool;         (* [false]: the size query failed *)
  gpu_resources : gpu_state -> option unit;                   (* images and pipeline *)
  gpu_encode : nat + list Z -> PicParams -> Z -> gpu_state -> gpu_state * option (list Z);
}.

Section Recorder.
Context {G : Gpu}.

(** [EncodeSession::create_parameters]: the raw parameter sets and the private data. *)
Definition create_parameters (kind : EncodeKind) (width height : Z) (g : gpu_state) :
    option (list Z * list Z) :=
  let sps := build_h264_sps width height kind in
  match gpu_parameters sps (build_h264_pps kind) g with
  | None => None
  | Some _ =>
      match gpu_serialized g with
      | Err size_queried =>
          if negb size_queried then
            match kind with
            | Hi444Lossless => Some ([], build_synthetic_avcc (sps_profile_idc sps) (sps_level_idc sps))
            | Main420 => None
            end
          else None
      | Ok buf =>
          match build_avc_decoder_config_record (split_annexb_nalus buf) with
          | Ok private => Some (buf, private)
          | Err _ => None
          end
      end
  end.

Record VkRecorder := {
  vk_gpu : gpu_state;
  vk_codec_private : list Z;
  vk_sps_pps_annexb : list Z;
  vk_frame_num : Z;
  vk_ref_slot : Z;
}.

Definition recorder_new (kind : EncodeKind) (width height : Z) : option VkRecorder :=
  match gpu_open kind width height with
  | None => None
  | Some g =>
      match create_parameters kind width height g with
      | None => None
      | Some (annexb, private) =>
          match gpu_resources g with
          | None => None
          | Some _ =>
              Some {| vk_gpu := g; vk_codec_private := private; vk_sps_pps_annexb := annexb;
                      vk_frame_num := 0; vk_ref_slot := -1 |}
          end
      end
  end.

(** [VkRecorder::try_new] *)
Definition try_new (width height : Z) : option VkRecorder := recorder_new Main420 width height.

Definition idr_pic_params : PicParams :=
  {| pp_is_idr := true; pp_frame_num := 0; pp_ref_slot := -1; pp_setup_slot := 0 |}.

(** [next_pic_params]: the picture, the frame number and the reference slot after it. *)
Definition next_pic_params (is_idr : bool) (frame_num ref_slot : Z) : PicParams * Z * Z :=
  if is_idr || (ref_slot <? 0) then
    ({| pp_is_idr := true; pp_frame_num := 0; pp_ref_slot := -1; pp_setup_slot := 0 |}, 1, 0)
  else
    let setup_slot := if ref_slot =? 0 then 1 else 0 in
    ({| pp_is_idr := false; pp_frame_num := frame_num; pp_ref_slot := ref_slot; pp_setup_slot := setup_slot |},
     as_u 32 (frame_num + 1) mod 16, setup_slot).

(** [encode_dmabuf] and [encode_bgra]: the picture is planned, and the plan kept, before
    it is known whether it can be encoded. *)
Definition encode_picture (qp : Z) (src : nat + list Z) (is_idr : bool) (r : VkRecorder) :
    VkRecorder * option Nal :=
  let '(pic, frame_num, ref_slot) := next_pic_params is_idr (vk_frame_num r) (vk_ref_slot r) in
  let '(g, data) := gpu_encode src pic qp (vk_gpu r) in
  ({| vk_gpu := g; vk_codec_private := vk_codec_private r; vk_sps_pps_annexb := vk_sps_pps_annexb r;
      vk_frame_num := frame_num; vk_ref_slot := ref_slot |},
   (fun d => {| nal_data := d; nal_key := pp_is_idr pic |}) <$> data).

(** [encode_idr_from_dmabuf] and [encode_idr_from_bgra]. *)
Definition encode_idr (qp : Z) (src : nat + list Z) (r : VkRecorder) : VkRecorder * option Nal :=
  let '(g, data) := gpu_encode src idr_pic_params qp (vk_gpu r) in
  ({| vk_gpu := g; vk_codec_private := vk_codec_private r; vk_sps_pps_annexb := vk_sps_pps_annexb r;
      vk_frame_num := vk_frame_num r; vk_ref_slot := vk_ref_slot r |},
   (fun d => {| nal_data := d; nal_key := true |}) <$> data).

(** The recorder as the encoder of the recording threads; [qp] is the quantizer of the
    process. *)
Definition vk_nal_encoder (kind : EncodeKind) (qp : Z) : NalEncoder := {|
  enc_state := VkRecorder;
  enc_new w h := (fun r => (r, vk_codec_private r)) <$> recorder_new kind w h;
  enc_dmabuf dma _ r := encode_idr qp (inl dma) r;
  enc_bgra pixels _ r := encode_idr qp (inr pixels) r;
|}.
End Recorder.
