(* ===== verification/H264Props.v ===== *)
(** * What the H.264 parameters promise

    The size a decoder derives from the parameter sets, the level, the decoder
    configuration record against a reader of it, the reference slots against a decoder's
    view of them, and the limits of the settings. *)

From Stdlib Require Import ZArith Lia.
From stdpp Require Import prelude strings list.
From S2P Require Import Prelude Words Decimal Io ViewerProtocol AnnexB Session Recorder H264.

Open Scope Z_scope.

(** ** The size of the picture *)

(** What a decoder shows, by the rules of H.264: the coded size less the cropping, whose
    unit is the chroma subsampling. *)
Definition crop_unit (s : Sps) : Z := if sps_chroma_format_idc s =? 1 then 2 else 1.

Definition shown_width (s : Sps) : Z :=
  16 * (sps_pic_width_in_mbs_minus1 s + 1)
  - (if sps_frame_cropping s then crop_unit s * (sps_crop_left s + sps_crop_right s) else 0).

Definition shown_height (s : Sps) : Z :=
  16 * (sps_pic_height_in_map_units_minus1 s + 1)
  - (if sps_frame_cropping s then crop_unit s * (sps_crop_top s + sps_crop_bottom s) else 0).

Lemma div_ceil16_spec n : 0 < n -> n <= 16 * div_ceil16 n < n + 16.
Proof.
  intros Hn. unfold div_ceil16. pose proof (Z.div_mod (n + 15) 16). pose proof (Z.mod_pos_bound (n + 15) 16). lia.
Qed.

Definition padding (n : Z) : Z := 16 * div_ceil16 n - n.

Lemma shown_size w h kind :
  0 < w < 2 ^ 31 -> 0 < h < 2 ^ 31 ->
  let s := build_h264_sps w h kind in
  shown_width s = w + padding w - crop_unit s * (padding w / 2) /\
  shown_height s = h + padding h - crop_unit s * (padding h / 2).
Proof.
  intros Hw Hh s. pose proof (div_ceil16_spec w ltac:(lia)) as W. pose proof (div_ceil16_spec h ltac:(lia)) as H.
  assert (Ew : u32_sub (u32_mul (div_ceil16 w) 16) w = padding w).
  { unfold padding. rewrite (as_u_id 32 (div_ceil16 w * 16)) by (red; lia). rewrite as_u_id by (red; lia). lia. }
  assert (Eh : u32_sub (u32_mul (div_ceil16 h) 16) h = padding h).
  { unfold padding. rewrite (as_u_id 32 (div_ceil16 h * 16)) by (red; lia). rewrite as_u_id by (red; lia). lia. }
  unfold shown_width, shown_height, s, build_h264_sps.
  cbn [sps_pic_width_in_mbs_minus1 sps_pic_height_in_map_units_minus1 sps_frame_cropping sps_crop_left sps_crop_right
    sps_crop_top sps_crop_bottom]. rewrite Ew, Eh, !(as_u_id 32 (_ - 1)) by (red; lia).
  set (u := crop_unit _).
  destruct (negb (padding w =? 0) || negb (padding h =? 0)) eqn:C.
  - unfold padding. lia.
  - apply orb_false_iff in C as [C1 C2]. boolz. rewrite C1, C2. unfold padding in *. change (0 / 2) with 0. lia.
Qed.

(** The parameter sets of an ordinary recording describe its size: a decoder shows
    exactly [w] by [h] when both are even. *)
Theorem sps_shows_size w h :
  0 < w < 2 ^ 31 -> 0 < h < 2 ^ 31 -> w mod 2 = 0 -> h mod 2 = 0 ->
  let s := build_h264_sps w h Main420 in shown_width s = w /\ shown_height s = h.
Proof.
  intros Hw Hh Ew Eh s. destruct (shown_size w h Main420 Hw Hh) as [E1 E2]. unfold s. rewrite E1, E2.
  change (crop_unit (build_h264_sps w h Main420)) with 2.
  assert (P : forall n, 0 < n -> n mod 2 = 0 -> 2 * (padding n / 2) = padding n).
  { intros n Hn E. unfold padding. pose proof (Z.div_mod n 2). replace (16 * div_ceil16 n - n) with ((8 * div_ceil16 n - n / 2) * 2) by lia.
    rewrite Z.div_mul by lia. lia. }
  rewrite !P by lia. lia.
Qed.

(** The parameter sets of a lossless recording do not: the cropping is halved as for
    4:2:0, but its unit is one sample, so a decoder shows half of the padding whenever
    there is more than one row or column of it. *)
Theorem lossless_sps_shows_padding w h :
  0 < w < 2 ^ 31 -> 0 < h < 2 ^ 31 ->
  let s := build_h264_sps w h Hi444Lossless in
  shown_width s = w + (padding w - padding w / 2) /\ shown_height s = h + (padding h - padding h / 2) /\
  (shown_height s = h <-> h mod 16 = 0).
Proof.
  intros Hw Hh s. destruct (shown_size w h Hi444Lossless Hw Hh) as [E1 E2].
  change (crop_unit (build_h264_sps w h Hi444Lossless)) with 1 in E1, E2. fold s in E1, E2.
  pose proof (div_ceil16_spec h ltac:(lia)) as D.
  assert (F : padding h = 0 <-> h mod 16 = 0).
  { unfold padding. split; intros K.
    - replace h with (div_ceil16 h * 16) by lia. apply Z.mod_mul. lia.
    - pose proof (Z.div_mod h 16). unfold div_ceil16 in *. pose proof (Z.div_mod (h + 15) 16).
      pose proof (Z.mod_pos_bound (h + 15) 16). lia. }
  rewrite E1, E2. split; [lia|]. split; [lia|]. rewrite <- F. unfold padding in *.
  pose proof (Z.div_mod (16 * div_ceil16 h - h) 2). pose proof (Z.mod_pos_bound (16 * div_ceil16 h - h) 2). lia.
Qed.

(** Macroblocks per second a level admits. *)
Definition level_rate (level : Z) : Z :=
  if level =? LEVEL_4_0 then 245760 else if level =? LEVEL_4_2 then 522240
  else if level =? LEVEL_5_1 then 983040 else 2073600.

(** The level admits sixty frames of the size in a second, for every size the
    highest of the four levels can take, and no lower one of the four would. *)
Theorem level_covers w h :
  0 < w -> 0 < h -> div_ceil16 w * div_ceil16 h * 60 <= 2073600 ->
  let rate := div_ceil16 w * div_ceil16 h * 60 in
  let l := pick_h264_level w h in
  rate <= level_rate l /\
  forall l', l' ∈ [LEVEL_4_0; LEVEL_4_2; LEVEL_5_1; LEVEL_5_2] -> rate <= level_rate l' -> l <= l'.
Proof.
  intros Hw Hh Hr rate l. unfold l, pick_h264_level.
  pose proof (div_ceil16_spec w Hw). pose proof (div_ceil16_spec h Hh).
  rewrite !(as_u_id 32) by (red; rewrite ?(as_u_id 32) by (red; nia); nia). fold rate in Hr |- *.
  repeat case_match; boolz; (split; [unfold level_rate; cbn; lia|]);
    intros l' Hl'; repeat (apply elem_of_cons in Hl' as [->|Hl']; [unfold level_rate, LEVEL_4_0, LEVEL_4_2, LEVEL_5_1, LEVEL_5_2; cbn; intros; lia|]);
    by apply elem_of_nil in Hl'.
Qed.

(** ** The splitter of parameter sets *)

(** The search for start codes, on what is left of the bytes. *)
Fixpoint starts_in (fuel i : nat) (l : list Z) : list nat :=
  match fuel with
  | O => []
  | S fuel =>
      match l with
      | a :: b :: c :: d :: _ =>
          if (a =? 0) && (b =? 0) && (c =? 0) && (d =? 1) then (i + 4)%nat :: starts_in fuel (i + 4) (drop 4 l)
          else if (a =? 0) && (b =? 0) && (c =? 1) then (i + 3)%nat :: starts_in fuel (i + 3) (drop 3 l)
          else starts_in fuel (i + 1) (drop 1 l)
      | _ => []
      end
  end.

Lemma nth_of_drop (data : list Z) i j : byte_of (drop i data) j = byte_of data (i + j).
Proof. revert data. induction i as [|i IH]; intros data; [done|]. destruct data; [by destruct j|]. apply IH. Qed.

Lemma starts_loop_in fuel data : forall i, starts_loop fuel i data = starts_in fuel i (drop i data).
Proof.
  induction fuel as [|fuel IH]; intros i; [done|]. cbn [starts_loop starts_in].
  pose proof (length_drop data i) as L. pose proof (nth_of_drop data i) as N.
  destruct (i + 3 <? length data)%nat eqn:E; cbn [negb]; [apply Nat.ltb_lt in E|apply Nat.ltb_ge in E].
  - specialize (N 0%nat) as N0. specialize (N 1%nat) as N1. specialize (N 2%nat) as N2. specialize (N 3%nat) as N3.
    destruct (drop i data) as [|a [|b [|c [|d l]]]] eqn:Ed; try (cbn [length] in L; lia).
    cbn in N0, N1, N2, N3. rewrite Nat.add_0_r in N0. rewrite <- N0, <- N1, <- N2, <- N3, !IH, <- !drop_drop, Ed. done.
  - destruct (drop i data) as [|a [|b [|c [|d l]]]]; try done. cbn [length] in L. lia.
Qed.

(** A run of bytes without a start code that ends in something else than zero. *)
Definition no_code (m : list Z) : Prop :=
  last m <> Some 0 /\ forall i, (2 <= i < length m)%nat -> code_at m i = false.

Lemma no_code_tail a m : m <> [] -> no_code (a :: m) -> no_code m.
Proof.
  intros Hm [H1 H2]. split.
  - rewrite last_cons in H1. destruct (last m) eqn:E; [done|]. by apply last_None in E.
  - intros i Hi. specialize (H2 (S i)). cbn [length] in H2. specialize (H2 ltac:(lia)).
    unfold code_at in *. destruct i as [|[|i]]; [lia..|]. cbn in H2 |- *. by rewrite Nat.sub_0_r in *.
Qed.

Lemma starts_walk m rest : no_code m -> forall fuel i,
  (length m + length rest <= fuel)%nat -> exists fuel',
  (length rest <= fuel')%nat /\ starts_in fuel i (m ++ rest) = starts_in fuel' (i + length m) rest.
Proof.
  induction m as [|a m IH]; intros Hm fuel i Hf.
  { exists fuel. cbn. rewrite Nat.add_0_r. split; [cbn in Hf; lia|done]. }
  destruct fuel as [|fuel]; [cbn in Hf; lia|]. cbn [length] in Hf.
  assert (Hlast : m = [] -> a <> 0) by (intros ->; destruct Hm as [H _]; cbn in H; congruence).
  assert (Hnext : exists fuel', (length rest <= fuel')%nat /\
    starts_in fuel (i + 1) (m ++ rest) = starts_in fuel' (i + length (a :: m)) rest).
  { destruct m as [|b m].
    - exists fuel. split; [lia|]. cbn. done.
    - destruct (IH (no_code_tail a (b :: m) ltac:(done) Hm) fuel (i + 1)%nat ltac:(lia)) as (f' & L & E).
      exists f'. split; [done|]. rewrite E. f_equal. cbn [length]. lia. }
  cbn [app starts_in]. destruct (m ++ rest) as [|b [|c [|d l]]] eqn:El.
  1-3: exists fuel; split; [lia|]; assert (length rest <= 2)%nat
    by (apply (f_equal length) in El; rewrite length_app in El; cbn in El; lia);
    destruct fuel; [done|]; destruct rest as [|? [|? [|? ?]]]; try done; cbn in *; lia.
  assert (N : (a =? 0) && (b =? 0) && (c =? 0) && (d =? 1) = false /\ (a =? 0) && (b =? 0) && (c =? 1) = false).
  { destruct (Z.eqb_spec a 0) as [->|]; [|done]. destruct m as [|b' m]; [by destruct Hlast|].
    cbn [app] in El. injection El as -> El. destruct (Z.eqb_spec b 0) as [->|]; [|done].
    destruct m as [|c' m]; [destruct Hm as [H _]; cbn in H; done|]. cbn [app] in El. injection El as -> El. cbn [andb].
    pose proof (proj2 Hm 2%nat ltac:(cbn; lia)) as C2. unfold code_at in C2. cbn in C2. rewrite !andb_true_r in C2.
    rewrite C2. split; [|done]. destruct (Z.eqb_spec c 0) as [->|]; [|done].
    destruct m as [|d' m]; [destruct Hm as [H _]; cbn in H; done|]. cbn [app] in El. injection El as -> El. cbn [andb].
    pose proof (proj2 Hm 3%nat ltac:(cbn; lia)) as C3. unfold code_at in C3. cbn in C3. by rewrite !andb_true_r in C3. }
  destruct N as [-> ->]. cbn [drop]. by rewrite <- El in *.
Qed.

(** ** Start codes of three or four bytes *)

Definition plain (zn : nat * list Z) : Prop := (fst zn = 2 \/ fst zn = 3)%nat /\ clean (snd zn).

Fixpoint offsets (i : nat) (l : list (nat * list Z)) : list nat :=
  match l with
  | [] => []
  | (z, n) :: l => (i + z + 1)%nat :: offsets (i + z + 1 + length n) l
  end.

Lemma starts_stream l : Forall plain l -> forall fuel i,
  (length (stream l) <= fuel)%nat -> starts_in fuel i (stream l) = offsets i l.
Proof.
  induction 1 as [|[z n] l [Hz Hn] _ IH]; intros fuel i Hf; [by destruct fuel|].
  cbn [fst snd] in *. rewrite stream_cons, framed_eq, length_app in Hf. rewrite !length_app, length_replicate in Hf.
  cbn [length] in Hf. destruct Hn as (Hne & Hl & Hc). assert (Nc : no_code n) by done.
  destruct fuel as [|fuel]; [lia|]. rewrite stream_cons, framed_eq. cbn [offsets].
  destruct n as [|b n]; [done|]. cbn [length] in Hf.
  destruct Hz as [-> | ->]; cbn [replicate app starts_in].
  - assert (E : starts_in fuel (i + 3) ((b :: n) ++ stream l) = offsets (i + 2 + 1 + length (b :: n)) l).
    { destruct (starts_walk (b :: n) (stream l) Nc fuel (i + 3)) as (f' & L & ->); [cbn [length]; lia|].
      rewrite IH by done. f_equal. lia. }
    cbn [app] in E. change (0 =? 0) with true. change (1 =? 0) with false. change (1 =? 1) with true. cbn [andb drop].
    rewrite E. f_equal. lia.
  - assert (E : starts_in fuel (i + 4) ((b :: n) ++ stream l) = offsets (i + 3 + 1 + length (b :: n)) l).
    { destruct (starts_walk (b :: n) (stream l) Nc fuel (i + 4)) as (f' & L & ->); [cbn [length]; lia|].
      rewrite IH by done. f_equal. lia. }
    cbn [app] in E. change (0 =? 0) with true. change (1 =? 1) with true. cbn [andb drop].
    rewrite E. f_equal. lia.
Qed.

Lemma cut_stream l : Forall plain l -> forall pre,
  cut_nalus (pre ++ stream l) (offsets (length pre) l) = snd <$> l.
Proof.
  induction 1 as [|[z n] l [Hz Hn] Hl IH]; intros pre; [done|]. cbn [offsets cut_nalus fmap list_fmap snd fst] in *.
  set (data := pre ++ stream ((z, n) :: l)).
  set (pre' := pre ++ framed (z, n)).
  assert (Lp : length pre' = (length pre + z + 1 + length n)%nat) by (unfold pre'; rewrite length_app, framed_length; lia).
  assert (D : data = pre' ++ stream l) by (unfold data, pre'; by rewrite stream_cons, app_assoc).
  specialize (IH pre'). rewrite Lp, <- D in IH. rewrite IH. f_equal.
  assert (S0 : drop (length pre + z + 1) data = n ++ stream l).
  { rewrite D. unfold pre'. rewrite framed_eq.
    replace ((pre ++ replicate z 0 ++ [1] ++ n) ++ stream l) with ((pre ++ replicate z 0 ++ [1]) ++ n ++ stream l)
      by (by rewrite <- !app_assoc).
    apply drop_app_length'. rewrite !length_app, length_replicate. cbn. lia. }
  rewrite S0.
  assert (St : match offsets (length pre + z + 1 + length n) l with
               | [] => length data
               | m :: _ => if (4 <=? m)%nat && (byte_of data (m - 4) =? 0) then (m - 4)%nat else (m - 3)%nat
               end = (length pre + z + 1 + length n)%nat).
  { destruct l as [|[z' n'] l].
    { cbn [offsets]. rewrite D, length_app. cbn. lia. }
    cbn [offsets]. inversion Hl as [|? ? [Hz' _] _]; subst. cbn [fst] in Hz'.
    set (m := (length pre + z + 1 + length n + z' + 1)%nat).
    rewrite (proj2 (Nat.leb_le 4 m)) by (unfold m; destruct Hz, Hz'; lia). cbn [andb].
    destruct Hz' as [-> | ->].
    - assert (B : byte_of data (m - 4) <> 0).
      { destruct Hn as (Hne & Hla & _). rewrite last_at in Hla by done.
        assert (1 <= length n)%nat by (destruct n; [done|cbn; lia]).
        replace (m - 4)%nat with ((length pre + z + 1) + (length n - 1))%nat by (unfold m; lia).
        rewrite <- nth_of_drop, S0, at_app1 by lia. congruence. }
      rewrite (proj2 (Z.eqb_neq _ _) B). unfold m. lia.
    - assert (B : byte_of data (m - 4) = 0).
      { replace (m - 4)%nat with (length pre' + 0)%nat by (unfold m; lia). rewrite D, at_after. done. }
      rewrite B. cbn [Z.eqb]. unfold m. lia. }
  match goal with |- take (?e - _) _ = _ => replace e with (length pre + z + 1 + length n)%nat end.
  replace (length pre + z + 1 + length n - (length pre + z + 1))%nat with (length n) by lia.
  apply take_app_length.
Qed.

(** The splitter finds the units of a stream as drivers write them. *)
Lemma split_annexb_stream l : Forall plain l -> split_annexb_nalus (stream l) = snd <$> l.
Proof.
  intros Hl. unfold split_annexb_nalus. rewrite starts_loop_in, drop_0, starts_stream by done.
  by apply (cut_stream l Hl []).
Qed.

(** ** Reading the decoder configuration record *)

Fixpoint read_sets (n : nat) (l : list Z) : option (list (list Z) * list Z) :=
  match n with
  | O => Some ([], l)
  | S n =>
      let size := Z.to_nat (from_be (take 2 l)) in
      let body := drop 2 l in
      if (length l <? 2)%nat || (length body <? size)%nat then None
      else
        '(sets, rest) ← read_sets n (drop size body);
        Some (take size body :: sets, rest)
  end.

Record avcc := Avcc {
  ac_profile : Z;
  ac_level : Z;
  ac_length_size : Z;
  ac_sps : list (list Z);
  ac_pps : list (list Z);
}.

Definition read_avcc (l : list Z) : option avcc :=
  match l with
  | 1 :: profile :: _ :: level :: size :: count :: rest =>
      '(sps, rest) ← read_sets (Z.to_nat (Z.land count 31)) rest;
      match rest with
      | count :: rest =>
          '(pps, rest) ← read_sets (Z.to_nat count) rest;
          match rest with
          | [] => Some (Avcc profile level (Z.land size 3 + 1) sps pps)
          | _ => None
          end
      | [] => None
      end
  | _ => None
  end.

Lemma read_sets_prefixed ns rest : Forall (fun n => Z.of_nat (length n) < 65536) ns ->
  read_sets (length ns) (concat (length_prefixed <$> ns) ++ rest) = Some (ns, rest).
Proof.
  induction 1 as [|n ns Hn _ IH]; [done|]. cbn [length fmap list_fmap concat read_sets].
  assert (E : length_prefixed n = to_be 2 (Z.of_nat (length n)) ++ n) by (unfold length_prefixed; rewrite as_u_id by (red; lia); done).
  rewrite E, <- !app_assoc. rewrite take_app_length', drop_app_length' by (symmetry; apply length_to_be).
  rewrite from_be_to_be, Z.mod_small, Nat2Z.id by (cbn; lia).
  rewrite (proj2 (Nat.ltb_ge _ 2)) by (rewrite length_app, length_to_be; lia).
  rewrite (proj2 (Nat.ltb_ge _ (length n))) by (rewrite length_app; lia). cbn [orb].
  rewrite drop_app_length, take_app_length, IH. done.
Qed.

(** Byte values of a short list. *)
Lemma land31_count n : (n < 32)%nat -> Z.to_nat (Z.land (Z.lor 224 (Z.land (as_u 8 (Z.of_nat n)) 31)) 31) = n.
Proof. intros H. do 32 (destruct n as [|n]; [done|]). lia. Qed.

(** the private data of a recording is what a reader of the format expects. When the
    driver serializes its parameter sets as units behind start codes, with at least one
    of each kind, the record the recorder builds reads back to exactly those units, in
    order, with profile and level of the first one and length fields of four bytes;
    every byte is accounted for. *)
Theorem private_data_reads_back {G : Gpu} kind w h g l sps spss pps ppss :
  gpu_parameters (build_h264_sps w h kind) (build_h264_pps kind) g = Some () ->
  gpu_serialized g = Ok (stream l) -> Forall plain l ->
  List.filter (is_type 7) (snd <$> l) = sps :: spss -> List.filter (is_type 8) (snd <$> l) = pps :: ppss ->
  (4 <= length sps)%nat -> (length (sps :: spss) < 32)%nat -> (length (pps :: ppss) < 256)%nat ->
  Forall (fun n => Z.of_nat (length n) < 65536) (snd <$> l) ->
  exists private, create_parameters kind w h g = Some (stream l, private) /\
    read_avcc private = Some (Avcc (byte_of sps 1) (byte_of sps 3) 4 (sps :: spss) (pps :: ppss)).
Proof.
  intros Hp Hs Hl E7 E8 H4 N7 N8 Hlen. unfold create_parameters. rewrite Hp, Hs, split_annexb_stream by done.
  unfold build_avc_decoder_config_record. rewrite E7, E8, (proj2 (Nat.leb_le _ _)) by done.
  eexists. split; [done|].
  assert (F : forall ty, Forall (fun n => Z.of_nat (length n) < 65536) (List.filter (is_type ty) (snd <$> l))).
  { intros ty. apply Forall_forall. intros n Hn. rewrite Forall_forall in Hlen. apply Hlen.
    apply list_elem_of_In in Hn. apply filter_In in Hn as [Hn _]. by apply list_elem_of_In. }
  pose proof (F 7) as F7. pose proof (F 8) as F8. rewrite E7 in F7. rewrite E8 in F8.
  cbn [app]. unfold read_avcc. rewrite land31_count by done. rewrite read_sets_prefixed by done. cbn [mbind option_bind app].
  rewrite as_u_id by (red; lia). rewrite Nat2Z.id.
  pose proof (read_sets_prefixed (pps :: ppss) [] F8) as R. rewrite app_nil_r in R. rewrite R. done.
Qed.

(** ** Reference pictures *)

(** What is in the two reconstruction slots, by the number of the picture, and the last
    picture that was delivered with its frame number: the one reference a decoder of
    the stream has. *)
Record Dpb := { d_slot : Z -> option nat; d_last : option (nat * Z) }.

Definition dpb_empty : Dpb := {| d_slot := fun _ => None; d_last := None |}.

Definition delivered (k : nat) (p : PicParams) (d : Dpb) : Dpb :=
  {| d_slot := fun s => if s =? pp_setup_slot p then Some k else d_slot d s; d_last := Some (k, pp_frame_num p) |}.

(** A decoder can decode a picture that refers to nothing, or to exactly the last
    delivered one, with the next frame number, and not reconstructed over it. *)
Definition decodable (p : PicParams) (d : Dpb) : bool :=
  pp_is_idr p ||
  match d_last d with
  | Some (k, n) =>
      bool_decide (d_slot d (pp_ref_slot p) = Some k) && (pp_frame_num p =? (n + 1) mod 16)
      && negb (pp_setup_slot p =? pp_ref_slot p)
  | None => false
  end.

Section Pictures.
Context {G : Gpu}.

Definition plan (is_idr : bool) (r : VkRecorder) : PicParams :=
  (next_pic_params is_idr (vk_frame_num r) (vk_ref_slot r)).1.1.

(** For each request of a run, the [k]-th first, whether its picture is decodable, and
    whether it could be encoded. *)
Fixpoint pictures (qp : Z) (k : nat) (reqs : list ((nat + list Z) * bool)) (r : VkRecorder) (d : Dpb) :
    list (bool * bool) :=
  match reqs with
  | [] => []
  | (src, is_idr) :: reqs =>
      let p := plan is_idr r in
      let '(r', nal) := encode_picture qp src is_idr r in
      let ok := bool_decide (is_Some nal) in
      (decodable p d, ok) :: pictures qp (S k) reqs r' (if ok then delivered k p d else d)
  end.

Definition in_step (r : VkRecorder) (d : Dpb) : Prop :=
  vk_ref_slot r < 0 \/
  exists k n, d_last d = Some (k, n) /\ d_slot d (vk_ref_slot r) = Some k /\ vk_frame_num r = (n + 1) mod 16 /\
    0 <= n < 16 /\ (vk_ref_slot r = 0 \/ vk_ref_slot r = 1).

Lemma next_frame n : 0 <= n < 16 -> as_u 32 ((n + 1) mod 16 + 1) mod 16 = ((n + 1) mod 16 + 1) mod 16.
Proof. intros. pose proof (Z.mod_pos_bound (n + 1) 16). rewrite as_u_id by (red; lia). done. Qed.

Lemma encode_in_step qp src is_idr r d k r' nal :
  in_step r d -> encode_picture qp src is_idr r = (r', Some nal) ->
  decodable (plan is_idr r) d = true /\ in_step r' (delivered k (plan is_idr r) d).
Proof.
  intros Hs E. unfold encode_picture in E. unfold plan, next_pic_params in *.
  destruct (is_idr || (vk_ref_slot r <? 0)) eqn:C.
  - destruct gpu_encode as [g [x|]]; [|done]. cbn in E. injection E as <- <-. split; [done|]. right.
    exists k, 0. cbn. split_and!; try done; try lia.
  - apply orb_false_iff in C as [-> C]. apply Z.ltb_ge in C. destruct Hs as [|(j & n & L & S & F & N & R)]; [lia|].
    destruct gpu_encode as [g [x|]]; [|done]. cbn in E. injection E as <- <-. unfold decodable. cbn. rewrite L.
    split.
    + rewrite bool_decide_eq_true_2 by done. rewrite F, Z.eqb_refl. by destruct R as [-> | ->].
    + right. exists k, ((n + 1) mod 16). cbn. rewrite F, next_frame by done.
      pose proof (Z.mod_pos_bound (n + 1) 16). destruct R as [-> | ->]; cbn; split_and!; try done; try lia.
Qed.

(** C17: as long as no picture fails, the encoder's ping-pong between two slots is sound:
    in every run of keyframe and other requests from a new recorder, each picture refers
    to nothing or to exactly the picture before it, reconstructs into the other slot and
    carries the next frame number modulo 16. *)
Theorem pictures_decodable qp w h kind r reqs :
  recorder_new kind w h = Some r ->
  Forall (fun p => p.2 = true) (pictures qp 0 reqs r dpb_empty) ->
  Forall (fun p => p.1 = true) (pictures qp 0 reqs r dpb_empty).
Proof.
  intros Hr. assert (S : in_step r dpb_empty).
  { left. unfold recorder_new in Hr. repeat case_match; simplify_eq. cbn. lia. }
  clear Hr. revert r S. generalize dpb_empty, 0%nat. induction reqs as [|[src is_idr] reqs IH]; intros d k r S Ha; [constructor|].
  cbn [pictures] in *. destruct (encode_picture qp src is_idr r) as [r' nal] eqn:E.
  inversion Ha as [|? ? H1 H2]; subst. cbn [snd] in H1. destruct nal as [nal|]; [|done].
  destruct (encode_in_step qp src is_idr r d k r' nal S E) as [D S']. constructor; [done|]. by apply IH.
Qed.

(** A picture that fails leaves the recorder out of step: the plan of a predicted
    picture is kept although nothing was encoded, and the next predicted picture, which
    is encoded without complaint, carries a frame number no decoder of the stream
    accepts. *)
Theorem failed_picture_desyncs qp src r r' d src' r'' nal :
  in_step r d -> d_last d <> None -> 0 <= vk_ref_slot r ->
  encode_picture qp src false r = (r', None) -> encode_picture qp src' false r' = (r'', Some nal) ->
  nal_key nal = false /\ decodable (plan false r') d = false.
Proof.
  intros Hs Hl Hr E1 E2. destruct Hs as [|(k & n & L & S & F & N & R)]; [lia|].
  unfold encode_picture, next_pic_params in E1. cbn [orb] in E1.
  rewrite (proj2 (Z.ltb_ge _ _)) in E1 by done.
  destruct gpu_encode as [g [x|]]; [done|]. injection E1 as <-. rewrite F, next_frame in E2 |- * by done.
  unfold encode_picture, next_pic_params in E2. cbn [orb vk_ref_slot vk_frame_num] in E2.
  assert (C : ((if vk_ref_slot r =? 0 then 1 else 0) <? 0) = false) by (by destruct (vk_ref_slot r =? 0)).
  rewrite C in E2. destruct gpu_encode as [g' [y|]]; [|done]. cbn in E2. injection E2 as _ <-. split; [done|].
  unfold plan, next_pic_params. cbn [orb vk_ref_slot vk_frame_num]. rewrite C. unfold decodable.
  cbn [pp_is_idr fst orb pp_ref_slot pp_frame_num pp_setup_slot]. rewrite L.
  assert (Q : (((n + 1) mod 16 + 1) mod 16 =? (n + 1) mod 16) = false).
  { apply Z.eqb_neq. pose proof (Z.mod_pos_bound (n + 1) 16). intros Q.
    destruct (decide ((n + 1) mod 16 = 15)) as [E|E]; [rewrite E in Q; done|]. rewrite (Z.mod_small (_ + 1)) in Q by lia. lia. }
  by rewrite Q, andb_false_r.
Qed.
End Pictures.

(** ** Settings *)

(** No value of the environment can make a wait for the GPU last longer than ten
    seconds, the quantizer is always one of H.264's, and a size is padded to the next
    multiple of 64. *)
Theorem settings_in_range var dynamic n :
  0 <= fence_timeout_ns var <= 10000000000 /\ 0 <= vk_encode_qp dynamic var <= 51 /\
  (0 <= n <= 2 ^ 32 - 64 -> align_to_ctu n mod 64 = 0 /\ n <= align_to_ctu n < n + 64).
Proof.
  split; [|split].
  - unfold fence_timeout_ns, clamp_fence_timeout. destruct (var ≫= parse_unsigned 64) as [v|] eqn:E; cbn; [|lia].
    assert (0 <= v); [|lia]. destruct var as [s|]; [|done]. cbn in E. unfold parse_unsigned in E.
    assert (P : forall s a v, 0 <= a -> digits a s = Some v -> 0 <= v).
    { clear. induction s as [|c s IH]; intros a v Ha E; cbn in E; [by simplify_eq|].
      destruct (digit c) as [d|] eqn:Ed; [|done]. eapply IH; [|exact E]. unfold digit in Ed. case_match; boolz; simplify_eq. lia. }
    repeat case_match; simplify_eq; eapply P; try eassumption; lia.
  - unfold vk_encode_qp, clamp. repeat case_match; lia.
  - intros Hn. unfold align_to_ctu. rewrite as_u_id by (red; lia).
    assert (M : Z.land (n + 63) (Z.lxor (2 ^ 32 - 1) 63) = (n + 63) - (n + 63) mod 64).
    { change (Z.lxor (2 ^ 32 - 1) 63) with (Z.ldiff (Z.ones 32) (Z.ones 6)).
      rewrite Z.ldiff_land, Z.land_assoc, (Z.land_ones _ 32), Z.mod_small by lia.
      rewrite <- Z.ldiff_land, Z.ldiff_ones_r, Z.shiftl_mul_pow2, Z.shiftr_div_pow2 by lia.
      change (2 ^ 6) with 64. pose proof (Z.div_mod (n + 63) 64). lia. }
    rewrite M. pose proof (Z.mod_pos_bound (n + 63) 64). pose proof (Z.div_mod (n + 63) 64). split; [|lia].
    replace (n + 63 - (n + 63) mod 64) with ((n + 63) / 64 * 64) by lia. apply Z.mod_mul. lia.
Qed.

(** ** The probe and the selection *)

Lemma filter_nil {A} (p : A -> bool) l : List.filter p l = [] -> forall a, a ∈ l -> p a = false.
Proof.
  induction l as [|x l IH]; intros E a Ha; [by apply elem_of_nil in Ha|]. cbn in E.
  destruct (p x) eqn:Ex; [done|]. apply elem_of_cons in Ha as [->|Ha]; eauto.
Qed.

Lemma position_exists {A} (p : A -> bool) l i : position p l = Some i -> existsb p l = true.
Proof.
  revert i. induction l as [|x l IH]; intros i E; cbn in *; [done|]. destruct (p x); [done|].
  destruct (position p l) eqn:E'; [|done]. by erewrite IH.
Qed.

Lemma probe_reads ds : Forall (fun d => result_is_ok (pd_extensions d) = true) ds -> exists p, probe_devices ds = Ok p.
Proof.
  induction 1 as [|d ds Hd _ [p IH]]; [by eexists|]. cbn. destruct (pd_extensions d); [|done]. rewrite IH. by eexists.
Qed.

(** Where the extensions of every device can be read, a device the recorder would
    select is one the probe of the viewer reports. The converse fails: the probe asks
    for three of the six extensions and for no compute queue. *)
Theorem probe_weaker_than_select :
  (forall ds sel, Forall (fun d => result_is_ok (pd_extensions d) = true) ds ->
     select_physical_device ds = Ok sel -> probe_h264_vulkan_for_viewer ds = true) /\
  exists ds e, Forall (fun d => result_is_ok (pd_extensions d) = true) ds /\
     probe_h264_vulkan_for_viewer ds = true /\ select_physical_device ds = Err e.
Proof.
  split.
  - intros ds sel Hr. unfold select_physical_device, probe_h264_vulkan_for_viewer. generalize NoDevice.
    induction Hr as [|d ds Hd Hr IH]; intros e E; cbn [select_loop probe_devices] in *; [done|].
    destruct (pd_extensions d) as [exts|]; [|done]. destruct (probe_reads ds Hr) as [p Hp]. rewrite Hp in *.
    cbn. apply orb_true_iff. destruct (List.filter _ _) eqn:M; [|right; by eapply IH].
    destruct (position qf_encode _) eqn:Pe; [|right; by eapply IH].
    destruct (position qf_compute _); [|right; by eapply IH]. left.
    pose proof (filter_nil _ _ M) as Q. unfold REQUIRED_DEVICE_EXTENSION_NAMES in Q.
    assert (R : forall n, n ∈ REQUIRED_DEVICE_EXTENSION_NAMES -> has_ext n exts = true)
      by (intros nm Hn; apply negb_false_iff; by apply (Q nm)).
    rewrite !R by (unfold REQUIRED_DEVICE_EXTENSION_NAMES; set_solver). cbn. by eapply position_exists.
  - exists [{| pd_name := "igpu"; pd_extensions := Ok ["VK_KHR_video_queue"; "VK_KHR_video_encode_queue"; "VK_KHR_video_encode_h264"];
              pd_queues := [{| qf_encode := true; qf_compute := false |}] |}].
    eexists. split; [by repeat constructor|]. split; [vm_compute; reflexivity|]. cbn. reflexivity.
Qed.

(** ** Witnesses *)

Lemma sps_shows_size_witness :
  shown_width (build_h264_sps 1920 1080 Main420) = 1920 /\ shown_height (build_h264_sps 1920 1080 Main420) = 1080.
Proof. apply (sps_shows_size 1920 1080); lia || reflexivity. Defined.

Lemma lossless_sps_shows_padding_witness : shown_height (build_h264_sps 1920 1080 Hi444Lossless) = 1084.
Proof.
  destruct (lossless_sps_shows_padding 1920 1080 ltac:(lia) ltac:(lia)) as (_ & H & _).
  rewrite H. reflexivity.
Defined.

Lemma level_covers_witness : pick_h264_level 1920 1080 <= LEVEL_4_2.
Proof.
  destruct (level_covers 1920 1080 ltac:(lia) ltac:(lia) ltac:(vm_compute; discriminate)) as [_ H].
  apply H; [set_solver|]. vm_compute. discriminate.
Defined.

(** A driver with one parameter set of each kind, which fails its second picture. *)
Definition toy_sets : list (nat * list Z) := [(3%nat, [103; 77; 0; 42; 9]); (3%nat, [104; 238; 6])].

Definition toy_gpu (fails : nat -> bool) : Gpu := {|
  gpu_state := nat;
  gpu_open _ _ _ := Some 0%nat;
  gpu_parameters _ _ _ := Some tt;
  gpu_serialized _ := Ok (stream toy_sets);
  gpu_resources _ := Some tt;
  gpu_encode _ _ _ n := (S n, if fails n then None else Some [Z.of_nat n]);
|}.

Lemma clean_no_one n : n <> [] -> last n <> Some 0 -> Forall (fun b => b <> 1) n -> clean n.
Proof.
  intros H1 H2 H3. split_and!; [done..|]. intros i [_ Hi]. unfold code_at.
  destruct (Z.eqb_spec (nth i n 0) 1) as [E|]; [|done]. rewrite Forall_forall in H3.
  exfalso. apply (H3 (nth i n 0)); [|done]. apply list_elem_of_In, nth_In. exact Hi.
Qed.

Lemma toy_plain : Forall plain toy_sets.
Proof.
  apply Forall_cons_2; [|apply Forall_cons_2; [|constructor]]; (split; [by right|]);
    (apply clean_no_one; [done|done|]); repeat (apply Forall_cons_2; [cbn; lia|]); apply Forall_nil_2; exact I.
Qed.

Lemma private_data_reads_back_witness :
  exists private, create_parameters (G := toy_gpu (fun _ => false)) Main420 1920 1080 0%nat = Some (stream toy_sets, private) /\
    read_avcc private = Some (Avcc 77 42 4 [[103; 77; 0; 42; 9]] [[104; 238; 6]]).
Proof.
  apply (private_data_reads_back (G := toy_gpu (fun _ => false)) Main420 1920 1080 0%nat toy_sets
           [103; 77; 0; 42; 9] [] [104; 238; 6] []); try reflexivity; try (cbn; lia); [apply toy_plain|].
  repeat constructor.
Defined.

Lemma pictures_decodable_witness :
  Forall (fun p => p.1 = true)
    (pictures (G := toy_gpu (fun _ => false)) 20 0 [(inl 7%nat, true); (inl 7%nat, false); (inr [1], false); (inl 8%nat, true)]
       {| vk_gpu := (0%nat : gpu_state (Gpu := toy_gpu (fun _ => false)));
          vk_codec_private := [1; 77; 0; 42; 255; 225; 0; 5; 103; 77; 0; 42; 9; 1; 0; 3; 104; 238; 6];
          vk_sps_pps_annexb := stream toy_sets; vk_frame_num := 0; vk_ref_slot := -1 |} dpb_empty).
Proof.
  apply (pictures_decodable (G := toy_gpu (fun _ => false)) 20 1920 1080 Main420); [vm_compute; reflexivity|].
  repeat constructor.
Defined.

Lemma failed_picture_desyncs_witness :
  let G := toy_gpu (fun n => n =? 1)%nat in
  let rec n f s := {| vk_gpu := (n : gpu_state (Gpu := G)); vk_codec_private := []; vk_sps_pps_annexb := [];
                      vk_frame_num := f; vk_ref_slot := s |} in
  let d := delivered 0 idr_pic_params dpb_empty in
  encode_picture (G := G) 20 (inl 7%nat) false (rec 1%nat 1 0) = (rec 2%nat 2 1, None) /\
  decodable (plan (G := G) false (rec 2%nat 2 1)) d = false.
Proof.
  intros G rec d. split; [reflexivity|].
  apply (failed_picture_desyncs (G := G) 20 (inl 7%nat) (rec 1%nat 1 0) (rec 2%nat 2 1) d (inl 7%nat) (rec 3%nat 3 0)
           {| nal_data := [2]; nal_key := false |}); try reflexivity; try done.
  right. exists 0%nat, 0. cbn. split_and!; try done; lia.
Defined.
