(* ===== verification/ViewerEncoder.v ===== *)
(** * The viewer's encoders ([crates/waymux-session/src/viewer/encoder.rs])

    A viewer thread takes the latest task of its slot at a steady rate, encodes it or,
    when there is none, the last one again, and writes NAL units to the socket of the
    bridge. There are four of them: ffmpeg in a process of its own, and the Vulkan,
    CUDA and VA-API encoders inside the session. A turn is what the surroundings answer
    in one round of a loop; [None] says that the thread is still running when the turns
    are used up. The flags the control reader shares with the encoder are part of the
    encoder's state, and what was stored into them since they were last looked at is
    part of the turn. Clock readings are in nanoseconds; how long a round waits for a
    task shows only in the clock. The optional dump of the stream is left out. *)

From Stdlib Require Import ZArith Lia.
From stdpp Require Import prelude strings list pretty.
From S2P Require Import Prelude Words Decimal Io ViewerProtocol Messages Composite Floats Pixels Session SessionInput Recorder Ffmpeg H264.

Open Scope Z_scope.

Import Viewer.

(** ** Surroundings *)

Record VTurn := {
  v_stop : bool;                  (* the stop flag at the head of the loop *)
  v_head : Z;                     (* the clock there *)
  v_task : option RecordingTask;  (* what [take_blocking] returns *)
  v_stopped : bool;               (* the stop flag after the take *)
  v_ready : bool;                 (* the fence of the task's dmabuf *)
  v_raw : option (list Z);        (* its mapped bytes *)
  v_last_ready : bool;            (* the fence of the last frame's dmabuf *)
  v_force : bool;                 (* a keyframe was asked for before the flag is read *)
  v_force_late : bool;            (* and after it, while the frame is encoded *)
  v_bitrate : option Z;           (* a bitrate the bridge has set *)
  v_pts : Z;                      (* the clock when the frame is stamped *)
  v_sent : Z;                     (* when it has been sent *)
  v_adjust : Z;                   (* when the time since the last adjustment is taken *)
  v_adjusted : Z;                 (* when an adjustment is done *)
  v_end : Z;                      (* before the sleep at the end of the round *)
  v_wrote : bool;                 (* whether ffmpeg's input takes a frame *)
  v_cursor : CursorChannel;       (* the cursor channel when it is drained *)
}.

(** The variables of the environment the encoders read. *)
Record ViewerVars := {
  vv_codec : option string;        (* WAYMUX_VIEWER_CODEC *)
  vv_bitrate : option string;      (* WAYMUX_VIEWER_BITRATE_BPS *)
  vv_gop : option string;          (* WAYMUX_VIEWER_GOP *)
  vv_max_fps : option string;      (* WAYMUX_VIEWER_MAX_FPS *)
  vv_qp : option string;           (* WAYMUX_VK_ENCODE_QP *)
  vv_render_node : option string;  (* WAYMUX_VAAPI_RENDER_NODE *)
}.

(** A number of the environment, when it parses and is positive. *)
Definition positive_var (bits : Z) (var : option string) (dflt : Z) : Z :=
  match var ≫= parse_unsigned bits with
  | Some n => if 0 <? n then n else dflt
  | None => dflt
  end.

(** [next_tick] after the sleep at the end of a round. *)
Definition settle (tick now : Z) : Z := if now <? tick then tick else now.

Section Tasks.
Context {DB : Dmabufs}.

(** [task_to_nv12] *)
Definition task_to_nv12 (t : VTurn) (task : RecordingTask) : result (option (list Z * Z * Z)) stop :=
  match task with
  | TaskPixels pixels w h =>
      let need_nv12 := usize (usize (w * h) * 3) / 2 in
      let bgra_len := usize (usize (w * h) * 4) in
      if len pixels =? need_nv12 then Ok (Some (pixels, w, h))
      else if len pixels =? bgra_len then
        let? nv12 := bgra_to_nv12 pixels w h in Ok (Some (nv12, w, h))
      else Ok None
  | TaskDmabuf dma _ =>
      if negb (v_ready t) then Ok None
      else
        let '(w, h) := dma_size dma in
        match v_raw t with
        | None => Ok None
        | Some raw =>
            let? bgra := destride_bgra raw w h (dma_geometry dma).2 in
            let? nv12 := bgra_to_nv12 bgra w h in
            Ok (Some (nv12, w, h))
        end
  | TaskNal _ _ _ _ _ _ => Ok None
  end.

(** ** ffmpeg *)

(** A black frame, for a session that shows nothing yet. *)
Definition black_nv12 (width height : Z) : list Z :=
  let y_size := usize (width * height) in
  replicate (Z.to_nat y_size) 0 ++ replicate (Z.to_nat (y_size / 2)) 128.

Inductive nvenc_first :=
| NvWaiting
| NvStopped
| NvFirst (pixels : list Z) (w h : Z) (rest : list VTurn).

Fixpoint wait_nv12 (deadline width height : Z) (ts : list VTurn) : result nvenc_first stop :=
  match ts with
  | [] => Ok NvWaiting
  | t :: ts' =>
      if v_stop t then Ok NvStopped
      else if deadline <=? v_head t then Ok (NvFirst (black_nv12 width height) width height ts')
      else
        match v_task t with
        | None => wait_nv12 deadline width height ts'
        | Some task =>
            let? p := task_to_nv12 t task in
            match p with
            | Some (nv12, w, h) => Ok (NvFirst nv12 w h ts')
            | None => wait_nv12 deadline width height ts'
            end
        end
  end.

Definition raw_input (size : string) : list string :=
  ["-f"; "rawvideo"; "-pixel_format"; "nv12"; "-video_size"; size; "-framerate"; "60"; "-i"; "pipe:0"].

(** The arguments of ffmpeg. *)
Definition viewer_ffmpeg_args (vars : ViewerVars) (w h : Z) : list string :=
  let size := size_string w h in
  let codec_sel := default "" (vv_codec vars) in
  let bitrate := positive_var 32 (vv_bitrate vars) 4000000 in
  let gop := pretty (positive_var 32 (vv_gop vars) 60) in
  let bv := pretty bitrate in
  let bufsize := pretty (bitrate / 2) in
  let avg := pretty (Z.max (bitrate / 2) 500000) in
  let common := ["-hide_banner"; "-loglevel"; "error"] in
  if ((codec_sel =? "h264-vaapi") || (codec_sel =? "h264-vaapi-inproc"))%string then
    common ++ ["-vaapi_device"; "/dev/dri/renderD128"] ++ raw_input size ++
    ["-vf"; "format=nv12,hwupload"; "-c:v"; "h264_vaapi"; "-rc_mode"; "VBR"; "-b:v"; avg; "-maxrate"; bv;
     "-bufsize"; bufsize; "-g"; gop; "-bf"; "0"; "-f"; "h264"; "pipe:1"]
  else if ((codec_sel =? "h264-software") || (codec_sel =? "x264"))%string then
    common ++ raw_input size ++
    ["-c:v"; "libx264"; "-preset"; "superfast"; "-tune"; "zerolatency"; "-profile:v"; "baseline"; "-bf"; "0";
     "-g"; gop; "-b:v"; bv; "-maxrate"; bv; "-bufsize"; bufsize; "-f"; "h264"; "pipe:1"]
  else
    common ++ raw_input size ++
    ["-c:v"; "h264_nvenc"; "-preset"; "p1"; "-rc"; "cbr"; "-zerolatency"; "1"; "-tune"; "ull"; "-profile:v"; "baseline";
     "-bf"; "0"; "-g"; gop; "-b:v"; bv; "-f"; "h264"; "pipe:1"].

(** [1_000_000_000 / min_fps] *)
Definition NVENC_TICK : Z := 1000000000 / 60.

(** Ffmpeg's input: the frame to write next, what was written, the next tick. *)
Record Nvenc := {
  nv_last : list Z;
  nv_written : list (list Z);
  nv_tick : Z;
  nv_force : bool;
}.

#[export] Instance eta_Nvenc : Eta Nvenc := fun s =>
  Build_Nvenc (nv_last s) (nv_written s) (nv_tick s) (nv_force s).

Fixpoint nvenc_loop (w h : Z) (ts : list VTurn) (s : Nvenc) : result (option Nvenc) stop :=
  match ts with
  | [] => Ok None
  | t :: ts' =>
      if v_stop t then Ok (Some s)
      else
        let s := s <| nv_force ::= orb (v_force t) |> in
        let now := v_head t in
        if nv_tick s <=? now then
          let s := s <| nv_force := false |> in
          if negb (v_wrote t) then Ok (Some s)
          else
            nvenc_loop w h ts'
              (s <| nv_written ::= (fun l => l ++ [nv_last s]) |>
                 <| nv_tick := if now <? nv_tick s + NVENC_TICK then nv_tick s + NVENC_TICK else now + NVENC_TICK |>)
        else
          match v_task t with
          | None => nvenc_loop w h ts' s
          | Some task =>
              let? p := task_to_nv12 t task in
              match p with
              | None => nvenc_loop w h ts' s
              | Some (nv12, fw, fh) =>
                  if negb ((fw =? w) && (fh =? h)) then Ok (Some s)
                  else nvenc_loop w h ts' (s <| nv_last := nv12 |>)
              end
          end
  end.

(** What came of ffmpeg: not started, or its arguments and the frames it was given. *)
Inductive nvenc_end :=
| NvNothing
| NvFed (args : list string) (s : Nvenc).

(** [began] is the clock when the thread starts, [start] when the first tick is set;
    [spawned], [cloned] and [first_ok] say whether ffmpeg starts, the socket can be
    cloned and the first frame is taken. *)
Definition run_nvenc_encoder (vars : ViewerVars) (width height began start : Z) (spawned cloned first_ok : bool)
    (ts : list VTurn) : result (option nvenc_end) stop :=
  let? first := wait_nv12 (began + 2000000000) width height ts in
  match first with
  | NvWaiting => Ok None
  | NvStopped => Ok (Some NvNothing)
  | NvFirst last_pixels w h rest =>
      let args := viewer_ffmpeg_args vars w h in
      if negb spawned then Ok (Some NvNothing)
      else if negb cloned then Ok (Some NvNothing)
      else
        let s := {| nv_last := last_pixels; nv_written := []; nv_tick := start + NVENC_TICK;
                    nv_force := false |} in
        if negb first_ok then Ok (Some (NvFed args s))
        else
          let? r := nvenc_loop w h rest (s <| nv_written := [last_pixels] |>) in
          Ok (NvFed args <$> r)
  end.
End Tasks.

(** ** Rate control *)

(** [1.10], [1.6], [0.65] and [0.2] *)
Definition f64_1_10 : f64 := f64_of_bits 0x3FF199999999999A.
Definition f64_1_6 : f64 := f64_of_bits 0x3FF999999999999A.
Definition f64_0_65 : f64 := f64_of_bits 0x3FE4CCCCCCCCCCCD.
Definition f64_0_2 : f64 := f64_of_bits 0x3FC999999999999A.

Definition adaptive_qp_step (qp : Z) (measured_bps target_bps : f64) : Z :=
  let next :=
    if f64_lt (f64_mul target_bps f64_1_10) measured_bps then
      qp + (if f64_lt (f64_mul target_bps f64_1_6) measured_bps then 2 else 1)
    else if f64_lt measured_bps (f64_mul target_bps f64_0_65) then qp - 1
    else qp in
  clamp 18 44 next.

(** The bits per second of a window of [bytes] that spans [ns]. *)
Definition measured_rate (bytes ns : Z) : f64 :=
  f64_div (f64_mul (f64_of_int bytes) (f64_of_int 8)) (f64_max (as_secs_f64 ns) f64_0_2).

(** ** Vulkan *)

Definition GOP_LEN : Z := 12.
Definition MAX_CONSEC_FAIL : Z := 90.

Section Vulkan.
Context {DB : Dmabufs} {G : Gpu} {W : Type} `{Write W}.

Record VkEnc := {
  ve_rec : VkRecorder;
  ve_w : W;
  ve_gop : Z;                      (* [gop_pos] *)
  ve_force : bool;                 (* [force_idr] *)
  ve_target : Z;                   (* [target_bitrate] *)
  ve_window : list (Z * Z);        (* [byte_window] *)
  ve_bytes : Z;                    (* [window_bytes] *)
  ve_qp : Z;                       (* [dyn_qp] *)
  ve_dynamic : Z;                  (* the global VIEWER_DYNAMIC_QP *)
  ve_adjust : Z;                   (* [last_qp_adjust] *)
  ve_dmabuf : option nat;          (* [last_dmabuf] *)
  ve_bgra : option (list Z);       (* [last_bgra] *)
  ve_fail : Z;                     (* [consec_fail] *)
  ve_tick : Z;                     (* [next_tick] *)
  ve_wedged : bool;                (* the global GPU_WEDGED *)
}.

#[export] Instance eta_VkEnc : Eta VkEnc := fun s =>
  Build_VkEnc (ve_rec s) (ve_w s) (ve_gop s) (ve_force s) (ve_target s) (ve_window s) (ve_bytes s) (ve_qp s)
    (ve_dynamic s) (ve_adjust s) (ve_dmabuf s) (ve_bgra s) (ve_fail s) (ve_tick s) (ve_wedged s).

(** [encode_dmabuf] or [encode_bgra] of the recorder, at the quantizer in force. *)
Definition vk_encode (vars : ViewerVars) (src : nat + list Z) (is_idr : bool) (s : VkEnc) : VkEnc * option Nal :=
  let '(r, nal) := encode_picture (constant_qp Main420 (ve_dynamic s) (vv_qp vars)) src is_idr (ve_rec s) in
  (s <| ve_rec := r |>, nal).

(** The last source again. *)
Definition vk_encode_last (vars : ViewerVars) (is_idr : bool) (s : VkEnc) : VkEnc * option Nal :=
  match ve_dmabuf s, ve_bgra s with
  | Some d, _ => vk_encode vars (inl d) is_idr s
  | None, Some b => vk_encode vars (inr b) is_idr s
  | None, None => (s, None)
  end.

(** The picture of a round. *)
Definition vk_picture (vars : ViewerVars) (w h : Z) (t : VTurn) (is_idr : bool) (s : VkEnc) : VkEnc * option Nal :=
  match v_task t with
  | Some (TaskDmabuf dma _) =>
      if negb (bool_decide (dma_size dma = (w, h))) then (s, None)
      else if negb (v_ready t) then vk_encode_last vars is_idr s
      else
        let '(s, n) := vk_encode vars (inl dma) is_idr s in
        (s <| ve_dmabuf := Some dma |> <| ve_bgra := None |>, n)
  | Some (TaskPixels pixels fw fh) =>
      if negb ((fw =? w) && (fh =? h)) then (s, None)
      else if len pixels =? usize (usize (fw * fh) * 4) then
        let '(s, n) := vk_encode vars (inr pixels) is_idr s in
        (s <| ve_bgra := Some pixels |> <| ve_dmabuf := None |>, n)
      else (s, None)
  | Some (TaskNal _ _ _ _ _ _) | None =>
      match ve_dmabuf s with
      | Some _ => if v_last_ready t then vk_encode_last vars is_idr s else (s, None)
      | None => vk_encode_last vars is_idr s
      end
  end.

(** Keyframes carry the parameter sets. *)
Definition framed_nal (prefix : list Z) (n : Nal) : list Z := (if nal_key n then prefix else []) ++ nal_data n.

(** What the window holds once it is cut to a second. *)
Fixpoint trim_window (now : Z) (window : list (Z * Z)) (bytes : Z) : list (Z * Z) * Z :=
  match window with
  | [] => ([], bytes)
  | (t, b) :: rest => if 1000000000 <? now - t then trim_window now rest (usize (bytes - b)) else (window, bytes)
  end.

Definition count_bytes (now sent_bytes : Z) (s : VkEnc) : VkEnc :=
  let '(window, bytes) := trim_window now (ve_window s ++ [(now, sent_bytes)]) (usize (ve_bytes s + sent_bytes)) in
  s <| ve_window := window |> <| ve_bytes := bytes |>.

(** At most four times a second. *)
Definition adjust_qp (default_target : Z) (t : VTurn) (s : VkEnc) : VkEnc :=
  if 250000000 <=? v_adjust t - ve_adjust s then
    let s :=
      match head (ve_window s), last (ve_window s) with
      | Some (oldest, _), Some (newest, _) =>
          let target := if 0 <? ve_target s then ve_target s else default_target in
          let qp := adaptive_qp_step (ve_qp s) (measured_rate (ve_bytes s) (Z.max 0 (newest - oldest))) (f64_of_int target) in
          s <| ve_qp := qp |> <| ve_dynamic := if qp =? ve_qp s then ve_dynamic s else qp |>
      | _, _ => s
      end in
    s <| ve_adjust := v_adjusted t |>
  else s.

(** A keyframe: on request, at first, and when the group is full. *)
Definition wants_idr (s : VkEnc) : bool := ve_force s || (ve_gop s =? 0) || (GOP_LEN <=? ve_gop s).

(** One round, after the checks of the stop flag; the request is taken before it is
    known whether a picture comes of it. The result says whether to go on. *)
Definition vk_round (vars : ViewerVars) (w h : Z) (prefix : list Z) (t : VTurn) (s : VkEnc) : VkEnc * bool :=
  let is_idr := wants_idr s in
  let '(s, nal) := vk_picture vars w h t is_idr s in
  let s := s <| ve_force := v_force_late t |> in
  match nal with
  | None =>
      let s := s <| ve_fail ::= (fun n => as_u 32 (n + 1)) |> in
      if MAX_CONSEC_FAIL <=? ve_fail s then (s <| ve_wedged := true |>, false)
      else (s <| ve_tick ::= (fun tick => settle tick (v_end t)) |>, true)
  | Some nal =>
      let s := s <| ve_fail := 0 |> <| ve_gop ::= (fun g => if nal_key nal then 1 else as_u 64 (g + 1)) |> in
      let framed := framed_nal prefix nal in
      match write_frame (Nalu framed) (ve_w s) with
      | (sock, Err _) => (s <| ve_w := sock |>, false)
      | (sock, Ok _) =>
          let s := s <| ve_w := sock |> in
          let s := count_bytes (v_sent t) (len framed) s in
          let s := adjust_qp (positive_var 32 (vv_bitrate vars) 1500000) t s in
          (s <| ve_tick ::= (fun tick => settle tick (v_end t)) |>, true)
      end
  end.

(** The tick of a round; a backlog is dropped. *)
Definition next_tick (interval now tick : Z) : Z :=
  let tick := tick + interval in if tick + interval <? now then now else tick.

Definition vk_head (interval : Z) (t : VTurn) (s : VkEnc) : VkEnc :=
  s <| ve_tick ::= next_tick interval (v_head t) |>
    <| ve_force ::= orb (v_force t) |>
    <| ve_target ::= (fun b => default b (v_bitrate t)) |>.

Fixpoint vk_loop (vars : ViewerVars) (w h interval : Z) (prefix : list Z) (ts : list VTurn) (s : VkEnc) : option VkEnc :=
  match ts with
  | [] => None
  | t :: ts' =>
      if v_stop t then Some s
      else
        let s := vk_head interval t s in
        if v_stopped t then Some s
        else
          let '(s, go_on) := vk_round vars w h prefix t s in
          if go_on then vk_loop vars w h interval prefix ts' s else Some s
  end.

(** A first frame of a usable size, with the turn that brought it; [None]: stopped. *)
Fixpoint wait_usable (ts : list VTurn) : option (option ((nat + list Z) * Z * Z * VTurn * list VTurn)) :=
  match ts with
  | [] => None
  | t :: ts' =>
      if v_stop t then Some None
      else
        match v_task t with
        | Some (TaskPixels pixels w h) =>
            if (MIN_DIM <=? w) && (MIN_DIM <=? h) then Some (Some (inr pixels, w, h, t, ts')) else wait_usable ts'
        | Some (TaskDmabuf dma _) =>
            let '(w, h) := dma_size dma in
            if (MIN_DIM <=? w) && (MIN_DIM <=? h) then Some (Some (inl dma, w, h, t, ts')) else wait_usable ts'
        | _ => wait_usable ts'
        end
  end.

Definition initial_qp (var : option string) : Z :=
  match var ≫= parse_signed 32 with Some q => clamp 18 44 q | None => 26 end.

(** The first frame: a keyframe; [false] when the socket fails. *)
Definition vk_first (vars : ViewerVars) (prefix : list Z) (src : nat + list Z) (t : VTurn) (s : VkEnc) : VkEnc * bool :=
  let '(s, nal) :=
    match src with
    | inr p => let '(s, n) := vk_encode vars (inr p) true s in (s <| ve_bgra := Some p |>, n)
    | inl dma =>
        let '(s, n) := if v_ready t then vk_encode vars (inl dma) true s else (s, None) in
        (s <| ve_dmabuf := Some dma |>, n)
    end in
  match nal with
  | None => (s <| ve_force := false |>, true)
  | Some nal =>
      let s := s <| ve_gop := 1 |> in
      match write_frame (Nalu (prefix ++ nal_data nal)) (ve_w s) with
      | (sock, Err _) => (s <| ve_w := sock |>, false)
      | (sock, Ok _) =>
          (s <| ve_w := sock |> <| ve_force := false |>, true)
      end
  end.

Definition vk_start (vars : ViewerVars) (r : VkRecorder) (sock : W) (adjust tick : Z) : VkEnc :=
  let qp := initial_qp (vv_qp vars) in
  {| ve_rec := r; ve_w := sock; ve_gop := 0; ve_force := false; ve_target := 0; ve_window := []; ve_bytes := 0;
     ve_qp := qp; ve_dynamic := qp; ve_adjust := adjust; ve_dmabuf := None; ve_bgra := None; ve_fail := 0;
     ve_tick := tick; ve_wedged := false |}.

(** How an encoder ends: before it has used its socket, or with its last state. *)
Inductive vk_end :=
| VkNothing
| VkLost (s : VkEnc)      (* the first write failed; the quantizer stays overridden *)
| VkStopped (s : VkEnc).

(** [adjust] and [tick] are the clock when the rate control and the loop start. *)
Definition run_vulkan_encoder (vars : ViewerVars) (sock : W) (cloned : bool) (adjust tick : Z) (ts : list VTurn) :
    option vk_end :=
  match wait_usable ts with
  | None => None
  | Some None => Some VkNothing
  | Some (Some (src, w, h, t, ts)) =>
      match try_new w h with
      | None => Some VkNothing
      | Some r =>
          if negb cloned then Some VkNothing
          else
            let prefix := vk_sps_pps_annexb r in
            let interval := 1000000000 / positive_var 64 (vv_max_fps vars) 60 in
            let '(s, ok) := vk_first vars prefix src t (vk_start vars r sock adjust tick) in
            if negb ok then Some (VkLost s)
            else (fun s => VkStopped (s <| ve_dynamic := -1 |>)) <$> vk_loop vars w h interval prefix ts s
      end
  end.
End Vulkan.

(** ** CUDA and VA-API *)

(** What the cursor channel holds, as frames. *)
Definition cursor_frame (u : CursorUpdate) : Frame :=
  match u with
  | UpdImage i => CursorImage (ci_w i) (ci_h i) (ci_hot_x i) (ci_hot_y i) (ci_rgba i)
  | UpdPos p => CursorPos (f32_to_bits (cp_x p)) (f32_to_bits (cp_y p)) (cp_seq p)
  end.

Section Live.
Context {DB : Dmabufs} {W : Type} `{Write W} {S : Type}.

(** The state the two loops share, over an encoder [S]. *)
Record Live := {
  lv_enc : S;
  lv_w : W;
  lv_force : bool;
  lv_target : Z;
  lv_tick : Z;
}.

#[export] Instance eta_Live : Eta Live := fun s =>
  Build_Live (lv_enc s) (lv_w s) (lv_force s) (lv_target s) (lv_tick s).

(** A frame that was encoded goes out; only then the request it serves is cleared, with
    whatever was asked for meanwhile. *)
Definition live_send (idr : bool) (t : VTurn) (nal : option Nal) (s : Live) : Live * bool :=
  let s := s <| lv_force ::= orb (v_force_late t) |> in
  match nal with
  | None => (s, true)
  | Some nal =>
      match write_frame (Nalu (nal_data nal)) (lv_w s) with
      | (sock, Err _) => (s <| lv_w := sock |>, false)
      | (sock, Ok _) =>
          (s <| lv_w := sock |> <| lv_force ::= (fun f => if idr then false else f) |>, true)
      end
  end.

(** The queued cursor updates, on the same socket. *)
Definition live_cursor (t : VTurn) (s : Live) : Live * bool :=
  let '(sock, r) := write_frames (cursor_frame <$> (drain (v_cursor t)).2) (lv_w s) in
  (s <| lv_w := sock |>, result_is_ok r).

(** What came in since the last round: requests and a bitrate, which is applied. *)
Definition live_inbox (reconfigure : Z -> S -> S) (t : VTurn) (s : Live) : Live :=
  let s := s <| lv_force ::= orb (v_force t) |> <| lv_target ::= (fun b => default b (v_bitrate t)) |> in
  let new_bps := lv_target s in
  let s := s <| lv_target := 0 |> in
  if 0 <? new_bps then s <| lv_enc ::= reconfigure new_bps |> else s.

(** [picture] encodes what the turn brought; [None]: the thread ends. *)
Definition live_round (reconfigure : Z -> S -> S)
    (picture : VTurn -> bool -> S -> result (S * option (option Nal)) stop) (t : VTurn) (s : Live) :
    result (Live * bool) stop :=
  let s := live_inbox reconfigure t s in
  let idr := lv_force s in
  let? r := picture t idr (lv_enc s) in
  let s := s <| lv_enc := r.1 |> in
  match r.2 with
  | None => Ok (s, false)
  | Some nal =>
      let '(s, ok) := live_send idr t nal s in
      if negb ok then Ok (s, false)
      else
        let '(s, ok) := live_cursor t s in
        if negb ok then Ok (s, false)
        else Ok (s <| lv_tick ::= (fun tick => settle tick (v_end t)) |>, true)
  end.

Fixpoint live_loop (interval : Z) (reconfigure : Z -> S -> S)
    (picture : VTurn -> bool -> S -> result (S * option (option Nal)) stop) (ts : list VTurn) (s : Live) :
    result (option Live) stop :=
  match ts with
  | [] => Ok None
  | t :: ts' =>
      if v_stop t then Ok (Some s)
      else
        let? r := live_round reconfigure picture t (s <| lv_tick ::= Z.add interval |>) in
        if r.2 then live_loop interval reconfigure picture ts' r.1 else Ok (Some r.1)
  end.

(** The first frame, always a keyframe; afterwards the flag is cleared. *)
Definition live_first (nal : option Nal) (s : Live) : Live * bool :=
  match nal with
  | None => (s <| lv_force := false |>, true)
  | Some nal =>
      match write_frame (Nalu (nal_data nal)) (lv_w s) with
      | (sock, Err _) => (s <| lv_w := sock |>, false)
      | (sock, Ok _) => (s <| lv_w := sock |> <| lv_force := false |>, true)
      end
  end.
End Live.
Arguments Live : clear implicits.

(** [CudaNvencRecorder]: opened for a size; encodes a dmabuf, packed pixels with their
    size, or the last frame again. *)
Class CudaEncoder := {
  cu_state : Type;
  cu_new : Z -> Z -> option cu_state;
  cu_dmabuf : nat -> Z -> bool -> cu_state -> cu_state * option Nal;
  cu_pixels : list Z -> Z -> Z -> Z -> bool -> cu_state -> cu_state * option Nal;
  cu_again : Z -> bool -> cu_state -> cu_state * option Nal;
  cu_bitrate : Z -> cu_state -> cu_state;
}.

(** [VaapiH264Encoder]: opened with the render node, size, peak bitrate, length of a
    group and frame rate. *)
Class VaapiEncoder := {
  va_state : Type;
  va_open : string -> Z -> Z -> Z -> Z -> Z -> option va_state;
  va_nv12 : list Z -> Z -> bool -> va_state -> va_state * option Nal;
  va_dmabuf : nat -> Z -> bool -> va_state -> va_state * option Nal;
  va_again : Z -> bool -> va_state -> va_state * option Nal;
  va_no_zero_copy : va_state -> bool;
  va_bitrate : Z -> va_state -> va_state;
}.

Section InProcess.
Context {DB : Dmabufs} {W : Type} `{Write W} {CE : CudaEncoder} {VA : VaapiEncoder}.

Abbreviation go r := (Ok (r.1, Some r.2)).

(** The picture of a round of the CUDA encoder. *)
Definition cuda_picture (start : Z) (t : VTurn) (idr : bool) (e : cu_state) :
    result (cu_state * option (option Nal)) stop :=
  let pts_us := elapsed_us start (v_pts t) in
  match v_task t with
  | Some (TaskDmabuf dma _) => if v_ready t then go (cu_dmabuf dma pts_us idr e) else go (cu_again pts_us idr e)
  | Some (TaskPixels pixels w h) => go (cu_pixels pixels w h pts_us idr e)
  | Some (TaskNal _ _ _ _ _ _) => Ok (e, Some None)
  | None => go (cu_again pts_us idr e)
  end.

(** [FRAME_INTERVAL] *)
Definition CUDA_INTERVAL : Z := 16666000.

(** Handed back, with the turns that are left, or ended. *)
Inductive cuda_end :=
| CudaFallback (rest : list VTurn)
| CudaNothing
| CudaStopped (s : Live W cu_state).

Definition live_start {S} (e : S) (sock : W) (tick : Z) : Live W S :=
  {| lv_enc := e; lv_w := sock; lv_force := false; lv_target := 0; lv_tick := tick |}.

Definition run_cuda_nvenc_encoder (sock : W) (cloned : bool) (start tick : Z) (ts : list VTurn) :
    result (option cuda_end) stop :=
  match wait_usable ts with
  | None => Ok None
  | Some None => Ok (Some CudaNothing)
  | Some (Some (src, w, h, t, ts)) =>
      match cu_new w h with
      | None => Ok (Some (CudaFallback ts))
      | Some e =>
          if negb cloned then Ok (Some CudaNothing)
          else
            let '(e, nal) :=
              match src with
              | inl dma => if v_ready t then cu_dmabuf dma 0 true e else (e, None)
              | inr pixels => cu_pixels pixels w h 0 true e
              end in
            let '(s, ok) := live_first nal (live_start e sock tick) in
            if negb ok then Ok (Some (CudaStopped s))
            else
              let? r := live_loop CUDA_INTERVAL cu_bitrate (cuda_picture start) ts s in
              Ok (CudaStopped <$> r)
      end
  end.

(** The picture of a round of the VA-API encoder. *)
Definition vaapi_picture (w h start : Z) (t : VTurn) (idr : bool) (e : va_state) :
    result (va_state * option (option Nal)) stop :=
  let pts_us := elapsed_us start (v_pts t) in
  match v_task t with
  | Some (TaskDmabuf dma hs) =>
      if negb (v_ready t) then go (va_again pts_us idr e)
      else
        let '(e, zc) := if va_no_zero_copy e then (e, None) else va_dmabuf dma pts_us idr e in
        match zc with
        | Some n => Ok (e, Some (Some n))
        | None =>
            let? p := task_to_nv12 t (TaskDmabuf dma hs) in
            match p with
            | Some (nv12, fw, fh) =>
                if (fw =? w) && (fh =? h) then go (va_nv12 nv12 pts_us idr e) else go (va_again pts_us idr e)
            | None => go (va_again pts_us idr e)
            end
        end
  | Some (TaskPixels pixels pw ph) =>
      let? p := task_to_nv12 t (TaskPixels pixels pw ph) in
      match p with
      | Some (nv12, fw, fh) =>
          if negb ((fw =? w) && (fh =? h)) then Ok (e, None) else go (va_nv12 nv12 pts_us idr e)
      | None => go (va_again pts_us idr e)
      end
  | _ => go (va_again pts_us idr e)
  end.

(** A frame rate between 5 and 120. *)
Definition vaapi_fps (var : option string) : Z :=
  match var ≫= parse_unsigned 32 with
  | Some f => if (5 <=? f) && (f <=? 120) then f else 30
  | None => 30
  end.

Fixpoint wait_vaapi (ts : list VTurn) : result (option (option (list Z * Z * Z * list VTurn))) stop :=
  match ts with
  | [] => Ok None
  | t :: ts' =>
      if v_stop t then Ok (Some None)
      else
        match v_task t with
        | None => wait_vaapi ts'
        | Some task =>
            let? p := task_to_nv12 t task in
            match p with
            | Some (nv12, fw, fh) =>
                if (MIN_DIM <=? fw) && (MIN_DIM <=? fh) then Ok (Some (Some (nv12, fw, fh, ts'))) else wait_vaapi ts'
            | None => wait_vaapi ts'
            end
        end
  end.

Inductive vaapi_end :=
| VaFallback (rest : list VTurn)     (* to [run_nvenc_encoder] *)
| VaNothing
| VaStopped (s : Live W va_state).

Definition run_vaapi_inprocess_encoder (vars : ViewerVars) (sock : W) (cloned : bool) (start tick : Z)
    (ts : list VTurn) : result (option vaapi_end) stop :=
  let node := default "/dev/dri/renderD128" (vv_render_node vars) in
  let peak_bps := positive_var 32 (vv_bitrate vars) 6000000 in
  let gop := positive_var 32 (vv_gop vars) 120 in
  let max_fps := vaapi_fps (vv_max_fps vars) in
  let? first := wait_vaapi ts in
  match first with
  | None => Ok None
  | Some None => Ok (Some VaNothing)
  | Some (Some (nv12, w, h, ts)) =>
      match va_open node w h peak_bps gop max_fps with
      | None => Ok (Some (VaFallback ts))
      | Some e =>
          if negb cloned then Ok (Some VaNothing)
          else
            let '(e, nal) := va_nv12 nv12 0 true e in
            let '(s, ok) := live_first nal (live_start e sock tick) in
            if negb ok then Ok (Some (VaStopped s))
            else
              let? r := live_loop (1000000000 / max_fps) va_bitrate (vaapi_picture w h start) ts s in
              Ok (VaStopped <$> r)
      end
  end.
End InProcess.

(** ** The thread *)

Section Thread.
Context {DB : Dmabufs} {G : Gpu} {CE : CudaEncoder} {VA : VaapiEncoder} {W : Type} `{Write W}.

(** What the surroundings of a thread answer once: the clock and whether system calls
    work. *)
Record Start := {
  st_began : Z;        (* the clock when the ffmpeg encoder starts to wait *)
  st_clock : Z;        (* the clock when a loop starts *)
  st_cloned : bool;    (* the socket can be cloned *)
  st_spawned : bool;   (* ffmpeg starts *)
  st_fed : bool;       (* and takes its first frame *)
}.

(** What an encoder thread did. *)
Inductive encoder_end :=
| EndNothing
| EndFfmpeg (e : nvenc_end)
| EndVulkan (e : vk_end (W := W))
| EndCuda (e : cuda_end (W := W))
| EndVaapi (e : vaapi_end (W := W)).

Definition nvenc (vars : ViewerVars) (width height : Z) (st : Start) (ts : list VTurn) :
    result (option encoder_end) stop :=
  let? r := run_nvenc_encoder vars width height (st_began st) (st_clock st) (st_spawned st) (st_cloned st) (st_fed st) ts in
  Ok (EndFfmpeg <$> r).

Definition vulkan (vars : ViewerVars) (sock : W) (st : Start) (ts : list VTurn) : result (option encoder_end) stop :=
  Ok (EndVulkan <$> run_vulkan_encoder vars sock (st_cloned st) (st_clock st) (st_clock st) ts).

(** The body of [spawn_encoder_thread]; [probe_nvenc] and [probe_vulkan] answer the two
    probes. *)
Definition encoder_thread (codec : RecordingCodec) (vars : ViewerVars) (width height : Z) (sock : W)
    (probe_nvenc probe_vulkan : bool) (st : Start) (ts : list VTurn) : result (option encoder_end) stop :=
  match codec with
  | H264Nvenc => nvenc vars width height st ts
  | H264Vulkan => vulkan vars sock st ts
  | H264Vaapi =>
      let? r := run_vaapi_inprocess_encoder vars sock (st_cloned st) (st_clock st) (st_clock st) ts in
      match r with
      | Some (VaFallback rest) => nvenc vars width height st rest
      | _ => Ok (EndVaapi <$> r)
      end
  | CudaNvenc =>
      let? r := run_cuda_nvenc_encoder sock (st_cloned st) (st_clock st) (st_clock st) ts in
      match r with
      | Some (CudaFallback rest) =>
          if probe_nvenc then nvenc vars width height st rest
          else if probe_vulkan then vulkan vars sock st rest
          else Ok (Some EndNothing)
      | _ => Ok (EndCuda <$> r)
      end
  | _ => Ok (Some EndNothing)
  end.
End Thread.

(** ** The control reader *)

(** What the reader shares: the session, the keyframe flag, the bitrate, the stop flag. *)
Record Shared := {
  sh_state : State;
  sh_force : bool;
  sh_target : Z;
  sh_stop : bool;
}.

#[export] Instance eta_Shared : Eta Shared := fun s =>
  Build_Shared (sh_state s) (sh_force s) (sh_target s) (sh_stop s).

Section Control.
(** [serde_json::from_slice] for an operation. *)
Context (parse_op : list Z -> option Op.InjectOp).

Definition pressed (s : KeyState) : bool := match s with Pressed => true | Released => false end.

(** One operation of the viewer; touches are dropped. *)
Definition viewer_op (op : Op.InjectOp) (st : State) : result State stop :=
  match op with
  | Op.Key keycode s modifiers => Ok (inject_key keycode (pressed s) modifiers 0 0 0 st).1
  | Op.Pointer x y button s ax ay window_id content seq =>
      let? r := inject_pointer window_id content (f64_of_bits x) (f64_of_bits y) button (pressed s)
                  (f64_of_bits ax) (f64_of_bits ay) seq st in
      Ok r.1
  | Op.Touch _ _ _ _ _ _ => Ok st
  end.

(** One frame from the bridge; the result says whether to go on. *)
Definition on_control (f : Frame) (s : Shared) : result (Shared * bool) stop :=
  match f with
  | ForceKeyframe => Ok (s <| sh_force := true |>, true)
  | SetBitrate bps => Ok (s <| sh_target := bps |>, true)
  | InjectOp json =>
      match parse_op json with
      | None => Ok (s, true)
      | Some op => let? st := viewer_op op (sh_state s) in Ok (s <| sh_state := st |>, true)
      end
  | Shutdown _ => Ok (s <| sh_stop := true |>, false)
  | _ => Ok (s, true)
  end.

(** The loop of [spawn_control_reader] over what the bridge has sent before it closed
    the socket; [stops] is the stop flag before each read. *)
Fixpoint control_reader (fuel : nat) (stops : nat -> bool) (sock : list Z) (s : Shared) : result (option Shared) stop :=
  match fuel with
  | O => Ok None
  | Datatypes.S fuel =>
      if stops O || sh_stop s then Ok (Some s)
      else
        match read_frame sock with
        | (_, Err _) => Ok (Some (s <| sh_stop := true |>))
        | (sock, Ok f) =>
            let? r := on_control f s in
            if r.2 then control_reader fuel (fun n => stops (Datatypes.S n)) sock r.1 else Ok (Some r.1)
        end
  end.
End Control.
