(* ===== verification/ViewerEncoderProps.v ===== *)
(** * What the viewer's encoders promise

    The stream of the Vulkan encoder and its rate control, the fate of keyframe requests
    and of resized windows, the pace of all loops, what ffmpeg is fed, and the control
    reader. *)

From Stdlib Require Import ZArith Lia.
From stdpp Require Import prelude strings list pretty.
From S2P Require Import Prelude Words Decimal Io ViewerProtocol Messages Composite Floats Pixels Session SessionInput Recorder Ffmpeg FfmpegProps H264 AnnexB H264Props ViewerEncoder.

Open Scope Z_scope.

Import Viewer.

(** ** Sending frame by frame *)

Section Frames.
Context {W : Type} `{Write W}.

(** What was sent reached the socket: all of it, or all but a part of the last. *)
Definition reached (fs : list Frame) (w0 w : W) : Prop := exists r, write_frames fs w0 = (w, r).

Lemma write_frames_snoc fs f (w0 w : W) :
  write_frames fs w0 = (w, Ok ()) -> write_frames (fs ++ [f]) w0 = write_frame f w.
Proof.
  revert w0. induction fs as [|g fs IH]; intros w0; cbn [write_frames app].
  - unfold mret, eff_mret. intros [= <-]. unfold mbind, eff_mbind. by destruct (write_frame f w0) as [w1 [[]|]].
  - unfold mbind, eff_mbind. destruct (write_frame g w0) as [w1 [[]|]]; [|done]. apply IH.
Qed.
End Frames.

(** ** The Vulkan encoder *)

Definition total (window : list (Z * Z)) : Z := foldr (fun e n => e.2 + n) 0 window.

Lemma total_app a b : total (a ++ b) = total a + total b.
Proof. unfold total. induction a as [|e a IH]; cbn; lia. Qed.

Lemma total_bound window n :
  Forall (fun e : Z * Z => 0 <= e.2 < 2 ^ 32) window -> Z.of_nat (length window) <= n -> 0 <= total window <= n * 2 ^ 32.
Proof.
  intros Hw. revert n. induction Hw as [|e window He _ IH]; intros n Hn; cbn [total foldr length] in *; [lia|].
  specialize (IH (n - 1) ltac:(lia)). fold (total window). lia.
Qed.

(** Trimming keeps the total, the newest entry, and nothing older than a second. *)
Lemma trim_window_spec now window : forall bytes x,
  Forall (fun e : Z * Z => 0 <= e.2) (window ++ [(now, x)]) -> total (window ++ [(now, x)]) < 2 ^ 64 ->
  bytes = total (window ++ [(now, x)]) ->
  exists a b, trim_window now (window ++ [(now, x)]) bytes = (b ++ [(now, x)], total (b ++ [(now, x)])) /\
    window = a ++ b /\ Forall (fun e => now - e.1 <= 1000000000) (take 1 (b ++ [(now, x)])).
Proof.
  induction window as [|[t y] window IH]; intros bytes x Hp Hb ->; cbn [app trim_window].
  - rewrite (proj2 (Z.ltb_ge _ _)) by lia. exists [], []. split; [done|]. split; [done|]. cbn. repeat constructor. cbn. lia.
  - destruct (Z.ltb_spec 1000000000 (now - t)).
    + inversion Hp as [|? ? Hy Hp']; subst. cbn [snd] in Hy.
      assert (E : total ((t, y) :: window ++ [(now, x)]) - y = total (window ++ [(now, x)])) by (cbn; fold (total (window ++ [(now, x)])); lia).
      assert (B : 0 <= total (window ++ [(now, x)])).
      { clear -Hp'. induction Hp' as [|e l He _ IH]; cbn; [lia|]. fold (total l). lia. }
      rewrite E, as_u_id by (red; cbn [app total foldr snd] in Hb; fold (total (window ++ [(now, x)])) in Hb; lia).
      destruct (IH (total (window ++ [(now, x)])) x Hp') as (a & b & Et & -> & Hh); [|done|].
      { cbn [app total foldr snd] in Hb. fold (total (window ++ [(now, x)])) in Hb. lia. }
      exists ((t, y) :: a), b. done.
    + exists [], ((t, y) :: window). split; [done|]. split; [done|]. cbn. repeat constructor. cbn. lia.
Qed.

Section VulkanProps.
Context {DB : Dmabufs} {G : Gpu} {W : Type} `{Write W}.
Context (vars : ViewerVars) (w h : Z) (prefix : list Z) (sock : W).

Abbreviation enc := (VkEnc (W := W)).

(** Encoding touches the recorder and the kept source only, and a picture that is not a
    keyframe was not asked to be one. *)
Definition pictured (is_idr : bool) (s : enc) (r : enc * option Nal) : Prop :=
  (exists rec d b, r.1 = s <| ve_rec := rec |> <| ve_dmabuf := d |> <| ve_bgra := b |>) /\
  forall n, r.2 = Some n -> nal_key n = false -> is_idr = false.

Lemma vk_encode_pictured src is_idr s : pictured is_idr s (vk_encode vars src is_idr s).
Proof.
  unfold vk_encode, encode_picture, next_pic_params.
  destruct (is_idr || _) eqn:C; destruct gpu_encode as [g [d|]]; cbn; (split; [eexists _, _, _; reflexivity|]);
    intros n [= <-]; cbn; try done. by apply orb_false_iff in C as [-> _].
Qed.

Lemma pictured_keep is_idr s s' n d b :
  pictured is_idr s (s', n) -> pictured is_idr s (s' <| ve_dmabuf := d |> <| ve_bgra := b |>, n).
Proof. intros [(rec & d0 & b0 & E) K]. cbn in E. subst. split; [by eexists _, _, _|done]. Qed.

Lemma pictured_none is_idr s : pictured is_idr s (s, None).
Proof. split; [|done]. exists (ve_rec s), (ve_dmabuf s), (ve_bgra s). by destruct s. Qed.

Lemma vk_encode_last_pictured is_idr s : pictured is_idr s (vk_encode_last vars is_idr s).
Proof. unfold vk_encode_last. repeat case_match; auto using vk_encode_pictured, pictured_none. Qed.

Lemma vk_picture_pictured t is_idr s : pictured is_idr s (vk_picture vars w h t is_idr s).
Proof.
  unfold vk_picture.
  repeat match goal with
  | |- pictured _ _ (let '(_, _) := vk_encode ?v ?src ?i ?s in _) =>
      pose proof (vk_encode_pictured src i s) as P; destruct (vk_encode v src i s) as [s1 n1]
  | |- pictured _ _ (s, None) => apply pictured_none
  | |- pictured _ _ (vk_encode_last _ _ _) => apply vk_encode_last_pictured
  | |- _ => case_match
  end.
  - by apply (pictured_keep is_idr s s1 n1 None (Some pixels)).
  - by apply (pictured_keep is_idr s s1 n1 (Some dma) None).
Qed.

(** Where the group stands: nothing was sent, or the keyframe is [gop] frames back. *)
Definition gop_at (pics : list Nal) (gop : Z) : Prop :=
  (pics = [] /\ gop = 0) \/
  exists k, pics !! (length pics - Z.to_nat gop)%nat = Some k /\ nal_key k = true /\
    1 <= gop <= GOP_LEN /\ gop <= Z.of_nat (length pics).

(** Each frame is a keyframe or has one among the eleven before it. *)
Definition anchored (pics : list Nal) : Prop :=
  forall i n, pics !! i = Some n -> nal_key n = false ->
  exists j k, (j < i < j + 12)%nat /\ pics !! j = Some k /\ nal_key k = true.

Lemma anchored_snoc pics n gop :
  anchored pics -> gop_at pics gop -> (nal_key n = false -> 0 < gop < GOP_LEN) -> anchored (pics ++ [n]).
Proof.
  intros A Hg Hn i m Hi Hk. destruct (decide (i < length pics)%nat) as [L|L].
  - rewrite lookup_app_l in Hi by done. destruct (A i m Hi Hk) as (j & k & Hj & E & K).
    exists j, k. split; [done|]. by rewrite lookup_app_l by lia.
  - apply lookup_lt_Some in Hi as L'. rewrite length_app in L'. cbn in L'. assert (i = length pics) as -> by lia.
    rewrite lookup_app_r, Nat.sub_diag in Hi by lia. injection Hi as ->. specialize (Hn Hk). unfold GOP_LEN in Hn.
    destruct Hg as [[-> ->]|(k & E & K & R)]; [lia|].
    exists (length pics - Z.to_nat gop)%nat, k. split; [lia|]. by rewrite lookup_app_l by lia.
Qed.

Lemma gop_at_snoc pics n gop :
  gop_at pics gop -> (nal_key n = false -> 0 < gop < GOP_LEN) ->
  gop_at (pics ++ [n]) (if nal_key n then 1 else as_u 64 (gop + 1)).
Proof.
  intros Hg Hn. right. destruct (nal_key n) eqn:K.
  - exists n. rewrite length_app. cbn [length]. split_and!; try done; unfold GOP_LEN; try lia.
    replace (length pics + 1 - Z.to_nat 1)%nat with (length pics) by lia. by rewrite lookup_app_r, Nat.sub_diag by lia.
  - specialize (Hn eq_refl). unfold GOP_LEN in *. rewrite as_u_id by (red; lia).
    destruct Hg as [[-> ->]|(k & E & Kk & R)]; [lia|]. exists k. rewrite length_app. cbn [length].
    split_and!; try done; try lia. rewrite lookup_app_l by lia.
    by replace (length pics + 1 - Z.to_nat (gop + 1))%nat with (length pics - Z.to_nat gop)%nat by lia.
Qed.

(** The state after [n] rounds that sent [pics]. *)
Record vk_inv (n : nat) (pics : list Nal) (s : enc) : Prop := {
  inv_sent : write_frames (Nalu <$> (framed_nal prefix <$> pics)) sock = (ve_w s, Ok ());
  inv_anchored : anchored pics;
  inv_gop : gop_at pics (ve_gop s);
  inv_qp : 18 <= ve_qp s <= 44;
  inv_dynamic : ve_dynamic s = ve_qp s;
  inv_bytes : ve_bytes s = total (ve_window s);
  inv_sizes : Forall (fun e => 0 <= e.2 < 2 ^ 32) (ve_window s);
  inv_length : (length (ve_window s) <= n)%nat;
  inv_span : forall o x, head (ve_window s) = Some o -> last (ve_window s) = Some x -> x.1 - o.1 <= 1000000000;
}.

(** Fields that play no part in it. *)
Lemma inv_frame n pics s rec d b f tick fail wedged target adj :
  vk_inv n pics s ->
  vk_inv n pics (s <| ve_rec := rec |> <| ve_dmabuf := d |> <| ve_bgra := b |> <| ve_force := f |> <| ve_tick := tick |>
                   <| ve_fail := fail |> <| ve_wedged := wedged |> <| ve_target := target |> <| ve_adjust := adj |>).
Proof. by intros []. Qed.

Lemma inv_more n n' pics s : (n <= n')%nat -> vk_inv n pics s -> vk_inv n' pics s.
Proof. intros L []. split; try done. lia. Qed.

Lemma clamp_range lo hi v : lo <= hi -> lo <= clamp lo hi v <= hi.
Proof. unfold clamp. lia. Qed.

Lemma count_bytes_inv n pics s now x :
  vk_inv n pics s -> 0 <= x < 2 ^ 32 -> Z.of_nat n < 2 ^ 32 - 1 -> vk_inv (S n) pics (count_bytes now x s).
Proof.
  intros [] Hx Hn. unfold count_bytes. rewrite inv_bytes0.
  assert (F : Forall (fun e : Z * Z => 0 <= e.2 < 2 ^ 32) (ve_window s ++ [(now, x)])).
  { apply Forall_app. split; [done|]. apply Forall_cons_2; [done|by apply Forall_nil_2]. }
  pose proof (total_bound _ (Z.of_nat n + 1) F) as B. rewrite length_app in B. cbn [length] in B. specialize (B ltac:(lia)).
  assert (T : total (ve_window s) + x = total (ve_window s ++ [(now, x)])) by (rewrite total_app; cbn; lia).
  rewrite T, as_u_id by (red; lia).
  destruct (trim_window_spec now (ve_window s) (total (ve_window s ++ [(now, x)])) x) as (a & b & -> & E & Hh); try done; [|lia|].
  { eapply Forall_impl; [exact F|]. cbn. lia. }
  split; cbn; try done.
  - rewrite E in F. rewrite <- app_assoc in F. by apply Forall_app in F as [_ F].
  - rewrite E, length_app in inv_length0. rewrite length_app. cbn. lia.
  - intros o y Ho Hy. rewrite last_snoc in Hy. injection Hy as <-. destruct b; cbn in Ho, Hh; injection Ho as <-; by inversion Hh.
Qed.

Lemma adjust_qp_inv n pics s dt t : vk_inv n pics s -> vk_inv n pics (adjust_qp dt t s).
Proof.
  intros I. unfold adjust_qp. destruct (_ <=? _); [|done]. destruct (head _) as [[o xo]|]; [|by destruct I].
  destruct (last _) as [[y xy]|]; [|by destruct I]. destruct I. split; cbn; try done.
  - by apply clamp_range.
  - by destruct (Z.eqb_spec (adaptive_qp_step (ve_qp s) (measured_rate (ve_bytes s) (Z.max 0 (y - o)))
      (f64_of_int (if 0 <? ve_target s then ve_target s else dt))) (ve_qp s)) as [->|].
Qed.

(** What holds of the state in which a run ends. *)
Definition vk_final (pics : list Nal) (s : enc) : Prop :=
  reached (Nalu <$> (framed_nal prefix <$> pics)) sock (ve_w s) /\ anchored pics /\ 18 <= ve_qp s <= 44 /\
  ve_bytes s = total (ve_window s) /\
  forall o x, head (ve_window s) = Some o -> last (ve_window s) = Some x -> x.1 - o.1 <= 1000000000.

Lemma inv_final n pics s : vk_inv n pics s -> vk_final pics s.
Proof. intros []. split_and!; try done; [by eexists|lia..]. Qed.

Lemma nalu_written b (x x' : W) : write_frame (Nalu b) x = (x', Ok ()) -> 0 <= len b < 2 ^ 32.
Proof.
  unfold write_frame, write_payload, len. destruct (Z.ltb_spec (Z.of_nat (length b)) (2 ^ 32)); [lia|done].
Qed.

(** A frame that is written extends what was sent. *)
Lemma sent_snoc n pics s nal (x : W) r :
  vk_inv n pics s -> write_frame (Nalu (framed_nal prefix nal)) (ve_w s) = (x, r) ->
  write_frames (Nalu <$> (framed_nal prefix <$> pics ++ [nal])) sock = (x, r).
Proof. intros [] E. rewrite !fmap_app. cbn [fmap list_fmap]. by rewrite (write_frames_snoc _ _ _ _ inv_sent0). Qed.

Lemma vk_round_inv n pics s t :
  vk_inv n pics s -> Z.of_nat n < 2 ^ 32 - 1 ->
  exists pics', (length pics' <= length pics + 1)%nat /\ vk_final pics' (vk_round vars w h prefix t s).1 /\
    ((vk_round vars w h prefix t s).2 = true -> vk_inv (S n) pics' (vk_round vars w h prefix t s).1).
Proof.
  intros I Hn. unfold vk_round. pose proof (vk_picture_pictured t (wants_idr s) s) as P.
  destruct (vk_picture vars w h t (wants_idr s) s) as [s1 nal]. destruct P as [(rec & d & b & E) K].
  cbn [fst snd] in E, K. subst s1. destruct nal as [nal|].
  2: { exists pics. split; [lia|]. set (s1 := s <| ve_rec := rec |> <| ve_dmabuf := d |> <| ve_bgra := b |> <| ve_force := v_force_late t |>).
       assert (J : forall f k tick, vk_inv n pics (s1 <| ve_fail := f |> <| ve_wedged := k |> <| ve_tick := tick |>)) by (by destruct I).
       destruct (_ <=? _); cbn [fst snd].
       - split; [|done]. specialize (J (as_u 32 (ve_fail s + 1)) true (ve_tick s)). by apply inv_final in J.
       - specialize (J (as_u 32 (ve_fail s + 1)) (ve_wedged s) (settle (ve_tick s) (v_end t))).
         split; [by apply inv_final in J|]. intros _. apply (inv_more n); [lia|exact J]. }
  assert (Hk : nal_key nal = false -> 0 < ve_gop s < GOP_LEN).
  { intros Hk. specialize (K nal eq_refl Hk). unfold wants_idr in K.
    apply orb_false_iff in K as [K K3]. apply orb_false_iff in K as [K1 K2]. boolz.
    destruct (inv_gop _ _ _ I) as [[_ G0]|(k & _ & _ & R & _)]; lia. }
  set (s1 := s <| ve_rec := rec |> <| ve_dmabuf := d |> <| ve_bgra := b |> <| ve_force := v_force_late t |> <| ve_fail := 0 |>
               <| ve_gop ::= (fun g => if nal_key nal then 1 else as_u 64 (g + 1)) |>).
  exists (pics ++ [nal]). split; [by rewrite length_app|].
  pose proof (anchored_snoc _ _ _ (inv_anchored _ _ _ I) (inv_gop _ _ _ I) Hk) as A.
  pose proof (gop_at_snoc _ _ _ (inv_gop _ _ _ I) Hk) as Q.
  cbn [ve_w]. destruct (write_frame (Nalu (framed_nal prefix nal)) (ve_w s)) as [x [[]|e]] eqn:Ew.
  - change (ve_w s1) with (ve_w s). rewrite Ew. cbn [fst snd].
    pose proof (sent_snoc _ _ _ _ _ _ I Ew) as S1. pose proof (nalu_written _ _ _ Ew) as L.
    assert (J : vk_inv n (pics ++ [nal]) (s1 <| ve_w := x |>)) by (destruct I; by split).
    pose proof (count_bytes_inv _ _ _ (v_sent t) _ J L Hn) as J2.
    pose proof (adjust_qp_inv _ _ _ (positive_var 32 (vv_bitrate vars) 1500000) t J2) as J3.
    set (s3 := adjust_qp _ t _) in *.
    assert (J4 : vk_inv (S n) (pics ++ [nal]) (s3 <| ve_tick ::= (fun tick => settle tick (v_end t)) |>)) by (by destruct J3).
    split; [by apply inv_final in J4|done].
  - change (ve_w s1) with (ve_w s). rewrite Ew. cbn [fst snd]. split; [|done].
    pose proof (sent_snoc _ _ _ _ _ _ I Ew) as S1. destruct I. split_and!; try done; [by eexists|cbn; lia..].
Qed.

Lemma vk_loop_inv interval ts : forall n pics s s',
  vk_inv n pics s -> Z.of_nat (n + length ts) < 2 ^ 32 -> vk_loop vars w h interval prefix ts s = Some s' ->
  exists pics', vk_final pics' s' /\ (length pics' <= length pics + length ts)%nat.
Proof.
  induction ts as [|t ts IH]; intros n pics s s' I Hn E; cbn [vk_loop length] in *; [done|].
  assert (J : vk_inv n pics (vk_head interval t s)) by (by destruct I).
  destruct (v_stop t); [injection E as <-; exists pics; split; [by apply inv_final in I|lia]|].
  destruct (v_stopped t); [injection E as <-; exists pics; split; [by apply inv_final in J|lia]|].
  destruct (vk_round_inv n pics (vk_head interval t s) t J ltac:(lia)) as (pics' & L & F & C).
  destruct (vk_round vars w h prefix t (vk_head interval t s)) as [s1 [|]]; cbn [fst snd] in *.
  - destruct (IH (S n) pics' s1 s' (C eq_refl) ltac:(lia) E) as (pics2 & F2 & L2). exists pics2. split; [done|lia].
  - injection E as <-. exists pics'. split; [done|lia].
Qed.

Lemma initial_qp_range var : 18 <= initial_qp var <= 44.
Proof. unfold initial_qp. case_match; [by apply clamp_range|lia]. Qed.

Lemma vk_start_inv r adjust tick : vk_inv 0 [] (vk_start vars r sock adjust tick).
Proof.
  split; cbn; try done; [by left|apply initial_qp_range].
Qed.

Lemma vk_first_inv src t s :
  vk_inv 0 [] s -> exists pics, vk_final pics (vk_first vars prefix src t s).1 /\
    ((vk_first vars prefix src t s).2 = true -> vk_inv 0 pics (vk_first vars prefix src t s).1).
Proof.
  intros I. unfold vk_first.
  match goal with |- context [match src with inl dma => @?f dma | inr p => @?g p end] =>
    assert (P : pictured true s (match src with inl dma => f dma | inr p => g p end));
    [|destruct (match src with inl dma => f dma | inr p => g p end) as [s1 nal]] end.
  { destruct src as [dma|p].
    - destruct (v_ready t).
      + pose proof (vk_encode_pictured (inl dma) true s) as P. destruct (vk_encode vars (inl dma) true s) as [s1 n].
        apply (pictured_keep true s s1 n (Some dma) (ve_bgra s1)) in P. by destruct s1.
      + pose proof (pictured_keep true s s None (Some dma) (ve_bgra s) (pictured_none _ _)) as P. by destruct s.
    - pose proof (vk_encode_pictured (inr p) true s) as P. destruct (vk_encode vars (inr p) true s) as [s1 n].
      apply (pictured_keep true s s1 n (ve_dmabuf s1) (Some p)) in P. by destruct s1. }
  destruct P as [(rec & d & b & E) K]. cbn [fst snd] in E, K. subst s1. destruct nal as [nal|].
  2: { exists []. assert (J : vk_inv 0 [] (s <| ve_rec := rec |> <| ve_dmabuf := d |> <| ve_bgra := b |> <| ve_force := false |>)) by (by destruct I).
       split; [by apply inv_final in J|done]. }
  destruct (nal_key nal) eqn:Hk; [|by specialize (K nal eq_refl Hk)].
  assert (Ef : prefix ++ nal_data nal = framed_nal prefix nal) by (unfold framed_nal; by rewrite Hk).
  rewrite Ef. exists [nal]. cbn [ve_w].
  match goal with |- context [write_frame _ ?x] => change x with (ve_w s) end.
  destruct (write_frame (Nalu (framed_nal prefix nal)) (ve_w s)) as [x [[]|e]] eqn:Ew;
    pose proof (sent_snoc _ _ _ _ _ _ I Ew) as S1; cbn [app] in S1; cbn [fst snd].
  - assert (J : vk_inv 0 [nal] (s <| ve_rec := rec |> <| ve_dmabuf := d |> <| ve_bgra := b |> <| ve_gop := 1 |>
                 <| ve_w := x |> <| ve_force := false |>)).
    { destruct I. split; cbn; try done.
      - intros [|i] m; [|by rewrite lookup_cons]. intros [= <-]. congruence.
      - right. exists nal. unfold GOP_LEN. cbn. split_and!; try done; lia. }
    split; [by apply inv_final in J|done].
  - split; [|done]. destruct I. split_and!; try done; [by eexists| |cbn; lia..].
    intros [|i] m; [|by rewrite lookup_cons]. intros [= <-]. congruence.
Qed.
End VulkanProps.

(** The states in which a Vulkan encoder can end. *)
Definition ended_in `{Write W} {G : Gpu} (e : option (vk_end (W := W))) (s : VkEnc) : Prop :=
  e = Some (VkStopped s) \/ e = Some (VkLost s).

Lemma run_vulkan_final `{Dmabufs} {G : Gpu} {W} `{Write W} vars (sock : W) cloned adjust tick ts s :
  Z.of_nat (length ts) < 2 ^ 32 -> ended_in (run_vulkan_encoder vars sock cloned adjust tick ts) s ->
  exists w h r pics, try_new w h = Some r /\ vk_final (vk_sps_pps_annexb r) sock pics s.
Proof.
  intros Hn. unfold ended_in, run_vulkan_encoder.
  destruct (wait_usable ts) as [[[[[[src w] h] t] rest]|]|] eqn:Ew; [|by intros [|]..].
  assert (L : (length rest < length ts)%nat).
  { clear -Ew. revert Ew. induction ts as [|t0 ts IH]; cbn [wait_usable length]; [done|].
    repeat case_match; intros E; try done; try (specialize (IH E); lia); simplify_eq; lia. }
  destruct (try_new w h) as [r|] eqn:Er; [|by intros [|]]. destruct (negb cloned); [by intros [|]|].
  destruct (vk_first_inv vars (vk_sps_pps_annexb r) sock src t _ (vk_start_inv vars (vk_sps_pps_annexb r) sock r adjust tick))
    as (pics & F & C).
  destruct (vk_first vars _ src t _) as [s1 [|]]; cbn [negb fst snd] in *.
  2: { intros [|]; simplify_eq. by exists w, h, r, pics. }
  destruct (vk_loop vars w h _ _ rest s1) as [s2|] eqn:El; [|by intros [|]].
  destruct (vk_loop_inv vars w h _ sock _ rest 0 pics s1 s2 (C eq_refl) ltac:(cbn; lia) El) as (pics2 & F2 & _).
  intros [[= <-]|]; [|done]. exists w, h, r, pics2. done.
Qed.

(** C16: what a viewer gets from the Vulkan encoder: whatever is committed, asked for or
    fails, the socket has received frames that start with a keyframe, of which each is a
    keyframe or has one among the eleven before it, and every keyframe carries the
    parameter sets, so that a viewer can join at any of them. *)
Theorem viewer_stream_anchored `{Dmabufs} {G : Gpu} {W} `{Write W} vars (sock : W) cloned adjust tick ts s :
  Z.of_nat (length ts) < 2 ^ 32 -> ended_in (run_vulkan_encoder vars sock cloned adjust tick ts) s ->
  exists w h r pics, try_new w h = Some r /\ anchored pics /\
    reached ((fun n => Nalu ((if nal_key n then vk_sps_pps_annexb r else []) ++ nal_data n)) <$> pics) sock (ve_w s).
Proof.
  intros Hn He. destruct (run_vulkan_final vars sock cloned adjust tick ts s Hn He) as (w & h & r & pics & E & R & A & _).
  exists w, h, r, pics. split; [done|]. split; [done|]. by rewrite <- list_fmap_compose in R.
Qed.

(** C36: the rate control of the Vulkan encoder: the quantizer stays between 18 and 44,
    the running count of bytes is exactly the sum of its window, which spans at most a
    second; and an encoder that stops gives the quantizer of the process back. *)
Theorem viewer_rate_control `{Dmabufs} {G : Gpu} {W} `{Write W} vars (sock : W) cloned adjust tick ts s :
  Z.of_nat (length ts) < 2 ^ 32 -> run_vulkan_encoder vars sock cloned adjust tick ts = Some (VkStopped s) ->
  18 <= ve_qp s <= 44 /\ ve_bytes s = foldr Z.add 0 (snd <$> ve_window s) /\
  (forall o x, head (ve_window s) = Some o -> last (ve_window s) = Some x -> x.1 - o.1 <= 1000000000) /\
  ve_dynamic s = -1.
Proof.
  intros Hn He. destruct (run_vulkan_final vars sock cloned adjust tick ts s Hn (or_introl He))
    as (w & h & r & pics & _ & _ & _ & Q & B & S).
  split; [done|]. split; [|split; [done|]].
  - rewrite B. clear. unfold total. induction (ve_window s) as [|e l IH]; cbn; [done|]. by rewrite IH.
  - unfold run_vulkan_encoder in He. repeat case_match; simplify_eq. by destruct (vk_loop _ _ _ _ _ _ _); simplify_eq/=.
Qed.

(** ** Resized windows *)

Definition other_size `{Dmabufs} (w h : Z) (t : VTurn) : Prop :=
  v_stop t = false /\ v_stopped t = false /\
  match v_task t with
  | Some (TaskDmabuf dma _) => dma_size dma <> (w, h)
  | Some (TaskPixels _ fw fh) => (fw, fh) <> (w, h)
  | _ => False
  end.

Section Resized.
Context {DB : Dmabufs} {G : Gpu} {W : Type} `{Write W}.

Lemma other_size_round vars w h prefix t (s : VkEnc (W := W)) :
  other_size w h t -> 0 <= ve_fail s < MAX_CONSEC_FAIL ->
  let s' := (vk_round vars w h prefix t s).1 in
  ve_w s' = ve_w s /\ ve_rec s' = ve_rec s /\ ve_fail s' = ve_fail s + 1 /\
  if MAX_CONSEC_FAIL <=? ve_fail s + 1 then (vk_round vars w h prefix t s).2 = false /\ ve_wedged s' = true
  else (vk_round vars w h prefix t s).2 = true.
Proof.
  intros (_ & _ & Ht) Hf. unfold vk_round, MAX_CONSEC_FAIL in *.
  assert (E : vk_picture vars w h t (wants_idr s) s = (s, None)).
  { unfold vk_picture. destruct (v_task t) as [[px fw fh|dma hs|]|]; [| |done..].
    - destruct ((fw =? w) && (fh =? h)) eqn:C; [|done]. apply andb_true_iff in C as [C1 C2]. boolz. subst. by destruct Ht.
    - by rewrite bool_decide_eq_false_2. }
  rewrite E. assert (Ef : as_u 32 (ve_fail s + 1) = ve_fail s + 1) by (apply as_u_id; red; lia).
  cbn -[as_u Z.leb]. rewrite Ef. destruct (90 <=? ve_fail s + 1); cbn -[as_u]; by rewrite ?Ef.
Qed.

(** A window that changes its size while it keeps drawing stops the viewer: ninety
    tasks of another size in a row are counted as failures of the GPU, which was not
    asked anything; the thread declares it wedged, for the whole process, and ends
    without having sent a frame. *)
Theorem resize_declared_wedged vars w h interval prefix (ts : list VTurn) t rest (s : VkEnc (W := W)) :
  length ts = 89%nat -> Forall (other_size w h) (ts ++ [t]) -> ve_fail s = 0 ->
  exists s', vk_loop vars w h interval prefix (ts ++ t :: rest) s = Some s' /\
    ve_wedged s' = true /\ ve_rec s' = ve_rec s /\ ve_w s' = ve_w s.
Proof.
  intros Hl Hts Hf. assert (Hn : ve_fail s + Z.of_nat (length ts) = 89) by lia. clear Hl.
  assert (H0 : 0 <= ve_fail s) by lia. clear Hf. revert s H0 Hn.
  induction ts as [|u ts IH]; intros s H0 Hn; cbn [app vk_loop length] in *.
  - inversion Hts as [|? ? Ht _]; subst. destruct Ht as (E1 & E2 & Et). rewrite E1, E2.
    destruct (other_size_round vars w h prefix t (vk_head interval t s) (conj E1 (conj E2 Et))) as (A & B & C & D).
    { cbn. unfold MAX_CONSEC_FAIL. lia. }
    destruct (vk_round vars w h prefix t (vk_head interval t s)) as [s1 go]. cbn [fst snd] in *.
    change (ve_fail (vk_head interval t s)) with (ve_fail s) in *. rewrite (proj2 (Z.leb_le _ _)) in D by (unfold MAX_CONSEC_FAIL; lia).
    destruct D as [-> D]. by exists s1.
  - inversion Hts as [|? ? Hu Hts']; subst. destruct Hu as (E1 & E2 & Et). rewrite E1, E2.
    destruct (other_size_round vars w h prefix u (vk_head interval u s) (conj E1 (conj E2 Et))) as (A & B & C & D).
    { cbn. unfold MAX_CONSEC_FAIL. lia. }
    destruct (vk_round vars w h prefix u (vk_head interval u s)) as [s1 go]. cbn [fst snd] in *.
    change (ve_fail (vk_head interval u s)) with (ve_fail s) in *. rewrite (proj2 (Z.leb_gt _ _)) in D by (unfold MAX_CONSEC_FAIL; lia).
    rewrite D. destruct (IH Hts' s1) as (s2 & E & F1 & F2 & F3); [lia|lia|]. exists s2. rewrite E, F2, F3. done.
Qed.

(** ** Keyframe requests *)

(** A keyframe request that meets a failing encode is lost in the Vulkan encoder: the
    flag was taken before, and inside a group the next picture is an ordinary one. *)
Theorem vulkan_loses_request vars w h prefix t t' interval (s s' s'' : VkEnc (W := W)) :
  ve_force s = true -> 0 < ve_gop s < GOP_LEN -> v_force_late t = false -> v_force t' = false ->
  vk_picture vars w h t (wants_idr s) s = (s', None) -> vk_round vars w h prefix t s = (s'', true) ->
  wants_idr s = true /\ wants_idr (vk_head interval t' s'') = false.
Proof.
  intros Hf Hg Hl Hf' E1 E2. split; [unfold wants_idr; by rewrite Hf|].
  pose proof (vk_picture_pictured vars w h t (wants_idr s) s) as P. rewrite E1 in P. destruct P as [(rec & d & b & Es) _].
  cbn [fst] in Es. subst s'.
  unfold vk_round in E2. rewrite E1 in E2. destruct (_ <=? _); [done|]. apply (f_equal fst) in E2. cbn [fst] in E2. subst s''.
  unfold wants_idr, vk_head. cbn. rewrite Hf', Hl. cbn. unfold GOP_LEN in *.
  by rewrite (proj2 (Z.eqb_neq _ _)), (proj2 (Z.leb_gt _ _)) by lia.
Qed.
End Resized.

Section Requests.
Context {W : Type} `{Write W} {S : Type}.
Context (interval : Z) (reconfigure : Z -> S -> S).
Context (picture : VTurn -> bool -> S -> result (S * option (option Nal)) stop).

(** For each round of the loop whether a keyframe was asked of the encoder and whether a
    frame came of it. *)
Fixpoint asked (ts : list VTurn) (s : Live W S) : list (bool * bool) :=
  match ts with
  | [] => []
  | t :: ts' =>
      if v_stop t then []
      else
        let s0 := live_inbox reconfigure t (s <| lv_tick ::= Z.add interval |>) in
        match picture t (lv_force s0) (lv_enc s0), live_round reconfigure picture t (s <| lv_tick ::= Z.add interval |>) with
        | Ok (_, Some nal), Ok (s', go_on) =>
            (lv_force s0, bool_decide (is_Some nal)) :: (if go_on then asked ts' s' else [])
        | _, _ => []
        end
  end.

(** In the CUDA and VA-API encoders a keyframe request outlives failing encodes:
    whatever happens, each picture from the request on is asked to be a keyframe until
    one goes out, so the first frame after the request is one the encoder was asked to
    make a keyframe. *)
Theorem live_request_served ts (s : Live W S) :
  lv_force s = true ->
  exists n, asked ts s = replicate n (true, false) \/ exists rest, asked ts s = replicate n (true, false) ++ (true, true) :: rest.
Proof.
  revert s. induction ts as [|t ts IH]; intros s Hf; [by exists 0%nat; left|]. cbn [asked].
  destruct (v_stop t); [by exists 0%nat; left|].
  set (s0 := live_inbox reconfigure t (s <| lv_tick ::= Z.add interval |>)).
  assert (F : lv_force s0 = true).
  { unfold s0, live_inbox. destruct (0 <? _); cbn; rewrite Hf; by destruct (v_force t). }
  destruct (picture t (lv_force s0) (lv_enc s0)) as [[e [nal|]]|] eqn:E; try (by exists 0%nat; left).
  unfold live_round. fold s0. rewrite E. cbn [mbind fst snd]. destruct nal as [nal|].
  - rewrite F. exists 0%nat. right. cbn [replicate app].
    match goal with |- context [match ?r with Ok _ => _ | Err _ => _ end] => destruct r as [[s1 go]|] eqn:R end; [by eexists|].
    exfalso. repeat (case_match; try done).
  - cbn [live_send]. set (s1 := (s0 <| lv_enc := e |>) <| lv_force ::= orb (v_force_late t) |>). cbn [negb].
    assert (F1 : lv_force (live_cursor t s1).1 = true).
    { unfold live_cursor. destruct (write_frames _ _). cbn. rewrite F. by destruct (v_force_late t). }
    destruct (live_cursor t s1) as [s2 [|]]; cbn [negb fst] in *; rewrite F.
    + set (s3 := s2 <| lv_tick ::= (fun tick => settle tick (v_end t)) |>).
      destruct (IH s3 F1) as (n & [R|(rest & R)]); exists (Datatypes.S n); rewrite R; [by left|right; by exists rest].
    + exists 1%nat. by left.
Qed.
End Requests.

(** ** Pace *)

(** The clock: a round starts when the sleep of the one before is over, at its tick or
    later. [step] is the tick of a round. *)
Fixpoint woke (step : VTurn -> Z -> Z) (tick : Z) (ts : list VTurn) : Prop :=
  match ts with
  | [] => True
  | t :: ts' => tick <= v_head t /\ woke step (settle (step t tick) (v_end t)) ts'
  end.

Lemma settle_ge tick now : tick <= settle tick now.
Proof. unfold settle. case_match; boolz; lia. Qed.

(** The frames of a run are no more than its rounds, and those no more than ticks. *)
Lemma woke_rounds step interval T ts :
  (forall t tick, tick + interval <= step t tick) -> 0 <= interval -> Forall (fun t => v_head t <= T) ts ->
  forall tick, woke step tick ts -> tick <= T -> (Z.of_nat (length ts) - 1) * interval <= T - tick.
Proof.
  intros Hs Hi HT. induction HT as [|t ts Ht HT IH]; intros tick Hw Hk; [cbn; lia|].
  destruct Hw as [Hw1 Hw2]. cbn [length]. destruct ts as [|u ts]; [cbn; lia|].
  pose proof (settle_ge (step t tick) (v_end t)) as S1. specialize (Hs t tick).
  destruct Hw2 as [Hw2 Hw3]. specialize (IH (settle (step t tick) (v_end t)) (conj Hw2 Hw3)).
  inversion HT; subst. specialize (IH ltac:(lia)). cbn [length] in *. lia.
Qed.

Definition is_nalu (f : Frame) : bool := match f with Nalu _ => true | _ => false end.

Definition nalus (fs : list Frame) : Z := Z.of_nat (length (List.filter is_nalu fs)).

Lemma nalus_app a b : nalus (a ++ b) = nalus a + nalus b.
Proof. unfold nalus. rewrite List.filter_app, length_app. lia. Qed.

Lemma cursor_nalus us : nalus (cursor_frame <$> us) = 0.
Proof. induction us as [|[|] us IH]; done. Qed.

Section Pace.
Context {W : Type} `{Write W}.

Lemma sent_frames_app a b (w0 w1 : W) :
  write_frames a w0 = (w1, Ok ()) -> write_frames (a ++ b) w0 = write_frames b w1.
Proof.
  revert w0. induction a as [|f a IH]; intros w0; cbn [write_frames app]; [by intros [= ->]|].
  unfold mbind, eff_mbind. destruct (write_frame f w0) as [w2 [[]|]]; [apply IH|done].
Qed.

(** What a round sends: at most one picture; it reached the socket whole if the thread
    goes on. *)
Definition sends (w0 w1 : W) (go_on : bool) : Prop :=
  exists fs r, write_frames fs w0 = (w1, r) /\ nalus fs <= 1 /\ (go_on = true -> r = Ok ()).

Lemma sends_nothing (w0 : W) go_on : sends w0 w0 go_on.
Proof. by exists [], (Ok ()). Qed.

Lemma sends_one f (w0 w1 : W) r go_on :
  write_frame f w0 = (w1, r) -> (go_on = true -> r = Ok ()) -> sends w0 w1 go_on.
Proof.
  intros E R. exists [f], r. split_and!; [|by destruct f|done].
  by rewrite <- E, <- (write_frames_snoc [] f w0 w0).
Qed.

(** Rounds in a row. *)
Definition sent_by (n : Z) (w0 w1 : W) : Prop := exists fs, reached fs w0 w1 /\ nalus fs <= n.

Lemma sends_then n (w0 w1 w2 : W) : sends w0 w1 true -> sent_by n w1 w2 -> sent_by (n + 1) w0 w2.
Proof.
  intros (fs & r & E & N & R) (gs & (r' & E') & N'). exists (fs ++ gs). split; [|rewrite nalus_app; lia].
  exists r'. by rewrite (sent_frames_app fs gs w0 w1) by (by rewrite <- (R eq_refl)).
Qed.

Lemma sent_by_more n n' (w0 w1 : W) : n <= n' -> sent_by n w0 w1 -> sent_by n' w0 w1.
Proof. intros L (fs & R & N). exists fs. split; [done|lia]. Qed.

Lemma sends_sent_by (w0 w1 : W) go_on : sends w0 w1 go_on -> sent_by 1 w0 w1.
Proof. intros (fs & r & E & N & _). exists fs. split; [by eexists|done]. Qed.

Lemma sent_by_nothing n (w0 : W) : 0 <= n -> sent_by n w0 w0.
Proof. intros. exists []. split; [by eexists|done]. Qed.

Section Live.
Context {S : Type} (interval : Z) (reconfigure : Z -> S -> S).
Context (picture : VTurn -> bool -> S -> result (S * option (option Nal)) stop).

Lemma live_round_sends t (s s' : Live W S) go_on :
  live_round reconfigure picture t s = Ok (s', go_on) -> sends (lv_w s) (lv_w s') go_on.
Proof.
  unfold live_round. assert (Ei : lv_w (live_inbox reconfigure t s) = lv_w s) by (unfold live_inbox; by destruct (0 <? _)).
  set (s0 := live_inbox reconfigure t s) in *. clearbody s0.
  destruct (picture t (lv_force s0) (lv_enc s0)) as [[e [nal|]]|]; [|intros [= <- <-]; cbn; rewrite Ei; apply sends_nothing|done].
  cbn [fst snd]. set (s1 := s0 <| lv_enc := e |>). assert (E1 : lv_w s1 = lv_w s) by done. clearbody s1.
  assert (P : exists s2 ok, live_send (lv_force s0) t nal s1 = (s2, ok) /\ sends (lv_w s) (lv_w s2) ok).
  { unfold live_send. destruct nal as [nal|]; [|eexists _, _; split; [done|]; cbn; rewrite E1; apply sends_nothing].
    change (lv_w (s1 <| lv_force ::= orb (v_force_late t) |>)) with (lv_w s1).
    rewrite <- E1. destruct (write_frame (Nalu (nal_data nal)) (lv_w s1)) as [x [[]|]] eqn:Ew; eexists _, _; (split; [done|]);
      by eapply sends_one. }
  destruct P as (s2 & ok & -> & P). destruct ok; cbn [negb]; [|intros [= <- <-]; exact P].
  unfold live_cursor. destruct (write_frames _ (lv_w s2)) as [x r] eqn:Ew.
  destruct P as (fs & r0 & E & N & R). specialize (R eq_refl). subst r0.
  assert (Q : write_frames (fs ++ (cursor_frame <$> (drain (v_cursor t)).2)) (lv_w s) = (x, r))
    by (by rewrite (sent_frames_app _ _ _ _ E)).
  assert (N2 : nalus (fs ++ (cursor_frame <$> (drain (v_cursor t)).2)) <= 1) by (rewrite nalus_app, cursor_nalus; lia).
  destruct r as [[]|]; cbn; intros [= <- <-]; cbn; by eexists _, _.
Qed.

Lemma live_loop_sends ts : forall s s' : Live W S,
  live_loop interval reconfigure picture ts s = Ok (Some s') -> sent_by (Z.of_nat (length ts)) (lv_w s) (lv_w s').
Proof.
  induction ts as [|t ts IH]; intros s s'; cbn [live_loop length]; [done|].
  destruct (v_stop t); [intros [= <-]; apply sent_by_nothing; lia|].
  set (s0 := s <| lv_tick ::= Z.add interval |>).
  destruct (live_round reconfigure picture t s0) as [[s1 go]|] eqn:E; [|done].
  pose proof (live_round_sends t s0 s1 go E) as P. change (lv_w s0) with (lv_w s) in P. cbn [fst snd]. destruct go.
  - intros E'. apply IH in E'. eapply (sent_by_more (Z.of_nat (length ts) + 1)); [lia|]. by eapply sends_then.
  - intros [= <-]. eapply (sent_by_more 1); [lia|]. by eapply sends_sent_by.
Qed.
End Live.

Context {DB : Dmabufs} {G : Gpu}.

Lemma vk_round_sends vars w h prefix t (s : VkEnc (W := W)) :
  sends (ve_w s) (ve_w (vk_round vars w h prefix t s).1) (vk_round vars w h prefix t s).2.
Proof.
  unfold vk_round. pose proof (vk_picture_pictured vars w h t (wants_idr s) s) as P.
  destruct (vk_picture vars w h t (wants_idr s) s) as [s1 nal]. destruct P as [(rec & d & b & E) _]. cbn [fst] in E. subst s1.
  destruct nal as [nal|]; [|destruct (_ <=? _); cbn; apply sends_nothing].
  cbn [ve_w]. match goal with |- context [write_frame ?f ?x] => change x with (ve_w s); destruct (write_frame f (ve_w s)) as [y [[]|]] eqn:Ew end.
  - assert (A : forall dt (s0 : VkEnc (W := W)), ve_w (adjust_qp dt t s0) = ve_w s0) by (intros; unfold adjust_qp; repeat case_match; done).
    assert (B : forall now x (s0 : VkEnc (W := W)), ve_w (count_bytes now x s0) = ve_w s0) by (intros; unfold count_bytes; by destruct trim_window).
    cbn [fst snd]. match goal with |- sends _ (ve_w (?s0 <| ve_tick ::= _ |>)) _ => change (sends (ve_w s) (ve_w s0) true) end.
    rewrite A, B. by eapply sends_one.
  - by eapply sends_one.
Qed.

Lemma vk_loop_sends vars w h interval prefix ts : forall s s' : VkEnc (W := W),
  vk_loop vars w h interval prefix ts s = Some s' -> sent_by (Z.of_nat (length ts)) (ve_w s) (ve_w s').
Proof.
  induction ts as [|t ts IH]; intros s s'; cbn [vk_loop length]; [done|].
  destruct (v_stop t); [intros [= <-]; apply sent_by_nothing; lia|].
  destruct (v_stopped t); [intros [= <-]; apply sent_by_nothing; lia|].
  pose proof (vk_round_sends vars w h prefix t (vk_head interval t s)) as P.
  destruct (vk_round vars w h prefix t (vk_head interval t s)) as [s1 go]. cbn [fst snd] in P.
  change (ve_w (vk_head interval t s)) with (ve_w s) in P. destruct go.
  - intros E'. apply IH in E'. eapply (sent_by_more (Z.of_nat (length ts) + 1)); [lia|]. by eapply sends_then.
  - intros [= <-]. eapply (sent_by_more 1); [lia|]. by eapply sends_sent_by.
Qed.

(** No encoder floods its socket: on a clock that does not run backwards, the loops
    of the Vulkan, CUDA and VA-API encoders send by the time [T] at most one picture
    more than ticks have passed since they started, however fast frames are committed
    and however far a slow encode has put them behind. *)
Theorem viewers_paced interval T ts :
  0 < interval -> Forall (fun t => v_head t <= T) ts ->
  (forall vars w h prefix (s s' : VkEnc (W := W)),
     vk_loop vars w h interval prefix ts s = Some s' -> ve_tick s <= T ->
     woke (fun t => next_tick interval (v_head t)) (ve_tick s) ts ->
     sent_by ((T - ve_tick s) / interval + 1) (ve_w s) (ve_w s')) /\
  (forall S (reconfigure : Z -> S -> S) picture (s s' : Live W S),
     live_loop interval reconfigure picture ts s = Ok (Some s') -> lv_tick s <= T ->
     woke (fun _ => Z.add interval) (lv_tick s) ts ->
     sent_by ((T - lv_tick s) / interval + 1) (lv_w s) (lv_w s')).
Proof.
  intros Hi HT. split.
  - intros vars w h prefix s s' E Hk Hw. eapply sent_by_more; [|by eapply vk_loop_sends].
    assert (B : (Z.of_nat (length ts) - 1) * interval <= T - ve_tick s).
    { eapply (woke_rounds (fun t => next_tick interval (v_head t))); try done; [|lia].
      intros t tick. unfold next_tick. case_match; boolz; lia. }
    pose proof (Z.div_le_lower_bound _ _ _ Hi (eq_ind _ (fun x => x <= _) B _ (Z.mul_comm _ _))). lia.
  - intros S reconfigure picture s s' E Hk Hw. eapply sent_by_more; [|by eapply live_loop_sends].
    assert (B : (Z.of_nat (length ts) - 1) * interval <= T - lv_tick s).
    { eapply (woke_rounds (fun _ => Z.add interval)); try done; [|lia]. intros t tick. lia. }
    pose proof (Z.div_le_lower_bound _ _ _ Hi (eq_ind _ (fun x => x <= _) B _ (Z.mul_comm _ _))). lia.
Qed.
End Pace.

(** ** What ffmpeg is fed *)

Section Ffmpeg.
Context {DB : Dmabufs}.

Abbreviation frame_bytes w h := (raw_frame_bytes H264Nvenc w h).

Definition vturn_fits (t : VTurn) : Prop :=
  match v_task t with
  | Some (TaskPixels pixels w h) => pixels_fit H264Nvenc pixels w h
  | Some (TaskDmabuf dma _) =>
      let '(w, h, stride) := dma_geometry dma in
      dims_fit H264Nvenc w h /\ 4 * w <= stride < 2 ^ 32 /\
      match v_raw t with Some raw => stride * h <= len raw | None => True end
  | _ => True
  end.

(** A converted frame has the size of a raw one. *)
Lemma task_to_nv12_fits t task :
  vturn_fits t -> v_task t = Some task ->
  exists p, task_to_nv12 t task = Ok p /\
    match p with Some (px, w, h) => len px = frame_bytes w h | None => True end.
Proof.
  intros Ht E. unfold vturn_fits in Ht. rewrite E in Ht. destruct task as [pixels w h|dma hs|]; [| |by eexists].
  - destruct (to_wire_fits H264Nvenc pixels w h Ht) as (wire & Ew & L). unfold to_wire in Ew. cbn [needs_nv12 negb] in Ew.
    cbn [task_to_nv12]. destruct (len pixels =? _) eqn:E1; [injection Ew as ->; by eexists|].
    destruct (len pixels =? usize (usize (w * h) * 4)); [rewrite Ew; by eexists|by eexists].
  - cbn [task_to_nv12]. unfold dma_size. destruct (dma_geometry dma) as [[w h] stride] eqn:Eg. cbn [snd].
    destruct Ht as ((Hw & Hh & He) & Hs & Hr). destruct (v_ready t); [|by eexists]. cbn [negb].
    destruct (v_raw t) as [raw|]; [|by eexists]. rewrite !(as_u_id 32) by (red; lia).
    destruct (destride_fits raw w h stride Hw Hh Hs Hr) as (p & -> & Hp).
    assert (F : pixels_fit H264Nvenc p w h) by (split; [by split_and!; lia || apply He|by left]).
    destruct (to_wire_fits H264Nvenc p w h F) as (wire & Ew & L). unfold to_wire in Ew. cbn [needs_nv12 negb] in Ew.
    rewrite !usize_id in Ew by (rewrite ?usize_id; nia).
    destruct (Z.eqb_spec (len p) (w * h * 3 / 2)) as [E1|_].
    { exfalso. pose proof (Z.div_lt_upper_bound (w * h * 3) 2 (4 * w * h)). nia. }
    rewrite (proj2 (Z.eqb_eq _ _)) in Ew by lia. rewrite Ew. by eexists.
Qed.

Lemma black_fits w h : dims_fit H264Nvenc w h -> len (black_nv12 w h) = frame_bytes w h.
Proof.
  intros (Hw & Hh & He). destruct (He eq_refl) as [Ew Eh]. unfold black_nv12, raw_frame_bytes, len.
  rewrite length_app, !length_replicate, usize_id by nia. cbn [needs_nv12].
  assert (A : w = 2 * (w / 2)) by (pose proof (Z.div_mod w 2); lia).
  assert (B : h = 2 * (h / 2)) by (pose proof (Z.div_mod h 2); lia).
  set (a := w / 2) in *. set (b := h / 2) in *.
  assert (C : (w + 1) / 2 = a) by (rewrite A; replace (2 * a + 1) with (1 + a * 2) by lia; by rewrite Z.div_add by lia).
  assert (D : (h + 1) / 2 = b) by (rewrite B; replace (2 * b + 1) with (1 + b * 2) by lia; by rewrite Z.div_add by lia).
  rewrite C, D. assert (Q : w * h / 2 = 2 * a * b).
  { rewrite A, B. replace (2 * a * (2 * b)) with (2 * a * b * 2) by lia. by rewrite Z.div_mul. }
  rewrite Q. nia.
Qed.

(** The frames written so far, the next one, and the tick. *)
Definition fed (w h start T : Z) (s : Nvenc) : Prop :=
  Forall (fun f => len f = frame_bytes w h) (nv_written s) /\ len (nv_last s) = frame_bytes w h /\
  start + Z.of_nat (length (nv_written s)) * NVENC_TICK <= nv_tick s <= Z.max T start + NVENC_TICK.

Lemma nvenc_loop_fed w h start T ts : forall s,
  Forall vturn_fits ts -> Forall (fun t => v_head t <= T) ts -> fed w h start T s ->
  exists r, nvenc_loop w h ts s = Ok r /\ match r with Some s' => fed w h start T s' | None => True end.
Proof.
  induction ts as [|t ts IH]; intros s Hf HT F; cbn [nvenc_loop]; [by eexists|].
  inversion Hf as [|? ? Hf0 Hf']; inversion HT as [|? ? HT0 HT']; subst.
  destruct (v_stop t); [by eexists|].
  change (nv_tick (s <| nv_force ::= orb (v_force t) |>)) with (nv_tick s).
  destruct (Z.leb_spec (nv_tick s) (v_head t)) as [L|L].
  - destruct (v_wrote t); cbn [negb]; [|by eexists]. apply IH; [done..|].
    destruct F as (F1 & F2 & F3 & F4). change NVENC_TICK with 16666666 in *. split_and!.
    + apply Forall_app. split; [done|]. by apply Forall_cons_2; [|apply Forall_nil_2].
    + done.
    + cbn -[Z.of_nat NVENC_TICK]. change NVENC_TICK with 16666666. rewrite length_app. cbn [length]. case_match; boolz; lia.
    + cbn -[NVENC_TICK]. change NVENC_TICK with 16666666. case_match; boolz; lia.
  - destruct (v_task t) as [task|] eqn:Et; [|by apply IH].
    destruct (task_to_nv12_fits t task Hf0 Et) as (p & -> & Hp). destruct p as [[[px fw] fh]|]; [|by apply IH].
    destruct ((fw =? w) && (fh =? h)) eqn:C; cbn [negb]; [|by eexists].
    apply andb_true_iff in C as [C1 C2]. boolz. subst fw fh. apply IH; [done..|]. destruct F as (F1 & _ & F3). by split.
Qed.

(** The ffmpeg behind a viewer gets a steady, aligned stream: it is told the size of
    the first frame, or the requested one when the session shows nothing for two
    seconds; every frame it is given, new, repeated or black, has exactly the bytes of
    an NV12 frame of that size; and by the time [T] it has been given at most one frame
    more than sixtieths of a second have passed. Nothing panics. (Sizes are even.) *)
Theorem viewer_ffmpeg_fed vars width height began start spawned cloned first_ok ts T :
  dims_fit H264Nvenc width height -> Forall vturn_fits ts -> Forall (fun t => v_head t <= T) ts ->
  exists r, run_nvenc_encoder vars width height began start spawned cloned first_ok ts = Ok r /\
    forall args s, r = Some (NvFed args s) -> exists w h pre post,
      args = pre ++ ["-pixel_format"; "nv12"; "-video_size"; size_string w h; "-framerate"; "60"] ++ post /\
      Forall (fun f => len f = frame_bytes w h) (nv_written s) /\
      (Z.of_nat (length (nv_written s)) - 1) * NVENC_TICK <= Z.max 0 (T - start).
Proof.
  intros Hd Hf HT. unfold run_nvenc_encoder. generalize (began + 2000000000) as deadline. intros deadline.
  assert (N : exists p, wait_nv12 deadline width height ts = Ok p /\
    match p with
    | NvFirst px w h rest => len px = frame_bytes w h /\ Forall vturn_fits rest /\ Forall (fun t => v_head t <= T) rest
    | _ => True
    end).
  { clear -Hd Hf HT. induction ts as [|t ts IH]; cbn [wait_nv12]; [by eexists|].
    inversion Hf as [|? ? Hf0 Hf']; inversion HT as [|? ? HT0 HT']; subst. specialize (IH Hf' HT').
    destruct (v_stop t); [by eexists|]. destruct (deadline <=? v_head t); [eexists; split; [done|]; split_and!; [by apply black_fits|done|done]|].
    destruct (v_task t) as [task|] eqn:Et; [|done].
    destruct (task_to_nv12_fits t task Hf0 Et) as (p & -> & Hp). destruct p as [[[px fw] fh]|]; [|done]. by eexists. }
  destruct N as (p & -> & Hp). destruct p as [| |px w h rest]; [by eexists|by eexists|]. destruct Hp as (Hp & Hf' & HT').
  destruct spawned; cbn [negb]; [|by eexists]. destruct cloned; cbn [negb]; [|by eexists].
  assert (A : exists pre post, viewer_ffmpeg_args vars w h =
    pre ++ ["-pixel_format"; "nv12"; "-video_size"; size_string w h; "-framerate"; "60"] ++ post).
  { unfold viewer_ffmpeg_args, raw_input. repeat case_match.
    - eexists (["-hide_banner"; "-loglevel"; "error"; "-vaapi_device"; "/dev/dri/renderD128"; "-f"; "rawvideo"]), _. reflexivity.
    - eexists (["-hide_banner"; "-loglevel"; "error"; "-f"; "rawvideo"]), _. reflexivity.
    - eexists (["-hide_banner"; "-loglevel"; "error"; "-f"; "rawvideo"]), _. reflexivity. }
  destruct A as (pre & post & ->). destruct first_ok; cbn [negb].
  2: { eexists. split; [done|]. intros args s [= <- <-]. exists w, h, pre, post. split; [done|]. split; [by apply Forall_nil_2|].
       change NVENC_TICK with 16666666. cbn [nv_written length]. lia. }
  set (s0 := Build_Nvenc px [px] (start + NVENC_TICK) false).
  destruct (nvenc_loop_fed w h start T rest s0 Hf' HT') as (r & E & Hr).
  { split_and!; cbn; [by apply Forall_cons_2; [|apply Forall_nil_2]|done|lia|lia]. }
  match goal with |- context [nvenc_loop w h rest ?x] => change x with s0 end. rewrite E. eexists. split; [done|]. destruct r as [s'|]; [|done].
  intros args s [= <- <-]. exists w, h, pre, post. split; [done|]. destruct Hr as (F1 & _ & F3). split; [done|].
  change NVENC_TICK with 16666666 in *. lia.
Qed.
End Ffmpeg.

(** ** The control reader *)

Section Reader.
Context (parse_op : list Z -> option Op.InjectOp).

(** The frames of the bridge, one after the other, until it says that it shuts down or
    has nothing more to say: then the encoder is told to stop. *)
Fixpoint apply_control (fs : list Frame) (s : Shared) : result Shared stop :=
  match fs with
  | [] => Ok (s <| sh_stop := true |>)
  | f :: fs' =>
      let? r := on_control parse_op f s in
      if r.2 then apply_control fs' r.1 else Ok r.1
  end.

Lemma on_control_stop f s s' : on_control parse_op f s = Ok (s', true) -> sh_stop s' = sh_stop s.
Proof. unfold on_control. repeat case_match; intros; by simplify_eq. Qed.

Lemma image_length f : (5 <= length (image f))%nat.
Proof. unfold image, frame_image. rewrite !length_app, length_to_le. cbn. lia. Qed.

(** What the bridge asks for is done in the order it asked: over any sequence of
    frames it can send, the reader has injected, set and requested exactly what they
    say, in order and up to the first shutdown, and afterwards the encoder is told to
    stop. *)
Theorem viewer_control_in_order fs s :
  Forall frame_fits fs -> sh_stop s = false ->
  let sock := concat (image <$> fs) in
  control_reader parse_op (S (length sock)) (fun _ => false) sock s = (let? s' := apply_control fs s in Ok (Some s')).
Proof.
  intros Hf Hs sock. unfold sock.
  assert (G : forall fuel, (length (concat (image <$> fs)) < fuel)%nat ->
    control_reader parse_op fuel (fun _ => false) (concat (image <$> fs)) s = (let? s' := apply_control fs s in Ok (Some s')));
    [|apply G; lia].
  clear sock. revert s Hs. induction Hf as [|f fs Hf _ IH]; intros s Hs fuel L; (destruct fuel as [|fuel]; [lia|]);
    cbn [control_reader orb fmap list_fmap concat apply_control]; rewrite Hs; [done|].
  rewrite read_image by done. destruct (on_control parse_op f s) as [[s1 [|]]|] eqn:E; [|done..]. cbn [fst snd].
  apply IH; [by rewrite (on_control_stop _ _ _ E)|]. cbn [fmap list_fmap concat] in L. rewrite length_app in L.
  pose proof (image_length f). lia.
Qed.

Lemma read_frame_shrinks r r' f : read_frame r = (r', Ok f) -> (length r' < length r)%nat.
Proof.
  unfold read_frame, mbind, eff_mbind. destruct (read_exact 5 r) as [r1 [hd|]] eqn:E1; [|done].
  apply read_exact_split in E1 as [-> L1]. destruct (_ <? _); [done|].
  destruct (read_exact _ r1) as [r2 [pl|]] eqn:E2; [|done]. apply read_exact_split in E2 as [-> L2].
  unfold lift. intros [= <- _]. rewrite !length_app. lia.
Qed.

(** The reader ends, whatever bytes arrive: garbage, half a frame or none; and unless
    it panics, the encoder has been told to stop. *)
Theorem viewer_control_ends sock s stops :
  match control_reader parse_op (S (length sock)) stops sock s with
  | Ok (Some s') => (forall n, stops n = false) -> sh_stop s' = true
  | Ok None => False
  | Err _ => True
  end.
Proof.
  assert (G : forall fuel, (length sock < fuel)%nat ->
    match control_reader parse_op fuel stops sock s with
    | Ok (Some s') => (forall n, stops n = false) -> sh_stop s' = true
    | Ok None => False
    | Err _ => True
    end); [|apply G; lia].
  intros fuel. revert sock s stops. induction fuel as [|fuel IH]; intros sock s stops L; [lia|]. cbn [control_reader].
  destruct (stops 0%nat) eqn:E0; cbn [orb]; [intros Hn; by rewrite Hn in E0|].
  destruct (sh_stop s) eqn:Es; [done|]. destruct (read_frame sock) as [sock' [f|]] eqn:Er; [|done].
  destruct (on_control parse_op f s) as [[s1 [|]]|] eqn:E; [| |done]; cbn [fst snd].
  - pose proof (read_frame_shrinks _ _ _ Er) as L'. specialize (IH sock' s1 (fun n => stops (S n)) ltac:(lia)).
    destruct (control_reader _ _ _ _ _) as [[s2|]|]; [|done..]. intros Hn. by apply IH.
  - unfold on_control in E. by repeat case_match; simplify_eq.
Qed.
End Reader.

(** ** Witnesses *)

Definition no_vars : ViewerVars :=
  {| vv_codec := None; vv_bitrate := None; vv_gop := None; vv_max_fps := None; vv_qp := None; vv_render_node := None |}.

Definition a_vturn (task : option RecordingTask) (force : bool) (clock : Z) : VTurn :=
  {| v_stop := false; v_head := clock; v_task := task; v_stopped := false; v_ready := true; v_raw := None;
     v_last_ready := true; v_force := force; v_force_late := false; v_bitrate := None; v_pts := clock; v_sent := clock;
     v_adjust := clock; v_adjusted := clock; v_end := clock; v_wrote := true;
     v_cursor := {| latest_image := None; latest_pos := None |} |}.

Definition stop_vturn (clock : Z) : VTurn :=
  {| v_stop := true; v_head := clock; v_task := None; v_stopped := true; v_ready := false; v_raw := None;
     v_last_ready := false; v_force := false; v_force_late := false; v_bitrate := None; v_pts := clock; v_sent := clock;
     v_adjust := clock; v_adjusted := clock; v_end := clock; v_wrote := false;
     v_cursor := {| latest_image := None; latest_pos := None |} |}.

(** Dmabuf 1 is 64 by 48, any other 800 by 600. *)
Definition two_sizes : Dmabufs := fun d => if (d =? 1)%nat then (64, 48, 256) else (800, 600, 3200).

Definition viewer_turns : list VTurn :=
  [a_vturn None false 0; a_vturn (Some (TaskDmabuf 1 [])) false 10; a_vturn None false 20000000;
   a_vturn (Some (TaskDmabuf 1 [])) false 300000000; a_vturn None true 320000000; stop_vturn 400000000].

Abbreviation viewer_run fails :=
  (run_vulkan_encoder (DB := two_sizes) (G := toy_gpu fails) (W := list Z) no_vars [] true 0 0 viewer_turns).

Definition ended_state {G : Gpu} (e : option (vk_end (G := G) (W := list Z))) : option (VkEnc (G := G) (W := list Z)) :=
  match e with Some (VkStopped s) => Some s | _ => None end.

Lemma viewer_stream_anchored_witness :
  exists s, ended_state (viewer_run (fun n => n =? 1)%nat) = Some s /\
    exists w h (r : VkRecorder (G := toy_gpu (fun n => n =? 1)%nat)) pics, try_new w h = Some r /\ anchored pics /\
    reached ((fun n => Nalu ((if nal_key n then vk_sps_pps_annexb r else []) ++ nal_data n)) <$> pics) [] (ve_w s).
Proof.
  destruct (viewer_run (fun n => n =? 1)%nat) as [[| |s]|] eqn:E; try (vm_compute in E; discriminate).
  exists s. split; [reflexivity|].
  apply (viewer_stream_anchored (G := toy_gpu (fun n => n =? 1)%nat) (H := two_sizes) no_vars [] true 0 0 viewer_turns s);
    [cbn; lia|left; exact E].
Defined.

Lemma viewer_rate_control_witness :
  exists s, viewer_run (fun _ => false) = Some (VkStopped s) /\ ve_qp s = 25 /\ 18 <= ve_qp s <= 44 /\ ve_dynamic s = -1.
Proof.
  destruct (viewer_run (fun _ => false)) as [[| |s]|] eqn:E; try (vm_compute in E; discriminate).
  exists s. split; [reflexivity|]. split; [vm_compute in E; by injection E as <-|].
  destruct (viewer_rate_control (G := toy_gpu (fun _ => false)) (H := two_sizes) no_vars [] true 0 0 viewer_turns s) as (A & _ & _ & D);
    [cbn; lia|exact E|]. exact (conj A D).
Defined.

Definition a_vk_enc (gop fail : Z) (force : bool) (n : nat) (G : Gpu) (g : gpu_state (Gpu := G)) : VkEnc (G := G) (W := list Z) :=
  {| ve_rec := {| vk_gpu := g; vk_codec_private := []; vk_sps_pps_annexb := []; vk_frame_num := 2; vk_ref_slot := 1 |};
     ve_w := []; ve_gop := gop; ve_force := force; ve_target := 0; ve_window := []; ve_bytes := 0; ve_qp := 26; ve_dynamic := 26;
     ve_adjust := 0; ve_dmabuf := Some 1%nat; ve_bgra := None; ve_fail := fail; ve_tick := 0; ve_wedged := false |}.

Lemma resize_declared_wedged_witness :
  let G := toy_gpu (fun _ => false) in
  let t := a_vturn (Some (TaskDmabuf 2 [])) false 10 in
  exists s', vk_loop (DB := two_sizes) (G := G) no_vars 64 48 16666666 [] (replicate 89 t ++ [t]) (a_vk_enc 3 0 false 0 G 0%nat) = Some s' /\
    ve_wedged s' = true.
Proof.
  intros G t.
  assert (O : other_size (H := two_sizes) 64 48 t) by (split_and!; [reflexivity|reflexivity|vm_compute; discriminate]).
  destruct (resize_declared_wedged (DB := two_sizes) (G := G) no_vars 64 48 16666666 [] (replicate 89 t) t []
    (a_vk_enc 3 0 false 0 G 0%nat)) as (s' & E & D & _); [reflexivity| |reflexivity|].
  - apply Forall_app. split; [by apply Forall_replicate|]. apply Forall_cons_2; [exact O|by apply Forall_nil_2].
  - exists s'. exact (conj E D).
Defined.

Lemma vulkan_loses_request_witness :
  let G := toy_gpu (fun _ => true) in
  let s := a_vk_enc 3 0 true 0 G 0%nat in
  let t := a_vturn None false 10 in
  wants_idr s = true /\ wants_idr (vk_head 16666666 t (vk_round (DB := two_sizes) no_vars 64 48 [] t s).1) = false.
Proof.
  intros G s t.
  apply (vulkan_loses_request (DB := two_sizes) (G := G) no_vars 64 48 [] t t 16666666 s
    (vk_picture (DB := two_sizes) no_vars 64 48 t true s).1); try reflexivity; unfold GOP_LEN; cbn; lia.
Defined.

Lemma live_request_served_witness :
  let picture := fun (t : VTurn) (idr : bool) (n : nat) => Ok (S n, Some (if (n <? 2)%nat then None else Some {| nal_data := [1]; nal_key := idr |})) in
  let s := {| lv_enc := 0%nat; lv_w := ([] : list Z); lv_force := true; lv_target := 0; lv_tick := 0 |} in
  asked 16666000 (fun _ n => n) picture (replicate 4 (a_vturn None false 0)) s = replicate 2 (true, false) ++ [(true, true); (false, true)] /\
  exists n rest, asked 16666000 (fun _ n => n) picture (replicate 4 (a_vturn None false 0)) s = replicate n (true, false) ++ (true, true) :: rest.
Proof.
  intros picture s. split; [reflexivity|].
  destruct (live_request_served 16666000 (fun _ n => n) picture (replicate 4 (a_vturn None false 0)) s eq_refl) as (n & [E|(rest & E)]).
  - exfalso. change (asked 16666000 (fun _ n => n) picture (replicate 4 (a_vturn None false 0)) s)
      with [(true, false); (true, false); (true, true); (false, true)] in E. by destruct n as [|[|[|n]]].
  - exact (ex_intro _ n (ex_intro _ rest E)).
Defined.

Lemma viewers_paced_witness :
  let G := toy_gpu (fun _ => false) in
  let s := a_vk_enc 3 0 false 0 G 0%nat in
  let ts := [a_vturn None false 5; a_vturn None false 16666666; a_vturn None true 200000000; stop_vturn 216666700] in
  exists s', vk_loop (DB := two_sizes) (G := G) no_vars 64 48 16666666 [] ts s = Some s' /\ sent_by 14 (ve_w s) (ve_w s').
Proof.
  intros G s ts.
  destruct (vk_loop (DB := two_sizes) (G := G) no_vars 64 48 16666666 [] ts s) as [s'|] eqn:E; [|vm_compute in E; discriminate].
  exists s'. split; [reflexivity|].
  destruct (viewers_paced (DB := two_sizes) (G := G) (W := list Z) 16666666 216666700 ts) as [P _].
  - lia.
  - repeat (apply Forall_cons_2; [cbn; lia|]). by apply Forall_nil_2.
  - apply (P no_vars 64 48 [] s s'); [exact E|cbn; lia|]. repeat (split; [vm_compute; discriminate|]); exact I.
Defined.

Lemma viewer_ffmpeg_fed_witness :
  let ts := [a_vturn None false 0; a_vturn None false 2000000001; a_vturn (Some (TaskPixels (replicate 16 7) 2 2)) false 2000000002;
             a_vturn None false 2100000000; stop_vturn 2100000001] in
  exists args s, run_nvenc_encoder (DB := two_sizes) no_vars 2 2 0 2000000001 true true true ts = Ok (Some (NvFed args s)) /\
    length (nv_written s) = 2%nat /\ (Z.of_nat (length (nv_written s)) - 1) * NVENC_TICK <= 100000000.
Proof.
  intros ts.
  destruct (viewer_ffmpeg_fed (DB := two_sizes) no_vars 2 2 0 2000000001 true true true ts 2100000001) as (r & E & F).
  - split_and!; done.
  - repeat (apply Forall_cons_2; [done|]). apply Forall_cons_2; [|repeat (apply Forall_cons_2; [done|]); by apply Forall_nil_2].
    split; [split_and!; done|by left].
  - repeat (apply Forall_cons_2; [cbn; lia|]). by apply Forall_nil_2.
  - destruct r as [[|args s]|]; try (vm_compute in E; discriminate). exists args, s. split; [exact E|].
    destruct (F args s eq_refl) as (w & h & pre & post & _ & _ & B). split; [vm_compute in E; by injection E as _ <-|]. lia.
Defined.

Lemma viewer_control_in_order_witness :
  let st := state_new "s" 64 48 1 None true 0 in
  let fs := [SetBitrate 900000; ForceKeyframe; InjectOp [1; 2]; Shutdown 0; SetBitrate 5] in
  let s := {| sh_state := st; sh_force := false; sh_target := 0; sh_stop := false |} in
  control_reader (fun _ => None) (S (length (concat (image <$> fs)))) (fun _ => false) (concat (image <$> fs)) s
    = Ok (Some {| sh_state := st; sh_force := true; sh_target := 900000; sh_stop := true |}).
Proof.
  intros st fs s. rewrite (viewer_control_in_order (fun _ => None) fs s); [reflexivity| |reflexivity].
  repeat (apply Forall_cons_2; [split; [cbn; unfold in_u; repeat constructor; lia|cbn; unfold MAX_PAYLOAD_BYTES; lia]|]).
  by apply Forall_nil_2.
Defined.

(** ** The loops keep what every picture keeps *)

Section LiveInv.
Context {DB : Dmabufs} {W : Type} `{Write W} {S : Type}.

Lemma live_inbox_enc reconfigure t (s : Live W S) (P : S -> Prop) :
  P (lv_enc s) -> (forall b e, P e -> P (reconfigure b e)) -> P (lv_enc (live_inbox reconfigure t s)).
Proof.
  intros HP Hr. unfold live_inbox. case_match; cbn; auto.
Qed.

Lemma live_send_enc idr t nal (s : Live W S) : lv_enc (live_send idr t nal s).1 = lv_enc s.
Proof.
  unfold live_send. destruct nal as [nal|]; [|done].
  by destruct (write_frame _ _) as [sock [u|e]].
Qed.

Lemma live_cursor_enc t (s : Live W S) : lv_enc (live_cursor t s).1 = lv_enc s.
Proof. unfold live_cursor. by destruct (write_frames _ _). Qed.

Lemma live_round_enc reconfigure picture t (s s' : Live W S) b (P : S -> Prop) :
  P (lv_enc s) -> (forall b e, P e -> P (reconfigure b e)) ->
  (forall idr e e' o, P e -> picture t idr e = Ok (e', o) -> P e') ->
  live_round reconfigure picture t s = Ok (s', b) -> P (lv_enc s').
Proof.
  intros HP Hr Hp. unfold live_round.
  pose proof (live_inbox_enc reconfigure t s P HP Hr) as HP1. set (s1 := live_inbox reconfigure t s) in *.
  destruct (picture t (lv_force s1) (lv_enc s1)) as [[e o]|err] eqn:E; [|done]. cbn.
  pose proof (Hp _ _ _ _ HP1 E) as HP2.
  destruct o as [nal|]; [|by intros [= <- <-]].
  pose proof (live_send_enc (lv_force s1) t nal (s1 <| lv_enc := e |>)) as Hs.
  destruct (live_send (lv_force s1) t nal (s1 <| lv_enc := e |>)) as [s2 ok]. cbn in Hs.
  destruct ok; cbn; [|by intros [= <- <-]; rewrite Hs].
  pose proof (live_cursor_enc t s2) as Hc. destruct (live_cursor t s2) as [s3 ok]. cbn in Hc.
  destruct ok; cbn; intros [= <- <-]; cbn; by rewrite Hc, Hs.
Qed.

Lemma live_loop_enc interval reconfigure picture ts (s s' : Live W S) (P : S -> Prop) :
  P (lv_enc s) -> (forall b e, P e -> P (reconfigure b e)) ->
  (forall t idr e e' o, t ∈ ts -> P e -> picture t idr e = Ok (e', o) -> P e') ->
  live_loop interval reconfigure picture ts s = Ok (Some s') -> P (lv_enc s').
Proof.
  revert s. induction ts as [|t ts IH]; intros s HP Hr Hp; cbn; [done|].
  destruct (v_stop t); [by intros [= <-]|].
  destruct (live_round reconfigure picture t _) as [[s1 b]|] eqn:E; [|done]. cbn.
  assert (HP1 : P (lv_enc s1)).
  { eapply live_round_enc; [| |intros idr e e' o; apply (Hp t); left|done]; done. }
  destruct b; [|by intros [= <-]]. apply IH; [done..|].
  intros t' idr e e' o Ht. apply Hp. by right.
Qed.
Lemma live_first_enc nal (s : Live W S) : lv_enc (live_first nal s).1 = lv_enc s.
Proof.
  unfold live_first. destruct nal as [nal|]; [|done]. by destruct (write_frame _ _) as [sock [u|e]].
Qed.
End LiveInv.
