(* ===== verification/Json.v ===== *)
(** * JSON values

    What the command-line client and the MCP server use of [serde_json]: the values, the
    objects with their keys in order, and the text, which is a parameter with the
    round-trip law. *)

From Stdlib Require Import ZArith Lia SpecFloat Ascii.
From stdpp Require Import prelude strings list countable pretty.
From S2P Require Import Prelude Words Floats Decimal.

Open Scope Z_scope.

(** [serde_json::Number]: an integer is an [i64] or a [u64]; text with a fraction or an
    exponent, and an integer that fits neither, is a float. *)
Inductive number := NInt (z : Z) | NFloat (f : f64).

(** [serde_json::Value]; an object is its entries, in the order of their keys. *)
#[warnings="-register-all"]
Inductive Value :=
| VNull
| VBool (b : bool)
| VNumber (n : number)
| VString (s : string)
| VArray (l : list Value)
| VObject (m : list (string * Value)).

Abbreviation Map := (list (string * Value)).

Fixpoint obj_get (k : string) (m : Map) : option Value :=
  match m with
  | [] => None
  | (k', v) :: m => if (k =? k')%string then Some v else obj_get k m
  end.

(** [Map::insert]: a [BTreeMap] is ordered by its keys. *)
Fixpoint obj_insert (k : string) (v : Value) (m : Map) : Map :=
  match m with
  | [] => [(k, v)]
  | (k', v') :: rest =>
      match String.compare k k' with
      | Eq => (k, v) :: rest
      | Lt => (k, v) :: m
      | Gt => (k', v') :: obj_insert k v rest
      end
  end.

(** An object literal of [json!]. *)
Definition obj (entries : list (string * Value)) : Value :=
  VObject (foldl (fun m e => obj_insert e.1 e.2 m) [] entries).

(** [Value::get] with a string. *)
Definition get (k : string) (v : Value) : option Value :=
  match v with VObject m => obj_get k m | _ => None end.

Definition as_str (v : Value) : option string := match v with VString s => Some s | _ => None end.
Definition as_bool (v : Value) : option bool := match v with VBool b => Some b | _ => None end.

(** [v.get(k).and_then(Value::as_str)] and the like. *)
Definition str_at (k : string) (v : Value) : option string := match get k v with Some x => as_str x | None => None end.
Definition bool_at (k : string) (v : Value) : option bool := match get k v with Some x => as_bool x | None => None end.

(** What is on a line of text, after [String::from_utf8_lossy] and [trim]: nothing, a
    value, or something that does not parse, with the error. *)
Inductive says := Blank | Bad (e : string) | Says (v : Value).

(** The text of values: [to_string], compact on one line, and its reader. *)
Class JsonText := {
  print : Value -> string;
  read : list Z -> says;
}.

(** How deep arrays and objects are nested; the reader stops at 128. *)
Fixpoint depth (v : Value) : nat :=
  match v with
  | VArray l => S (foldr Nat.max 0%nat (map depth l))
  | VObject m => S (foldr Nat.max 0%nat (map (fun e => let '(_, v) := e in depth v) m))
  | _ => 0%nat
  end.

Fixpoint keys_ascend (m : Map) : bool :=
  match m with
  | (k, _) :: ((k', _) :: _) as rest =>
      match String.compare k k' with Lt => keys_ascend rest | _ => false end
  | _ => true
  end.

(** The integers of a [Number], objects as a [BTreeMap] has them, and no float, which is read
    back exactly only with a feature of [serde_json] that is not on. *)
Fixpoint exact (v : Value) : bool :=
  match v with
  | VNumber (NInt z) => (- 2 ^ 63 <=? z) && (z <? 2 ^ 64)
  | VNumber (NFloat _) => false
  | VArray l => forallb exact l
  | VObject m => keys_ascend m && forallb (fun e => let '(_, v) := e in exact v) m
  | _ => true
  end.

(** A value that is read back as it was printed. *)
Definition reads_back (v : Value) : bool := exact v && (depth v <? 128)%nat.

(** Reading what was printed gives such a value back, and any value is printed on one line. *)
Class JsonLaws `{JsonText} := {
  read_print v : reads_back v = true -> read (bytes_of_string (print v)) = Says v;
  print_line v : 10 ∉ bytes_of_string (print v);
}.

(** ** Objects *)

Lemma obj_get_insert k v m k' :
  obj_get k' (obj_insert k v m) = if (k' =? k)%string then Some v else obj_get k' m.
Proof.
  induction m as [|[k0 v0] m IH]; cbn [obj_insert obj_get]; [done|].
  destruct (String.compare k k0) eqn:C; cbn [obj_get].
  - apply String.compare_eq_iff in C as ->. by destruct (String.eqb_spec k' k0).
  - done.
  - rewrite IH. destruct (String.eqb_spec k' k0) as [->|]; [|done].
    destruct (String.eqb_spec k0 k) as [->|]; [|done]. exfalso.
    pose proof (String.compare_antisym k k) as A. by rewrite C in A.
Qed.

(** ** An instance

    Values are numbered, as trees, and written in decimal: a text the laws hold of. *)

Definition float_code (f : f64) : (bool + bool) + (unit + bool * positive * Z) :=
  match f with
  | S754_zero s => inl (inl s)
  | S754_infinity s => inl (inr s)
  | S754_nan => inr (inl ())
  | S754_finite s m e => inr (inr (s, m, e))
  end.

Definition float_decode (c : (bool + bool) + (unit + bool * positive * Z)) : f64 :=
  match c with
  | inl (inl s) => S754_zero s
  | inl (inr s) => S754_infinity s
  | inr (inl _) => S754_nan
  | inr (inr (s, m, e)) => S754_finite s m e
  end.

#[global] Instance number_eq_dec : EqDecision number.
Proof. solve_decision. Defined.

#[global] Instance number_countable : Countable number.
Proof.
  refine (inj_countable' (fun n => match n with NInt z => inl z | NFloat f => inr (float_code f) end)
            (fun c => match c with inl z => NInt z | inr c => NFloat (float_decode c) end) _).
  by intros [|[]].
Defined.

Abbreviation leaf := (bool + (number + string))%type.

Fixpoint to_tree (v : Value) : gen_tree leaf :=
  match v with
  | VNull => GenNode 0 []
  | VBool b => GenLeaf (inl b)
  | VNumber n => GenLeaf (inr (inl n))
  | VString s => GenLeaf (inr (inr s))
  | VArray l => GenNode 1 (map to_tree l)
  | VObject m => GenNode 2 (map (fun e => let '(k, v) := e in GenNode 3 [GenLeaf (inr (inr k)); to_tree v]) m)
  end.

Fixpoint of_tree (t : gen_tree leaf) : Value :=
  match t with
  | GenLeaf (inl b) => VBool b
  | GenLeaf (inr (inl n)) => VNumber n
  | GenLeaf (inr (inr s)) => VString s
  | GenNode 1 l => VArray (map of_tree l)
  | GenNode 2 l =>
      VObject (map (fun e => match e with GenNode _ [GenLeaf (inr (inr k)); t] => (k, of_tree t) | _ => ("", VNull) end) l)
  | GenNode _ _ => VNull
  end.

Lemma of_to_tree : forall v, of_tree (to_tree v) = v.
Proof.
  fix IH 1. intros [| | | |l|m]; [reflexivity..| |]; cbn [to_tree of_tree]; f_equal.
  - induction l as [|v l IHl]; [reflexivity|]. cbn [map]. rewrite IH, IHl. reflexivity.
  - induction m as [|[k v] m IHm]; [reflexivity|]. cbn [map]. rewrite IH, IHm. reflexivity.
Qed.

Fixpoint string_of_bytes (l : list Z) : string :=
  match l with
  | [] => ""
  | b :: l => String (Ascii.ascii_of_nat (Z.to_nat b)) (string_of_bytes l)
  end.

Definition decimal_json : JsonText := {|
  print v := pretty (Npos (encode (to_tree v)));
  read l :=
    match digits 0 (string_of_bytes l) with
    | Some (Zpos p) => match decode p with Some t => Says (of_tree t) | None => Bad "" end
    | _ => Bad ""
    end;
|}.

Lemma string_of_bytes_of s : string_of_bytes (bytes_of_string s) = s.
Proof.
  induction s as [|c s IH]; [done|]. cbn [bytes_of_string string_of_bytes]. rewrite IH. f_equal.
  rewrite <- N_nat_Z, Nat2Z.id. unfold ascii_of_nat. rewrite N2Nat.id. apply ascii_N_embedding.
Qed.

Lemma bytes_split b s : b ∈ bytes_of_string s ->
  exists p c q, s = (p +:+ String c q)%string /\ b = Z.of_N (N_of_ascii c).
Proof.
  induction s as [|c s IH]; cbn [bytes_of_string]; [by intros ?%elem_of_nil|]. intros [->|Hb]%elem_of_cons.
  - by exists "", c, s.
  - destruct (IH Hb) as (p & c' & q & -> & ->). by exists (String c p), c', q.
Qed.

#[global] Instance decimal_json_laws : @JsonLaws decimal_json.
Proof.
  split; intros v; [intros _|]; cbn.
  - rewrite string_of_bytes_of, digits_pretty_N. cbn [Z.of_N]. by rewrite decode_encode, of_to_tree.
  - intros Hb. apply bytes_split in Hb as (p & c & q & E & Hc).
    assert (c = ascii_of_nat 10) as ->.
    { rewrite <- (ascii_N_embedding c). assert (N_of_ascii c = 10%N) as -> by lia. done. }
    apply (pretty_no_char (ascii_of_nat 10) (Zpos (encode (to_tree v))) eq_refl ltac:(lia) p q).
    exact E.
Qed.
