(* ===== verification/Mcp.v ===== *)
(** * The MCP server ([crates/waymux-mcp/src])

    Tools for agents, each a verb of the command-line client: the registry of tools with
    their schemas ([registry.rs]), the execution of the client and the translation of
    its answer ([exec.rs]), and JSON-RPC over lines ([server.rs]). The client's process
    is the class [Cli]: what it answers to an argument vector may depend on everything
    that was run before; each run is appended to the log. *)

From Stdlib Require Import ZArith Lia.
From stdpp Require Import prelude strings list pretty.
From S2P Require Import Prelude Words Io Floats Sys Json.

Open Scope Z_scope.

(** ** [registry.rs] *)

Inductive ParamKind := Positional | Flag | BoolFlag.

Inductive ParamType := StringT | IntegerT | NumberT | BooleanT | JsonStringT | StringArrayT.

#[global] Instance ParamType_eq_dec : EqDecision ParamType.
Proof. solve_decision. Defined.

Record Param := {
  p_name : string;
  p_cli_name : string;
  p_kind : ParamKind;
  p_ty : ParamType;
  p_required : bool;
  p_description : string;
}.

Record ToolSpec := {
  t_name : string;
  t_verb : string;
  t_argv : list string;
  t_description : string;
  t_params : list Param;
}.

Definition pos (name : string) (ty : ParamType) (required : bool) (d : string) : Param :=
  {| p_name := name; p_cli_name := name; p_kind := Positional; p_ty := ty; p_required := required; p_description := d |}.

Definition flag (name cli_name : string) (ty : ParamType) (required : bool) (d : string) : Param :=
  {| p_name := name; p_cli_name := cli_name; p_kind := Flag; p_ty := ty; p_required := required; p_description := d |}.

Definition boolflag (name cli_name d : string) : Param :=
  {| p_name := name; p_cli_name := cli_name; p_kind := BoolFlag; p_ty := BooleanT; p_required := false; p_description := d |}.

(** A double quote and a newline. *)
Definition dq : string := String (Ascii.ascii_of_nat 34) "".
Definition nl : string := String (Ascii.ascii_of_nat 10) "".

Definition TOOLS : list ToolSpec := [
  {| t_name := "waymux_ls"; t_verb := "ls"; t_argv := ["ls"];
     t_description := "List all waymux sessions.";
     t_params := [] |};
  {| t_name := "waymux_new"; t_verb := "new"; t_argv := ["new"];
     t_description := "Create a new waymux session.";
     t_params := [pos "name" StringT true "Session name.";
       flag "size" "size" StringT false "Size in WxH pixels, e.g. 1920x1080. Defaults to 1920x1080.";
       flag "scale" "scale" IntegerT false "Output scale. Defaults to 1.";
       boolflag "share_audio" "share-audio" "Share host PulseAudio/PipeWire sockets with the session (local-only).";
       flag "mem_cap_mb" "mem-cap-mb" IntegerT false "Aggregate memory cap in MiB via cgroup-v2.";
       flag "cpu_cap_pct" "cpu-cap-pct" IntegerT false "Aggregate CPU cap as percent of one core (200 = two cores).";
       flag "disk_quota_mb" "disk-quota-mb" IntegerT false "Per-session disk quota in MiB for the runtime dir.";
       flag "fd_limit" "fd-limit" IntegerT false "File-descriptor cap (RLIMIT_NOFILE) for the session subprocess.";
       flag "api_key_id" "api-key-id" StringT false "Waymux API-key id (UUID) to attribute usage to."] |};
  {| t_name := "waymux_rm"; t_verb := "rm"; t_argv := ["rm"];
     t_description := "Destroy a waymux session.";
     t_params := [pos "name" StringT true "Session name to destroy."] |};
  {| t_name := "waymux_info"; t_verb := "info"; t_argv := ["info"];
     t_description := "Show details for a single waymux session.";
     t_params := [pos "name" StringT true "Session name."] |};
  {| t_name := "waymux_spawn"; t_verb := "spawn"; t_argv := ["spawn"];
     t_description := "Launch a client (argv) inside a session (local-only). The command and its arguments are passed as a vector after a `--` separator; no shell is involved. argv is bounded (at most ~1024 elements, each at most ~256 KiB) and argv[0] must be an absolute path.";
     t_params := [pos "name" StringT true "Session name.";
       boolflag "compositor" "compositor" "Run the spawned client as a nested compositor.";
       {| p_name := "argv"; p_cli_name := "argv"; p_kind := Positional; p_ty := StringArrayT; p_required := true; p_description := ("Command and arguments to run, as an array of strings (e.g. [" +:+ dq +:+ "chromium" +:+ dq +:+ ", " +:+ dq +:+ "--app=https://example.com" +:+ dq +:+ "]). Passed after `--`; never interpreted by a shell.") |}] |};
  {| t_name := "waymux_windows"; t_verb := "windows"; t_argv := ["windows"];
     t_description := "List windows in a session, optionally filtered by tag.";
     t_params := [pos "name" StringT true "Session name.";
       flag "tag" "tag" StringT false "Only list windows whose tag set contains this tag."] |};
  {| t_name := "waymux_tag"; t_verb := "tag"; t_argv := ["tag"];
     t_description := "Replace a window's tag set with one or more free-form tags.";
     t_params := [pos "name" StringT true "Session name.";
       pos "window_id" IntegerT true "Window id (see waymux_windows).";
       {| p_name := "tags"; p_cli_name := "tags"; p_kind := Positional; p_ty := StringArrayT; p_required := true; p_description := "One or more tags to set on the window (at least one)." |}] |};
  {| t_name := "waymux_resize"; t_verb := "resize"; t_argv := ["resize"];
     t_description := "Resize a session's virtual output (local-only).";
     t_params := [pos "name" StringT true "Session name.";
       pos "size" StringT true "New size in WxH pixels, e.g. 1280x720."] |};
  {| t_name := "waymux_screenshot"; t_verb := "screenshot"; t_argv := ["screenshot"];
     t_description := "Capture a window's current buffer as a PNG. Under --json the PNG is returned base64-encoded (no file is written).";
     t_params := [pos "name" StringT true "Session name.";
       pos "window_id" IntegerT true "Window id (see waymux_windows).";
       flag "output" "output" StringT false "Ignored under --json (bytes are returned in the result); a placeholder is supplied automatically if omitted."] |};
  {| t_name := "waymux_screenshot_desktop"; t_verb := "screenshot-desktop"; t_argv := ["screenshot-desktop"];
     t_description := "Composite every window in the session into a single desktop PNG. Under --json the PNG is returned base64-encoded.";
     t_params := [pos "name" StringT true "Session name.";
       flag "output" "output" StringT false "Ignored under --json (bytes are returned in the result); a placeholder is supplied automatically if omitted."] |};
  {| t_name := "waymux_idle"; t_verb := "idle"; t_argv := ["idle"];
     t_description := "Wait until the session has been quiescent for --quiet-ms.";
     t_params := [pos "name" StringT true "Session name.";
       flag "quiet_ms" "quiet-ms" IntegerT false "Required quiet window in milliseconds. Defaults to 500.";
       flag "timeout_ms" "timeout-ms" IntegerT false "Overall timeout in milliseconds. Defaults to 10000."] |};
  {| t_name := "waymux_wait"; t_verb := "wait"; t_argv := ["wait"];
     t_description := "Block until a window matching a selector appears, or timeout (local-only).";
     t_params := [pos "name" StringT true "Session name.";
       flag "app_id" "app-id" StringT false "Match windows with this app id.";
       flag "title" "title" StringT false "Match windows with this exact title.";
       flag "tag" "tag" StringT false "Match windows whose tag set contains this tag.";
       flag "pid" "pid" IntegerT false "Match windows owned by this pid.";
       flag "nth" "nth" IntegerT false "Select the nth (0-based) matching window.";
       flag "timeout_ms" "timeout-ms" IntegerT false "Timeout in milliseconds. Defaults to 5000."] |};
  {| t_name := "waymux_key"; t_verb := "key"; t_argv := ["key"];
     t_description := "Send a synthetic key event (local-only).";
     t_params := [pos "name" StringT true "Session name.";
       pos "keycode" IntegerT true "Linux input keycode to send.";
       boolflag "release" "release" "Send a key release instead of a press.";
       flag "modifiers" "modifiers" IntegerT false "Modifier bitmask. Defaults to 0."] |};
  {| t_name := "waymux_click"; t_verb := "click"; t_argv := ["click"];
     t_description := "Move the pointer and optionally press a button (local-only).";
     t_params := [pos "name" StringT true "Session name.";
       pos "x" NumberT true "Pointer x coordinate.";
       pos "y" NumberT true "Pointer y coordinate.";
       flag "button" "button" IntegerT false "Button code to click. 0 (default) just moves the pointer."] |};
  {| t_name := "waymux_inject"; t_verb := "inject"; t_argv := ["inject"];
     t_description := "Inject one or more input ops, supplied as a JSON array string.";
     t_params := [pos "name" StringT true "Session name.";
       flag "ops" "ops" JsonStringT true ("JSON array of inject ops, e.g. [{" +:+ dq +:+ "type" +:+ dq +:+ ":" +:+ dq +:+ "key" +:+ dq +:+ "," +:+ dq +:+ "keycode" +:+ dq +:+ ":30}].")] |};
  {| t_name := "waymux_attach"; t_verb := "attach"; t_argv := ["attach"];
     t_description := "Return the path of the attach Wayland socket for a session (local-only). Under --json this does NOT launch the interactive client; it returns the socket path.";
     t_params := [pos "name" StringT true "Session name."] |};
  {| t_name := "waymux_detach"; t_verb := "detach"; t_argv := ["detach"];
     t_description := "Mark a session as detached (local-only).";
     t_params := [pos "name" StringT true "Session name."] |};
  {| t_name := "waymux_record_start"; t_verb := "record start"; t_argv := ["record"; "start"];
     t_description := "Start recording a session's composited output to an MKV file (local-only).";
     t_params := [pos "name" StringT true "Session name to record.";
       pos "output" StringT false "Output MKV path (must be inside the recordings dir). Defaults to an auto-named file.";
       flag "codec" "codec" StringT false "Video encoder: ffv1 (default), h264-nvenc, h264-vaapi, h264-vulkan, ffv1-vulkan, h264-vulkan-lossless, hevc-vulkan-lossless.";
       flag "secondary_codec" "secondary-codec" StringT false "Optional second encoder writing <output>.secondary.mkv.";
       flag "mode" "mode" StringT false "Capture mode: focused-window (default) or whole-desktop.";
       flag "min_fps" "min-fps" IntegerT false "Minimum fps pacing; re-encodes the last frame when idle."] |};
  {| t_name := "waymux_record_stop"; t_verb := "record stop"; t_argv := ["record"; "stop"];
     t_description := "Stop a session's recording (local-only).";
     t_params := [pos "name" StringT true "Session name."] |};
  {| t_name := "waymux_record_status"; t_verb := "record status"; t_argv := ["record"; "status"];
     t_description := "Report whether a session is currently recording, plus the output path(s) and codec when active (local-only).";
     t_params := [pos "name" StringT true "Session name."] |};
  {| t_name := "waymux_viewer_start"; t_verb := "viewer start"; t_argv := ["viewer"; "start"];
     t_description := "Start a browser WebRTC viewer for a session and return its URL (local-only).";
     t_params := [pos "name" StringT true "Session name.";
       flag "bind" "bind" StringT false "Bind address for the bridge. Defaults to 127.0.0.1.";
       flag "port" "port" IntegerT false "Explicit TCP port for the bridge. Defaults to an ephemeral port."] |};
  {| t_name := "waymux_viewer_stop"; t_verb := "viewer stop"; t_argv := ["viewer"; "stop"];
     t_description := "Stop the active viewer for a session (local-only).";
     t_params := [pos "name" StringT true "Session name."] |};
  {| t_name := "waymux_viewer_status"; t_verb := "viewer status"; t_argv := ["viewer"; "status"];
     t_description := "Return the viewer URL if one is active for the session, else a null url (local-only).";
     t_params := [pos "name" StringT true "Session name."] |}
].

Definition find_tool (name : string) : option ToolSpec := List.find (fun t => (t_name t =? name)%string) TOOLS.

Definition schema_type_fragment (p : Param) : Value :=
  let simple ty := obj [("type", VString ty); ("description", VString (p_description p))] in
  match p_ty p with
  | StringT => simple "string"
  | IntegerT => simple "integer"
  | NumberT => simple "number"
  | BooleanT => simple "boolean"
  | JsonStringT =>
      obj [("type", VString "string");
           ("description", VString (p_description p +:+ " (must be a JSON-encoded string)"))]
  | StringArrayT =>
      obj [("type", VString "array"); ("items", obj [("type", VString "string")]);
           ("description", VString (p_description p))]
  end.

Definition input_schema (spec : ToolSpec) : Value :=
  let properties := foldl (fun m p => obj_insert (p_name p) (schema_type_fragment p) m) [] (t_params spec) in
  let required := (fun p => VString (p_name p)) <$> List.filter p_required (t_params spec) in
  let schema := obj_insert "properties" (VObject properties) (obj_insert "type" (VString "object") []) in
  let schema := match required with [] => schema | _ => obj_insert "required" (VArray required) schema end in
  VObject (obj_insert "additionalProperties" (VBool false) schema).

Definition tools_list : Value :=
  VArray ((fun t => obj [("name", VString (t_name t)); ("description", VString (t_description t));
                         ("inputSchema", input_schema t)]) <$> TOOLS).

(** ** [exec.rs] *)

Record ToolOutcome := {
  o_content : list Value;
  o_structured : option Value;
  o_is_error : bool;
}.

Definition text_block (s : string) : Value := obj [("type", VString "text"); ("text", VString s)].

Definition image_block (b64 : string) : Value :=
  obj [("type", VString "image"); ("data", VString b64); ("mimeType", VString "image/png")].

Definition outcome_ok (content : list Value) (structured : option Value) : ToolOutcome :=
  {| o_content := content; o_structured := structured; o_is_error := false |}.

Definition outcome_error (message : string) : ToolOutcome :=
  {| o_content := [text_block message]; o_structured := None; o_is_error := true |}.

(** What running the client gives: its output, also as text, and how it ended. *)
Record CliOutput := {
  out_stdout : list Z;
  out_text : string;       (* stdout as text *)
  out_stderr : string;     (* stderr as text, trimmed *)
  out_status : string;     (* the exit status as text *)
  out_success : bool;
}.

(** The surroundings: the environment variable, the file next to the server's own, and
    the client's process, after a history of runs. *)
Class Cli := {
  waymux_bin_var : option string;
  sibling_exists : option string;   (* [dir/waymux], when there is such a file *)
  cli_run : list (list string) -> list string -> result CliOutput string;
}.

Section Exec.
Context `{JsonText} `{Cli}.

Definition resolve_waymux_bin : string :=
  match waymux_bin_var with
  | Some p => p
  | None => match sibling_exists with Some p => p | None => "waymux" end
  end.

Definition bool_string (b : bool) : string := if b then "true" else "false".

Definition must_be (p : Param) (what : string) : string := "argument `" +:+ p_name p +:+ "` must be " +:+ what.

Definition stringify_scalar (p : Param) (v : Value) : result string string :=
  match p_ty p with
  | StringT => match v with VString s => Ok s | _ => Err (must_be p "a string") end
  | JsonStringT => match v with VString s => Ok s | _ => Ok (print v) end
  | IntegerT => match v with VNumber (NInt n) => Ok (print v) | _ => Err (must_be p "an integer") end
  | NumberT => match v with VNumber n => Ok (print v) | _ => Err (must_be p "a number") end
  | BooleanT => match v with VBool b => Ok (bool_string b) | _ => Err (must_be p "a boolean") end
  | StringArrayT => Err ("argument `" +:+ p_name p +:+ "` is an array and must be handled as a vector")
  end.

(** The strings of an array; the index of the first that is not one. *)
Fixpoint array_strings (i : nat) (p : Param) (items : list Value) : result (list string) string :=
  match items with
  | [] => Ok []
  | VString s :: items => let? rest := array_strings (S i) p items in Ok (s :: rest)
  | _ :: _ => Err ("argument `" +:+ p_name p +:+ "`[" +:+ pretty i +:+ "] must be a string")
  end.

(** What is collected: positionals, flags, the trailing array with its parameter. *)
Record Collected := {
  c_positionals : list string;
  c_flags : list string;
  c_trailing : option (Param * list string);
}.

#[export] Instance eta_Collected : Eta Collected := fun c =>
  Build_Collected (c_positionals c) (c_flags c) (c_trailing c).

Definition missing (p : Param) : string := "missing required argument `" +:+ p_name p +:+ "`".

(** One parameter. *)
Definition collect (args : Map) (p : Param) (c : Collected) : result Collected string :=
  let value := obj_get (p_name p) args in
  if decide (p_ty p = StringArrayT) then
    match value with
    | Some (VArray items) =>
        let? out := array_strings 0 p items in
        if p_required p && bool_decide (out = []) then Err (must_be p "have at least one element")
        else Ok (c <| c_trailing := Some (p, out) |>)
    | Some _ => Err (must_be p "an array")
    | None => if p_required p then Err (missing p) else Ok c
    end
  else
    match p_kind p with
    | Positional =>
        match value with
        | Some v => let? s := stringify_scalar p v in Ok (c <| c_positionals ::= (fun l => l ++ [s]) |>)
        | None => if p_required p then Err (missing p) else Ok c
        end
    | Flag =>
        match value with
        | Some v => let? s := stringify_scalar p v in Ok (c <| c_flags ::= (fun l => l ++ ["--" +:+ p_cli_name p; s]) |>)
        | None => if p_required p then Err (missing p) else Ok c
        end
    | BoolFlag =>
        match value with
        | Some (VBool true) => Ok (c <| c_flags ::= (fun l => l ++ ["--" +:+ p_cli_name p]) |>)
        | Some (VBool false) | None => Ok c
        | Some _ => Err (must_be p "a boolean")
        end
    end.

Fixpoint collect_all (args : Map) (ps : list Param) (c : Collected) : result Collected string :=
  match ps with
  | [] => Ok c
  | p :: ps => let? c := collect args p c in collect_all args ps c
  end.

Definition build_call_args (spec : ToolSpec) (args : Map) : result (list string) string :=
  let? c := collect_all args (t_params spec) {| c_positionals := []; c_flags := []; c_trailing := None |} in
  Ok (c_positionals c ++ c_flags c ++
      match c_trailing c with
      | Some (p, items) => (if (p_name p =? "argv")%string then ["--"] else []) ++ items
      | None => []
      end).

Definition is_screenshot (spec : ToolSpec) : bool :=
  ((t_verb spec =? "screenshot") || (t_verb spec =? "screenshot-desktop"))%string.

Definition inject_required_placeholders (spec : ToolSpec) (args : Map) : Map :=
  if is_screenshot spec && negb (bool_decide (is_Some (obj_get "output" args)))
  then obj_insert "output" (VString "/dev/null") args else args.

Definition compact_summary (data : Value) : string :=
  match data with
  | VObject m =>
      match obj_get "png_b64" m with
      | Some _ => print (VObject (obj_insert "png_b64" (VString "<elided>") m))
      | None => print data
      end
  | _ => print data
  end.

Definition map_success (spec : ToolSpec) (data : Value) : ToolOutcome :=
  let generic := outcome_ok [text_block (t_verb spec +:+ ": " +:+ compact_summary data)] (Some data) in
  if is_screenshot spec then
    match str_at "png_b64" data with
    | Some b64 =>
        let w := default VNull (get "width" data) in
        let h := default VNull (get "height" data) in
        let summary := "screenshot " +:+ print w +:+ "x" +:+ print h +:+ " PNG (" +:+ pretty (String.length b64)
                       +:+ " base64 bytes)" in
        outcome_ok [image_block b64; text_block summary] (Some data)
    | None => generic
    end
  else generic.

(** [map_envelope], of output that says something. *)
Definition map_envelope (spec : ToolSpec) (text : string) (said : says) : ToolOutcome :=
  match said with
  | Blank => outcome_error ("waymux returned unparseable output for `" +:+ t_verb spec +:+ "`")
  | Bad e =>
      outcome_error ("waymux returned unparseable output for `" +:+ t_verb spec +:+ "`: " +:+ e
                     +:+ nl +:+ "--- stdout ---" +:+ nl +:+ text)
  | Says env =>
      match bool_at "ok" env with
      | Some true => map_success spec (default VNull (get "data" env))
      | Some false =>
          let err := get "error" env in
          let code := default "E_INTERNAL" (match err with Some e => str_at "code" e | None => None end) in
          let message := default "unknown error" (match err with Some e => str_at "message" e | None => None end) in
          outcome_error (code +:+ ": " +:+ message)
      | None => outcome_error ("waymux envelope for `" +:+ t_verb spec +:+ "` missing boolean `ok`: " +:+ text)
      end
  end.

(** The argument vector of a call: the program first. *)
Definition call_argv (spec : ToolSpec) (call_args : list string) : list string :=
  resolve_waymux_bin :: "--json" :: t_argv spec ++ call_args.

Definition run_tool (spec : ToolSpec) (args : Map) (log : list (list string)) : list (list string) * ToolOutcome :=
  match build_call_args spec (inject_required_placeholders spec args) with
  | Err e => (log, outcome_error e)
  | Ok call_args =>
      let argv := call_argv spec call_args in
      let log' := log ++ [argv] in
      match cli_run log argv with
      | Err e => (log', outcome_error ("failed to execute waymux binary `" +:+ resolve_waymux_bin +:+ "`: " +:+ e))
      | Ok output =>
          match read (out_stdout output) with
          | Blank =>
              if out_success output
              then (log', outcome_ok [text_block (t_verb spec +:+ ": ok")] (Some VNull))
              else (log', outcome_error ("waymux `" +:+ t_verb spec +:+ "` exited with " +:+ out_status output
                                         +:+ " and no stdout" +:+ nl +:+ "--- stderr ---" +:+ nl +:+ out_stderr output))
          | said => (log', map_envelope spec (out_text output) said)
          end
      end
  end.

(** ** [server.rs] *)

Definition PROTOCOL_VERSION : string := "2025-06-18".
Definition SERVER_NAME : string := "waymux-mcp".

Definition PARSE_ERROR : Z := -32700.
Definition INVALID_REQUEST : Z := -32600.
Definition METHOD_NOT_FOUND : Z := -32601.
Definition INVALID_PARAMS : Z := -32602.

Definition MAX_LINE_SIZE : Z := 8 * 1024 * 1024.

Definition rpc_result (id result : Value) : Value :=
  obj [("jsonrpc", VString "2.0"); ("id", id); ("result", result)].

Definition rpc_error (id : Value) (code : Z) (message : string) : Value :=
  obj [("jsonrpc", VString "2.0"); ("id", id);
       ("error", obj [("code", VNumber (NInt code)); ("message", VString message)])].

Definition outcome_to_result (o : ToolOutcome) : Value :=
  let m := obj_insert "content" (VArray (o_content o)) [] in
  let m := match o_structured o with Some s => obj_insert "structuredContent" s m | None => m end in
  VObject (if o_is_error o then obj_insert "isError" (VBool true) m else m).

(** [version] is the version of the package. *)
Context (version : string).

Definition initialize_result : Value :=
  obj [("protocolVersion", VString PROTOCOL_VERSION);
       ("serverInfo", obj [("name", VString SERVER_NAME); ("version", VString version)]);
       ("capabilities", obj [("tools", obj [("listChanged", VBool false)])])].

Definition handle_tools_call (id msg : Value) (log : list (list string)) : list (list string) * Value :=
  match get "params" msg with
  | None => (log, rpc_error id INVALID_PARAMS "missing params")
  | Some params =>
      match str_at "name" params with
      | None => (log, rpc_error id INVALID_PARAMS "missing tool name")
      | Some name =>
          match find_tool name with
          | None => (log, rpc_error id INVALID_PARAMS ("unknown tool: " +:+ name))
          | Some spec =>
              let run args := let '(log, o) := run_tool spec args log in (log, rpc_result id (outcome_to_result o)) in
              match get "arguments" params with
              | None | Some VNull => run []
              | Some (VObject m) => run m
              | Some _ => (log, rpc_error id INVALID_PARAMS "`arguments` must be an object")
              end
          end
      end
  end.

(** [handle_message]; [None]: no response. *)
Definition handle_message (msg : Value) (log : list (list string)) : list (list string) * option Value :=
  let id := get "id" msg in
  match str_at "method" msg with
  | None =>
      match id with
      | Some id => (log, Some (rpc_error id INVALID_REQUEST "missing method"))
      | None => (log, None)
      end
  | Some method =>
      match id with
      | None => (log, None)
      | Some id =>
          if (method =? "initialize")%string then (log, Some (rpc_result id initialize_result))
          else if (method =? "tools/list")%string then (log, Some (rpc_result id (obj [("tools", tools_list)])))
          else if (method =? "tools/call")%string then
            let '(log, r) := handle_tools_call id msg log in (log, Some r)
          else if (method =? "ping")%string then (log, Some (rpc_result id (obj [])))
          else (log, Some (rpc_error id METHOD_NOT_FOUND ("method not found: " +:+ method)))
      end
  end.

Inductive LineRead := Line (l : list Z) | TooLong | Eof.

(** What is behind the next newline. *)
Fixpoint drain (input : list Z) : list Z :=
  match input with
  | [] => []
  | b :: input => if b =? 10 then input else drain input
  end.

(** [read_line_bounded]: [n] bytes, [buf] reversed, have been read. *)
Fixpoint read_line_loop (n : Z) (buf : list Z) (input : list Z) : LineRead * list Z :=
  match input with
  | [] => (if bool_decide (buf = []) then Eof else Line (rev buf), [])
  | b :: input =>
      if b =? 10 then (Line (rev buf), input)
      else if MAX_LINE_SIZE <=? n then (TooLong, drain input)
      else read_line_loop (n + 1) (b :: buf) input
  end.

Definition read_line_bounded (input : list Z) : LineRead * list Z := read_line_loop 0 [] input.

(** What a line is answered with. *)
Definition handle_line (l : LineRead) (log : list (list string)) : list (list string) * option Value :=
  match l with
  | Eof => (log, None)
  | TooLong => (log, Some (rpc_error VNull PARSE_ERROR ("line exceeds " +:+ pretty MAX_LINE_SIZE +:+ " bytes; rejected")))
  | Line bytes =>
      match read bytes with
      | Blank => (log, None)
      | Bad e => (log, Some (rpc_error VNull PARSE_ERROR ("parse error: " +:+ e)))
      | Says msg => handle_message msg log
      end
  end.

Section Serve.
Context {W : Type} `{Write W}.

Definition write_line (v : Value) : Io W unit :=
  write_all (bytes_of_string (print v)) ;; write_all [10] ;; flush.

(** [serve]: the log of runs, the output, and how it ended. *)
Fixpoint serve (fuel : nat) (input : list Z) (log : list (list string)) (w : W) :
    option (list (list string) * W * result unit io_kind) :=
  match fuel with
  | O => None
  | S fuel =>
      match read_line_bounded input with
      | (Eof, _) => Some (log, w, Ok ())
      | (l, input) =>
          let '(log, resp) := handle_line l log in
          match resp with
          | None => serve fuel input log w
          | Some resp =>
              match write_line resp w with
              | (w, Ok _) => serve fuel input log w
              | (w, Err e) => Some (log, w, Err e)
              end
          end
      end
  end.
End Serve.
End Exec.
