(* ===== verification/McpProps.v ===== *)
(** * What the MCP server promises

    One answer per request over lines of text, the shape of an answer, what is executed
    for a call, and the schemas against the arguments that are accepted. *)

From Stdlib Require Import ZArith Lia SpecFloat.
From stdpp Require Import prelude strings list pretty.
From S2P Require Import Prelude Words Io Floats Sys Json Mcp.

Open Scope Z_scope.

(** ** Lines *)

Definition as_line (l : list Z) : LineRead := if MAX_LINE_SIZE <? Z.of_nat (length l) then TooLong else Line l.

Lemma drain_line l rest : 10 ∉ l -> drain (l ++ 10 :: rest) = rest.
Proof.
  induction l as [|b l IH]; intros Hl; cbn [app drain]; [done|]. apply not_elem_of_cons in Hl as [Hb Hl].
  rewrite (proj2 (Z.eqb_neq b 10)) by congruence. by apply IH.
Qed.

Lemma drain_end l : 10 ∉ l -> drain l = [].
Proof.
  induction l as [|b l IH]; intros Hl; cbn [drain]; [done|]. apply not_elem_of_cons in Hl as [Hb Hl].
  rewrite (proj2 (Z.eqb_neq b 10)) by congruence. by apply IH.
Qed.

Lemma read_line_newline l rest : 10 ∉ l -> forall n buf, 0 <= n <= MAX_LINE_SIZE ->
  read_line_loop n buf (l ++ 10 :: rest) =
    (if MAX_LINE_SIZE <? n + Z.of_nat (length l) then TooLong else Line (rev buf ++ l), rest).
Proof.
  intros Hl. induction l as [|b l IH]; intros n buf Hn; cbn [app read_line_loop].
  - cbn. rewrite app_nil_r, (proj2 (Z.ltb_ge _ _)) by lia. done.
  - apply not_elem_of_cons in Hl as [Hb Hl]. rewrite (proj2 (Z.eqb_neq b 10)) by congruence. cbn [length].
    destruct (Z.leb_spec MAX_LINE_SIZE n).
    + rewrite drain_line by done. by rewrite (proj2 (Z.ltb_lt _ _)) by lia.
    + rewrite IH by (done || lia). cbn [rev]. rewrite <- app_assoc. cbn [app].
      by replace (n + 1 + Z.of_nat (length l)) with (n + Z.of_nat (S (length l))) by lia.
Qed.

Lemma read_line_end l : 10 ∉ l -> forall n buf, 0 <= n <= MAX_LINE_SIZE -> n = Z.of_nat (length buf) ->
  read_line_loop n buf l =
    (if MAX_LINE_SIZE <? n + Z.of_nat (length l) then TooLong
     else if bool_decide (rev buf ++ l = []) then Eof else Line (rev buf ++ l), []).
Proof.
  intros Hl. induction l as [|b l IH]; intros n buf Hn En; cbn [app read_line_loop].
  - rewrite app_nil_r, (proj2 (Z.ltb_ge _ _)) by (cbn; lia).
    destruct buf as [|x buf]; [done|]. rewrite !bool_decide_eq_false_2; [done| |done].
    cbn. intros E. by apply app_eq_nil in E as [_ ?].
  - apply not_elem_of_cons in Hl as [Hb Hl]. rewrite (proj2 (Z.eqb_neq b 10)) by congruence. cbn [length].
    destruct (Z.leb_spec MAX_LINE_SIZE n).
    + rewrite drain_end by done. by rewrite (proj2 (Z.ltb_lt _ _)) by lia.
    + rewrite IH by (done || (cbn [length]; lia)). cbn [rev]. rewrite <- app_assoc. cbn [app].
      by replace (n + 1 + Z.of_nat (length l)) with (n + Z.of_nat (S (length l))) by lia.
Qed.

Definition unlines (ls : list (list Z)) : list Z := concat ((fun l => l ++ [10]) <$> ls).

Section Serving.
Context `{JsonText} `{Cli} (version : string).

(** The answers to lines one after the other. *)
Fixpoint answers (ls : list LineRead) (log : list (list string)) : list (list string) * list Value :=
  match ls with
  | [] => (log, [])
  | l :: ls =>
      let '(log, r) := handle_line version l log in
      let '(log, rs) := answers ls log in
      (log, match r with Some r => r :: rs | None => rs end)
  end.

Context {W : Type} `{Write W}.

Fixpoint write_lines (vs : list Value) : Io W unit :=
  match vs with
  | [] => mret ()
  | v :: vs => write_line v ;; write_lines vs
  end.

(** A tail without a newline is a line too. *)
Definition last_line (tail : list Z) : list LineRead := match tail with [] => [] | _ => [as_line tail] end.

Lemma serve_tail fuel tail log (w w' : W) log' vs :
  10 ∉ tail -> (length tail < fuel)%nat -> answers (last_line tail) log = (log', vs) ->
  write_lines vs w = (w', Ok ()) -> serve version fuel tail log w = Some (log', w', Ok ()).
Proof.
  intros Ht Hf Ea Ew. destruct fuel as [|fuel]; [lia|]. cbn [serve]. unfold read_line_bounded.
  rewrite (read_line_end tail Ht 0 []) by (done || unfold MAX_LINE_SIZE; lia). cbn [rev app].
  destruct tail as [|b tail].
  { cbn in Ea. injection Ea as <- <-. cbn in Ew. injection Ew as ->. done. }
  rewrite (bool_decide_eq_false_2 (b :: tail = [])) by done. unfold last_line, as_line in Ea. rewrite Z.add_0_l.
  cbn [length] in Hf. destruct fuel as [|fuel]; [lia|]. cbn [answers] in Ea.
  destruct (MAX_LINE_SIZE <? _); (destruct (handle_line version _ log) as [log1 r] eqn:Eh; injection Ea as <- <-);
    (destruct r as [r|]; [|by injection Ew as ->]); cbn [write_lines] in Ew; unfold mbind, eff_mbind in Ew;
    destruct (write_line r w) as [w1 [[]|]]; try done; by injection Ew as ->.
Qed.

(** Line by line, over any writer. *)
Lemma serve_lines ls tail log (w w' : W) log' vs :
  Forall (fun l => 10 ∉ l) ls -> 10 ∉ tail ->
  answers ((as_line <$> ls) ++ last_line tail) log = (log', vs) -> write_lines vs w = (w', Ok ()) ->
  serve version (S (length (unlines ls ++ tail))) (unlines ls ++ tail) log w = Some (log', w', Ok ()).
Proof.
  intros Hl Ht. assert (G : forall fuel, (length (unlines ls ++ tail) < fuel)%nat ->
    answers ((as_line <$> ls) ++ last_line tail) log = (log', vs) -> write_lines vs w = (w', Ok ()) ->
    serve version fuel (unlines ls ++ tail) log w = Some (log', w', Ok ())); [|apply G; lia].
  revert log w vs. induction Hl as [|l ls Hl _ IH]; intros log w vs fuel Hf Ea Ew.
  { by eapply serve_tail. }
  destruct fuel as [|fuel]; [lia|]. cbn [fmap list_fmap app answers] in Ea.
  assert (E : unlines (l :: ls) ++ tail = l ++ 10 :: (unlines ls ++ tail)).
  { unfold unlines. cbn. by rewrite <- !app_assoc. }
  rewrite E in Hf |- *. cbn [serve]. unfold read_line_bounded.
  rewrite (read_line_newline l _ Hl 0 []) by (unfold MAX_LINE_SIZE; lia). cbn [rev app]. rewrite Z.add_0_l.
  rewrite length_app in Hf. cbn [length] in Hf.
  fold (as_line l). destruct (handle_line version (as_line l) log) as [log1 r] eqn:Eh.
  destruct (answers _ log1) as [log2 rs] eqn:Er. injection Ea as <- <-.
  assert (S1 : forall w1, write_lines rs w1 = (w', Ok ()) ->
    serve version fuel (unlines ls ++ tail) log1 w1 = Some (log2, w', Ok ())).
  { intros w1 E1. eapply IH; [lia|done|done]. }
  assert (Q : match r with
              | None => serve version fuel (unlines ls ++ tail) log1 w
              | Some r => match write_line r w with
                          | (w1, Ok _) => serve version fuel (unlines ls ++ tail) log1 w1
                          | (w1, Err e) => Some (log1, w1, Err e)
                          end
              end = Some (log2, w', Ok ())).
  { destruct r as [r|]; [|by apply S1]. cbn [write_lines] in Ew. unfold mbind, eff_mbind in Ew.
    destruct (write_line r w) as [w1 [[]|]]; [by apply S1|done]. }
  unfold as_line in *. destruct (MAX_LINE_SIZE <? _); exact Q.
Qed.
End Serving.

(** C26: the server answers line by line: for any input, cut into lines however long and
    whatever they say, with or without a newline at the end, it executes and writes
    exactly the answers of the lines in order, each printed on a line of its own, and ends
    cleanly; an answer is read back from its line when it holds no float and is nested less
    than 128 deep; a line over the limit is answered with an error
    and the next one is read from its own beginning. *)
Theorem mcp_answers_in_order `{JsonLaws} `{Cli} version ls tail log :
  Forall (fun l => 10 ∉ l) ls -> 10 ∉ tail ->
  let '(log', vs) := answers version ((as_line <$> ls) ++ last_line tail) log in
  exists out, serve version (S (length (unlines ls ++ tail))) (unlines ls ++ tail) log [] = Some (log', unlines out, Ok ()) /\
    Forall2 (fun v l => l = bytes_of_string (print v) /\ (10 ∉ l) /\ (reads_back v = true -> read l = Says v)) vs out.
Proof.
  intros Hl Ht. destruct (answers _ _ _) as [log' vs] eqn:E. exists ((fun v => bytes_of_string (print v)) <$> vs). split.
  - apply (serve_lines version ls tail log [] _ log' vs Hl Ht E). clear E.
    assert (G : forall w : list Z, write_lines vs w = (w ++ unlines ((fun v => bytes_of_string (print v)) <$> vs), Ok ())); [|apply (G [])].
    induction vs as [|v vs IH]; intros w; cbn; [by rewrite app_nil_r|].
    unfold mbind, eff_mbind. cbn. rewrite IH. unfold unlines. cbn. by rewrite <- !app_assoc.
  - clear E. induction vs as [|v vs IH]; constructor; [|done]. split_and!; [done|apply print_line|apply read_print].
Qed.

(** ** Answers *)

Definition is_answer (id r : Value) : Prop :=
  (exists x, r = rpc_result id x) \/ (exists code message, r = rpc_error id code message).

Lemma answer_fields id r :
  is_answer id r -> get "jsonrpc" r = Some (VString "2.0") /\ get "id" r = Some id /\
  (is_Some (get "result" r) <-> get "error" r = None).
Proof. intros [[x ->]|(c & m & ->)]; (split; [done|split; [done|]]); split; cbn; intros; try done; by destruct H. Qed.

Section Calls.
Context `{JsonText} `{Cli} (version : string).

Lemma tools_call_answer id msg log : is_answer id (handle_tools_call id msg log).2.
Proof.
  unfold handle_tools_call, is_answer. repeat case_match; cbn [snd]; eauto.
Qed.

(** A message gets an answer exactly when it has an id, and the answer carries this
    id, the version of the protocol, and either a result or an error but not both. *)
Theorem mcp_answer_shape msg log :
  match (handle_message version msg log).2 with
  | None => get "id" msg = None
  | Some r => get "id" msg = get "id" r /\ is_Some (get "id" msg) /\ get "jsonrpc" r = Some (VString "2.0") /\
              (is_Some (get "result" r) <-> get "error" r = None)
  end.
Proof.
  assert (G : match (handle_message version msg log).2 with
              | None => get "id" msg = None
              | Some r => exists id, get "id" msg = Some id /\ is_answer id r
              end).
  { unfold handle_message. destruct (str_at "method" msg) as [method|]; destruct (get "id" msg) as [id|]; cbn; try done.
    - pose proof (tools_call_answer id msg log) as A. unfold is_answer in *.
      destruct (handle_tools_call id msg log) as [l r]. cbn [snd] in A.
      repeat match goal with |- context [if ?b then _ else _] => destruct b end; cbn [snd]; exists id;
        (split; [done|]); first [exact A|left; eexists; reflexivity|right; eexists _, _; reflexivity].
    - exists id. unfold is_answer. eauto. }
  destruct (handle_message version msg log).2 as [r|]; [|done]. destruct G as (id & Ei & A).
  destruct (answer_fields id r A) as (A1 & A2 & A3). rewrite Ei, A2. by split_and!.
Qed.

(** ** What is executed *)

(** The part a parameter has in the command line: as a positional and as an option. *)
Definition pos_part (args : Map) (p : Param) : list string :=
  if decide (p_ty p = StringArrayT) then []
  else match p_kind p, obj_get (p_name p) args with
       | Positional, Some v => match stringify_scalar p v with Ok s => [s] | Err _ => [] end
       | _, _ => []
       end.

Definition flag_part (args : Map) (p : Param) : list string :=
  if decide (p_ty p = StringArrayT) then []
  else match p_kind p, obj_get (p_name p) args with
       | Flag, Some v => match stringify_scalar p v with Ok s => ["--" +:+ p_cli_name p; s] | Err _ => [] end
       | BoolFlag, Some (VBool true) => ["--" +:+ p_cli_name p]
       | _, _ => []
       end.

(** The strings of an array argument, behind a separator for a command. *)
Definition array_part (args : Map) (p : Param) : list string :=
  if decide (p_ty p = StringArrayT) then
    match obj_get (p_name p) args with
    | Some (VArray items) => (if (p_name p =? "argv")%string then ["--"] else []) ++ omap as_str items
    | _ => []
    end
  else [].

Definition is_array (p : Param) : bool := bool_decide (p_ty p = StringArrayT).

Lemma array_strings_omap i p items l : array_strings i p items = Ok l -> l = omap as_str items.
Proof.
  revert i l. induction items as [|v items IH]; intros i l; cbn; [by intros [= <-]|].
  destruct v; try done. destruct (array_strings (S i) p items) eqn:E; [|done]. intros [= <-]. f_equal. by eapply IH.
Qed.

Lemma collect_spec args p c c' :
  collect args p c = Ok c' ->
  c_positionals c' = c_positionals c ++ pos_part args p /\ c_flags c' = c_flags c ++ flag_part args p /\
  (is_array p = false -> c_trailing c' = c_trailing c) /\
  (is_array p = true -> c_trailing c' = c_trailing c /\ array_part args p = [] \/
     exists items, c_trailing c' = Some (p, items) /\ array_part args p = (if (p_name p =? "argv")%string then ["--"] else []) ++ items).
Proof.
  unfold collect, pos_part, flag_part, array_part, is_array. destruct (decide (p_ty p = StringArrayT)) as [E|E].
  - rewrite bool_decide_eq_true_2 by done. destruct (obj_get (p_name p) args) as [[]|]; try done.
    + destruct (array_strings 0 p l) as [out|] eqn:Ea; [|done]. apply array_strings_omap in Ea as ->.
      destruct (_ && _); [done|]. intros [= <-]. cbn. rewrite !app_nil_r. split_and!; try done. intros _. right. by eexists.
    + destruct (p_required p); [done|]. intros [= <-]. rewrite !app_nil_r. split_and!; try done. intros _. by left.
  - rewrite bool_decide_eq_false_2 by done.
    destruct (p_kind p); destruct (obj_get (p_name p) args) as [v|]; try (destruct (p_required p); [done|]);
      try (destruct (stringify_scalar p v) as [s|]; [|done]); try (destruct v as [|[]| | | |]; try done);
      intros [= <-]; cbn; rewrite ?app_nil_r; by split_and!.
Qed.

(** At most one parameter of a tool is an array. *)
Definition one_array (ps : list Param) : bool := (length (List.filter is_array ps) <=? 1)%nat.

Definition trailing_args (c : Collected) : list string :=
  match c_trailing c with
  | Some (p, items) => (if (p_name p =? "argv")%string then ["--"] else []) ++ items
  | None => []
  end.

Lemma collect_all_spec args ps : forall c c',
  one_array ps = true -> (c_trailing c = None \/ List.filter is_array ps = []) ->
  collect_all args ps c = Ok c' ->
  c_positionals c' = c_positionals c ++ concat (pos_part args <$> ps) /\
  c_flags c' = c_flags c ++ concat (flag_part args <$> ps) /\
  trailing_args c' = trailing_args c ++ concat (array_part args <$> ps).
Proof.
  induction ps as [|p ps IH]; intros c c' Ho Hc E; cbn [collect_all] in E.
  { injection E as ->. cbn. by rewrite !app_nil_r. }
  destruct (collect args p c) as [c1|] eqn:E1; [|done]. destruct (collect_spec _ _ _ _ E1) as (P & F & N & A).
  unfold one_array in Ho. cbn [List.filter fmap list_fmap concat] in *. destruct (is_array p) eqn:Ei.
  - cbn [length] in Ho. apply Nat.leb_le in Ho. assert (Hn : List.filter is_array ps = []) by (destruct (List.filter is_array ps); [done|cbn in Ho; lia]).
    assert (Ho' : one_array ps = true) by (unfold one_array; by rewrite Hn).
    destruct (IH c1 c' Ho' (or_intror Hn) E) as (P' & F' & T'). rewrite P', F', T', P, F, <- !app_assoc. split_and!; try done.
    destruct (A eq_refl) as [[A1 ->]|(items & A1 & ->)]; [by unfold trailing_args; rewrite A1|].
    unfold trailing_args. rewrite A1. destruct Hc as [->|]; [by rewrite <- app_assoc|done].
  - destruct (IH c1 c' Ho) as (P' & F' & T'); [by rewrite (N eq_refl)|done|].
    rewrite P', F', T', P, F, <- !app_assoc. split_and!; try done. unfold trailing_args. rewrite (N eq_refl).
    unfold array_part at 2. rewrite decide_False by (by apply bool_decide_eq_false in Ei). done.
Qed.

Lemma tools_one_array spec : spec ∈ TOOLS -> one_array (t_params spec) = true.
Proof.
  intros Hs. assert (F : forallb (fun t => one_array (t_params t)) TOOLS = true) by (vm_compute; reflexivity).
  rewrite forallb_forall in F. apply F. by apply list_elem_of_In.
Qed.

(** The command line of a call, in closed form. *)
Definition call_line (spec : ToolSpec) (args : Map) : list string :=
  concat (pos_part args <$> t_params spec) ++ concat (flag_part args <$> t_params spec) ++
  concat (array_part args <$> t_params spec).

Lemma build_call_args_spec spec args l : spec ∈ TOOLS -> build_call_args spec args = Ok l -> l = call_line spec args.
Proof.
  intros Hs. unfold build_call_args. destruct (collect_all _ _ _) as [c|] eqn:E; [|done]. intros [= <-].
  destruct (collect_all_spec args (t_params spec) {| c_positionals := []; c_flags := []; c_trailing := None |} c
    (tools_one_array _ Hs) (or_introl eq_refl) E) as (P & F & T).
  unfold trailing_args in T. cbn [c_positionals c_flags c_trailing app] in P, F, T.
  unfold call_line. rewrite <- P, <- F, <- T. done.
Qed.

Lemma find_tool_in name spec : find_tool name = Some spec -> spec ∈ TOOLS /\ t_name spec = name.
Proof.
  intros E. apply List.find_some in E as [E1 E2]. split; [by apply list_elem_of_In|]. by apply String.eqb_eq in E2.
Qed.

(** Verbs that are not offered: streams, credentials, the daemon. *)
Definition not_offered : list string := ["events"; "logs"; "login"; "serve"].

End Calls.

(** ** Schemas *)

(** A float without a fraction. *)
Definition whole (f : f64) : bool :=
  match f with
  | S754_zero _ => true
  | S754_finite _ m e => (0 <=? e) || (Zpos m mod 2 ^ (- e) =? 0)
  | _ => false
  end.

(** A reader of the part of JSON Schema the server uses: an integer is any number without a
    fraction, however it is written. *)
Definition type_ok (ty : string) (v : Value) : bool :=
  match v with
  | VString _ => (ty =? "string")%string
  | VNumber (NInt _) => ((ty =? "integer") || (ty =? "number"))%string
  | VNumber (NFloat f) => ((ty =? "integer") && whole f || (ty =? "number"))%string
  | VBool _ => (ty =? "boolean")%string
  | VArray _ => (ty =? "array")%string
  | VObject _ => (ty =? "object")%string
  | VNull => (ty =? "null")%string
  end.

Definition typed (schema v : Value) : bool := match str_at "type" schema with Some ty => type_ok ty v | None => true end.

Definition property_ok (schema v : Value) : bool :=
  typed schema v &&
  match get "items" schema, v with Some item, VArray l => forallb (typed item) l | _, _ => true end.

Definition schema_ok (schema : Value) (args : Map) : bool :=
  typed schema (VObject args) &&
  match get "required" schema with
  | Some (VArray l) => forallb (fun r => match r with VString k => bool_decide (is_Some (obj_get k args)) | _ => false end) l
  | _ => true
  end &&
  match get "properties" schema with
  | Some (VObject props) =>
      forallb (fun e => match obj_get e.1 props with
                        | Some s => property_ok s e.2
                        | None => match bool_at "additionalProperties" schema with Some false => false | _ => true end
                        end) args
  | _ => true
  end.

Lemma obj_get_in k v m : obj_get k m = Some v -> (k, v) ∈ m.
Proof.
  induction m as [|[k' v'] m IH]; cbn [obj_get]; [done|]. destruct (String.eqb_spec k k') as [->|]; [intros [= ->]; by left|].
  intros E. right. by apply IH.
Qed.

Definition fresh_names (ps : list Param) : Prop := NoDup (p_name <$> ps).

Abbreviation properties m ps := (foldl (fun acc p => obj_insert (p_name p) (schema_type_fragment p) acc) m ps).

Lemma properties_other k ps : forall m, k ∉ p_name <$> ps -> obj_get k (properties m ps) = obj_get k m.
Proof.
  induction ps as [|q ps IH]; intros m Hk; cbn [foldl]; [done|]. apply not_elem_of_cons in Hk as [Hk1 Hk2].
  rewrite IH by done. rewrite obj_get_insert. by destruct (String.eqb_spec k (p_name q)).
Qed.

Lemma properties_get ps : forall m p, fresh_names ps -> p ∈ ps ->
  obj_get (p_name p) (properties m ps) = Some (schema_type_fragment p).
Proof.
  induction ps as [|q ps IH]; intros m p Hn Hp; [by apply elem_of_nil in Hp|].
  unfold fresh_names in Hn. cbn [fmap list_fmap] in Hn. apply NoDup_cons in Hn as [Hq Hn]. cbn [foldl].
  apply elem_of_cons in Hp as [->|Hp]; [|by apply IH].
  rewrite properties_other by done. rewrite obj_get_insert. by rewrite String.eqb_refl.
Qed.

Lemma tools_fresh spec : spec ∈ TOOLS -> fresh_names (t_params spec).
Proof.
  intros Hs. assert (F : forallb (fun t => bool_decide (NoDup (p_name <$> t_params t))) TOOLS = true) by (vm_compute; reflexivity).
  rewrite forallb_forall in F. specialize (F spec (proj1 (list_elem_of_In _ _) Hs)). by apply bool_decide_eq_true in F.
Qed.

Lemma get_schema spec :
  get "properties" (input_schema spec)
    = Some (VObject (properties [] (t_params spec))) /\
  get "required" (input_schema spec)
    = match (fun p => VString (p_name p)) <$> List.filter p_required (t_params spec) with [] => None | l => Some (VArray l) end.
Proof.
  unfold input_schema, get. destruct ((fun p => VString (p_name p)) <$> List.filter p_required (t_params spec)) as [|r rs];
    rewrite !obj_get_insert; cbn; done.
Qed.

Section Schemas.
Context `{JsonText} `{Cli}.

(** The arguments the schema lets through for one parameter. *)
Definition param_ok (args : Map) (p : Param) : Prop :=
  match obj_get (p_name p) args with
  | Some v => property_ok (schema_type_fragment p) v = true
  | None => p_required p = false
  end.

Lemma schema_params spec args :
  spec ∈ TOOLS -> schema_ok (input_schema spec) args = true -> Forall (param_ok args) (t_params spec).
Proof.
  intros Hs E. unfold schema_ok in E. destruct (get_schema spec) as [Ep Er]. rewrite Ep, Er in E.
  apply andb_true_iff in E as [E E3]. apply andb_true_iff in E as [_ E2]. rewrite forallb_forall in E3.
  apply Forall_forall. intros p Hp. unfold param_ok. destruct (obj_get (p_name p) args) as [v|] eqn:Ev.
  - specialize (E3 (p_name p, v)). cbn [fst snd] in E3. rewrite properties_get in E3 by (done || by apply tools_fresh).
    apply E3. apply list_elem_of_In. by apply obj_get_in.
  - destruct (p_required p) eqn:Eq; [|done]. exfalso.
    assert (Hi : VString (p_name p) ∈ (fun p => VString (p_name p)) <$> List.filter p_required (t_params spec)).
    { apply list_elem_of_fmap. exists p. split; [done|]. apply list_elem_of_In, filter_In. split; [by apply list_elem_of_In|done]. }
    destruct ((fun p => VString (p_name p)) <$> List.filter p_required (t_params spec)) as [|r rs]; [by apply elem_of_nil in Hi|].
    rewrite forallb_forall in E2. specialize (E2 (VString (p_name p)) (proj1 (list_elem_of_In _ _) Hi)). cbn in E2.
    rewrite Ev in E2. by apply bool_decide_eq_true in E2 as [? ?].
Qed.

Lemma array_strings_ok p items : forall i,
  forallb (typed (obj [("type", VString "string")])) items = true -> exists l, array_strings i p items = Ok l /\ (l = [] <-> items = []).
Proof.
  induction items as [|v items IH]; intros i E; [by eexists|]. cbn [forallb] in E. apply andb_true_iff in E as [E1 E2].
  destruct (IH (S i) E2) as (l & El & _). destruct v as [| |[]| | |]; cbn in E1; try discriminate E1.
  exists (s :: l). cbn. rewrite El. done.
Qed.

(** What the schemas let through and the code does not take: an integer that is a float for
    [serde_json], and an empty array where one is required. *)
Definition misfit (args : Map) (p : Param) : bool :=
  match p_ty p, obj_get (p_name p) args with
  | IntegerT, Some (VNumber (NFloat _)) => true
  | StringArrayT, Some (VArray []) => p_required p
  | _, _ => false
  end.

Lemma collect_ok args p c :
  param_ok args p -> (p_kind p = BoolFlag -> p_ty p = BooleanT) ->
  (exists c', collect args p c = Ok c') <-> misfit args p = false.
Proof.
  intros Hp Hb. unfold param_ok in Hp. unfold collect, misfit.
  assert (Yes : forall (b : bool) (r : result Collected string), (exists c', r = Ok c') -> b = false -> (exists c', r = Ok c') <-> b = false) by done.
  destruct (obj_get (p_name p) args) as [v|].
  2: { rewrite Hp. apply Yes; [destruct (decide _); [by eexists|destruct (p_kind p); by eexists]|by destruct (p_ty p)]. }
  unfold property_ok, schema_type_fragment in Hp. destruct (decide (p_ty p = StringArrayT)) as [E|E].
  - rewrite E in Hp |- *. destruct v as [| |[]| |l|]; cbn in Hp; try discriminate Hp.
    destruct (array_strings_ok p l 0 Hp) as (out & -> & Ho). destruct l as [|a l].
    + rewrite (proj2 Ho eq_refl). destruct (p_required p); cbn; split; naive_solver.
    + rewrite bool_decide_eq_false_2 by (intros ?%Ho; done). rewrite andb_false_r. apply Yes; [by eexists|done].
  - destruct (p_kind p) eqn:Ek.
    3: { rewrite (Hb eq_refl) in Hp |- *. destruct v as [|[]|[]| | |]; cbn in Hp; try discriminate Hp; (apply Yes; [by eexists|done]). }
    all: unfold stringify_scalar; destruct (p_ty p); [..|done]; destruct v as [| |[]| | |]; cbn in Hp |- *;
      try discriminate Hp; split; naive_solver.
Qed.

Lemma collect_all_ok args ps :
  Forall (param_ok args) ps -> Forall (fun p => p_kind p = BoolFlag -> p_ty p = BooleanT) ps ->
  forall c, (exists c', collect_all args ps c = Ok c') <-> forallb (fun p => negb (misfit args p)) ps = true.
Proof.
  induction 1 as [|p ps Hp _ IH]; intros Hb c; [split; [done|by eexists]|]. apply Forall_cons in Hb as [Hb1 Hb].
  cbn [collect_all forallb]. destruct (collect_ok args p c Hp Hb1) as [H1 H2].
  destruct (misfit args p); cbn [negb andb].
  - split; [|done]. intros [c' E]. destruct (collect args p c); [|done]. by discriminate H1; eexists.
  - destruct (H2 eq_refl) as [c1 ->]. by apply IH.
Qed.

(** C28: how far the schemas are honest: for each of the tools, of arguments that satisfy the
    schema the server publishes for it a command line is built, except in two cases, in which
    they are refused: a parameter of type integer is given as a number that [serde_json] holds
    as a float, as it does [1.0] and integers beyond 64 bits, or a required array is empty. *)
Theorem schema_accepted spec args :
  spec ∈ TOOLS -> schema_ok (input_schema spec) args = true ->
  (exists l, build_call_args spec args = Ok l) <-> forallb (fun p => negb (misfit args p)) (t_params spec) = true.
Proof.
  intros Hs Hk. pose proof (schema_params _ _ Hs Hk) as Hp.
  assert (Hb : Forall (fun p => p_kind p = BoolFlag -> p_ty p = BooleanT) (t_params spec)).
  { assert (F : forallb (fun t => forallb (fun p => match p_kind p with BoolFlag => bool_decide (p_ty p = BooleanT) | _ => true end)
      (t_params t)) TOOLS = true) by (vm_compute; reflexivity).
    rewrite forallb_forall in F. specialize (F spec (proj1 (list_elem_of_In _ _) Hs)). rewrite forallb_forall in F.
    apply Forall_forall. intros p Hi Ek. specialize (F p (proj1 (list_elem_of_In _ _) Hi)). rewrite Ek in F.
    by apply bool_decide_eq_true in F. }
  unfold build_call_args. rewrite <- (collect_all_ok args _ Hp Hb {| c_positionals := []; c_flags := []; c_trailing := None |}).
  destruct (collect_all _ _ _); split; intros [? ?]; first [done|by eexists].
Qed.

(** An argument that the schema forbids because no parameter has its name is dropped
    without a word: the call is the one without it. *)
Theorem unknown_argument_dropped spec args k v :
  spec ∈ TOOLS -> k ∉ p_name <$> t_params spec -> obj_get k args = None ->
  schema_ok (input_schema spec) (obj_insert k v args) = false /\
  build_call_args spec (obj_insert k v args) = build_call_args spec args.
Proof.
  intros Hs Hk Ha. split.
  - unfold schema_ok. destruct (get_schema spec) as [-> _].
    apply andb_false_iff. right. apply not_true_iff_false. rewrite forallb_forall. intros F.
    assert (Hi : (k, v) ∈ obj_insert k v args) by (apply obj_get_in; rewrite obj_get_insert; by rewrite String.eqb_refl).
    specialize (F (k, v) (proj1 (list_elem_of_In _ _) Hi)). cbn [fst snd] in F. rewrite properties_other in F by done. cbn [obj_get] in F.
    assert (B : bool_at "additionalProperties" (input_schema spec) = Some false).
    { unfold bool_at, input_schema, get. by rewrite obj_get_insert. }
    by rewrite B in F.
  - unfold build_call_args. assert (C : forall ps c, k ∉ p_name <$> ps -> collect_all (obj_insert k v args) ps c = collect_all args ps c).
    { induction ps as [|p ps IH]; intros c Hp; cbn [collect_all]; [done|]. apply not_elem_of_cons in Hp as [Hp1 Hp2].
      assert (E : collect (obj_insert k v args) p c = collect args p c).
      { unfold collect. rewrite obj_get_insert. by destruct (String.eqb_spec (p_name p) k). }
      rewrite E. destruct (collect args p c); [by apply IH|done]. }
    by rewrite C.
Qed.
End Schemas.

(** ** Witnesses *)

Definition toy_cli : Cli := {|
  waymux_bin_var := None;
  sibling_exists := Some "/opt/waymux";
  cli_run _ _ := Err "none";
|}.

(** A message with an id and no method, a line that does not parse, and a tail. *)
Lemma mcp_answers_in_order_witness :
  let J := decimal_json in
  let msg := bytes_of_string (print (JsonText := J) (VObject [("id", VBool true)])) in
  exists out, @serve J toy_cli "1.0" (list Z) _ (S (length (unlines [msg; [120]] ++ msg))) (unlines [msg; [120]] ++ msg) [] []
      = Some ([], unlines out, Ok ()) /\ length out = 3%nat.
Proof.
  intros J msg.
  assert (Hm : 10 ∉ msg) by (apply (print_line (H := J))).
  pose proof (mcp_answers_in_order (H := J) (H1 := toy_cli) "1.0" [msg; [120]] msg []) as T.
  assert (Hl : Forall (fun l => 10 ∉ l) [msg; [120]]).
  { apply Forall_cons_2; [exact Hm|apply Forall_cons_2; [|by apply Forall_nil_2]]. intros E%list_elem_of_singleton. discriminate E. }
  specialize (T Hl Hm).
  assert (A : length (@answers J toy_cli "1.0" ((as_line <$> [msg; [120]]) ++ last_line msg) []).2 = 3%nat) by (vm_compute; reflexivity).
  assert (B : (@answers J toy_cli "1.0" ((as_line <$> [msg; [120]]) ++ last_line msg) []).1 = []) by (vm_compute; reflexivity).
  destruct (@answers J toy_cli "1.0" _ _) as [log vs]. cbn [fst snd] in A, B. subst log. destruct T as (out & S1 & F).
  exists out. split; [exact S1|]. rewrite <- A. symmetry. exact (Forall2_length _ _ _ F).
Defined.

Definition rm_tool : ToolSpec :=
  {| t_name := "waymux_rm"; t_verb := "rm"; t_argv := ["rm"]; t_description := "Destroy a waymux session.";
     t_params := [pos "name" StringT true "Session name to destroy."] |}.

Lemma schema_accepted_witness :
  (exists l, @build_call_args decimal_json rm_tool [("name", VString "s")] = Ok l) <->
  forallb (fun p => negb (misfit [("name", VString "s")] p)) (t_params rm_tool) = true.
Proof.
  apply (@schema_accepted decimal_json); [|reflexivity].
  unfold TOOLS. do 2 right. left.
Defined.

(** [1.0], and [2^64], as the id of a window: the schema allows them, the code refuses them. *)
Example whole_float_refused :
  match find (fun t => (t_name t =? "waymux_screenshot")%string) TOOLS with
  | None => False
  | Some spec => Forall (fun f =>
      let args := [("name", VString "s"); ("window_id", VNumber (NFloat f))] in
      schema_ok (input_schema spec) args = true /\
      @build_call_args decimal_json spec args = Err "argument `window_id` must be an integer")
      [f64_of_int 1; f64_of_int (2 ^ 64)]
  end.
Proof. vm_compute. repeat constructor. Qed.

Lemma unknown_argument_dropped_witness :
  let spec := {| t_name := "waymux_rm"; t_verb := "rm"; t_argv := ["rm"]; t_description := "Destroy a waymux session.";
       t_params := [pos "name" StringT true "Session name to destroy."] |} in
  @build_call_args decimal_json spec (obj_insert "force" (VBool true) [("name", VString "s")]) = Ok ["s"].
Proof.
  intros spec. destruct (@unknown_argument_dropped decimal_json spec [("name", VString "s")] "force" (VBool true)) as [_ E].
  - unfold TOOLS. do 2 right. left.
  - cbn. set_solver.
  - reflexivity.
  - rewrite E. reflexivity.
Defined.
