(* ===== verification/Client.v ===== *)
(** * The command-line client's connection
    ([crates/waymux-cli/src/connection.rs], [daemon.rs], the errors of [main.rs])

    One connection to the daemon: requests with their ids, the frames that arrive in
    between and are kept for later, and the errors a command ends with, with their
    stable codes. The daemon is the interface [Peer]. *)

From Stdlib Require Import ZArith Lia Ascii.
From stdpp Require Import prelude list strings gmap pretty.
From S2P Require Import Prelude Words Sys Codec Messages Server.

Open Scope Z_scope.

(** ** Text *)

(** [char::is_whitespace], of characters in UTF-8. *)
Definition WHITE : list (list nat) :=
  [[9]; [10]; [11]; [12]; [13]; [32]; [194; 133]; [194; 160]; [225; 154; 128];
   [226; 128; 128]; [226; 128; 129]; [226; 128; 130]; [226; 128; 131]; [226; 128; 132]; [226; 128; 133];
   [226; 128; 134]; [226; 128; 135]; [226; 128; 136]; [226; 128; 137]; [226; 128; 138];
   [226; 128; 168]; [226; 128; 169]; [226; 128; 175]; [226; 129; 159]; [227; 128; 128]]%nat.

(** Without the first of these characters it starts with. *)
Definition strip_one (set : list (list nat)) (l : list nat) : option (list nat) :=
  match List.find (fun w => bool_decide (w `prefix_of` l)) set with
  | Some w => Some (drop (length w) l)
  | None => None
  end.

Fixpoint strip_all (fuel : nat) (set : list (list nat)) (l : list nat) : list nat :=
  match fuel with
  | O => l
  | S fuel => match strip_one set l with Some l' => strip_all fuel set l' | None => l end
  end.

Definition codes (s : string) : list nat := nat_of_ascii <$> String.list_ascii_of_string s.
Definition of_codes (l : list nat) : string := String.string_of_list_ascii (ascii_of_nat <$> l).

(** [str::trim] *)
Definition trim (s : string) : string :=
  let l := strip_all (String.length s) WHITE (codes s) in
  of_codes (rev (strip_all (length l) (reverse <$> WHITE) (reverse l))).

(** [str::contains] a character. *)
Definition contains (c : ascii) (s : string) : bool := existsb (Ascii.eqb c) (String.list_ascii_of_string s).

Definition in_range (lo hi : nat) (c : ascii) : bool := ((lo <=? nat_of_ascii c) && (nat_of_ascii c <=? hi))%nat.
Definition is_upper : ascii -> bool := in_range 65 90.
Definition is_word (c : ascii) : bool :=
  is_upper c || in_range 97 122 c || in_range 48 57 c || Ascii.eqb c "_".

(** ** Errors *)

(** An [anyhow::Error]: one that carries its code, or any other with the text it shows. *)
Inductive error :=
| CliError (code message : string)
| Other (message : string).

Definition error_string (e : error) : string :=
  match e with CliError _ m => m | Other m => m end.

Definition bad_request (message : string) : error := CliError "E_BAD_REQUEST" message.
Definition not_found (message : string) : error := CliError "E_NOT_FOUND" message.

(** How a command leaves: with an error, by [process::exit], waiting for ever, by a panic
    or by becoming another program. *)
Inductive ending :=
| Failed (e : error)
| Exits (code : Z)
| Blocks
| Panics
| Becomes (program : string) (args : list string).

Definition known_error_code (debug_name : string) : option string :=
  match debug_name with
  | "NotFound" => Some "E_NOT_FOUND"
  | "AlreadyExists" => Some "E_ALREADY_EXISTS"
  | "ProtoVersion" => Some "E_PROTO_VERSION"
  | "NoRenderNode" => Some "E_NO_RENDER_NODE"
  | "ResizeRejected" => Some "E_RESIZE_REJECTED"
  | "Backpressure" => Some "E_BACKPRESSURE"
  | "NotImplemented" => Some "E_NOT_IMPLEMENTED"
  | "BadRequest" => Some "E_BAD_REQUEST"
  | "Internal" => Some "E_INTERNAL"
  | "Unknown" => Some "E_INTERNAL"
  | _ => None
  end%string.

Definition error_code_for (err : error) : string :=
  match err with
  | CliError code _ => code
  | Other msg =>
      let had_colon := contains ":" msg in
      let head := trim (default ""%string (head (split_on ":" msg))) in
      match known_error_code head with
      | Some code => code
      | None =>
          if had_colon && negb (head =? "")%string && all_chars is_word head
             && match head with String c _ => is_upper c | EmptyString => false end
          then "E_UNKNOWN:" +:+ head
          else "E_INTERNAL"
      end
  end%string.

(** [{:?}] of a code. *)
Definition debug_name (c : ErrorCode) : string :=
  match c with
  | NotFound => "NotFound" | AlreadyExists => "AlreadyExists" | ProtoVersion => "ProtoVersion"
  | NoRenderNode => "NoRenderNode" | ResizeRejected => "ResizeRejected" | Backpressure => "Backpressure"
  | NotImplemented => "NotImplemented" | BadRequest => "BadRequest" | Internal => "Internal" | Unknown => "Unknown"
  end.

Definition encode_error_string (e : EncodeError) : string :=
  match e with
  | EncMsgpack e => "msgpack encode: " +:+ e
  | EncTooLarge n => "frame exceeds " +:+ pretty MAX_FRAME_SIZE +:+ " bytes (" +:+ pretty n +:+ ")"
  end.

(** ** The other end *)

(** A daemon's socket: connecting, and what writing to it brings: whether the bytes were
    taken, what the daemon sends until it is written to again, and how the stream ends
    after that, when it does. *)
Class Peer := {
  peer : Type;
  peer_connect : string -> result peer string;
  peer_send : list Z -> peer -> peer * list Z * option stream_end * option string;
}.

Section connection.
Context `{Wire} `{Peer}.

Record Connection := {
  cn_peer : peer;
  cn_in : list Z;                 (* sent by the peer and not read yet *)
  cn_end : option stream_end;     (* how the stream ends after that, when it does *)
  cn_next_id : Z;
  cn_pending : list (list Z);     (* [pending_events] *)
}.
#[global] Instance eta_Connection : Eta Connection := fun c =>
  Build_Connection (cn_peer c) (cn_in c) (cn_end c) (cn_next_id c) (cn_pending c).

Abbreviation N := (Eff Connection ending).

Definition fail {S A} (e : error) : Eff S ending A := lift (Err (Failed e)).

Definition connect (path : string) : result Connection ending :=
  match peer_connect path with
  | Err _ => Err (Failed (Other ("connect " +:+ path)))
  | Ok p => Ok {| cn_peer := p; cn_in := []; cn_end := None; cn_next_id := 1; cn_pending := [] |}
  end.

(** [read_exact] with its context. *)
Definition read_exact (n : nat) (what : string) : N (list Z) := fun c =>
  if (n <=? length (cn_in c))%nat
  then (c <| cn_in ::= drop n |>, Ok (take n (cn_in c)))
  else match cn_end c with
       | Some _ => (c <| cn_in := [] |>, Err (Failed (Other what)))
       | None => (c, Err Blocks)
       end.

Definition read_socket_frame : N (list Z) :=
  len_buf ← read_exact 4 "read frame length";
  rest ← read_exact (Z.to_nat (from_be len_buf)) "read frame payload";
  mret (len_buf ++ rest).

Definition read_raw_frame : N (list Z) := fun c =>
  match cn_pending c with
  | f :: rest => (c <| cn_pending := rest |>, Ok f)
  | [] => read_socket_frame c
  end.

Definition write_all (buf : list Z) : N unit := fun c =>
  let '(p, bytes, e, err) := peer_send buf (cn_peer c) in
  let c := c <| cn_peer := p |> <| cn_in ::= fun l => l ++ bytes |>
             <| cn_end ::= fun old => match old with Some e => Some e | None => e end |> in
  match err with
  | Some _ => (c, Err (Failed (Other "write request")))
  | None => (c, Ok ())
  end.

(** What a response is to the caller. *)
Definition settle (resp : Response) : result Response ending :=
  if rs_ok resp then Ok resp
  else match rs_error resp with
       | None => Err (Failed (Other "response not ok but no error body"))
       | Some err => Err (Failed (Other (debug_name (re_code err) +:+ ": " +:+ re_message err)))
       end.

(** Frames until the response with this id; every frame takes at least four bytes. *)
Fixpoint await_response (fuel : nat) (id : Z) : N Response :=
  match fuel with
  | O => lift (Err Blocks)
  | S fuel =>
      payload ← read_socket_frame;
      let keep := (fun c : Connection => (c <| cn_pending ::= fun l => l ++ [payload] |>, Ok ())) : N unit in
      match decode_frame payload with
      | Ok resp => if rs_id resp =? id then lift (settle resp) else keep ;; await_response fuel id
      | Err _ => keep ;; await_response fuel id
      end
  end.

Definition request (method : Req.RequestMethod) : N Response := fun c =>
  let id := cn_next_id c in
  let c := c <| cn_next_id := if id =? 2 ^ 32 - 1 then 1 else id + 1 |> in
  match encode_frame {| rq_id := id; rq_method := method |} [] with
  | (_, Err e) => (c, Err (Failed (Other (encode_error_string e))))
  | (buf, Ok _) =>
      let await : N Response := fun c => await_response (S (length (cn_in c))) id c in
      (write_all buf ≫= fun _ => await) c
  end.

(** [request(m).await?.decode_result()] with the text of a failure to decode. *)
Definition request_as {T} `{!Serde T} (what : string) (method : Req.RequestMethod) : N T :=
  resp ← request method;
  match decode_result resp with
  | Ok v => mret v
  | Err e => fail (Other ("decode " +:+ what +:+ ": " +:+ e))
  end.

Definition hello : N HelloResult := request_as "hello result" (Req.Hello CURRENT_PROTOCOL_VERSION).

(** [Connection::connect] and [hello], as every local command starts. *)
Definition open_connection (path : string) : result (Connection * HelloResult) ending :=
  let? c := connect path in
  match hello c with
  | (c, Ok h) => Ok (c, h)
  | (_, Err e) => Err e
  end.
End connection.
