(* ===== verification/ClientProps.v ===== *)
(** * Properties of the client's connection

    The client of [Client.v] talking to the daemon of [Server.v]: every request returns
    with the response the daemon made to it, whatever events arrive in between; and the
    codes its errors end up with. *)

From Stdlib Require Import ZArith Lia Ascii.
From stdpp Require Import prelude list strings gmap pretty.
From S2P Require Import Prelude Words Sys Codec Messages Quota Registry RegistryOps RegistryInv RegistryProps.
From S2P Require Import RegistryIdle Server ServerProps Client.

Open Scope Z_scope.

(** ** The daemon as a peer *)

Section daemon.
Context `{Env} `{Wire} `{SessionBackend}.

(** The daemon's end of one connection, with what its event forwarder gets to do: how
    many receives before and after each request. *)
Record Daemon := {
  d_conn : cstate;
  d_trace : trace;
  d_plan : list (nat * nat);
}.

(** It reads what is written to it, and its writer sends all that was queued meanwhile;
    it closes when its reader has ended. *)
Definition daemon_send (bytes : list Z) (d : Daemon) : Daemon * list Z * option stream_end * option string :=
  let '(before, after, plan) := match d_plan d with [] => (O, O, []) | (a, b) :: p => (a, b, p) end in
  let '(s1, r) := reader_loop (S (length bytes)) (Stream bytes Eof) (forwarder_steps before (d_conn d, d_trace d)) in
  let '(c, t) := forwarder_steps after s1 in
  let queue := drop (length (c_out (d_conn d))) (c_out c) in
  ({| d_conn := c; d_trace := t; d_plan := plan |},
   writer_task (length (concat (encoded <$> queue))) queue,
   match r with Ok (Some EndEof) => None | _ => Some Eof end, None).

Definition daemon_peer (start : string -> result Daemon string) : Peer :=
  {| peer := Daemon; peer_connect := start; peer_send := daemon_send |}.

Lemma forwarder_step_queues c t :
  exists evs c', (event_forwarder_step (c, t)).1 = (c', t) /\
    c_out c' = c_out c ++ (OutEvent <$> evs) /\ c_writer c' = c_writer c.
Proof.
  assert (N : forall c' : cstate, c_out c' = c_out c -> c_writer c' = c_writer c ->
    exists evs c0, (c', t) = (c0, t) /\ c_out c0 = c_out c ++ (OutEvent <$> evs) /\ c_writer c0 = c_writer c).
  { intros c' Ho Hw. exists [], c'. cbn. by rewrite app_nil_r. }
  unfold event_forwarder_step. repeat case_match; try (by apply N).
  eexists [_], _. split; [done|]. by cbn.
Qed.

Lemma forwarder_steps_queue (n : nat) c t :
  exists evs c', forwarder_steps n (c, t) = (c', t) /\
    c_out c' = c_out c ++ (OutEvent <$> evs) /\ c_writer c' = c_writer c.
Proof.
  revert c. induction n as [|n IH]; intros c; [by exists [], c; rewrite app_nil_r|]. cbn [forwarder_steps].
  destruct (forwarder_step_queues c t) as (e1 & c1 & -> & O1 & W1).
  destruct (IH c1) as (e2 & c2 & -> & O2 & W2).
  exists (e1 ++ e2), c2. split; [done|]. by rewrite O2, O1, fmap_app, app_assoc, W2.
Qed.

(** One request as the daemon takes it. *)
Lemma handle_request_queues `{!WireOk} rq c t :
  clock_advances -> method_ok (rq_method rq) ->
  exists r evs c' t', handle_request rq (c, t) = ((c', t'), Ok r) /\ rs_id r = rq_id rq /\
    c_out c' = c_out c ++ (OutEvent <$> evs) /\ c_writer c' = c_writer c.
Proof.
  intros Hc Hm.
  assert (W : wp (handle_request rq) (fun r c' => rs_id r = rq_id rq /\
      (exists evs, c_out c' = c_out c ++ (OutEvent <$> evs)) /\ c_writer c' = c_writer c) (fun _ _ => False) c).
  { unfold handle_request. do 2 wp_step. destruct (c_negotiated c) eqn:Hn; cbn [negb].
    - eapply wp_conseq; [by apply dispatch_wp | | done]. intros r c' (? & ? & _ & ?). auto.
    - eapply wp_conseq; [by apply handle_hello_gate_wp | | done]. intros r c' (? & _ & Ho & ? & _).
      split_and!; [done| |done]. exists []. by rewrite app_nil_r. }
  specialize (W t). destruct (handle_request rq (c, t)) as [[c' t'] [r|]]; [|done].
  destruct W as (? & [evs ?] & ?). by exists r, evs, c', t'.
Qed.

Lemma reader_loop_one `{!WireOk} rq p fuel c t c' t' r :
  write_named rq = (p, None) -> len_z p <= MAX_FRAME_SIZE ->
  handle_request rq (c, t) = ((c', t'), Ok r) -> c_writer c' = true -> (2 <= fuel)%nat ->
  reader_loop fuel (Stream (frame_bytes p) Eof) (c, t) = ((push_out (OutResponse r) c', t'), Ok (Some EndEof)).
Proof.
  intros Ep Lp Eh Hw Hf. destruct fuel as [|[|fuel]]; [lia..|]. cbn [reader_loop].
  rewrite <- (app_nil_r (frame_bytes p)), read_frame_bytes, decode_frame_bytes by done.
  rewrite (from_slice_write_named rq p Ep). erewrite eff_bind_ok by apply Eh.
  erewrite eff_bind_ok by (unfold send; rewrite Hw; reflexivity). cbn [reader_loop]. by rewrite read_frame_eof.
Qed.

(** What a frame on the wire answers: one response, with events around it. *)
Lemma daemon_answers `{!WireOk} rq p d :
  clock_advances -> method_ok (rq_method rq) -> c_writer (d_conn d) = true ->
  write_named rq = (p, None) -> len_z p <= MAX_FRAME_SIZE ->
  exists d' a b r, rs_id r = rq_id rq /\ c_writer (d_conn d') = true /\
    c_out (d_conn d') = c_out (d_conn d) ++ (OutEvent <$> a) ++ OutResponse r :: (OutEvent <$> b) /\
    exists sent, daemon_send (frame_bytes p) d = (d', sent, None, None) /\
      (Forall encodes (c_out (d_conn d')) ->
       sent = concat (encoded <$> (OutEvent <$> a) ++ OutResponse r :: (OutEvent <$> b))).
Proof.
  intros Hc Hm Hw Ep Lp. destruct d as [c t plan]. cbn [d_conn d_trace d_plan] in *.
  pose (pl := match plan with [] => (O, O, []) | (a, b) :: p => (a, b, p) end).
  destruct (forwarder_steps_queue pl.1.1 c t) as (e1 & c1 & F1 & O1 & W1).
  destruct (handle_request_queues rq c1 t Hc Hm) as (r & e2 & c2 & t2 & Eh & Hr & O2 & W2).
  set (c3 := push_out (OutResponse r) c2).
  destruct (forwarder_steps_queue pl.1.2 c3 t2) as (e3 & c4 & F3 & O3 & W3).
  assert (Ho : c_out c4 = c_out c ++ (OutEvent <$> e1 ++ e2) ++ OutResponse r :: (OutEvent <$> e3)).
  { rewrite O3. cbn [c3 push_out c_out]. rewrite O2, O1, fmap_app, <- !app_assoc. done. }
  exists {| d_conn := c4; d_trace := t2; d_plan := pl.2 |}, (e1 ++ e2), e3, r. cbn [d_conn].
  split; [done|]. split; [rewrite W3; cbn [c3 push_out c_writer]; by rewrite W2, W1|]. split; [exact Ho|].
  eexists. unfold daemon_send. cbn [d_plan d_conn d_trace]. fold pl.
  destruct pl as [[before after] plan'] eqn:Epl. cbn [fst snd] in *. rewrite F1.
  rewrite (reader_loop_one rq p _ c1 t c2 t2 r Ep Lp Eh) by
    (unfold frame_bytes; rewrite ?length_app, ?length_to_be; (congruence || lia)).
  fold c3. rewrite F3, Ho, drop_app_length. split; [done|]. intros [_ He]%Forall_app. by apply writer_task_all.
Qed.
End daemon.

(** ** The client against it *)

(** No event reads as a response: it lacks the fields of one. *)
Class EventsApart `{Wire} := {
  event_not_response (e : Event) bytes :
    write_named e = (bytes, None) -> exists msg, from_slice (T := Response) bytes = Err msg;
}.

Section conversation.
Context `{Env} `{Wire} `{!WireOk} `{!EventsApart} `{SessionBackend} (start : string -> result Daemon string).
#[local] Instance the_daemon : Peer := daemon_peer start.

Lemma encoded_frame (o : Outgoing) :
  encodes o -> exists p, encoded o = frame_bytes p /\ len_z p <= MAX_FRAME_SIZE /\
    match o with OutResponse r => write_named r = (p, None) | OutEvent e => write_named e = (p, None) end.
Proof.
  intros He. destruct o as [r|e]; cbn [encodes encoded] in *; rewrite encode_frame_eq in He |- *;
    (destruct (write_named _) as [p [?|]]; [done|]; destruct (Z.ltb_spec MAX_FRAME_SIZE (len_z p)); [done|]);
    exists p; (split_and!; [done|lia|done]).
Qed.

Lemma read_socket_frame_bytes p rest (c : Connection) :
  len_z p <= MAX_FRAME_SIZE -> cn_in c = frame_bytes p ++ rest ->
  read_socket_frame c = (c <| cn_in := rest |>, Ok (frame_bytes p)).
Proof.
  intros L E. destruct c as [pe inp en id pend]. cbn [cn_in] in E. subst inp.
  unfold read_socket_frame, frame_bytes, mbind, eff_mbind, read_exact. cbn [cn_in].
  rewrite <- app_assoc, !length_app, length_to_be. cbn [Nat.leb plus].
  rewrite take_app_exact, from_be_prefix by (done || apply length_to_be).
  cbv [set_field eta eta_Connection]. cbn [cn_in cn_peer cn_end cn_next_id cn_pending].
  rewrite drop_app_exact by apply length_to_be. unfold len_z. rewrite Nat2Z.id, length_app.
  rewrite (proj2 (Nat.leb_le _ _)) by lia. by rewrite take_app_length, drop_app_length.
Qed.

(** Waiting for a response: the events before it are kept, what follows it is left. *)
Lemma await_response_finds evs r rest : forall fuel (c : Connection),
  Forall encodes (OutEvent <$> evs) -> encodes (OutResponse r) -> (length evs < fuel)%nat ->
  cn_in c = concat (encoded <$> (OutEvent <$> evs)) ++ encoded (OutResponse r) ++ rest ->
  await_response fuel (rs_id r) c =
    (c <| cn_in := rest |> <| cn_pending ::= fun l => l ++ (encoded <$> (OutEvent <$> evs)) |>, settle r).
Proof.
  induction evs as [|e evs IH]; intros [|fuel] c He Hr Hf Ein; cbn [length] in Hf; try lia; cbn [await_response].
  - destruct (encoded_frame _ Hr) as (p & Ep & Lp & Wp). cbn in Ein. cbn [encoded] in Ep. rewrite Ep in Ein.
    erewrite eff_bind_ok by (by apply read_socket_frame_bytes). rewrite decode_frame_bytes by done.
    rewrite (from_slice_write_named r p Wp), Z.eqb_refl. unfold lift. f_equal.
    destruct c. cbv [set_field eta eta_Connection]. cbn. by rewrite app_nil_r.
  - cbn [fmap list_fmap] in He, Ein |- *. apply Forall_cons in He as [He0 He].
    destruct (encoded_frame _ He0) as (p & Ep & Lp & Wp). rewrite Ep in Ein |- *.
    cbn [concat] in Ein. rewrite <- app_assoc in Ein.
    erewrite eff_bind_ok by (by apply read_socket_frame_bytes). rewrite decode_frame_bytes by done.
    destruct (event_not_response e p Wp) as [msg ->].
    erewrite eff_bind_ok by reflexivity. rewrite IH; [|done|done|lia|done].
    destruct c. cbv [set_field eta eta_Connection]. cbn. by rewrite <- app_assoc.
Qed.

(** The requests of a client, one after another, with what each came back with. *)
Fixpoint requests (ms : list Req.RequestMethod) (c : Connection) : Connection * list (result Response ending) :=
  match ms with
  | [] => (c, [])
  | m :: ms =>
      let '(c, r) := request m c in
      let '(c, rs) := requests ms c in (c, r :: rs)
  end.

(** A connection at rest: only events are left to read. *)
Definition at_rest (evs : list Event) (c : Connection) : Prop :=
  cn_in c = concat (encoded <$> (OutEvent <$> evs)) /\ cn_end c = None /\ (1 <= cn_next_id c < 2 ^ 32) /\
  c_writer (d_conn (cn_peer c)) = true.

Definition fits (m : Req.RequestMethod) : Prop :=
  method_ok m /\ forall id, 1 <= id < 2 ^ 32 -> exists p, write_named {| rq_id := id; rq_method := m |} = (p, None) /\ len_z p <= MAX_FRAME_SIZE.

Definition queued (c : Connection) : list Outgoing := c_out (d_conn (cn_peer c)).

Lemma length_encoded evs :
  Forall encodes (OutEvent <$> evs) -> (length evs <= length (concat (encoded <$> (OutEvent <$> evs))))%nat.
Proof.
  induction evs as [|e evs IH]; intros He; [cbn; lia|]. cbn [fmap list_fmap concat] in *.
  apply Forall_cons in He as [He0 He]. destruct (encoded_frame _ He0) as (p & -> & _).
  unfold frame_bytes. rewrite !length_app, length_to_be. specialize (IH He). cbn [length]. lia.
Qed.

Lemma fits_frame m id :
  fits m -> 1 <= id < 2 ^ 32 -> exists p, encode_frame {| rq_id := id; rq_method := m |} [] = (frame_bytes p, Ok ()) /\
    write_named {| rq_id := id; rq_method := m |} = (p, None) /\ len_z p <= MAX_FRAME_SIZE.
Proof.
  intros [_ Hfit] Hid. destruct (Hfit id Hid) as (p & Ep & Lp). exists p. split; [|done].
  rewrite encode_frame_eq, Ep. by rewrite (proj2 (Z.ltb_ge _ _)) by lia.
Qed.

Definition bump (id : Z) : Z := if id =? 2 ^ 32 - 1 then 1 else id + 1.

Lemma write_all_daemon buf d' sent (c : Connection) :
  daemon_send buf (cn_peer c) = (d', sent, None, None) ->
  write_all buf c = (c <| cn_peer := d' |> <| cn_in ::= fun l => l ++ sent |>, Ok ()).
Proof.
  intros Es. destruct c as [d inp en id pend]. unfold write_all.
  change (peer_send buf (cn_peer _)) with (daemon_send buf d). cbn [cn_peer] in Es. rewrite Es. by destruct en.
Qed.

Lemma bump_range id : 1 <= id < 2 ^ 32 -> 1 <= bump id < 2 ^ 32.
Proof. unfold bump. case_match; boolz; lia. Qed.

(** A request reaches the daemon, which queues one response to it and may queue events. *)
Lemma request_sent m (c : Connection) :
  clock_advances -> fits m -> 1 <= cn_next_id c < 2 ^ 32 -> c_writer (d_conn (cn_peer c)) = true ->
  exists d' a b r sent, rs_id r = cn_next_id c /\ c_writer (d_conn d') = true /\
    c_out (d_conn d') = queued c ++ (OutEvent <$> a) ++ OutResponse r :: (OutEvent <$> b) /\
    (Forall encodes (c_out (d_conn d')) ->
       sent = concat (encoded <$> (OutEvent <$> a) ++ OutResponse r :: (OutEvent <$> b))) /\
    forall c1, c1 = {| cn_peer := d'; cn_in := cn_in c ++ sent; cn_end := cn_end c; cn_next_id := bump (cn_next_id c);
                       cn_pending := cn_pending c |} ->
    request m c = await_response (S (length (cn_in c1))) (cn_next_id c) c1.
Proof.
  intros Hc Hm Hid Hw. destruct (fits_frame m (cn_next_id c) Hm Hid) as (p & Ee & Ep & Lp).
  destruct (daemon_answers {| rq_id := cn_next_id c; rq_method := m |} p (cn_peer c) Hc (proj1 Hm) Hw Ep Lp)
    as (d' & a & b & r & Hr & Hw' & Ho & sent & Es & Hs).
  exists d', a, b, r, sent. split_and!; try done. intros c1 ->.
  unfold request. rewrite Ee. by erewrite (eff_bind_ok (write_all (frame_bytes p))) by (by apply write_all_daemon).
Qed.

Lemma read_socket_frame_peer (c c' : Connection) r :
  read_socket_frame c = (c', r) -> cn_peer c' = cn_peer c /\ cn_next_id c' = cn_next_id c.
Proof.
  unfold read_socket_frame, mbind, eff_mbind, read_exact. destruct c. cbv [set_field eta eta_Connection mret eff_mret].
  repeat case_match; intros; simplify_eq; done.
Qed.

Lemma await_response_peer fuel id : forall (c : Connection),
  cn_peer (await_response fuel id c).1 = cn_peer c /\ cn_next_id (await_response fuel id c).1 = cn_next_id c.
Proof.
  induction fuel as [|fuel IH]; intros c; [done|]. cbn [await_response]. unfold mbind, eff_mbind.
  destruct (read_socket_frame c) as [c' [p|e]] eqn:E; apply read_socket_frame_peer in E as [<- <-]; [|done].
  destruct (decode_frame p) as [r|]; [destruct (rs_id r =? id); [done|]|];
    (destruct (IH (c' <| cn_pending ::= fun l => l ++ [p] |>)) as [E1 E2]; by destruct c').
Qed.

(** One request on a connection at rest. *)
Lemma request_answered evs m (c : Connection) :
  clock_advances -> fits m -> at_rest evs c -> Forall encodes (OutEvent <$> evs) ->
  exists a b r, rs_id r = cn_next_id c /\ c_writer (d_conn (cn_peer (request m c).1)) = true /\
    (1 <= cn_next_id c < 2 ^ 32 -> 1 <= cn_next_id (request m c).1 < 2 ^ 32) /\
    queued (request m c).1 = queued c ++ (OutEvent <$> a) ++ OutResponse r :: (OutEvent <$> b) /\
    (Forall encodes (queued (request m c).1) ->
     at_rest b (request m c).1 /\ (request m c).2 = settle r /\
     cn_next_id (request m c).1 = bump (cn_next_id c) /\
     cn_pending (request m c).1 = cn_pending c ++ (encoded <$> (OutEvent <$> evs ++ a))).
Proof.
  intros Hc Hm (Ein & Eend & Hid & Hw) Hev.
  destruct (request_sent m c Hc Hm Hid Hw) as (d' & a & b & r & sent & Hr & Hw' & Ho & Hs & Hreq).
  rewrite (Hreq _ eq_refl). exists a, b, r. unfold queued. rewrite (proj1 (await_response_peer _ _ _)).
  rewrite (proj2 (await_response_peer _ _ _)). cbn [cn_peer cn_in cn_next_id].
  split; [done|]. split; [done|]. split; [apply bump_range|]. split; [done|]. intros He. rewrite (Hs He) in *. clear Hs Hreq.
  rewrite Ho in He. apply Forall_app in He as [_ [Ha Hb]%Forall_app]. apply Forall_cons in Hb as [Hb0 Hb].
  assert (Hea : Forall encodes (OutEvent <$> evs ++ a)) by (rewrite fmap_app; by apply Forall_app).
  rewrite <- Hr. rewrite (await_response_finds (evs ++ a) r (concat (encoded <$> (OutEvent <$> b)))); [|done|done| |].
  2: { rewrite Ein. pose proof (length_encoded _ Hea) as L. rewrite !fmap_app, concat_app, !length_app in L.
       rewrite fmap_app, concat_app, !length_app. lia. }
  2: { cbn [cn_in]. rewrite Ein, !fmap_app, fmap_cons, !concat_app, <- !app_assoc. done. }
  rewrite Hr. cbv [set_field eta eta_Connection]. cbn [fst snd cn_peer cn_in cn_end cn_next_id cn_pending].
  pose proof (bump_range _ Hid). by repeat (split; [done|]).
Qed.

Definition new_events (q : list Outgoing) : list Event :=
  omap (fun o => match o with OutEvent e => Some e | OutResponse _ => None end) q.

Lemma new_events_app a b : new_events (a ++ b) = new_events a ++ new_events b.
Proof. apply omap_app. Qed.

Lemma responses_app a b : responses (a ++ b) = responses a ++ responses b.
Proof. apply omap_app. Qed.

Lemma responses_of evs : responses (OutEvent <$> evs) = [].
Proof. apply (responses_events []). Qed.

Lemma responses_cons r q : responses (OutResponse r :: q) = r :: responses q.
Proof. done. Qed.

Lemma new_events_cons r q : new_events (OutResponse r :: q) = new_events q.
Proof. done. Qed.

Lemma new_events_of evs : new_events (OutEvent <$> evs) = evs.
Proof. induction evs as [|e evs IH]; [done|]. cbn. by f_equal. Qed.

Lemma requests_queue ms : forall (c : Connection), clock_advances -> Forall fits ms ->
  1 <= cn_next_id c < 2 ^ 32 -> c_writer (d_conn (cn_peer c)) = true -> queued c `prefix_of` queued (requests ms c).1.
Proof.
  induction ms as [|m ms IH]; intros c Hc Hms Hid Hw; [done|]. apply Forall_cons in Hms as [Hm Hms]. cbn [requests].
  destruct (request_sent m c Hc Hm Hid Hw) as (d' & a & b & r & sent & _ & Hw' & Ho & _ & Hreq).
  pose proof (await_response_peer (S (length (cn_in c ++ sent))) (cn_next_id c)) as Hp.
  specialize (Hreq _ eq_refl). specialize (Hp {| cn_peer := d'; cn_in := cn_in c ++ sent; cn_end := cn_end c;
     cn_next_id := bump (cn_next_id c); cn_pending := cn_pending c |}).
  cbn [cn_in cn_peer] in Hp, Hreq. rewrite <- Hreq in Hp. destruct (request m c) as [c1 o]. cbn [fst] in Hp.
  destruct Hp as [Hp Hn]. cbn [cn_next_id] in Hn.
  specialize (IH c1 Hc Hms). rewrite Hp, Hn in IH. specialize (IH (bump_range _ Hid) Hw'). destruct (requests ms c1) as [c2 rs].
  cbn [fst] in *. unfold queued in IH at 1. rewrite Hp, Ho in IH. etrans; [|exact IH]. by apply prefix_app_r.
Qed.

(** The ids a connection gives to its next requests. *)
Fixpoint ids_from (n : nat) (id : Z) : list Z :=
  match n with O => [] | S n => id :: ids_from n (bump id) end.

(** C4: a client that sends any requests over a connection to the daemon gets back from
    each exactly the response the daemon made to it, whatever the daemon's event forwarder
    sends in between: the outcomes are the daemon's responses in order, with the ids the
    requests were given, and every event the daemon queued is either kept, in order, for
    the command that reads events or still to be read. The clock advances, and every
    message fits a frame: the requests, the events and the daemon's responses. *)
Theorem client_requests_answered ms evs (c : Connection) :
  clock_advances -> Forall fits ms -> at_rest evs c -> Forall encodes (OutEvent <$> evs) ->
  Forall encodes (queued (requests ms c).1) ->
  exists q kept rest, queued (requests ms c).1 = queued c ++ q /\
    (requests ms c).2 = settle <$> responses q /\
    rs_id <$> responses q = ids_from (length ms) (cn_next_id c) /\
    evs ++ new_events q = kept ++ rest /\ at_rest rest (requests ms c).1 /\
    cn_pending (requests ms c).1 = cn_pending c ++ (encoded <$> (OutEvent <$> kept)).
Proof.
  intros Hc Hms Hrest Hev. revert c evs Hrest Hev.
  induction Hms as [|m ms Hm Hms IH]; intros c evs Hrest Hev He; cbn [requests] in *.
  { exists [], [], evs. cbn. by rewrite !app_nil_r. }
  destruct (request_answered evs m c Hc Hm Hrest Hev) as (a & b & r & Hr & Hw & Hid1 & Hq & Hgo).
  destruct (request m c) as [c1 o]. cbn [fst snd] in *.
  pose proof (requests_queue ms c1 Hc Hms (Hid1 (proj1 (proj2 (proj2 Hrest)))) Hw) as [k Hk].
  specialize (IH c1 b). destruct (requests ms c1) as [c2 rs]. cbn [fst snd] in *.
  assert (He1 : Forall encodes (queued c1)) by (rewrite Hk in He; by apply Forall_app in He as [? _]).
  destruct (Hgo He1) as (Hrest1 & -> & Hb & Hp1).
  assert (Heb : Forall encodes (OutEvent <$> b)).
  { rewrite Hq in He1. apply Forall_app in He1 as [_ [_ [_ ?]%Forall_cons]%Forall_app]. done. }
  destruct (IH Hrest1 Heb He) as (q & kept & rest & Hq2 & Ho2 & Hids & Hsplit & Hrest2 & Hp2).
  exists ((OutEvent <$> a) ++ OutResponse r :: (OutEvent <$> b) ++ q), (evs ++ a ++ kept), rest.
  rewrite Hq2, Hq, Ho2, Hp2, Hp1, Hb in *.
  rewrite !responses_app, !new_events_app, responses_cons, new_events_cons.
  rewrite !responses_app, !new_events_app, !responses_of, !new_events_of.
  cbn [app fmap list_fmap length ids_from].
  split; [by rewrite <- !app_assoc|]. split; [done|]. split; [by rewrite Hr, Hids|].
  split; [rewrite <- !app_assoc; by rewrite Hsplit|]. split; [done|].
  by rewrite !fmap_app, <- !app_assoc.
Qed.
End conversation.

(** ** Codes of errors *)

(** An error the daemon answers with is shown under its own stable code, whatever its
    message says; the fallback for codes this client does not know is shown as internal. *)
Theorem daemon_error_code `{MsgPack} (r : Response) (e : ResponseError) :
  rs_ok r = false -> rs_error r = Some e ->
  exists err, settle r = Err (Failed err) /\
    error_string err = (debug_name (re_code e) +:+ ": " +:+ re_message e)%string /\
    error_code_for err = if decide (re_code e = Unknown) then "E_INTERNAL"%string else error_code_wire (re_code e).
Proof.
  intros Ho Ee. unfold settle. rewrite Ho, Ee. eexists. split; [done|]. split; [done|].
  destruct e as [code msg detail]. cbn [re_code re_message].
  destruct code; rewrite ?decide_False by done; rewrite ?decide_True by done; reflexivity.
Qed.

Lemma daemon_error_code_witness :
  exists err, @settle demo_msgpack (failure 3 (response_error_new NotFound "no: such session")) = Err (Failed err) /\
    error_code_for err = "E_NOT_FOUND"%string.
Proof.
  destruct (@daemon_error_code demo_msgpack (failure 3 (response_error_new NotFound "no: such session"))
    (response_error_new NotFound "no: such session") eq_refl eq_refl) as (err & ? & _ & ?).
  exists err. done.
Defined.

(** ** Example: a subscriber with a line of history *)

Definition talk_method (m : Req.RequestMethod) : option Z :=
  match m with Req.Hello 4 => Some 1 | Req.Subscribe ["logs:demo"%string] => Some 2 | _ => None end.

Definition talk_request : Serde Request := {|
  write_named (r : Request) :=
    if (0 <=? rq_id r) && (rq_id r <? 2 ^ 32) then
      match talk_method (rq_method r) with
      | Some t => (t :: to_be 4 (rq_id r), None)
      | None => ([], Some "unsupported"%string)
      end
    else ([], Some "unsupported"%string);
  from_slice (l : list Z) :=
    match l with
    | 1 :: id => Ok {| rq_id := from_be id; rq_method := Req.Hello 4 |}
    | 2 :: id => Ok {| rq_id := from_be id; rq_method := Req.Subscribe ["logs:demo"%string] |}
    | _ => Err "unsupported"%string
    end;
|}.

Lemma talk_method_inv m t :
  talk_method m = Some t -> t = 1 /\ m = Req.Hello 4 \/ t = 2 /\ m = Req.Subscribe ["logs:demo"%string].
Proof. destruct m; cbn; try done; repeat (case_match; try done); intros [= <-]; auto. Qed.

Lemma talk_request_laws : @SerdeLaws Request talk_request.
Proof.
  split.
  - intros [id m] bytes. cbn [write_named talk_request rq_id rq_method].
    destruct ((0 <=? id) && (id <? 2 ^ 32)) eqn:R; [|done]. boolz.
    destruct (talk_method m) as [t|] eqn:T; [|done]. intros [= <-].
    assert (E : from_be (to_be 4 id) = id) by (rewrite from_be_to_be; apply Z.mod_small; cbn in *; lia).
    apply talk_method_inv in T as [[-> ->]|[-> ->]]; cbn [from_slice talk_request]; by rewrite E.
  - intros [id m]. cbn [write_named talk_request rq_id rq_method]. case_match; [|constructor].
    destruct (talk_method m) as [t|] eqn:T; [|constructor]. cbn [fst]. constructor; [|apply to_be_bytes].
    apply talk_method_inv in T as [[-> _]|[-> _]]; unfold is_byte; lia.
Qed.

Definition talk_response : Serde (@Response demo_msgpack) := {|
  write_named (r : @Response demo_msgpack) :=
    match rs_id r, rs_ok r, (rs_result r : option (list Z)), rs_error r with
    | 1, true, Some [5], None => ([10], None)
    | 2, true, Some [6], None => ([11], None)
    | _, _, _, _ => ([], Some "unsupported"%string)
    end;
  from_slice (l : list Z) :=
    match l with
    | [10] => Ok (@Build_Response demo_msgpack 1 true (Some [5]) None)
    | [11] => Ok (@Build_Response demo_msgpack 2 true (Some [6]) None)
    | _ => Err "missing field"%string
    end;
|}.

Lemma talk_response_laws : @SerdeLaws _ talk_response.
Proof.
  split.
  - intros [id ok res err] bytes. cbn. repeat (case_match; try discriminate); intros; simplify_eq; done.
  - intros [id ok res err]. cbn. repeat case_match; repeat constructor; done.
Qed.

(** Serializers of one value. *)
Definition only {T} `{EqDecision T} (x : T) (b : Z) : Serde T := {|
  write_named (v : T) := if decide (v = x) then ([b], None) else ([], Some "unsupported"%string);
  from_slice (l : list Z) := if decide (l = [b]) then Ok x else Err "unsupported"%string;
|}.

Lemma only_laws {T} `{EqDecision T} (x : T) b : is_byte b -> @SerdeLaws T (only x b).
Proof.
  intros Hb. split; cbn; intros v; [intros bytes|]; case_decide; subst; cbn; try done.
  - intros [= <-]. by rewrite decide_True.
  - by constructor.
Qed.

Lemma only_wire {T} `{EqDecision T} (x : T) b : is_byte b -> @WireLaws T demo_msgpack (only x b).
Proof.
  intros Hb. split; [by apply only_laws| |]; intros v bytes; [by exists bytes|].
  intros val _. cbn. by intros [= ->].
Qed.

#[export] Instance HelloResult_eq_dec : EqDecision HelloResult.
Proof. solve_decision. Defined.
#[export] Instance UnitResult_eq_dec : EqDecision UnitResult.
Proof. solve_decision. Defined.

Definition talk_line : Event := event_new (Ev.Log "demo" "stdout" "hi").

Definition talk_wire : @Wire demo_msgpack := {|
  w_request := talk_request; w_response := talk_response; w_event := only talk_line 12;
  w_ctl_request := demo_request_serde; w_ctl_response := demo_response_serde;
  w_ctl_windows := demo_windows_serde; w_ctl_info := busy_info_serde;
  w_screenshot := refuse; w_record_started := refuse; w_record_status := refuse;
  w_viewer_started := refuse; w_viewer_status := refuse;
  w_hello := only {| hr_server_protocol := 4; hr_capabilities := ["subscribe"; "spawn"]%string |} 5;
  w_sessions := refuse; w_created := refuse; w_attach := refuse; w_windows := refuse;
  w_unit := only Build_UnitResult 6; w_spawn := refuse; w_idle := refuse;
|}.

Lemma talk_wire_ok : @WireOk demo_msgpack talk_wire.
Proof.
  split; first [apply talk_request_laws | apply talk_response_laws | apply refuse_serde | apply refuse_wire
               | apply only_laws; unfold is_byte; lia | apply only_wire; unfold is_byte; lia].
Qed.

Lemma talk_apart : @EventsApart demo_msgpack talk_wire.
Proof. split. intros e bytes. cbn. case_decide; [|done]. intros [= <-]. by eexists. Qed.

Lemma talk_fits m t : talk_method m = Some t -> @fits demo_msgpack talk_wire m.
Proof.
  intros T. split.
  { by apply talk_method_inv in T as [[_ ->]|[_ ->]]. }
  intros id Hid. eexists. cbn [write_named talk_wire w_request talk_request rq_id rq_method].
  rewrite (proj2 (andb_true_iff _ _)) by (split; [apply Z.leb_le|apply Z.ltb_lt]; lia). rewrite T.
  split; [reflexivity|]. unfold len_z. cbn [length]. rewrite length_to_be. by vm_compute.
Qed.

Definition talk_daemon : @Daemon demo_msgpack :=
  {| d_conn := demo_conn logged_inner false; d_trace := []; d_plan := [(1, 0); (0, 1)]%nat |}.

Abbreviation talk_peer := (@daemon_peer idle_env demo_msgpack talk_wire (@LocalBackend idle_env) (fun _ => Ok talk_daemon)).

Definition talk_connection : @Connection talk_peer :=
  @Build_Connection talk_peer talk_daemon [] None 1 [].

Abbreviation talk := (@requests idle_env demo_msgpack talk_wire (@LocalBackend idle_env) (fun _ => Ok talk_daemon)
  [Req.Hello 4; Req.Subscribe ["logs:demo"%string]] talk_connection).

Lemma talk_queue :
  queued (fun _ => Ok talk_daemon) talk.1 = [OutResponse (@Build_Response demo_msgpack 1 true (Some [5]) None); OutEvent talk_line;
                   OutResponse (@Build_Response demo_msgpack 2 true (Some [6]) None)].
Proof. vm_compute. reflexivity. Qed.

Lemma client_requests_answered_witness :
  talk.2 = [Ok (@Build_Response demo_msgpack 1 true (Some [5]) None);
            Ok (@Build_Response demo_msgpack 2 true (Some [6]) None)].
Proof.
  destruct (@client_requests_answered idle_env demo_msgpack talk_wire talk_wire_ok talk_apart (@LocalBackend idle_env)
    (fun _ => Ok talk_daemon) [Req.Hello 4; Req.Subscribe ["logs:demo"%string]] [] talk_connection)
    as (q & kept & rest & Hq & Ho & _).
  - apply idle_clock.
  - apply Forall_cons_2; [by apply talk_fits with 1|]. apply Forall_cons_2; [by apply talk_fits with 2|]. apply Forall_nil_2.
  - repeat split; cbn; lia.
  - constructor.
  - rewrite talk_queue. repeat (apply Forall_cons_2; [vm_compute; reflexivity|]). apply Forall_nil_2.
  - rewrite talk_queue in Hq. cbn [app queued d_conn talk_daemon demo_conn c_out talk_connection cn_peer] in Hq.
    subst q. rewrite Ho. reflexivity.
Defined.
