(* ===== verification/ClientCmd.v ===== *)
(** * The command-line client
    ([crates/waymux-cli/src/main.rs], [transport.rs], [daemon.rs], [credentials.rs])

    The commands and their routing, the two transports behind one interface, what each
    command asks of the daemon and prints, as text or as a JSON envelope, and the start of
    the daemon when there is none. Files, processes, the clock, HTTP and the formats of
    third-party libraries are fields of the class [Host]. *)

From Stdlib Require Import ZArith Lia Ascii SpecFloat.
From stdpp Require Import prelude list strings gmap pretty.
From S2P Require Import Prelude Words Floats Decimal Sys Codec Messages Server Control Client.
From S2P Require Json.

Open Scope Z_scope.
Open Scope string_scope.
Open Scope list_scope.

Abbreviation JV := Json.Value.
Definition js (s : string) : JV := Json.VString s.
Definition jn (z : Z) : JV := Json.VNumber (Json.NInt z).
Definition jb (b : bool) : JV := Json.VBool b.
Definition jopt {A} (f : A -> JV) (o : option A) : JV := match o with Some a => f a | None => Json.VNull end.
Abbreviation obj := Json.obj.

(** A float of JSON: one that is not finite is null. *)
Definition jf (bits : Z) : JV :=
  match f64_of_bits bits with
  | S754_nan | S754_infinity _ => Json.VNull
  | f => Json.VNumber (Json.NFloat f)
  end.

(** ** Data of [transport.rs] *)

Record SessionSummary := {
  ss_name : string;
  ss_width : Z;
  ss_height : Z;
  ss_created_at : string;
  ss_pid : Z;
  ss_attached : bool;
}.

Record ScreenshotResult := { sh_png : list Z; sh_width : Z; sh_height : Z; sh_window_id : Z }.

Module Cop.
Inductive InjectOp :=
| Key (keycode : Z) (release : bool) (modifiers : Z)
| Pointer (x y button : Z) (state : string).
End Cop.

Definition op_json (op : Cop.InjectOp) : JV :=
  match op with
  | Cop.Key keycode release modifiers =>
      obj [("type", js "key"); ("keycode", jn keycode); ("release", jb release); ("modifiers", jn modifiers)]
  | Cop.Pointer x y button state =>
      obj [("type", js "pointer"); ("x", jf x); ("y", jf y); ("button", jn button); ("state", js state)]
  end.

Record NewArgs := {
  na_name : string;
  na_size : string;
  na_scale : Z;
  na_share_audio : bool;
  na_mem_cap_mb : option Z;
  na_cpu_cap_pct : option Z;
  na_disk_quota_mb : option Z;
  na_fd_limit : option Z;
  na_api_key_id : option string;
}.

(** ** Surroundings *)

Record Profile := { pf_base_url : string; pf_api_key : string }.
Definition Credentials := gmap string Profile.

Record HttpRequest := { hq_method : string; hq_url : string; hq_key : string; hq_body : option JV }.

Record MintedToken := { mt_token : string; mt_public_key : string; mt_vm_session_id : string; mt_expires_at : Z }.

Class Host := {
  var : string -> option string;
  exists_at : string -> bool;
  is_file : string -> bool;
  current_exe : option string;
  write_file : string -> list Z -> option string;              (* the error *)
  base64 : list Z -> string;
  base64_decode : string -> result (list Z) string;
  show_f64 : Z -> string;
  debug_str : string -> string;                                (* [{:?}] of a string *)
  parse_ops : string -> result (list Cop.InjectOp) string;
  event_json : Event -> result JV string;
  run_attach : string -> string -> option string;              (* launching and waiting; the error *)
  wait_turns : list (bool * bool);   (* time left before a read, and whether it then runs out *)
  log_turns : list bool;             (* whether a read of the log times out *)
  exec_error : string -> list string -> option (bool * string);  (* not found?, and its text *)
  spawn_daemon : string -> option string;
  socket_at : nat -> bool;           (* whether the socket exists at the [n]-th look *)
  waited_ms : nat -> Z;              (* since the deadline was set, after that look *)
  http : list HttpRequest -> HttpRequest -> result (Z * string * string) string;  (* status, its text, body *)
  de_sessions : string -> result (list SessionSummary) string;
  de_session : string -> result SessionSummary string;
  de_screenshot : string -> result (string * Z * Z * Z) string;
  de_windows : string -> result (list WindowInfo) string;
  load_file : string -> result (option Credentials) error;     (* [load_from] *)
  save_file : string -> Credentials -> result unit error;      (* [save_to] *)
  parse_uuid : string -> option string;
  new_uuid : string;
  mint : string -> Z -> option string -> result MintedToken error;
}.

(** ** Commands *)

Inductive CodecArg :=
| AFfv1 | AX264Lossless | AH264Nvenc | AH264Vaapi | AH264Vulkan | AFfv1Vulkan | AH264VulkanLossless | AHevcVulkanLossless.

Definition codec_of (c : CodecArg) : RecordingCodec :=
  match c with
  | AFfv1 => Ffv1 | AX264Lossless => X264Lossless | AH264Nvenc => H264Nvenc | AH264Vaapi => H264Vaapi
  | AH264Vulkan => H264Vulkan | AFfv1Vulkan => Ffv1Vulkan | AH264VulkanLossless => H264VulkanLossless
  | AHevcVulkanLossless => HevcVulkanLossless
  end.

Inductive ModeArg := AFocusedWindow | AWholeDesktop.
Definition mode_of (m : ModeArg) : CaptureMode :=
  match m with AFocusedWindow => FocusedWindow | AWholeDesktop => WholeDesktop end.

Module Rec.
Inductive RecordCmd :=
| Start (name : string) (output : option string) (codec secondary_codec : option CodecArg)
    (mode : option ModeArg) (min_fps : option Z)
| Stop (name : string)
| Status (name : string).
End Rec.

Module View.
Inductive ViewerSub :=
| Start (name : string) (bind : option string) (port : option Z)
| Stop (name : string)
| Status (name : string)
| Token (session : option string) (exp_secs : Z) (sub : option string).
End View.

Module Cmd.
Inductive Cmd :=
| Ls
| New (a : NewArgs)
| Rm (name : string)
| Info (name : string)
| Inject (name ops : string)
| Spawn (name : string) (compositor : bool) (argv : list string)
| Windows (name : string) (tag : option string)
| Tag (name : string) (window_id : Z) (tags : list string)
| Resize (name size : string)
| Screenshot (name : string) (window_id : Z) (output : option string)
| ScreenshotDesktop (name : string) (output : option string)
| Idle (name : string) (quiet_ms timeout_ms : Z)
| Wait (name : string) (app_id title tag : option string) (pid : option Z) (nth : option nat) (timeout_ms : Z)
| Key (name : string) (keycode : Z) (release : bool) (modifiers : Z)
| Click (name : string) (x y button : Z)
| Events (name : string) (topics : list string)
| Logs (name : string) (follow : bool) (settle_ms : Z)
| Attach (name : string)
| Detach (name : string)
| Record_ (action : Rec.RecordCmd)
| Viewer (sub : View.ViewerSub)
| Login (api_key : option string) (base_url : string)
| Serve.
End Cmd.

Record Args := {
  a_socket : option string;
  a_remote : bool;
  a_base_url : option string;
  a_json : bool;
  a_command : Cmd.Cmd;
}.

Definition verb_name (cmd : Cmd.Cmd) : string :=
  match cmd with
  | Cmd.Ls => "ls" | Cmd.New _ => "new" | Cmd.Rm _ => "rm" | Cmd.Info _ => "info" | Cmd.Inject _ _ => "inject"
  | Cmd.Spawn _ _ _ => "spawn" | Cmd.Windows _ _ => "windows" | Cmd.Tag _ _ _ => "tag" | Cmd.Resize _ _ => "resize"
  | Cmd.Screenshot _ _ _ => "screenshot" | Cmd.ScreenshotDesktop _ _ => "screenshot-desktop"
  | Cmd.Idle _ _ _ => "idle" | Cmd.Wait _ _ _ _ _ _ _ => "wait" | Cmd.Key _ _ _ _ => "key" | Cmd.Click _ _ _ _ => "click"
  | Cmd.Events _ _ => "events" | Cmd.Logs _ _ _ => "logs" | Cmd.Attach _ => "attach" | Cmd.Detach _ => "detach"
  | Cmd.Record_ _ => "record" | Cmd.Viewer _ => "viewer" | Cmd.Login _ _ => "login" | Cmd.Serve => "serve"
  end.

Definition supports_remote (cmd : Cmd.Cmd) : bool :=
  match cmd with
  | Cmd.Ls | Cmd.New _ | Cmd.Rm _ | Cmd.Info _ | Cmd.Inject _ _ | Cmd.Screenshot _ _ _
  | Cmd.ScreenshotDesktop _ _ | Cmd.Windows _ _ | Cmd.Login _ _ => true
  | _ => false
  end.

(** [str::split_once] at the first such character. *)
Fixpoint split_once (c : ascii) (s : string) : option (string * string) :=
  match s with
  | EmptyString => None
  | String a s' =>
      if Ascii.eqb a c then Some (EmptyString, s')
      else match split_once c s' with Some (l, r) => Some (String a l, r) | None => None end
  end.

(** The characters of text in UTF-8: the bytes that do not continue one. *)
Definition continues (c : ascii) : bool := in_range 128 191 c.
Definition char_count (s : string) : nat :=
  length (filter (fun c => continues c = false) (String.list_ascii_of_string s)).

(** [chars().take(n).collect()] *)
Fixpoint chars_take (n : nat) (s : string) : string :=
  match s with
  | EmptyString => EmptyString
  | String c s' =>
      if continues c then String c (chars_take n s')
      else match n with O => EmptyString | S n => String c (chars_take n s') end
  end.

Definition truncate (s : string) (max : nat) : string :=
  if (char_count s <=? max)%nat then s else chars_take (max - 1) s +:+ "…".

(** [{:<n}] and [{:>n}] *)
Fixpoint spaces (n : nat) : string := match n with O => "" | S n => " " +:+ spaces n end.
Definition pad_right (n : nat) (s : string) : string := s +:+ spaces (n - char_count s).
Definition pad_left (n : nat) (s : string) : string := spaces (n - char_count s) +:+ s.

Definition show_bool (b : bool) : string := if b then "true" else "false".

(** [v.join(sep)] *)
Definition join_with (sep : string) (l : list string) : string := String.concat sep l.

Definition redact_key (api_key : string) : string :=
  if (8 <? char_count api_key)%nat then chars_take 8 api_key +:+ "…" else chars_take 8 api_key.

(** The errors of [u32::from_str]. *)
Definition parse_u32 (s : string) : result Z error :=
  match parse_unsigned 32 s with
  | Some n => Ok n
  | None =>
      let body := match s with String "+" s' => s' | _ => s end in
      Err (Other (if s =? "" then "cannot parse integer from empty string"
                  else if (body =? "") || negb (all_chars (in_range 48 57) body) then "invalid digit found in string"
                  else "number too large to fit in target type"))
  end.

Definition parse_size (s : string) : result (Z * Z) error :=
  match split_once "x" s with
  | None => Err (Other ("expected WxH, got " +:+ s))
  | Some (w, h) =>
      let? width := parse_u32 w in
      let? height := parse_u32 h in
      Ok (width, height)
  end.

(** ** Paths of the environment *)

(** *** Envelopes *)

Definition success_envelope (verb : string) (data : JV) : JV :=
  obj [("ok", jb true); ("verb", js verb); ("data", data)].

Definition error_envelope (verb code message : string) : JV :=
  obj [("ok", jb false); ("verb", js verb);
       ("error", obj [("code", js code); ("message", js message); ("detail", Json.VNull)])].

Definition summary_json (s : SessionSummary) : JV :=
  obj [("name", js (ss_name s)); ("width", jn (ss_width s)); ("height", jn (ss_height s));
       ("created_at", js (ss_created_at s)); ("pid", jn (ss_pid s)); ("attached", jb (ss_attached s))].

Definition rect_json (r : Rect) : JV :=
  obj [("x", jn (rect_x r)); ("y", jn (rect_y r)); ("width", jn (rect_width r)); ("height", jn (rect_height r))].

Definition window_json (w : WindowInfo) : JV :=
  obj [("id", jn (wi_id w)); ("app_id", js (wi_app_id w)); ("title", js (wi_title w));
       ("tags", Json.VArray (js <$> wi_tags w)); ("geometry", rect_json (wi_geometry w));
       ("focused", jb (wi_focused w)); ("pid", jn (wi_pid w)); ("content_rect", jopt rect_json (wi_content_rect w))].

Definition filter_windows_by_tag (windows : list WindowInfo) (tag : option string) : list WindowInfo :=
  match tag with
  | None => windows
  | Some t => List.filter (fun w => existsb (fun x => x =? t) (wi_tags w)) windows
  end.

Section host.
Context `{Host}.

Definition default_socket_path : result string error :=
  match var "XDG_RUNTIME_DIR" with
  | None => Err (Other "XDG_RUNTIME_DIR not set — pass --socket")
  | Some runtime => Ok (join runtime "waymux.sock")
  end.

Definition recordings_dir : result string error :=
  match var "HOME" with
  | None | Some EmptyString => Err (Other "HOME not set — cannot resolve the recordings directory")
  | Some home => Ok (join home ".local/share/waymux/recordings")
  end.

Definition validate_recording_path (path : string) : result unit error :=
  if negb (is_absolute path) then Err (bad_request ("recording path must be absolute (got " +:+ path +:+ ")"))
  else if existsb (fun c => (c =? "..")%string) (path_components path)
  then Err (bad_request ("recording path must not contain '..' (got " +:+ path +:+ ")"))
  else
    let? allowed := recordings_dir in
    if negb (path_inside allowed path)
    then Err (bad_request ("recording path must be inside " +:+ allowed +:+ " (got " +:+ path +:+ ")"))
    else Ok ().

(** [path.components().count() > 1] *)
Definition concrete (p : string) : bool :=
  let first := match split_on "/" p with "" :: _ | "." :: _ => 1%nat | _ => 0%nat end in
  (1 <? (if (p =? "")%string then 0 else first) + length (path_components p))%nat.

Definition beside (name : string) : option string :=
  match current_exe with
  | Some exe => match parent exe with Some d => Some (join d name) | None => None end
  | None => None
  end.

Definition daemon_binary_path : string :=
  match var "WAYMUXD_BIN" with
  | Some p => p
  | None =>
      match match beside "waymuxd" with Some s => if is_file s then Some s else None | None => None end with
      | Some s => s
      | None =>
          match var "PATH" with
          | Some p => default "waymuxd" (List.find is_file ((fun d => join d "waymuxd") <$> split_on ":" p))
          | None => "waymuxd"
          end
      end
  end.

Definition autospawn_disabled : bool :=
  match var "WAYMUX_NO_AUTOSPAWN" with Some v => negb (v =? "") | None => false end.

Definition daemon_missing_error (bin : string) : error :=
  Other ("waymuxd binary not found at " +:+ bin +:+ " — build it with `cargo build -p waymux-daemon` (or install it on "
         +:+ "$PATH, or set $WAYMUXD_BIN to its location)").

Definition exec_daemon (extra_args : list string) : result unit ending :=
  let bin := daemon_binary_path in
  if concrete bin && negb (is_file bin) then Err (Failed (daemon_missing_error bin))
  else match exec_error bin extra_args with
       | None => Err (Becomes bin extra_args)
       | Some (true, _) => Err (Failed (daemon_missing_error bin))
       | Some (false, e) => Err (Failed (Other ("exec " +:+ bin +:+ ": " +:+ e)))
       end.

Definition AUTOSPAWN_TIMEOUT : Z := 3000.
Definition AUTOSPAWN_POLL : Z := 25.

(** The wait for the socket, from the [n]-th look on. *)
Fixpoint await_socket (fuel n : nat) (socket : string) : option (result unit error) :=
  match fuel with
  | O => None
  | S fuel =>
      if socket_at n then Some (Ok ())
      else if (AUTOSPAWN_TIMEOUT <=? waited_ms n)%Z
      then Some (Err (Other ("auto-spawned waymuxd did not create the control socket " +:+ socket +:+ " within 3s — "
             +:+ "check the daemon (run `waymux serve` in another terminal to see its logs, "
             +:+ "or set $WAYMUX_NO_AUTOSPAWN=1 and start waymuxd yourself)")))
      else await_socket fuel (S n) socket
  end.

(** Looks are at least the poll interval apart. *)
Definition spawn_fuel : nat := (Z.to_nat (AUTOSPAWN_TIMEOUT / AUTOSPAWN_POLL) + 2)%nat.

(** What is started when the socket is absent: its program and arguments. *)
Definition ensure_daemon_or_spawn (socket : string) : list (string * list string) * option (result unit error) :=
  if exists_at socket then ([], Some (Ok ()))
  else if autospawn_disabled then ([], Some (Ok ()))
  else
    let bin := daemon_binary_path in
    if concrete bin && negb (is_file bin) then ([], Some (Err (daemon_missing_error bin)))
    else match spawn_daemon bin with
         | Some _ => ([], Some (Err (Other ("auto-spawning waymuxd from " +:+ bin))))
         | None => ([(bin, [])], await_socket spawn_fuel 0 socket)
         end.

(** ** Credentials *)

Definition DEFAULT_PROFILE : string := "default".
Definition default_profile (c : Credentials) : option Profile := c !! DEFAULT_PROFILE.
Definition set_default (p : Profile) (c : Credentials) : Credentials := <[DEFAULT_PROFILE := p]> c.

Definition credentials_path : result string error :=
  match var "WAYMUX_CREDENTIALS" with
  | Some p => Ok p
  | None =>
      let? dir := match var "XDG_CONFIG_HOME" with
                  | Some xdg => Ok xdg
                  | None => match var "HOME" with
                            | Some home => Ok (join home ".config")
                            | None => Err (Other "neither XDG_CONFIG_HOME nor HOME set; cannot locate credentials")
                            end
                  end in
      Ok (join (join dir "waymux") "credentials.toml")
  end.
End host.

(** ** Transports *)

(** What the routable commands ask for, over a state of the transport's own. *)
Record Transport (S : Type) := {
  list_sessions : Eff S ending (list SessionSummary);
  create_session : NewArgs -> Z -> Z -> Eff S ending SessionSummary;
  destroy_session : string -> Eff S ending unit;
  screenshot : string -> option Z -> Eff S ending ScreenshotResult;
  list_windows : string -> Eff S ending (list WindowInfo);
  inject : string -> list Cop.InjectOp -> Eff S ending unit;
}.
Arguments list_sessions {S}. Arguments create_session {S}. Arguments destroy_session {S}.
Arguments screenshot {S}. Arguments list_windows {S}. Arguments inject {S}.

(** Both transports look a session up in the list. *)
Definition get_session {S} (t : Transport S) (name : string) : Eff S ending (option SessionSummary) :=
  all ← list_sessions t;
  mret (List.find (fun s => ss_name s =? name) all).

(** *** The local one *)

Definition summary_of (s : SessionInfo) : SessionSummary :=
  {| ss_name := si_name s; ss_width := si_width s; ss_height := si_height s; ss_created_at := "";
     ss_pid := si_pid s; ss_attached := si_attached s |}.

Definition create_params (a : NewArgs) (width height : Z) : CreateSessionParams :=
  {| csp_name := na_name a; csp_width := width; csp_height := height; csp_scale := na_scale a; csp_env := ∅;
     csp_share_clipboard := false; csp_share_audio := na_share_audio a; csp_mem_cap_mb := na_mem_cap_mb a;
     csp_cpu_cap_pct := na_cpu_cap_pct a; csp_disk_quota_mb := na_disk_quota_mb a; csp_fd_limit := na_fd_limit a;
     csp_api_key_id := na_api_key_id a; csp_codec := None; csp_gpu_type := None |}.

Definition wire_op (op : Cop.InjectOp) : Op.InjectOp :=
  match op with
  | Cop.Key keycode release modifiers => Op.Key keycode (if release then Released else Pressed) modifiers
  | Cop.Pointer x y button state =>
      let st := if (state =? "press") || (state =? "pressed") then Pressed else Released in
      Op.Pointer x y button st 0 0 None false 0
  end.

Section local.
Context `{Wire} `{Peer}.

Definition LocalTransport : Transport Connection := {|
  list_sessions := l ← request_as (T := list SessionInfo) "list_sessions result" Req.ListSessions; mret (summary_of <$> l);
  create_session a width height :=
    r ← request_as (T := CreateSessionResult) "create_session result" (Req.CreateSession (create_params a width height));
    mret {| ss_name := csr_name r; ss_width := width; ss_height := height; ss_created_at := "";
            ss_pid := 0; ss_attached := false |};
  destroy_session name := request (Req.DestroySession name) ;; mret ();
  screenshot name window_id :=
    shot ← request_as (T := SessionCtlScreenshot) "screenshot"
             (match window_id with
              | Some _ => Req.Screenshot name window_id Png
              | None => Req.ScreenshotDesktop name Png
              end);
    mret {| sh_png := scs_png shot; sh_width := scs_width shot; sh_height := scs_height shot;
            sh_window_id := default 0 window_id |};
  list_windows name := request_as (T := list WindowInfo) "list_windows result" (Req.ListWindows name);
  inject name ops := request (Req.InjectBatch name (wire_op <$> ops)) ;; mret ();
|}.
End local.

(** *** The remote one *)

Section remote.
Context `{Host}.

Record Remote := { rm_base_url : string; rm_api_key : string; rm_log : list HttpRequest }.

(** [trim_end_matches('/')] *)
Definition trim_end_slash (s : string) : string :=
  String.string_of_list_ascii (rev (String.list_ascii_of_string
    (trim_start_char "/" (String.string_of_list_ascii (rev (String.list_ascii_of_string s)))))).

Definition remote_new (base_url api_key : string) : Remote :=
  {| rm_base_url := trim_end_slash base_url; rm_api_key := api_key; rm_log := [] |}.

(** The error for a status that is not a success. *)
Definition check (status : Z) (text body : string) : result unit ending :=
  if ((200 <=? status) && (status <? 300))%Z then Ok ()
  else Err (Failed (Other (if (status =? 401)%Z then "not authenticated, run `waymux login`"
                           else if (status =? 402)%Z then "quota exceeded"
                           else if (status =? 404)%Z then "no such session"
                           else if (status =? 503)%Z then "daemon unavailable, retry"
                           else "HTTP " +:+ text +:+ ": " +:+ body))).

Definition call (method path : string) (body : option JV) : Eff Remote ending string := fun r =>
  let q := {| hq_method := method; hq_url := rm_base_url r +:+ path; hq_key := rm_api_key r; hq_body := body |} in
  let r' := {| rm_base_url := rm_base_url r; rm_api_key := rm_api_key r; rm_log := rm_log r ++ [q] |} in
  match http (rm_log r) q with
  | Err _ => (r', Err (Failed (Other (method +:+ " " +:+ path))))
  | Ok (status, text, answer) => (r', match check status text answer with Ok _ => Ok answer | Err e => Err e end)
  end.

(** A body read as JSON, with the context of a failure. *)
Definition decoded {A} (what : string) (r : result A string) : Eff Remote ending A :=
  match r with Ok a => mret a | Err _ => fail (Other what) end.

Definition RemoteTransport : Transport Remote := {|
  list_sessions := b ← call "GET" "/sessions" None; decoded "decode /sessions body" (de_sessions b);
  create_session a width height :=
    b ← call "POST" "/sessions" (Some (obj (("name", js (na_name a)) :: ("width", jn width) :: ("height", jn height)
          :: match na_mem_cap_mb a with Some n => [("mem_cap_mb", jn n)] | None => [] end)));
    decoded "decode create body" (de_session b);
  destroy_session name := call "DELETE" ("/sessions/" +:+ name) None ;; mret ();
  screenshot name window_id :=
    b ← call "POST" ("/sessions/" +:+ name +:+ "/screenshot")
          (Some (obj (match window_id with Some n => [("window_id", jn n)] | None => [] end ++ [("format", js "png")])));
    s ← decoded "decode screenshot body" (de_screenshot b);
    let '(png_b64, width, height, window) := s in
    png ← decoded "decode png_b64" (base64_decode png_b64);
    mret {| sh_png := png; sh_width := width; sh_height := height; sh_window_id := window |};
  list_windows name :=
    b ← call "GET" ("/sessions/" +:+ name +:+ "/windows") None; decoded "decode windows body" (de_windows b);
  inject name ops :=
    call "POST" ("/sessions/" +:+ name +:+ "/inject") (Some (obj [("ops", Json.VArray (op_json <$> ops))])) ;; mret ();
|}.
End remote.

(** ** Output *)

Inductive Line :=
| JsonLine (v : JV)
| TextLine (s : string)
| Bytes (l : list Z).

(** A running command: its transport, what it has printed on standard output and the
    files it has written. *)
Record Proc (S : Type) := {
  pr_t : S;
  pr_out : list Line;
  pr_files : list (string * list Z);
}.
Arguments Build_Proc {S}. Arguments pr_t {S}. Arguments pr_out {S}. Arguments pr_files {S}.
#[global] Instance eta_Proc S : Eta (Proc S) := fun p => Build_Proc (pr_t p) (pr_out p) (pr_files p).

Section commands.
Context `{Host} {S : Type}.
Abbreviation P := (Eff (Proc S) ending).

Definition on {A} (m : Eff S ending A) : P A := fun p =>
  let '(t, r) := m (pr_t p) in (p <| pr_t := t |>, r).

Definition emit (l : Line) : P unit := fun p => (p <| pr_out ::= fun o => o ++ [l] |>, Ok ()).
Definition print_success (verb : string) (data : JV) : P unit := emit (JsonLine (success_envelope verb data)).
Definition println (s : string) : P unit := emit (TextLine s).

Fixpoint print_lines (l : list string) : P unit :=
  match l with [] => mret () | s :: l => println s ;; print_lines l end.

(** The envelope under [--json], the lines otherwise. *)
Definition say (json : bool) (verb : string) (data : JV) (text : list string) : P unit :=
  if json then print_success verb data else print_lines text.

Definition fallible {A} (r : result A error) : P A :=
  match r with Ok a => mret a | Err e => fail e end.

Definition write_to (path : string) (bytes : list Z) : P unit := fun p =>
  match write_file path bytes with
  | Some e => (p, Err (Failed (Other e)))
  | None => (p <| pr_files ::= fun l => l ++ [(path, bytes)] |>, Ok ())
  end.

(** *** Routable commands *)

Definition print_screenshot_envelope (verb : string) (png : list Z) (w h : Z) : P unit :=
  print_success verb (obj [("width", jn w); ("height", jn h); ("png_b64", js (base64 png))]).

Definition write_screenshot (output : string) (png : list Z) : P unit :=
  if output =? "-" then emit (Bytes png) else write_to output png.

Definition emit_screenshot (verb : string) (shot : ScreenshotResult) (output : option string) (json : bool) : P unit :=
  if json then
    print_screenshot_envelope verb (sh_png shot) (sh_width shot) (sh_height shot) ;;
    match output with
    | Some out => if out =? "-" then mret () else write_to out (sh_png shot)
    | None => mret ()
    end
  else
    match output with
    | None => fail (bad_request ("-o/--output is required without --json (pass `-o <file>`, `-o -` for stdout, "
                                 +:+ "or add --json to receive the PNG as data.png_b64)"))
    | Some out => write_screenshot out (sh_png shot)
    end.

Definition session_row (s : SessionSummary) : string :=
  pad_right 20 (ss_name s) +:+ "  " +:+ pad_left 8 (pretty (ss_pid s)) +:+ "  "
  +:+ pad_left 12 (pretty (ss_width s) +:+ "x" +:+ pretty (ss_height s)) +:+ "  " +:+ pad_left 8 (show_bool (ss_attached s)).

Definition sessions_text (l : list SessionSummary) : list string :=
  match l with
  | [] => ["(no sessions)"]
  | _ => (pad_right 20 "NAME" +:+ "  " +:+ pad_left 8 "PID" +:+ "  " +:+ pad_left 12 "SIZE" +:+ "  " +:+ pad_left 8 "ATTACHED")
         :: (session_row <$> l)
  end.

Definition info_json (s : SessionSummary) : JV :=
  obj ([("name", js (ss_name s)); ("width", jn (ss_width s)); ("height", jn (ss_height s)); ("attached", jb (ss_attached s))]
       ++ (if ss_created_at s =? "" then [] else [("created_at", js (ss_created_at s))])
       ++ (if (ss_pid s =? 0)%Z then [] else [("pid", jn (ss_pid s))])).

Definition info_text (s : SessionSummary) : list string :=
  ["name      " +:+ ss_name s; "size      " +:+ pretty (ss_width s) +:+ "x" +:+ pretty (ss_height s)]
  ++ (if ss_created_at s =? "" then [] else ["created   " +:+ ss_created_at s])
  ++ (if (ss_pid s =? 0)%Z then [] else ["pid       " +:+ pretty (ss_pid s)])
  ++ ["attached  " +:+ show_bool (ss_attached s)].

Definition window_row (id app_id title tags focus : string) : string :=
  pad_right 6 id +:+ "  " +:+ pad_right 20 app_id +:+ "  " +:+ pad_right 30 title +:+ "  " +:+ pad_right 15 tags
  +:+ "  " +:+ pad_right 6 focus.

Definition print_windows (windows : list WindowInfo) : list string :=
  match windows with
  | [] => ["(no windows)"]
  | _ => window_row "ID" "APP_ID" "TITLE" "TAGS" "FOCUS"
         :: ((fun w => window_row (pretty (wi_id w)) (truncate (wi_app_id w) 20) (truncate (wi_title w) 30)
                        (truncate (join_with "," (wi_tags w)) 15) (show_bool (wi_focused w))) <$> windows)
  end.

Definition ops_error (e : string) : error :=
  let nl := String "010" "" in
  let q := fun s => String "034" (s +:+ String "034" "") in
  bad_request ("--ops must be a JSON array of inject ops (" +:+ e +:+ "). Expected shapes:" +:+ nl
    +:+ "  {" +:+ q "type" +:+ ":" +:+ q "key" +:+ "," +:+ q "keycode" +:+ ":<u32>," +:+ q "release" +:+ ":<bool=false>,"
    +:+ q "modifiers" +:+ ":<u32=0>}" +:+ nl
    +:+ "  {" +:+ q "type" +:+ ":" +:+ q "pointer" +:+ "," +:+ q "x" +:+ ":<f64>," +:+ q "y" +:+ ":<f64>,"
    +:+ q "button" +:+ ":<u32=0>," +:+ q "state" +:+ ":" +:+ q "press" +:+ "|" +:+ q "release" +:+ "}").

Definition run_new (t : Transport S) (a : NewArgs) (json : bool) : P unit :=
  size ← fallible (parse_size (na_size a));
  s ← on (create_session t a size.1 size.2);
  say json "new" (obj [("name", js (ss_name s)); ("width", jn (ss_width s)); ("height", jn (ss_height s))])
    [ss_name s +:+ " (" +:+ pretty (ss_width s) +:+ "x" +:+ pretty (ss_height s) +:+ ")"].

Definition run_inject (t : Transport S) (name ops : string) (json : bool) : P unit :=
  parsed ← fallible (match parse_ops ops with Ok l => Ok l | Err e => Err (ops_error e) end);
  on (inject t name parsed) ;;
  say json "inject" (obj [("ok", jb true)]) ["injected " +:+ pretty (length parsed) +:+ " op(s) into " +:+ name].

Definition run_with_transport (cmd : Cmd.Cmd) (t : Transport S) (json : bool) : P unit :=
  match cmd with
  | Cmd.Ls =>
      sessions ← on (list_sessions t);
      say json "ls" (obj [("sessions", Json.VArray (summary_json <$> sessions))]) (sessions_text sessions)
  | Cmd.New a => run_new t a json
  | Cmd.Rm name =>
      on (destroy_session t name) ;;
      say json "rm" (obj [("name", js name); ("destroyed", jb true)]) ["destroyed " +:+ name]
  | Cmd.Info name =>
      found ← on (get_session t name);
      match found with
      | None => fail (not_found ("no such session: " +:+ name))
      | Some s => say json "info" (info_json s) (info_text s)
      end
  | Cmd.Inject name ops => run_inject t name ops json
  | Cmd.Screenshot name window_id output =>
      shot ← on (screenshot t name (Some window_id));
      emit_screenshot "screenshot" shot output json
  | Cmd.ScreenshotDesktop name output =>
      shot ← on (screenshot t name None);
      emit_screenshot "screenshot-desktop" shot output json
  | Cmd.Windows name tag =>
      windows ← on (list_windows t name);
      let windows := filter_windows_by_tag windows tag in
      say json "windows" (obj [("windows", Json.VArray (window_json <$> windows))]) (print_windows windows)
  | _ => fail (Other "internal: unexpected subcommand for transport")
  end.
End commands.

(** *** Local-only commands *)

Section local_only.
Context `{Host} `{Wire} `{Peer}.
Abbreviation P := (Eff (Proc Connection) ending).

Definition ask (m : Req.RequestMethod) : P unit := on (request m) ;; mret ().
Definition ask_as {T} `{!Serde T} (what : string) (m : Req.RequestMethod) : P T := on (request_as what m).

Definition run_spawn (name : string) (compositor : bool) (argv : list string) (json : bool) : P unit :=
  r ← ask_as (T := SpawnResult) "spawn result" (Req.Spawn name argv ∅ compositor);
  say json "spawn" (obj [("pid", jn (spr_pid r))]) ["pid " +:+ pretty (spr_pid r)].

Definition run_resize (name size : string) (json : bool) : P unit :=
  wh ← fallible (parse_size size);
  ask (Req.Resize name wh.1 wh.2) ;;
  say json "resize" (obj [("name", js name); ("width", jn wh.1); ("height", jn wh.2)])
    ["resized " +:+ name +:+ " to " +:+ pretty wh.1 +:+ "x" +:+ pretty wh.2].

Definition run_tag (name : string) (window_id : Z) (tags : list string) (json : bool) : P unit :=
  ask (Req.TagWindow name window_id tags) ;;
  say json "tag" (obj [("name", js name); ("window_id", jn window_id); ("tags", Json.VArray (js <$> tags))])
    ["tagged window " +:+ pretty window_id +:+ " in " +:+ name +:+ ": " +:+ join_with ", " tags].

Definition exit {A} (code : Z) : P A := lift (Err (Exits code)).

Definition run_idle_cmd (name : string) (quiet_ms timeout_ms : Z) (json : bool) : P unit :=
  r ← ask_as (T := WaitForIdleResult) "wait_for_idle" (Req.WaitForIdle name quiet_ms timeout_ms);
  if json then
    print_success "idle" (obj [("idle", jb (wfi_idle r))]) ;;
    (if wfi_idle r then mret () else exit 1)
  else if wfi_idle r then println "idle" else exit 1.

(** *** [wait_for_window] *)

Definition matches (app_id title tag : option string) (pid : option Z) (w : WindowInfo) : bool :=
  match app_id with Some a => wi_app_id w =? a | None => true end
  && match title with Some t => wi_title w =? t | None => true end
  && match tag with Some t => existsb (fun x => x =? t) (wi_tags w) | None => true end
  && match pid with Some p => (wi_pid w =? p)%Z | None => true end.

Definition resolve (sel : WindowInfo -> bool) (nth : option nat) (windows : list WindowInfo) : option WindowInfo :=
  let filtered := List.filter sel windows in
  match nth with None => head filtered | Some n => filtered !! n end.

(** The session a window event is about. *)
Definition event_window (e : Event) : option string :=
  match ev_body e with
  | Ev.WindowCreated n _ _ _ _ | Ev.WindowDestroyed n _ | Ev.WindowChanged n _ _ => Some n
  | _ => None
  end.

Abbreviation N := (Eff Connection ending).

Definition current_windows (name : string) : N (list WindowInfo) := request_as "list_windows" (Req.ListWindows name).

(** The loop over the events; a read that brings nothing runs into the deadline. *)
Fixpoint wait_loop (turns : list (bool * bool)) (name : string) (sel : WindowInfo -> bool) (nth : option nat) :
    N (option WindowInfo) :=
  match turns with
  | [] => lift (Err Blocks)
  | (remaining, lapsed) :: turns =>
      if negb remaining || lapsed then mret None
      else
        eff_match read_raw_frame
          (fun frame =>
             match from_slice (T := Event) (drop 4 frame) with
             | Err _ => wait_loop turns name sel nth
             | Ok ev =>
                 match event_window ev with
                 | Some n =>
                     if n =? name then
                       windows ← current_windows name;
                       match resolve sel nth windows with
                       | Some w => mret (Some w)
                       | None => wait_loop turns name sel nth
                       end
                     else wait_loop turns name sel nth
                 | None => wait_loop turns name sel nth
                 end
             end)
          (fun _ => mret None)
  end.

Definition wait_for_window (name : string) (sel : WindowInfo -> bool) (nth : option nat) : N (option WindowInfo) :=
  request (Req.Subscribe ["windows"]) ;;
  windows ← current_windows name;
  match resolve sel nth windows with
  | Some w => mret (Some w)
  | None => wait_loop wait_turns name sel nth
  end.

Definition run_wait (name : string) (sel : WindowInfo -> bool) (nth : option nat) (json : bool) : P unit :=
  matched ← on (wait_for_window name sel nth);
  match matched with
  | Some w =>
      say json "wait" (obj [("id", jn (wi_id w)); ("app_id", js (wi_app_id w)); ("title", js (wi_title w))])
        [pretty (wi_id w) +:+ String "009" (wi_app_id w +:+ String "009" (wi_title w))]
  | None => (if json then print_success "wait" Json.VNull else mret ()) ;; exit 1
  end.

(** *** Input *)

Definition run_key (name : string) (keycode : Z) (release : bool) (modifiers : Z) (json : bool) : P unit :=
  ask (Req.InjectKey name keycode (if release then Released else Pressed) modifiers) ;;
  say json "key" (obj [("ok", jb true)])
    ["sent keycode " +:+ pretty keycode +:+ " (" +:+ (if release then "release" else "press") +:+ ") to " +:+ name].

Definition run_click (name : string) (x y button : Z) (json : bool) : P unit :=
  (if (button =? 0)%Z then ask (Req.InjectPointer name x y 0 Released 0 0 None false)
   else ask (Req.InjectPointer name x y button Pressed 0 0 None false) ;;
        ask (Req.InjectPointer name x y button Released 0 0 None false)) ;;
  say json "click" (obj [("ok", jb true)])
    ["clicked button " +:+ pretty button +:+ " at (" +:+ show_f64 x +:+ ", " +:+ show_f64 y +:+ ") in " +:+ name].

(** *** Streams *)

(** A frame of the log, when it is a line of this session. *)
Definition log_line_of (name : string) (frame : list Z) : option (string * string) :=
  match from_slice (T := Event) (drop 4 frame) with
  | Ok e => match ev_body e with Ev.Log n stream text => if n =? name then Some (stream, text) else None | _ => None end
  | Err _ => None
  end.

Definition print_log (json : bool) (stream text : string) : P unit :=
  if json then emit (JsonLine (obj [("stream", js stream); ("text", js text)]))
  else println ("[" +:+ stream +:+ "] " +:+ text).

Fixpoint logs_loop (turns : list bool) (name : string) (follow json : bool) : P unit :=
  match turns with
  | [] => lift (Err Blocks)
  | lapsed :: turns =>
      if negb follow && lapsed then mret ()
      else
        eff_match (on read_raw_frame)
          (fun frame =>
             match log_line_of name frame with
             | Some (stream, text) => print_log json stream text ;; logs_loop turns name follow json
             | None => logs_loop turns name follow json
             end)
          (fun e => match e with Blocks => if follow then lift (Err Blocks) else mret () | _ => lift (Err e) end)
  end.

Definition run_logs (name : string) (follow json : bool) : P unit :=
  ask (Req.Subscribe ["logs:" +:+ name]) ;;
  logs_loop log_turns name follow json.

Definition event_session (e : Event) : string :=
  match ev_body e with
  | Ev.SessionCreated n | Ev.SessionDestroyed n _ | Ev.ChildExited n _ _ | Ev.SessionCrashed n _ _ | Ev.Occluded n _
  | Ev.WindowCreated n _ _ _ _ | Ev.WindowDestroyed n _ | Ev.WindowChanged n _ _ | Ev.Damage n _ _ | Ev.Log n _ _ => n
  end.

(** Every frame is pending or takes at least four bytes of what was received. *)
Fixpoint events_loop (fuel : nat) (name : string) : P unit :=
  match fuel with
  | O => lift (Err Blocks)
  | Datatypes.S fuel =>
      frame ← on read_raw_frame;
      match from_slice (T := Event) (drop 4 frame) with
      | Err _ => events_loop fuel name
      | Ok ev =>
          if event_session ev =? name then
            line ← fallible (match event_json ev with Ok v => Ok v | Err e => Err (Other e) end);
            emit (JsonLine line) ;; events_loop fuel name
          else events_loop fuel name
      end
  end.

Definition run_events (name : string) (topics : list string) : P unit :=
  let stream : P unit := fun p =>
    events_loop (Datatypes.S (length (cn_pending (pr_t p)) + length (cn_in (pr_t p)))) name p in
  ask (Req.Subscribe topics) ;; stream.

(** *** Attaching *)

Definition find_attach_binary : string :=
  match beside "waymux-attach" with
  | Some candidate => if exists_at candidate then candidate else "waymux-attach"
  | None => "waymux-attach"
  end.

Definition run_attach_cmd (name : string) (json : bool) : P unit :=
  r ← ask_as (T := AttachResult) "attach result" (Req.Attach name);
  if json then print_success "attach" (obj [("attach_socket_path", js (ar_attach_socket_path r))])
  else match run_attach find_attach_binary (ar_attach_socket_path r) with
       | None => mret ()
       | Some e => fail (Other e)
       end.

Definition run_detach (name : string) (json : bool) : P unit :=
  ask (Req.Detach name) ;;
  say json "detach" (obj [("detached", jb true)]) ["detached " +:+ name].

(** *** Recording and viewing *)

Definition record_start_data (r : SessionCtlRecordStarted) : JV :=
  obj (("path", js (scr_path r)) :: match scr_secondary_path r with Some s => [("secondary_path", js s)] | None => [] end).

Definition run_record_start (name : string) (output : option string) (codec secondary_codec : option CodecArg)
    (mode : option ModeArg) (min_fps : option Z) (json : bool) : P unit :=
  fallible (match output with Some p => validate_recording_path p | None => Ok () end) ;;
  r ← ask_as (T := SessionCtlRecordStarted) "record_start"
        (Req.RecordStart name output (codec_of <$> codec) (codec_of <$> secondary_codec) (mode_of <$> mode) min_fps);
  say json "record" (record_start_data r)
    (scr_path r :: match scr_secondary_path r with Some s => [s] | None => [] end).

Definition record_status_text (r : RecordStatusResponse) : string :=
  if rsr_recording r then
    "recording: yes" +:+ match rsr_path r with Some p => "  path=" +:+ p | None => "" end
    +:+ match rsr_secondary_path r with Some p => "  secondary_path=" +:+ p | None => "" end
    +:+ match rsr_codec r with Some c => "  codec=" +:+ c | None => "" end
  else "recording: no".

Definition run_record (action : Rec.RecordCmd) (json : bool) : P unit :=
  match action with
  | Rec.Start name output codec secondary_codec mode min_fps =>
      run_record_start name output codec secondary_codec mode min_fps json
  | Rec.Stop name =>
      ask (Req.RecordStop name) ;; say json "record" (obj [("stopped", jb true)]) ["recording stopped"]
  | Rec.Status name =>
      r ← ask_as (T := RecordStatusResponse) "record_status" (Req.RecordStatus name);
      say json "record" (obj [("recording", jb (rsr_recording r)); ("path", jopt js (rsr_path r));
                              ("secondary_path", jopt js (rsr_secondary_path r)); ("codec", jopt js (rsr_codec r))])
        [record_status_text r]
  end.

Definition run_viewer (sub : View.ViewerSub) (json : bool) : P unit :=
  match sub with
  | View.Start name bind port =>
      r ← ask_as (T := ViewerStarted) "viewer_start" (Req.ViewerStart name bind port);
      say json "viewer" (obj [("url", js (vs_url r))]) [vs_url r]
  | View.Stop name =>
      ask (Req.ViewerStop name) ;;
      say json "viewer" (obj [("stopped", jb true)]) ["viewer stopped for " +:+ name]
  | View.Status name =>
      r ← ask_as (T := ViewerStatusResponse) "viewer_status" (Req.ViewerStatus name);
      say json "viewer" (obj [("url", jopt js (vsr_url r))]) (match vsr_url r with Some u => [u] | None => [] end)
  | View.Token _ _ _ => lift (Err Panics)
  end.

Definition local_command (cmd : Cmd.Cmd) (json : bool) : P unit :=
  match cmd with
  | Cmd.Spawn name compositor argv => run_spawn name compositor argv json
  | Cmd.Resize name size => run_resize name size json
  | Cmd.Tag name window_id tags => run_tag name window_id tags json
  | Cmd.Idle name quiet_ms timeout_ms => run_idle_cmd name quiet_ms timeout_ms json
  | Cmd.Wait name app_id title tag pid nth _ => run_wait name (matches app_id title tag pid) nth json
  | Cmd.Key name keycode release modifiers => run_key name keycode release modifiers json
  | Cmd.Click name x y button => run_click name x y button json
  | Cmd.Logs name follow _ => run_logs name follow json
  | Cmd.Events name topics => run_events name topics
  | Cmd.Attach name => run_attach_cmd name json
  | Cmd.Detach name => run_detach name json
  | Cmd.Record_ action => run_record action json
  | Cmd.Viewer sub => run_viewer sub json
  | Cmd.Ls | Cmd.New _ | Cmd.Rm _ | Cmd.Info _ | Cmd.Inject _ _ | Cmd.Screenshot _ _ _
  | Cmd.ScreenshotDesktop _ _ | Cmd.Windows _ _ | Cmd.Login _ _ | Cmd.Serve => lift (Err Panics)
  end.

(** ** Routing *)

(** What a command did: printed, wrote to files, sent over HTTP, started, and how it ended. *)
Record Outcome := {
  oc_out : list Line;
  oc_files : list (string * list Z);
  oc_http : list HttpRequest;
  oc_started : list (string * list string);
  oc_end : result unit ending;
}.

Definition ended (e : result unit ending) : Outcome :=
  {| oc_out := []; oc_files := []; oc_http := []; oc_started := []; oc_end := e |}.

Definition run_login (api_key : option string) (base_url : string) (json : bool) : Outcome :=
  match api_key with
  | None => ended (Err (Failed (Other ("browser flow not yet implemented — pass --api-key <KEY> for the MVP. "
                                       +:+ "Get a key from <" +:+ base_url +:+ ">"))))
  | Some key =>
      if Client.trim key =? "" then ended (Err (Failed (Other "--api-key cannot be empty")))
      else
        let saved :=
          let? path := credentials_path in
          let? creds := load_file path in
          let? _ := save_file path (set_default {| pf_base_url := base_url; pf_api_key := key |} (default ∅ creds)) in
          Ok path in
        match saved with
        | Err e => ended (Err (Failed e))
        | Ok path =>
            {| oc_out := [if json then JsonLine (success_envelope "login" (obj [("profile", js "default"); ("base_url", js base_url)]))
                          else TextLine ("Logged in to " +:+ base_url +:+ " as " +:+ redact_key key
                                         +:+ " (credentials: " +:+ path +:+ ")")];
               oc_files := []; oc_http := []; oc_started := []; oc_end := Ok () |}
        end
  end.

Definition build_remote_transport (args_base_url : option string) : result Remote error :=
  let? path := credentials_path in
  let? creds := load_file path in
  match creds with
  | None => Err (Other "No credentials. Run `waymux login --api-key <KEY>` first.")
  | Some creds =>
      match default_profile creds with
      | None => Err (Other ("Credentials at " +:+ path +:+ " have no [default] profile"))
      | Some profile => Ok (remote_new (default (pf_base_url profile) args_base_url) (pf_api_key profile))
      end
  end.

Definition token_lines (m : MintedToken) : list string :=
  ["token:          " +:+ mt_token m; "public_key:     " +:+ mt_public_key m; "vm_session_id:  " +:+ mt_vm_session_id m;
   "expires_at:     " +:+ pretty (mt_expires_at m) +:+ " (unix seconds)"; "";
   "Configure the session to trust this token by exporting before launch:";
   "  WAYMUX_VIEWER_TOKEN_ED25519_PK=" +:+ mt_public_key m; "  WAYMUX_VM_SESSION_ID=" +:+ mt_vm_session_id m;
   "Then open the viewer URL with ?token=<token>."].

Definition run_viewer_token (session : option string) (exp_secs : Z) (sub : option string) (json : bool) : Outcome :=
  let minted :=
    let? id := match session with
               | None => Ok new_uuid
               | Some s => match parse_uuid (Client.trim s) with
                           | Some u => Ok u
                           | None => Err (Other ("viewer token <session> must be a vm_session_id UUID (got " +:+ debug_str s
                                              +:+ "); omit it to mint a fresh random one"))
                           end
               end in
    let? sub := match sub with
                | None => Ok None
                | Some s => match parse_uuid (Client.trim s) with
                            | Some u => Ok (Some u)
                            | None => Err (Other ("--sub must be a UUID (got " +:+ debug_str s +:+ ")"))
                            end
                end in
    mint id exp_secs sub in
  match minted with
  | Err e => ended (Err (Failed e))
  | Ok m =>
      {| oc_out := if json then [JsonLine (success_envelope "viewer" (obj [("token", js (mt_token m)); ("public_key", js (mt_public_key m));
                                   ("vm_session_id", js (mt_vm_session_id m)); ("expires_at", jn (mt_expires_at m))]))]
                   else TextLine <$> token_lines m;
         oc_files := []; oc_http := []; oc_started := []; oc_end := Ok () |}
  end.

(** A command over a transport, from nothing printed. *)
Definition run_on {S} (m : Eff (Proc S) ending unit) (t : S) : Proc S * result unit ending :=
  m {| pr_t := t; pr_out := []; pr_files := [] |}.

Definition run_remote (cmd : Cmd.Cmd) (base_url : option string) (json : bool) : Outcome :=
  if negb (supports_remote cmd)
  then ended (Err (Failed (Other "this subcommand has no remote equivalent yet — drop --remote or run on the host")))
  else match build_remote_transport base_url with
       | Err e => ended (Err (Failed e))
       | Ok r =>
           let '(p, e) := run_on (run_with_transport cmd RemoteTransport json) r in
           {| oc_out := pr_out p; oc_files := pr_files p; oc_http := rm_log (pr_t p); oc_started := []; oc_end := e |}
       end.

(** The commands both transports serve. *)
Definition routable (cmd : Cmd.Cmd) : bool :=
  match cmd with
  | Cmd.Ls | Cmd.New _ | Cmd.Rm _ | Cmd.Info _ | Cmd.Inject _ _ | Cmd.Screenshot _ _ _
  | Cmd.ScreenshotDesktop _ _ | Cmd.Windows _ _ => true
  | _ => false
  end.

Definition run_local (cmd : Cmd.Cmd) (socket : string) (json : bool) : Outcome :=
  let '(started, ready) := ensure_daemon_or_spawn socket in
  match ready with
  | None => {| oc_out := []; oc_files := []; oc_http := []; oc_started := started; oc_end := Err Blocks |}
  | Some (Err e) => {| oc_out := []; oc_files := []; oc_http := []; oc_started := started; oc_end := Err (Failed e) |}
  | Some (Ok _) =>
      match open_connection socket with
      | Err e => {| oc_out := []; oc_files := []; oc_http := []; oc_started := started; oc_end := Err e |}
      | Ok (c, _) =>
          let '(p, e) := run_on (if routable cmd then run_with_transport cmd LocalTransport json
                                 else local_command cmd json) c in
          {| oc_out := pr_out p; oc_files := pr_files p; oc_http := []; oc_started := started; oc_end := e |}
      end
  end.

Definition dispatch (args : Args) : Outcome :=
  let json := a_json args in
  match a_command args with
  | Cmd.Login api_key base_url => run_login api_key base_url json
  | Cmd.Viewer (View.Token session exp_secs sub) => run_viewer_token session exp_secs sub json
  | Cmd.Serve =>
      ended (exec_daemon (match a_socket args with Some sock => ["--socket"; sock] | None => [] end))
  | cmd =>
      if a_remote args then run_remote cmd (a_base_url args) json
      else match match a_socket args with Some p => Ok p | None => default_socket_path end with
           | Err e => ended (Err (Failed e))
           | Ok socket => run_local cmd socket json
           end
  end.

(** How the process ends: its exit status, or not at all, or as another program. *)
Inductive exit_as := Status (code : Z) | Never | Replaced (program : string) (args : list string).

Definition main (args : Args) : list Line * exit_as :=
  let o := dispatch args in
  match oc_end o with
  | Ok _ => (oc_out o, Status 0)
  | Err (Failed e) =>
      (oc_out o ++ (if a_json args
                    then [JsonLine (error_envelope (verb_name (a_command args)) (error_code_for e) (error_string e))]
                    else []), Status 1)
  | Err (Exits code) => (oc_out o, Status code)
  | Err Blocks => (oc_out o, Never)
  | Err Panics => (oc_out o, Status 101)
  | Err (Becomes program l) => (oc_out o, Replaced program l)
  end.
End local_only.
