(* ===== verification/ClientCmdProps.v ===== *)
(** * Properties of the command-line client

    Every command line is routed to a handler that serves it; under [--json] exactly one
    envelope is printed; a command sent to a remote endpoint stays there; the recording
    path check agrees with the session's; the wait for a started daemon ends. *)

From Stdlib Require Import ZArith Lia Ascii.
From stdpp Require Import prelude list strings gmap pretty.
From S2P Require Import Prelude Words Floats Decimal Sys Codec Messages RegistryProps Server ServerProps ClientProps.
From S2P Require Import Control ControlProps Client ClientCmd.
From S2P Require Json.

Open Scope Z_scope.
Open Scope string_scope.
Open Scope list_scope.

Create HintDb cli.

(** ** No panic *)

Section no_panic.
Context `{Host} `{Wire} `{Peer}.

(** A computation that returns, fails or waits: it does not exit, panic or become another
    program. *)
Definition tame_end (e : ending) : Prop := match e with Failed _ | Blocks => True | _ => False end.

Definition tame {S A} (m : Eff S ending A) : Prop :=
  forall s, match (m s).2 with Err e => tame_end e | Ok _ => True end.

Lemma tame_bind {S A B} (m : Eff S ending A) (k : A -> Eff S ending B) :
  tame m -> (forall a, tame (k a)) -> tame (m ≫= k).
Proof.
  intros Hm Hk s. unfold mbind, eff_mbind. specialize (Hm s). destruct (m s) as [s' [a|e]]; [apply Hk|done].
Qed.

Lemma tame_ret {S A} (a : A) : tame (mret a : Eff S ending A).
Proof. done. Qed.

Lemma tame_fail {S A} e : tame (fail e : Eff S ending A).
Proof. done. Qed.

Lemma tame_on {S A} (m : Eff S ending A) : tame m -> tame (on m).
Proof. intros Hm p. unfold on. specialize (Hm (pr_t p)). by destruct (m (pr_t p)). Qed.

Lemma tame_match {S A B} (m : Eff S ending A) (k : A -> Eff S ending B) h :
  tame m -> (forall a, tame (k a)) -> (forall e, tame_end e -> tame (h e)) -> tame (eff_match m k h).
Proof.
  intros Hm Hk Hh s. unfold eff_match. specialize (Hm s). destruct (m s) as [s' [a|e]]; [apply Hk|by apply Hh].
Qed.

Lemma tame_emit {S} l : tame (emit (S := S) l).
Proof. done. Qed.

Lemma tame_fallible {S A} (r : result A error) : tame (fallible (S := S) r).
Proof. destruct r; intros s; exact I. Qed.

Lemma tame_write {S} p b : tame (write_to (S := S) p b).
Proof. intros s. unfold write_to. repeat case_match; simplify_eq/=; exact I. Qed.

Lemma tame_print_lines {S} l : tame (print_lines (S := S) l).
Proof. induction l; [done|]. apply tame_bind; [apply tame_emit|done]. Qed.

Lemma tame_say {S} json verb d l : tame (say (S := S) json verb d l).
Proof. unfold say. destruct json; [apply tame_emit|apply tame_print_lines]. Qed.

Lemma tame_read_exact n w : tame (read_exact n w).
Proof. intros c. unfold read_exact. repeat case_match; simplify_eq/=; exact I. Qed.

Lemma tame_read_socket_frame : tame read_socket_frame.
Proof. apply tame_bind; [apply tame_read_exact|]. intros b. apply tame_bind; [apply tame_read_exact|done]. Qed.

Lemma tame_read_raw_frame : tame read_raw_frame.
Proof. intros c. unfold read_raw_frame. destruct (cn_pending c); [apply tame_read_socket_frame|exact I]. Qed.

Lemma tame_settle r : match settle r with Err e => tame_end e | Ok _ => True end.
Proof. unfold settle. repeat case_match; simplify_eq/=; exact I. Qed.

Lemma tame_await fuel id : tame (await_response fuel id).
Proof.
  induction fuel as [|fuel IH]; [done|]. apply tame_bind; [apply tame_read_socket_frame|]. intros p.
  destruct (decode_frame p) as [r|]; [destruct (rs_id r =? id)%Z|].
  - intros c. apply tame_settle.
  - apply tame_bind; [done|intros; apply IH].
  - apply tame_bind; [done|intros; apply IH].
Qed.

Lemma tame_write_all b : tame (write_all b).
Proof. intros c. unfold write_all. destruct (peer_send b (cn_peer c)) as [[[? ?] ?] ?]. repeat case_match; simplify_eq/=; exact I. Qed.

Lemma tame_request m : tame (request m).
Proof.
  intros c. unfold request. destruct (encode_frame _ []) as [buf [|]]; [|done].
  apply (tame_bind (write_all buf)); [apply tame_write_all|]. intros _ c'. apply tame_await.
Qed.

Lemma tame_request_as {T} `{!Serde T} w m : tame (request_as (T := T) w m).
Proof. apply tame_bind; [apply tame_request|]. intros r s. repeat case_match; simplify_eq/=; exact I. Qed.

Lemma tame_call m p b : tame (call m p b).
Proof. intros r. unfold call, check. repeat case_match; simplify_eq/=; exact I. Qed.

Lemma tame_decoded {A} w (r : result A string) : tame (decoded w r).
Proof. destruct r; intros s; exact I. Qed.
End no_panic.

#[export] Hint Resolve tame_ret tame_fail tame_on tame_emit tame_fallible tame_write tame_say tame_read_raw_frame
  tame_request tame_request_as tame_call tame_decoded tame_print_lines : cli.

(** Follow the binds of a computation. *)
Ltac tame :=
  repeat first
    [ solve [eauto 3 with cli] | apply tame_bind | apply tame_match | apply tame_on
    | match goal with |- forall _, _ => intro end
    | match goal with |- tame (match ?x with _ => _ end) => destruct x end
    | match goal with |- tame (if ?x then _ else _) => destruct x end ].

Section routing.
Context `{Host} `{Wire} `{Peer}.

Lemma tame_emit_screenshot {S} verb shot output json : tame (emit_screenshot (S := S) verb shot output json).
Proof. unfold emit_screenshot, print_screenshot_envelope, write_screenshot. tame. Qed.

(** What the commands need of a transport. *)
Record tame_transport {S} (t : Transport S) : Prop := {
  tt_list : tame (list_sessions t);
  tt_create a w h : tame (create_session t a w h);
  tt_destroy n : tame (destroy_session t n);
  tt_shot n w : tame (screenshot t n w);
  tt_windows n : tame (list_windows t n);
  tt_inject n o : tame (inject t n o);
}.

Lemma local_tame : tame_transport LocalTransport.
Proof. split; cbn; intros; tame. Qed.

Lemma remote_tame : tame_transport RemoteTransport.
Proof. split; cbn; intros; tame. Qed.

Lemma routed_tame {S} (t : Transport S) cmd json : tame_transport t -> tame (run_with_transport cmd t json).
Proof.
  intros [Hl Hc Hd Hs Hw Hi]. destruct cmd; cbn [run_with_transport]; unfold run_new, run_inject, get_session;
    tame; apply tame_emit_screenshot.
Qed.

Lemma tame_ask m : tame (ask m).
Proof. unfold ask. tame. Qed.

Lemma tame_ask_as {T} `{!Serde T} w m : tame (ask_as (T := T) w m).
Proof. unfold ask_as. tame. Qed.

Lemma tame_wait_loop turns name sel nth : tame (wait_loop turns name sel nth).
Proof.
  induction turns as [|[r l] turns IH]; cbn [wait_loop]; [intros c; exact I|]. unfold current_windows. tame.
Qed.

Lemma tame_logs_loop turns name follow json : tame (logs_loop turns name follow json).
Proof.
  induction turns as [|l turns IH]; cbn [logs_loop]; [intros c; exact I|]. unfold print_log. tame.
  all: match goal with |- tame (lift (Err ?e)) => intros ?; assumption || exact I end.
Qed.

Lemma tame_events_loop fuel name : tame (events_loop fuel name).
Proof. induction fuel as [|fuel IH]; cbn [events_loop]; [intros c; exact I|]. tame. Qed.
End routing.

#[export] Hint Resolve tame_ask tame_ask_as tame_wait_loop tame_logs_loop tame_events_loop : cli.

(** ** One envelope *)

Section envelopes.
Context `{Host} `{Wire} `{Peer}.

Section lines.
Context {S : Type}.

(** Nothing is printed. *)
Definition quiet {A} (m : Eff (Proc S) ending A) : Prop :=
  tame m /\ forall p, pr_out (m p).1 = pr_out p.

(** One success envelope is printed by a command that returns (or exits with 1), none by
    one that fails. *)
Definition one_line (verb : string) (m : Eff (Proc S) ending unit) : Prop :=
  forall p, match m p with
    | (p', Ok _) | (p', Err (Exits 1)) => exists d, pr_out p' = pr_out p ++ [JsonLine (success_envelope verb d)]
    | (p', Err (Failed _)) => pr_out p' = pr_out p
    | (_, Err Blocks) => True
    | _ => False
    end.

Lemma quiet_on {A} (m : Eff S ending A) : tame m -> quiet (on m).
Proof. intros Hm. split; [by apply tame_on|]. intros p. unfold on. by destruct (m (pr_t p)). Qed.

Lemma quiet_fallible {A} (r : result A error) : quiet (fallible (S := S) r).
Proof. split; [apply tame_fallible|]. by destruct r. Qed.

Lemma quiet_bind {A B} (m : Eff (Proc S) ending A) (k : A -> Eff (Proc S) ending B) :
  quiet m -> (forall a, quiet (k a)) -> quiet (m ≫= k).
Proof.
  intros [Hm Ho] Hk. split; [apply tame_bind; [done|apply Hk]|]. intros p. unfold mbind, eff_mbind. specialize (Ho p).
  destruct (m p) as [p' [a|e]]; cbn in *; [|done]. rewrite <- Ho. apply Hk.
Qed.

Lemma quiet_ret {A} (a : A) : quiet (mret a : Eff (Proc S) ending A).
Proof. by split. Qed.

Lemma one_line_bind {A} verb (m : Eff (Proc S) ending A) k :
  quiet m -> (forall a, one_line verb (k a)) -> one_line verb (m ≫= k).
Proof.
  intros [Hm Ho] Hk p. unfold mbind, eff_mbind. specialize (Hm p). specialize (Ho p).
  destruct (m p) as [p' [a|e]]; cbn in *; [|by destruct e].
  specialize (Hk a p'). by rewrite Ho in Hk.
Qed.

Lemma one_line_say verb d l : one_line verb (say true verb d l).
Proof. intros p. by exists d. Qed.

Lemma one_line_print verb d : one_line verb (print_success verb d).
Proof. intros p. by exists d. Qed.

Lemma one_line_fail verb e : one_line verb (fail e).
Proof. by intros p. Qed.
End lines.

Definition saves (output : option string) : Prop :=
  match output with
  | Some out => out <> "-" -> forall bytes, write_file out bytes = None
  | None => True
  end.

Lemma one_line_screenshot {S} verb shot output :
  saves output -> one_line verb (emit_screenshot (S := S) verb shot output true).
Proof.
  intros Hs p. unfold emit_screenshot, print_screenshot_envelope, print_success, emit, mbind, eff_mbind.
  destruct output as [out|]; [|by eexists]. destruct (String.eqb_spec out "-") as [->|N]; [by eexists|].
  unfold write_to. rewrite (Hs N). by eexists.
Qed.
End envelopes.

#[export] Hint Resolve quiet_on quiet_fallible quiet_ret one_line_say one_line_print one_line_fail : cli.

Ltac one_line :=
  repeat first
    [ match goal with |- one_line _ (emit_screenshot _ _ _ _) => by apply one_line_screenshot end
    | solve [eauto 3 with cli] | apply one_line_bind | apply quiet_bind | apply quiet_on | solve [tame]
    | match goal with |- forall _, _ => intro end
    | match goal with |- one_line _ (match ?x with _ => _ end) => destruct x end
    | match goal with |- one_line _ (if ?x then _ else _) => destruct x end ].

Section dispatching.
Context `{Host} `{Wire} `{Peer}.

Definition streaming (cmd : Cmd.Cmd) : bool :=
  match cmd with Cmd.Events _ _ | Cmd.Logs _ _ _ => true | _ => false end.

Definition output_of (cmd : Cmd.Cmd) : option string :=
  match cmd with Cmd.Screenshot _ _ o | Cmd.ScreenshotDesktop _ o => o | _ => None end.

(** The commands [dispatch] keeps to itself. *)
Definition special (cmd : Cmd.Cmd) : bool :=
  match cmd with Cmd.Login _ _ | Cmd.Serve | Cmd.Viewer (View.Token _ _ _) => true | _ => false end.

Lemma routed_one_line {S} (t : Transport S) cmd :
  tame_transport t -> routable cmd = true -> saves (output_of cmd) ->
  one_line (verb_name cmd) (run_with_transport cmd t true).
Proof.
  intros [Hl Hc Hd Hs Hw Hi] Hr Ho. destruct cmd; try discriminate Hr; cbn [run_with_transport verb_name];
    unfold run_new, run_inject, get_session; one_line.
Qed.

Lemma one_line_exits verb d (b : bool) : one_line verb (print_success verb d ;; if b then mret () else exit 1).
Proof. intros p. destruct b; by exists d. Qed.

Lemma one_line_exit verb d : one_line verb (print_success verb d ;; exit 1).
Proof. intros p. by exists d. Qed.

#[local] Hint Resolve one_line_exits one_line_exit : cli.

Lemma local_one_line cmd :
  routable cmd = false -> special cmd = false -> streaming cmd = false ->
  one_line (verb_name cmd) (local_command cmd true).
Proof.
  intros Hr Hsp Hst. destruct cmd; try discriminate;
    cbn [local_command verb_name]; unfold run_spawn, run_resize, run_tag, run_idle_cmd, run_wait, run_key, run_click,
      run_attach_cmd, run_detach, wait_for_window, current_windows.
  all: try solve [one_line].
  - apply one_line_bind; [destruct (button =? 0)%Z; one_line|]. one_line.
  - destruct action; cbn [run_record]; unfold run_record_start; one_line.
  - destruct sub; try discriminate; cbn [run_viewer]; one_line.
Qed.

(** The commands that are not. *)
Lemma exec_daemon_ends l :
  (exists e, exec_daemon l = Err (Failed e)) \/ exists bin, exec_daemon l = Err (Becomes bin l).
Proof.
  unfold exec_daemon. destruct (concrete _ && _); [by left; eexists|].
  destruct (exec_error _ _) as [[[] ?]|]; [by left; eexists..|]. by right; eexists.
Qed.

Lemma run_login_ends api_key base_url json :
  (exists e, run_login api_key base_url json = ended (Err (Failed e))) \/
  exists path key, run_login api_key base_url json =
    {| oc_out := [if json then JsonLine (success_envelope "login" (obj [("profile", js "default"); ("base_url", js base_url)]))
                  else TextLine ("Logged in to " +:+ base_url +:+ " as " +:+ redact_key key
                                 +:+ " (credentials: " +:+ path +:+ ")")];
       oc_files := []; oc_http := []; oc_started := []; oc_end := Ok () |}.
Proof.
  unfold run_login. destruct api_key as [key|]; [|by left; eexists]. destruct (_ =? ""); [by left; eexists|].
  destruct (let? path := credentials_path in _) as [path|e]; [|by left; eexists]. right. by exists path, key.
Qed.

(** The commands that are sent somewhere. *)
Lemma dispatch_ordinary args :
  special (a_command args) = false ->
  dispatch args =
    if a_remote args then run_remote (a_command args) (a_base_url args) (a_json args)
    else match match a_socket args with Some p => Ok p | None => default_socket_path end with
         | Err e => ended (Err (Failed e))
         | Ok socket => run_local (a_command args) socket (a_json args)
         end.
Proof. unfold dispatch. destruct (a_command args); try done. by destruct sub. Qed.

(** The lines of a command that ran on its transport. *)
Definition lines_of (cmd : Cmd.Cmd) (o : Outcome) : Prop :=
  match oc_end o with
  | Ok _ | Err (Exits 1) => exists d, oc_out o = [JsonLine (success_envelope (verb_name cmd) d)]
  | Err (Failed _) => oc_out o = []
  | Err Blocks => True
  | Err (Becomes _ _) => cmd = Cmd.Serve
  | _ => False
  end.

Lemma remote_lines cmd base :
  special cmd = false -> saves (output_of cmd) -> lines_of cmd (run_remote cmd base true).
Proof.
  intros Hsp Hsv. unfold run_remote. destruct (supports_remote cmd) eqn:Hr; [|done]. cbn [negb].
  destruct (build_remote_transport base) as [r|]; [|done].
  assert (Hro : routable cmd = true) by (by destruct cmd).
  pose proof (routed_one_line RemoteTransport cmd remote_tame Hro Hsv {| pr_t := r; pr_out := []; pr_files := [] |}) as L.
  unfold run_on. unfold lines_of. destruct (run_with_transport _ _ _ _) as [p' [|[| | | |]]]; cbn in *; done.
Qed.

Lemma tame_ready socket c : (open_connection socket = Err c) -> tame_end c.
Proof.
  unfold open_connection, connect. destruct (peer_connect socket) as [pe|]; [|by intros [= <-]].
  pose proof (tame_request_as (T := HelloResult) "hello result" (Req.Hello CURRENT_PROTOCOL_VERSION)) as T.
  unfold hello. match goal with |- context [request_as _ _ ?x] => specialize (T x); destruct (request_as _ _ x) as [? []] end;
    [done|]. by intros [= <-].
Qed.

Lemma local_lines cmd socket :
  special cmd = false -> streaming cmd = false -> saves (output_of cmd) -> lines_of cmd (run_local cmd socket true).
Proof.
  intros Hsp Hst Hsv. unfold run_local. destruct (ensure_daemon_or_spawn socket) as [started [[u|e]|]]; try done.
  destruct (open_connection socket) as [[c h]|e] eqn:Eo.
  2: { apply tame_ready in Eo. by destruct e. }
  set (m := if routable cmd then run_with_transport cmd LocalTransport true else local_command cmd true).
  assert (L : one_line (verb_name cmd) m).
  { unfold m. destruct (routable cmd) eqn:Hr; [by apply routed_one_line; [apply local_tame| |]|by apply local_one_line]. }
  specialize (L {| pr_t := c; pr_out := []; pr_files := [] |}).
  unfold run_on, lines_of. destruct (m _) as [p' [|[| | | |]]]; cbn in *; done.
Qed.

(** What [dispatch] leaves under [--json]. *)
Lemma dispatch_lines args :
  a_json args = true -> streaming (a_command args) = false -> saves (output_of (a_command args)) ->
  lines_of (a_command args) (dispatch args).
Proof.
  intros Hj Hst Hsv. destruct args as [socket remote base json cmd]. cbn [a_json a_command] in *. subst json.
  destruct (special cmd) eqn:Hsp.
  - destruct cmd as [| | | | | | | | | | | | | | | | | | | |sub| |]; try discriminate.
    + destruct sub; try discriminate. unfold dispatch, run_viewer_token. cbn [a_command a_json verb_name].
      case_match; cbn; [by eexists|done].
    + unfold dispatch. cbn [a_command a_json]. destruct (run_login_ends api_key base_url true) as [[e ->]|(path & key & ->)]; [done|]. by eexists.
    + unfold dispatch. cbn [a_command a_socket]. by destruct (exec_daemon_ends (match socket with Some s => ["--socket"; s] | None => [] end)) as [[e ->]|[b ->]].
  - rewrite dispatch_ordinary by done. cbn [a_remote a_base_url a_socket a_json].
    destruct remote; [by apply remote_lines|].
    destruct socket as [s|]; cbn; [by apply local_lines|]. destruct default_socket_path as [s|]; [by apply local_lines|done].
Qed.

(** C29: under [--json], whatever the daemon, the remote endpoint and the system do, a
    command that is not a stream and whose screenshot file can be written prints exactly
    one line when its process exits: an envelope that names the command. An error envelope
    comes with the exit status 1, the status 0 with a success envelope. *)
Theorem json_one_envelope args out code :
  a_json args = true -> streaming (a_command args) = false -> saves (output_of (a_command args)) ->
  main args = (out, Status code) ->
  exists v ok, out = [JsonLine v] /\ Json.str_at "verb" v = Some (verb_name (a_command args)) /\
    Json.bool_at "ok" v = Some ok /\ (code = 0 \/ code = 1) /\ (ok = false -> code = 1) /\ (code = 0 -> ok = true).
Proof.
  intros Hj Hst Hsv Hm. pose proof (dispatch_lines args Hj Hst Hsv) as L. unfold main in Hm. unfold lines_of in L.
  destruct (oc_end (dispatch args)) as [u|[e|c| | |prog l]]; try done.
  - injection Hm as <- <-. destruct L as [d ->]. eexists _, true. split_and!; (done || auto).
  - rewrite Hj, L in Hm. injection Hm as <- <-. eexists _, false. split_and!; (done || auto).
  - injection Hm as <- <-. destruct c as [|[| |]|]; try done. destruct L as [d ->].
    eexists _, true. split_and!; (done || auto).
Qed.

(** *** Routing *)

Lemma calm_local cmd json :
  routable cmd = false -> special cmd = false ->
  forall p, match (local_command cmd json p).2 with Err Panics | Err (Becomes _ _) => False | _ => True end.
Proof.
  assert (T : forall m : Eff (Proc Connection) ending unit, tame m ->
    forall p, match (m p).2 with Err Panics | Err (Becomes _ _) => False | _ => True end).
  { intros m Hm p. specialize (Hm p). by destruct (m p).2 as [|[]]. }
  intros Hr Hsp p. destruct cmd; try discriminate; cbn [local_command]; try (apply T; unfold run_spawn,
    run_resize, run_tag, run_key, run_click, run_logs, run_attach_cmd, run_detach; solve [tame]).
  - unfold run_idle_cmd, mbind, eff_mbind. pose proof (tame_ask_as (T := WaitForIdleResult) "wait_for_idle"
      (Req.WaitForIdle name quiet_ms timeout_ms) p) as A. destruct (ask_as _ _ p) as [p' [r|[]]]; try done.
    destruct json, (wfi_idle r); done.
  - unfold run_wait, mbind, eff_mbind. assert (A : tame (on (wait_for_window name (matches app_id title tag pid) nth))).
    { unfold wait_for_window, current_windows. tame. }
    specialize (A p). destruct (on _ p) as [p' [[w|]|[]]]; try done.
    + pose proof (T _ (tame_say json "wait" (obj [("id", jn (wi_id w)); ("app_id", js (wi_app_id w)); ("title", js (wi_title w))])
        [pretty (wi_id w) +:+ String "009" (wi_app_id w +:+ String "009" (wi_title w))]) p') as Hs. exact Hs.
    + by destruct json.
  - apply T. unfold run_events. apply tame_bind; [tame|]. intros _ q. apply tame_events_loop.
  - apply T. destruct action; cbn [run_record]; unfold run_record_start; tame.
  - apply T. destruct sub; try discriminate; cbn [run_viewer]; tame.
Qed.

(** Every command line is served by a handler that knows its command, whatever daemon,
    endpoint and system answer: no [unreachable!] is reached, and only [serve] replaces
    the process. *)
Theorem commands_routed args :
  match oc_end (dispatch args) with
  | Err Panics => False
  | Err (Becomes _ _) => a_command args = Cmd.Serve
  | _ => True
  end.
Proof.
  destruct args as [socket remote base json cmd]. cbn [a_command]. destruct (special cmd) eqn:Hsp.
  - destruct cmd as [| | | | | | | | | | | | | | | | | | | |sub| |]; try discriminate.
    + destruct sub; try discriminate. unfold dispatch, run_viewer_token. cbn [a_command a_json].
      repeat case_match; simplify_eq/=; done.
    + unfold dispatch. cbn [a_command a_json]. by destruct (run_login_ends api_key base_url json) as [[e ->]|(path & key & ->)].
    + unfold dispatch. cbn [a_command a_socket]. by destruct (exec_daemon_ends (match socket with Some s => ["--socket"; s] | None => [] end)) as [[e ->]|[b ->]].
  - rewrite dispatch_ordinary by done. cbn [a_remote a_base_url a_socket a_json a_command]. destruct remote.
    + unfold run_remote. destruct (supports_remote cmd); [|done]. cbn [negb].
      destruct (build_remote_transport base) as [r|]; [|done]. unfold run_on.
      pose proof (routed_tame RemoteTransport cmd json remote_tame {| pr_t := r; pr_out := []; pr_files := [] |}) as T.
      destruct (run_with_transport _ _ _ _) as [p' [|[]]]; cbn in *; done.
    + assert (L : forall s, match oc_end (run_local cmd s json) with Err Panics | Err (Becomes _ _) => False | _ => True end).
      { intros s. unfold run_local. destruct (ensure_daemon_or_spawn s) as [started [[u|e]|]]; try done.
        destruct (open_connection s) as [[c h]|e] eqn:Eo; [|apply tame_ready in Eo; by destruct e]. unfold run_on.
        destruct (routable cmd) eqn:Hr.
        - pose proof (routed_tame LocalTransport cmd json local_tame {| pr_t := c; pr_out := []; pr_files := [] |}) as T.
          destruct (run_with_transport _ _ _ _) as [p' [|[]]]; cbn in *; done.
        - pose proof (calm_local cmd json Hr Hsp {| pr_t := c; pr_out := []; pr_files := [] |}) as T.
          destruct (local_command _ _ _) as [p' r]. exact T. }
      destruct (match socket with Some p => Ok p | None => default_socket_path end) as [s|e]; [|done].
      specialize (L s). destruct (oc_end (run_local cmd s json)) as [|[]]; done.
Qed.
End dispatching.

(** ** A command sent to a remote endpoint *)

Section remote_only.
Context `{Host} `{Wire} `{Peer}.

(** What a computation on a transport keeps. *)
Definition keeps {S A} (I : S -> Prop) (m : Eff S ending A) : Prop := forall s, I s -> I (m s).1.

Lemma keeps_bind {S A B} (I : S -> Prop) (m : Eff S ending A) (k : A -> Eff S ending B) :
  keeps I m -> (forall a, keeps I (k a)) -> keeps I (m ≫= k).
Proof.
  intros Hm Hk s Hs. unfold mbind, eff_mbind. specialize (Hm s Hs). destruct (m s) as [s' [a|e]]; [by apply Hk|done].
Qed.

Lemma keeps_same {S A} (I : S -> Prop) (m : Eff S ending A) : (forall s, (m s).1 = s) -> keeps I m.
Proof. intros E s. by rewrite E. Qed.

(** The requests so far went to this endpoint with its key. *)
Definition faithful (r0 r : Remote) : Prop :=
  rm_base_url r = rm_base_url r0 /\ rm_api_key r = rm_api_key r0 /\
  Forall (fun q => hq_key q = rm_api_key r0 /\ exists path, hq_url q = rm_base_url r0 +:+ path) (rm_log r).

Lemma call_keeps r0 m path b : keeps (faithful r0) (call m path b).
Proof.
  intros r (Eb & Ek & Hl).
  set (q := {| hq_method := m; hq_url := rm_base_url r +:+ path; hq_key := rm_api_key r; hq_body := b |}).
  set (r' := {| rm_base_url := rm_base_url r; rm_api_key := rm_api_key r; rm_log := rm_log r ++ [q] |}).
  assert (E : (call m path b r).1 = r').
  { unfold call. fold q. fold r'. by destruct (http (rm_log r) q) as [[[st tx] an]|]. }
  rewrite E. split_and!; [done..|]. cbn. apply Forall_app_2; [done|]. apply Forall_singleton. cbn.
  split; [done|]. exists path. by rewrite Eb.
Qed.

Lemma decoded_keeps {A} r0 w (x : result A string) : keeps (faithful r0) (decoded w x).
Proof. apply keeps_same. by destruct x. Qed.

(** What every operation of a transport keeps, a command on it keeps. *)
Record transport_keeps {S} (I : S -> Prop) (t : Transport S) : Prop := {
  tk_list : keeps I (list_sessions t);
  tk_create a w h : keeps I (create_session t a w h);
  tk_destroy n : keeps I (destroy_session t n);
  tk_shot n w : keeps I (screenshot t n w);
  tk_windows n : keeps I (list_windows t n);
  tk_inject n o : keeps I (inject t n o);
}.

Lemma remote_keeps r0 : transport_keeps (faithful r0) RemoteTransport.
Proof.
  split; cbn; intros; (apply keeps_bind; [apply call_keeps|]; intros b); try apply decoded_keeps; try by apply keeps_same.
  apply keeps_bind; [apply decoded_keeps|]. intros [[[? ?] ?] ?]. apply keeps_bind; [apply decoded_keeps|].
  intros. by apply keeps_same.
Qed.

Definition on_transport {S} (I : S -> Prop) (p : Proc S) : Prop := I (pr_t p).

Lemma keeps_on {S A} (I : S -> Prop) (m : Eff S ending A) : keeps I m -> keeps (on_transport I) (on m).
Proof. intros Hm p Hp. unfold on. specialize (Hm (pr_t p) Hp). by destruct (m (pr_t p)). Qed.

Lemma keeps_emit {S} (I : S -> Prop) l : keeps (on_transport I) (emit l).
Proof. by intros p. Qed.

Lemma keeps_say {S} (I : S -> Prop) json verb d l : keeps (on_transport I) (say json verb d l).
Proof.
  unfold say. destruct json; [apply keeps_emit|]. induction l; [by intros p|].
  apply keeps_bind; [apply keeps_emit|]. by intros [].
Qed.

Lemma keeps_fallible {S A} (I : S -> Prop) (r : result A error) : keeps (on_transport I) (fallible r).
Proof. apply keeps_same. by destruct r. Qed.

Lemma keeps_write {S} (I : S -> Prop) p b : keeps (on_transport I) (write_to p b).
Proof. intros q Hq. unfold write_to. by destruct (write_file p b). Qed.

Lemma keeps_screenshot {S} (I : S -> Prop) verb shot output json :
  keeps (on_transport I) (emit_screenshot verb shot output json).
Proof.
  unfold emit_screenshot, print_screenshot_envelope, write_screenshot. destruct json, output as [out|];
    repeat first [apply keeps_bind | apply keeps_emit | apply keeps_write | case_match | intros _ | by apply keeps_same].
Qed.

Lemma routed_keeps {S} (I : S -> Prop) (t : Transport S) cmd json :
  transport_keeps I t -> keeps (on_transport I) (run_with_transport cmd t json).
Proof.
  intros [Hl Hc Hd Hs Hw Hi]. destruct cmd; cbn [run_with_transport]; unfold run_new, run_inject, get_session;
    repeat match goal with
    | |- forall _, _ => intro
    | |- keeps _ (emit_screenshot _ _ _ _) => apply keeps_screenshot
    | |- keeps _ (say _ _ _ _) => apply keeps_say
    | |- keeps _ (fallible _) => apply keeps_fallible
    | |- keeps _ (on _) => apply keeps_on
    | |- keeps _ (_ ≫= _) => apply keeps_bind
    | |- keeps _ (match ?x with _ => _ end) => destruct x
    | |- keeps _ (fail _) => by apply keeps_same
    | |- keeps _ (mret _) => by apply keeps_same
    | _ => auto
    end.
Qed.

(** with [--remote], a command that talks to sessions starts no daemon and sends every
    request to the configured endpoint with the key of the profile, whatever it answers. *)
Theorem remote_stays_remote args r :
  special (a_command args) = false -> a_remote args = true -> build_remote_transport (a_base_url args) = Ok r ->
  oc_started (dispatch args) = [] /\
  Forall (fun q => hq_key q = rm_api_key r /\ exists path, hq_url q = rm_base_url r +:+ path) (oc_http (dispatch args)).
Proof.
  intros Hsp Hr Hb. rewrite dispatch_ordinary, Hr by done. unfold run_remote. rewrite Hb.
  destruct (supports_remote (a_command args)); [|done]. cbn [negb]. unfold run_on.
  assert (F : faithful r r). { split_and!; [done..|]. unfold build_remote_transport in Hb.
    repeat case_match; simplify_eq/=. constructor. }
  pose proof (routed_keeps (faithful r) RemoteTransport (a_command args) (a_json args) (remote_keeps r)
    {| pr_t := r; pr_out := []; pr_files := [] |} F) as K.
  destruct (run_with_transport _ _ _ _) as [p e]. split; [done|]. apply K.
Qed.
End remote_only.

(** ** Recording paths *)

(** C31: when the session has the same home directory and can create the recordings
    directory, the client lets a recording path pass exactly when the session will; a path
    it refuses is the caller's error. *)
Theorem record_path_checks_agree `{Host} `{CtlEnv} (n : nat) (path h : string) :
  var "HOME" = Some h -> h <> "" -> getenv "HOME" = Some h -> create_dir_all n = None ->
  (validate_recording_path path = Ok () <-> validate n path = Ok ()) /\
  (forall e, validate_recording_path path = Err e -> error_code_for e = "E_BAD_REQUEST").
Proof.
  intros Hv Hh Hg Hc.
  assert (E1 : recordings_dir = Ok (join h ".local/share/waymux/recordings")).
  { unfold recordings_dir. rewrite Hv. by destruct h. }
  assert (E2 : Control.recordings_dir n = Ok (join h ".local/share/waymux/recordings")).
  { unfold Control.recordings_dir, home_dir. rewrite Hg, Hc. by destruct (String.eqb_spec h ""). }
  unfold validate_recording_path, validate. rewrite E1, E2.
  destruct (negb (is_absolute path)); [split; [done|by intros e [= <-]]|].
  destruct (existsb _ _); [split; [done|by intros e [= <-]]|].
  destruct (negb (path_inside _ path)); [split; [done|by intros e [= <-]]|done].
Qed.

(** ** The start of the daemon *)

Lemma await_socket_ends `{Host} socket fuel : forall n : nat,
  (forall k, AUTOSPAWN_POLL * Z.of_nat k <= waited_ms k) -> (n <= 120 < n + fuel)%nat ->
  is_Some (await_socket fuel n socket).
Proof.
  induction fuel as [|fuel IH]; intros n Hk Hn; [lia|]. cbn [await_socket]. destruct (socket_at n); [by eexists|].
  destruct (Z.leb_spec AUTOSPAWN_TIMEOUT (waited_ms n)) as [L|L]; [by eexists|]. apply IH; [done|].
  specialize (Hk n). unfold AUTOSPAWN_POLL, AUTOSPAWN_TIMEOUT in *. lia.
Qed.

(** Making sure of a daemon ends on every clock that advances by what is slept: at
    most one daemon is started, only when the socket is absent and starting one is not
    disabled, and it is started without any argument, so never on the socket the client
    was told to use. *)
Theorem autospawn_ends `{Host} socket :
  (forall k, AUTOSPAWN_POLL * Z.of_nat k <= waited_ms k) ->
  exists r, (ensure_daemon_or_spawn socket).2 = Some r /\
    (ensure_daemon_or_spawn socket).1 ∈ [[]; [(daemon_binary_path, [])]] /\
    ((ensure_daemon_or_spawn socket).1 <> [] -> exists_at socket = false /\ autospawn_disabled = false).
Proof.
  intros Hk. unfold ensure_daemon_or_spawn.
  set (nothing := [] : list (string * list string)).
  assert (E : forall (x : result unit error) P, exists r, Some x = Some r /\
    nothing ∈ [[]; [(daemon_binary_path, [])]] /\ (nothing <> [] -> P)).
  { intros x P. exists x. split; [done|]. split; [by left|done]. }
  destruct (exists_at socket) eqn:Ex; [by apply E|]. destruct autospawn_disabled eqn:Ea; [by apply E|].
  destruct (concrete _ && _); [by apply E|]. destruct (spawn_daemon _); [by apply E|]. cbn [fst snd].
  destruct (await_socket_ends socket spawn_fuel 0 Hk ltac:(by vm_compute; lia)) as [r Er]. exists r.
  split; [done|]. split; [by right; left|done].
Qed.

(** ** Sizes *)

Lemma split_once_digits s : forall acc n r,
  digits acc s = Some n -> split_once "x" (s +:+ String "x" r) = Some (s, r).
Proof.
  induction s as [|c s IH]; intros acc n r; [done|]. cbn [digits]. destruct (digit c) as [d|] eqn:D; [|done].
  intros E. change (String c s +:+ String "x" r) with (String c (s +:+ String "x" r)). cbn [split_once].
  destruct (Ascii.eqb_spec c "x") as [->|]; [done|]. by rewrite (IH _ _ _ E).
Qed.

(** A size printed as the client prints it is read back, over the whole range. *)
Theorem size_roundtrip w h :
  0 <= w < 2 ^ 32 -> 0 <= h < 2 ^ 32 -> parse_size (pretty w +:+ "x" +:+ pretty h) = Ok (w, h).
Proof.
  intros Hw Hh. assert (D : digits 0 (pretty w) = Some w).
  { assert (pretty w = pretty (Z.to_N w)) as -> by (by destruct w; [| |lia]).
    rewrite digits_pretty_N. by rewrite Z2N.id by lia. }
  unfold parse_size. change ("x" +:+ pretty h) with (String "x" (pretty h)).
  rewrite (split_once_digits _ _ _ _ D). unfold parse_u32. by rewrite !parse_pretty.
Qed.

(** ** A screenshot that cannot be saved *)

(** When the file of a screenshot cannot be written, the success envelope has already
    been printed: a second, contradicting envelope follows it on standard output. *)
Theorem failed_save_prints_twice `{Host} `{Wire} `{Peer} socket name w out e c h c' shot :
  exists_at socket = true -> open_connection socket = Ok (c, h) ->
  screenshot LocalTransport name (Some w) c = (c', Ok shot) -> out <> "-" ->
  write_file out (sh_png shot) = Some e ->
  exists d err, main {| a_socket := Some socket; a_remote := false; a_base_url := None; a_json := true;
                        a_command := Cmd.Screenshot name w (Some out) |} =
      ([JsonLine (success_envelope "screenshot" d); JsonLine (error_envelope "screenshot" err e)], Status 1).
Proof.
  intros Hs Ho Hsh Hout Hw. unfold main. rewrite dispatch_ordinary by done.
  cbn [a_remote a_socket a_command a_json]. unfold run_local, ensure_daemon_or_spawn. rewrite Hs, Ho.
  cbn [routable]. unfold run_on. cbn [run_with_transport].
  assert (Es : on (screenshot LocalTransport name (Some w)) {| pr_t := c; pr_out := []; pr_files := [] |} =
    ({| pr_t := c'; pr_out := []; pr_files := [] |}, Ok shot)) by (unfold on; cbn [pr_t]; by rewrite Hsh).
  rewrite (eff_bind_ok _ _ _ _ _ Es). unfold emit_screenshot.
  erewrite eff_bind_ok by reflexivity. destruct (String.eqb_spec out "-") as [->|_]; [done|].
  unfold write_to. rewrite Hw. cbn. by eexists _, _.
Qed.

(** ** Examples *)

Definition cli_creds : Credentials := {["default" := {| pf_base_url := "https://host/"; pf_api_key := "wmx_key" |}]}.

Definition cli_host : Host := {|
  var s := if s =? "HOME" then Some "/home/u" else None;
  exists_at _ := true; ClientCmd.is_file _ := false; current_exe := None;
  write_file p _ := if p =? "/full/shot.png" then Some "No space left on device" else None;
  base64 _ := "iVBO"; base64_decode _ := Ok [1]; show_f64 _ := "0"; debug_str s := s; parse_ops _ := Ok [];
  event_json _ := Ok Json.VNull; run_attach _ _ := None; wait_turns := []; log_turns := [];
  exec_error _ _ := None; spawn_daemon _ := None; socket_at n := (3 <=? n)%nat; waited_ms n := 30 * Z.of_nat n;
  http _ _ := Ok (404, "404 Not Found", ""); de_sessions _ := Err ""; de_session _ := Err ""; de_screenshot _ := Err "";
  de_windows _ := Err ""; load_file _ := Ok (Some cli_creds); save_file _ _ := Ok (); parse_uuid s := Some s;
  new_uuid := "u"; mint _ _ _ := Err (Other "no");
|}.

#[export] Instance SessionCtlScreenshot_eq_dec : EqDecision SessionCtlScreenshot.
Proof. solve_decision. Defined.

Definition cli_shot : SessionCtlScreenshot := {| scs_width := 1; scs_height := 1; scs_png := [137] |}.

(** A daemon that answers the first request with its hello and the next with a picture. *)
Definition cli_wire : @Wire demo_msgpack := {|
  w_request := {| write_named (r : Request) := ([rq_id r], None); from_slice _ := Err "unused" |};
  w_response := talk_response; w_event := refuse; w_ctl_request := refuse; w_ctl_response := refuse;
  w_ctl_windows := refuse; w_ctl_info := refuse; w_screenshot := only cli_shot 6; w_record_started := refuse;
  w_record_status := refuse; w_viewer_started := refuse; w_viewer_status := refuse;
  w_hello := only {| hr_server_protocol := 4; hr_capabilities := ["subscribe"; "spawn"] |} 5;
  w_sessions := refuse; w_created := refuse; w_attach := refuse; w_windows := refuse; w_unit := refuse;
  w_spawn := refuse; w_idle := refuse;
|}.

Definition cli_peer : Peer := {|
  peer := nat; peer_connect _ := Ok 0%nat;
  peer_send _ n := (Datatypes.S n, frame_bytes [match n with O => 10 | _ => 11 end], None, None);
|}.

Definition cli_args (remote : bool) (cmd : Cmd.Cmd) : Args :=
  {| a_socket := Some "/run/waymux.sock"; a_remote := remote; a_base_url := None; a_json := true; a_command := cmd |}.

Abbreviation cli_main := (@main cli_host demo_msgpack cli_wire cli_peer).

(** A session that the remote endpoint does not know, removed and shown under [--json]. *)
Lemma json_one_envelope_witness :
  exists v ok, (cli_main (cli_args true (Cmd.Rm "ghost"))).1 = [JsonLine v] /\
    Json.str_at "verb" v = Some "rm" /\ Json.bool_at "ok" v = Some ok.
Proof.
  destruct (@json_one_envelope cli_host demo_msgpack cli_wire cli_peer (cli_args true (Cmd.Rm "ghost"))
    (cli_main (cli_args true (Cmd.Rm "ghost"))).1 1) as (v & ok & ? & ? & ? & _);
    [reflexivity|reflexivity|exact I|vm_compute; reflexivity|].
  exists v, ok. auto.
Defined.

Lemma remote_stays_remote_witness :
  oc_started (@dispatch cli_host demo_msgpack cli_wire cli_peer (cli_args true (Cmd.Rm "ghost"))) = [] /\
  hq_url <$> oc_http (@dispatch cli_host demo_msgpack cli_wire cli_peer (cli_args true (Cmd.Rm "ghost")))
    = ["https://host/sessions/ghost"].
Proof.
  destruct (@remote_stays_remote cli_host demo_msgpack cli_wire cli_peer (cli_args true (Cmd.Rm "ghost"))
    (remote_new "https://host/" "wmx_key")) as [Hs _]; try reflexivity. split; [exact Hs|]. vm_compute. reflexivity.
Defined.

Lemma record_path_checks_agree_witness :
  @validate_recording_path cli_host "/home/u/.local/share/waymux/recordings/a.mkv" = Ok () /\
  @validate demo_ctl 0 "/home/u/.local/share/waymux/recordings/a.mkv" = Ok ().
Proof.
  destruct (@record_path_checks_agree cli_host demo_ctl 0 "/home/u/.local/share/waymux/recordings/a.mkv" "/home/u")
    as [[Hto _] _]; [done..|]. assert (E : @validate_recording_path cli_host "/home/u/.local/share/waymux/recordings/a.mkv" = Ok ())
    by (vm_compute; reflexivity). split; [exact E|exact (Hto E)].
Defined.

Lemma autospawn_ends_witness : exists r, (@ensure_daemon_or_spawn cli_host "/run/waymux.sock").2 = Some r.
Proof.
  destruct (@autospawn_ends cli_host "/run/waymux.sock") as (r & E & _).
  - intros k. unfold AUTOSPAWN_POLL. cbn. lia.
  - by exists r.
Defined.

Lemma size_roundtrip_witness : parse_size "1920x1080" = Ok (1920, 1080).
Proof. apply (size_roundtrip 1920 1080); lia. Defined.

Lemma failed_save_prints_twice_witness :
  exists d err, cli_main (cli_args false (Cmd.Screenshot "demo" 1 (Some "/full/shot.png"))) =
    ([JsonLine (success_envelope "screenshot" d);
      JsonLine (error_envelope "screenshot" err "No space left on device")], Status 1).
Proof.
  eapply (@failed_save_prints_twice cli_host demo_msgpack cli_wire cli_peer "/run/waymux.sock" "demo" 1 "/full/shot.png"
    "No space left on device"); [reflexivity|vm_compute; reflexivity|vm_compute; reflexivity|done|reflexivity].
Defined.
