(* ===== verification/Driver.v ===== *)
(** * Drivers and their resources

    Code that calls a driver (CUDA, NVENC, EGL, libav, Vulkan) or the kernel is a
    computation that records its calls with their answers; the answers are those of an
    arbitrary [Driver]. An [effect] says what a call does to the multiset of resources that
    are alive, and has no result when the call misuses one: released twice, used after it was
    released, written outside of its bounds. [safe] is the triple of a program logic in which
    code is shown never to misuse anything and to leave alive what its postcondition
    says. *)

From Stdlib Require Import ZArith Lia.
From stdpp Require Import prelude list gmultiset.
From S2P Require Import Prelude.

Section Calls.
Context {call : Set -> Set}.

Inductive event :=
| Ev (A : Set) (c : call A) (a : A).

Class Driver := respond : forall A : Set, list event -> call A -> A.

(** Ask the driver, from code whose own state is [X]. *)
Definition ask {X E} {A : Set} `{Driver} (c : call A) : Eff (X * list event) E A := fun '(x, t) =>
  let a := respond A t c in ((x, t ++ [Ev A c a]), Ok a).

Definition here {X E} : Eff (X * list event) E X := fun s => (s, Ok s.1).
Definition change {X E} (f : X -> X) : Eff (X * list event) E unit := fun '(x, t) => ((f x, t), Ok ()).
Definition fail {X E A} (e : E) : Eff (X * list event) E A := fun s => (s, Err e).

(** [f().is_some()], [f().unwrap_or(..)]: the failure is a value here. *)
Definition attempt {X E E' A} (m : Eff (X * list event) E A) : Eff (X * list event) E' (result A E) :=
  fun s => match m s with (s', r) => (s', Ok r) end.

Fixpoint each {S E A} (l : list A) (f : A -> Eff S E unit) : Eff S E unit :=
  match l with
  | [] => mret ()
  | a :: l' => f a ;; each l' f
  end.

(** Code of a part [Y] of the state. *)
Definition on_part {X Y E A} (get : X -> Y) (put : Y -> X -> X) (m : Eff (Y * list event) E A) :
    Eff (X * list event) E A := fun '(x, t) =>
  match m (get x, t) with ((y, t'), r) => ((put y x, t'), r) end.

(** Code that has no state of its own. *)
Definition on_none {X E A} (m : Eff (unit * list event) E A) : Eff (X * list event) E A := fun '(x, t) =>
  match m ((), t) with ((_, t'), r) => ((x, t'), r) end.
End Calls.
Arguments event : clear implicits.
Arguments Driver : clear implicits.

(** In a function that returns [Option]. *)
Abbreviation none := (fail ()).

(** ** What is alive *)

Section Resources.
Context {call : Set -> Set} {res : Type} `{Countable res}.

Class Effects := effect : event call -> gmultiset res -> option (gmultiset res).

Definition acquire (r : res) (L : gmultiset res) : option (gmultiset res) := Some ({[+ r +]} ⊎ L).
Definition release (r : res) (L : gmultiset res) : option (gmultiset res) :=
  if decide (r ∈ L) then Some (L ∖ {[+ r +]}) else None.
Definition borrow (r : res) (L : gmultiset res) : option (gmultiset res) :=
  if decide (r ∈ L) then Some L else None.
(** A misuse unless [b]. *)
Definition provided (b : bool) (o : option (gmultiset res)) : option (gmultiset res) :=
  if b then o else None.

Definition replay `{Effects} (L : gmultiset res) (t : list (event call)) : option (gmultiset res) :=
  foldl (fun o e => o ≫= effect e) (Some L) t.

Lemma replay_app `{Effects} L t e : replay L (t ++ [e]) = replay L t ≫= effect e.
Proof. unfold replay. by rewrite foldl_app. Qed.

Lemma release_acquired r L : release r ({[+ r +]} ⊎ L) = Some L.
Proof.
  unfold release. rewrite decide_True by multiset_solver. f_equal. multiset_solver.
Qed.

Lemma release_below r s L : r ∈ L -> release r ({[+ s +]} ⊎ L) = Some ({[+ s +]} ⊎ (L ∖ {[+ r +]})).
Proof.
  intros Hr. unfold release. rewrite decide_True by multiset_solver. f_equal. multiset_solver.
Qed.

Lemma release_eq r L L' : L = {[+ r +]} ⊎ L' -> release r L = Some L'.
Proof. intros ->. apply release_acquired. Qed.

Lemma borrow_alive r L : r ∈ L -> borrow r L = Some L.
Proof. intros Hr. unfold borrow. by rewrite decide_True. Qed.

Lemma provided_true b (o : option (gmultiset res)) : b = true -> provided b o = o.
Proof. by intros ->. Qed.

(** ** The logic *)

Definition safe {X E A} `{Effects} (L0 : gmultiset res) (m : Eff (X * list (event call)) E A) (x : X)
    (L : gmultiset res) (Q : X -> gmultiset res -> result A E -> Prop) : Prop :=
  forall t, replay L0 t = Some L ->
    match m (x, t) with
    | ((x', t'), r) => exists L', replay L0 t' = Some L' /\ Q x' L' r
    end.

Section rules.
Context `{Effects} {D : Driver call} {X E : Type} (L0 : gmultiset res).
Implicit Types (x : X) (L : gmultiset res).

Lemma safe_ret {A} (a : A) x L (Q : X -> gmultiset res -> result A E -> Prop) :
  Q x L (Ok a) -> safe L0 (mret a) x L Q.
Proof. intros HQ t Ht. exists L. done. Qed.

Lemma safe_fail {A} (e : E) x L (Q : X -> gmultiset res -> result A E -> Prop) :
  Q x L (Err e) -> safe L0 (fail e) x L Q.
Proof. intros HQ t Ht. exists L. done. Qed.

Lemma safe_here x L (Q : X -> gmultiset res -> result X E -> Prop) :
  Q x L (Ok x) -> safe L0 here x L Q.
Proof. intros HQ t Ht. exists L. done. Qed.

Lemma safe_change (f : X -> X) x L (Q : X -> gmultiset res -> result unit E -> Prop) :
  Q (f x) L (Ok ()) -> safe L0 (change f) x L Q.
Proof. intros HQ t Ht. exists L. done. Qed.

Lemma safe_ask {A : Set} (c : call A) x L (Q : X -> gmultiset res -> result A E -> Prop) :
  (forall a, exists L', effect (Ev A c a) L = Some L' /\ Q x L' (Ok a)) -> safe L0 (ask c) x L Q.
Proof.
  intros Hc t Ht. cbn. destruct (Hc (respond A t c)) as (L' & HL & HQ).
  exists L'. rewrite replay_app, Ht. done.
Qed.

(** The same where it matters what the driver may answer. *)
Lemma safe_ask_law {A : Set} (c : call A) x L (Q : X -> gmultiset res -> result A E -> Prop) :
  (forall t, exists L', effect (Ev A c (respond A t c)) L = Some L' /\ Q x L' (Ok (respond A t c))) ->
  safe L0 (ask c) x L Q.
Proof.
  intros Hc t Ht. cbn. destruct (Hc t) as (L' & HL & HQ). exists L'. rewrite replay_app, Ht. done.
Qed.

Lemma safe_bind {A B} (m : Eff (X * list (event call)) E A) (k : A -> Eff (X * list (event call)) E B) x L
    (Q : X -> gmultiset res -> result B E -> Prop) :
  safe L0 m x L (fun x' L' r =>
    match r with Ok a => safe L0 (k a) x' L' Q | Err e => Q x' L' (Err e) end) ->
  safe L0 (m ≫= k) x L Q.
Proof.
  intros Hm t Ht. specialize (Hm t Ht). unfold mbind, eff_mbind.
  destruct (m (x, t)) as [[x' t'] [a|e]]; destruct Hm as (L' & HL & HQ); [by apply HQ | by exists L'].
Qed.

Lemma safe_attempt {A E'} (m : Eff (X * list (event call)) E' A) x L
    (Q : X -> gmultiset res -> result (result A E') E -> Prop) :
  safe L0 m x L (fun x' L' r => Q x' L' (Ok r)) -> safe L0 (attempt m) x L Q.
Proof.
  intros Hm t Ht. specialize (Hm t Ht). unfold attempt. by destruct (m (x, t)) as [[x' t'] r].
Qed.

Lemma safe_part {Y A} (g : X -> Y) (p : Y -> X -> X) (m : Eff (Y * list (event call)) E A) x L
    (Q : X -> gmultiset res -> result A E -> Prop) :
  safe L0 m (g x) L (fun y L' r => Q (p y x) L' r) -> safe L0 (on_part g p m) x L Q.
Proof.
  intros Hm t Ht. specialize (Hm t Ht). unfold on_part. by destruct (m (g x, t)) as [[y t'] r].
Qed.

Lemma safe_none {A} (m : Eff (unit * list (event call)) E A) x L
    (Q : X -> gmultiset res -> result A E -> Prop) :
  safe L0 m () L (fun _ L' r => Q x L' r) -> safe L0 (on_none m) x L Q.
Proof.
  intros Hm t Ht. specialize (Hm t Ht). unfold on_none. by destruct (m ((), t)) as [[y t'] r].
Qed.

Lemma safe_mono {A} (m : Eff (X * list (event call)) E A) x L
    (Q Q' : X -> gmultiset res -> result A E -> Prop) :
  safe L0 m x L Q -> (forall x' L' r, Q x' L' r -> Q' x' L' r) -> safe L0 m x L Q'.
Proof.
  intros Hm HQ t Ht. specialize (Hm t Ht). destruct (m (x, t)) as [[x' t'] r].
  destruct Hm as (L' & ? & ?). eauto.
Qed.

(** A loop keeps what its rounds keep. *)
Lemma safe_each {A} (l : list A) (f : A -> Eff (X * list (event call)) E unit)
    (I : X -> gmultiset res -> Prop) x L :
  (forall a x L, a ∈ l -> I x L -> safe L0 (f a) x L (fun x' L' _ => I x' L')) -> I x L ->
  safe L0 (each l f) x L (fun x' L' _ => I x' L').
Proof.
  revert x L. induction l as [|a l IH]; intros x L Hf Hx; cbn.
  - by apply safe_ret.
  - apply safe_bind. eapply safe_mono; [apply Hf; [left|done]|].
    intros x' L' [u|e] HI; [|done]. apply IH; [|done]. intros b y M Hb. apply Hf. by right.
Qed.
End rules.
End Resources.
Arguments Effects call res {_ _}.

(** ** Results

    The logic without resources: what a computation returns, whatever the driver answers. *)

Section Results.
Context {call : Set -> Set} {D : Driver call}.

Definition no_effects : Effects call unit := fun _ L => Some L.

Abbreviation yields m x Q := (safe (H0 := no_effects) ∅ m x ∅ (fun x' _ r => Q x' r)).

Lemma no_effects_replay (t : list (event call)) : replay (H0 := no_effects) ∅ t = Some ∅.
Proof. induction t as [|e t IH] using rev_ind; [done|]. by rewrite replay_app, IH. Qed.

Lemma yields_any {X E A} (m : Eff (X * list (event call)) E A) x L :
  safe (H0 := no_effects) ∅ m x L (fun _ _ _ => True).
Proof. intros t _. destruct (m (x, t)) as [[x' t'] r]. exists ∅. split; [apply no_effects_replay|done]. Qed.

Lemma yields_run {X E A} (m : Eff (X * list (event call)) E A) x t x' t' r (Q : X -> result A E -> Prop) :
  yields m x Q -> m (x, t) = ((x', t'), r) -> Q x' r.
Proof.
  intros Hm E0. specialize (Hm t (no_effects_replay t)). rewrite E0 in Hm. by destruct Hm as (L & _ & HQ).
Qed.
End Results.

(** A resource is there, in a union of single ones and what is known of the rest. *)
Ltac there :=
  first
    [ assumption
    | apply gmultiset_elem_of_singleton; reflexivity
    | apply gmultiset_elem_of_disj_union; left; apply gmultiset_elem_of_singleton; reflexivity
    | apply gmultiset_elem_of_disj_union; right; there ].

(** [L] without one [r], for an [L] that is written as a union of single resources. *)
Ltac without r L :=
  lazymatch L with
  | {[+ r +]} ⊎ ?M => M
  | {[+ ?s +]} ⊎ ?M => let N := without r M in constr:({[+ s +]} ⊎ N)
  | ({[+ r +]} ⊎ ?M) ⊎ ?N => constr:(M ⊎ N)
  | ?M ⊎ ?N => let N' := without r N in constr:(M ⊎ N')
  end.

(** [release r L = Some ?L']. *)
Ltac release_now :=
  lazymatch goal with
  | |- release ?r ?L = Some _ =>
      let M := without r L in
      refine (release_eq r L M _); multiset_solver
  end.

(** One step of a computation. A call leaves its effect to be computed. *)
Ltac safe_step :=
  cbv beta;
  lazymatch goal with
  | |- safe _ (_ ≫= _) _ _ _ => apply safe_bind
  | |- safe _ (mret _) _ _ _ => apply safe_ret
  | |- safe _ (fail _) _ _ _ => apply safe_fail
  | |- safe _ here _ _ _ => apply safe_here
  | |- safe _ (change _) _ _ _ => apply safe_change
  | |- safe _ (attempt _) _ _ _ => apply safe_attempt
  | |- safe _ (on_part _ _ _) _ _ _ => apply safe_part
  | |- safe _ (on_none _) _ _ _ => apply safe_none
  | |- safe _ (ask _) _ _ _ => apply safe_ask; intros ?; eexists; split
  | |- safe _ (let _ := _ in _) _ _ _ => cbv zeta
  | |- safe _ (let '(_, _) := ?p in _) _ _ _ => destruct p eqn:?
  | |- safe _ (if ?b then _ else _) _ _ _ => destruct b eqn:?
  | |- safe _ (match ?x with _ => _ end) _ _ _ => destruct x eqn:?
  end.

(** A result of a step that is known to be there. *)
Tactic Notation "take" uconstr(H) :=
  eapply safe_mono; [eapply H; try (by auto); try there|]; cbv beta;
  let x := fresh "x" in let L := fresh "L" in
  intros x L [?|?]; intros; destruct_and?; simplify_eq/=; try done.
