(* ===== verification/Nvenc.v ===== *)
(** * The CUDA driver and NVENC, as the recorder calls them
      ([crates/waymux-session/src/cuda_nvenc_record.rs])

    The constants and structures the recorder fills in, its calls as constructors of
    [cu_call], and their [effect]: which handles a call creates, releases or needs, and the
    memory it touches. A call through a function pointer needs the library the pointer came
    from to be loaded; a kernel launch and an encoding need the device memory they are given
    to be large enough; copies stay inside of what they copy from and to. *)

From Stdlib Require Import ZArith Lia.
From stdpp Require Import prelude strings list gmultiset.
From S2P Require Import Prelude Words Driver.

Open Scope Z_scope.

(** ** Constants *)

Definition EGL_LINUX_DMA_BUF_EXT : Z := 0x3270.
Definition EGL_LINUX_DRM_FOURCC_EXT : Z := 0x3271.
Definition EGL_DMA_BUF_PLANE0_FD_EXT : Z := 0x3272.
Definition EGL_DMA_BUF_PLANE0_OFFSET_EXT : Z := 0x3273.
Definition EGL_DMA_BUF_PLANE0_PITCH_EXT : Z := 0x3274.
Definition EGL_DMA_BUF_PLANE0_MODIFIER_LO_EXT : Z := 0x3443.
Definition EGL_DMA_BUF_PLANE0_MODIFIER_HI_EXT : Z := 0x3444.
Definition EGL_WIDTH : Z := 0x3057.
Definition EGL_HEIGHT : Z := 0x3056.
Definition EGL_NONE : Z := 0x3038.
Definition DRM_FORMAT_ARGB8888 : Z := 0x34325241.

Definition NVENCAPI_MAJOR : Z := 13.
Definition NVENCAPI_MINOR : Z := 0.
Definition NVENCAPI_VERSION : Z := Z.lor NVENCAPI_MAJOR (Z.shiftl NVENCAPI_MINOR 24).

Definition struct_ver (v : Z) : Z :=
  Z.lor (Z.lor NVENCAPI_VERSION (as_u 32 (Z.shiftl v 16))) (Z.shiftl 7 28).
Definition struct_ver_cap (v : Z) : Z := Z.lor (struct_ver v) (Z.shiftl 1 31).

Definition nv_enc_initialize_params_ver : Z := struct_ver_cap 7.
Definition nv_enc_config_ver : Z := struct_ver_cap 9.
Definition nv_enc_preset_config_ver : Z := struct_ver_cap 5.
Definition nv_enc_open_encode_session_ex_params_ver : Z := struct_ver 1.
Definition nv_enc_register_resource_ver : Z := struct_ver 5.
Definition nv_enc_map_input_resource_ver : Z := struct_ver 4.
Definition nv_enc_create_bitstream_buffer_ver : Z := struct_ver 1.
Definition nv_enc_reconfigure_params_ver : Z := struct_ver_cap 2.
Definition nv_enc_pic_params_ver : Z := struct_ver_cap 7.
Definition nv_enc_lock_bitstream_ver : Z := struct_ver_cap 2.
Definition nv_enc_sequence_param_payload_ver : Z := struct_ver 1.
Definition nv_encode_api_function_list_ver : Z := struct_ver 2.

Record GUID := { data1 : Z; data2 : Z; data3 : Z; data4 : list Z }.

Definition NV_ENC_CODEC_H264_GUID : GUID :=
  {| data1 := 0x6BC82762; data2 := 0x4E63; data3 := 0x4ca4;
     data4 := [0xaa; 0x85; 0x1e; 0x50; 0xf3; 0x21; 0xf6; 0xbf] |}.
Definition NV_ENC_H264_PROFILE_HIGH_GUID : GUID :=
  {| data1 := 0xe7cbc309; data2 := 0x4f7a; data3 := 0x4b89;
     data4 := [0xaf; 0x2a; 0xd5; 0x37; 0xc9; 0x2b; 0xe3; 0x10] |}.
Definition NV_ENC_PRESET_P5_GUID : GUID :=
  {| data1 := 0x21c6e6b4; data2 := 0x297a; data3 := 0x4cba;
     data4 := [0x99; 0x8f; 0xb6; 0xcb; 0xde; 0x72; 0xad; 0xe3] |}.

Definition NV_ENC_DEVICE_TYPE_CUDA : Z := 1.
Definition NV_ENC_TUNING_INFO_LOW_LATENCY : Z := 2.
Definition NV_ENC_INPUT_RESOURCE_TYPE_CUDADEVICEPTR : Z := 1.
Definition NV_ENC_BUFFER_FORMAT_NV12 : Z := 1.
Definition NV_ENC_INPUT_IMAGE : Z := 0.
Definition NV_ENC_PIC_STRUCT_FRAME : Z := 1.
Definition NV_ENC_PIC_FLAG_FORCEIDR : Z := 0x2.
Definition NV_ENC_PIC_FLAG_OUTPUT_SPSPPS : Z := 0x4.
Definition NV_ENC_PARAMS_RC_CBR : Z := 0x2.
Definition NV_ENC_MULTI_PASS_DISABLED : Z := 0.
Definition NV_ENC_RC_FLAG_ENABLE_AQ : Z := Z.shiftl 1 3.
Definition NV_ENC_RC_FLAG_ENABLE_TEMPORAL_AQ : Z := Z.shiftl 1 8.
Definition NV_ENC_H264_FLAG_REPEAT_SPSPPS : Z := Z.shiftl 1 12.

Definition viewer_rc_flags (aq_strength : Z) : Z :=
  Z.lor (Z.lor NV_ENC_RC_FLAG_ENABLE_AQ NV_ENC_RC_FLAG_ENABLE_TEMPORAL_AQ)
        (Z.shiftl (Z.land aq_strength 15) 12).

Definition SLOT_INITIALIZE_ENCODER : nat := 11.
Definition SLOT_CREATE_BITSTREAM_BUFFER : nat := 14.
Definition SLOT_DESTROY_BITSTREAM_BUFFER : nat := 15.
Definition SLOT_ENCODE_PICTURE : nat := 16.
Definition SLOT_LOCK_BITSTREAM : nat := 17.
Definition SLOT_UNLOCK_BITSTREAM : nat := 18.
Definition SLOT_GET_SEQUENCE_PARAMS : nat := 22.
Definition SLOT_MAP_INPUT_RESOURCE : nat := 25.
Definition SLOT_UNMAP_INPUT_RESOURCE : nat := 26.
Definition SLOT_DESTROY_ENCODER : nat := 27.
Definition SLOT_OPEN_ENCODE_SESSION_EX : nat := 29.
Definition SLOT_REGISTER_RESOURCE : nat := 30.
Definition SLOT_UNREGISTER_RESOURCE : nat := 31.
Definition SLOT_RECONFIGURE_ENCODER : nat := 32.
Definition SLOT_GET_ENCODE_PRESET_CONFIG_EX : nat := 39.

(** ** Structures

    The fields the recorder sets have their names; what a driver put into the others is kept
    in one field. *)

Record NV_ENC_RC_PARAMS := {
  rc_version : Z;
  rate_control_mode : Z;
  average_bit_rate : Z;
  max_bit_rate : Z;
  vbv_buffer_size : Z;
  vbv_initial_delay : Z;
  rc_flags : Z;
  low_delay_key_frame_scale : Z;
  multi_pass : Z;
  rc_others : list Z;
}.
#[export] Instance eta_rc : Eta NV_ENC_RC_PARAMS := fun r =>
  Build_NV_ENC_RC_PARAMS (rc_version r) (rate_control_mode r) (average_bit_rate r) (max_bit_rate r)
    (vbv_buffer_size r) (vbv_initial_delay r) (rc_flags r) (low_delay_key_frame_scale r) (multi_pass r)
    (rc_others r).

Record NV_ENC_CONFIG_H264_VUI_PARAMETERS := {
  video_signal_type_present_flag : Z;
  video_format : Z;
  video_full_range_flag : Z;
  colour_description_present_flag : Z;
  colour_primaries : Z;
  transfer_characteristics : Z;
  colour_matrix : Z;
  vui_others : list Z;
}.
#[export] Instance eta_vui : Eta NV_ENC_CONFIG_H264_VUI_PARAMETERS := fun r =>
  Build_NV_ENC_CONFIG_H264_VUI_PARAMETERS (video_signal_type_present_flag r) (video_format r)
    (video_full_range_flag r) (colour_description_present_flag r) (colour_primaries r)
    (transfer_characteristics r) (colour_matrix r) (vui_others r).

Record NV_ENC_CONFIG_H264 := {
  h264_flags : Z;
  idr_period : Z;
  vui_parameters : NV_ENC_CONFIG_H264_VUI_PARAMETERS;
  h264_others : list Z;
}.
#[export] Instance eta_h264 : Eta NV_ENC_CONFIG_H264 := fun r =>
  Build_NV_ENC_CONFIG_H264 (h264_flags r) (idr_period r) (vui_parameters r) (h264_others r).

Record NV_ENC_CONFIG := {
  cfg_version : Z;
  profile_guid : GUID;
  gop_length : Z;
  frame_interval_p : Z;
  rc_params : NV_ENC_RC_PARAMS;
  h264 : NV_ENC_CONFIG_H264;
  cfg_others : list Z;
}.
#[export] Instance eta_cfg : Eta NV_ENC_CONFIG := fun r =>
  Build_NV_ENC_CONFIG (cfg_version r) (profile_guid r) (gop_length r) (frame_interval_p r) (rc_params r)
    (h264 r) (cfg_others r).

Record NV_ENC_INITIALIZE_PARAMS := {
  ip_version : Z;
  encode_guid : GUID;
  preset_guid : GUID;
  encode_width : Z;
  encode_height : Z;
  dar_width : Z;
  dar_height : Z;
  frame_rate_num : Z;
  frame_rate_den : Z;
  enable_encode_async : Z;
  enable_ptd : Z;
  max_encode_width : Z;
  max_encode_height : Z;
  tuning_info : Z;
  encode_config : NV_ENC_CONFIG;
}.

Record NV_ENC_REGISTER_RESOURCE := {
  rr_version : Z;
  resource_type : Z;
  rr_width : Z;
  rr_height : Z;
  rr_pitch : Z;
  resource_to_register : Z;
  buffer_format : Z;
  buffer_usage : Z;
}.

Record NV_ENC_PIC_PARAMS := {
  pp_version : Z;
  input_width : Z;
  input_height : Z;
  input_pitch : Z;
  input_buffer : Z;
  output_bitstream : Z;
  buffer_fmt : Z;
  picture_structure : Z;
  encode_pic_flags : Z;
  input_timestamp : Z;
}.

(** [CUDA_MEMCPY2D] in the two ways it is used: from the host's memory, of which [len] bytes
    are there, to an array; and from the device to a buffer of the host of [len] bytes. *)
Inductive CUDA_MEMCPY2D :=
| HostToArray (len src_pitch dst_array width_in_bytes height : Z)
| DeviceToHost (src_device src_pitch dst_pitch width_in_bytes height len : Z).

(** The arguments of the conversion kernel and the shape of its launch. *)
Record Launch := {
  l_func : Z;
  l_grid : Z * Z * Z;
  l_block : Z * Z * Z;
  l_tex : Z;
  l_dst : Z;
  l_width : Z;
  l_height : Z;
  l_pitch : Z;
}.

(** ** Calls

    A handle is a number, null is zero. CUDA and NVENC answer with a status, zero for
    success, and what they wrote through the pointers they were given. *)

Inductive cu_call : Set -> Set :=
| DlOpen (name : string) : cu_call (option Z)
| DlSym (lib : Z) (name : string) : cu_call bool
| DlClose (lib : Z) : cu_call unit
| OpenNode (path : string) : cu_call Z
| CloseFd (fd : Z) : cu_call unit
| GbmCreateDevice (fd : Z) : cu_call Z
| GbmDeviceDestroy (dev : Z) : cu_call unit
| EglLoad (lib : Z) : cu_call bool
| EglGetPlatformDisplay (lib gbm : Z) : cu_call Z
| EglInitialize (lib dpy : Z) : cu_call bool
| EglGetProcAddress (lib : Z) (name : string) : cu_call bool
| EglTerminate (lib dpy : Z) : cu_call unit
| EglCreateImage (lib dpy target : Z) (attribs : list Z) : cu_call Z
| EglDestroyImage (lib dpy image : Z) : cu_call unit
| CuInit (lib flags : Z) : cu_call Z
| CuDeviceGet (lib ordinal : Z) : cu_call (Z * Z)
| CuCtxCreate (lib flags dev : Z) : cu_call (Z * Z)
| CuCtxDestroy (lib ctx : Z) : cu_call unit
| CuModuleLoadData (lib : Z) : cu_call (Z * Z)
| CuModuleGetFunction (lib module : Z) (name : string) : cu_call (Z * Z)
| CuModuleUnload (lib module : Z) : cu_call unit
| CuMemAlloc (lib bytes : Z) : cu_call (Z * Z)
| CuMemFree (lib ptr : Z) : cu_call unit
| CuArrayCreate (lib width height channels : Z) : cu_call (Z * Z)
| CuArrayDestroy (lib array : Z) : cu_call unit
| CuMemcpy2D (lib : Z) (copy : CUDA_MEMCPY2D) : cu_call (Z * list Z)
| CuRegisterImage (lib image : Z) : cu_call (Z * Z)
| CuGetMappedFrame (lib resource : Z) : cu_call (Z * Z)
| CuUnregister (lib resource : Z) : cu_call unit
| CuTexObjectCreate (lib array : Z) : cu_call (Z * Z)
| CuTexObjectDestroy (lib tex : Z) : cu_call unit
| CuLaunchKernel (lib : Z) (l : Launch) : cu_call Z
| CuStreamSynchronize (lib : Z) : cu_call Z
| NvCreateInstance (lib version : Z) : cu_call (Z * (nat -> Z))
| NvOpenEncodeSessionEx (lib version device_type device api_version : Z) : cu_call (Z * Z)
| NvGetEncodePresetConfigEx (lib encoder : Z) (codec preset : GUID) (tuning version cfg_version : Z)
    : cu_call (Z * NV_ENC_CONFIG)
| NvInitializeEncoder (lib encoder : Z) (p : NV_ENC_INITIALIZE_PARAMS) : cu_call Z
| NvReconfigureEncoder (lib encoder version flags : Z) (p : NV_ENC_INITIALIZE_PARAMS) : cu_call Z
| NvCreateBitstreamBuffer (lib encoder version : Z) : cu_call (Z * Z)
| NvDestroyBitstreamBuffer (lib encoder bitstream : Z) : cu_call unit
| NvDestroyEncoder (lib encoder : Z) : cu_call unit
| NvGetSequenceParams (lib encoder version in_buffer_size : Z) : cu_call (Z * (Z * list Z))
| NvRegisterResource (lib encoder : Z) (p : NV_ENC_REGISTER_RESOURCE) : cu_call (Z * Z)
| NvUnregisterResource (lib encoder resource : Z) : cu_call unit
| NvMapInputResource (lib encoder version resource : Z) : cu_call (Z * Z)
| NvUnmapInputResource (lib encoder mapped : Z) : cu_call unit
| NvEncodePicture (lib encoder : Z) (p : NV_ENC_PIC_PARAMS) : cu_call Z
| NvLockBitstream (lib encoder version bitstream : Z) : cu_call (Z * (Z * list Z))
| NvUnlockBitstream (lib encoder bitstream : Z) : cu_call unit
| GetVar (name : string) : cu_call (option string)
| WritePng (path : string) (width height : Z) (rgb : list Z) : cu_call bool.

Abbreviation cu_event := (event cu_call).

(** ** Resources *)

Inductive handle :=
| HLib (h : Z)
| HFd (h : Z)
| HGbm (h : Z)
| HDisplay (h : Z)
| HImage (h : Z)
| HCtx (h : Z)
| HModule (h : Z)
| HMem (h bytes : Z)
| HArray (h width height : Z)
| HResource (h : Z)
| HTex (h : Z)
| HEncoder (h : Z)
| HBitstream (h : Z)
| HRegistered (h : Z)
| HMapped (h : Z)
| HLocked (h : Z).

#[global] Instance handle_eq_dec : EqDecision handle.
Proof. solve_decision. Defined.

#[global] Instance handle_countable : Countable handle.
Proof.
  refine (inj_countable'
    (fun r => match r with
     | HLib h => (0%nat, (h, 0, 0)) | HFd h => (1%nat, (h, 0, 0)) | HGbm h => (2%nat, (h, 0, 0))
     | HDisplay h => (3%nat, (h, 0, 0)) | HImage h => (4%nat, (h, 0, 0)) | HCtx h => (5%nat, (h, 0, 0))
     | HModule h => (6%nat, (h, 0, 0)) | HMem h n => (7%nat, (h, n, 0)) | HArray h a b => (8%nat, (h, a, b))
     | HResource h => (9%nat, (h, 0, 0)) | HTex h => (10%nat, (h, 0, 0)) | HEncoder h => (11%nat, (h, 0, 0))
     | HBitstream h => (12%nat, (h, 0, 0)) | HRegistered h => (13%nat, (h, 0, 0))
     | HMapped h => (14%nat, (h, 0, 0)) | HLocked h => (15%nat, (h, 0, 0))
     end)
    (fun '(k, (h, a, b)) => match k with
     | 0 => HLib h | 1 => HFd h | 2 => HGbm h | 3 => HDisplay h | 4 => HImage h | 5 => HCtx h
     | 6 => HModule h | 7 => HMem h a | 8 => HArray h a b | 9 => HResource h | 10 => HTex h
     | 11 => HEncoder h | 12 => HBitstream h | 13 => HRegistered h | 14 => HMapped h | _ => HLocked h
     end%nat) _).
  by intros [].
Defined.

Abbreviation handles := (gmultiset handle).

Definition loaded (lib : Z) (L : handles) : bool := bool_decide (HLib lib ∈ L).
Definition alive (r : handle) (L : handles) : bool := bool_decide (r ∈ L).

(** Some CUDA context is there to work in. *)
Definition is_ctx (r : handle) : bool := match r with HCtx _ => true | _ => false end.
Definition in_ctx (L : handles) : bool := existsb is_ctx (elements L).

(** The sizes of the allocation at an address. *)
Definition mem_bytes (ptr : Z) (r : handle) : option Z :=
  match r with HMem h n => if h =? ptr then Some n else None | _ => None end.
Definition room (ptr need : Z) (L : handles) : bool :=
  existsb (fun r => match mem_bytes ptr r with Some n => need <=? n | None => false end) (elements L).
Definition array_room (array w_bytes rows : Z) (L : handles) : bool :=
  existsb (fun r => match r with
                    | HArray h w hh => (h =? array) && (w_bytes <=? w * 4) && (rows <=? hh)
                    | _ => false end) (elements L).

(** The bytes of a pitched NV12 picture, chroma rows rounded up. *)
Definition nv12_span (pitch height : Z) : Z := pitch * (height + (height + 1) / 2).

(** ** The conversion kernel ([cuda_nv12_csc.cu])

    A thread converts a block of two by two pixels; the places it writes. *)

Definition thread_writes (width height pitch bx by_ : Z) : list Z :=
  let x := bx * 2 in
  let y := by_ * 2 in
  if (width <=? x) || (height <=? y) then []
  else
    let luma := '(dx, dy) ← [(0, 0); (1, 0); (0, 1); (1, 1)];
                if (width <=? x + dx) || (height <=? y + dy) then [] else [(y + dy) * pitch + (x + dx)] in
    let uv := pitch * height + by_ * pitch + bx * 2 in
    luma ++ [uv; uv + 1].

(** All threads of a launch. *)
Definition kernel_writes (l : Launch) : list Z :=
  let '(gx, gy, _) := l_grid l in
  let '(tx, ty, _) := l_block l in
  by_ ← seqZ 0 (gy * ty);
  bx ← seqZ 0 (gx * tx);
  thread_writes (l_width l) (l_height l) (l_pitch l) bx by_.

(** A launch may write only what was allocated at its destination. *)
Definition launch_room (l : Launch) (L : handles) : bool :=
  existsb (fun r => match mem_bytes (l_dst l) r with
                    | Some n => forallb (fun i => (0 <=? i) && (i <? n)) (kernel_writes l)
                    | None => false end) (elements L).

(** ** Effects *)

(** Release by address. *)
Definition release_which (f : handle -> bool) (L : handles) : option handles :=
  match List.find f (elements L) with Some r => release r L | None => None end.

(** A handle that comes with a status. *)
Definition got (a : Z * Z) (r : Z -> handle) (L : handles) : option handles :=
  Some (if negb (a.1 =? 0) || (a.2 =? 0) then L else {[+ r a.2 +]} ⊎ L).

#[export] Instance cu_effects : Effects cu_call handle := fun e L =>
  match e with
  | Ev _ c a =>
      match c in cu_call T return T -> option handles with
      | DlOpen _ => fun a => Some (match a with Some h => {[+ HLib h +]} ⊎ L | None => L end)
      | DlSym lib _ => fun _ => borrow (HLib lib) L
      | DlClose lib => fun _ => release (HLib lib) L
      | OpenNode _ => fun a => Some (if a <? 0 then L else {[+ HFd a +]} ⊎ L)
      | CloseFd fd => fun _ => release (HFd fd) L
      | GbmCreateDevice fd => fun a =>
          provided (alive (HFd fd) L) (Some (if a =? 0 then L else {[+ HGbm a +]} ⊎ L))
      | GbmDeviceDestroy g => fun _ => release (HGbm g) L
      | EglLoad lib => fun _ => borrow (HLib lib) L
      | EglGetPlatformDisplay lib g => fun _ => provided (loaded lib L && alive (HGbm g) L) (Some L)
      | EglInitialize lib d => fun a =>
          provided (loaded lib L) (Some (if negb a then L else {[+ HDisplay d +]} ⊎ L))
      | EglGetProcAddress lib _ => fun _ => borrow (HLib lib) L
      | EglTerminate lib d => fun _ => provided (loaded lib L) (release (HDisplay d) L)
      | EglCreateImage lib d _ _ => fun a =>
          provided (loaded lib L && alive (HDisplay d) L) (Some (if a =? 0 then L else {[+ HImage a +]} ⊎ L))
      | EglDestroyImage lib d i => fun _ =>
          provided (loaded lib L && alive (HDisplay d) L) (release (HImage i) L)
      | CuInit lib _ => fun _ => borrow (HLib lib) L
      | CuDeviceGet lib _ => fun _ => borrow (HLib lib) L
      | CuCtxCreate lib _ _ => fun a => provided (loaded lib L) (got a HCtx L)
      | CuCtxDestroy lib c => fun _ => provided (loaded lib L) (release (HCtx c) L)
      | CuModuleLoadData lib => fun a => provided (loaded lib L && in_ctx L) (got a HModule L)
      | CuModuleGetFunction lib m _ => fun _ => provided (loaded lib L && alive (HModule m) L) (Some L)
      | CuModuleUnload lib m => fun _ => provided (loaded lib L && in_ctx L) (release (HModule m) L)
      | CuMemAlloc lib n => fun a => provided (loaded lib L && in_ctx L) (got a (fun p => HMem p n) L)
      | CuMemFree lib p => fun _ =>
          provided (loaded lib L && in_ctx L)
            (release_which (fun r => bool_decide (mem_bytes p r <> None)) L)
      | CuArrayCreate lib w h _ => fun a => provided (loaded lib L && in_ctx L) (got a (fun p => HArray p w h) L)
      | CuArrayDestroy lib p => fun _ =>
          provided (loaded lib L && in_ctx L)
            (release_which (fun r => match r with HArray h _ _ => h =? p | _ => false end) L)
      | CuMemcpy2D lib copy => fun _ =>
          provided (loaded lib L && in_ctx L)
            match copy with
            | HostToArray len sp arr wb rows =>
                provided ((((rows =? 0) || (wb =? 0) || ((rows - 1) * sp + wb <=? len))
                          && (wb <=? sp) && array_room arr wb rows L)) (Some L)
            | DeviceToHost src sp dp wb rows len =>
                provided (room src (rows * sp) L && (rows * dp <=? len) && (wb <=? sp) && (wb <=? dp)) (Some L)
            end
      | CuRegisterImage lib i => fun a =>
          provided (loaded lib L && in_ctx L && alive (HImage i) L) (got a HResource L)
      | CuGetMappedFrame lib r => fun _ => provided (loaded lib L && alive (HResource r) L) (Some L)
      | CuUnregister lib r => fun _ => provided (loaded lib L && in_ctx L) (release (HResource r) L)
      | CuTexObjectCreate lib _ => fun a => provided (loaded lib L && in_ctx L) (got a HTex L)
      | CuTexObjectDestroy lib x => fun _ => provided (loaded lib L && in_ctx L) (release (HTex x) L)
      | CuLaunchKernel lib l => fun _ =>
          provided (loaded lib L && in_ctx L && alive (HTex (l_tex l)) L && launch_room l L) (Some L)
      | CuStreamSynchronize lib => fun _ => provided (loaded lib L && in_ctx L) (Some L)
      | NvCreateInstance lib _ => fun _ => borrow (HLib lib) L
      | NvOpenEncodeSessionEx lib _ _ dev _ => fun a =>
          provided (loaded lib L && alive (HCtx dev) L) (got a HEncoder L)
      | NvGetEncodePresetConfigEx lib e _ _ _ _ _ => fun _ =>
          provided (loaded lib L && alive (HEncoder e) L) (Some L)
      | NvInitializeEncoder lib e _ => fun _ => provided (loaded lib L && alive (HEncoder e) L) (Some L)
      | NvReconfigureEncoder lib e _ _ _ => fun _ => provided (loaded lib L && alive (HEncoder e) L) (Some L)
      | NvCreateBitstreamBuffer lib e _ => fun a =>
          provided (loaded lib L && alive (HEncoder e) L) (got a HBitstream L)
      | NvDestroyBitstreamBuffer lib e b => fun _ =>
          provided (loaded lib L && alive (HEncoder e) L) (release (HBitstream b) L)
      | NvDestroyEncoder lib e => fun _ => provided (loaded lib L && in_ctx L) (release (HEncoder e) L)
      | NvGetSequenceParams lib e _ _ => fun _ => provided (loaded lib L && alive (HEncoder e) L) (Some L)
      | NvRegisterResource lib e p => fun a =>
          provided (loaded lib L && alive (HEncoder e) L
                    && room (resource_to_register p) (nv12_span (rr_pitch p) (rr_height p)) L)
            (got a HRegistered L)
      | NvUnregisterResource lib e r => fun _ =>
          provided (loaded lib L && alive (HEncoder e) L) (release (HRegistered r) L)
      | NvMapInputResource lib e _ r => fun a =>
          provided (loaded lib L && alive (HEncoder e) L && alive (HRegistered r) L) (got a HMapped L)
      | NvUnmapInputResource lib e m => fun _ =>
          provided (loaded lib L && alive (HEncoder e) L) (release (HMapped m) L)
      | NvEncodePicture lib e p => fun _ =>
          provided (loaded lib L && alive (HEncoder e) L && alive (HMapped (input_buffer p)) L
                    && alive (HBitstream (output_bitstream p)) L) (Some L)
      | NvLockBitstream lib e _ b => fun a =>
          provided (loaded lib L && alive (HEncoder e) L && alive (HBitstream b) L)
            (Some (if negb (a.1 =? 0) || (a.2.1 =? 0) then L else {[+ HLocked b +]} ⊎ L))
      | NvUnlockBitstream lib e b => fun _ =>
          provided (loaded lib L && alive (HEncoder e) L) (release (HLocked b) L)
      | GetVar _ => fun _ => Some L
      | WritePng _ _ _ _ => fun _ => Some L
      end a
  end.
