(* ===== verification/Cuda.v ===== *)
(** * The CUDA recorder ([crates/waymux-session/src/cuda_nvenc_record.rs])

    Opening EGL, CUDA and an NVENC session, encoding a dmabuf, host pixels or the last frame
    again, changing the bitrate, and the drops, over an arbitrary driver. *)

From Stdlib Require Import ZArith Lia SpecFloat Ascii.
From stdpp Require Import prelude strings list gmultiset pretty.
From S2P Require Import Prelude Words Driver Decimal Sys Nvenc Floats Recorder.

Open Scope Z_scope.

Abbreviation Cu X A := (Eff (X * list cu_event) unit A).

(** [u32::div_ceil]. *)
Definition div_ceil (a b : Z) : Z := (a + b - 1) / b.

(** ** The NVENC policy of a viewer *)

Definition VIEWER_BITRATE_BPS : Z := 8000000.
Definition VIEWER_FPS : Z := 60.
Definition VIEWER_GOP_LENGTH : Z := 0xFFFFFFFF.

Definition apply_viewer_encode_config (bps : Z) (config : NV_ENC_CONFIG) : NV_ENC_CONFIG :=
  config
    <| profile_guid := NV_ENC_H264_PROFILE_HIGH_GUID |>
    <| gop_length := VIEWER_GOP_LENGTH |>
    <| frame_interval_p := 1 |>
    <| rc_params ::= fun rc => rc
         <| rate_control_mode := NV_ENC_PARAMS_RC_CBR |>
         <| average_bit_rate := bps |>
         <| max_bit_rate := bps |>
         <| vbv_buffer_size := bps / VIEWER_FPS |>
         <| vbv_initial_delay := bps / VIEWER_FPS |>
         <| multi_pass := NV_ENC_MULTI_PASS_DISABLED |>
         <| low_delay_key_frame_scale := 1 |>
         <| rc_flags ::= fun f => Z.lor f (viewer_rc_flags 8) |> |>
    <| h264 ::= fun h => h
         <| idr_period := VIEWER_GOP_LENGTH |>
         <| h264_flags ::= fun f => Z.lor f NV_ENC_H264_FLAG_REPEAT_SPSPPS |>
         <| vui_parameters ::= fun v => v
              <| video_signal_type_present_flag := 1 |>
              <| video_format := 5 |>
              <| video_full_range_flag := 0 |>
              <| colour_description_present_flag := 1 |>
              <| colour_primaries := 1 |>
              <| transfer_characteristics := 1 |>
              <| colour_matrix := 1 |> |> |>.

Definition initialize_params (width height : Z) (config : NV_ENC_CONFIG) : NV_ENC_INITIALIZE_PARAMS :=
  {| ip_version := nv_enc_initialize_params_ver;
     encode_guid := NV_ENC_CODEC_H264_GUID;
     preset_guid := NV_ENC_PRESET_P5_GUID;
     encode_width := width;
     encode_height := height;
     dar_width := width;
     dar_height := height;
     frame_rate_num := VIEWER_FPS;
     frame_rate_den := 1;
     enable_encode_async := 0;
     enable_ptd := 1;
     max_encode_width := width;
     max_encode_height := height;
     tuning_info := NV_ENC_TUNING_INFO_LOW_LATENCY;
     encode_config := config |}.

(** ** What the recorder owns *)

Record EglCtx := {
  egl_display : Z;
  egl_has_destroy : bool;              (** [destroy_image: Option<..>] *)
  egl_lib : Z;
  egl_gbm : Z;
  egl_drm_fd : Z;
}.

Record CudaCtx := { cuda_lib : Z; cuda_ctx : Z }.

Record CuModule := { cm_module : Z; cm_func : Z }.

Record NvencSession := {
  nv_lib : Z;
  nv_funcs : nat -> Z;
  nv_encoder : Z;
  nv_width : Z;
  nv_height : Z;
  nv_bitstream : Z;
}.

Record CudaNvencRecorder := {
  cr_nvenc : NvencSession;
  cr_module : option CuModule;
  cr_cuda : CudaCtx;
  cr_egl : EglCtx;
  cr_width : Z;
  cr_height : Z;
  cr_codec_private : list Z;
  cr_nv12_devptr : Z;
  cr_nv12_pitch : Z;
  cr_input_array : Z;
  cr_has_encoded : bool;
  cr_dump_counter : Z;
  cr_oversize_logged : bool;
}.
#[export] Instance eta_recorder : Eta CudaNvencRecorder := fun r =>
  Build_CudaNvencRecorder (cr_nvenc r) (cr_module r) (cr_cuda r) (cr_egl r) (cr_width r) (cr_height r)
    (cr_codec_private r) (cr_nv12_devptr r) (cr_nv12_pitch r) (cr_input_array r) (cr_has_encoded r)
    (cr_dump_counter r) (cr_oversize_logged r).

Section Open.
Context `{Driver cu_call} {X : Type}.

(** ** EGL *)

Definition gbm_and_fd (gbm fd : Z) : Cu X unit := ask (GbmDeviceDestroy gbm) ;; ask (CloseFd fd).

(** The library is dropped when its loading fails, and with the locals when a later step
    fails. *)
Definition egl_open : Cu X EglCtx :=
  drm_fd ← ask (OpenNode "/dev/dri/renderD128");
  if drm_fd <? 0 then none
  else
    gbm ← ask (GbmCreateDevice drm_fd);
    if gbm =? 0 then ask (CloseFd drm_fd) ;; none
    else
      lib ← ask (DlOpen "libEGL.so.1");
      match lib with
      | None => gbm_and_fd gbm drm_fd ;; none
      | Some lib =>
          ok ← ask (EglLoad lib);
          if negb ok then ask (DlClose lib) ;; gbm_and_fd gbm drm_fd ;; none
          else
            display ← ask (EglGetPlatformDisplay lib gbm);
            if display =? 0 then gbm_and_fd gbm drm_fd ;; ask (DlClose lib) ;; none
            else
              ok ← ask (EglInitialize lib display);
              if negb ok then gbm_and_fd gbm drm_fd ;; ask (DlClose lib) ;; none
              else
                ok ← ask (EglGetProcAddress lib "eglCreateImageKHR");
                if negb ok then gbm_and_fd gbm drm_fd ;; ask (DlClose lib) ;; none
                else
                  destroy ← ask (EglGetProcAddress lib "eglDestroyImageKHR");
                  mret {| egl_display := display; egl_has_destroy := destroy; egl_lib := lib;
                          egl_gbm := gbm; egl_drm_fd := drm_fd |}
      end.

Definition egl_drop (e : EglCtx) : Cu X unit :=
  (if egl_display e =? 0 then mret () else ask (EglTerminate (egl_lib e) (egl_display e))) ;;
  (if egl_gbm e =? 0 then mret () else ask (GbmDeviceDestroy (egl_gbm e))) ;;
  (if egl_drm_fd e <? 0 then mret () else ask (CloseFd (egl_drm_fd e))) ;;
  ask (DlClose (egl_lib e)).

(** ** CUDA *)

Definition cuda_symbols : list string :=
  ["cuInit"; "cuDeviceGet"; "cuCtxCreate_v2"; "cuGraphicsEGLRegisterImage";
   "cuGraphicsResourceGetMappedEglFrame"; "cuGraphicsUnregisterResource"; "cuGetErrorString";
   "cuModuleLoadData"; "cuModuleGetFunction"; "cuModuleUnload"; "cuLaunchKernel"; "cuMemAlloc_v2";
   "cuMemFree_v2"; "cuStreamSynchronize"; "cuTexObjectCreate"; "cuTexObjectDestroy"; "cuCtxDestroy_v2";
   "cuArrayCreate_v2"; "cuMemcpy2D_v2"; "cuArrayDestroy"]%string.

(** The first symbol that is missing ends the search. *)
Fixpoint resolve (lib : Z) (names : list string) : Cu X bool :=
  match names with
  | [] => mret true
  | n :: names' => ok ← ask (DlSym lib n); if (ok : bool) then resolve lib names' else mret false
  end.

Definition cuda_load : Cu X Z :=
  lib ← ask (DlOpen "libcuda.so.1");
  match lib with
  | None => none
  | Some lib =>
      ok ← resolve lib cuda_symbols;
      if negb ok then ask (DlClose lib) ;; none
      else
        rc ← ask (CuInit lib 0);
        if negb (rc =? 0) then ask (DlClose lib) ;; none else mret lib
  end.

Definition cuda_open : Cu X CudaCtx :=
  lib ← cuda_load;
  dev ← ask (CuDeviceGet lib 0);
  if negb (dev.1 =? 0) then ask (DlClose lib) ;; none
  else
    ctx ← ask (CuCtxCreate lib 0 dev.2);
    if negb (ctx.1 =? 0) || (ctx.2 =? 0) then ask (DlClose lib) ;; none
    else mret {| cuda_lib := lib; cuda_ctx := ctx.2 |}.

Definition cuda_drop (c : CudaCtx) : Cu X unit :=
  (if cuda_ctx c =? 0 then mret () else ask (CuCtxDestroy (cuda_lib c) (cuda_ctx c))) ;;
  ask (DlClose (cuda_lib c)).

Definition load_csc_module (c : CudaCtx) : Cu X CuModule :=
  m ← ask (CuModuleLoadData (cuda_lib c));
  if negb (m.1 =? 0) || (m.2 =? 0) then none
  else
    f ← ask (CuModuleGetFunction (cuda_lib c) m.2 "argb_to_nv12_bt709");
    if negb (f.1 =? 0) || (f.2 =? 0) then ask (CuModuleUnload (cuda_lib c) m.2) ;; none
    else mret {| cm_module := m.2; cm_func := f.2 |}.

Definition module_drop (lib : Z) (m : option CuModule) : Cu X unit :=
  match m with
  | Some m => if cm_module m =? 0 then mret () else ask (CuModuleUnload lib (cm_module m))
  | None => mret ()
  end.

(** ** NVENC *)

Definition destroy_encoder (lib : Z) (funcs : nat -> Z) (encoder : Z) : Cu X unit :=
  if encoder =? 0 then mret ()
  else if funcs SLOT_DESTROY_ENCODER =? 0 then mret ()
  else ask (NvDestroyEncoder lib encoder).

(** A fresh configuration of the driver for the preset, with the viewer's policy on it. *)
Definition preset_config (lib encoder bps : Z) : Cu X NV_ENC_CONFIG :=
  p ← ask (NvGetEncodePresetConfigEx lib encoder NV_ENC_CODEC_H264_GUID NV_ENC_PRESET_P5_GUID
             NV_ENC_TUNING_INFO_LOW_LATENCY nv_enc_preset_config_ver nv_enc_config_ver);
  if negb (p.1 =? 0) then none
  else mret (apply_viewer_encode_config bps (p.2 <| cfg_version := nv_enc_config_ver |>)).

(** The steps after the session is there; a failure destroys it. *)
Definition nvenc_setup (lib : Z) (funcs : nat -> Z) (encoder width height : Z) : Cu X Z :=
  if funcs SLOT_GET_ENCODE_PRESET_CONFIG_EX =? 0 then none
  else
    config ← preset_config lib encoder VIEWER_BITRATE_BPS;
    if funcs SLOT_INITIALIZE_ENCODER =? 0 then none
    else
      rc ← ask (NvInitializeEncoder lib encoder (initialize_params width height config));
      if negb (rc =? 0) then none
      else if funcs SLOT_CREATE_BITSTREAM_BUFFER =? 0 then none
      else
        bs ← ask (NvCreateBitstreamBuffer lib encoder nv_enc_create_bitstream_buffer_ver);
        if negb (bs.1 =? 0) || (bs.2 =? 0) then none else mret bs.2.

Definition nvenc_open (cuctx width height : Z) : Cu X NvencSession :=
  lib ← ask (DlOpen "libnvidia-encode.so.1");
  match lib with
  | None => none
  | Some lib =>
      ok ← ask (DlSym lib "NvEncodeAPICreateInstance");
      if negb ok then ask (DlClose lib) ;; none
      else
        fs ← ask (NvCreateInstance lib nv_encode_api_function_list_ver);
        if negb (fs.1 =? 0) then ask (DlClose lib) ;; none
        else
          let funcs := fs.2 in
          if funcs SLOT_OPEN_ENCODE_SESSION_EX =? 0 then ask (DlClose lib) ;; none
          else
            enc ← ask (NvOpenEncodeSessionEx lib nv_enc_open_encode_session_ex_params_ver
                         NV_ENC_DEVICE_TYPE_CUDA cuctx NVENCAPI_VERSION);
            if negb (enc.1 =? 0) || (enc.2 =? 0) then ask (DlClose lib) ;; none
            else
              bs ← attempt (nvenc_setup lib funcs enc.2 width height);
              match bs with
              | Err _ => destroy_encoder lib funcs enc.2 ;; ask (DlClose lib) ;; none
              | Ok bitstream =>
                  mret {| nv_lib := lib; nv_funcs := funcs; nv_encoder := enc.2; nv_width := width;
                          nv_height := height; nv_bitstream := bitstream |}
              end
  end.

Definition nvenc_drop (n : NvencSession) : Cu X unit :=
  (if nv_bitstream n =? 0 then mret ()
   else if nv_funcs n SLOT_DESTROY_BITSTREAM_BUFFER =? 0 then mret ()
   else ask (NvDestroyBitstreamBuffer (nv_lib n) (nv_encoder n) (nv_bitstream n))) ;;
  destroy_encoder (nv_lib n) (nv_funcs n) (nv_encoder n) ;;
  ask (DlClose (nv_lib n)).

Definition nvenc_reconfigure_bitrate (n : NvencSession) (bps : Z) : Cu X bool :=
  if nv_funcs n SLOT_GET_ENCODE_PRESET_CONFIG_EX =? 0 then mret false
  else
    c ← attempt (preset_config (nv_lib n) (nv_encoder n) bps);
    match c with
    | Err _ => mret false
    | Ok config =>
        if nv_funcs n SLOT_RECONFIGURE_ENCODER =? 0 then mret false
        else
          rc ← ask (NvReconfigureEncoder (nv_lib n) (nv_encoder n) nv_enc_reconfigure_params_ver 0
                      (initialize_params (nv_width n) (nv_height n) config));
          mret (rc =? 0)
    end.

Definition sequence_params (n : NvencSession) : Cu X (list Z) :=
  if nv_funcs n SLOT_GET_SEQUENCE_PARAMS =? 0 then none
  else
    p ← ask (NvGetSequenceParams (nv_lib n) (nv_encoder n) nv_enc_sequence_param_payload_ver 1024);
    if negb (p.1 =? 0) then none
    else
      let buf := take 1024 (p.2.2 ++ replicate 1024 0) in
      mret (truncate (Z.to_nat (Z.min p.2.1 1024)) buf).

(** ** The recorder *)

Definition nv12_pitch (width : Z) : Z := as_u 32 (div_ceil width 256 * 256).
Definition nv12_bytes (width height : Z) : Z := as_u 64 (nv12_pitch width * (height + div_ceil height 2)).

(** The steps of [try_new] after CUDA is there. When one fails what was opened before is
    dropped, the last first. *)
Definition try_encoder (egl : EglCtx) (cuda : CudaCtx) (cu_module : option CuModule) (width height : Z) :
    Cu X CudaNvencRecorder :=
  nv ← attempt (nvenc_open (cuda_ctx cuda) width height);
  match nv with
  | Err _ => module_drop (cuda_lib cuda) cu_module ;; cuda_drop cuda ;; egl_drop egl ;; none
  | Ok nvenc =>
      cp ← attempt (sequence_params nvenc);
      let codec_private := match cp with Ok p => p | Err _ => [] end in
      p ← ask (CuMemAlloc (cuda_lib cuda) (nv12_bytes width height));
      if negb (p.1 =? 0) || (p.2 =? 0)
      then nvenc_drop nvenc ;; module_drop (cuda_lib cuda) cu_module ;; cuda_drop cuda ;; egl_drop egl ;; none
      else
        mret {| cr_nvenc := nvenc; cr_module := cu_module; cr_cuda := cuda; cr_egl := egl;
                cr_width := width; cr_height := height; cr_codec_private := codec_private;
                cr_nv12_devptr := p.2; cr_nv12_pitch := nv12_pitch width; cr_input_array := 0;
                cr_has_encoded := false; cr_dump_counter := 0; cr_oversize_logged := false |}
  end.

Definition try_new (width height : Z) : Cu X CudaNvencRecorder :=
  egl ← egl_open;
  cuda ← attempt cuda_open;
  match cuda with
  | Err _ => egl_drop egl ;; none
  | Ok cuda =>
      m ← attempt (load_csc_module cuda);
      try_encoder egl cuda (match m with Ok m => Some m | Err _ => None end) width height
  end.

(** The drop of the recorder, then of its fields in their order. *)
Definition recorder_drop (r : CudaNvencRecorder) : Cu X unit :=
  let lib := cuda_lib (cr_cuda r) in
  (if cr_nv12_devptr r =? 0 then mret () else ask (CuMemFree lib (cr_nv12_devptr r))) ;;
  (if cr_input_array r =? 0 then mret () else ask (CuArrayDestroy lib (cr_input_array r))) ;;
  nvenc_drop (cr_nvenc r) ;;
  module_drop lib (cr_module r) ;;
  cuda_drop (cr_cuda r) ;;
  egl_drop (cr_egl r).
End Open.

(** ** Frames *)

Definition safe_encode_dims (req_w req_h req_stride max_w max_h max_pitch : Z) : option (Z * Z * Z) :=
  if (max_w <? req_w) || (max_h <? req_h) then None
  else if negb (req_stride =? 0) && (max_pitch <? req_stride) then None
  else Some (req_w, req_h, req_stride).

(** [nv12_to_rgb], in [f32] arithmetic; [None] when an index is out of range. *)
Abbreviation f32_mul := (SFmul 24 128).
Abbreviation f32_sub := (SFsub 24 128).
Abbreviation f32_add := (SFadd 24 128).
Abbreviation f32_div := (SFdiv 24 128).
Definition f32_int (n : Z) : f32 := binary_normalize 24 128 n 0 false.

(** [0.2126], [0.7152], [0.0722]. *)
Definition KR : f32 := f32_div (f32_int 2126) (f32_int 10000).
Definition KG : f32 := f32_div (f32_int 7152) (f32_int 10000).
Definition KB : f32 := f32_div (f32_int 722) (f32_int 10000).

(** [x.clamp(0.0, 255.0) as u8]: a NaN becomes zero. *)
Definition f32_clamp_u8 (x : f32) : Z :=
  if SFltb x (f32_int 0) then 0
  else if SFltb (f32_int 255) x then 255
  else match x with
       | S754_finite false m e => Z.shiftl (Zpos m) e
       | _ => 0
       end.

Definition nv12_pixel (luma cb cr : Z) : list Z :=
  let yp := f32_mul (f32_sub (f32_int luma) (f32_int 16)) (f32_div (f32_int 255) (f32_int 219)) in
  let cbp := f32_mul (f32_sub (f32_int cb) (f32_int 128)) (f32_div (f32_int 255) (f32_int 224)) in
  let crp := f32_mul (f32_sub (f32_int cr) (f32_int 128)) (f32_div (f32_int 255) (f32_int 224)) in
  let r := f32_add yp (f32_mul (f32_mul (f32_int 2) (f32_sub (f32_int 1) KR)) crp) in
  let b := f32_add yp (f32_mul (f32_mul (f32_int 2) (f32_sub (f32_int 1) KB)) cbp) in
  let g := f32_div (f32_sub (f32_sub yp (f32_mul KR r)) (f32_mul KB b)) KG in
  [f32_clamp_u8 r; f32_clamp_u8 g; f32_clamp_u8 b].

(** Row by row; [None]: an index out of range. *)
Definition nv12_to_rgb (nv12 : list Z) (width height pitch : Z) : option (list Z) :=
  let uv_base := pitch * height in
  let at_ i := nv12 !! Z.to_nat i in
  pixels ← mapM (fun '(y, x) =>
      let uv_off := uv_base + (y / 2) * pitch in
      luma ← at_ (y * pitch + x);
      cb ← at_ (uv_off + Z.ldiff x 1);
      cr ← at_ (uv_off + Z.ldiff x 1 + 1);
      Some (nv12_pixel luma cb cr))
    (y ← seqZ 0 height; x ← seqZ 0 width; [(y, x)]);
  Some (concat pixels).

(** [{seq:06}] *)
Definition pad6 (n : Z) : string :=
  let s := pretty (Z.to_N n) in
  (String.string_of_list_ascii (replicate (6 - String.length s) "0"%char) +:+ s)%string.

Section Frames.
Context `{Driver cu_call}.

Abbreviation Rec A := (Cu CudaNvencRecorder A).

Definition dump_nv12_png (tag : string) : Rec unit :=
  dir ← ask (GetVar "WAYMUX_NV12_DUMP_DIR");
  match dir with
  | None | Some ""%string => mret ()
  | Some dir =>
      every ← ask (GetVar "WAYMUX_NV12_DUMP_EVERY");
      let every := match (every : option string) ≫= parse_unsigned 64 with
                   | Some n => if 0 <? n then n else 30
                   | None => 30
                   end in
      r ← here;
      let seq := cr_dump_counter r in
      change (fun r => r <| cr_dump_counter := as_u 64 (seq + 1) |>) ;;
      if negb (seq mod every =? 0) then mret ()
      else
        let pitch := cr_nv12_pitch r in
        let total_rows := cr_height r + div_ceil (cr_height r) 2 in
        c ← ask (CuMemcpy2D (cuda_lib (cr_cuda r))
                   (DeviceToHost (cr_nv12_devptr r) pitch pitch pitch total_rows (pitch * total_rows)));
        if negb (c.1 =? 0) then mret ()
        else
          let host := truncate (Z.to_nat (pitch * total_rows)) (c.2 ++ replicate (Z.to_nat (pitch * total_rows)) 0) in
          match nv12_to_rgb host (cr_width r) (cr_height r) pitch with
          | None => mret ()                  (* a panic, which [nv12_to_rgb_total] excludes *)
          | Some rgb =>
              _ ← ask (WritePng (dir +:+ "/nv12-" +:+ tag +:+ "-" +:+ pad6 seq +:+ ".png") (cr_width r)
                         (cr_height r) rgb);
              mret ()
          end
  end.

(** Register, map, encode, lock, copy, unlock, unmap, unregister. *)
Definition nvenc_encode_current_nv12 (width height : Z) (force_idr : bool) (pts_us : Z) : Rec Nal :=
  r ← here;
  let n := cr_nvenc r in
  let lib := nv_lib n in
  let enc := nv_encoder n in
  let null slot := nv_funcs n slot =? 0 in
  if null SLOT_REGISTER_RESOURCE || null SLOT_MAP_INPUT_RESOURCE || null SLOT_UNMAP_INPUT_RESOURCE
     || null SLOT_UNREGISTER_RESOURCE || null SLOT_ENCODE_PICTURE || null SLOT_LOCK_BITSTREAM
     || null SLOT_UNLOCK_BITSTREAM
  then none
  else
    reg ← ask (NvRegisterResource lib enc
      {| rr_version := nv_enc_register_resource_ver;
         resource_type := NV_ENC_INPUT_RESOURCE_TYPE_CUDADEVICEPTR;
         rr_width := width; rr_height := height; rr_pitch := cr_nv12_pitch r;
         resource_to_register := cr_nv12_devptr r;
         buffer_format := NV_ENC_BUFFER_FORMAT_NV12;
         buffer_usage := NV_ENC_INPUT_IMAGE |});
    if negb (reg.1 =? 0) || (reg.2 =? 0) then none
    else
      map ← ask (NvMapInputResource lib enc nv_enc_map_input_resource_ver reg.2);
      if negb (map.1 =? 0) || (map.2 =? 0) then ask (NvUnregisterResource lib enc reg.2) ;; none
      else
        rc ← ask (NvEncodePicture lib enc
          {| pp_version := nv_enc_pic_params_ver;
             input_width := width; input_height := height; input_pitch := cr_nv12_pitch r;
             input_buffer := map.2;
             output_bitstream := nv_bitstream n;
             buffer_fmt := NV_ENC_BUFFER_FORMAT_NV12;
             picture_structure := NV_ENC_PIC_STRUCT_FRAME;
             encode_pic_flags :=
               if force_idr then Z.lor NV_ENC_PIC_FLAG_FORCEIDR NV_ENC_PIC_FLAG_OUTPUT_SPSPPS else 0;
             input_timestamp := as_u 64 pts_us |});
        if negb (rc =? 0)
        then ask (NvUnmapInputResource lib enc map.2) ;; ask (NvUnregisterResource lib enc reg.2) ;; none
        else
          lock ← ask (NvLockBitstream lib enc nv_enc_lock_bitstream_ver (nv_bitstream n));
          if negb (lock.1 =? 0) || (lock.2.1 =? 0)
          then ask (NvUnmapInputResource lib enc map.2) ;; ask (NvUnregisterResource lib enc reg.2) ;; none
          else
            ask (NvUnlockBitstream lib enc (nv_bitstream n)) ;;
            ask (NvUnmapInputResource lib enc map.2) ;;
            ask (NvUnregisterResource lib enc reg.2) ;;
            mret {| nal_data := lock.2.2; nal_key := force_idr |}.

(** The launch for a picture: a thread per block of two by two pixels, in blocks of 16 by
    16 threads. *)
Definition csc_launch (r : CudaNvencRecorder) (func tex width height : Z) : Launch :=
  {| l_func := func;
     l_grid := (div_ceil (width / 2) 16, div_ceil (height / 2) 16, 1);
     l_block := (16, 16, 1);
     l_tex := tex;
     l_dst := cr_nv12_devptr r;
     l_width := as_s 32 width;
     l_height := as_s 32 height;
     l_pitch := as_s 32 (cr_nv12_pitch r) |}.

Definition encode_from_cuarray (array width height pts_us : Z) (force_idr : bool) : Rec Nal :=
  r ← here;
  match cr_module r with
  | None => none
  | Some m =>
      match safe_encode_dims width height 0 (cr_width r) (cr_height r) (cr_nv12_pitch r) with
      | None => change (fun r => r <| cr_oversize_logged := true |>) ;; none
      | Some _ =>
          let lib := cuda_lib (cr_cuda r) in
          tex ← ask (CuTexObjectCreate lib array);
          if negb (tex.1 =? 0) || (tex.2 =? 0) then none
          else
            rc ← ask (CuLaunchKernel lib (csc_launch r (cm_func m) tex.2 width height));
            if negb (rc =? 0) then ask (CuTexObjectDestroy lib tex.2) ;; none
            else
              rc ← ask (CuStreamSynchronize lib);
              if negb (rc =? 0) then ask (CuTexObjectDestroy lib tex.2) ;; none
              else
                dump_nv12_png "frame" ;;
                result ← attempt (nvenc_encode_current_nv12 width height force_idr pts_us);
                ask (CuTexObjectDestroy lib tex.2) ;;
                match result with
                | Err _ => none
                | Ok nal => change (fun r => r <| cr_has_encoded := true |>) ;; mret nal
                end
      end
  end.

(** Attributes of the image a dmabuf is imported as. *)
Definition dmabuf_attribs (fd modifier width height stride : Z) : list Z :=
  [EGL_WIDTH; as_s 32 width; EGL_HEIGHT; as_s 32 height;
   EGL_LINUX_DRM_FOURCC_EXT; DRM_FORMAT_ARGB8888;
   EGL_DMA_BUF_PLANE0_FD_EXT; fd;
   EGL_DMA_BUF_PLANE0_OFFSET_EXT; 0;
   EGL_DMA_BUF_PLANE0_PITCH_EXT; as_s 32 stride;
   EGL_DMA_BUF_PLANE0_MODIFIER_LO_EXT; as_s 32 (Z.land modifier 0xFFFFFFFF);
   EGL_DMA_BUF_PLANE0_MODIFIER_HI_EXT; as_s 32 (Z.shiftr modifier 32);
   EGL_NONE; EGL_NONE; EGL_NONE].

Definition destroy_egl_image (e : EglCtx) (image : Z) : Rec unit :=
  if egl_has_destroy e && negb (image =? 0)
  then ask (EglDestroyImage (egl_lib e) (egl_display e) image)
  else mret ().

Definition encode_dmabuf (fd modifier width height stride pts_us : Z) (force_idr : bool) : Rec Nal :=
  r ← here;
  match safe_encode_dims width height stride (cr_width r) (cr_height r) (cr_nv12_pitch r) with
  | None => change (fun r => r <| cr_oversize_logged := true |>) ;; none
  | Some _ =>
      let egl := cr_egl r in
      let lib := cuda_lib (cr_cuda r) in
      image ← ask (EglCreateImage (egl_lib egl) (egl_display egl) EGL_LINUX_DMA_BUF_EXT
                     (dmabuf_attribs fd modifier width height stride));
      if image =? 0 then none
      else
        res ← ask (CuRegisterImage lib image);
        if negb (res.1 =? 0) || (res.2 =? 0) then destroy_egl_image egl image ;; none
        else
          frame ← ask (CuGetMappedFrame lib res.2);
          if negb (frame.1 =? 0) || (frame.2 =? 0)
          then ask (CuUnregister lib res.2) ;; destroy_egl_image egl image ;; none
          else
            result ← attempt (encode_from_cuarray frame.2 width height pts_us force_idr);
            ask (CuUnregister lib res.2) ;;
            destroy_egl_image egl image ;;
            match result with Ok nal => mret nal | Err _ => none end
  end.

(** The array host pixels are copied to, made when it is first needed. *)
Definition ensure_input_array : Rec Z :=
  r ← here;
  if negb (cr_input_array r =? 0) then mret (cr_input_array r)
  else
    h ← ask (CuArrayCreate (cuda_lib (cr_cuda r)) (cr_width r) (cr_height r) 4);
    if negb (h.1 =? 0) || (h.2 =? 0) then none
    else change (fun r => r <| cr_input_array := h.2 |>) ;; mret h.2.

Definition encode_pixels (bgra : list Z) (width height stride pts_us : Z) (force_idr : bool) : Rec Nal :=
  array ← ensure_input_array;
  r ← here;
  let copy_w := Z.min width (cr_width r) in
  let copy_h := Z.min height (cr_height r) in
  c ← ask (CuMemcpy2D (cuda_lib (cr_cuda r))
             (HostToArray (Z.of_nat (length bgra)) stride array (copy_w * 4) copy_h));
  if negb (c.1 =? 0) then none
  else encode_from_cuarray array copy_w copy_h pts_us force_idr.

Definition reencode_last (pts_us : Z) (force_idr : bool) : Rec Nal :=
  r ← here;
  if negb (cr_has_encoded r) then none
  else
    dump_nv12_png "heartbeat" ;;
    nvenc_encode_current_nv12 (cr_width r) (cr_height r) force_idr pts_us.

Definition reconfigure_bitrate (bps : Z) : Rec bool :=
  r ← here;
  nvenc_reconfigure_bitrate (cr_nvenc r) bps.
End Frames.
