(* ===== verification/CudaProps.v ===== *)
(** * The CUDA recorder keeps to its resources

    Whatever the driver answers, the recorder never uses, writes or releases what it does not
    own, and gives back what it took. *)

From Stdlib Require Import ZArith Lia SpecFloat.
From stdpp Require Import prelude strings list gmultiset.
From S2P Require Import Prelude Words Driver Nvenc Floats Recorder Cuda.

Open Scope Z_scope.

(** ** Looking into a multiset *)

Lemma alive_in r L : r ∈ L -> alive r L = true.
Proof. apply bool_decide_eq_true_2. Qed.

Lemma loaded_in l L : HLib l ∈ L -> loaded l L = true.
Proof. apply bool_decide_eq_true_2. Qed.

Lemma existsb_in {f : handle -> bool} {r} {L : handles} : r ∈ L -> f r = true -> existsb f (elements L) = true.
Proof.
  intros Hr Hf. apply existsb_exists. exists r. split; [|done].
  apply list_elem_of_In. by apply gmultiset_elem_of_elements.
Qed.

Lemma in_ctx_in c L : HCtx c ∈ L -> in_ctx L = true.
Proof. intros Hc. by apply (existsb_in Hc). Qed.

Lemma room_in p n need L : HMem p n ∈ L -> need <= n -> room p need L = true.
Proof.
  intros Hp Hn. apply (existsb_in Hp). cbn. rewrite Z.eqb_refl. by apply Z.leb_le.
Qed.

Lemma array_room_in a w h wb rows L :
  HArray a w h ∈ L -> wb <= w * 4 -> rows <= h -> array_room a wb rows L = true.
Proof.
  intros Ha H1 H2. apply (existsb_in Ha). rewrite Z.eqb_refl. cbn.
  by rewrite (proj2 (Z.leb_le _ _)), (proj2 (Z.leb_le _ _)).
Qed.

Lemma release_which_eq f r (L L' : handles) :
  L = {[+ r +]} ⊎ L' -> f r = true -> (forall s, s ∈ L -> f s = true -> s = r) ->
  release_which f L = Some L'.
Proof.
  intros HL Hf Hu. unfold release_which.
  destruct (List.find f (elements L)) as [s|] eqn:E.
  - apply find_some in E as [Hs Hfs]. apply list_elem_of_In, gmultiset_elem_of_elements in Hs.
    rewrite (Hu s Hs Hfs). by apply release_eq.
  - exfalso. eapply find_none in E; [|apply list_elem_of_In, gmultiset_elem_of_elements; rewrite HL].
    + by rewrite Hf in E.
    + there.
Qed.

(** ** Steps *)

Ltac cu_side :=
  rewrite ?andb_true_iff;
  repeat match goal with |- _ /\ _ => split end;
  try lazymatch goal with
  | |- loaded _ _ = true => apply loaded_in; there
  | |- alive _ _ = true => apply alive_in; there
  | |- in_ctx ?L = true =>
      lazymatch L with
      | context [HCtx ?c] => apply (in_ctx_in c); there
      | _ => lazymatch goal with Hc : HCtx ?c ∈ _ |- _ => apply (in_ctx_in c); there end
      end
  end.

(** Compute the effect of a call. *)
Ltac cu_effect :=
  lazymatch goal with
  | |- effect (Ev _ _ _) _ = Some _ =>
      cbn [effect cu_effects];
      try (rewrite provided_true; [|cu_side]);
      try lazymatch goal with
      | |- borrow _ _ = Some _ => apply borrow_alive; there
      | |- release _ _ = Some _ => release_now
      | |- got _ _ _ = Some _ => reflexivity
      | |- Some _ = Some _ => reflexivity
      end
  end.

(** ** What the parts hold, on top of [F] *)

Definition egl_held (e : EglCtx) (F : handles) : handles :=
  {[+ HDisplay (egl_display e) +]} ⊎ ({[+ HLib (egl_lib e) +]} ⊎ ({[+ HGbm (egl_gbm e) +]}
    ⊎ ({[+ HFd (egl_drm_fd e) +]} ⊎ F))).

Definition egl_ok (e : EglCtx) : Prop := egl_display e <> 0 /\ egl_gbm e <> 0 /\ 0 <= egl_drm_fd e.

Definition cuda_held (c : CudaCtx) (F : handles) : handles :=
  {[+ HCtx (cuda_ctx c) +]} ⊎ ({[+ HLib (cuda_lib c) +]} ⊎ F).

Definition module_held (m : option CuModule) (F : handles) : handles :=
  match m with Some m => {[+ HModule (cm_module m) +]} ⊎ F | None => F end.

Definition nvenc_held (n : NvencSession) (F : handles) : handles :=
  {[+ HBitstream (nv_bitstream n) +]} ⊎ ({[+ HEncoder (nv_encoder n) +]} ⊎ ({[+ HLib (nv_lib n) +]} ⊎ F)).

(** The functions that release, which the driver is documented to provide. *)
Definition destroys (funcs : nat -> Z) : Prop :=
  funcs SLOT_DESTROY_ENCODER <> 0 /\ funcs SLOT_DESTROY_BITSTREAM_BUFFER <> 0.

Definition nvenc_ok (n : NvencSession) : Prop :=
  nv_encoder n <> 0 /\ nv_bitstream n <> 0 /\ destroys (nv_funcs n).

Class CudaLaws `{Driver cu_call} := {
  (** [NvEncodeAPICreateInstance] fills the list. *)
  api_filled : forall t lib v,
    let a := respond _ t (NvCreateInstance lib v) in a.1 = 0 -> destroys a.2;
  (** An extension that creates images destroys them. *)
  image_pair : forall t lib, respond _ t (EglGetProcAddress lib "eglDestroyImageKHR") = true;
}.

(** Calls of which the laws speak. *)
Ltac cu_law :=
  lazymatch goal with
  | |- safe _ (ask (EglGetProcAddress ?lib "eglDestroyImageKHR")) _ _ _ =>
      let t := fresh in
      apply safe_ask_law; intros t; rewrite (image_pair t lib); eexists; split
  | |- safe _ (ask (NvCreateInstance ?lib ?v)) _ _ _ =>
      let t := fresh in
      let a := fresh "a" in
      apply safe_ask_law; intros t; pose proof (api_filled t lib v) as Hapi; cbv zeta in Hapi;
      generalize dependent (respond _ t (NvCreateInstance lib v)); clear t; intros a Hapi; eexists; split
  end.

Ltac cu_run := repeat first [cu_law | safe_step | cu_effect].

(** Every boolean test a proposition, and the rest by [lia]. *)
Ltac cu_fin := cbn; boolz; try done; try lia.

Section Props.
Context `{CudaLaws}.
Context (L0 : handles).

Abbreviation leaves x M := (fun x' L' r => x' = x /\ L' = M /\ result_is_ok r = true).

Lemma egl_open_safe {X} (x : X) F :
  safe L0 egl_open x F (fun x' L' r =>
    x' = x /\ match r with
              | Ok e => egl_ok e /\ egl_has_destroy e = true /\ L' = egl_held e F
              | Err _ => L' = F \/ exists d, L' = {[+ HDisplay d +]} ⊎ F
              end).
Proof.
  unfold egl_open, gbm_and_fd. cu_run; eauto 6.
  split_and!; cu_fin.
Qed.

Lemma egl_drop_safe {X} (x : X) e F :
  egl_ok e -> safe (E := unit) L0 (egl_drop e) x (egl_held e F) (leaves x F).
Proof.
  intros (H1 & H2 & H3). unfold egl_drop, egl_held. cu_run; boolz; try done; try lia.
Qed.

Lemma resolve_safe {X} (x : X) lib names L :
  HLib lib ∈ L -> safe (E := unit) L0 (resolve lib names) x L (leaves x L).
Proof.
  intros Hl. induction names as [|n names IH]; cbn; cu_run; auto.
Qed.

Lemma cuda_open_safe {X} (x : X) F :
  safe L0 cuda_open x F (fun x' L' r =>
    x' = x /\ match r with Ok c => cuda_ctx c <> 0 /\ L' = cuda_held c F | Err _ => L' = F end).
Proof.
  unfold cuda_open, cuda_load. cu_run; auto.
  take (resolve_safe x z cuda_symbols). cu_run; auto.
  split_and!; cu_fin.
Qed.

Lemma cuda_drop_safe {X} (x : X) c F :
  cuda_ctx c <> 0 -> safe (E := unit) L0 (cuda_drop c) x (cuda_held c F) (leaves x F).
Proof. intros Hc. unfold cuda_drop, cuda_held. cu_run; boolz; done. Qed.

Lemma load_csc_module_safe {X} (x : X) c L :
  HLib (cuda_lib c) ∈ L -> HCtx (cuda_ctx c) ∈ L ->
  safe L0 (load_csc_module c) x L (fun x' L' r =>
    x' = x /\ match r with Ok m => cm_module m <> 0 /\ L' = module_held (Some m) L | Err _ => L' = L end).
Proof.
  intros Hl Hc. unfold load_csc_module. cu_run; auto. 
  split_and!; cu_fin.
Qed.

Definition module_ok (m : option CuModule) : Prop := match m with Some m => cm_module m <> 0 | None => True end.

Lemma module_drop_safe {X} (x : X) c m F :
  HLib (cuda_lib c) ∈ F -> HCtx (cuda_ctx c) ∈ F -> module_ok m ->
  safe (E := unit) L0 (module_drop (cuda_lib c) m) x (module_held m F) (leaves x F).
Proof.
  intros Hl Hc Hm. unfold module_drop. destruct m as [m|]; cbn [module_held module_ok] in *; [|by apply safe_ret].
  cu_run; boolz; done.
Qed.

Lemma destroy_encoder_safe {X} (x : X) lib funcs enc ctx F :
  HLib lib ∈ F -> HCtx ctx ∈ F -> enc <> 0 -> destroys funcs ->
  safe (E := unit) L0 (destroy_encoder lib funcs enc) x ({[+ HEncoder enc +]} ⊎ F) (leaves x F).
Proof.
  intros Hl Hc He [Hd _]. unfold destroy_encoder. cu_run; boolz; try done.
Qed.

Lemma preset_config_safe {X} (x : X) lib enc bps L :
  HLib lib ∈ L -> HEncoder enc ∈ L ->
  safe L0 (preset_config lib enc bps) x L (fun x' L' r => x' = x /\ L' = L).
Proof. intros Hl He. unfold preset_config. cu_run; auto. Qed.

Lemma nvenc_setup_safe {X} (x : X) lib funcs enc w h L :
  HLib lib ∈ L -> HEncoder enc ∈ L ->
  safe L0 (nvenc_setup lib funcs enc w h) x L (fun x' L' r =>
    x' = x /\ match r with Ok b => b <> 0 /\ L' = {[+ HBitstream b +]} ⊎ L | Err _ => L' = L end).
Proof.
  intros Hl He. unfold nvenc_setup. cu_run; auto.
  take (preset_config_safe x lib enc VIEWER_BITRATE_BPS L). cu_run; auto.
  split_and!; cu_fin.
Qed.

Lemma nvenc_open_safe {X} (x : X) ctx w h F :
  HCtx ctx ∈ F ->
  safe L0 (nvenc_open ctx w h) x F (fun x' L' r =>
    x' = x /\ match r with
              | Ok n => nvenc_ok n /\ L' = nvenc_held n F
              | Err _ => L' = F
              end).
Proof.
  intros Hc. unfold nvenc_open. cu_run; auto.
  boolz. destruct_or?; take @nvenc_setup_safe.
  - cu_run. split_and!; cu_fin. split_and!; auto.
  - cu_run. take (destroy_encoder_safe x _ _ _ ctx).
    cu_run. auto.
Qed.

Lemma nvenc_drop_safe {X} (x : X) n ctx F :
  HCtx ctx ∈ F -> nvenc_ok n -> safe (E := unit) L0 (nvenc_drop n) x (nvenc_held n F) (leaves x F).
Proof.
  intros Hc (He & Hb & Hd). pose proof Hd as [_ Hd2]. unfold nvenc_drop, nvenc_held. cu_run; boolz; try done.
  take (destroy_encoder_safe x _ _ _ ctx).
  cu_run. auto.
Qed.

(** ** The recorder *)

Definition array_held (r : CudaNvencRecorder) (F : handles) : handles :=
  if cr_input_array r =? 0 then F else {[+ HArray (cr_input_array r) (cr_width r) (cr_height r) +]} ⊎ F.

Definition recorder_held (r : CudaNvencRecorder) (F : handles) : handles :=
  {[+ HMem (cr_nv12_devptr r) (nv12_bytes (cr_width r) (cr_height r)) +]} ⊎
  array_held r (nvenc_held (cr_nvenc r) (module_held (cr_module r) (cuda_held (cr_cuda r) (egl_held (cr_egl r) F)))).

(** Sizes whose pitch still fits the kernel's [int]. *)
Definition dims_ok (w h : Z) : Prop := 0 <= w <= 2 ^ 31 - 256 /\ 0 <= h < 2 ^ 31.

Definition recorder_ok (r : CudaNvencRecorder) : Prop :=
  nvenc_ok (cr_nvenc r) /\ module_ok (cr_module r) /\ cuda_ctx (cr_cuda r) <> 0 /\ egl_ok (cr_egl r) /\
  egl_has_destroy (cr_egl r) = true /\ dims_ok (cr_width r) (cr_height r) /\
  cr_nv12_devptr r <> 0 /\ cr_nv12_pitch r = nv12_pitch (cr_width r).

Lemma cuda_held_in c F : HCtx (cuda_ctx c) ∈ cuda_held c F /\ HLib (cuda_lib c) ∈ cuda_held c F.
Proof. unfold cuda_held. split; there. Qed.

Lemma module_held_in m r F : r ∈ F -> r ∈ module_held m F.
Proof. intros Hr. destruct m as [m|]; [|done]. cbn [module_held]. there. Qed.

Lemma nvenc_held_in n r F : r ∈ F -> r ∈ nvenc_held n F.
Proof. intros Hr. unfold nvenc_held. there. Qed.

(** CUDA, the module and EGL are closed. *)
Lemma close_below {X A} (x : X) egl cuda m F :
  egl_ok egl -> cuda_ctx cuda <> 0 -> module_ok m ->
  safe (A := A) (E := unit) L0 (module_drop (cuda_lib cuda) m ;; cuda_drop cuda ;; egl_drop egl ;; none) x
    (module_held m (cuda_held cuda (egl_held egl F))) (fun x' L' r => x' = x /\ L' = F /\ r = Err ()).
Proof.
  intros He Hc Hm. pose proof (cuda_held_in cuda (egl_held egl F)) as [H1 H2].
  safe_step. take @module_drop_safe. safe_step. take @cuda_drop_safe. safe_step. take @egl_drop_safe.
  by safe_step.
Qed.

Lemma sequence_params_safe {X} (x : X) n L :
  HLib (nv_lib n) ∈ L -> HEncoder (nv_encoder n) ∈ L ->
  safe L0 (sequence_params n) x L (fun x' L' r => x' = x /\ L' = L).
Proof. intros Hl He. unfold sequence_params. cu_run; auto. Qed.

Lemma try_encoder_safe {X} (x : X) egl cuda m w h F :
  egl_ok egl -> egl_has_destroy egl = true -> cuda_ctx cuda <> 0 -> module_ok m -> dims_ok w h ->
  safe L0 (try_encoder egl cuda m w h) x (module_held m (cuda_held cuda (egl_held egl F))) (fun x' L' r =>
    x' = x /\ match r with
              | Ok r => recorder_ok r /\ cr_width r = w /\ cr_height r = h /\ L' = recorder_held r F
              | Err _ => L' = F
              end).
Proof.
  intros He Hh Hc Hm Hd. unfold try_encoder.
  pose proof (cuda_held_in cuda (egl_held egl F)) as [H1%(module_held_in m) H2%(module_held_in m)].
  safe_step. safe_step. take @nvenc_open_safe; [|take @close_below].
  apply (nvenc_held_in a) in H1 as H1', H2 as H2'.
  safe_step. safe_step.
  eapply safe_mono; [apply sequence_params_safe; unfold nvenc_held; there|].
  intros x' L' cp (-> & ->). cbv zeta. cu_run.
  - take (nvenc_drop_safe x _ (cuda_ctx cuda)). take @close_below.
  - boolz. split_and!; done.
Qed.

Lemma try_new_safe {X} (x : X) w h F :
  dims_ok w h ->
  safe L0 (try_new w h) x F (fun x' L' r =>
    x' = x /\ match r with
              | Ok r => recorder_ok r /\ cr_width r = w /\ cr_height r = h /\ L' = recorder_held r F
              | Err _ => L' = F \/ exists d, L' = {[+ HDisplay d +]} ⊎ F
              end).
Proof.
  intros Hd. unfold try_new. safe_step. take @egl_open_safe.
  safe_step. safe_step. take @cuda_open_safe; [|safe_step; take @egl_drop_safe; cu_run; auto].
  pose proof (cuda_held_in a0 (egl_held a F)) as [H4 H5].
  safe_step. safe_step. eapply safe_mono; [by apply load_csc_module_safe|].
  intros x' L' m [-> Hm]. eapply safe_mono.
  - destruct m as [m|e]; [destruct Hm as [? ->]|subst L'];
      [apply (try_encoder_safe x a a0 (Some m)) | apply (try_encoder_safe x a a0 None)]; done.
  - intros x' L'' [r|e] [-> Hr]; auto.
Qed.

(** The only memory and the only array of a recorder. *)
Lemma held_only r s (f : handle -> bool) :
  (forall h, f (HBitstream h) = false) -> (forall h, f (HEncoder h) = false) -> (forall h, f (HLib h) = false) ->
  (forall h, f (HModule h) = false) -> (forall h, f (HCtx h) = false) -> (forall h, f (HDisplay h) = false) ->
  (forall h, f (HGbm h) = false) -> (forall h, f (HFd h) = false) ->
  s ∈ nvenc_held (cr_nvenc r) (module_held (cr_module r) (cuda_held (cr_cuda r) (egl_held (cr_egl r) ∅))) ->
  f s = false.
Proof.
  intros. unfold nvenc_held, cuda_held, egl_held in *.
  destruct (cr_module r); cbn [module_held] in *;
    repeat match goal with
    | Hs : _ ∈ _ ⊎ _ |- _ => apply gmultiset_elem_of_disj_union in Hs as [Hs|Hs]
    | Hs : _ ∈ {[+ _ +]} |- _ => apply gmultiset_elem_of_singleton in Hs as ->
    end; auto; set_solver.
Qed.

(** What a recorder holds but its memory and its array. *)
Abbreviation base_held r :=
  (nvenc_held (cr_nvenc r) (module_held (cr_module r) (cuda_held (cr_cuda r) (egl_held (cr_egl r) ∅)))).

Lemma base_held_in r :
  HCtx (cuda_ctx (cr_cuda r)) ∈ base_held r /\ HLib (cuda_lib (cr_cuda r)) ∈ base_held r.
Proof.
  destruct (cuda_held_in (cr_cuda r) (egl_held (cr_egl r) ∅)).
  split; by apply nvenc_held_in, module_held_in.
Qed.

Lemma base_drop_safe {X} (x : X) r :
  recorder_ok r ->
  safe (E := unit) L0 (nvenc_drop (cr_nvenc r) ;; module_drop (cuda_lib (cr_cuda r)) (cr_module r) ;;
                       cuda_drop (cr_cuda r) ;; egl_drop (cr_egl r)) x (base_held r) (leaves x ∅).
Proof.
  intros (Hn & Hm & Hc & He & _).
  pose proof (cuda_held_in (cr_cuda r) (egl_held (cr_egl r) ∅)) as [H1 H2].
  pose proof (module_held_in (cr_module r) _ _ H1) as H1'.
  safe_step. take (nvenc_drop_safe x _ (cuda_ctx (cr_cuda r))). safe_step. take @module_drop_safe.
  safe_step. take @cuda_drop_safe. take @egl_drop_safe.
Qed.

Lemma mem_free_effect r F :
  HCtx (cuda_ctx (cr_cuda r)) ∈ F -> HLib (cuda_lib (cr_cuda r)) ∈ F ->
  (forall s, s ∈ F -> bool_decide (mem_bytes (cr_nv12_devptr r) s <> None) = false) ->
  effect (Ev () (CuMemFree (cuda_lib (cr_cuda r)) (cr_nv12_devptr r)) ())
    ({[+ HMem (cr_nv12_devptr r) (nv12_bytes (cr_width r) (cr_height r)) +]} ⊎ F) = Some F.
Proof.
  intros H1 H2 Ho. cbn [effect cu_effects]. rewrite provided_true; [|cu_side].
  eapply release_which_eq; [done| |].
  - apply bool_decide_eq_true_2. cbn. by rewrite Z.eqb_refl.
  - intros s [Hs|Hs]%gmultiset_elem_of_disj_union Hf.
    + by apply gmultiset_elem_of_singleton in Hs.
    + rewrite (Ho s Hs) in Hf. done.
Qed.

Lemma recorder_drop_safe {X} (x : X) r :
  recorder_ok r -> safe (E := unit) L0 (recorder_drop r) x (recorder_held r ∅) (leaves x ∅).
Proof.
  intros Hok. pose proof Hok as (_ & _ & _ & _ & _ & _ & Hp & _). unfold recorder_drop, recorder_held.
  destruct (base_held_in r) as [H1 H2]. pose proof (held_only r) as Ho. pose proof (base_drop_safe x r Hok) as Hbase.
  set (N := base_held r) in *.
  cbv zeta. rewrite (proj2 (Z.eqb_neq _ _) Hp). unfold array_held.
  destruct (cr_input_array r =? 0) eqn:Ea.
  - do 2 safe_step.
    + destruct a. apply mem_free_effect; [done..|]. intros s Hs. by apply (Ho s (fun s => bool_decide (mem_bytes (cr_nv12_devptr r) s <> None))).
    + safe_step. by safe_step.
  - do 2 safe_step.
    + destruct a. apply mem_free_effect; [there..|].
      intros s [->%gmultiset_elem_of_singleton|Hs]%gmultiset_elem_of_disj_union; [done|].
      by apply (Ho s (fun s => bool_decide (mem_bytes (cr_nv12_devptr r) s <> None))).
    + do 2 safe_step; [|done]. cbn [effect cu_effects]. rewrite provided_true; [|cu_side].
      eapply release_which_eq; [done|apply Z.eqb_refl|].
      intros s [->%gmultiset_elem_of_singleton|Hs]%gmultiset_elem_of_disj_union Hf; [done|].
      exfalso. assert (E : match s with HArray h _ _ => h =? cr_input_array r | _ => false end = false)
        by (by apply (Ho s (fun s => match s with HArray h _ _ => h =? cr_input_array r | _ => false end))).
      by rewrite E in Hf.
Qed.

(** ** Sizes *)

Lemma nv12_pitch_eq w : 0 <= w <= 2 ^ 31 - 256 ->
  nv12_pitch w = div_ceil w 256 * 256 /\ w <= nv12_pitch w <= 2 ^ 31 - 256.
Proof.
  intros Hw. unfold nv12_pitch, div_ceil.
  pose proof (Z_div_mod_eq_full (w + 256 - 1) 256). pose proof (Z.mod_pos_bound (w + 256 - 1) 256).
  rewrite as_u_id; [lia|]. unfold in_u. lia.
Qed.

Lemma nv12_bytes_eq w h : dims_ok w h -> nv12_bytes w h = nv12_span (nv12_pitch w) h.
Proof.
  intros [Hw Hh]. destruct (nv12_pitch_eq w Hw) as [_ Hp]. unfold nv12_bytes, nv12_span, div_ceil.
  pose proof (Z_div_mod_eq_full (h + 1) 2). pose proof (Z.mod_pos_bound (h + 1) 2).
  replace (h + 2 - 1) with (h + 1) by lia. apply as_u_id. unfold in_u. nia.
Qed.

Lemma nv12_span_mono p h h' : 0 <= p -> 0 <= h <= h' -> nv12_span p h <= nv12_span p h'.
Proof.
  intros Hp Hh. unfold nv12_span. apply Z.mul_le_mono_nonneg_l; [done|].
  assert ((h + 1) / 2 <= (h' + 1) / 2) by (apply Z.div_le_mono; lia). lia.
Qed.

(** ** The kernel stays inside *)

Lemma thread_writes_in width height pitch bx by_ i :
  0 <= bx -> 0 <= by_ -> 0 <= width <= pitch -> (2 | pitch) -> 0 <= height ->
  i ∈ thread_writes width height pitch bx by_ -> 0 <= i < nv12_span pitch height.
Proof.
  intros Hbx Hby Hw [q Hq] Hh Hi. unfold thread_writes in Hi.
  destruct ((width <=? bx * 2) || (height <=? by_ * 2)) eqn:E; [set_solver|]. boolz.
  pose proof (Z_div_mod_eq_full (height + 1) 2). pose proof (Z.mod_pos_bound (height + 1) 2).
  unfold nv12_span.
  apply elem_of_app in Hi as [Hi|Hi].
  - apply list_elem_of_bind in Hi as ([dx dy] & Hi & Hd).
    destruct ((width <=? bx * 2 + dx) || (height <=? by_ * 2 + dy)) eqn:E; [set_solver|]. boolz.
    apply list_elem_of_singleton in Hi as ->.
    assert (0 <= dx /\ 0 <= dy).
    { apply list_elem_of_In in Hd. cbn in Hd. destruct_or?; simplify_eq; lia. }
    nia.
  - assert (i = pitch * height + by_ * pitch + bx * 2 \/ i = pitch * height + by_ * pitch + bx * 2 + 1)
      by (apply list_elem_of_In in Hi; cbn in Hi; destruct_or?; auto; done).
    assert (bx * 2 + 1 < pitch) by lia.
    assert (pitch * (by_ + 1) <= pitch * ((height + 1) / 2)) by (apply Z.mul_le_mono_nonneg_l; lia).
    assert (0 <= pitch * height) by nia. assert (0 <= by_ * pitch) by nia. lia.
Qed.

Lemma kernel_writes_in l i :
  0 <= l_width l <= l_pitch l -> (2 | l_pitch l) -> 0 <= l_height l ->
  i ∈ kernel_writes l -> 0 <= i < nv12_span (l_pitch l) (l_height l).
Proof.
  intros Hw Hp Hh Hi. unfold kernel_writes in Hi.
  destruct (l_grid l) as [[gx gy] gz], (l_block l) as [[tx ty] tz].
  apply list_elem_of_bind in Hi as (by_ & Hi & Hby). apply list_elem_of_bind in Hi as (bx & Hi & Hbx).
  apply elem_of_seqZ in Hby, Hbx. eapply thread_writes_in; [..|done]; auto; lia.
Qed.

Lemma launch_room_in l n L :
  HMem (l_dst l) n ∈ L -> 0 <= l_width l <= l_pitch l -> (2 | l_pitch l) -> 0 <= l_height l ->
  nv12_span (l_pitch l) (l_height l) <= n -> launch_room l L = true.
Proof.
  intros Hm Hw Hp Hh Hn. apply (existsb_in Hm). cbn. rewrite Z.eqb_refl. apply forallb_forall.
  intros i Hi. apply list_elem_of_In in Hi. pose proof (kernel_writes_in l i Hw Hp Hh Hi).
  rewrite andb_true_iff. split; [apply Z.leb_le | apply Z.ltb_lt]; lia.
Qed.

(** ** A frame *)

Definition owns (r : CudaNvencRecorder) (H : handles) : Prop :=
  HLib (nv_lib (cr_nvenc r)) ∈ H /\ HEncoder (nv_encoder (cr_nvenc r)) ∈ H /\
  HBitstream (nv_bitstream (cr_nvenc r)) ∈ H /\ HLib (cuda_lib (cr_cuda r)) ∈ H /\
  HCtx (cuda_ctx (cr_cuda r)) ∈ H /\ HLib (egl_lib (cr_egl r)) ∈ H /\
  HDisplay (egl_display (cr_egl r)) ∈ H /\
  HMem (cr_nv12_devptr r) (nv12_bytes (cr_width r) (cr_height r)) ∈ H.

Lemma owns_on r s L : owns r L -> owns r ({[+ s +]} ⊎ L).
Proof. unfold owns. intros. destruct_and?. split_and!; there. Qed.

Lemma recorder_owns r F : owns r (recorder_held r F).
Proof.
  assert (He : HLib (egl_lib (cr_egl r)) ∈ egl_held (cr_egl r) F) by (unfold egl_held; there).
  assert (Hd : HDisplay (egl_display (cr_egl r)) ∈ egl_held (cr_egl r) F) by (unfold egl_held; there).
  assert (Hi : forall s, s ∈ egl_held (cr_egl r) F -> s ∈ cuda_held (cr_cuda r) (egl_held (cr_egl r) F)).
  { intros s Hs. unfold cuda_held. there. }
  destruct (cuda_held_in (cr_cuda r) (egl_held (cr_egl r) F)) as [H1 H2].
  unfold recorder_held.
  set (B := module_held (cr_module r) (cuda_held (cr_cuda r) (egl_held (cr_egl r) F))).
  assert (Hb : forall s, s ∈ cuda_held (cr_cuda r) (egl_held (cr_egl r) F) -> s ∈ B)
    by (intros s Hs; by apply module_held_in).
  assert (Ha : forall s, s ∈ nvenc_held (cr_nvenc r) B -> s ∈ array_held r (nvenc_held (cr_nvenc r) B)).
  { intros s Hs. unfold array_held. destruct (_ =? _); [done|there]. }
  unfold owns. split_and!; apply gmultiset_elem_of_disj_union;
    first [left; by apply gmultiset_elem_of_singleton | right; apply Ha; unfold nvenc_held; first [there | idtac]].
  all: assert (G : forall s, s ∈ cuda_held (cr_cuda r) (egl_held (cr_egl r) F) ->
         s ∈ {[+ HBitstream (nv_bitstream (cr_nvenc r)) +]} ⊎ ({[+ HEncoder (nv_encoder (cr_nvenc r)) +]}
             ⊎ ({[+ HLib (nv_lib (cr_nvenc r)) +]} ⊎ B))) by (intros s Hs; apply Hb in Hs; there).
  all: auto.
Qed.

(** A picture that is not higher than the recorder fits its memory. *)
Lemma picture_room r h :
  recorder_ok r -> 0 <= h <= cr_height r ->
  nv12_span (cr_nv12_pitch r) h <= nv12_bytes (cr_width r) (cr_height r).
Proof.
  intros (_ & _ & _ & _ & _ & Hd & _ & Hp) Hh. rewrite Hp, nv12_bytes_eq by done.
  apply nv12_span_mono; [|done]. destruct Hd as [Hw _]. destruct (nv12_pitch_eq _ Hw). lia.
Qed.

Lemma nvenc_encode_safe r w h idr pts L :
  recorder_ok r -> owns r L -> 0 <= h <= cr_height r ->
  safe L0 (nvenc_encode_current_nv12 w h idr pts) r L (fun r' L' _ => r' = r /\ L' = L).
Proof.
  intros Hok Ho Hh. unfold nvenc_encode_current_nv12, owns in *. destruct Ho as (? & ? & ? & ? & ? & ? & ? & ?). cu_run; auto.
  all: cbn [resource_to_register rr_pitch rr_height]; eapply room_in; [eassumption|by apply picture_room].
Qed.

(** The same but for the counter of dumps and the two flags. *)
Definition same (r r' : CudaNvencRecorder) : Prop :=
  exists d e o, r' = r <| cr_dump_counter := d |> <| cr_has_encoded := e |> <| cr_oversize_logged := o |>.

Lemma same_refl r : same r r.
Proof. exists (cr_dump_counter r), (cr_has_encoded r), (cr_oversize_logged r). by destruct r. Qed.

Lemma same_trans r1 r2 r3 : same r1 r2 -> same r2 r3 -> same r1 r3.
Proof. intros (d & e & o & ->) (d' & e' & o' & ->). by exists d', e', o'. Qed.

Lemma same_ok r r' : same r r' -> recorder_ok r -> recorder_ok r'.
Proof. by intros (d & e & o & ->). Qed.

Lemma same_owns r r' L : same r r' -> owns r L -> owns r' L.
Proof. by intros (d & e & o & ->). Qed.

Lemma same_height r r' : same r r' -> cr_height r' = cr_height r.
Proof. by intros (d & e & o & ->). Qed.

Lemma same_held r r' F : same r r' -> recorder_held r' F = recorder_held r F.
Proof. by intros (d & e & o & ->). Qed.

Abbreviation frame_post r L := (fun r' L' _ => same r r' /\ L' = L).

Lemma dump_safe r tag L :
  recorder_ok r -> owns r L ->
  safe (E := unit) L0 (dump_nv12_png tag) r L
    (fun r' L' res => same r r' /\ L' = L /\ result_is_ok res = true).
Proof.
  intros Hok Ho. pose proof Hok as (_ & _ & _ & _ & _ & [Hw Hh] & _ & Hp).
  pose proof (picture_room r (cr_height r) Hok ltac:(lia)) as Hroom.
  unfold dump_nv12_png, owns in *. destruct Ho as (? & ? & ? & ? & ? & ? & ? & ?).
  assert (forall d, same r (r <| cr_dump_counter := d |>)).
  { intros d. exists d, (cr_has_encoded r), (cr_oversize_logged r). by destruct r. }
  cu_run; auto using same_refl.
  all: try lazymatch goal with |- provided _ _ = _ => rewrite provided_true; [reflexivity|] end; auto.
  unfold nv12_span, div_ceil in *. replace (cr_height r + 2 - 1) with (cr_height r + 1) by lia.
  rewrite !andb_true_iff. split_and!; try (apply Z.leb_le; lia).
  eapply room_in; [eassumption|]. lia.
Qed.

Lemma csc_launch_room r func tex w h L :
  recorder_ok r -> owns r L -> 0 <= w <= cr_width r -> 0 <= h <= cr_height r ->
  launch_room (csc_launch r func tex w h) L = true.
Proof.
  intros Hok Ho Hw Hh. pose proof (picture_room r h Hok Hh) as Hroom.
  destruct Hok as (_ & _ & _ & _ & _ & [HW HH] & _ & Hp). destruct (nv12_pitch_eq _ HW) as [Hq Hr].
  destruct Ho as (_ & _ & _ & _ & _ & _ & _ & Hm).
  assert (as_s 32 w = w) as Ew by (apply as_s_id; [lia|unfold in_s; lia]).
  assert (as_s 32 h = h) as Eh by (apply as_s_id; [lia|unfold in_s; lia]).
  assert (as_s 32 (cr_nv12_pitch r) = cr_nv12_pitch r) as Ep by (apply as_s_id; [lia|unfold in_s; lia]).
  eapply launch_room_in; cbn [csc_launch l_dst l_width l_height l_pitch]; rewrite ?Ew, ?Eh, ?Ep; try eassumption; try lia.
  rewrite Hp, Hq. exists (div_ceil (cr_width r) 256 * 128). lia.
Qed.

Lemma safe_dims_small w h s W M p a : safe_encode_dims w h s W M p = Some a -> w <= W /\ h <= M.
Proof.
  unfold safe_encode_dims. destruct ((W <? w) || (M <? h)) eqn:E; [done|]. boolz. lia.
Qed.

Lemma encode_from_cuarray_safe r array w h pts idr L :
  recorder_ok r -> owns r L -> 0 <= w -> 0 <= h ->
  safe L0 (encode_from_cuarray array w h pts idr) r L (frame_post r L).
Proof.
  intros Hok Ho Hw Hh. unfold encode_from_cuarray.
  assert (Hlib : HLib (cuda_lib (cr_cuda r)) ∈ L) by apply Ho.
  assert (Hctx : HCtx (cuda_ctx (cr_cuda r)) ∈ L) by apply Ho.
  assert (forall o, same r (r <| cr_oversize_logged := o |>)).
  { intros o. exists (cr_dump_counter r), (cr_has_encoded r), o. by destruct r. }
  cu_run; auto using same_refl.
  all: try (apply csc_launch_room; [done|by apply owns_on|..];
    by apply safe_dims_small in Heqo0 as [? ?]).
  eapply safe_mono; [apply (dump_safe r "frame"); [done|by apply owns_on]|].
  intros r1 L1 [u|e] (Hs & -> & Hres); [|done].
  do 2 safe_step. eapply safe_mono; [apply nvenc_encode_safe|].
  - by eapply same_ok.
  - eapply same_owns; [done|]. by apply owns_on.
  - rewrite (same_height _ _ Hs). by apply safe_dims_small in Heqo0 as [? ?].
  - intros r2 L2 res [-> ->]. cu_run; auto.
    split; [|done]. destruct Hs as (d & e & o & ->). by exists d, true, o.
Qed.

Lemma destroy_egl_image_safe r e image L :
  egl_has_destroy e = true -> image <> 0 -> HLib (egl_lib e) ∈ L -> HDisplay (egl_display e) ∈ L ->
  safe (E := unit) L0 (destroy_egl_image e image) r ({[+ HImage image +]} ⊎ L) (leaves r L).
Proof.
  intros Hd Hi H1 H2. unfold destroy_egl_image. rewrite Hd. rewrite (proj2 (Z.eqb_neq _ _) Hi). cu_run; done.
Qed.

Lemma encode_dmabuf_safe r fd modifier w h stride pts idr L :
  recorder_ok r -> owns r L -> 0 <= w -> 0 <= h ->
  safe L0 (encode_dmabuf fd modifier w h stride pts idr) r L (frame_post r L).
Proof.
  intros Hok Ho Hw Hh. unfold encode_dmabuf.
  pose proof Ho as (_ & _ & _ & Hlib & Hctx & Helib & Hdpy & _).
  pose proof Hok as (_ & _ & _ & _ & Hdes & _ & _ & _).
  assert (forall o, same r (r <| cr_oversize_logged := o |>)).
  { intros o. exists (cr_dump_counter r), (cr_has_encoded r), o. by destruct r. }
  cu_run; auto using same_refl; boolz.
  - take @destroy_egl_image_safe. cu_run. auto using same_refl.
  - take @destroy_egl_image_safe. cu_run. auto using same_refl.
  - eapply safe_mono; [apply encode_from_cuarray_safe; auto; by do 2 apply owns_on|].
    intros r1 L1 res [Hs ->].
    assert (egl_has_destroy (cr_egl r) = true /\ cuda_lib (cr_cuda r) = cuda_lib (cr_cuda r1)) as [_ _].
    { by destruct Hs as (? & ? & ? & ->). }
    cu_run. take @destroy_egl_image_safe. destruct res; cu_run; auto.
Qed.

(** What a call leaves: the recorder still in order, with its size, and what it holds. *)
Definition kept (r r' : CudaNvencRecorder) (L : handles) : Prop :=
  recorder_ok r' /\ L = recorder_held r' ∅ /\ cr_width r' = cr_width r /\ cr_height r' = cr_height r.

Lemma same_kept r r' L : recorder_ok r -> same r r' /\ L = recorder_held r ∅ -> kept r r' L.
Proof.
  intros Hok [Hs ->]. split_and!; [by eapply same_ok | by rewrite (same_held r r') | |];
    by destruct Hs as (? & ? & ? & ->).
Qed.

Lemma dmabuf_kept r fd modifier w h stride pts idr :
  recorder_ok r -> 0 <= w -> 0 <= h ->
  safe L0 (encode_dmabuf fd modifier w h stride pts idr) r (recorder_held r ∅) (fun r' L' _ => kept r r' L').
Proof.
  intros Hok Hw Hh. eapply safe_mono; [apply encode_dmabuf_safe; auto using recorder_owns|].
  intros r' L' res. by apply same_kept.
Qed.

Lemma ensure_input_array_safe r :
  recorder_ok r ->
  safe L0 ensure_input_array r (recorder_held r ∅) (fun r' L' res =>
    kept r r' L' /\ match res with Ok a => a <> 0 /\ cr_input_array r' = a | Err _ => True end).
Proof.
  intros Hok. pose proof (recorder_owns r ∅) as (_ & _ & _ & Hlib & Hctx & _ & _ & _).
  assert (K : kept r r (recorder_held r ∅)) by (by apply same_kept; auto using same_refl).
  unfold ensure_input_array. cu_run; boolz; try done.
  split; [|done]. split_and!; try done.
  unfold recorder_held, array_held. cbn [cr_input_array cr_nv12_devptr cr_width cr_height cr_nvenc cr_module cr_cuda cr_egl set_field].
  destruct Hok as (_ & _ & _ & _ & _ & _ & _ & _).
  set (N := base_held r). rewrite (proj2 (Z.eqb_eq _ _) Heqb), (proj2 (Z.eqb_neq _ _)) by done. fold N.
  clearbody N. multiset_solver.
Qed.

(** Host pixels that are there: [h] rows of [w] pixels, [stride] apart. *)
Definition pixels_there (bgra : list Z) (w h stride : Z) : Prop :=
  0 <= w /\ 0 <= h /\ w * 4 <= stride /\ h * stride <= Z.of_nat (length bgra).

Lemma held_array r : cr_input_array r <> 0 ->
  HArray (cr_input_array r) (cr_width r) (cr_height r) ∈ recorder_held r ∅.
Proof.
  intros Ha. unfold recorder_held, array_held. rewrite (proj2 (Z.eqb_neq _ _)) by done.
  apply gmultiset_elem_of_disj_union; right. there.
Qed.

Lemma pixels_copy_room r len w h stride :
  recorder_ok r -> cr_input_array r <> 0 -> 0 <= w -> 0 <= h -> w * 4 <= stride -> h * stride <= len ->
  let wb := Z.min w (cr_width r) * 4 in
  let rows := Z.min h (cr_height r) in
  ((rows =? 0) || (wb =? 0) || ((rows - 1) * stride + wb <=? len)) && (wb <=? stride)
    && array_room (cr_input_array r) wb rows (recorder_held r ∅) = true.
Proof.
  intros (_ & _ & _ & _ & _ & [HW HH] & _ & _) Ha Hw Hh Hs Hl wb rows.
  rewrite !andb_true_iff. split_and!.
  - destruct (rows =? 0) eqn:E; [done|]. boolz. rewrite orb_true_iff. right. apply Z.leb_le. nia.
  - apply Z.leb_le. lia.
  - eapply array_room_in; [by apply held_array | lia | lia].
Qed.

Lemma pixels_kept r bgra w h stride pts idr :
  recorder_ok r -> pixels_there bgra w h stride ->
  safe L0 (encode_pixels bgra w h stride pts idr) r (recorder_held r ∅) (fun r' L' _ => kept r r' L').
Proof.
  intros Hok (Hw & Hh & Hs & Hl). unfold encode_pixels. safe_step.
  eapply safe_mono; [by apply ensure_input_array_safe|].
  intros r1 L1 [a|e] [(Hok1 & -> & Ew & Eh) Ha]; [destruct Ha as [Ha <-] | done].
  pose proof (recorder_owns r1 ∅) as (_ & _ & _ & Hlib & Hctx & _ & _ & _).
  assert (Hd : 0 <= cr_width r1 /\ 0 <= cr_height r1).
  { destruct Hok1 as (_ & _ & _ & _ & _ & [HW HH] & _). lia. }
  cu_run; cbv beta iota.
  - rewrite provided_true by (by apply pixels_copy_room). reflexivity.
  - done.
  - eapply safe_mono; [apply encode_from_cuarray_safe; auto using recorder_owns; lia|].
    intros r2 L2 res H2. destruct (same_kept r1 r2 L2 Hok1 H2) as (? & ? & ? & ?). split_and!; congruence.
Qed.

Lemma again_kept r pts idr :
  recorder_ok r ->
  safe L0 (reencode_last pts idr) r (recorder_held r ∅) (fun r' L' _ => kept r r' L').
Proof.
  intros Hok. unfold reencode_last. pose proof (recorder_owns r ∅) as Ho. cu_run; [by apply same_kept; auto using same_refl|].
  eapply safe_mono; [by apply dump_safe|]. intros r1 L1 [u|e] (Hs & -> & Hres); [|done].
  eapply safe_mono; [apply nvenc_encode_safe|].
  - by eapply same_ok.
  - by eapply same_owns.
  - rewrite (same_height r r1) by done. destruct Hok as (_ & _ & _ & _ & _ & [HW HH] & _). lia.
  - intros r2 L2 res [-> ->]. by apply same_kept.
Qed.

Lemma bitrate_kept r bps :
  recorder_ok r ->
  safe (E := unit) L0 (reconfigure_bitrate bps) r (recorder_held r ∅) (fun r' L' _ => kept r r' L').
Proof.
  intros Hok. unfold reconfigure_bitrate, nvenc_reconfigure_bitrate.
  pose proof (recorder_owns r ∅) as (Hl & He & _).
  assert (kept r r (recorder_held r ∅)) by (by apply same_kept; auto using same_refl).
  cu_run; auto. take @preset_config_safe; cu_run; auto.
Qed.
End Props.

(** ** Which pixels the kernel converts *)

(** The last row or column of an odd size is left out when the halves fill their blocks. *)
Definition skipped (x w : Z) : Prop := x = w - 1 /\ w mod 2 = 1 /\ (w / 2) mod 16 = 0.

Lemma grid_reaches x w : 0 <= x < w -> (x / 2 < div_ceil (w / 2) 16 * 16 <-> ~ skipped x w).
Proof.
  intros Hx. unfold skipped, div_ceil.
  pose proof (Z_div_mod_eq_full (w / 2 + 16 - 1) 16). pose proof (Z.mod_pos_bound (w / 2 + 16 - 1) 16).
  pose proof (Z_div_mod_eq_full (w / 2) 16). pose proof (Z.mod_pos_bound (w / 2) 16).
  pose proof (Z_div_mod_eq_full w 2). pose proof (Z.mod_pos_bound w 2).
  pose proof (Z_div_mod_eq_full x 2). pose proof (Z.mod_pos_bound x 2).
  split; [intros H7 (H8 & H9 & H10); lia|intros Hn]. lia.
Qed.

Lemma luma_written width height pitch bx by_ x y :
  0 <= bx -> 0 <= by_ -> 0 <= x < width -> 0 <= y < height -> width <= pitch ->
  y * pitch + x ∈ thread_writes width height pitch bx by_ <-> x / 2 = bx /\ y / 2 = by_.
Proof.
  intros Hbx Hby Hx Hy Hp. unfold thread_writes.
  pose proof (Z_div_mod_eq_full x 2). pose proof (Z.mod_pos_bound x 2).
  pose proof (Z_div_mod_eq_full y 2). pose proof (Z.mod_pos_bound y 2).
  destruct ((width <=? bx * 2) || (height <=? by_ * 2)) eqn:E.
  { split; [by intros ?%elem_of_nil|]. intros [<- <-]. boolz. lia. }
  boolz. rewrite elem_of_app, list_elem_of_bind. split.
  - intros [([dx dy] & Hi & Hd)|Hi].
    + destruct ((width <=? bx * 2 + dx) || (height <=? by_ * 2 + dy)) eqn:E; [by apply elem_of_nil in Hi|]. boolz.
      apply list_elem_of_singleton in Hi.
      assert (0 <= dx <= 1 /\ 0 <= dy <= 1).
      { apply list_elem_of_In in Hd. cbn in Hd. destruct_or?; simplify_eq; lia. }
      assert (y = by_ * 2 + dy) by nia. assert (x = bx * 2 + dx) by nia. lia.
    + exfalso. apply list_elem_of_In in Hi. cbn in Hi. nia.
  - intros [<- <-]. left. exists (x mod 2, y mod 2). split.
    + rewrite (proj2 (Z.leb_gt _ _)), (proj2 (Z.leb_gt _ _)) by lia. cbn. apply list_elem_of_singleton. nia.
    + apply list_elem_of_In. assert (x mod 2 = 0 \/ x mod 2 = 1) as [-> | ->] by lia;
        assert (y mod 2 = 0 \/ y mod 2 = 1) as [-> | ->] by lia; cbn; auto.
Qed.

(** A launch converts every pixel of its picture but those of a skipped last row or column:
    the grid covers half of the size rounded down, while the kernel is written for
    rounding up. *)
Theorem kernel_covers r func tex w h x y :
  0 <= w < 2 ^ 31 -> 0 <= h < 2 ^ 31 -> w <= cr_nv12_pitch r < 2 ^ 31 -> 0 <= x < w -> 0 <= y < h ->
  y * cr_nv12_pitch r + x ∈ kernel_writes (csc_launch r func tex w h) <-> ~ skipped x w /\ ~ skipped y h.
Proof.
  intros Hw Hh Hp Hx Hy. rewrite <- !grid_reaches by done. unfold kernel_writes, csc_launch. cbn [l_grid l_block l_width l_height l_pitch].
  rewrite !as_s_id by (unfold in_s; lia). rewrite list_elem_of_bind.
  assert (0 <= x / 2 /\ 0 <= y / 2) as [] by (split; apply Z.div_pos; lia).
  split.
  - intros (by_ & (bx & Hi & Hbx)%list_elem_of_bind & Hby). apply elem_of_seqZ in Hbx, Hby.
    apply luma_written in Hi as [<- <-]; lia.
  - intros [H1 H2]. exists (y / 2). split; [|apply elem_of_seqZ; lia].
    apply list_elem_of_bind. exists (x / 2). split; [|apply elem_of_seqZ; lia]. by apply luma_written; [lia..|].
Qed.

(** The conversion of a dump never indexes out of range. *)
Lemma nv12_to_rgb_total nv12 w h :
  dims_ok w h -> Z.of_nat (length nv12) = nv12_span (nv12_pitch w) h -> is_Some (nv12_to_rgb nv12 w h (nv12_pitch w)).
Proof.
  intros [Hw Hh] Hl. unfold nv12_to_rgb. destruct (nv12_pitch_eq w Hw) as [Hq Hp].
  set (p := nv12_pitch w) in *.
  assert (Hat : forall i, 0 <= i < nv12_span p h -> is_Some (nv12 !! Z.to_nat i)) by (intros i Hi; apply lookup_lt_is_Some; lia).
  unfold nv12_span in *.
  match goal with |- is_Some (?m ≫= _) => assert (Hm : is_Some m) end.
  { apply mapM_is_Some, Forall_forall. intros [y x] Hyx. apply list_elem_of_In in Hyx.
    apply list_elem_of_bind in Hyx as (y' & (x' & Hi & Hx)%list_elem_of_bind & Hy).
    apply list_elem_of_singleton in Hi as [= <- <-]. apply elem_of_seqZ in Hx, Hy.
    pose proof (Z_div_mod_eq_full y 2). pose proof (Z.mod_pos_bound y 2).
    pose proof (Z_div_mod_eq_full (h + 1) 2). pose proof (Z.mod_pos_bound (h + 1) 2).
    assert (Hev : Z.ldiff x 1 = x - x mod 2).
    { change 1 with (Z.ones 1). rewrite Z.ldiff_ones_r by lia. rewrite Z.shiftr_div_pow2, Z.shiftl_mul_pow2 by lia.
      pose proof (Z_div_mod_eq_full x (2 ^ 1)). change (2 ^ 1) with 2 in *. lia. }
    pose proof (Z.mod_pos_bound x 2). pose proof (Z_div_mod_eq_full x 2).
    assert (x - x mod 2 + 1 < p) by (unfold p, div_ceil in *; lia).
    assert (p * (y / 2 + 1) <= p * ((h + 1) / 2)) by (apply Z.mul_le_mono_nonneg_l; lia).
    assert (0 <= p * h) by (apply Z.mul_nonneg_nonneg; lia).
    assert (0 <= y / 2 * p) by (apply Z.mul_nonneg_nonneg; lia).
    assert (0 <= p * ((h + 1) / 2)) by (apply Z.mul_nonneg_nonneg; lia).
    assert (0 <= y * p) by (apply Z.mul_nonneg_nonneg; lia).
    assert (p * (y + 1) <= p * h) by (apply Z.mul_le_mono_nonneg_l; lia).
    cbv beta iota zeta.
    unfold compose. destruct (Hat (y * p + x)) as [a ->]; [lia|]. cbn [mbind option_bind].
    destruct (Hat (p * h + y / 2 * p + Z.ldiff x 1)) as [b ->]; [lia|]. cbn [mbind option_bind].
    destruct (Hat (p * h + y / 2 * p + Z.ldiff x 1 + 1)) as [c ->]; [lia|]. done. }
  destruct Hm as [l ->]. done.
Qed.
