(* ===== verification/CudaViewer.v ===== *)
(** * A viewer over the CUDA recorder

    The recorder of [Cuda] is what the viewer's thread of [ViewerEncoder] encodes with. Over
    any driver the thread releases what it took and touches no memory that is not its own;
    and a viewer whose frames are dmabufs of an ordinary width gets no picture. *)

From Stdlib Require Import ZArith Lia.
From stdpp Require Import prelude strings list gmultiset.
From S2P Require Import Prelude Words Io Driver Nvenc ViewerProtocol Composite Session SessionInput Recorder ViewerEncoder ViewerEncoderProps Cuda CudaProps.

Import ViewerProtocol.Viewer.

Open Scope Z_scope.

Section Viewer.
Context `{D : Driver cu_call} {DB : Dmabufs} (dma_fd dma_modifier : nat -> Z).

(** What a method leaves, with the frame it returns. *)
Definition outcome (r : CudaNvencRecorder * list cu_event * result Nal unit) :
    (CudaNvencRecorder * list cu_event) * option Nal :=
  (r.1, match r.2 with Ok nal => Some nal | Err _ => None end).

#[export] Instance cuda_encoder : CudaEncoder := {|
  cu_state := CudaNvencRecorder * list cu_event;
  cu_new w h :=
    match try_new w h ((), []) with
    | ((_, t), Ok r) => Some (r, t)
    | (_, Err _) => None
    end;
  cu_dmabuf dma pts_us idr s :=
    let '(w, h, stride) := dma_geometry dma in
    outcome (encode_dmabuf (dma_fd dma) (dma_modifier dma) (as_u 32 w) (as_u 32 h) stride pts_us idr s);
  cu_pixels pixels w h pts_us idr s := outcome (encode_pixels pixels w h (as_u 32 (w * 4)) pts_us idr s);
  cu_again pts_us idr s := outcome (reencode_last pts_us idr s);
  cu_bitrate bps s := (reconfigure_bitrate bps s).1;
|}.

(** The thread's end: the recorder is dropped. *)
Definition after_drop (s : CudaNvencRecorder * list cu_event) : list cu_event :=
  (recorder_drop s.1 ((), s.2)).1.2.
End Viewer.

(** ** Everything is given back *)

Section Released.
Context `{CudaLaws} {DB : Dmabufs} (dma_fd dma_modifier : nat -> Z).
Context {W : Type} `{Write W}.

#[local] Existing Instance cuda_encoder.
Abbreviation CE := (cuda_encoder dma_fd dma_modifier).

(** In order, with exactly what it holds alive. *)
Definition in_order (s : CudaNvencRecorder * list cu_event) : Prop :=
  recorder_ok s.1 /\ replay ∅ s.2 = Some (recorder_held s.1 ∅).

Lemma in_order_step {A} (m : Cu CudaNvencRecorder A) r t :
  in_order (r, t) -> safe ∅ m r (recorder_held r ∅) (fun r' L' _ => kept r r' L') ->
  in_order (m (r, t)).1.
Proof.
  intros [Hok Ht] Hm. specialize (Hm t Ht). destruct (m (r, t)) as [[r' t'] res].
  destruct Hm as (L & HL & Hk & -> & _). done.
Qed.

(** A task whose size fits and whose pixels are there. *)
Definition task_fits (t : RecordingTask) : Prop :=
  match t with
  | TaskPixels pixels w h => dims_ok w h /\ w < 2 ^ 30 /\ Z.of_nat (length pixels) = h * (w * 4)
  | TaskDmabuf dma _ => dims_ok (dma_size dma).1 (dma_size dma).2
  | TaskNal _ _ _ _ _ _ => True
  end.

Definition turn_fits (t : VTurn) : Prop := forall task, v_task t = Some task -> task_fits task.

Lemma pixels_fit pixels w h : task_fits (TaskPixels pixels w h) -> pixels_there pixels w h (as_u 32 (w * 4)).
Proof.
  intros ([Hw Hh] & Hs & Hl). rewrite as_u_id by (unfold in_u; lia). unfold pixels_there. lia.
Qed.

Lemma cu_dmabuf_order dma pts idr s : in_order s -> in_order (cu_dmabuf (CudaEncoder := CE) dma pts idr s).1.
Proof.
  destruct s as [r t]. intros Hs. cbn. destruct (dma_geometry dma) as [[w h] stride]. unfold outcome. cbn.
  apply in_order_step; [done|]. destruct Hs as [Hok _]. apply dmabuf_kept; [done|apply as_u_range; lia..].
Qed.

Lemma cu_pixels_order pixels w h pts idr s :
  task_fits (TaskPixels pixels w h) -> in_order s ->
  in_order (cu_pixels (CudaEncoder := CE) pixels w h pts idr s).1.
Proof.
  destruct s as [r t]. intros Hf Hs. cbn. apply in_order_step; [done|].
  apply pixels_kept; [apply Hs | by apply pixels_fit].
Qed.

Lemma cu_again_order pts idr s : in_order s -> in_order (cu_again (CudaEncoder := CE) pts idr s).1.
Proof. destruct s as [r t]. intros Hs. cbn. apply in_order_step; [done|]. apply again_kept, Hs. Qed.

Lemma cu_bitrate_order bps s : in_order s -> in_order (cu_bitrate (CudaEncoder := CE) bps s).
Proof. destruct s as [r t]. intros Hs. cbn. apply in_order_step; [done|]. apply bitrate_kept, Hs. Qed.

Lemma cuda_picture_order start t idr e e' o :
  turn_fits t -> in_order e -> cuda_picture (CE := CE) start t idr e = Ok (e', o) -> in_order e'.
Proof.
  intros Ht He. unfold cuda_picture. destruct (v_task t) as [[p w h|dma holds|]|] eqn:E.
  - intros [= <- _]. by apply cu_pixels_order; [apply Ht|].
  - case_match; intros [= <- _]; [by apply cu_dmabuf_order | by apply cu_again_order].
  - by intros [= <- _].
  - intros [= <- _]. by apply cu_again_order.
Qed.

Lemma cu_new_order w h s : dims_ok w h -> cu_new (CudaEncoder := CE) w h = Some s -> in_order s.
Proof.
  intros Hd. cbn. pose proof (try_new_safe ∅ () w h ∅ Hd [] eq_refl) as Hn.
  destruct (try_new w h ((), [])) as [[u t] [r|e]]; [|done]. intros [= <-].
  destruct Hn as (L & HL & _ & Hok & _ & _ & ->). done.
Qed.

Lemma wait_usable_fits ts src w h t ts' :
  Forall turn_fits ts -> wait_usable ts = Some (Some (src, w, h, t, ts')) ->
  dims_ok w h /\ Forall turn_fits ts' /\
  match src with inr p => task_fits (TaskPixels p w h) | inl _ => True end.
Proof.
  induction ts as [|t0 ts IH]; [done|]. intros [Ht Hts]%Forall_cons_1. cbn [wait_usable].
  destruct (v_stop t0); [done|].
  destruct (v_task t0) as [[p pw ph|dma holds|]|] eqn:E; [| |by apply IH..].
  - destruct (_ && _); [|by apply IH]. intros [= <- <- <- <- <-]. pose proof (Ht _ E) as Hf. split_and!; try done. by destruct Hf.
  - pose proof (Ht _ E) as Hf. cbn in Hf. destruct (dma_size dma) as [dw dh].
    destruct (_ && _); [|by apply IH]. intros [= <- <- <- <- <-]. done.
Qed.

Lemma drop_order s : in_order s -> replay ∅ (after_drop s) = Some ∅.
Proof.
  destruct s as [r t]. intros [Hok Ht]. pose proof (recorder_drop_safe ∅ () r Hok t Ht) as Hd.
  unfold after_drop. cbn [fst snd] in *. destruct (recorder_drop r ((), t)) as [[u t'] res].
  by destruct Hd as (L & HL & _ & -> & _).
Qed.

(** C19: whatever a CUDA driver answers, a viewer's encoder thread that ran and stopped has
    never used, released or written what it did not own: no handle after its release, no
    function of a library that was closed, no byte of the device outside of the memory it
    allocated, no byte of a frame that is not there; and when its recorder is dropped nothing
    it ever took is left, for any frames the session sends whose sizes fit the kernel's
    integers and that carry width * height * 4 bytes of pixels: the session's producers make
    such frames, the encoder does not check the length. *)
Theorem cuda_viewer_releases sock cloned start tick ts s :
  Forall turn_fits ts ->
  run_cuda_nvenc_encoder (CE := CE) sock cloned start tick ts = Ok (Some (CudaStopped s)) ->
  replay ∅ (lv_enc s).2 = Some (recorder_held (lv_enc s).1 ∅) /\ replay ∅ (after_drop (lv_enc s)) = Some ∅.
Proof.
  intros Hts. unfold run_cuda_nvenc_encoder.
  destruct (wait_usable ts) as [[[[[[src w] h] t] ts']|]|] eqn:Ew; [|done..].
  destruct (wait_usable_fits _ _ _ _ _ _ Hts Ew) as (Hd & Hts' & Hsrc).
  destruct (cu_new w h) as [e|] eqn:En; [|done]. apply cu_new_order in En; [|done].
  destruct cloned; [|done]. cbn [negb].
  set (first := match src with inl dma => _ | inr pixels => _ end).
  assert (Hfirst : in_order first.1).
  { unfold first. destruct src as [dma|p]; [case_match; [by apply cu_dmabuf_order|done] | by apply cu_pixels_order]. }
  destruct first as [e1 nal]. cbn [fst] in Hfirst.
  pose proof (live_first_enc nal (live_start e1 sock tick)) as Hl.
  destruct (live_first nal (live_start e1 sock tick)) as [s1 ok]. cbn [fst] in Hl.
  assert (Hs1 : in_order (lv_enc s1)) by (by rewrite Hl).
  intros Hrun.
  assert (in_order (lv_enc s)) as Hs; [revert Hrun|split; [apply Hs|by apply drop_order]].
  destruct ok; cbn [negb]; [|by intros [= <-]].
  destruct (live_loop _ _ _ ts' s1) as [r|] eqn:El; [|done]. destruct r as [s2|]; [|done]. intros [= <-].
  eapply (live_loop_enc _ _ _ _ _ _ in_order); [done| | |done].
  - intros b e0. apply cu_bitrate_order.
  - intros t' idr e0 e' o Ht'. apply cuda_picture_order. rewrite Forall_forall in Hts'. by apply Hts', list_elem_of_In.
Qed.
End Released.

(** ** Dmabufs are refused *)

(** The row length of a packed picture is larger than the pitch of its luma plane. *)
Lemma stride_over_pitch w stride : 65 <= w <= 2 ^ 31 - 256 -> 4 * w <= stride -> nv12_pitch w < stride.
Proof.
  intros Hw Hs. destruct (nv12_pitch_eq w) as [-> _]; [lia|]. unfold div_ceil.
  pose proof (Z_div_mod_eq_full (w + 256 - 1) 256). pose proof (Z.mod_pos_bound (w + 256 - 1) 256).
  assert ((w + 256 - 1) / 256 <= 1 \/ 257 <= w) by lia. lia.
Qed.

Lemma dmabuf_refused `{Driver cu_call} r t fd modifier h pts idr stride :
  cr_nv12_pitch r = nv12_pitch (cr_width r) -> 65 <= cr_width r <= 2 ^ 31 - 256 -> 4 * cr_width r <= stride ->
  exists r', encode_dmabuf fd modifier (cr_width r) h stride pts idr (r, t) = ((r', t), Err ()) /\
    r' = r <| cr_oversize_logged := cr_oversize_logged r' |>.
Proof.
  intros Hp Hw Hs. pose proof (stride_over_pitch _ _ Hw Hs) as Hlt.
  unfold encode_dmabuf, safe_encode_dims, mbind, eff_mbind, here. cbn.
  rewrite Hp. rewrite (proj2 (Z.ltb_ge _ _)) by lia. cbn.
  destruct (cr_height r <? h); cbn.
  - eexists. split; [done|]. by destruct r.
  - rewrite (proj2 (Z.eqb_neq _ _)), (proj2 (Z.ltb_lt _ _)) by lia. cbn. eexists. split; [done|]. by destruct r.
Qed.

Section Black.
Context `{D : Driver cu_call} {DB : Dmabufs} (dma_fd dma_modifier : nat -> Z).
Context {W : Type} `{Write W}.
Context (width height stride : Z).

Abbreviation CE := (cuda_encoder dma_fd dma_modifier).

(** A turn that brings nothing or a dmabuf of this size, and no cursor. *)
Definition only_dmabufs (t : VTurn) : Prop :=
  (drain (v_cursor t)).2 = [] /\
  match v_task t with
  | None => True
  | Some (TaskDmabuf dma _) => dma_geometry dma = (width, height, stride)
  | _ => False
  end.

(** A recorder that has never encoded, of this width. *)
Definition silent (s : CudaNvencRecorder * list cu_event) : Prop :=
  cr_has_encoded s.1 = false /\ cr_width s.1 = width /\ cr_nv12_pitch s.1 = nv12_pitch width.

Lemma try_new_fresh w h r t : try_new w h ((), []) = (((), t), Ok r) ->
  cr_has_encoded r = false /\ cr_width r = w /\ cr_nv12_pitch r = nv12_pitch w.
Proof.
  intros E. refine (yields_run (try_new w h) () [] () t (Ok r) (fun _ res => match res with
    | Ok r => cr_has_encoded r = false /\ cr_width r = w /\ cr_nv12_pitch r = nv12_pitch w | Err _ => True end) _ E).
  unfold try_new, try_encoder.
  repeat first [safe_step | reflexivity | done
    | eapply safe_mono; [apply yields_any|]; intros ? ? [] ? ].
Qed.

Lemma bitrate_silent bps s : silent s -> silent (cu_bitrate (CudaEncoder := CE) bps s).
Proof.
  destruct s as [r t]. intros Hs. cbn. destruct (reconfigure_bitrate bps (r, t)) as [[r' t'] res] eqn:E.
  assert (r' = r) as ->; [|done].
  refine (yields_run _ _ _ _ _ _ (fun r' _ => r' = r) _ E).
  unfold reconfigure_bitrate, nvenc_reconfigure_bitrate, preset_config.
  repeat first [safe_step | reflexivity].
Qed.

Lemma picture_silent start t idr s :
  65 <= width <= 2 ^ 31 - 256 -> 4 * width <= stride -> only_dmabufs t -> silent s ->
  exists s', cuda_picture (CE := CE) start t idr s = Ok (s', Some None) /\ silent s'.
Proof.
  intros Hw Hst [_ Ht] Hs. unfold cuda_picture.
  assert (Ha : forall pts, cu_again (CudaEncoder := CE) pts idr s = (s, None)).
  { intros pts. destruct s as [r tr]. cbn. unfold reencode_last, mbind, eff_mbind, here. cbn.
    destruct Hs as [He _]. cbn in He. by rewrite He. }
  destruct (v_task t) as [[| |]|]; [done| |done|rewrite Ha; by exists s].
  destruct (v_ready t); [|rewrite Ha; by exists s].
  destruct s as [r tr]. destruct Hs as (He & Ew & Hp). cbn in He, Ew, Hp |- *. rewrite Ht.
  rewrite (as_u_id 32 width) by (unfold in_u; lia). rewrite <- Ew in Hw, Hst, Hp |- *.
  destruct (dmabuf_refused r tr (dma_fd dma) (dma_modifier dma) (as_u 32 height)
    (elapsed_us start (v_pts t)) idr stride Hp Hw Hst) as (r' & -> & Hr).
  exists (r', tr). split; [done|]. rewrite Hr. split_and!; cbn; congruence.
Qed.

Lemma loop_silent interval start ts s s' :
  65 <= width <= 2 ^ 31 - 256 -> 4 * width <= stride -> Forall only_dmabufs ts -> silent (lv_enc s) ->
  live_loop (W := W) interval (cu_bitrate (CudaEncoder := CE)) (cuda_picture (CE := CE) start) ts s = Ok (Some s') ->
  lv_w s' = lv_w s.
Proof.
  intros Hw Hst Hts. revert s. induction ts as [|t ts IH]; intros s Hs; [done|].
  apply Forall_cons_1 in Hts as [Ht Hts]. cbn. destruct (v_stop t); [by intros [= <-]|].
  unfold live_round. set (s0 := s <| lv_tick ::= Z.add interval |>).
  assert (H1 : silent (lv_enc (live_inbox (cu_bitrate (CudaEncoder := CE)) t s0)) /\
               lv_w (live_inbox (cu_bitrate (CudaEncoder := CE)) t s0) = lv_w s).
  { unfold live_inbox. cbv zeta. destruct (0 <? _); split; try done. by apply bitrate_silent. }
  destruct H1 as [H1 H2]. set (s1 := live_inbox _ t s0) in *.
  destruct (picture_silent start t (lv_force s1) (lv_enc s1) Hw Hst Ht H1) as (e & -> & He). cbn.
  unfold live_cursor. rewrite (proj1 Ht). cbn. intros E. rewrite <- H2. by apply (IH Hts) in E.
Qed.

(** a CUDA viewer whose frames are dmabufs of one size, at least 65 pixels wide with rows of
    four bytes a pixel or longer, never sends a picture: the guard compares the length of a
    row of the frame with the pitch of the luma plane, a byte a pixel, so every frame is
    refused before the driver is asked for anything, the first one included, and nothing was
    ever encoded that could be repeated. *)
Theorem cuda_viewer_black sock cloned start tick ts s :
  65 <= width <= 2 ^ 31 - 256 -> 4 * width <= stride -> Forall only_dmabufs ts ->
  run_cuda_nvenc_encoder (CE := CE) sock cloned start tick ts = Ok (Some (CudaStopped s)) ->
  lv_w s = sock.
Proof.
  intros Hw Hst Hts. unfold run_cuda_nvenc_encoder.
  destruct (wait_usable ts) as [[[[[[src w] h] t] ts']|]|] eqn:Ew; [|done..].
  assert (Hsrc : exists dma, src = inl dma /\ dma_geometry dma = (width, height, stride) /\ w = width /\ Forall only_dmabufs ts').
  { clear s. induction ts as [|t0 ts IH]; [done|]. apply Forall_cons_1 in Hts as [[_ Ht] Hts]. cbn [wait_usable] in Ew.
    destruct (v_stop t0); [done|].
    destruct (v_task t0) as [[|dma holds|]|]; [done| |done|by apply IH].
    unfold dma_size in Ew. rewrite Ht in Ew. rewrite (as_u_id 32 width) in Ew by (unfold in_u; lia).
    destruct (_ && _); [|by apply IH]. injection Ew as <- <- <- <- <-. by exists dma. }
  destruct Hsrc as (dma & -> & Hg & -> & Hts').
  destruct (cu_new width h) as [e|] eqn:En; [|done]. cbn in En.
  destruct (try_new width h ((), [])) as [[[] tr] [r|]] eqn:Er; [|done]. injection En as <-.
  apply try_new_fresh in Er as (E1 & E2 & E3). destruct cloned; [|done]. cbn [negb].
  assert (Hf : exists e, (if v_ready t then cu_dmabuf (CudaEncoder := CE) dma 0 true (r, tr) else ((r, tr), None)) = (e, None)
                         /\ silent e).
  { destruct (v_ready t); [|by exists (r, tr)]. cbn. rewrite Hg. rewrite (as_u_id 32 width) by (unfold in_u; lia).
    destruct (dmabuf_refused r tr (dma_fd dma) (dma_modifier dma) (as_u 32 height) 0 true stride)
      as (r' & Hd & Hr'); [by rewrite E2|by rewrite E2..|].
    rewrite E2 in Hd. rewrite Hd. exists (r', tr). split; [done|]. rewrite Hr'. split_and!; cbn; congruence. }
  destruct Hf as (e & Hf & He). cbv iota beta.
  lazymatch goal with |- context [if v_ready t then ?a else ?b] =>
    change (if v_ready t then a else b) with (if v_ready t then cu_dmabuf (CudaEncoder := CE) dma 0 true (r, tr) else ((r, tr), None))
  end.
  rewrite Hf. cbn.
  destruct (live_loop _ _ _ ts' _) as [[s2|]|] eqn:El; [|done..]. intros [= <-].
  by apply loop_silent in El.
Qed.
End Black.

(** ** Witnesses *)

(** A driver on which everything succeeds. *)
Definition good_gpu : Driver cu_call := fun A _ c =>
  let rc := {| rc_version := 0; rate_control_mode := 0; average_bit_rate := 0; max_bit_rate := 0; vbv_buffer_size := 0;
               vbv_initial_delay := 0; rc_flags := 1; low_delay_key_frame_scale := 0; multi_pass := 0; rc_others := [] |} in
  let vui := {| video_signal_type_present_flag := 0; video_format := 0; video_full_range_flag := 0;
                colour_description_present_flag := 0; colour_primaries := 0; transfer_characteristics := 0;
                colour_matrix := 0; vui_others := [] |} in
  let config := {| cfg_version := 0; profile_guid := NV_ENC_CODEC_H264_GUID; gop_length := 30; frame_interval_p := 1;
                   rc_params := rc; h264 := {| h264_flags := 0; idr_period := 30; vui_parameters := vui; h264_others := [] |};
                   cfg_others := [] |} in
  match c in cu_call B return B with
  | DlOpen _ => Some 1
  | DlSym _ _ | EglLoad _ | EglInitialize _ _ | EglGetProcAddress _ _ => true
  | WritePng _ _ _ _ => true
  | OpenNode _ => 3
  | GbmCreateDevice _ => 5
  | EglGetPlatformDisplay _ _ => 7
  | EglCreateImage _ _ _ _ => 9
  | CuInit _ _ | CuLaunchKernel _ _ | CuStreamSynchronize _ => 0
  | NvInitializeEncoder _ _ _ | NvReconfigureEncoder _ _ _ _ _ | NvEncodePicture _ _ _ => 0
  | CuDeviceGet _ _ => (0, 0)
  | CuMemcpy2D _ _ => (0, [])
  | NvCreateInstance _ _ => (0, fun _ => 1)
  | NvGetEncodePresetConfigEx _ _ _ _ _ _ _ => (0, config)
  | NvGetSequenceParams _ _ _ _ => (0, (4, [0; 0; 1; 103]))
  | NvLockBitstream _ _ _ _ => (0, (11, [0; 0; 1; 101]))
  | CuCtxCreate _ _ _ | CuModuleLoadData _ | CuModuleGetFunction _ _ _ | CuMemAlloc _ _ | CuArrayCreate _ _ _ _
  | CuRegisterImage _ _ | CuGetMappedFrame _ _ | CuTexObjectCreate _ _ | NvOpenEncodeSessionEx _ _ _ _ _
  | NvCreateBitstreamBuffer _ _ _ | NvRegisterResource _ _ _ | NvMapInputResource _ _ _ _ => (0, 13)
  | GetVar _ => None
  | DlClose _ | CloseFd _ | GbmDeviceDestroy _ | EglTerminate _ _ | EglDestroyImage _ _ _ | CuCtxDestroy _ _
  | CuModuleUnload _ _ | CuMemFree _ _ | CuArrayDestroy _ _ | CuUnregister _ _ | CuTexObjectDestroy _ _
  | NvDestroyBitstreamBuffer _ _ _ | NvDestroyEncoder _ _ | NvUnregisterResource _ _ _ | NvUnmapInputResource _ _ _
  | NvUnlockBitstream _ _ _ => ()
  end.

#[export] Instance good_gpu_laws : CudaLaws (H := good_gpu).
Proof. split; [|done]. intros t lib v a _. split; done. Qed.

(** A frame of pixels, a small dmabuf, nothing, then the stop. *)
Definition cuda_turns : list VTurn :=
  [a_vturn (Some (TaskPixels (replicate 4096 200) 32 32)) false 0; a_vturn (Some (TaskDmabuf 1 [])) true 20000000;
   a_vturn None false 40000000; stop_vturn 60000000].

Definition small_dmabufs : Dmabufs := fun _ => (32, 32, 128).

Abbreviation cuda_run :=
  (run_cuda_nvenc_encoder (DB := small_dmabufs) (CE := cuda_encoder (D := good_gpu) (DB := small_dmabufs) (fun _ => 5) (fun _ => 0))
     (W := list Z) [] true 0 0 cuda_turns).

(** A run that stopped has written this. *)
Definition wrote {CE : CudaEncoder} (r : result (option (cuda_end (CE := CE) (W := list Z))) stop) : option (list Z) :=
  match r with Ok (Some (CudaStopped s)) => Some (lv_w s) | _ => None end.

Lemma cuda_viewer_releases_witness :
  exists s, cuda_run = Ok (Some (CudaStopped s)) /\ lv_w s <> [] /\
    replay ∅ (after_drop (D := good_gpu) (lv_enc s)) = Some ∅.
Proof.
  assert (Hw : wrote cuda_run = Some (concat (replicate 3 [1; 4; 0; 0; 0; 0; 0; 1; 101]))) by (vm_compute; reflexivity).
  destruct cuda_run as [[[| |s]|]|] eqn:E; try discriminate Hw.
  exists s. split; [reflexivity|]. split; [intros Hn; discriminate (eq_trans (eq_sym (f_equal Some Hn)) Hw)|].
  apply (cuda_viewer_releases (H := good_gpu) (DB := small_dmabufs) (W := list Z) (fun _ => 5) (fun _ => 0) [] true 0 0 cuda_turns s); [|exact E].
  repeat apply Forall_cons_2; [..|by apply Forall_nil_2]; intros task [= <-];
    repeat split; vm_compute; try reflexivity; discriminate.
Defined.

(** Dmabufs of 640 by 480 with packed rows. *)
Definition vga_dmabufs : Dmabufs := fun _ => (640, 480, 2560).

Abbreviation black_run :=
  (run_cuda_nvenc_encoder (DB := vga_dmabufs) (CE := cuda_encoder (D := good_gpu) (DB := vga_dmabufs) (fun _ => 5) (fun _ => 0))
     (W := list Z) [] true 0 0 [a_vturn (Some (TaskDmabuf 1 [])) false 0; a_vturn (Some (TaskDmabuf 1 [])) true 20000000;
                                a_vturn None true 40000000; stop_vturn 60000000]).

Lemma cuda_viewer_black_witness : exists s, black_run = Ok (Some (CudaStopped s)) /\ lv_w s = [].
Proof.
  assert (Hw : wrote black_run = Some []) by (vm_compute; reflexivity).
  destruct black_run as [[[| |s]|]|] eqn:E; try discriminate Hw.
  exists s. split; [reflexivity|].
  refine (cuda_viewer_black (D := good_gpu) (DB := vga_dmabufs) (W := list Z) (fun _ => 5) (fun _ => 0) 640 480 2560
    [] true 0 0 _ s _ _ _ E); [lia..|].
  repeat apply Forall_cons_2; [..|by apply Forall_nil_2]; by split.
Defined.
