(* ===== verification/Libav.v ===== *)
(** * libav and the Vulkan commands of the libav encoders
      ([crates/waymux-session/src/hevc_vk_record.rs], [ffv1_vk_record.rs],
      [vaapi_h264_record.rs])

    The calls of the three encoders as constructors of [av_call], and their effects. A
    reference to a buffer of libav is a resource, as often as it was taken; what was attached
    to a codec context, a frame or a filter graph belongs to it and goes with it. *)

From Stdlib Require Import ZArith Lia.
From stdpp Require Import prelude strings list gmultiset.
From S2P Require Import Prelude Words Driver.

Open Scope Z_scope.

(** ** Vulkan commands *)

Inductive Layout := LUndefined | LGeneral | LTransferSrc | LTransferDst | LOther (raw : Z).

#[global] Instance layout_eq_dec : EqDecision Layout.
Proof. solve_decision. Defined.

Inductive Aspect := AColor | APlane0 | APlane1.

(** [vk::ImageMemoryBarrier2]: an image, its layouts, and the accesses on both sides. *)
Record Barrier := {
  b_image : Z;
  b_old : Layout;
  b_new : Layout;
  b_src_access : Z;
  b_dst_access : Z;
}.

Definition TRANSFER_READ : Z := 0x800.
Definition TRANSFER_WRITE : Z := 0x1000.
Definition SHADER_READ : Z := 0x20.

Inductive VkCmd :=
| PipelineBarrier (bs : list Barrier)
| CopyImage (src : Z) (src_layout : Layout) (dst : Z) (dst_layout : Layout)
    (regions : list (Aspect * Aspect)) (width height : Z).

(** What libav says of a plane of one of its frames ([WaymuxVkFrameView]). *)
Record FrameView := {
  fv_img : Z;
  fv_sem : Z;
  fv_sem_value : Z;
  fv_layout : Layout;
  fv_access : Z;
  fv_queue_family : Z;
}.

(** ** Parameters *)

Inductive PixFmt := FVulkan | FVaapi | FDrmPrime | FNv24 | FNv12 | FBgra | FBgr0.

Record FramesParams := {
  fp_format : PixFmt;
  fp_sw_format : PixFmt;
  fp_width : Z;
  fp_height : Z;
  fp_pool : Z;
}.

(** The fields of an [AVCodecContext] that are set, and the options. *)
Record CodecParams := {
  cp_width : Z;
  cp_height : Z;
  cp_pix_fmt : PixFmt;
  cp_time_base : Z * Z;
  cp_framerate : Z * Z;
  cp_global_header : bool;
  cp_bt709_limited : bool;
  cp_gop_size : option Z;
  cp_max_b_frames : option Z;
  cp_bit_rate : option Z;
  cp_rc_max_rate : option Z;
  cp_rc_buffer_size : option Z;
  cp_options : list (string * string);
}.

Record AvPacket := { ap_data : list Z; ap_key : bool; ap_pts : Z }.

(** [EAGAIN] and the end of the stream. *)
Definition AVERROR_EAGAIN : Z := -11.
Definition AVERROR_EOF : Z := -541478725.

(** ** Calls *)

Inductive av_call : Set -> Set :=
| AvHwdeviceAlloc (ty : PixFmt) : av_call Z
| AvHwdeviceCreate (ty : PixFmt) (node : string) : av_call (Z * Z)
| AvvkSetDevice (dev device compute_qf encode_qf : Z) (extensions : list string) : av_call Z
| AvHwdeviceInit (dev : Z) : av_call Z
| AvHwframeAlloc (dev : Z) : av_call Z
| AvvkSetFrames (frames tiling usage : Z) : av_call Z
| AvHwframeInit (frames : Z) (p : FramesParams) : av_call Z
| AvFindEncoder (name : string) : av_call Z
| AvAllocContext (codec : Z) : av_call Z
| AvCtxAttach (ctx buf : Z) : av_call bool
| AvOptSet (ctx : Z) (key value : string) : av_call Z
| AvOpen2 (ctx codec : Z) (p : CodecParams) : av_call Z
| AvExtradata (ctx : Z) : av_call (list Z)
| AvFreeContext (ctx : Z) : av_call unit
| AvBufferUnref (buf : Z) : av_call unit
| VkCreateCommandPool (family : Z) : av_call (option Z)
| VkAllocateCommandBuffer (pool : Z) : av_call (option Z)
| VkDestroyCommandPool (pool : Z) : av_call unit
| VkResetCommandBuffer (cb : Z) : av_call bool
| VkBeginCommandBuffer (cb : Z) : av_call bool
| VkRecord (cb : Z) (c : VkCmd) : av_call unit
| VkEndCommandBuffer (cb : Z) : av_call bool
| VkQueueSubmit (cb wait_sem wait_value signal_sem signal_value : Z) : av_call bool
| AvFrameAlloc : av_call Z
| AvFrameFree (frame : Z) : av_call unit
| AvHwframeGetBuffer (frames frame : Z) : av_call Z
| AvFrameData (frame : Z) : av_call Z
| AvvkFrameView (frame plane : Z) : av_call FrameView
| AvvkFrameUpdate (frame plane sem_value : Z) (layout : Layout) (access queue_family : Z) : av_call unit
| AvSendFrame (ctx frame pts : Z) (intra : bool) : av_call Z
| AvPacketAlloc : av_call Z
| AvReceivePacket (ctx packet : Z) : av_call (Z * AvPacket)
| AvPacketFree (packet : Z) : av_call unit
| AvFrameGetBuffer (frame : Z) (fmt : PixFmt) (width height : Z) : av_call (Z * (Z * Z))
| AvFrameFill (frame width height linesize0 linesize1 : Z) (luma chroma : list (Z * list Z)) : av_call unit
| AvHwframeTransfer (hw sw : Z) : av_call Z
| AvGraphAlloc : av_call Z
| AvGraphFree (graph : Z) : av_call unit
| AvGetFilter (name : string) : av_call Z
| AvGraphAllocFilter (graph filter : Z) (name : string) : av_call Z
| AvSrcParamsAlloc : av_call Z
| AvSrcParamsSet (src par : Z) (fmt : PixFmt) (width height frames : Z) : av_call Z
| AvFree (par : Z) : av_call unit
| AvFilterInit (filter : Z) : av_call Z
| AvGraphCreateFilter (graph filter : Z) (name : string) (args : option string) : av_call (Z * Z)
| AvFilterAttach (filter buf : Z) : av_call bool
| AvFilterLink (a b : Z) : av_call Z
| AvGraphConfig (graph : Z) : av_call Z
| Dup (fd : Z) : av_call Z
| LseekEnd (fd : Z) : av_call Z
| LseekStart (fd : Z) : av_call unit
| CloseFd (fd : Z) : av_call unit
| AvFrameOwn (frame fd size modifier format stride offset : Z) : av_call Z
| AvFrameAttach (frame buf : Z) : av_call bool
| AvSrcAddFrame (src frame : Z) : av_call Z
| AvSinkGetFrame (sink frame : Z) : av_call Z
| InstantMs : av_call Z
| EnvIs (name value : string) : av_call bool.

Abbreviation av_event := (event av_call).

(** ** Resources *)

Inductive av_res :=
| RBuf (h : Z)
| RCtx (h : Z)
| RFrame (h : Z)
| RPacket (h : Z)
| RPool (h : Z)
| RGraph (h : Z)
| RParams (h : Z)
| RDesc (fd : Z).

#[global] Instance av_res_eq_dec : EqDecision av_res.
Proof. solve_decision. Defined.

#[global] Instance av_res_countable : Countable av_res.
Proof.
  refine (inj_countable'
    (fun r => match r with
     | RBuf h => (0%nat, h) | RCtx h => (1%nat, h) | RFrame h => (2%nat, h) | RPacket h => (3%nat, h)
     | RPool h => (4%nat, h) | RGraph h => (6%nat, h) | RParams h => (7%nat, h)
     | RDesc h => (8%nat, h) end)
    (fun '(k, h) => match k with
     | 0 => RBuf h | 1 => RCtx h | 2 => RFrame h | 3 => RPacket h | 4 => RPool h
     | 6 => RGraph h | 7 => RParams h | _ => RDesc h end%nat) _).
  by intros [].
Defined.

Abbreviation av_live := (gmultiset av_res).

Definition has (r : av_res) (L : av_live) : bool := bool_decide (r ∈ L).

(** A pointer that may be null. *)
Definition unless_null (a : Z) (r : Z -> av_res) (L : av_live) : option av_live :=
  Some (if a =? 0 then L else {[+ r a +]} ⊎ L).

(** Rows of [width] bytes that are there, copied to offsets inside of a plane of [rows] rows
    of [linesize] bytes. *)
Definition rows_fit (width linesize rows : Z) (l : list (Z * list Z)) : bool :=
  forallb (fun '(off, bytes) =>
    (0 <=? off) && (off + width <=? linesize * rows) && (Z.of_nat (length bytes) =? width)) l.

#[export] Instance av_effects : Effects av_call av_res := fun e L =>
  match e with
  | Ev _ c a =>
      match c in av_call T return T -> option av_live with
      | AvHwdeviceAlloc _ => fun a => unless_null a RBuf L
      | AvHwdeviceCreate _ _ => fun a => Some (if (a.1 <? 0) || (a.2 =? 0) then L else {[+ RBuf a.2 +]} ⊎ L)
      | AvvkSetDevice dev _ _ _ _ => fun _ => borrow (RBuf dev) L
      | AvHwdeviceInit dev => fun _ => borrow (RBuf dev) L
      | AvHwframeAlloc dev => fun a => provided (has (RBuf dev) L) (unless_null a RBuf L)
      | AvvkSetFrames f _ _ => fun _ => borrow (RBuf f) L
      | AvHwframeInit f _ => fun _ => borrow (RBuf f) L
      | AvFindEncoder _ => fun _ => Some L
      | AvAllocContext _ => fun a => unless_null a RCtx L
      | AvCtxAttach ctx buf => fun _ => provided (has (RCtx ctx) L && has (RBuf buf) L) (Some L)
      | AvOptSet ctx _ _ => fun _ => borrow (RCtx ctx) L
      | AvOpen2 ctx _ _ => fun _ => borrow (RCtx ctx) L
      | AvExtradata ctx => fun _ => borrow (RCtx ctx) L
      | AvFreeContext ctx => fun _ => release (RCtx ctx) L
      | AvBufferUnref b => fun _ => release (RBuf b) L
      | VkCreateCommandPool _ => fun a => Some (match a with Some p => {[+ RPool p +]} ⊎ L | None => L end)
      | VkAllocateCommandBuffer p => fun _ => borrow (RPool p) L
      | VkDestroyCommandPool p => fun _ => release (RPool p) L
      | VkResetCommandBuffer _ => fun _ => Some L
      | VkBeginCommandBuffer _ => fun _ => Some L
      | VkRecord _ _ => fun _ => Some L
      | VkEndCommandBuffer _ => fun _ => Some L
      | VkQueueSubmit _ _ _ _ _ => fun _ => Some L
      | AvFrameAlloc => fun a => unless_null a RFrame L
      | AvFrameFree f => fun _ => release (RFrame f) L
      | AvHwframeGetBuffer p f => fun _ => provided (has (RBuf p) L && has (RFrame f) L) (Some L)
      | AvFrameData f => fun _ => borrow (RFrame f) L
      | AvvkFrameView f _ => fun _ => borrow (RFrame f) L
      | AvvkFrameUpdate f _ _ _ _ _ => fun _ => borrow (RFrame f) L
      | AvSendFrame ctx f _ _ => fun _ => provided (has (RCtx ctx) L && ((f =? 0) || has (RFrame f) L)) (Some L)
      | AvPacketAlloc => fun a => unless_null a RPacket L
      | AvReceivePacket ctx p => fun _ => provided (has (RCtx ctx) L && has (RPacket p) L) (Some L)
      | AvPacketFree p => fun _ => release (RPacket p) L
      | AvFrameGetBuffer f _ _ _ => fun _ => borrow (RFrame f) L
      | AvFrameFill f w h ls0 ls1 ys uvs => fun _ =>
          provided (has (RFrame f) L && rows_fit w ls0 h ys && rows_fit w ls1 (h / 2) uvs) (Some L)
      | AvHwframeTransfer hw sw => fun _ => provided (has (RFrame hw) L && has (RFrame sw) L) (Some L)
      | AvGraphAlloc => fun a => unless_null a RGraph L
      | AvGraphFree g => fun _ => release (RGraph g) L
      | AvGetFilter _ => fun _ => Some L
      | AvGraphAllocFilter g _ _ => fun _ => borrow (RGraph g) L
      | AvSrcParamsAlloc => fun a => unless_null a RParams L
      | AvSrcParamsSet _ p _ _ _ frames => fun _ => provided (has (RParams p) L && has (RBuf frames) L) (Some L)
      | AvFree p => fun _ => release (RParams p) L
      | AvFilterInit _ => fun _ => Some L
      | AvGraphCreateFilter g _ _ _ => fun _ => borrow (RGraph g) L
      | AvFilterAttach _ b => fun _ => borrow (RBuf b) L
      | AvFilterLink _ _ => fun _ => Some L
      | AvGraphConfig g => fun _ => borrow (RGraph g) L
      | Dup _ => fun a => Some (if a <? 0 then L else {[+ RDesc a +]} ⊎ L)
      | LseekEnd fd => fun _ => borrow (RDesc fd) L
      | LseekStart fd => fun _ => borrow (RDesc fd) L
      | CloseFd fd => fun _ => release (RDesc fd) L
      | AvFrameOwn f fd _ _ _ _ _ => fun a =>
          provided (has (RFrame f) L && has (RDesc fd) L) (if a =? 0 then Some L else release (RDesc fd) L)
      | AvFrameAttach f b => fun _ => provided (has (RFrame f) L && has (RBuf b) L) (Some L)
      | AvSrcAddFrame _ f => fun _ => borrow (RFrame f) L
      | AvSinkGetFrame _ f => fun _ => borrow (RFrame f) L
      | InstantMs => fun _ => Some L
      | EnvIs _ _ => fun _ => Some L
      end a
  end.

(** ** Errors *)

Inductive av_error :=
| AvSays (what : string)
| AvCode (what : string) (code : Z)
| AvFuel.

(** ** Packets *)

Section Drain.
Context `{Driver av_call} {X : Type}.

Abbreviation Av A := (Eff (X * list av_event) av_error A).

(** Receive until there is nothing more; what was received is lost with an error. *)
Fixpoint drain_packets (fuel : nat) (what : string) (ctx : Z) (acc : list AvPacket) : Av (list AvPacket) :=
  match fuel with
  | O => fail AvFuel
  | S fuel =>
      pkt ← ask AvPacketAlloc;
      if pkt =? 0 then fail (AvSays "av_packet_alloc returned null")
      else
        r ← ask (AvReceivePacket ctx pkt);
        ask (AvPacketFree pkt) ;;
        if (r.1 =? AVERROR_EAGAIN) || (r.1 =? AVERROR_EOF) then mret acc
        else if r.1 <? 0 then fail (AvCode what r.1)
        else drain_packets fuel what ctx (acc ++ [r.2])
  end.
End Drain.
