(* ===== verification/LibavVk.v ===== *)
(** * The FFV1 and HEVC encoders
      ([crates/waymux-session/src/ffv1_vk_record.rs], [hevc_vk_record.rs])

    Two encoders that share everything but the parameters of the codec and the planes of a
    frame: libav wraps the Vulkan device of the session, a frame is copied into an image of
    libav's pool on the compute queue, libav is told what state the image is left in, and the
    packets that come out are collected. [VkCodec] holds what differs. Pipeline stages are not
    part of a barrier here: they are constants, and no claim depends on them. *)

From Stdlib Require Import ZArith Lia.
From stdpp Require Import prelude strings list gmultiset.
From S2P Require Import Prelude Words Driver H264 Libav.

Open Scope Z_scope.

(** [VkDeviceCtx], what is used of it. *)
Record VkDevice := {
  vd_device : Z;
  vd_compute_family : Z;
  vd_encode_family : Z;
  vd_extensions : list string;
}.

Record FrameInputView := {
  fi_image : Z;
  fi_layout : Layout;
  fi_access : Z;
  fi_queue_family : Z;
}.

Record VkCodec := {
  vc_name : string;
  vc_coded : Z -> Z;
  vc_sw_format : PixFmt;
  vc_extra_usage : Z;
  vc_params : Z -> Z -> CodecParams;
  vc_planes : bool;
  vc_codec_id : string;
}.

Definition VIDEO_ENCODE_SRC_KHR : Z := 0x4000.

Definition FFV1 : VkCodec := {|
  vc_name := "ffv1_vulkan";
  vc_coded := fun d => d;
  vc_sw_format := FBgra;
  vc_extra_usage := 0;
  vc_params := fun w h => {|
    cp_width := as_s 32 w; cp_height := as_s 32 h; cp_pix_fmt := FVulkan;
    cp_time_base := (1, 1000000); cp_framerate := (60, 1);
    cp_global_header := false; cp_bt709_limited := false;
    cp_gop_size := None; cp_max_b_frames := None;
    cp_bit_rate := None; cp_rc_max_rate := None; cp_rc_buffer_size := None;
    cp_options := [] |};
  vc_planes := false;
  vc_codec_id := "V_FFV1";
|}.

Definition HEVC : VkCodec := {|
  vc_name := "hevc_vulkan";
  vc_coded := align_to_ctu;
  vc_sw_format := FNv24;
  vc_extra_usage := VIDEO_ENCODE_SRC_KHR;
  vc_params := fun w h => {|
    cp_width := as_s 32 w; cp_height := as_s 32 h; cp_pix_fmt := FVulkan;
    cp_time_base := (1, 1000000); cp_framerate := (60, 1);
    cp_global_header := true; cp_bt709_limited := true;
    cp_gop_size := Some 1; cp_max_b_frames := Some 0;
    cp_bit_rate := None; cp_rc_max_rate := None; cp_rc_buffer_size := None;
    cp_options := [("profile", "rext"); ("tune", "lossless"); ("qp", "0"); ("rc_mode", "cqp")] |};
  vc_planes := true;
  vc_codec_id := "V_MPEGH/ISO/HEVC";
|}.

(** [Ffv1VkEncoder], [HevcVkEncoder] *)
Record VkEncoder := {
  ve_width : Z;
  ve_height : Z;
  ve_coded_width : Z;
  ve_coded_height : Z;
  ve_device_ref : Z;
  ve_frames_ref : Z;
  ve_codec_ctx : Z;
  ve_extradata : list Z;
  ve_cmd_pool : Z;
  ve_cmd_buffer : Z;
  ve_device_raw : Z;
  ve_compute_family : Z;
  ve_next_frame : Z;
}.

#[export] Instance eta_VkEncoder : Eta VkEncoder := fun r =>
  Build_VkEncoder (ve_width r) (ve_height r) (ve_coded_width r) (ve_coded_height r) (ve_device_ref r)
    (ve_frames_ref r) (ve_codec_ctx r) (ve_extradata r) (ve_cmd_pool r) (ve_cmd_buffer r)
    (ve_device_raw r) (ve_compute_family r) (ve_next_frame r).

Section Open.
Context `{Driver av_call} (codec : VkCodec) (vk : VkDevice).

Abbreviation Av A := (Eff (unit * list av_event) av_error A).

(** The device of the session as a device of libav. The vector of extension names is forgotten
    by the code, one for every opening; memory of Rust is not counted here. *)
Definition vk_device : Av Z :=
  dev ← ask (AvHwdeviceAlloc FVulkan);
  if dev =? 0 then fail (AvSays "av_hwdevice_ctx_alloc(VULKAN) returned null")
  else
    r ← ask (AvvkSetDevice dev (vd_device vk) (vd_compute_family vk) (vd_encode_family vk) (vd_extensions vk));
    if negb (r =? 0) then ask (AvBufferUnref dev) ;; fail (AvCode "waymux_avvk_set_device" r)
    else
      r ← ask (AvHwdeviceInit dev);
      if r <? 0 then ask (AvBufferUnref dev) ;; fail (AvCode "av_hwdevice_ctx_init(VULKAN)" r)
      else mret dev.

Definition unref_both (frames dev : Z) : Av unit := ask (AvBufferUnref frames) ;; ask (AvBufferUnref dev).

(** The pool of frames. *)
Definition vk_frames (dev w h : Z) : Av Z :=
  frames ← ask (AvHwframeAlloc dev);
  if frames =? 0 then ask (AvBufferUnref dev) ;; fail (AvSays "av_hwframe_ctx_alloc returned null")
  else
    r ← ask (AvvkSetFrames frames 0 (vc_extra_usage codec));
    if negb (r =? 0) then unref_both frames dev ;; fail (AvCode "waymux_avvk_set_frames" r)
    else
      r ← ask (AvHwframeInit frames
                 {| fp_format := FVulkan; fp_sw_format := vc_sw_format codec;
                    fp_width := as_s 32 w; fp_height := as_s 32 h; fp_pool := 4 |});
      if r <? 0 then unref_both frames dev ;; fail (AvCode "av_hwframe_ctx_init" r)
      else mret frames.

(** An option that is not accepted is only logged. *)
Definition set_option (ctx : Z) (kv : string * string) : Av unit := _ ← ask (AvOptSet ctx kv.1 kv.2); mret ().

(** The opened encoder with its header. *)
Definition vk_codec (dev frames w h : Z) : Av (Z * list Z) :=
  c ← ask (AvFindEncoder (vc_name codec));
  if c =? 0 then unref_both frames dev ;; fail (AvSays (vc_name codec +:+ " encoder not found in this ffmpeg build"))
  else
    ctx ← ask (AvAllocContext c);
    if ctx =? 0 then unref_both frames dev ;; fail (AvSays "avcodec_alloc_context3 returned null")
    else
      ask (AvCtxAttach ctx dev) ;;
      ask (AvCtxAttach ctx frames) ;;
      each (cp_options (vc_params codec w h)) (set_option ctx) ;;
      r ← ask (AvOpen2 ctx c (vc_params codec w h));
      if r <? 0 then
        ask (AvFreeContext ctx) ;; unref_both frames dev ;;
        fail (AvCode ("avcodec_open2(" +:+ vc_name codec +:+ ")") r)
      else
        extradata ← ask (AvExtradata ctx);
        mret (ctx, extradata).

(** The command pool and its one command buffer. *)
Definition vk_commands (dev frames ctx : Z) : Av (Z * Z) :=
  pool ← ask (VkCreateCommandPool (vd_compute_family vk));
  match pool with
  | None => ask (AvFreeContext ctx) ;; unref_both frames dev ;; fail (AvSays "create_command_pool")
  | Some pool =>
      cb ← ask (VkAllocateCommandBuffer pool);
      match cb with
      | None =>
          ask (VkDestroyCommandPool pool) ;; ask (AvFreeContext ctx) ;; unref_both frames dev ;;
          fail (AvSays "allocate_command_buffers")
      | Some cb => mret (pool, cb)
      end
  end.

Definition vk_open (width height : Z) : Av VkEncoder :=
  if negb (width mod 2 =? 0) || negb (height mod 2 =? 0) then fail (AvSays (vc_name codec +:+ " needs even dims"))
  else
    let w := vc_coded codec width in
    let h := vc_coded codec height in
    dev ← vk_device;
    frames ← vk_frames dev w h;
    c ← vk_codec dev frames w h;
    p ← vk_commands dev frames c.1;
    mret {| ve_width := width; ve_height := height; ve_coded_width := w; ve_coded_height := h;
            ve_device_ref := dev; ve_frames_ref := frames; ve_codec_ctx := c.1; ve_extradata := c.2;
            ve_cmd_pool := p.1; ve_cmd_buffer := p.2; ve_device_raw := vd_device vk;
            ve_compute_family := vd_compute_family vk; ve_next_frame := 0 |}.
End Open.

Definition ffv1_open `{Driver av_call} := vk_open FFV1.
Definition hevc_open `{Driver av_call} := vk_open HEVC.

(** ** One frame *)

(** A frame whose planes share one image has no second image. *)
Definition no_plane : FrameView :=
  {| fv_img := 0; fv_sem := 0; fv_sem_value := 0; fv_layout := LUndefined; fv_access := 0; fv_queue_family := 0 |}.

Definition to_source (input : FrameInputView) : Barrier :=
  {| b_image := fi_image input; b_old := fi_layout input; b_new := LTransferSrc;
     b_src_access := fi_access input; b_dst_access := TRANSFER_READ |}.

Definition to_target (v : FrameView) : Barrier :=
  {| b_image := fv_img v; b_old := fv_layout v; b_new := LTransferDst;
     b_src_access := fv_access v; b_dst_access := TRANSFER_WRITE |}.

Definition to_encoder (img : Z) : Barrier :=
  {| b_image := img; b_old := LTransferDst; b_new := LGeneral;
     b_src_access := TRANSFER_WRITE; b_dst_access := SHADER_READ |}.

(** The commands that copy the input into the image or the images of a frame. *)
Definition copy_commands (planes : bool) (input : FrameInputView) (v0 v1 : FrameView) (w h : Z) : list VkCmd :=
  let copy dst regions := CopyImage (fi_image input) LTransferSrc dst LTransferDst regions w h in
  if fv_img v1 =? 0 then
    [ PipelineBarrier [to_source input; to_target v0];
      copy (fv_img v0) (if planes then [(APlane0, APlane0); (APlane1, APlane1)] else [(AColor, AColor)]);
      PipelineBarrier [to_encoder (fv_img v0)] ]
  else
    [ PipelineBarrier [to_source input; to_target v0; to_target v1];
      copy (fv_img v0) [(APlane0, AColor)];
      copy (fv_img v1) [(APlane1, AColor)];
      PipelineBarrier [to_encoder (fv_img v0); to_encoder (fv_img v1)] ].

Section Encode.
Context `{Driver av_call} (codec : VkCodec).

Abbreviation Av A := (Eff (VkEncoder * list av_event) av_error A).

Definition unless_ok (what : string) (ok : bool) : Av unit := if ok then mret () else fail (AvSays what).
Definition unless_neg (what : string) (r : Z) : Av unit := if r <? 0 then fail (AvCode what r) else mret ().

Definition record_copy (input : FrameInputView) (v0 v1 : FrameView) : Av unit :=
  s ← here;
  let cb := ve_cmd_buffer s in
  ok ← ask (VkResetCommandBuffer cb); unless_ok "reset_command_buffer" ok ;;
  ok ← ask (VkBeginCommandBuffer cb); unless_ok "begin_command_buffer" ok ;;
  each (copy_commands (vc_planes codec) input v0 v1 (ve_coded_width s) (ve_coded_height s))
    (fun c => ask (VkRecord cb c)) ;;
  ok ← ask (VkEndCommandBuffer cb); unless_ok "end_command_buffer" ok ;;
  ok ← ask (VkQueueSubmit cb (fv_sem v0) (fv_sem_value v0) (fv_sem v0) (as_u 64 (fv_sem_value v0 + 1)));
  unless_ok "queue_submit2" ok.

(** What libav is told of a plane. *)
Definition tell_plane (frame plane : Z) (v0 : FrameView) : Av unit :=
  ask (AvvkFrameUpdate frame plane (as_u 64 (fv_sem_value v0 + 1)) LGeneral SHADER_READ (fv_queue_family v0)).

(** From the pool to the packets, with a frame that is freed whatever happens here. *)
Definition encode_frame (fuel : nat) (input : FrameInputView) (pts_us frame : Z) : Av (list AvPacket) :=
  s ← here;
  r ← ask (AvHwframeGetBuffer (ve_frames_ref s) frame); unless_neg "av_hwframe_get_buffer" r ;;
  data ← ask (AvFrameData frame);
  if data =? 0 then fail (AvSays "av_hwframe_get_buffer succeeded but data[0] is null")
  else
    v0 ← ask (AvvkFrameView frame 0);
    v1 ← (if vc_planes codec then ask (AvvkFrameView frame 1) else mret no_plane);
    record_copy input v0 v1 ;;
    tell_plane frame 0 v0 ;;
    (if fv_img v1 =? 0 then mret () else tell_plane frame 1 v0) ;;
    r ← ask (AvSendFrame (ve_codec_ctx s) frame pts_us false); unless_neg "avcodec_send_frame" r ;;
    packets ← drain_packets fuel "avcodec_receive_packet" (ve_codec_ctx s) [];
    change (fun s => s <| ve_next_frame ::= (fun n => n + 1) |>) ;;
    mret packets.

Definition encode_one (fuel : nat) (vk : VkDevice) (input : FrameInputView) (pts_us : Z) : Av (list AvPacket) :=
  s ← here;
  if negb (vd_device vk =? ve_device_raw s) then fail (AvSays "VkDeviceCtx changed between open and encode_one")
  else if negb (fi_queue_family input =? ve_compute_family s) then fail (AvSays "input image on another queue family")
  else
    frame ← ask AvFrameAlloc;
    if frame =? 0 then fail (AvSays "av_frame_alloc returned null")
    else
      r ← attempt (encode_frame fuel input pts_us frame);
      ask (AvFrameFree frame) ;;
      match r with Ok packets => mret packets | Err e => fail e end.

Definition flush (fuel : nat) : Av (list AvPacket) :=
  s ← here;
  r ← ask (AvSendFrame (ve_codec_ctx s) 0 0 false); unless_neg "flush avcodec_send_frame(NULL)" r ;;
  drain_packets fuel "flush avcodec_receive_packet" (ve_codec_ctx s) [].

(** [Drop]: the command pool stays. *)
Definition vk_drop : Av unit :=
  s ← here;
  (if ve_codec_ctx s =? 0 then mret () else ask (AvFreeContext (ve_codec_ctx s))) ;;
  (if ve_frames_ref s =? 0 then mret () else ask (AvBufferUnref (ve_frames_ref s))) ;;
  (if ve_device_ref s =? 0 then mret () else ask (AvBufferUnref (ve_device_ref s))).
End Encode.

Definition ffv1_encode_one `{Driver av_call} := encode_one FFV1.
Definition hevc_encode_one `{Driver av_call} := encode_one HEVC.

(** [open_ffv1_mkv], [open_hevc_mkv]: size, private data and name of the track. *)
Definition mkv_track (codec : VkCodec) (e : VkEncoder) : Z * Z * list Z * string :=
  (ve_coded_width e, ve_coded_height e, ve_extradata e, vc_codec_id codec).
