(* ===== verification/LibavProps.v ===== *)
(** * Receiving packets

    The steps and lemmas that the three libav encoders share: what a call does to the
    resources, and the loop that receives packets, which frees each of them and ends when the
    encoder has nothing more. *)

From Stdlib Require Import ZArith Lia.
From stdpp Require Import prelude strings list gmultiset.
From S2P Require Import Prelude Words Driver Libav.

Open Scope Z_scope.

Lemma has_in r L : r ∈ L -> has r L = true.
Proof. apply bool_decide_eq_true_2. Qed.

Lemma unless_null_ok a r L : a <> 0 -> unless_null a r L = Some ({[+ r a +]} ⊎ L).
Proof. intros Ha. unfold unless_null. by rewrite (proj2 (Z.eqb_neq _ _) Ha). Qed.

Lemma own_effect (b : bool) r (M : av_live) :
  (if b then Some ({[+ r +]} ⊎ M) else release r ({[+ r +]} ⊎ M)) = Some (if b then {[+ r +]} ⊎ M else M).
Proof. rewrite release_acquired. by destruct b. Qed.

Ltac av_side :=
  rewrite ?andb_true_iff;
  repeat match goal with |- _ /\ _ => split end;
  try lazymatch goal with
  | |- has _ _ = true => apply has_in; there
  | |- (?f =? 0) || has _ _ = true => apply orb_true_iff; first [left; reflexivity | right; apply has_in; there]
  end.

(** Compute the effect of a call. *)
Ltac av_effect :=
  lazymatch goal with
  | |- effect (Ev _ _ _) _ = Some _ =>
      cbn [effect av_effects];
      try (rewrite provided_true; [|av_side]);
      try lazymatch goal with
      | |- borrow _ _ = Some _ => apply borrow_alive; there
      | |- release _ _ = Some _ => release_now
      | |- unless_null _ _ _ = Some _ => reflexivity
      | |- (if _ then Some _ else release _ _) = Some _ => apply own_effect
      | |- Some _ = Some _ => reflexivity
      end
  end.

(** A test whether a call answered null decides what it acquired. *)
Ltac av_null :=
  match goal with
  | E : (?a =? 0) = _ |- context [?a =? 0] => rewrite E
  | E : ?a = _ |- context [match ?a with Some _ => _ | None => _ end] => rewrite E
  end.

Ltac av_run := repeat first [safe_step | av_effect | progress av_null].
Ltac av_fin := cbn; boolz; try done; try lia.

Section Drain.
Context `{Driver av_call}.
Context (L0 : av_live).

(** A packet is freed before the next one is allocated. *)
Lemma drain_safe {X} (x : X) fuel what ctx acc L :
  RCtx ctx ∈ L -> safe L0 (drain_packets fuel what ctx acc) x L (fun x' L' _ => x' = x /\ L' = L).
Proof.
  intros Hc. revert acc. induction fuel as [|fuel IH]; intros acc; cbn [drain_packets]; av_run; auto.
Qed.
End Drain.

(** ** The loop ends *)

(** Packets received since the last frame was sent. *)
Definition received_step (n : nat) (e : av_event) : nat :=
  match e with
  | Ev _ c a =>
      match c in av_call T return T -> nat with
      | AvSendFrame _ _ _ _ => fun _ => 0%nat
      | AvReceivePacket _ _ => fun r => if r.1 <? 0 then n else S n
      | _ => fun _ => n
      end a
  end.

Definition received (t : list av_event) : nat := foldl received_step 0%nat t.

Section Ends.
Context `{Driver av_call} (delay : nat).

(** An encoder holds at most [delay] packets when it has got a frame. *)
Definition bounded_delay : Prop := forall t ctx pkt,
  (delay <= received t)%nat -> (respond _ t (AvReceivePacket ctx pkt)).1 < 0.

Lemma received_app t e :
  received (t ++ [e]) = received_step (received t) e.
Proof. unfold received. by rewrite foldl_app. Qed.

(** With one round more than the encoder can hold packets the loop ends by itself. *)
Lemma drain_ends {X} (x : X) fuel what ctx acc t :
  bounded_delay -> (delay - received t < fuel)%nat ->
  snd (drain_packets fuel what ctx acc (x, t)) <> Err AvFuel.
Proof.
  intros Hd. revert acc t. induction fuel as [|fuel IH]; intros acc t Hf; [lia|].
  cbn [drain_packets]. unfold mbind, eff_mbind, ask at 1. cbn.
  set (pkt := respond Z t AvPacketAlloc). destruct (pkt =? 0); [done|].
  unfold ask. cbn. set (t1 := t ++ _). set (r := respond _ t1 (AvReceivePacket ctx pkt)).
  assert (Ht1 : received t1 = received t) by (unfold t1; by rewrite received_app).
  destruct (_ || _); [done|]. destruct (r.1 <? 0) eqn:Er; [done|].
  assert (Hr : ~ (delay <= received t1)%nat) by (intros Hle; apply (Hd t1 ctx pkt) in Hle; fold r in Hle; boolz; lia).
  apply IH. rewrite !received_app. cbn. rewrite Er. lia.
Qed.
End Ends.
