(* ===== verification/LibavVkProps.v ===== *)
(** * The FFV1 and HEVC encoders keep to their resources and to the layouts

    Whatever libav and Vulkan answer, an encoder frees what it took except its command pool;
    the commands it records leave every image in the layout that libav is told, with each
    plane copied to its place. *)

From Stdlib Require Import ZArith Lia.
From stdpp Require Import prelude strings list gmap gmultiset.
From S2P Require Import Prelude Words Driver H264 Libav LibavProps LibavVk.

Open Scope Z_scope.

(** ** Resources *)

Section Safe.
Context `{Driver av_call} (codec : VkCodec).
Context (L0 : av_live).

(** What an open encoder owns besides its pool. *)
Definition refs_held (ctx frames dev : Z) (F : av_live) : av_live :=
  {[+ RCtx ctx +]} ⊎ ({[+ RBuf frames +]} ⊎ ({[+ RBuf dev +]} ⊎ F)).

Definition vk_held (e : VkEncoder) (F : av_live) : av_live :=
  refs_held (ve_codec_ctx e) (ve_frames_ref e) (ve_device_ref e) ({[+ RPool (ve_cmd_pool e) +]} ⊎ F).

Definition vk_ok (e : VkEncoder) : Prop :=
  ve_codec_ctx e <> 0 /\ ve_frames_ref e <> 0 /\ ve_device_ref e <> 0.

Abbreviation gets F P M :=
  (fun x' L' r => x' = () /\ match r with Ok a => P a /\ L' = M a | Err _ => L' = F end).

Lemma vk_device_safe vk F :
  safe L0 (vk_device vk) () F (gets F (fun d => d <> 0) (fun d => {[+ RBuf d +]} ⊎ F)).
Proof. unfold vk_device. av_run; auto; split; av_fin. Qed.

Lemma vk_frames_safe dev w h F :
  safe L0 (vk_frames codec dev w h) () ({[+ RBuf dev +]} ⊎ F)
    (gets F (fun f => f <> 0) (fun f => {[+ RBuf f +]} ⊎ ({[+ RBuf dev +]} ⊎ F))).
Proof. unfold vk_frames, unref_both. av_run; auto; split; av_fin. Qed.

Lemma set_options_safe ctx opts L :
  RCtx ctx ∈ L ->
  safe L0 (each opts (set_option ctx)) () L (fun x' L' r => x' = () /\ L' = L /\ result_is_ok r = true).
Proof.
  intros Hc. induction opts as [|kv opts IH]; cbn [each]; [by apply safe_ret|].
  apply safe_bind. unfold set_option at 1. av_run. exact IH.
Qed.

Lemma vk_codec_safe dev frames w h F :
  safe L0 (vk_codec codec dev frames w h) () ({[+ RBuf frames +]} ⊎ ({[+ RBuf dev +]} ⊎ F))
    (gets F (fun c => c.1 <> 0) (fun c => refs_held c.1 frames dev F)).
Proof.
  unfold vk_codec, unref_both, refs_held. av_run; auto.
  all: try (take set_options_safe). all: av_run; auto.
  all: try (split; av_fin).
Qed.

Lemma vk_commands_safe vk dev frames ctx F :
  safe L0 (vk_commands vk dev frames ctx) () (refs_held ctx frames dev F)
    (gets F (fun _ => True) (fun p => refs_held ctx frames dev ({[+ RPool p.1 +]} ⊎ F))).
Proof.
  unfold vk_commands, unref_both, refs_held. av_run; auto.
  split_and!; [done|done|]. multiset_solver.
Qed.

Lemma vk_open_safe vk w h F :
  safe L0 (vk_open codec vk w h) () F (gets F (fun e => vk_ok e) (fun e => vk_held e F)).
Proof.
  unfold vk_open. av_run; auto. take vk_device_safe. av_run.
  take vk_frames_safe. av_run. take vk_codec_safe. av_run. take vk_commands_safe. av_run. done.
Qed.

(** ** Frames *)

Abbreviation keeps e L := (fun e' L' (r : result _ av_error) => e' = e /\ L' = L).

Lemma record_copy_safe e input v0 v1 L :
  safe L0 (record_copy codec input v0 v1) e L (keeps e L).
Proof.
  unfold record_copy, unless_ok. av_run; try done.
  apply safe_mono with (Q := keeps e L); [|intros x' L' [?|?] [-> ->]; [|done]; av_run; done].
  apply safe_each; [|done]. intros c x M _ [-> ->]. av_run. done.
Qed.

(** Only the number of the next frame changes. *)
Definition same_encoder (e e' : VkEncoder) : Prop :=
  exists n, e' = e <| ve_next_frame := n |>.

Lemma encode_frame_safe fuel e input pts frame F :
  safe L0 (encode_frame codec fuel input pts frame) e ({[+ RFrame frame +]} ⊎ vk_held e F)
    (fun e' L' _ => same_encoder e e' /\ L' = {[+ RFrame frame +]} ⊎ vk_held e F).
Proof.
  assert (Hsame : same_encoder e e) by (exists (ve_next_frame e); by destruct e).
  unfold encode_frame, unless_neg, tell_plane, vk_held, refs_held. av_run; try done.
  all: take record_copy_safe; av_run; try done.
  all: take drain_safe; av_run; try done.
  all: split; [by exists (ve_next_frame e + 1)|done].
Qed.

Lemma same_encoder_eq e e' F :
  same_encoder e e' ->
  vk_held e' F = vk_held e F /\ ve_cmd_pool e' = ve_cmd_pool e /\ (vk_ok e -> vk_ok e').
Proof. by intros [n ->]. Qed.

Lemma encode_one_safe fuel e vk input pts F :
  safe L0 (encode_one codec fuel vk input pts) e (vk_held e F)
    (fun e' L' _ => same_encoder e e' /\ L' = vk_held e F).
Proof.
  assert (Hsame : same_encoder e e) by (exists (ve_next_frame e); by destruct e).
  unfold encode_one. av_run; try done.
  eapply safe_mono; [apply encode_frame_safe|]. cbv beta. intros e' L' r [He ->]. av_run; done.
Qed.

Lemma flush_safe fuel e F :
  safe L0 (flush fuel) e (vk_held e F) (fun e' L' _ => e' = e /\ L' = vk_held e F).
Proof.
  unfold flush, unless_neg, vk_held, refs_held. av_run; try done. take drain_safe.
Qed.

Lemma vk_drop_safe e F :
  vk_ok e ->
  safe L0 vk_drop e (vk_held e F)
    (fun e' L' r => L' = {[+ RPool (ve_cmd_pool e) +]} ⊎ F).
Proof.
  intros (H1 & H2 & H3). unfold vk_drop, vk_held, refs_held. av_run; boolz; done.
Qed.
End Safe.

(** ** The life of an encoder *)

Inductive FrameOp :=
| OEncode (vk : VkDevice) (input : FrameInputView) (pts_us : Z)
| OFlush.

Section Life.
Context `{Driver av_call} (codec : VkCodec) (fuel : nat).

Definition frame_op (o : FrameOp) : Eff (VkEncoder * list av_event) av_error (list AvPacket) :=
  match o with
  | OEncode vk input pts => encode_one codec fuel vk input pts
  | OFlush => flush fuel
  end.

(** Frames in any number, each of which may fail, and the drop. *)
Definition frames_and_drop (ops : list FrameOp) : Eff (VkEncoder * list av_event) av_error unit :=
  each ops (fun o => _ ← attempt (frame_op o); mret ()) ;; vk_drop.

(** From the opening to the drop: the calls made, and the command pool if there was one. *)
Definition encoder_life (vk : VkDevice) (w h : Z) (ops : list FrameOp) : list av_event * option Z :=
  match vk_open codec vk w h ((), []) with
  | ((_, t), Err _) => (t, None)
  | ((_, t), Ok e) => ((frames_and_drop ops (e, t)).1.2, Some (ve_cmd_pool e))
  end.

Lemma frame_op_safe L0 o e F :
  safe L0 (frame_op o) e (vk_held e F) (fun e' L' _ => same_encoder e e' /\ L' = vk_held e F).
Proof.
  destruct o as [vk input pts|]; [apply encode_one_safe|].
  eapply safe_mono; [apply flush_safe|]. intros e' L' r [-> ->]. split; [|done].
  exists (ve_next_frame e). by destruct e.
Qed.

Lemma frames_and_drop_safe L0 ops e F :
  vk_ok e -> safe L0 (frames_and_drop ops) e (vk_held e F) (fun _ L' _ => L' = {[+ RPool (ve_cmd_pool e) +]} ⊎ F).
Proof.
  intros He. unfold frames_and_drop. apply safe_bind.
  revert e He. induction ops as [|o ops IH]; intros e He; cbn [each].
  - apply safe_ret. by apply vk_drop_safe.
  - do 2 apply safe_bind. apply safe_attempt. eapply safe_mono; [apply frame_op_safe|].
    cbv beta. intros e' L' r [Hs ->]. apply safe_ret.
    destruct (same_encoder_eq e e' F Hs) as (<- & <- & Hok). apply IH. by apply Hok.
Qed.

(** C22: from its opening to its drop, with any frames and flushes in between and whatever
    libav and Vulkan answer, an FFV1 or HEVC encoder uses only references, contexts, frames
    and packets that it has, frees each of them exactly once, also when opening fails at any
    point, and leaves behind nothing but the command pool of an encoder that opened. *)
Theorem packet_encoder_releases vk w h ops :
  let '(t, pool) := encoder_life vk w h ops in
  replay ∅ t = Some (match pool with Some p => {[+ RPool p +]} | None => ∅ end).
Proof.
  unfold encoder_life.
  pose proof (vk_open_safe codec ∅ vk w h ∅ [] eq_refl) as Ho.
  destruct (vk_open codec vk w h ((), [])) as [[u t] [e|er]]; destruct Ho as (L & HL & _ & HQ); [|by rewrite HL, HQ].
  destruct HQ as [He HQ]. rewrite HQ in HL.
  pose proof (frames_and_drop_safe ∅ ops e ∅ He t HL) as Hf.
  destruct (frames_and_drop ops (e, t)) as [[e' t'] r]. destruct Hf as (L' & HL' & HQ').
  cbn [fst snd]. rewrite HL', HQ'. f_equal. multiset_solver.
Qed.
End Life.

(** ** Frames end *)

Section Ends.
Context `{Driver av_call} (codec : VkCodec) (delay fuel : nat).
Context (Hdelay : bounded_delay delay) (Hfuel : (delay < fuel)%nat).

Abbreviation ends m e := (safe (H0 := no_effects) ∅ m e ∅ (fun _ L' r => L' = ∅ /\ r <> Err AvFuel)).

Ltac end_run := repeat first [safe_step | reflexivity]; try done.

Lemma drain_bounded {X} (x : X) what ctx acc : ends (drain_packets fuel what ctx acc) x.
Proof.
  intros t Ht. pose proof (drain_ends delay x fuel what ctx acc t Hdelay) as Hd.
  destruct (drain_packets fuel what ctx acc (x, t)) as [[x' t'] r].
  exists ∅. split; [apply no_effects_replay|]. split; [done|]. apply Hd. lia.
Qed.

Lemma record_copy_ends input v0 v1 e : ends (record_copy codec input v0 v1) e.
Proof.
  unfold record_copy, unless_ok. end_run. all: set (cs := copy_commands _ _ _ _ _ _); clearbody cs.
  induction cs as [|c cs IH]; cbn [each]; end_run.
Qed.

Lemma frame_op_ends o e : ends (frame_op codec fuel o) e.
Proof.
  destruct o as [vk input pts|]; unfold frame_op, encode_one, encode_frame, flush, unless_neg, tell_plane; end_run.
  all: try (eapply safe_mono; [apply record_copy_ends|]; cbv beta; intros e' L' [u|er] [-> Her]); end_run.
  all: try (eapply safe_mono; [apply drain_bounded|]; cbv beta; intros e'' L'' [u'|er'] [-> Her']); end_run.
  all: split; [done|]; intros [=->]; congruence.
Qed.

(** Encoding and flushing return: the loop that receives packets ends by itself when the
    encoder holds fewer of them than there is fuel. *)
Theorem packets_end o e t : (frame_op codec fuel o (e, t)).2 <> Err AvFuel.
Proof.
  pose proof (frame_op_ends o e t (no_effects_replay t)) as Ho.
  destruct (frame_op codec fuel o (e, t)) as [[e' t'] r]. by destruct Ho as (L & _ & _ & Hr).
Qed.
End Ends.
