(* ===== verification/LibavImages.v ===== *)
(** * The images of a frame

    Who owns an image of libav's pool, and in which layout: a view of a plane hands the image
    out, a barrier moves it to another layout and must name the one it is in, a copy needs both
    of its images in the layouts it names, and telling libav about a plane hands the image back,
    which must be in the layout libav is told. Libav is also told the value to wait for on the
    image's semaphore: either the commands signal it, or it is kept as owed. An instance of [Effects] over the same calls. *)

From Stdlib Require Import ZArith Lia.
From stdpp Require Import prelude strings list gmultiset.
From S2P Require Import Prelude Words Driver Libav LibavProps LibavVk.

Open Scope Z_scope.

Inductive img_res :=
| IImage (img : Z) (l : Layout)
| IPlane (frame plane img sem : Z)
| ISignal (sem value : Z)
| IOwed (sem value : Z)        (* libav waits for it, and nothing signals it *)
| IFilled (dst : Z) (da : Aspect) (src : Z) (sa : Aspect).

#[global] Instance aspect_eq_dec : EqDecision Aspect.
Proof. solve_decision. Defined.

#[global] Instance img_res_eq_dec : EqDecision img_res.
Proof. solve_decision. Defined.

Definition layout_code (l : Layout) : Z + Z :=
  match l with LUndefined => inl 0 | LGeneral => inl 1 | LTransferSrc => inl 2 | LTransferDst => inl 3 | LOther r => inr r end.
Definition layout_of (c : Z + Z) : Layout :=
  match c with inl 0 => LUndefined | inl 1 => LGeneral | inl 2 => LTransferSrc | inl _ => LTransferDst | inr r => LOther r end.
Definition aspect_code (a : Aspect) : Z := match a with AColor => 0 | APlane0 => 1 | APlane1 => 2 end.
Definition aspect_of (c : Z) : Aspect := match c with 0 => AColor | 1 => APlane0 | _ => APlane1 end.

#[global] Instance img_res_countable : Countable img_res.
Proof.
  refine (inj_countable'
    (fun r => match r with
     | IImage i l => inl (inl (i, layout_code l))
     | IPlane f p i s => inl (inr (f, p, i, s))
     | ISignal s v => inr (inl (true, (s, v)))
     | IOwed s v => inr (inl (false, (s, v)))
     | IFilled d da s sa => inr (inr (d, aspect_code da, s, aspect_code sa)) end)
    (fun c => match c with
     | inl (inl (i, l)) => IImage i (layout_of l)
     | inl (inr (f, p, i, s)) => IPlane f p i s
     | inr (inl (true, (s, v))) => ISignal s v
     | inr (inl (false, (s, v))) => IOwed s v
     | inr (inr (d, da, s, sa)) => IFilled d (aspect_of da) s (aspect_of sa) end) _).
  by intros [? []|????|??|??|? [] ? []].
Defined.

Abbreviation images := (gmultiset img_res).

(** One image from a layout to another. *)
Definition barrier_effect (b : Barrier) (L : images) : option images :=
  M ← release (IImage (b_image b) (b_old b)) L;
  Some ({[+ IImage (b_image b) (b_new b) +]} ⊎ M).

Fixpoint barriers_effect (bs : list Barrier) (L : images) : option images :=
  match bs with
  | [] => Some L
  | b :: bs => M ← barrier_effect b L; barriers_effect bs M
  end.

Fixpoint fills (dst src : Z) (regions : list (Aspect * Aspect)) (L : images) : images :=
  match regions with
  | [] => L
  | (sa, da) :: rs => fills dst src rs ({[+ IFilled dst da src sa +]} ⊎ L)
  end.

Definition command_effect (c : VkCmd) (L : images) : option images :=
  match c with
  | PipelineBarrier bs => barriers_effect bs L
  | CopyImage src sl dst dl regions _ _ =>
      provided (bool_decide (IImage src sl ∈ L) && bool_decide (IImage dst dl ∈ L) &&
                bool_decide (sl = LTransferSrc) && bool_decide (dl = LTransferDst))
        (Some (fills dst src regions L))
  end.

(** The image of a plane, as the view of it said. *)
Definition plane_of (frame plane : Z) (L : images) : option (Z * Z) :=
  head (omap (fun r => match r with
                       | IPlane f p i s => if (f =? frame) && (p =? plane) then Some (i, s) else None
                       | _ => None
                       end) (elements L)).

#[local] Instance image_effects : Effects av_call img_res := fun e L =>
  match e with
  | Ev _ c a =>
      match c in av_call T return T -> option images with
      | AvvkFrameView frame plane => fun v =>
          Some (if fv_img v =? 0 then L
                else {[+ IPlane frame plane (fv_img v) (fv_sem v) +]} ⊎ ({[+ IImage (fv_img v) (fv_layout v) +]} ⊎ L))
      | VkRecord _ cmd => fun _ => command_effect cmd L
      | VkQueueSubmit _ _ _ sem value => fun ok => Some (if ok : bool then {[+ ISignal sem value +]} ⊎ L else L)
      | AvvkFrameUpdate frame plane value layout _ _ => fun _ =>
          p ← plane_of frame plane L;
          M ← release (IPlane frame plane p.1 p.2) L;
          N ← release (IImage p.1 layout) M;
          Some (if bool_decide (ISignal p.2 value ∈ N) then N else {[+ IOwed p.2 value +]} ⊎ N)
      | _ => fun _ => Some L
      end a
  end.

Lemma plane_of_eq frame plane img sem (L : images) :
  IPlane frame plane img sem ∈ L ->
  (forall i s, IPlane frame plane i s ∈ L -> i = img /\ s = sem) ->
  plane_of frame plane L = Some (img, sem).
Proof.
  intros Hin Hu. unfold plane_of. set (l := omap _ _).
  assert (Hl : forall p, p ∈ l <-> IPlane frame plane p.1 p.2 ∈ L).
  { intros [i s]. unfold l. rewrite list_elem_of_omap. split.
    - intros (r & Hr & Hf). apply gmultiset_elem_of_elements in Hr. destruct r; simplify_eq/=.
      destruct (_ && _) eqn:E; simplify_eq/=. boolz. destruct_and?. by subst.
    - intros Hr. exists (IPlane frame plane i s). split; [by apply gmultiset_elem_of_elements|].
      by rewrite !Z.eqb_refl. }
  assert (Hp : (img, sem) ∈ l) by by apply Hl.
  destruct l as [|[i s] l']; [by apply not_elem_of_nil in Hp|]. cbn.
  destruct (Hu i s) as [-> ->]; [|done]. apply (Hl (i, s)). left.
Qed.

(** ** The law of libav's frames *)

Class FrameLaws `{Driver av_call} := {
  (** A frame of the pool has an image. *)
  first_image : forall t frame, fv_img (respond _ t (AvvkFrameView frame 0)) <> 0;
}.

Lemma safe_ask_two {X E} {A B C : Set} `{Driver av_call} (L0 : images) (c : av_call A) (d : av_call B)
    (k : A -> B -> Eff (X * list av_event) E C) x L Q :
  (forall t, let a := respond _ t c in let b := respond _ (t ++ [Ev _ c a]) d in
     exists L', (effect (Ev _ c a) L ≫= effect (Ev _ d b)) = Some L' /\ safe L0 (k a b) x L' Q) ->
  safe L0 (a ← ask c; b ← ask d; k a b) x L Q.
Proof.
  intros Hk t Ht. destruct (Hk t) as (L' & HL & Hs). unfold mbind, eff_mbind, ask.
  apply Hs. by rewrite !replay_app, Ht.
Qed.

(** ** One frame *)

Definition copied (planes : bool) (src : Z) (v0 v1 : FrameView) : images :=
  if fv_img v1 =? 0 then
    if planes then {[+ IFilled (fv_img v0) APlane1 src APlane1 +]} ⊎ {[+ IFilled (fv_img v0) APlane0 src APlane0 +]}
    else {[+ IFilled (fv_img v0) AColor src AColor +]}
  else {[+ IFilled (fv_img v1) AColor src APlane1 +]} ⊎ {[+ IFilled (fv_img v0) AColor src APlane0 +]}.

Lemma barrier_step b bs (L M : images) o :
  L = {[+ IImage (b_image b) (b_old b) +]} ⊎ M ->
  barriers_effect bs ({[+ IImage (b_image b) (b_new b) +]} ⊎ M) = o -> barriers_effect (b :: bs) L = o.
Proof. intros -> <-. cbn [barriers_effect]. unfold barrier_effect. by rewrite release_acquired. Qed.

Section Images.
Context `{FrameLaws} (codec : VkCodec) (L0 : images).

Fixpoint commands_effect (cs : list VkCmd) (L : images) : option images :=
  match cs with
  | [] => Some L
  | c :: cs => M ← command_effect c L; commands_effect cs M
  end.

Lemma record_images cs cb e L M :
  commands_effect cs L = Some M ->
  safe (E := av_error) L0 (each cs (fun c => ask (VkRecord cb c))) (e : VkEncoder) L
    (fun e' L' r => e' = e /\ L' = M /\ result_is_ok r = true).
Proof.
  revert L. induction cs as [|c cs IH]; intros L HL; cbn [each commands_effect] in *.
  - simplify_eq. by apply safe_ret.
  - destruct (command_effect c L) as [N|] eqn:E; [|done]. apply safe_bind, safe_ask. intros [].
    exists N. split; [exact E|]. by apply IH.
Qed.

Lemma commands_barrier bs cs (L M : images) o :
  barriers_effect bs L = Some M -> commands_effect cs M = o -> commands_effect (PipelineBarrier bs :: cs) L = o.
Proof. intros HL Ho. cbn [commands_effect command_effect]. by rewrite HL. Qed.

Lemma commands_copy src dst regions w h cs (L : images) o :
  IImage src LTransferSrc ∈ L -> IImage dst LTransferDst ∈ L ->
  commands_effect cs (fills dst src regions L) = o ->
  commands_effect (CopyImage src LTransferSrc dst LTransferDst regions w h :: cs) L = o.
Proof. intros Hs Hd Ho. cbn [commands_effect command_effect]. by rewrite !bool_decide_eq_true_2. Qed.

(** The images of a frame in a layout each. *)
Definition frame_images (v0 v1 : FrameView) (l : FrameView -> Layout) (F : images) : images :=
  {[+ IImage (fv_img v0) (l v0) +]} ⊎ (if fv_img v1 =? 0 then F else {[+ IImage (fv_img v1) (l v1) +]} ⊎ F).

Ltac barrier :=
  lazymatch goal with
  | |- barriers_effect (?b :: ?bs) ?L = _ =>
      let r := eval cbn in (IImage (b_image b) (b_old b)) in
      let M := without r L in
      refine (barrier_step b bs L M _ _ _); [cbn [b_image b_old to_source to_target to_encoder]; multiset_solver|cbn [b_image b_new to_source to_target to_encoder]]
  | |- barriers_effect [] _ = _ => reflexivity
  end.

(** The commands move all images from where they are to where they are promised. *)
Lemma copy_commands_images planes input v0 v1 w h F :
  commands_effect (copy_commands planes input v0 v1 w h)
    ({[+ IImage (fi_image input) (fi_layout input) +]} ⊎ frame_images v0 v1 fv_layout F) =
  Some (copied planes (fi_image input) v0 v1 ⊎
        ({[+ IImage (fi_image input) LTransferSrc +]} ⊎ frame_images v0 v1 (fun _ => LGeneral) F)).
Proof.
  unfold copy_commands, frame_images, copied. destruct (fv_img v1 =? 0).
  - eapply commands_barrier; [repeat barrier|]. apply commands_copy; [there|there|].
    destruct planes; cbn [fills]; (eapply commands_barrier; [repeat barrier|]); cbn [commands_effect]; f_equal; multiset_solver.
  - eapply commands_barrier; [repeat barrier|]. apply commands_copy; [there|there|]. cbn [fills].
    apply commands_copy; [there|there|]. cbn [fills].
    (eapply commands_barrier; [repeat barrier|]); cbn [commands_effect]; f_equal; multiset_solver.
Qed.

Definition no_plane_in (frame plane : Z) (M : images) : Prop := forall i s, IPlane frame plane i s ∉ M.

(** What libav waits for in vain when it is told of a value. *)
Definition unsignalled (sem value : Z) (M : images) : images :=
  if bool_decide (ISignal sem value ∈ M) then ∅ else {[+ IOwed sem value +]}.

(** Telling libav about a plane hands its image back. *)
Lemma tell_images frame plane value layout access family img sem (L M : images) :
  L = {[+ IPlane frame plane img sem +]} ⊎ ({[+ IImage img layout +]} ⊎ M) -> no_plane_in frame plane M ->
  effect (Ev _ (AvvkFrameUpdate frame plane value layout access family) tt) L = Some (M ⊎ unsignalled sem value M).
Proof.
  intros -> Hno. cbn [effect image_effects].
  rewrite (plane_of_eq frame plane img sem).
  - cbn [mbind option_bind fst snd]. rewrite release_acquired. cbn [mbind option_bind].
    rewrite release_acquired. cbn [mbind option_bind]. unfold unsignalled.
    destruct (bool_decide _); f_equal; multiset_solver.
  - there.
  - intros i s Hi. rewrite !gmultiset_elem_of_disj_union, !gmultiset_elem_of_singleton in Hi.
    destruct Hi as [Hi|[Hi|Hi]]; [by simplify_eq|done|]. by apply Hno in Hi.
Qed.

Lemma drain_images {X} (x : X) fuel what ctx acc L :
  safe L0 (drain_packets fuel what ctx acc) x L (fun x' L' _ => x' = x /\ L' = L).
Proof.
  revert acc. induction fuel as [|fuel IH]; intros acc; cbn [drain_packets];
    repeat first [safe_step | reflexivity]; auto.
Qed.

Ltac img_run := repeat first [safe_step | reflexivity].

Lemma record_copy_images input v0 v1 e F :
  safe L0 (record_copy codec input v0 v1) e
    ({[+ IImage (fi_image input) (fi_layout input) +]} ⊎ frame_images v0 v1 fv_layout F)
    (fun e' L' r => e' = e /\
       match r with
       | Ok _ => L' = {[+ ISignal (fv_sem v0) (as_u 64 (fv_sem_value v0 + 1)) +]} ⊎
            (copied (vc_planes codec) (fi_image input) v0 v1 ⊎
             ({[+ IImage (fi_image input) LTransferSrc +]} ⊎ frame_images v0 v1 (fun _ => LGeneral) F))
       | Err _ => True
       end).
Proof.
  unfold record_copy, unless_ok. img_run; try done.
  take (record_images _ _ _ _ _ (copy_commands_images (vc_planes codec) input v0 v1 _ _ F)).
  img_run; done.
Qed.

Definition plane_tokens (frame : Z) (v0 v1 : FrameView) : images :=
  {[+ IPlane frame 0 (fv_img v0) (fv_sem v0) +]} ⊎
  (if fv_img v1 =? 0 then ∅ else {[+ IPlane frame 1 (fv_img v1) (fv_sem v1) +]}).

(** A second image behind a semaphore of its own: libav is told to wait until that one
    reaches the value only the first is signalled to. *)
Definition owed (v0 v1 : FrameView) : images :=
  if (fv_img v1 =? 0) || (fv_sem v1 =? fv_sem v0) then ∅
  else {[+ IOwed (fv_sem v1) (as_u 64 (fv_sem_value v0 + 1)) +]}.

(** What a frame is encoded from, and in what state the input is left. *)
Definition frame_done (input : FrameInputView) (L : images) : Prop :=
  exists v0 v1, L = {[+ ISignal (fv_sem v0) (as_u 64 (fv_sem_value v0 + 1)) +]} ⊎
    (copied (vc_planes codec) (fi_image input) v0 v1 ⊎ {[+ IImage (fi_image input) LTransferSrc +]}) ⊎ owed v0 v1.

Lemma no_plane_union frame plane (M N : images) :
  no_plane_in frame plane M -> no_plane_in frame plane N -> no_plane_in frame plane (M ⊎ N).
Proof. intros HM HN i s. rewrite gmultiset_elem_of_disj_union. intros [?|?]; [by eapply HM|by eapply HN]. Qed.

Lemma no_plane_single frame plane r :
  (forall i s, r <> IPlane frame plane i s) -> no_plane_in frame plane {[+ r +]}.
Proof. intros Hr i s. rewrite gmultiset_elem_of_singleton. intros E. by apply (Hr i s). Qed.

Lemma no_plane_copied frame plane planes src v0 v1 : no_plane_in frame plane (copied planes src v0 v1).
Proof.
  unfold copied. repeat case_match; repeat first [apply no_plane_union | by apply no_plane_single].
Qed.

Lemma unsignalled_there sem value (M : images) : ISignal sem value ∈ M -> unsignalled sem value M = ∅.
Proof. intros Hs. unfold unsignalled. by rewrite bool_decide_eq_true_2. Qed.

(** Of the second image only the semaphore of the first is signalled. *)
Lemma unsignalled_second planes src img v0 v1 value : fv_img v1 <> 0 ->
  unsignalled (fv_sem v1) (as_u 64 (value + 1))
    ({[+ ISignal (fv_sem v0) (as_u 64 (value + 1)) +]} ⊎ (copied planes src v0 v1 ⊎ {[+ IImage img LTransferSrc +]})) =
  if fv_sem v1 =? fv_sem v0 then ∅ else {[+ IOwed (fv_sem v1) (as_u 64 (value + 1)) +]}.
Proof.
  intros H1. destruct (Z.eqb_spec (fv_sem v1) (fv_sem v0)) as [->|Hs]; [apply unsignalled_there; there|].
  unfold unsignalled. rewrite bool_decide_eq_false_2; [done|]. unfold copied.
  intros Hin. repeat case_match; rewrite !gmultiset_elem_of_disj_union, !gmultiset_elem_of_singleton in Hin; naive_solver.
Qed.

Lemma rest_images fuel e input pts frame v0 v1 :
  safe L0
    (record_copy codec input v0 v1 ;;
     tell_plane frame 0 v0 ;;
     (if fv_img v1 =? 0 then mret () else tell_plane frame 1 v0) ;;
     r ← ask (AvSendFrame (ve_codec_ctx e) frame pts false); unless_neg "avcodec_send_frame" r ;;
     packets ← drain_packets fuel "avcodec_receive_packet" (ve_codec_ctx e) [];
     change (fun s => s <| ve_next_frame ::= (fun n => n + 1) |>) ;;
     mret packets) e
    ({[+ IImage (fi_image input) (fi_layout input) +]} ⊎ frame_images v0 v1 fv_layout (plane_tokens frame v0 v1))
    (fun _ L' r => result_is_ok r = true -> frame_done input L').
Proof.
  apply safe_bind. take record_copy_images.
  apply safe_bind. unfold tell_plane at 1. apply safe_ask. intros [].
  set (done := {[+ ISignal (fv_sem v0) (as_u 64 (fv_sem_value v0 + 1)) +]} ⊎
    (copied (vc_planes codec) (fi_image input) v0 v1 ⊎ {[+ IImage (fi_image input) LTransferSrc +]})).
  assert (Hdone : frame_done input (done ⊎ owed v0 v1)) by (by exists v0, v1).
  assert (Hsig : ISignal (fv_sem v0) (as_u 64 (fv_sem_value v0 + 1)) ∈ done) by (unfold done; there).
  assert (Hno : forall p, no_plane_in frame p done).
  { intros p. repeat first [apply no_plane_union | apply no_plane_copied | by apply no_plane_single]. }
  destruct (fv_img v1 =? 0) eqn:E1.
  - exists (done ⊎ owed v0 v1). split.
    + erewrite (tell_images _ _ _ _ _ _ (fv_img v0) (fv_sem v0) _ done); [| |apply Hno].
      * rewrite unsignalled_there by done. unfold owed. by rewrite E1.
      * unfold frame_images, plane_tokens. rewrite E1. unfold done. multiset_solver.
    + img_run; try done. unfold unless_neg. img_run; try done. take @drain_images. img_run. done.
  - set (second := {[+ IPlane frame 1 (fv_img v1) (fv_sem v1) +]} ⊎ ({[+ IImage (fv_img v1) LGeneral +]} ⊎ done)).
    exists second. split.
    + erewrite (tell_images _ _ _ _ _ _ (fv_img v0) (fv_sem v0) _ second).
      * rewrite unsignalled_there by (unfold second; there). by rewrite gmultiset_disj_union_right_id.
      * unfold frame_images, plane_tokens. rewrite E1. unfold second, done. multiset_solver.
      * repeat first [apply Hno | apply no_plane_copied | apply no_plane_union | apply no_plane_single; intros ?? ?; simplify_eq].
    + apply safe_bind. unfold tell_plane. apply safe_ask. intros []. exists (done ⊎ owed v0 v1). split.
      * erewrite (tell_images _ _ _ _ _ _ (fv_img v1) (fv_sem v1) _ done); [|done|apply Hno].
        unfold done at 2. rewrite unsignalled_second by (by boolz). unfold owed. by rewrite E1.
      * unfold unless_neg. img_run; try done. take @drain_images. img_run. done.
Qed.

(** The images of a frame that has just been viewed. *)
Lemma viewed_images frame v0 v1 (L : images) :
  fv_img v0 <> 0 ->
  (effect (Ev _ (AvvkFrameView frame 0) v0) L ≫= effect (Ev _ (AvvkFrameView frame 1) v1)) =
  Some (L ⊎ frame_images v0 v1 fv_layout (plane_tokens frame v0 v1)).
Proof.
  intros Hi. cbn [effect image_effects mbind option_bind]. rewrite (proj2 (Z.eqb_neq _ _) Hi).
  unfold frame_images, plane_tokens. destruct (fv_img v1 =? 0); f_equal; multiset_solver.
Qed.

Lemma encode_frame_images fuel e input pts frame :
  safe L0 (encode_frame codec fuel input pts frame) e {[+ IImage (fi_image input) (fi_layout input) +]}
    (fun _ L' r => result_is_ok r = true -> frame_done input L').
Proof.
  unfold encode_frame.
  do 2 (apply safe_bind; first [apply safe_here | apply safe_ask; intros r; eexists; split; [reflexivity|]]).
  apply safe_bind. unfold unless_neg at 1. destruct (r <? 0); [by apply safe_fail|apply safe_ret].
  apply safe_bind, safe_ask. intros data. eexists. split; [reflexivity|].
  destruct (data =? 0); [by apply safe_fail|].
  destruct (vc_planes codec) eqn:Ep.
  - apply safe_ask_two. intros t a b. eexists. split; [apply viewed_images, first_image|].
    apply (rest_images fuel e input pts frame a b).
  - apply safe_bind, safe_ask_law. intros t. eexists. split; [reflexivity|].
    apply safe_bind, safe_ret. set (v := respond _ _ _).
    eapply safe_mono; [|exact (fun _ _ _ HQ => HQ)].
    pose proof (rest_images fuel e input pts frame v no_plane) as Hr.
    pose proof (viewed_images frame v no_plane {[+ IImage (fi_image input) (fi_layout input) +]} (first_image t frame)) as Hv.
    cbn [effect image_effects mbind option_bind no_plane fv_img Z.eqb] in Hv.
    injection Hv as Hv. rewrite <- Hv in Hr. exact Hr.
Qed.
End Images.

(** ** The theorem *)


Definition sent (t : list av_event) : nat :=
  length (List.filter (fun e => match e with Ev _ c _ => match c with AvSendFrame _ _ _ _ => true | _ => false end end) t).

(** An encoder without surprises, which answers with a packet from the frame number [delay]
    on and whose frames have images and semaphores as given; [zero_copy] is the answer of the
    environment. *)
Definition calm_libav (zero_copy : bool) (delay : nat) (view : Z -> Z -> FrameView) : Driver av_call := fun A t c =>
  match c in av_call T return T with
  | AvHwdeviceAlloc _ => 1 | AvvkSetDevice _ _ _ _ _ => 0 | AvHwdeviceInit _ => 0
  | AvHwframeAlloc _ => 2 | AvvkSetFrames _ _ _ => 0 | AvHwframeInit _ _ => 0
  | AvFindEncoder _ => 3 | AvAllocContext _ => 4 | AvOptSet _ _ _ => 0 | AvOpen2 _ _ _ => 0
  | AvHwdeviceCreate _ _ => (0, 1) | AvCtxAttach _ _ => true | AvExtradata _ => []
  | AvFreeContext _ => () | AvBufferUnref _ => () | VkCreateCommandPool _ => Some 5
  | VkAllocateCommandBuffer _ => Some 6 | VkDestroyCommandPool _ => ()
  | VkResetCommandBuffer _ => true | VkBeginCommandBuffer _ => true | VkRecord _ _ => ()
  | VkEndCommandBuffer _ => true | VkQueueSubmit _ _ _ _ _ => true
  | AvFrameAlloc => 7 | AvFrameFree _ => () | AvHwframeGetBuffer _ _ => 0 | AvFrameData _ => 8
  | AvvkFrameView f p => view f p | AvvkFrameUpdate _ _ _ _ _ _ => () | AvSendFrame _ _ _ _ => 0
  | AvPacketAlloc => 9
  | AvReceivePacket _ _ =>
      (if (received t =? 0)%nat && (delay <? sent t)%nat then 0 else AVERROR_EAGAIN, {| ap_data := [1]; ap_key := true; ap_pts := 0 |})
  | AvPacketFree _ => () | AvFrameGetBuffer _ _ w _ => (0, (w, w)) | AvFrameFill _ _ _ _ _ _ _ => ()
  | AvHwframeTransfer _ _ => 0 | AvGraphAlloc => 10 | AvGraphFree _ => () | AvGetFilter _ => 11
  | AvGraphAllocFilter _ _ _ => 12 | AvSrcParamsAlloc => 13 | AvSrcParamsSet _ _ _ _ _ _ => 0
  | AvFree _ => () | AvFilterInit _ => 0 | AvGraphCreateFilter _ _ _ _ => (0, 14)
  | AvFilterAttach _ _ => true | AvFilterLink _ _ => 0 | AvGraphConfig _ => 0
  | Dup fd => fd + 100 | LseekEnd _ => 4096 | LseekStart _ => () | CloseFd _ => ()
  | AvFrameOwn _ _ _ _ _ _ _ => 15 | AvFrameAttach _ _ => true | AvSrcAddFrame _ _ => 0
  | AvSinkGetFrame _ _ => 0 | InstantMs => 0 | EnvIs _ _ => zero_copy
  end.

(** Two images, behind the semaphore of the first or behind one each. *)
Definition two_images (sem1 frame plane : Z) : FrameView :=
  {| fv_img := 20 + plane; fv_sem := if plane =? 0 then 30 else sem1; fv_sem_value := 4;
     fv_layout := LGeneral; fv_access := 0; fv_queue_family := 0 |}.

Definition demo_encoder : VkEncoder :=
  {| ve_width := 64; ve_height := 64; ve_coded_width := 64; ve_coded_height := 64; ve_device_ref := 1;
     ve_frames_ref := 2; ve_codec_ctx := 4; ve_extradata := []; ve_cmd_pool := 5; ve_cmd_buffer := 6;
     ve_device_raw := 40; ve_compute_family := 0; ve_next_frame := 0 |}.

Definition demo_device : VkDevice :=
  {| vd_device := 40; vd_compute_family := 0; vd_encode_family := 1; vd_extensions := [] |}.

Definition demo_input : FrameInputView :=
  {| fi_image := 50; fi_layout := LGeneral; fi_access := 0; fi_queue_family := 0 |}.

Lemma calm_laws : FrameLaws (H := calm_libav false 0 (two_images 30)).
Proof. constructor. by intros t f. Qed.


(** With a semaphore for each image libav is left waiting for a value of the second that
    nothing signals. *)
Theorem second_semaphore_unsignalled :
  let r := encode_one (H := calm_libav false 0 (two_images 31)) HEVC 2 demo_device demo_input 0 (demo_encoder, []) in
  result_is_ok r.2 = true /\
  match replay {[+ IImage 50 LGeneral +]} r.1.2 with Some L => bool_decide (IOwed 31 5 ∈ L) | None => false end = true.
Proof. vm_compute. split; reflexivity. Qed.

(** ** The command buffer

    A submitted command buffer is pending until its commands are done, which is known when a
    packet of the encoder comes out, and may not be reset before. *)

Definition pending_effects : Effects av_call Z := fun e L =>
  match e with
  | Ev _ c a =>
      match c in av_call T return T -> option (gmultiset Z) with
      | VkResetCommandBuffer cb => fun _ => provided (negb (bool_decide (cb ∈ L))) (Some L)
      | VkQueueSubmit cb _ _ _ _ => fun ok => Some (if ok : bool then {[+ cb +]} ⊎ L else L)
      | AvReceivePacket _ _ => fun r => Some (if r.1 <? 0 then L else match elements L with cb :: _ => L ∖ {[+ cb +]} | [] => L end)
      | _ => fun _ => Some L
      end a
  end.

Definition two_frames (delay : nat) :=
  (f ← encode_one (H := calm_libav false delay (two_images 30)) HEVC 2 demo_device demo_input 0;
   encode_one (H := calm_libav false delay (two_images 30)) HEVC 2 demo_device demo_input 16000) (demo_encoder, []).

(** An encoder that answers each frame with its packet has the command buffer back in time;
    one that holds back a frame has it reset while it is pending. *)
Theorem command_buffer_reused :
  replay (H0 := pending_effects) ∅ (two_frames 0).1.2 = Some ∅ /\
  result_is_ok (two_frames 1).2 = true /\ replay (H0 := pending_effects) ∅ (two_frames 1).1.2 = None.
Proof. vm_compute. repeat split. Qed.
