(* ===== verification/Vaapi.v ===== *)
(** * The in-process VA-API encoder
      ([crates/waymux-session/src/vaapi_h264_record.rs])

    [VaapiH264Encoder]: a codec context over a pool of surfaces, fed from NV12 in memory or,
    when that is switched on, from a dmabuf through a filter graph that maps and converts it on
    the device; the rate is changed by opening a second context and dropping the first. *)

From Stdlib Require Import ZArith Lia Ascii String.
From stdpp Require Import prelude strings list gmultiset.
From S2P Require Import Prelude Words Driver Recorder Libav.

Open Scope Z_scope.

Record DmabufFilter := {
  df_device_ref : Z;
  df_frames_ref : Z;
  df_graph : Z;
  df_src : Z;
  df_sink : Z;
  df_width : Z;
  df_height : Z;
}.

Record VaapiH264Encoder := {
  vh_width : Z;
  vh_height : Z;
  vh_render_node : string;
  vh_device_ref : Z;
  vh_frames_ref : Z;
  vh_codec_ctx : Z;
  vh_frames_sent : Z;
  vh_last_nv12 : option (list Z);
  vh_cur_peak_bps : Z;
  vh_gop : Z;
  vh_fps : Z;
  vh_last_reconfig : Z;
  vh_importer : option (option DmabufFilter);
}.

#[export] Instance eta_vaapi : Eta VaapiH264Encoder := fun r =>
  Build_VaapiH264Encoder (vh_width r) (vh_height r) (vh_render_node r) (vh_device_ref r) (vh_frames_ref r)
    (vh_codec_ctx r) (vh_frames_sent r) (vh_last_nv12 r) (vh_cur_peak_bps r) (vh_gop r) (vh_fps r)
    (vh_last_reconfig r) (vh_importer r).

(** [None], or a loop that did not end. *)
Inductive va_stop := VaNone | VaFuel.

(** [CString::new] refuses a string with a zero byte. *)
Definition has_nul (s : string) : bool :=
  existsb (fun c => Ascii.eqb c Ascii.zero) (list_ascii_of_string s).

(** Free the frame when the block ends, however it ends ([FrameGuard]). *)
Definition guarded `{Driver av_call} {X A} (frame : Z) (m : Eff (X * list av_event) va_stop A) :
    Eff (X * list av_event) va_stop A :=
  r ← attempt m;
  ask (AvFrameFree frame) ;;
  match r with Ok a => mret a | Err e => fail e end.

Section Open.
Context `{Driver av_call} {X : Type}.

Abbreviation Va A := (Eff (X * list av_event) va_stop A).
Abbreviation nothing := (fail VaNone).

Definition h264_params (width height peak_bps gop fps : Z) : CodecParams := {|
  cp_width := as_s 32 width; cp_height := as_s 32 height; cp_pix_fmt := FVaapi;
  cp_time_base := (1, 1000000); cp_framerate := (Z.min 120 (Z.max 1 fps), 1);
  cp_global_header := false; cp_bt709_limited := false;
  cp_gop_size := Some (as_s 32 (Z.max 1 gop)); cp_max_b_frames := Some 0;
  cp_bit_rate := Some (peak_bps / 2); cp_rc_max_rate := Some peak_bps;
  cp_rc_buffer_size := Some (as_s 32 (peak_bps / 2));
  cp_options := [("rc_mode", "VBR"); ("async_depth", "1")] |}.

Definition build_h264_vaapi_ctx (frames width height peak_bps gop fps : Z) : Va Z :=
  codec ← ask (AvFindEncoder "h264_vaapi");
  if codec =? 0 then nothing
  else
    ctx ← ask (AvAllocContext codec);
    if ctx =? 0 then nothing
    else
      ask (AvCtxAttach ctx frames) ;;
      r ← ask (AvOpen2 ctx codec (h264_params width height peak_bps gop fps));
      if r <? 0 then ask (AvFreeContext ctx) ;; nothing else mret ctx.

Definition MIN_PEAK_BPS : Z := 500000.

Definition vaapi_open (render_node : string) (width height peak_bps gop fps : Z) : Va VaapiH264Encoder :=
  if negb (width mod 2 =? 0) || negb (height mod 2 =? 0) then nothing
  else
    let peak_bps := Z.max peak_bps MIN_PEAK_BPS in
    if has_nul render_node then nothing
    else
      d ← ask (AvHwdeviceCreate FVaapi render_node);
      if (d.1 <? 0) || (d.2 =? 0) then nothing
      else
        let dev := d.2 in
        frames ← ask (AvHwframeAlloc dev);
        if frames =? 0 then ask (AvBufferUnref dev) ;; nothing
        else
          r ← ask (AvHwframeInit frames
                     {| fp_format := FVaapi; fp_sw_format := FNv12; fp_width := as_s 32 width;
                        fp_height := as_s 32 height; fp_pool := 8 |});
          if r <? 0 then ask (AvBufferUnref frames) ;; ask (AvBufferUnref dev) ;; nothing
          else
            c ← attempt (build_h264_vaapi_ctx frames width height peak_bps gop fps);
            match c with
            | Err _ => ask (AvBufferUnref frames) ;; ask (AvBufferUnref dev) ;; nothing
            | Ok ctx =>
                now ← ask InstantMs;
                mret {| vh_width := width; vh_height := height; vh_render_node := render_node;
                        vh_device_ref := dev; vh_frames_ref := frames; vh_codec_ctx := ctx;
                        vh_frames_sent := 0; vh_last_nv12 := None; vh_cur_peak_bps := peak_bps;
                        vh_gop := Z.max 1 gop; vh_fps := Z.min 120 (Z.max 1 fps);
                        vh_last_reconfig := now; vh_importer := None |}
            end.

(** ** The filter graph *)

Definition filter_cleanup (graph frames dev : Z) : Va unit :=
  ask (AvGraphFree graph) ;; ask (AvBufferUnref frames) ;; ask (AvBufferUnref dev).

(** The filters of a graph, linked: the ends of the chain. *)
Definition filter_chain (graph frames vaapi_dev width height : Z) : Va (Z * Z) :=
  f_buffer ← ask (AvGetFilter "buffer");
  f_sink ← ask (AvGetFilter "buffersink");
  f_hwmap ← ask (AvGetFilter "hwmap");
  f_scale ← ask (AvGetFilter "scale_vaapi");
  if (f_buffer =? 0) || (f_sink =? 0) || (f_hwmap =? 0) || (f_scale =? 0) then nothing
  else
    src ← ask (AvGraphAllocFilter graph f_buffer "in");
    if src =? 0 then nothing
    else
      par ← ask AvSrcParamsAlloc;
      if par =? 0 then nothing
      else
        pr ← ask (AvSrcParamsSet src par FDrmPrime (as_s 32 width) (as_s 32 height) frames);
        ask (AvFree par) ;;
        if pr <? 0 then nothing
        else
          r ← ask (AvFilterInit src);
          if r <? 0 then nothing
          else
            hwmap ← ask (AvGraphCreateFilter graph f_hwmap "hwmap" (Some "mode=read"));
            if hwmap.1 <? 0 then nothing
            else
              ask (AvFilterAttach hwmap.2 vaapi_dev) ;;
              scale ← ask (AvGraphCreateFilter graph f_scale "scale" (Some "format=nv12"));
              if scale.1 <? 0 then nothing
              else
                sink ← ask (AvGraphCreateFilter graph f_sink "out" None);
                if sink.1 <? 0 then nothing
                else
                  r1 ← ask (AvFilterLink src hwmap.2);
                  if r1 <? 0 then nothing
                  else
                    r2 ← ask (AvFilterLink hwmap.2 scale.2);
                    if r2 <? 0 then nothing
                    else
                      r3 ← ask (AvFilterLink scale.2 sink.2);
                      if r3 <? 0 then nothing
                      else
                        r ← ask (AvGraphConfig graph);
                        if r <? 0 then nothing else mret (src, sink.2).

(** [DmabufFilter::new] *)
Definition filter_new (render_node : string) (vaapi_dev width height : Z) : Va DmabufFilter :=
  if has_nul render_node then nothing
  else
    d ← ask (AvHwdeviceCreate FDrmPrime render_node);
    if (d.1 <? 0) || (d.2 =? 0) then nothing
    else
      let dev := d.2 in
      frames ← ask (AvHwframeAlloc dev);
      if frames =? 0 then ask (AvBufferUnref dev) ;; nothing
      else
        r ← ask (AvHwframeInit frames
                   {| fp_format := FDrmPrime; fp_sw_format := FBgr0; fp_width := as_s 32 width;
                      fp_height := as_s 32 height; fp_pool := 0 |});
        if r <? 0 then ask (AvBufferUnref frames) ;; ask (AvBufferUnref dev) ;; nothing
        else
          graph ← ask AvGraphAlloc;
          if graph =? 0 then ask (AvBufferUnref frames) ;; ask (AvBufferUnref dev) ;; nothing
          else
            c ← attempt (filter_chain graph frames vaapi_dev width height);
            match c with
            | Err e => filter_cleanup graph frames dev ;; fail e
            | Ok (src, sink) =>
                mret {| df_device_ref := dev; df_frames_ref := frames; df_graph := graph; df_src := src;
                        df_sink := sink; df_width := width; df_height := height |}
            end.

Definition filter_drop (f : DmabufFilter) : Va unit :=
  (if df_graph f =? 0 then mret () else ask (AvGraphFree (df_graph f))) ;;
  (if df_frames_ref f =? 0 then mret () else ask (AvBufferUnref (df_frames_ref f))) ;;
  (if df_device_ref f =? 0 then mret () else ask (AvBufferUnref (df_device_ref f))).

(** The frame that [map_to_nv12] pushes: a duplicate of the descriptor goes with it. *)
Definition prime_frame (f : DmabufFilter) (frame fd drm_format modifier stride offset : Z) : Va unit :=
  dup ← ask (Dup fd);
  if dup <? 0 then ask (AvFrameFree frame) ;; nothing
  else
    sz ← ask (LseekEnd dup);
    ask (LseekStart dup) ;;
    let size := if 0 <? sz then sz else as_u 64 (df_height f * stride) in
    buf ← ask (AvFrameOwn frame dup size modifier drm_format stride offset);
    if buf =? 0 then ask (CloseFd dup) ;; ask (AvFrameFree frame) ;; nothing
    else _ ← ask (AvFrameAttach frame (df_frames_ref f)); mret ().

Definition map_to_nv12 (f : DmabufFilter) (fd drm_format modifier stride offset : Z) : Va Z :=
  frame ← ask AvFrameAlloc;
  if frame =? 0 then nothing
  else
    prime_frame f frame fd drm_format modifier stride offset ;;
    r ← ask (AvSrcAddFrame (df_src f) frame);
    ask (AvFrameFree frame) ;;
    if r <? 0 then nothing
    else
      out ← ask AvFrameAlloc;
      if out =? 0 then nothing
      else
        r ← ask (AvSinkGetFrame (df_sink f) out);
        if r <? 0 then ask (AvFrameFree out) ;; nothing else mret out.
End Open.

(** ** Encoding *)

Section Encode.
Context `{Driver av_call} (fuel : nat).

Abbreviation Va A := (Eff (VaapiH264Encoder * list av_event) va_stop A).
Abbreviation nothing := (fail VaNone).

(** All bytes of the packets, and whether one is a keyframe. *)
Fixpoint receive_all (fuel : nat) (ctx : Z) (out : list Z) (key : bool) : Va (list Z * bool) :=
  match fuel with
  | O => fail VaFuel
  | S fuel =>
      pkt ← ask AvPacketAlloc;
      if pkt =? 0 then mret (out, key)
      else
        r ← ask (AvReceivePacket ctx pkt);
        ask (AvPacketFree pkt) ;;
        if r.1 <? 0 then mret (out, key)
        else receive_all fuel ctx (out ++ ap_data r.2) (key || ap_key r.2)
  end.

Definition send_and_drain (frame pts_us : Z) (is_idr : bool) : Va Nal :=
  s ← here;
  r ← ask (AvSendFrame (vh_codec_ctx s) frame pts_us is_idr);
  if r <? 0 then nothing
  else
    change (fun s => s <| vh_frames_sent ::= (fun n => as_u 64 (n + 1)) |>) ;;
    o ← receive_all fuel (vh_codec_ctx s) [] false;
    match o.1 with
    | [] => nothing
    | _ => mret {| nal_data := o.1; nal_key := o.2 |}
    end.

(** The rows of a plane of [w] bytes a row, behind each other in [src], at the places they
    have in a plane of [linesize]. *)
Definition plane_rows (w rows linesize : Z) (src : list Z) : list (Z * list Z) :=
  (fun row => (Z.of_nat row * linesize, take (Z.to_nat w) (drop (row * Z.to_nat w) src))) <$> seq 0 (Z.to_nat rows).

Definition upload (sw hw pts_us : Z) (is_idr : bool) : Va Nal :=
  s ← here;
  r ← ask (AvHwframeGetBuffer (vh_frames_ref s) hw);
  if r <? 0 then nothing
  else
    r ← ask (AvHwframeTransfer hw sw);
    if r <? 0 then nothing else send_and_drain hw pts_us is_idr.

Definition encode_nv12_inner (nv12 : list Z) (pts_us : Z) (is_idr : bool) : Va Nal :=
  s ← here;
  let w := vh_width s in
  let h := vh_height s in
  sw ← ask AvFrameAlloc;
  if sw =? 0 then nothing
  else
    guarded sw
      (b ← ask (AvFrameGetBuffer sw FNv12 (as_s 32 w) (as_s 32 h));
       if b.1 <? 0 then nothing
       else
         let n := Z.to_nat (w * h) in
         ask (AvFrameFill sw w h b.2.1 b.2.2 (plane_rows w h b.2.1 (take n nv12))
                (plane_rows w (h / 2) b.2.2 (drop n nv12))) ;;
         hw ← ask AvFrameAlloc;
         if hw =? 0 then nothing
         else guarded hw (upload sw hw pts_us is_idr)).

Definition encode_nv12 (nv12 : list Z) (pts_us : Z) (is_idr : bool) : Va Nal :=
  s ← here;
  if negb (Z.of_nat (length nv12) =? as_u 64 (as_u 64 (vh_width s * vh_height s) * 3) / 2) then nothing
  else
    change (fun s => s <| vh_last_nv12 := Some nv12 |>) ;;
    encode_nv12_inner nv12 pts_us is_idr.

Definition reencode_last (pts_us : Z) (is_idr : bool) : Va Nal :=
  s ← here;
  match vh_last_nv12 s with
  | None => nothing
  | Some last =>
      change (fun s => s <| vh_last_nv12 := None |>) ;;
      out ← attempt (encode_nv12_inner last pts_us is_idr);
      change (fun s => s <| vh_last_nv12 := Some last |>) ;;
      match out with Ok nal => mret nal | Err e => fail e end
  end.

Definition zero_copy_unavailable (s : VaapiH264Encoder) : bool :=
  match vh_importer s with Some None => true | _ => false end.

(** The importer, which is built at the first dmabuf if it is switched on. *)
Definition ensure_importer : Va unit :=
  s ← here;
  match vh_importer s with
  | Some _ => mret ()
  | None =>
      on ← ask (EnvIs "WAYMUX_VAAPI_ZEROCOPY" "1");
      if negb on then change (fun s => s <| vh_importer := Some None |>)
      else
        built ← attempt (filter_new (vh_render_node s) (vh_device_ref s) (vh_width s) (vh_height s));
        change (fun s => s <| vh_importer := Some (match built with Ok f => Some f | Err _ => None end) |>)
  end.

Definition encode_dmabuf (fd drm_format modifier width height stride offset pts_us : Z) (is_idr : bool) : Va Nal :=
  s ← here;
  if negb (width =? vh_width s) || negb (height =? vh_height s) then nothing
  else
    ensure_importer ;;
    s ← here;
    match vh_importer s with
    | Some (Some f) =>
        mapped ← attempt (map_to_nv12 f fd drm_format modifier stride offset);
        match mapped with
        | Err _ => filter_drop f ;; change (fun s => s <| vh_importer := Some None |>) ;; nothing
        | Ok frame => guarded frame (send_and_drain frame pts_us is_idr)
        end
    | _ => nothing
    end.

(** Changes of less than a fifth, in 32-bit arithmetic, or within a second are ignored. *)
Definition reconfigure_bitrate (peak_bps : Z) : Va bool :=
  s ← here;
  let peak_bps := Z.max peak_bps MIN_PEAK_BPS in
  let cur := vh_cur_peak_bps s in
  let delta := Z.abs (peak_bps - cur) in
  if as_u 32 (delta * 100) <? as_u 32 (cur * 20) then mret false
  else
    now ← ask InstantMs;
    if Z.max 0 (now - vh_last_reconfig s) <? 1000 then mret false
    else
      c ← attempt (build_h264_vaapi_ctx (vh_frames_ref s) (vh_width s) (vh_height s) peak_bps (vh_gop s) (vh_fps s));
      match c with
      | Err _ => mret false
      | Ok ctx =>
          ask (AvFreeContext (vh_codec_ctx s)) ;;
          now ← ask InstantMs;
          change (fun s => s <| vh_codec_ctx := ctx |> <| vh_cur_peak_bps := peak_bps |> <| vh_last_reconfig := now |>) ;;
          mret true
      end.

(** [Drop], and then the fields. *)
Definition vaapi_drop : Va unit :=
  s ← here;
  (if vh_codec_ctx s =? 0 then mret () else ask (AvFreeContext (vh_codec_ctx s))) ;;
  (if vh_frames_ref s =? 0 then mret () else ask (AvBufferUnref (vh_frames_ref s))) ;;
  (if vh_device_ref s =? 0 then mret () else ask (AvBufferUnref (vh_device_ref s))) ;;
  match vh_importer s with Some (Some f) => filter_drop f | _ => mret () end.
End Encode.
