(* ===== verification/VaapiProps.v ===== *)
(** * The VA-API encoder keeps to its resources

    Whatever libav answers, the encoder uses only what it has, copies only inside of its
    planes, and frees everything; the frame it repeats is the last one it got from memory. *)

From Stdlib Require Import ZArith Lia.
From stdpp Require Import prelude strings list gmultiset.
From S2P Require Import Prelude Words Driver Recorder Libav LibavProps Vaapi.

Open Scope Z_scope.

(** ** Rows *)

Lemma plane_rows_fit w rows ls src :
  0 <= w <= ls -> 0 <= rows -> rows * w <= Z.of_nat (length src) ->
  rows_fit w ls rows (plane_rows w rows ls src) = true.
Proof.
  intros Hw Hr Hl. unfold rows_fit, plane_rows. apply forallb_forall. intros [off bytes] Hin.
  apply list_elem_of_In, list_elem_of_fmap in Hin as (row & [= -> ->] & Hrow).
  apply elem_of_seq in Hrow. rewrite length_take, length_drop.
  rewrite !andb_true_iff, !Z.leb_le, Z.eqb_eq. split_and!; nia.
Qed.

(** ** What it holds *)

Definition filter_held (o : option (option DmabufFilter)) (F : av_live) : av_live :=
  match o with
  | Some (Some f) => {[+ RGraph (df_graph f) +]} ⊎ ({[+ RBuf (df_frames_ref f) +]} ⊎ ({[+ RBuf (df_device_ref f) +]} ⊎ F))
  | _ => F
  end.

Definition vaapi_held (s : VaapiH264Encoder) (F : av_live) : av_live :=
  {[+ RCtx (vh_codec_ctx s) +]} ⊎ ({[+ RBuf (vh_frames_ref s) +]} ⊎ ({[+ RBuf (vh_device_ref s) +]}
    ⊎ filter_held (vh_importer s) F)).

Definition filter_ok (o : option (option DmabufFilter)) : Prop :=
  match o with
  | Some (Some f) => df_graph f <> 0 /\ df_frames_ref f <> 0 /\ df_device_ref f <> 0
  | _ => True
  end.

Definition size_ok (w h : Z) : Prop := 0 <= w < 2 ^ 31 /\ 0 <= h < 2 ^ 31 /\ w mod 2 = 0 /\ h mod 2 = 0.

(** The bytes of an NV12 frame. *)
Definition nv12_whole (w h : Z) (l : list Z) : Prop := Z.of_nat (length l) = w * h + w * (h / 2).

Definition vaapi_ok (s : VaapiH264Encoder) : Prop :=
  vh_codec_ctx s <> 0 /\ vh_frames_ref s <> 0 /\ vh_device_ref s <> 0 /\ filter_ok (vh_importer s) /\
  size_ok (vh_width s) (vh_height s) /\
  match vh_last_nv12 s with Some l => nv12_whole (vh_width s) (vh_height s) l | None => True end.

Class VaapiLaws `{Driver av_call} :=
  (** The rows of a buffer hold the width that was asked for. *)
  rows_hold : forall t f w h,
    let a := respond _ t (AvFrameGetBuffer f FNv12 w h) in 0 <= a.1 -> w <= a.2.1 /\ w <= a.2.2.

Lemma need_whole w h l :
  size_ok w h -> Z.of_nat (length l) = as_u 64 (as_u 64 (w * h) * 3) / 2 -> nv12_whole w h l.
Proof.
  intros (Hw & Hh & Ew & Eh) Hl. unfold nv12_whole. rewrite Hl.
  pose proof (Z_div_mod_eq_full h 2). pose proof (Z_div_mod_eq_full w 2).
  assert (0 <= w * h <= 2 ^ 31 * 2 ^ 31) by nia.
  rewrite (as_u_id 64 (w * h)) by (unfold in_u; lia). rewrite as_u_id by (unfold in_u; lia).
  replace (w * h * 3) with ((w * h + w * (h / 2)) * 2) by nia. by rewrite Z.div_mul.
Qed.

Section Safe.
Context `{VaapiLaws}.
Context (L0 : av_live).

Lemma build_ctx_safe {X} (x : X) frames w h peak gop fps F :
  RBuf frames ∈ F ->
  safe L0 (build_h264_vaapi_ctx frames w h peak gop fps) x F (fun x' L' r =>
    x' = x /\ match r with Ok c => c <> 0 /\ L' = {[+ RCtx c +]} ⊎ F | Err _ => L' = F end).
Proof. intros Hf. unfold build_h264_vaapi_ctx. av_run; auto; split_and!; av_fin. Qed.

Lemma vaapi_open_safe {X} (x : X) node w h peak gop fps F :
  0 <= w < 2 ^ 31 -> 0 <= h < 2 ^ 31 ->
  safe L0 (vaapi_open node w h peak gop fps) x F (fun x' L' r =>
    x' = x /\ match r with Ok s => vaapi_ok s /\ L' = vaapi_held s F | Err _ => L' = F end).
Proof.
  intros Hw Hh. unfold vaapi_open. av_run; auto. take @build_ctx_safe.
  all: av_run; auto. split_and!; [done| |done].
  unfold vaapi_ok, size_ok. cbn. boolz. destruct_and?. split_and!; try done; lia.
Qed.

(** ** The filter *)

Lemma filter_chain_safe {X} (x : X) graph frames dev w h L :
  RGraph graph ∈ L -> RBuf frames ∈ L -> RBuf dev ∈ L ->
  safe L0 (filter_chain graph frames dev w h) x L (fun x' L' _ => x' = x /\ L' = L).
Proof. intros Hg Hf Hd. unfold filter_chain. av_run; auto. Qed.

Lemma filter_new_safe {X} (x : X) node dev w h F :
  RBuf dev ∈ F ->
  safe L0 (filter_new node dev w h) x F (fun x' L' r =>
    x' = x /\ match r with
              | Ok f => filter_ok (Some (Some f)) /\ L' = filter_held (Some (Some f)) F
              | Err _ => L' = F
              end).
Proof.
  intros Hd. unfold filter_new, filter_cleanup. av_run; auto. take @filter_chain_safe.
  all: av_run; auto. split_and!; cbn; boolz; destruct_and?; done.
Qed.

Lemma filter_drop_safe {X} (x : X) f F :
  filter_ok (Some (Some f)) ->
  safe L0 (filter_drop f) x (filter_held (Some (Some f)) F) (fun x' L' r => x' = x /\ L' = F /\ result_is_ok r = true).
Proof.
  intros (H1 & H2 & H3). unfold filter_drop, filter_held. av_run; boolz; done.
Qed.

Lemma map_to_nv12_safe {X} (x : X) f fd fmt modifier stride offset L :
  RBuf (df_frames_ref f) ∈ L ->
  safe L0 (map_to_nv12 f fd fmt modifier stride offset) x L (fun x' L' r =>
    x' = x /\ match r with Ok o => L' = {[+ RFrame o +]} ⊎ L | Err _ => L' = L end).
Proof.
  intros Hf. unfold map_to_nv12, prime_frame. av_run; auto.
Qed.

(** ** Encoding *)

Lemma receive_all_safe s fuel ctx out key L :
  RCtx ctx ∈ L -> safe L0 (receive_all fuel ctx out key) s L (fun s' L' _ => s' = s /\ L' = L).
Proof.
  intros Hc. revert out key. induction fuel as [|fuel IH]; intros out key; cbn [receive_all]; av_run; auto.
Qed.

Lemma guarded_safe {X A} (x : X) frame (m : Eff (X * list av_event) va_stop A) L Q :
  safe L0 m x ({[+ RFrame frame +]} ⊎ L) (fun x' L' r => exists M, L' = {[+ RFrame frame +]} ⊎ M /\ Q x' M r) ->
  safe L0 (guarded frame m) x ({[+ RFrame frame +]} ⊎ L) Q.
Proof.
  intros Hm. unfold guarded. apply safe_bind, safe_attempt. eapply safe_mono; [exact Hm|].
  cbv beta. intros x' L' r (M & -> & HQ). av_run; done.
Qed.

(** The encoder afterwards. *)
Definition vaapi_kept (s s' : VaapiH264Encoder) : Prop :=
  vaapi_ok s' /\ vh_width s' = vh_width s /\ vh_height s' = vh_height s.

Lemma held_more s G F : vaapi_held s (G ⊎ F) = G ⊎ vaapi_held s F.
Proof. unfold vaapi_held, filter_held. destruct (vh_importer s) as [[f|]|]; multiset_solver. Qed.

Lemma held_in s r F : r ∈ F -> r ∈ vaapi_held s F.
Proof. intros Hr. unfold vaapi_held, filter_held. destruct (vh_importer s) as [[f|]|]; multiset_solver. Qed.

(** Frames do not change what is repeated. *)
Definition same_last (s s' : VaapiH264Encoder) : Prop := vh_last_nv12 s' = vh_last_nv12 s.

Lemma send_and_drain_safe fuel frame pts idr s F :
  vaapi_ok s -> RFrame frame ∈ F ->
  safe L0 (send_and_drain fuel frame pts idr) s (vaapi_held s F)
    (fun s' L' _ => vaapi_kept s s' /\ same_last s s' /\ L' = vaapi_held s' F).
Proof.
  intros Hs Hf. pose proof (held_in s _ F Hf).
  assert (Hc : RCtx (vh_codec_ctx s) ∈ vaapi_held s F) by (unfold vaapi_held; there).
  unfold send_and_drain. av_run; try done. take receive_all_safe. all: av_run; done.
Qed.

Lemma upload_safe fuel sw hw pts idr s F :
  vaapi_ok s -> RFrame sw ∈ F -> RFrame hw ∈ F ->
  safe L0 (upload fuel sw hw pts idr) s (vaapi_held s F)
    (fun s' L' _ => vaapi_kept s s' /\ same_last s s' /\ L' = vaapi_held s' F).
Proof.
  intros Hs Hsw Hhw. pose proof (held_in s _ F Hsw). pose proof (held_in s _ F Hhw).
  assert (Hb : RBuf (vh_frames_ref s) ∈ vaapi_held s F) by (unfold vaapi_held; there).
  unfold upload. av_run; try done. by apply send_and_drain_safe.
Qed.

Lemma guarded_kept {A} frame (m : Eff (VaapiH264Encoder * list av_event) va_stop A) s s0 F :
  safe L0 m s (vaapi_held s ({[+ RFrame frame +]} ⊎ F))
    (fun s' L' _ => vaapi_kept s0 s' /\ same_last s0 s' /\ L' = vaapi_held s' ({[+ RFrame frame +]} ⊎ F)) ->
  safe L0 (guarded frame m) s (vaapi_held s ({[+ RFrame frame +]} ⊎ F))
    (fun s' L' _ => vaapi_kept s0 s' /\ same_last s0 s' /\ L' = vaapi_held s' F).
Proof.
  rewrite held_more. intros Hm. apply guarded_safe. eapply safe_mono; [exact Hm|]. cbv beta.
  intros s' L' r (Hk & Hl & ->). exists (vaapi_held s' F). by rewrite held_more.
Qed.

Lemma inner_safe fuel nv12 pts idr s F :
  vaapi_ok s -> nv12_whole (vh_width s) (vh_height s) nv12 ->
  safe L0 (encode_nv12_inner fuel nv12 pts idr) s (vaapi_held s F)
    (fun s' L' _ => vaapi_kept s s' /\ same_last s s' /\ L' = vaapi_held s' F).
Proof.
  intros Hs Hn. pose proof Hs as (_ & _ & _ & _ & (Hw & Hh & _) & _).
  assert (Hk : vaapi_kept s s) by done. unfold nv12_whole in Hn.
  assert (0 <= vh_width s * vh_height s) by nia.
  assert (0 <= vh_width s * (vh_height s / 2)) by (apply Z.mul_nonneg_nonneg; [lia|apply Z.div_pos; lia]).
  unfold encode_nv12_inner. av_run; try done.
  rewrite <- held_more. apply guarded_kept.
  apply safe_bind, safe_ask_law. intros t. pose proof (rows_hold t a (as_s 32 (vh_width s)) (as_s 32 (vh_height s))) as Hrows.
  cbv zeta in Hrows.
  generalize dependent (respond _ t (AvFrameGetBuffer a FNv12 (as_s 32 (vh_width s)) (as_s 32 (vh_height s)))).
  rewrite as_s_id by (unfold in_s; lia). intros b Hrows.
  assert (Ha : RFrame a ∈ vaapi_held s ({[+ RFrame a +]} ⊎ F)) by (apply held_in; there).
  eexists. split; [av_effect|].
  destruct (b.1 <? 0) eqn:Eb; [by av_run|]. cbv zeta.
  apply safe_bind, safe_ask. intros []. eexists. split.
  { av_effect.
    - apply plane_rows_fit; [boolz; lia|lia|]. rewrite length_take, Z.mul_comm. lia.
    - apply plane_rows_fit; [boolz; lia|apply Z.div_pos; lia|]. rewrite length_drop, Z.mul_comm. lia. }
  av_run; try done.
  rewrite <- held_more. apply guarded_kept. apply upload_safe; [done|there|there].
Qed.

Lemma nv12_safe fuel nv12 pts idr s F :
  vaapi_ok s ->
  safe L0 (encode_nv12 fuel nv12 pts idr) s (vaapi_held s F)
    (fun s' L' _ => vaapi_kept s s' /\ L' = vaapi_held s' F).
Proof.
  intros Hs. unfold encode_nv12. av_run; try done.
  assert (Hn : nv12_whole (vh_width s) (vh_height s) nv12).
  { pose proof Hs as (_ & _ & _ & _ & Hsz & _). apply need_whole; [done|]. by boolz. }
  assert (Hs' : vaapi_ok (s <| vh_last_nv12 := Some nv12 |>)).
  { destruct Hs as (H1 & H2 & H3 & H4 & H5 & _). by split_and!. }
  pose proof (inner_safe fuel nv12 pts idr _ F Hs' Hn) as Hi.
  eapply safe_mono; [exact Hi|]. cbv beta. by intros s' L' r (Hk & _ & ->).
Qed.

Lemma again_safe fuel pts idr s F :
  vaapi_ok s ->
  safe L0 (reencode_last fuel pts idr) s (vaapi_held s F)
    (fun s' L' _ => vaapi_kept s s' /\ L' = vaapi_held s' F).
Proof.
  intros Hs. unfold reencode_last. apply safe_bind, safe_here.
  destruct (vh_last_nv12 s) as [last|] eqn:El; [|by apply safe_fail].
  assert (Hn : nv12_whole (vh_width s) (vh_height s) last).
  { destruct Hs as (_ & _ & _ & _ & _ & Hl). by rewrite El in Hl. }
  assert (Hs' : vaapi_ok (s <| vh_last_nv12 := None |>)).
  { destruct Hs as (H1 & H2 & H3 & H4 & H5 & _). by split_and!. }
  pose proof (inner_safe fuel last pts idr _ F Hs' Hn) as Hi.
  av_run. eapply safe_mono; [exact Hi|]. cbv beta.
  intros s' L' r ((Hok & Hw & Hh) & _ & ->).
  assert (Hk : vaapi_kept s (s' <| vh_last_nv12 := Some last |>)).
  { destruct Hok as (H1 & H2 & H3 & H4 & H5 & _). unfold vaapi_kept, vaapi_ok. split_and!; try done.
    change (nv12_whole (vh_width s') (vh_height s') last). by rewrite Hw, Hh. }
  av_run; done.
Qed.

Lemma ensure_importer_safe s F :
  vaapi_ok s ->
  safe L0 ensure_importer s (vaapi_held s F)
    (fun s' L' r => vaapi_kept s s' /\ L' = vaapi_held s' F /\ result_is_ok r = true).
Proof.
  intros Hs. unfold ensure_importer. apply safe_bind, safe_here.
  destruct (vh_importer s) as [o|] eqn:Ei; [by apply safe_ret|].
  assert (Hheld : forall o, vaapi_held (s <| vh_importer := o |>) F =
    {[+ RCtx (vh_codec_ctx s) +]} ⊎ ({[+ RBuf (vh_frames_ref s) +]} ⊎ ({[+ RBuf (vh_device_ref s) +]} ⊎ filter_held o F))) by done.
  assert (Hk : forall o, filter_ok o -> vaapi_kept s (s <| vh_importer := o |>)).
  { destruct Hs as (H1 & H2 & H3 & _ & H5 & H6). intros o Ho. by split_and!. }
  assert (E0 : vaapi_held s F = {[+ RCtx (vh_codec_ctx s) +]} ⊎ ({[+ RBuf (vh_frames_ref s) +]} ⊎ ({[+ RBuf (vh_device_ref s) +]} ⊎ F)))
    by (unfold vaapi_held; by rewrite Ei).
  rewrite E0. av_run; [split; [by apply Hk|by rewrite Hheld]|].
  take @filter_new_safe.
  - av_run. split; [by apply Hk|]. split; [|done]. rewrite Hheld. cbn [filter_held]. multiset_solver.
  - av_run. split; [by apply Hk|by rewrite Hheld].
Qed.

Lemma dmabuf_safe fuel fd fmt modifier w h stride offset pts idr s F :
  vaapi_ok s ->
  safe L0 (encode_dmabuf fuel fd fmt modifier w h stride offset pts idr) s (vaapi_held s F)
    (fun s' L' _ => vaapi_kept s s' /\ L' = vaapi_held s' F).
Proof.
  intros Hs. unfold encode_dmabuf. av_run; try done.
  eapply safe_mono; [by apply ensure_importer_safe|]. cbv beta.
  intros s1 L1 [u|e] (Hk & -> & Hr); [|done]. pose proof Hk as (Hok & Hw & Hh).
  apply safe_bind, safe_here.
  destruct (vh_importer s1) as [[f|]|] eqn:Ei; [|by apply safe_fail..].
  apply safe_bind, safe_attempt. eapply safe_mono.
  { apply map_to_nv12_safe. unfold vaapi_held. rewrite Ei. cbn [filter_held]. there. }
  cbv beta. intros s2 L2 [frame|e] [-> ->].
  - rewrite <- held_more. eapply safe_mono; [apply (guarded_kept frame _ s1 s1), send_and_drain_safe; [done|there]|].
    cbv beta. intros s2 L2 r ((Hok2 & Hw2 & Hh2) & _ & ->). unfold vaapi_kept. by rewrite Hw2, Hh2.
  - assert (Hf : filter_ok (Some (Some f))) by (rewrite <- Ei; apply Hok).
    assert (E1 : vaapi_held s1 F = filter_held (Some (Some f))
      ({[+ RCtx (vh_codec_ctx s1) +]} ⊎ ({[+ RBuf (vh_frames_ref s1) +]} ⊎ ({[+ RBuf (vh_device_ref s1) +]} ⊎ F)))).
    { unfold vaapi_held. rewrite Ei. cbn [filter_held]. multiset_solver. }
    assert (Hk1 : vaapi_kept s (s1 <| vh_importer := Some None |>)).
    { destruct Hok as (H1 & H2 & H3 & _ & H5 & H6). by split_and!. }
    rewrite E1. av_run. take @filter_drop_safe. av_run. by split.
Qed.

Lemma bitrate_safe peak s F :
  vaapi_ok s ->
  safe L0 (reconfigure_bitrate peak) s (vaapi_held s F)
    (fun s' L' _ => vaapi_kept s s' /\ L' = vaapi_held s' F).
Proof.
  intros Hs. assert (Hb : RBuf (vh_frames_ref s) ∈ vaapi_held s F) by (unfold vaapi_held; there).
  unfold reconfigure_bitrate. av_run; try done. take @build_ctx_safe; [|by av_run].
  set (G := {[+ RBuf (vh_frames_ref s) +]} ⊎ ({[+ RBuf (vh_device_ref s) +]} ⊎ filter_held (vh_importer s) F)).
  assert (E0 : vaapi_held s F = {[+ RCtx (vh_codec_ctx s) +]} ⊎ G) by done. rewrite E0.
  av_run. split; [|done].
  destruct Hs as (? & ? & ? & ? & ? & ?). by split_and!.
Qed.

Lemma vaapi_drop_safe s F :
  vaapi_ok s -> safe L0 vaapi_drop s (vaapi_held s F) (fun _ L' _ => L' = F).
Proof.
  intros (H1 & H2 & H3 & H4 & _). unfold vaapi_drop, vaapi_held. av_run; boolz; try done.
  - take @filter_drop_safe.
Qed.
End Safe.
