(* ===== verification/VaapiViewer.v ===== *)
(** * A viewer over the VA-API encoder

    The encoder of [Vaapi] is what the viewer's thread of [ViewerEncoder] encodes with. Over
    any libav the thread frees what it took and copies only inside of its planes. What it
    repeats when nothing is new is the last frame that came from memory, also after frames
    that were mapped from dmabufs. *)

From Stdlib Require Import ZArith Lia.
From stdpp Require Import prelude strings list gmultiset.
From S2P Require Import Prelude Words Io Driver ViewerProtocol Composite Session SessionInput Pixels Recorder ViewerEncoder ViewerEncoderProps Libav LibavProps LibavImages Vaapi VaapiProps.

Import ViewerProtocol.Viewer.

Open Scope Z_scope.

Section Viewer.
Context `{D : Driver av_call} {DB : Dmabufs} (fuel : nat) (dma_fd dma_format dma_modifier dma_offset : nat -> Z).

Definition av_outcome (r : VaapiH264Encoder * list av_event * result Nal va_stop) :
    (VaapiH264Encoder * list av_event) * option Nal :=
  (r.1, match r.2 with Ok nal => Some nal | Err _ => None end).

#[export] Instance vaapi_encoder : VaapiEncoder := {|
  va_state := VaapiH264Encoder * list av_event;
  va_open node w h peak gop fps :=
    match vaapi_open node w h peak gop fps ((), []) with
    | ((_, t), Ok s) => Some (s, t)
    | (_, Err _) => None
    end;
  va_nv12 nv12 pts_us idr s := av_outcome (encode_nv12 fuel nv12 pts_us idr s);
  va_dmabuf dma pts_us idr s :=
    let '(w, h, stride) := dma_geometry dma in
    av_outcome (encode_dmabuf fuel (dma_fd dma) (dma_format dma) (dma_modifier dma) (as_u 32 w) (as_u 32 h)
                  stride (dma_offset dma) pts_us idr s);
  va_again pts_us idr s := av_outcome (reencode_last fuel pts_us idr s);
  va_no_zero_copy s := zero_copy_unavailable s.1;
  va_bitrate bps s := (reconfigure_bitrate bps s).1;
|}.

(** The thread's end: the encoder is dropped. *)
Definition vaapi_after_drop (s : VaapiH264Encoder * list av_event) : list av_event := (vaapi_drop s).1.2.
End Viewer.

(** ** Everything is freed *)

Section Released.
Context `{VaapiLaws} {DB : Dmabufs} (fuel : nat) (dma_fd dma_format dma_modifier dma_offset : nat -> Z).
Context {W : Type} `{Write W}.

Abbreviation VA := (vaapi_encoder fuel dma_fd dma_format dma_modifier dma_offset).

(** In order, with exactly what it holds alive. *)
Definition va_in_order (s : VaapiH264Encoder * list av_event) : Prop :=
  vaapi_ok s.1 /\ replay ∅ s.2 = Some (vaapi_held s.1 ∅).

Lemma va_step {A} (m : Eff (VaapiH264Encoder * list av_event) va_stop A) s :
  va_in_order s ->
  (vaapi_ok s.1 -> safe ∅ m s.1 (vaapi_held s.1 ∅) (fun s' L' _ => vaapi_kept s.1 s' /\ L' = vaapi_held s' ∅)) ->
  va_in_order (m s).1.
Proof.
  destruct s as [s t]. intros [Hok Ht] Hm. specialize (Hm Hok t Ht). cbn [fst snd] in *.
  destruct (m (s, t)) as [[s' t'] r]. destruct Hm as (L & HL & [Hk _] & ->). done.
Qed.

Lemma va_nv12_order nv12 pts idr s : va_in_order s -> va_in_order (va_nv12 (VaapiEncoder := VA) nv12 pts idr s).1.
Proof. intros Hs. apply (va_step (encode_nv12 fuel nv12 pts idr)); [done|]. apply nv12_safe. Qed.

Lemma va_again_order pts idr s : va_in_order s -> va_in_order (va_again (VaapiEncoder := VA) pts idr s).1.
Proof. intros Hs. apply (va_step (reencode_last fuel pts idr)); [done|]. apply again_safe. Qed.

Lemma va_dmabuf_order dma pts idr s : va_in_order s -> va_in_order (va_dmabuf (VaapiEncoder := VA) dma pts idr s).1.
Proof.
  intros Hs. cbn. destruct (dma_geometry dma) as [[w h] stride].
  apply (va_step (encode_dmabuf fuel (dma_fd dma) (dma_format dma) (dma_modifier dma) (as_u 32 w) (as_u 32 h)
                    stride (dma_offset dma) pts idr)); [done|]. apply dmabuf_safe.
Qed.

Lemma va_bitrate_order bps s : va_in_order s -> va_in_order (va_bitrate (VaapiEncoder := VA) bps s).
Proof. intros Hs. apply (va_step (reconfigure_bitrate bps)); [done|]. apply bitrate_safe. Qed.

Lemma vaapi_picture_order w h start t idr e e' o :
  va_in_order e -> vaapi_picture (VA := VA) w h start t idr e = Ok (e', o) -> va_in_order e'.
Proof.
  intros He. unfold vaapi_picture.
  assert (Ha : forall pts e', va_in_order e' -> va_in_order (va_again (VaapiEncoder := VA) pts idr e').1) by (intros; by apply va_again_order).
  assert (Hn : forall n pts e', va_in_order e' -> va_in_order (va_nv12 (VaapiEncoder := VA) n pts idr e').1) by (intros; by apply va_nv12_order).
  destruct (v_task t) as [[pixels pw ph|dma hs|]|]; [| |intros [= <- _]; by apply Ha..].
  - destruct (task_to_nv12 t _) as [[[[nv12 fw] fh]|]|]; [| |done]; cbn.
    + case_match; [by intros [= <- _]|]. intros [= <- _]. by apply Hn.
    + intros [= <- _]. by apply Ha.
  - destruct (negb (v_ready t)); [intros [= <- _]; by apply Ha|].
    pose proof (va_dmabuf_order dma (elapsed_us start (v_pts t)) idr e He) as Hd.
    set (p := if va_no_zero_copy (VaapiEncoder := VA) e then (e, None)
              else va_dmabuf (VaapiEncoder := VA) dma (elapsed_us start (v_pts t)) idr e).
    assert (Hp : va_in_order p.1) by (unfold p; by case_match).
    lazymatch goal with |- match ?q with _ => _ end = _ -> _ => change q with p end.
    destruct p as [e1 [nal|]]; [by intros [= <- _]|].
    destruct (task_to_nv12 t _) as [[[[nv12 fw] fh]|]|]; [| |done]; cbn.
    + case_match; intros [= <- _]; [by apply Hn|by apply Ha].
    + intros [= <- _]. by apply Ha.
Qed.

(** A task whose size fits a signed integer of 32 bits. *)
Definition task_sized (task : RecordingTask) : Prop :=
  match task with
  | TaskPixels _ w h => 0 <= w < 2 ^ 31 /\ 0 <= h < 2 ^ 31
  | TaskDmabuf dma _ => 0 <= (dma_size dma).1 < 2 ^ 31 /\ 0 <= (dma_size dma).2 < 2 ^ 31
  | TaskNal _ _ _ _ _ _ => True
  end.

Definition turn_sized (t : VTurn) : Prop := forall task, v_task t = Some task -> task_sized task.

Lemma task_to_nv12_size t task nv12 w h :
  task_sized task -> task_to_nv12 t task = Ok (Some (nv12, w, h)) -> 0 <= w < 2 ^ 31 /\ 0 <= h < 2 ^ 31.
Proof.
  destruct task as [p pw ph|dma hs|]; cbn; [| |done]; intros Hs.
  - repeat case_match; try done; intros; simplify_eq/=; try done.
  - destruct (negb (v_ready t)); [done|]. destruct (dma_size dma) as [dw dh]. destruct (v_raw t) as [raw|]; [|done].
    destruct (destride_bgra raw dw dh _) as [b|]; [|done]. cbn. destruct (bgra_to_nv12 b dw dh); [|done]. cbn.
    by intros [= <- <- <-].
Qed.

Lemma wait_vaapi_size ts nv12 w h ts' :
  Forall turn_sized ts -> wait_vaapi ts = Ok (Some (Some (nv12, w, h, ts'))) -> 0 <= w < 2 ^ 31 /\ 0 <= h < 2 ^ 31.
Proof.
  induction ts as [|t ts IH]; [done|]. intros [Ht Hts]%Forall_cons_1. cbn.
  destruct (v_stop t); [done|]. destruct (v_task t) as [task|] eqn:E; [|by apply IH].
  destruct (task_to_nv12 t task) as [[[[n fw] fh]|]|] eqn:En; [| |done]; cbn; [|by apply IH].
  destruct (_ && _); [|by apply IH]. intros [= <- <- <- <-]. by apply (task_to_nv12_size t task n); [apply Ht|].
Qed.

Lemma va_drop_order s : va_in_order s -> replay ∅ (vaapi_after_drop s) = Some ∅.
Proof.
  destruct s as [s t]. intros [Hok Ht]. pose proof (vaapi_drop_safe ∅ s ∅ Hok t Ht) as Hd.
  unfold vaapi_after_drop. destruct (vaapi_drop (s, t)) as [[s' t'] r]. destruct Hd as (L & HL & ->). done.
Qed.

(** C20: whatever libav answers, a viewer's VA-API thread that ran and stopped has used only
    what it had, copied every row of a frame from bytes that are there to a place inside of
    the plane, never freed anything twice, and when its encoder is dropped nothing it ever took
    is left: contexts that were opened to change the rate, frames, packets, the filter graph
    and the duplicated descriptors of dmabufs included, for any frames the session sends. *)
Theorem vaapi_viewer_releases vars sock cloned start tick ts s :
  Forall turn_sized ts ->
  run_vaapi_inprocess_encoder (VA := VA) vars sock cloned start tick ts = Ok (Some (VaStopped s)) ->
  replay ∅ (lv_enc s).2 = Some (vaapi_held (lv_enc s).1 ∅) /\ replay ∅ (vaapi_after_drop (lv_enc s)) = Some ∅.
Proof.
  intros Hts. unfold run_vaapi_inprocess_encoder.
  destruct (wait_vaapi ts) as [[[[[[nv12 w] h] ts']|]|]|] eqn:Ew; try done. cbn [va_open vaapi_encoder].
  destruct (wait_vaapi_size _ _ _ _ _ Hts Ew) as [Hw Hh].
  set (node := default _ _). set (peak := positive_var 32 (vv_bitrate vars) _). set (gop := positive_var 32 _ _). set (fps := vaapi_fps _).
  pose proof (vaapi_open_safe ∅ () node w h peak gop fps ∅ Hw Hh [] eq_refl) as Ho.
  destruct (vaapi_open node w h peak gop fps ((), [])) as [[u t] [e0|er]]; [|done].
  destruct Ho as (L & HL & _ & Hok & ->). destruct cloned; [|done]. cbn [negb].
  assert (He0 : va_in_order (e0, t)) by done.
  pose proof (va_nv12_order nv12 0 true (e0, t) He0) as He1.
  destruct (va_nv12 (VaapiEncoder := VA) nv12 0 true (e0, t)) as [e1 nal]. cbn [fst] in He1.
  pose proof (live_first_enc nal (live_start e1 sock tick)) as Hl.
  destruct (live_first nal (live_start e1 sock tick)) as [s1 ok]. cbn [fst] in Hl.
  assert (Hs1 : va_in_order (lv_enc s1)) by (by rewrite Hl).
  intros Hrun. assert (va_in_order (lv_enc s)) as Hs; [revert Hrun|split; [apply Hs|by apply va_drop_order]].
  destruct ok; cbn [negb]; [|by intros [= <-]].
  destruct (live_loop _ _ _ ts' s1) as [r|] eqn:El; [|done]. destruct r as [s2|]; [|done]. intros [= <-].
  eapply (live_loop_enc _ _ _ _ _ _ va_in_order); [done| | |done].
  - intros b e. apply va_bitrate_order.
  - intros t' idr e e' o _. apply vaapi_picture_order.
Qed.
End Released.

(** ** What is repeated *)

Section Repeated.
Context `{D : Driver av_call} (fuel : nat).

Abbreviation still m x := (safe (H0 := no_effects) ∅ m x ∅ (fun x' L' _ => x' = x /\ L' = ∅)).

Ltac still_run := repeat first [safe_step | reflexivity]; try done.

Lemma receive_still ctx out key n s : still (receive_all n ctx out key) s.
Proof. revert out key. induction n as [|n IH]; intros out key; cbn [receive_all]; still_run; auto. Qed.

Lemma map_still {X} f fd fmt modifier stride offset (x : X) : still (map_to_nv12 f fd fmt modifier stride offset) x.
Proof. unfold map_to_nv12, prime_frame. still_run. Qed.

Lemma filter_new_still {X} node dev w h (x : X) : still (filter_new node dev w h) x.
Proof. unfold filter_new, filter_chain, filter_cleanup. still_run. Qed.

Lemma filter_drop_still {X} f (x : X) : still (filter_drop f) x.
Proof. unfold filter_drop. still_run. Qed.

(** [last] stays through a frame that is sent. *)
Abbreviation lasting m s := (safe (H0 := no_effects) ∅ m s ∅ (fun s' L' _ => same_last s s' /\ L' = ∅)).

Lemma send_lasting frame pts idr s : lasting (send_and_drain fuel frame pts idr) s.
Proof.
  unfold send_and_drain. still_run. eapply safe_mono; [apply receive_still|]. cbv beta.
  intros s' L' [o|e] [-> ->]; [|done]. still_run.
Qed.

Lemma ensure_lasting s : lasting ensure_importer s.
Proof.
  unfold ensure_importer. still_run. eapply safe_mono; [apply filter_new_still|]. cbv beta.
  intros s' L' r [-> ->]. still_run.
Qed.

Lemma dmabuf_lasting fd fmt modifier w h stride offset pts idr s :
  lasting (encode_dmabuf fuel fd fmt modifier w h stride offset pts idr) s.
Proof.
  unfold encode_dmabuf, guarded. still_run.
  eapply safe_mono; [apply ensure_lasting|]. cbv beta. intros s1 L1 [u|e] [Hs1 ->]; [|done]. still_run.
  eapply safe_mono; [apply map_still|]. cbv beta. intros s2 L2 [frame|e] [-> ->]; still_run.
  - eapply safe_mono; [apply send_lasting|]. cbv beta. unfold same_last in *. intros s3 L3 r3 [Hs3 ->].
    still_run; split; congruence.
  - eapply safe_mono; [apply filter_drop_still|]. cbv beta. intros s3 L3 [u'|e'] [-> ->]; still_run.
Qed.

(** a frame that was mapped from a dmabuf and sent is not remembered: when the next round
    brings nothing new, what is encoded again is the frame that last came from memory, however
    many newer ones were sent since. *)
Theorem zero_copy_repeats_old fd fmt modifier w h stride offset pts idr s t s' t' nal old pts2 idr2 :
  encode_dmabuf fuel fd fmt modifier w h stride offset pts idr (s, t) = ((s', t'), Ok nal) ->
  vh_last_nv12 s = Some old ->
  (reencode_last fuel pts2 idr2 (s', t')).2 =
    (encode_nv12_inner fuel old pts2 idr2 (s' <| vh_last_nv12 := None |>, t')).2 /\
  (reencode_last fuel pts2 idr2 (s', t')).1.2 =
    (encode_nv12_inner fuel old pts2 idr2 (s' <| vh_last_nv12 := None |>, t')).1.2.
Proof.
  intros E Hold.
  pose proof (yields_run _ s t s' t' _ (fun s' _ => same_last s s')
    (safe_mono _ _ _ _ _ _ (dmabuf_lasting fd fmt modifier w h stride offset pts idr s) (fun _ _ _ H => proj1 H)) E) as Hl.
  cbv beta in Hl. unfold same_last in Hl. unfold reencode_last, mbind, eff_mbind, here, change, attempt. cbn.
  rewrite Hl, Hold. cbn.
  destruct (encode_nv12_inner fuel old pts2 idr2 _) as [[s2 t2] [n|e]]; done.
Qed.
End Repeated.

(** ** The rate *)

Section Rate.
Context `{D : Driver av_call}.

(** Rates up to here are compared without overflow. *)
Definition MAX_COMPARED : Z := 42949672.

(** The encoder is opened again only for a change of a fifth or more, at least a second after
    the last time, and then has the new ceiling, which is never below the minimum. *)
Theorem rate_debounced peak s t s' t' :
  0 <= peak <= MAX_COMPARED -> MIN_PEAK_BPS <= vh_cur_peak_bps s <= MAX_COMPARED ->
  reconfigure_bitrate peak (s, t) = ((s', t'), Ok true) ->
  vh_cur_peak_bps s <= 5 * Z.abs (vh_cur_peak_bps s' - vh_cur_peak_bps s) /\
  vh_last_reconfig s + 1000 <= respond _ t InstantMs /\ vh_cur_peak_bps s' = Z.max peak MIN_PEAK_BPS.
Proof.
  unfold MAX_COMPARED, MIN_PEAK_BPS. intros Hp Hc.
  unfold reconfigure_bitrate, mbind, eff_mbind, here, change, attempt, ask, MIN_PEAK_BPS. cbn.
  rewrite !as_u_id by (unfold in_u; lia).
  case_match eqn:E1; [done|]. case_match eqn:E2; [done|].
  destruct (build_h264_vaapi_ctx _ _ _ _ _ _ _) as [[s1 t1] [c|e]] eqn:Eb; [|done]. cbn. intros [= <- <-]. cbn.
  boolz. lia.
Qed.

(** In 32 bits a raise can be so large that it counts as a small change. *)
Theorem large_raise_ignored s t :
  vh_cur_peak_bps s = 8000000 -> reconfigure_bitrate 51000000 (s, t) = ((s, t), Ok false).
Proof. intros Hc. unfold reconfigure_bitrate, mbind, eff_mbind, here. cbn. by rewrite Hc. Qed.
End Rate.

(** ** Witnesses *)

Abbreviation calm z := (calm_libav z 0 (two_images 30)).

Lemma calm_vaapi_laws z : VaapiLaws (H := calm z).
Proof. intros t f w h. cbn. lia. Qed.

Definition tiny_dmabufs : Dmabufs := fun _ => (32, 32, 128).
Definition no_vars : ViewerVars := {| vv_codec := None; vv_bitrate := None; vv_gop := None; vv_max_fps := None; vv_qp := None; vv_render_node := None |}.

(** Pixels, a dmabuf, nothing, then the stop. *)
Definition vaapi_turns : list VTurn :=
  [a_vturn (Some (TaskPixels (replicate 1536 200) 32 32)) false 0; a_vturn (Some (TaskDmabuf 1 [])) true 40000000;
   a_vturn None false 80000000; stop_vturn 120000000].

Abbreviation vaapi_run :=
  (run_vaapi_inprocess_encoder (DB := tiny_dmabufs) (VA := vaapi_encoder (D := calm true) (DB := tiny_dmabufs) 3 (fun _ => 5) (fun _ => 0) (fun _ => 0) (fun _ => 0))
     (W := list Z) no_vars [] true 0 0 vaapi_turns).

Definition va_wrote {VA : VaapiEncoder} (r : result (option (vaapi_end (VA := VA) (W := list Z))) stop) : option (list Z) :=
  match r with Ok (Some (VaStopped s)) => Some (lv_w s) | _ => None end.

Lemma vaapi_viewer_releases_witness :
  exists s, vaapi_run = Ok (Some (VaStopped s)) /\ lv_w s <> [] /\
    replay ∅ (vaapi_after_drop (D := calm true) (lv_enc s)) = Some ∅.
Proof.
  assert (Hw : va_wrote vaapi_run = Some (concat (replicate 3 [1; 1; 0; 0; 0; 1]))) by (vm_compute; reflexivity).
  destruct vaapi_run as [[[| |s]|]|] eqn:E; try discriminate Hw.
  exists s. split; [reflexivity|]. split; [intros Hn; discriminate (eq_trans (eq_sym (f_equal Some Hn)) Hw)|].
  refine (proj2 (vaapi_viewer_releases (H := calm true) (H0 := calm_vaapi_laws true) (DB := tiny_dmabufs) (W := list Z) 3
    (fun _ => 5) (fun _ => 0) (fun _ => 0) (fun _ => 0) no_vars [] true 0 0 vaapi_turns s _ E)).
  repeat apply Forall_cons_2; [..|by apply Forall_nil_2]; intros task [= <-];
    repeat split; vm_compute; try reflexivity; discriminate.
Defined.

(** An encoder of two by two pixels with an importer, which last got a frame of nines. *)
Definition demo_vaapi : VaapiH264Encoder :=
  {| vh_width := 2; vh_height := 2; vh_render_node := "/dev/dri/renderD128"; vh_device_ref := 1; vh_frames_ref := 2;
     vh_codec_ctx := 4; vh_frames_sent := 1; vh_last_nv12 := Some (replicate 6 9); vh_cur_peak_bps := 6000000; vh_gop := 120;
     vh_fps := 30; vh_last_reconfig := 0;
     vh_importer := Some (Some {| df_device_ref := 1; df_frames_ref := 2; df_graph := 10; df_src := 12; df_sink := 14;
                                  df_width := 2; df_height := 2 |}) |}.

Lemma zero_copy_repeats_old_witness :
  exists s' t' nal,
    encode_dmabuf (H := calm true) 3 5 0 0 2 2 8 0 1000 false (demo_vaapi, []) = ((s', t'), Ok nal) /\
    (reencode_last (H := calm true) 3 2000 false (s', t')).1.2 =
      (encode_nv12_inner (H := calm true) 3 (replicate 6 9) 2000 false (s' <| vh_last_nv12 := None |>, t')).1.2.
Proof.
  destruct (encode_dmabuf (H := calm true) 3 5 0 0 2 2 8 0 1000 false (demo_vaapi, [])) as [[s' t'] r] eqn:E.
  assert (Hr : r = Ok {| nal_data := [1]; nal_key := true |}).
  { transitivity (encode_dmabuf (H := calm true) 3 5 0 0 2 2 8 0 1000 false (demo_vaapi, [])).2;
      [by rewrite E | vm_compute; reflexivity]. }
  subst r. exists s', t', {| nal_data := [1]; nal_key := true |}. split; [reflexivity|].
  exact (proj2 (zero_copy_repeats_old (D := calm true) 3 5 0 0 2 2 8 0 1000 false demo_vaapi [] s' t' _ (replicate 6 9) 2000 false E eq_refl)).
Defined.
