(* ===== verification/Dmabuf.v ===== *)
(** * Reading dmabufs ([crates/waymux-session/src/dmabuf.rs])

    A buffer that a client shares by file descriptors: its fence, the bracket of CPU access, and
    the ways to its pixels, from the plain mapping over two DRM nodes and GBM to EGL. Memory
    that is mapped is a function from positions to bytes. What Rust frees by itself without a
    call of the code (the loaded library) leaves no event; a panic unwinds. *)

From Stdlib Require Import ZArith Lia String.
From stdpp Require Import prelude strings list sorting gmultiset.
From S2P Require Import Prelude Words Composite SessionInput SessionRecord Driver.

Open Scope Z_scope.

(** ** Calls *)

(** The two descriptors of an import into GBM. *)
Inductive GbmImport :=
| GBM_BO_IMPORT_FD_MODIFIER (width height format num_fds : Z) (fds strides offsets : list Z) (modifier : Z)
| GBM_BO_IMPORT_FD (fd width height stride format : Z).

Inductive db_call : Set -> Set :=
(* the kernel *)
| Open (path : string) : db_call Z
| Close (fd : Z) : db_call unit
| IoctlSync (fd flags : Z) : db_call unit
| ExportSyncFile (fd flags : Z) : db_call (Z * Z)
| Poll (fd timeout : Z) : db_call (Z * Z)
| PrimeFdToHandle (drm prime : Z) : db_call (Z * Z)
| AmdgpuGemMmap (drm handle : Z) : db_call (Z * Z)
| ModeMapDumb (drm handle : Z) : db_call (Z * Z)
| Mmap (fd length offset : Z) : db_call (option Z)
| Munmap (p length : Z) : db_call unit
| PtrBytes (p length : Z) : db_call (Z -> Z)
(* memmap2 *)
| MapFd (fd length : Z) : db_call (option Z)
| MapBytes (fd p length : Z) : db_call (Z -> Z)
| MapDrop (p length : Z) : db_call unit
(* GBM *)
| GbmCreate (fd : Z) : db_call Z
| GbmDestroy (gbm : Z) : db_call unit
| GbmBoImport (gbm : Z) (what : GbmImport) (usage : Z) : db_call Z
| GbmBoMap (bo width height flags : Z) : db_call (option Z * Z * Z)
| GbmBoUnmap (bo data : Z) : db_call unit
| GbmBoDestroy (bo : Z) : db_call unit
| BoBytes (bo data length : Z) : db_call (Z -> Z)
(* EGL *)
| DlOpen (name : string) : db_call bool
| EglLoad : db_call bool
| EglPlatformDisplay (gbm : Z) : db_call (option Z)
| EglInitialize (display : Z) : db_call bool
| EglTerminate (display : Z) : db_call unit
| EglBindApi : db_call bool
| EglChooseConfig (display : Z) : db_call (option (option Z))
| EglCreateContext (display config : Z) : db_call (option Z)
| EglMakeCurrent (display : Z) (ctx : option Z) : db_call bool
| EglDestroyContext (display ctx : Z) : db_call unit
| EglGetProc (name : string) : db_call bool
| EglCreateImage (display : Z) (attribs : list Z) : db_call Z
| EglDestroyImage (display image : Z) : db_call unit
| EglQueryModifiers (display format max : Z) : db_call (Z * Z * list (Z * Z))
(* GL *)
| GlLoad : db_call unit
| GlGetError : db_call Z
| GlGenTexture : db_call Z
| GlTextureSetUp (texture image : Z) : db_call unit
| GlDeleteTexture (texture : Z) : db_call unit
| GlGenFramebuffer : db_call Z
| GlFramebufferTexture (fbo texture : Z) : db_call unit
| GlFramebufferStatus (fbo : Z) : db_call Z
| GlDeleteFramebuffer (fbo : Z) : db_call unit
| GlReadPixels (width height capacity : Z) : db_call (option (Z -> Z))
| GlFinish : db_call unit.

Abbreviation db_event := (event db_call).

(** [None], a panic, or a loop that did not end. *)
Inductive db_stop := DbNone | DbPanics | DbFuel.

(** The bytes [\[start, start + length)] of a region. *)
Definition region (mem : Z -> Z) (start length : Z) : list Z :=
  (fun i => as_u 8 (mem i)) <$> seqZ start length.

Definition some_byte (v : list Z) : bool := existsb (fun b => negb (b =? 0)) v.

(** A block with local variables [y]: what they are when it ends, and how it ends. *)
Definition local {X Y E E' A} (y : Y) (m : Eff (Y * list db_event) E A) :
    Eff (X * list db_event) E' (Y * result A E) := fun '(x, t) =>
  match m (y, t) with ((y', t'), r) => ((x, t'), Ok (y', r)) end.

(** Run [m], and [fin] however it ends. *)
Definition finally {X E A} (m : Eff (X * list db_event) E A) (fin : Eff (X * list db_event) E unit) :
    Eff (X * list db_event) E A :=
  r ← attempt m;
  fin ;;
  match r with Ok a => mret a | Err e => fail e end.

(** ** Buffers *)

Record PlaneData := { pl_fd : Z; pl_offset : Z; pl_stride : Z }.

Record DmabufBufferData := {
  db_fd : Z;
  db_offset : Z;
  db_stride : Z;
  db_extra_planes : list PlaneData;
  db_width : Z;
  db_height : Z;
  db_drm_format : Z;
  db_modifier : Z;
}.

Definition as_shm_format (d : DmabufBufferData) : Format :=
  if db_drm_format d =? DRM_FORMAT_ARGB8888 then Argb8888
  else if db_drm_format d =? DRM_FORMAT_XRGB8888 then Xrgb8888
  else OtherFormat (db_drm_format d).

Definition MAX_DMABUF_LEN : Z := 256 * 1024 * 1024.

(** [(height as usize).checked_mul(stride as usize)], at most [MAX_DMABUF_LEN]. *)
Definition bounded_len (height stride : Z) : option Z :=
  n ← checked_u64 (usize height * usize stride);
  if n <=? MAX_DMABUF_LEN then Some n else None.

Section Readback.
Context `{Driver db_call} {X : Type}.

Abbreviation Db A := (Eff (X * list db_event) db_stop A).
Abbreviation nothing := (fail DbNone).

(** ** CPU access and fences *)

Definition DMA_BUF_SYNC_READ : Z := 1.
Definition DMA_BUF_SYNC_START : Z := 0.
Definition DMA_BUF_SYNC_END : Z := 4.

Definition dmabuf_sync_start (fd : Z) : Db unit :=
  ask (IoctlSync fd (Z.lor DMA_BUF_SYNC_START DMA_BUF_SYNC_READ)).
Definition dmabuf_sync_end (fd : Z) : Db unit :=
  ask (IoctlSync fd (Z.lor DMA_BUF_SYNC_END DMA_BUF_SYNC_READ)).

(** [let _guard = DmabufSyncGuard::new(fd); ..] *)
Definition DmabufSyncGuard {A} (fd : Z) (m : Db A) : Db A :=
  dmabuf_sync_start fd ;;
  finally m (dmabuf_sync_end fd).

Inductive FenceStatus := NoFence | AlreadySignaled | Waited | TimedOut.

Definition POLLIN : Z := 1.
Definition signalled (p : Z * Z) : bool := (0 <? p.1) && negb (Z.land p.2 POLLIN =? 0).

Definition dmabuf_fence_ready_now (prime_fd : Z) : Db bool :=
  req ← ask (ExportSyncFile prime_fd 1);
  if negb (req.1 =? 0) || (req.2 <? 0) then mret true
  else
    probe ← ask (Poll req.2 0);
    ask (Close req.2) ;;
    mret (signalled probe).

Definition wait_for_dmabuf_fence_status (prime_fd : Z) : Db FenceStatus :=
  req ← ask (ExportSyncFile prime_fd 1);
  if negb (req.1 =? 0) || (req.2 <? 0) then mret NoFence
  else
    probe ← ask (Poll req.2 0);
    status ←
      (if signalled probe then mret AlreadySignaled
       else
         waited ← ask (Poll req.2 2000);
         mret (if signalled waited then Waited else TimedOut));
    ask (Close req.2) ;;
    mret status.

Definition wait_for_dmabuf_fence (prime_fd : Z) : Db unit :=
  wait_for_dmabuf_fence_status prime_fd ;; mret ().

(** ** Through a DRM node *)

(** What both readbacks do with a node that is open: the handle of the buffer, its offset by the
    driver's request [to_offset], a mapping of it. [None]: on to the next node. *)
Definition map_through_node (to_offset : Z -> Z -> db_call (Z * Z)) (drm_fd prime_fd length offset : Z) :
    Db (option (list Z)) :=
  prime ← ask (PrimeFdToHandle drm_fd prime_fd);
  if negb (prime.1 =? 0) then ask (Close drm_fd) ;; mret None
  else
    where' ← ask (to_offset drm_fd prime.2);
    if negb (where'.1 =? 0) then ask (Close drm_fd) ;; mret None
    else
      let total := usize_add offset length in
      p ← ask (Mmap drm_fd total (as_s 64 where'.2));
      match p with
      | None => ask (Close drm_fd) ;; mret None
      | Some p =>
          bytes ← ask (PtrBytes p total);
          ask (Munmap p total) ;;
          ask (Close drm_fd) ;;
          mret (Some (region bytes offset length))
      end.

Fixpoint first_node (paths : list string) (read : Z -> Db (option (list Z))) : Db (list Z) :=
  match paths with
  | [] => nothing
  | path :: paths' =>
      drm_fd ← ask (Open path);
      if drm_fd <? 0 then first_node paths' read
      else
        r ← read drm_fd;
        match r with Some v => mret v | None => first_node paths' read end
  end.

Definition amdgpu_gem_mmap (prime_fd length offset : Z) : Db (list Z) :=
  first_node ["/dev/dri/renderD128"; "/dev/dri/card1"; "/dev/dri/card0"]%string
    (fun drm_fd => map_through_node AmdgpuGemMmap drm_fd prime_fd length offset).

Definition drm_readback (prime_fd length offset : Z) : Db (list Z) :=
  first_node ["/dev/dri/renderD128"; "/dev/dri/card0"]%string
    (fun drm_fd => map_through_node ModeMapDumb drm_fd prime_fd length offset).

(** ** GBM *)

Definition GBM_BO_USE_LINEAR : Z := 16.
Definition GBM_BO_TRANSFER_READ : Z := 1.

(** Row by row from one stride to another; [None] for a slice out of range. *)
Fixpoint copy_rows (rows : list Z) (map_stride stride map_len : Z) (src : Z -> Z) (out : list Z) :
    option (list Z) :=
  match rows with
  | [] => Some out
  | row :: rows' =>
      let src_row := usize_mul row map_stride in
      let dst_row := usize_mul row stride in
      if (map_len <? src_row + stride) || (len out <? dst_row + stride) then None
      else copy_rows rows' map_stride stride map_len src
             (overwrite (Z.to_nat dst_row) (region src src_row stride) out)
  end.

Definition gbm_map_and_read (bo gbm drm_fd width height stride length : Z) : Db (list Z) :=
  m ← ask (GbmBoMap bo (as_u 32 width) (as_u 32 height) GBM_BO_TRANSFER_READ);
  let '(ptr, filled_in, map_data) := m in
  let map_stride := as_u 32 filled_in in
  let release := ask (GbmBoDestroy bo) ;; ask (GbmDestroy gbm) ;; ask (Close drm_fd) in
  match ptr with
  | Some _ =>
      match bounded_len height map_stride with
      | None => ask (GbmBoUnmap bo map_data) ;; nothing
      | Some map_len =>
          src ← ask (BoBytes bo map_data map_len);
          out ←
            (if as_s 32 map_stride =? stride then
               if map_len <? length then fail DbPanics else mret (region src 0 length)
             else
               match copy_rows (seqZ 0 (usize height)) map_stride (usize stride) map_len src
                       (replicate (Z.to_nat length) 0) with
               | Some out => mret out
               | None => fail DbPanics
               end);
          ask (GbmBoUnmap bo map_data) ;;
          release ;;
          mret out
      end
  | None => release ;; nothing
  end.

Definition gbm_readback (prime_fd width height stride offset modifier : Z) : Db (list Z) :=
  match bounded_len height stride with
  | None => nothing
  | Some length =>
      drm_fd ← ask (Open "/dev/dri/renderD128");
      if drm_fd <? 0 then nothing
      else
        gbm ← ask (GbmCreate drm_fd);
        if gbm =? 0 then ask (Close drm_fd) ;; nothing
        else
          bo ← ask (GbmBoImport gbm
                 (GBM_BO_IMPORT_FD_MODIFIER (as_u 32 width) (as_u 32 height) DRM_FORMAT_ARGB8888 1
                    [prime_fd; -1; -1; -1] [stride; 0; 0; 0] [as_s 32 offset; 0; 0; 0] modifier)
                 GBM_BO_USE_LINEAR);
          if negb (bo =? 0) then gbm_map_and_read bo gbm drm_fd width height stride length
          else
            bo2 ← ask (GbmBoImport gbm
                    (GBM_BO_IMPORT_FD prime_fd (as_u 32 width) (as_u 32 height) (as_u 32 stride)
                       DRM_FORMAT_ARGB8888)
                    GBM_BO_USE_LINEAR);
            if bo2 =? 0 then ask (GbmDestroy gbm) ;; ask (Close drm_fd) ;; nothing
            else gbm_map_and_read bo2 gbm drm_fd width height stride length
  end.

(** ** EGL *)

Definition EGL_LINUX_DRM_FOURCC_EXT : Z := 0x3271.
Definition EGL_DMA_BUF_PLANE0_FD_EXT : Z := 0x3272.
Definition EGL_DMA_BUF_PLANE0_OFFSET_EXT : Z := 0x3273.
Definition EGL_DMA_BUF_PLANE0_PITCH_EXT : Z := 0x3274.
Definition EGL_DMA_BUF_PLANE0_MODIFIER_LO_EXT : Z := 0x3443.
Definition EGL_DMA_BUF_PLANE0_MODIFIER_HI_EXT : Z := 0x3444.
Definition EGL_WIDTH : Z := 0x3057.
Definition EGL_HEIGHT : Z := 0x3056.
Definition EGL_NONE : Z := 0x3038.

Definition modifier_lo (modifier : Z) : Z := as_s 32 (Z.land modifier 0xFFFFFFFF).
Definition modifier_hi (modifier : Z) : Z := as_s 32 (Z.shiftr modifier 32).

(** The attribute names of planes 1 and 2; further planes are not passed on. *)
Definition plane_attrs : list (Z * Z * Z * Z * Z) :=
  [(0x3278, 0x3279, 0x327A, 0x3445, 0x3446); (0x3280, 0x3281, 0x3282, 0x3447, 0x3448)].

Definition plane_attribs (modifier : Z) (names : Z * Z * Z * Z * Z) (p : PlaneData) : list Z :=
  let '(fd_attr, offset_attr, pitch_attr, mod_lo, mod_hi) := names in
  [fd_attr; pl_fd p; offset_attr; as_s 32 (pl_offset p); pitch_attr; as_s 32 (pl_stride p);
   mod_lo; modifier_lo modifier; mod_hi; modifier_hi modifier].

Definition image_attribs (prime_fd : Z) (extra_planes : list PlaneData)
    (width height stride offset drm_format modifier : Z) : list Z :=
  [EGL_WIDTH; width; EGL_HEIGHT; height; EGL_LINUX_DRM_FOURCC_EXT; as_s 32 drm_format;
   EGL_DMA_BUF_PLANE0_FD_EXT; prime_fd; EGL_DMA_BUF_PLANE0_OFFSET_EXT; as_s 32 offset;
   EGL_DMA_BUF_PLANE0_PITCH_EXT; stride]
  ++ (if negb (modifier =? DRM_FORMAT_MOD_LINEAR) then
        [EGL_DMA_BUF_PLANE0_MODIFIER_LO_EXT; modifier_lo modifier;
         EGL_DMA_BUF_PLANE0_MODIFIER_HI_EXT; modifier_hi modifier]
      else [])
  ++ concat (zip_with (plane_attribs modifier) plane_attrs extra_planes)
  ++ [EGL_NONE].

(** [while gl::GetError() != gl::NO_ERROR {}] *)
Fixpoint drain_errors {Y} (fuel : nat) : Eff (Y * list db_event) db_stop unit :=
  match fuel with
  | O => fail DbFuel
  | S fuel' =>
      e ← ask GlGetError;
      if e =? 0 then mret () else drain_errors fuel'
  end.

(** R and B change places in every pixel. *)
Fixpoint swizzle (l : list Z) : list Z :=
  match l with
  | a :: b :: c :: d :: l' => c :: b :: a :: d :: swizzle l'
  | _ => l
  end.

(** What [glReadPixels] leaves of a zeroed buffer of [capacity] bytes, packed rows of four bytes
    per pixel; an error leaves it as it was. *)
Definition pixels_into (width height capacity : Z) (px : option (Z -> Z)) : list Z :=
  match px with
  | None => replicate (Z.to_nat capacity) 0
  | Some mem =>
      let n := Z.min (4 * width * height) capacity in
      region mem 0 n ++ replicate (Z.to_nat (capacity - n)) 0
  end.

Definition GL_FRAMEBUFFER_COMPLETE : Z := 0x8CD5.

(** The variables the cleanup of [egl_readback] looks at. *)
Record EglLocals := { display_to_terminate : option Z; ctx_to_destroy : option (Z * Z) }.

(** From the image to the pixels. *)
Definition read_image (fuel : nat) (display image width height stride : Z) :
    Eff (EglLocals * list db_event) db_stop (list Z) :=
  drain_errors fuel ;;
  texture ← ask GlGenTexture;
  ask (GlTextureSetUp texture image) ;;
  ask GlGetError ;;
  fbo ← ask GlGenFramebuffer;
  ask (GlFramebufferTexture fbo texture) ;;
  status ← ask (GlFramebufferStatus fbo);
  let release :=
    ask (GlDeleteFramebuffer fbo) ;; ask (GlDeleteTexture texture) ;; ask (EglDestroyImage display image) in
  if negb (status =? GL_FRAMEBUFFER_COMPLETE) then release ;; nothing
  else
    match bounded_len height stride with
    | None => release ;; nothing
    | Some buf_len =>
        px ← ask (GlReadPixels width height buf_len);
        ask GlFinish ;;
        ask GlGetError ;;
        release ;;
        mret (swizzle (pixels_into width height buf_len px))
    end.

(** The closure of [egl_readback]. *)
Definition egl_body (fuel : nat) (gbm prime_fd : Z) (extra_planes : list PlaneData)
    (width height stride offset drm_format modifier : Z) :
    Eff (EglLocals * list db_event) db_stop (list Z) :=
  d ← ask (EglPlatformDisplay gbm);
  match d with
  | None => nothing
  | Some display =>
      ok ← ask (EglInitialize display);
      if negb ok then nothing
      else
        change (fun l => {| display_to_terminate := Some display; ctx_to_destroy := ctx_to_destroy l |}) ;;
        api ← ask EglBindApi;
        if negb api then nothing
        else
          c ← ask (EglChooseConfig display);
          match c with
          | Some (Some config) =>
              cx ← ask (EglCreateContext display config);
              match cx with
              | None => nothing
              | Some ctx =>
                  change (fun l => {| display_to_terminate := display_to_terminate l;
                                      ctx_to_destroy := Some (display, ctx) |}) ;;
                  cur ← ask (EglMakeCurrent display (Some ctx));
                  if negb cur then nothing
                  else
                    ask GlLoad ;;
                    p1 ← ask (EglGetProc "eglCreateImageKHR");
                    if negb p1 then nothing
                    else
                      p2 ← ask (EglGetProc "eglDestroyImageKHR");
                      if negb p2 then nothing
                      else
                        p3 ← ask (EglGetProc "glEGLImageTargetTexture2DOES");
                        if negb p3 then nothing
                        else
                          image ← ask (EglCreateImage display
                                    (image_attribs prime_fd extra_planes width height stride offset
                                       drm_format modifier));
                          if image =? 0 then nothing
                          else read_image fuel display image width height stride
              end
          | _ => nothing
          end
  end.

Definition egl_readback (fuel : nat) (prime_fd : Z) (extra_planes : list PlaneData)
    (width height stride offset drm_format modifier : Z) : Db (list Z) :=
  drm_fd ← ask (Open "/dev/dri/renderD128");
  if drm_fd <? 0 then nothing
  else
    gbm ← ask (GbmCreate drm_fd);
    if gbm =? 0 then ask (Close drm_fd) ;; nothing
    else
      lib ← ask (DlOpen "libEGL.so.1");
      if negb lib then ask (GbmDestroy gbm) ;; ask (Close drm_fd) ;; nothing
      else
        inst ← ask EglLoad;
        if negb inst then ask (GbmDestroy gbm) ;; ask (Close drm_fd) ;; nothing
        else
          lr ← local {| display_to_terminate := None; ctx_to_destroy := None |}
                 (egl_body fuel gbm prime_fd extra_planes width height stride offset drm_format modifier);
          let '(l, r) := lr in
          match ctx_to_destroy l with
          | Some (display, ctx) =>
              ask (EglMakeCurrent display None) ;; ask (EglDestroyContext display ctx)
          | None => mret ()
          end ;;
          match display_to_terminate l with
          | Some display => ask (EglTerminate display)
          | None => mret ()
          end ;;
          ask (GbmDestroy gbm) ;;
          ask (Close drm_fd) ;;
          match r with Ok v => mret v | Err e => fail e end.

(** ** The pixels of a buffer *)

(** DRM, then GBM unless it gives nothing but zeros, then EGL. *)
Definition fallback (fuel : nat) (d : DmabufBufferData) (length : Z) : Db (list Z) :=
  let stride := as_s 32 (db_stride d) in
  v ← attempt (drm_readback (db_fd d) length (db_offset d));
  match v with
  | Ok v => mret v
  | Err DbNone =>
      g ← attempt (gbm_readback (db_fd d) (db_width d) (db_height d) stride (db_offset d) (db_modifier d));
      let egl :=
        egl_readback fuel (db_fd d) (db_extra_planes d) (db_width d) (db_height d) stride (db_offset d)
          (db_drm_format d) (db_modifier d) in
      match g with
      | Ok g => if some_byte g then mret g else egl
      | Err DbNone => egl
      | Err e => fail e
      end
  | Err e => fail e
  end.

(** What is done with the mapping [p] of the buffer's own descriptor. It has the [total] bytes
    that were asked for, so its end is not before the end of the slice. *)
Definition read_mapping (fuel : nat) (d : DmabufBufferData) (p total length : Z) : Db (list Z) :=
  bytes ← ask (MapBytes (db_fd d) p total);
  let slice := region bytes (db_offset d) length in
  if negb (some_byte slice) then
    wait_for_dmabuf_fence (db_fd d) ;;
    v ← attempt (amdgpu_gem_mmap (db_fd d) length (db_offset d));
    match v with
    | Ok v => if some_byte v then mret v else fallback fuel d length
    | Err DbNone => fallback fuel d length
    | Err e => fail e
    end
  else mret slice.

Definition with_bytes {R} (fuel : nat) (d : DmabufBufferData) (f : list Z -> R) : Db R :=
  match checked_u64 (usize (db_height d) * db_stride d) with
  | None => nothing
  | Some length =>
      if negb (db_modifier d =? DRM_FORMAT_MOD_LINEAR) then
        wait_for_dmabuf_fence (db_fd d) ;;
        each (db_extra_planes d) (fun p => wait_for_dmabuf_fence (pl_fd p)) ;;
        v ← egl_readback fuel (db_fd d) (db_extra_planes d) (db_width d) (db_height d)
              (as_s 32 (db_stride d)) (db_offset d) (db_drm_format d) (db_modifier d);
        mret (f v)
      else
        match checked_u64 (db_offset d + length) with
        | None => nothing
        | Some total =>
            wait_for_dmabuf_fence (db_fd d) ;;
            DmabufSyncGuard (db_fd d) (
              m ← ask (MapFd (db_fd d) total);
              match m with
              | Some p =>
                  finally (v ← read_mapping fuel d p total length; mret (f v)) (ask (MapDrop p total))
              | None => v ← fallback fuel d length; mret (f v)
              end)
        end
  end.

(** ** Which modifiers EGL imports *)

(** The modifiers of one format that are not for external textures only. *)
Definition query_format (display fourcc : Z) : Db (list Z) :=
  q ← ask (EglQueryModifiers display (as_s 32 fourcc) 0);
  let '(ok, count, _) := q in
  if (ok =? 0) || (count <=? 0) then mret []
  else
    q2 ← ask (EglQueryModifiers display (as_s 32 fourcc) count);
    let '(ok2, got, entries) := q2 in
    if ok2 =? 0 then mret []
    else if count <? usize got then fail DbPanics
    else
      let filled := take (Z.to_nat count) (entries ++ replicate (Z.to_nat count) (0, 0)) in
      mret ((filter (fun e => e.2 = 0) (take (Z.to_nat got) filled)).*1).

Definition query_egl_modifiers : Db (list Z) :=
  drm_fd ← ask (Open "/dev/dri/renderD128");
  if drm_fd <? 0 then nothing
  else
    gbm ← ask (GbmCreate drm_fd);
    if gbm =? 0 then ask (Close drm_fd) ;; nothing
    else
      lib ← ask (DlOpen "libEGL.so.1");
      if negb lib then nothing
      else
        inst ← ask EglLoad;
        if negb inst then nothing
        else
          d ← ask (EglPlatformDisplay gbm);
          match d with
          | None => nothing
          | Some display =>
              ok ← ask (EglInitialize display);
              if negb ok then nothing
              else
                raw ← ask (EglGetProc "eglQueryDmaBufModifiersEXT");
                if negb raw then nothing
                else
                  a ← query_format display DRM_FORMAT_ARGB8888;
                  b ← query_format display DRM_FORMAT_XRGB8888;
                  mret (a ++ b)
          end.
End Readback.

(** [Vec::dedup]: of equal neighbours the first stays. *)
Fixpoint dedup (l : list Z) : list Z :=
  match l with
  | [] => []
  | a :: l' =>
      match dedup l' with
      | [] => [a]
      | b :: r => if a =? b then a :: r else a :: b :: r
      end
  end.

(** [if !set.contains(&LINEAR) { push }; sort_unstable; dedup] *)
Definition with_linear (set : list Z) : list Z :=
  dedup (merge_sort Z.le
    (if bool_decide (DRM_FORMAT_MOD_LINEAR ∈ set) then set else set ++ [DRM_FORMAT_MOD_LINEAR])).

(** The state is the cell that is filled once. *)
Definition egl_importable_bgra_modifiers `{Driver db_call} :
    Eff (option (list Z) * list db_event) db_stop (list Z) :=
  cache ← here;
  match cache with
  | Some set => mret set
  | None =>
      q ← attempt query_egl_modifiers;
      match q with
      | Err DbPanics => fail DbPanics
      | _ =>
          let set := with_linear (match q with Ok l => l | Err _ => [] end) in
          change (fun _ => Some set) ;;
          mret set
      end
  end.
