(* ===== verification/DmabufParams.v ===== *)
(** * How clients make buffers
      ([crates/waymux-session/src/compositor.rs], [dmabuf.rs], [shm.rs])

    The handlers of [zwp_linux_dmabuf_v1] and its parameter objects, of [wl_drm], of single
    pixels and of shared-memory pools: what a client is told of formats, when its descriptors
    become a buffer, and who closes them. *)

From Stdlib Require Import ZArith Lia String.
From stdpp Require Import prelude strings list.
From S2P Require Import Prelude Words Composite SessionInput SessionRecord Driver Dmabuf.

Open Scope Z_scope.

(** ** Parameter objects *)

Record Plane := { p_fd : Z; p_offset : Z; p_stride : Z; p_modifier : Z }.

Record ParamsState := { planes : list (Z * Plane); used : bool }.

Definition params_default : ParamsState := {| planes := []; used := false |}.

(** The messages of [finalize_params]. *)
Inductive FinalizeError :=
| ParamsAlreadyUsed
| BadDimensions (width height : Z)
| ExceedMax (width height : Z)
| UnsupportedFormat (format : Z)
| NoPlane0.

(** What a request does to its surroundings. Descriptors are closed by the owner that drops
    them. *)
Inductive params_out :=
| PostAlreadyUsed
| CloseFd (fd : Z)
| CreatedBuffer (d : DmabufBufferData)
| CreateFailed
| InitDmabuf (id : nat) (d : DmabufBufferData)
| InitInvalid (id : nat).

Inductive params_request :=
| PAdd (fd plane_idx offset stride modifier_hi modifier_lo : Z)
| PCreate (width height format : Z) (room : bool)
| PCreateImmed (id : nat) (width height format : Z)
| PDestroy.

(** [sort_by_key(|(idx, _)| *idx)], which is stable. *)
Fixpoint insert_plane (p : Z * Plane) (l : list (Z * Plane)) : list (Z * Plane) :=
  match l with
  | [] => [p]
  | q :: l' => if p.1 <=? q.1 then p :: l else q :: insert_plane p l'
  end.

Definition sort_by_key (l : list (Z * Plane)) : list (Z * Plane) := foldr insert_plane [] l.

(** [DmabufBufferData::new]; [None] for the panic of [remove(0)]. *)
Definition DmabufBufferData_new (sorted_planes : list Plane) (width height drm_format : Z) :
    option DmabufBufferData :=
  match sorted_planes with
  | [] => None
  | plane0 :: rest =>
      Some {| db_fd := p_fd plane0; db_offset := p_offset plane0; db_stride := p_stride plane0;
              db_extra_planes :=
                (fun p => {| pl_fd := p_fd p; pl_offset := p_offset p; pl_stride := p_stride p |}) <$> rest;
              db_width := width; db_height := height; db_drm_format := drm_format;
              db_modifier := p_modifier plane0 |}
  end.

Definition MAX_DMABUF_DIM : Z := 16384.

(** The state afterwards, the descriptors that are closed, and the result. *)
Definition finalize_params (width height format : Z) (st : ParamsState) :
    ParamsState * list Z * result DmabufBufferData FinalizeError :=
  if used st then (st, [], Err ParamsAlreadyUsed)
  else
    let st := {| planes := planes st; used := true |} in
    if (width <=? 0) || (height <=? 0) then (st, [], Err (BadDimensions width height))
    else if (MAX_DMABUF_DIM <? width) || (MAX_DMABUF_DIM <? height) then
      (st, [], Err (ExceedMax width height))
    else if negb (format =? DRM_FORMAT_ARGB8888) && negb (format =? DRM_FORMAT_XRGB8888) then
      (st, [], Err (UnsupportedFormat format))
    else
      let taken := sort_by_key (planes st) in
      let st := {| planes := []; used := true |} in
      match taken with
      | (0, _) :: _ =>
          match DmabufBufferData_new taken.*2 width height format with
          | Some d => (st, [], Ok d)
          | None => (st, [], Err NoPlane0)
          end
      | _ => (st, p_fd <$> taken.*2, Err NoPlane0)
      end.

(** The descriptors of a buffer, closed in this order when it is dropped. *)
Definition buffer_fds (d : DmabufBufferData) : list Z := db_fd d :: (pl_fd <$> db_extra_planes d).

Definition params_handle (r : params_request) (st : ParamsState) : ParamsState * list params_out :=
  match r with
  | PAdd fd idx offset stride hi lo =>
      if used st then (st, [PostAlreadyUsed; CloseFd fd])
      else
        ({| planes := planes st ++
              [(idx, {| p_fd := fd; p_offset := offset; p_stride := stride;
                        p_modifier := Z.lor (Z.shiftl hi 32) lo |})];
            used := false |}, [])
  | PCreate w h format room =>
      match finalize_params w h format st with
      | (st, closed, Ok d) =>
          (* [create_resource] fails when the client is gone *)
          (st, (CloseFd <$> closed) ++
               (if room then [CreatedBuffer d] else (CloseFd <$> buffer_fds d) ++ [CreateFailed]))
      | (st, closed, Err _) => (st, (CloseFd <$> closed) ++ [CreateFailed])
      end
  | PCreateImmed id w h format =>
      match finalize_params w h format st with
      | (st, closed, Ok d) => (st, (CloseFd <$> closed) ++ [InitDmabuf id d])
      | (st, closed, Err _) => (st, (CloseFd <$> closed) ++ [InitInvalid id])
      end
  | PDestroy => (st, [])
  end.

(** The requests on one object, and its end. *)
Fixpoint params_run (rs : list params_request) (st : ParamsState) : ParamsState * list params_out :=
  match rs with
  | [] => (st, [])
  | r :: rs' =>
      let '(st, o) := params_handle r st in
      let '(st, o') := params_run rs' st in
      (st, o ++ o')
  end.

Definition params_drop (st : ParamsState) : list params_out := CloseFd <$> (p_fd <$> (planes st).*2).

(** ** What is advertised *)

Definition fourccs : list Z := [DRM_FORMAT_ARGB8888; DRM_FORMAT_XRGB8888].

(** One entry: format, padding, modifier, in the byte order of the machine. *)
Definition table_entry (fourcc m : Z) : list Z := to_le 4 fourcc ++ to_le 4 0 ++ to_le 8 m.

Definition format_table (mods : list Z) : list Z :=
  concat ((fun fourcc => concat (table_entry fourcc <$> mods)) <$> fourccs).

(** [memfd] and [written]: what [memfd_create] and [write] return. *)
Definition make_dmabuf_format_table (mods : list Z) (memfd : Z) (written : Z) : option (list Z * Z) :=
  if memfd <? 0 then None
  else
    let table := format_table mods in
    if negb (usize written =? len table) then None
    else Some (table, as_u 32 (len table)).

(** [rdev]: what [metadata] says of a path. *)
Definition drm_main_device_bytes (rdev : string -> option Z) : list Z :=
  match (rdev "/dev/dri/renderD128", rdev "/dev/dri/renderD129", rdev "/dev/dri/card0")%string with
  | (Some d, _, _) | (None, Some d, _) | (None, None, Some d) => to_le 8 d
  | _ => replicate 8 0
  end.

Inductive feedback_event :=
| FbFormatTable (table : list Z) (size : Z)
| FbMainDevice (dev : list Z)
| FbTrancheTargetDevice (dev : list Z)
| FbTrancheFormats (indices : list Z)
| FbTrancheFlags (flags : Z)
| FbTrancheDone
| FbDone.

Definition send_dmabuf_feedback (mods : list Z) (rdev : string -> option Z) (memfd written : Z) :
    list feedback_event :=
  let device := drm_main_device_bytes rdev in
  match make_dmabuf_format_table mods memfd written with
  | None => [FbDone]
  | Some (table, size) =>
      let entry_count := as_u 16 (2 * len mods) in
      [FbFormatTable table size; FbMainDevice device; FbTrancheTargetDevice device;
       FbTrancheFormats (concat (to_le 2 <$> seqZ 0 entry_count)); FbTrancheFlags 0; FbTrancheDone; FbDone]
  end.

Inductive bind_event := BindFormat (fourcc : Z) | BindModifier (fourcc hi lo : Z).

(** Binding [zwp_linux_dmabuf_v1] at version [v]. *)
Definition dmabuf_bind (v : Z) (mods : list Z) : list bind_event :=
  if v <? 4 then
    concat ((fun fourcc =>
      BindFormat fourcc ::
      (if 3 <=? v then
         (fun m => BindModifier fourcc (as_u 32 (Z.shiftr m 32)) (as_u 32 (Z.land m 0xFFFFFFFF))) <$> mods
       else [])) <$> fourccs)
  else [].

Inductive dmabuf_request := CreateParams (id : nat) | GetDefaultFeedback (id : nat) | GetSurfaceFeedback (id : nat)
  | DmabufDestroy.

Inductive dmabuf_out := InitParams (id : nat) (st : ParamsState) | Feedback (id : nat) (l : list feedback_event).

Definition dmabuf_handle (mods : list Z) (rdev : string -> option Z) (memfd written : Z) (r : dmabuf_request) :
    list dmabuf_out :=
  match r with
  | CreateParams id => [InitParams id params_default]
  | GetDefaultFeedback id | GetSurfaceFeedback id => [Feedback id (send_dmabuf_feedback mods rdev memfd written)]
  | DmabufDestroy => []
  end.

(** ** [wl_drm] *)

Definition wl_drm_device_path (path_exists : string -> bool) : string :=
  default "/dev/dri/card0"
    (List.find path_exists
       ["/dev/dri/renderD128"; "/dev/dri/renderD129"; "/dev/dri/renderD130"; "/dev/dri/renderD134"])%string.

Inductive wl_drm_out :=
| DrmDevice (path : string)
| DrmFormat (fourcc : Z)
| DrmCapabilities (bits : Z)
| DrmAuthenticated
| DrmInitInvalid (id : nat)
| DrmInvalidName
| DrmClose (fd : Z).

Definition wl_drm_bind (path_exists : string -> bool) : list wl_drm_out :=
  [DrmDevice (wl_drm_device_path path_exists); DrmFormat DRM_FORMAT_ARGB8888; DrmFormat DRM_FORMAT_XRGB8888;
   DrmCapabilities 1].

Inductive wl_drm_request :=
| DrmAuthenticate
| DrmCreateBuffer (id : nat)
| DrmCreatePlanarBuffer (id : nat)
| DrmCreatePrimeBuffer (id : nat) (fd : Z).

Definition wl_drm_handle (r : wl_drm_request) : list wl_drm_out :=
  match r with
  | DrmAuthenticate => [DrmAuthenticated]
  | DrmCreateBuffer id | DrmCreatePlanarBuffer id => [DrmInitInvalid id; DrmInvalidName]
  | DrmCreatePrimeBuffer id fd => [DrmInitInvalid id; DrmInvalidName; DrmClose fd]
  end.

(** ** Single pixels *)

Definition create_u32_rgba_buffer (r g b a : Z) : BufferKind :=
  SinglePixel (as_u 8 (Z.shiftr b 24)) (as_u 8 (Z.shiftr g 24)) (as_u 8 (Z.shiftr r 24)) (as_u 8 (Z.shiftr a 24)).

(** ** Shared-memory pools

    A pool maps the client's file for as many bytes as the client says. The file itself is the
    client's: a position of the mapping on a page past its end kills who touches it. *)

Record ShmPool := { sp_fd : Z; sp_map : option Z; sp_size : Z }.

(** [can_map]: whether [mmap] of so many bytes succeeds. *)
Definition ShmPoolData_new (can_map : Z -> bool) (fd size : Z) : ShmPool :=
  let size := Z.max size 0 in
  {| sp_fd := fd; sp_map := if (0 <? size) && can_map size then Some size else None; sp_size := size |}.

Definition resize (can_map : Z -> bool) (new_size : Z) (p : ShmPool) : ShmPool :=
  let new_size := Z.max new_size 0 in
  if sp_size p <? new_size then
    {| sp_fd := sp_fd p; sp_map := if can_map new_size then Some new_size else None; sp_size := new_size |}
  else p.

Inductive access A := Accessed (a : A) | SigBus.
Arguments Accessed {A} a.
Arguments SigBus {A}.

(** The bytes of the pages that the file has. *)
Definition PAGE : Z := 4096.
Definition page_end (file : list Z) : Z := (len file + PAGE - 1) / PAGE * PAGE.

(** Bytes [\[offset, offset + n)] of a mapping of [file]. *)
Definition touch (file : list Z) (offset n : Z) : access (list Z) :=
  if (0 <? n) && (page_end file <? offset + n) then SigBus
  else Accessed (take (Z.to_nat n) (drop (Z.to_nat offset) (file ++ replicate (Z.to_nat (page_end file)) 0))).

(** [ShmPoolData::with_bytes] *)
Definition shm_with_bytes {R} (file : list Z) (offset length : Z) (f : list Z -> R) (p : ShmPool) :
    option (access R) :=
  if offset <? 0 then None
  else
    m ← sp_map p;
    end' ← checked_u64 (offset + length);
    if m <? end' then None
    else
      Some (match touch file offset length with Accessed b => Accessed (f b) | SigBus => SigBus end).

(** [ShmPoolData::write_bytes], on a mapping of its own: the file afterwards. *)
Definition shm_write_bytes (can_map : Z -> bool) (file : list Z) (offset : Z) (src : list Z) (p : ShmPool) :
    option (access (list Z)) :=
  if offset <? 0 then None
  else
    end' ← checked_u64 (offset + len src);
    if sp_size p <? end' then None
    else if negb (can_map (sp_size p)) then None
    else
      Some (match touch file offset (len src) with
            | SigBus => SigBus
            | Accessed _ => Accessed (take (List.length file) (overwrite (Z.to_nat offset) src
                                        (file ++ replicate (Z.to_nat (page_end file)) 0)))
            end).

(** The requests on a pool. *)
Inductive pool_request := PoolResize (size : Z) | PoolCreateBuffer (offset width height stride : Z) (format : Format)
  | PoolDestroy.

Record shm_buffer := { sb_offset : Z; sb_width : Z; sb_height : Z; sb_stride : Z; sb_format : Format }.

Definition pool_handle (can_map : Z -> bool) (r : pool_request) (p : ShmPool) : ShmPool * option shm_buffer :=
  match r with
  | PoolResize size => (resize can_map size p, None)
  | PoolCreateBuffer offset width height stride format =>
      (p, Some {| sb_offset := offset; sb_width := width; sb_height := height; sb_stride := stride;
                  sb_format := format |})
  | PoolDestroy => (p, None)
  end.
