(* ===== verification/DmabufProps.v ===== *)
(** * Reading a dmabuf keeps to its resources

    Whichever way the pixels are reached and whatever fails on it, descriptors, mappings, GBM
    and EGL objects are released, the bracket of CPU access is closed, and nothing is written
    outside of its buffer; and the buffers and drivers with which that is not so. *)

From Stdlib Require Import ZArith Lia String.
From stdpp Require Import prelude strings list sorting gmultiset.
From S2P Require Import Prelude Words Composite SessionInput SessionRecord Driver Dmabuf DmabufParams.

Open Scope Z_scope.

(** ** What is alive *)

Inductive db_res :=
| RFd (fd : Z)
| RSync (fd : Z)
| RMap (p length : Z)
| RGbm (gbm : Z)
| RBo (bo : Z)
| RBoMap (bo data : Z)
| RDisplay (display : Z)
| RCtx (display ctx : Z)
| RImage (image : Z)
| RTexture (texture : Z)
| RFbo (fbo : Z).

#[global] Instance db_res_eq_dec : EqDecision db_res.
Proof. solve_decision. Defined.

#[global] Instance db_res_countable : Countable db_res.
Proof.
  refine (inj_countable'
    (fun r => match r with
     | RFd a => (0, a, 0) | RSync a => (1, a, 0) | RMap a b => (2, a, b) | RGbm a => (3, a, 0)
     | RBo a => (4, a, 0) | RBoMap a b => (5, a, b) | RDisplay a => (6, a, 0) | RCtx a b => (7, a, b)
     | RImage a => (8, a, 0) | RTexture a => (9, a, 0) | RFbo a => (10, a, 0) end%Z)
    (fun '(k, a, b) => match k with
     | 0 => RFd a | 1 => RSync a | 2 => RMap a b | 3 => RGbm a | 4 => RBo a | 5 => RBoMap a b
     | 6 => RDisplay a | 7 => RCtx a b | 8 => RImage a | 9 => RTexture a | _ => RFbo a end%Z) _).
  by intros [].
Defined.

Abbreviation db_live := (gmultiset db_res).

Definition has (r : db_res) (L : db_live) : bool := bool_decide (r ∈ L).

(** There is a context for GL calls. *)
Definition in_gl (L : db_live) : bool :=
  existsb (fun r => match r with RCtx _ _ => true | _ => false end) (elements L).

(** Acquired if [none] is false. *)
Definition got (none : bool) (r : db_res) (L : db_live) : option db_live :=
  Some (if none then L else {[+ r +]} ⊎ L).
Definition got_some (a : option Z) (r : Z -> db_res) (L : db_live) : option db_live :=
  Some (match a with Some a => {[+ r a +]} ⊎ L | None => L end).

Definition import_fd (w : GbmImport) : Z :=
  match w with
  | GBM_BO_IMPORT_FD_MODIFIER _ _ _ _ fds _ _ _ => default (-1) (head fds)
  | GBM_BO_IMPORT_FD fd _ _ _ _ => fd
  end.

#[export] Instance db_effects : Effects db_call db_res := fun e L =>
  match e with
  | Ev _ c a =>
      match c in db_call T return T -> option db_live with
      | Open _ => fun fd => got (fd <? 0) (RFd fd) L
      | Close fd => fun _ => release (RFd fd) L
      | IoctlSync fd flags => fun _ =>
          provided (has (RFd fd) L)
            (if Z.testbit flags 2 then release (RSync fd) L else acquire (RSync fd) L)
      | ExportSyncFile fd _ => fun r =>
          provided (has (RFd fd) L) (got (negb (r.1 =? 0) || (r.2 <? 0)) (RFd r.2) L)
      | Poll fd _ => fun _ => borrow (RFd fd) L
      | PrimeFdToHandle drm prime => fun _ => provided (has (RFd drm) L && has (RFd prime) L) (Some L)
      | AmdgpuGemMmap drm _ => fun _ => borrow (RFd drm) L
      | ModeMapDumb drm _ => fun _ => borrow (RFd drm) L
      | Mmap fd n _ => fun p => provided (has (RFd fd) L) (got_some p (fun p => RMap p n) L)
      | Munmap p n => fun _ => release (RMap p n) L
      | PtrBytes p n => fun _ => borrow (RMap p n) L
      | MapFd fd n => fun p => provided (has (RFd fd) L) (got_some p (fun p => RMap p n) L)
      | MapBytes fd p n => fun _ => provided (has (RSync fd) L) (borrow (RMap p n) L)
      | MapDrop p n => fun _ => release (RMap p n) L
      | GbmCreate fd => fun g => provided (has (RFd fd) L) (got (g =? 0) (RGbm g) L)
      | GbmDestroy g => fun _ => release (RGbm g) L
      | GbmBoImport g w _ => fun b =>
          provided (has (RGbm g) L && has (RFd (import_fd w)) L) (got (b =? 0) (RBo b) L)
      | GbmBoMap bo _ _ _ => fun r =>
          provided (has (RBo bo) L) (got_some r.1.1 (fun _ => RBoMap bo r.2) L)
      | GbmBoUnmap bo data => fun _ => release (RBoMap bo data) L
      | GbmBoDestroy bo => fun _ => release (RBo bo) L
      | BoBytes bo data _ => fun _ => borrow (RBoMap bo data) L
      | EglPlatformDisplay g => fun _ => borrow (RGbm g) L
      | EglInitialize d => fun b => got (negb b) (RDisplay d) L
      | EglTerminate d => fun _ => release (RDisplay d) L
      | EglChooseConfig d => fun _ => borrow (RDisplay d) L
      | EglCreateContext d _ => fun c =>
          provided (has (RDisplay d) L) (got_some c (RCtx d) L)
      | EglMakeCurrent d c => fun _ =>
          provided (has (RDisplay d) L) (match c with Some c => borrow (RCtx d c) L | None => Some L end)
      | EglDestroyContext d c => fun _ => release (RCtx d c) L
      | EglCreateImage d _ => fun i => provided (has (RDisplay d) L) (got (i =? 0) (RImage i) L)
      | EglDestroyImage d i => fun _ => provided (has (RDisplay d) L) (release (RImage i) L)
      | EglQueryModifiers d _ _ => fun _ => borrow (RDisplay d) L
      | GlGetError | GlFinish => fun _ => provided (in_gl L) (Some L)
      | GlGenTexture => fun x => provided (in_gl L) (acquire (RTexture x) L)
      | GlTextureSetUp x i => fun _ => provided (in_gl L && has (RTexture x) L && has (RImage i) L) (Some L)
      | GlDeleteTexture x => fun _ => provided (in_gl L) (release (RTexture x) L)
      | GlGenFramebuffer => fun f => provided (in_gl L) (acquire (RFbo f) L)
      | GlFramebufferTexture f x => fun _ => provided (in_gl L && has (RFbo f) L && has (RTexture x) L) (Some L)
      | GlFramebufferStatus f => fun _ => provided (in_gl L && has (RFbo f) L) (Some L)
      | GlDeleteFramebuffer f => fun _ => provided (in_gl L) (release (RFbo f) L)
      | GlReadPixels w h capacity => fun _ => provided (in_gl L && (4 * w * h <=? capacity)) (Some L)
      | _ => fun _ => Some L
      end a
  end.

Lemma db_has_in r L : r ∈ L -> has r L = true.
Proof. apply bool_decide_eq_true_2. Qed.

Lemma in_gl_in d c L : RCtx d c ∈ L -> in_gl L = true.
Proof.
  intros Hc. apply existsb_exists. exists (RCtx d c). split; [|done].
  apply list_elem_of_In. by apply gmultiset_elem_of_elements.
Qed.

Ltac db_side :=
  rewrite ?andb_true_iff;
  repeat match goal with |- _ /\ _ => split end;
  try lazymatch goal with
  | |- has _ _ = true => apply db_has_in; there
  | |- in_gl ?L = true => lazymatch L with context [RCtx ?d ?c] => apply (in_gl_in d c); there
      | _ => lazymatch goal with Hc : RCtx ?d ?c ∈ _ |- _ => apply (in_gl_in d c); there end end
  | |- (_ <=? _) = true => apply Z.leb_le
  end.

Ltac db_effect :=
  lazymatch goal with
  | |- effect (Ev _ _ _) _ = Some _ =>
      cbn [effect db_effects import_fd head default];
      try (rewrite provided_true; [|db_side]);
      try lazymatch goal with |- context [Z.testbit ?f 2] =>
        let b := eval compute in (Z.testbit f 2) in change (Z.testbit f 2) with b; cbv iota end;
      try lazymatch goal with
      | |- borrow _ _ = Some _ => apply borrow_alive; there
      | |- release _ _ = Some _ => release_now
      | |- got _ _ _ = Some _ => reflexivity
      | |- Some _ = Some _ => reflexivity
      | |- acquire _ _ = Some _ => reflexivity
      | |- got_some _ _ _ = Some _ => reflexivity
      end
  end.

(** A test of an answer decides what the call acquired. *)
Ltac db_null :=
  match goal with
  | E : negb _ = true |- _ => apply negb_true_iff in E
  | E : negb _ = false |- _ => apply negb_false_iff in E
  | E : ?b = true |- context [if ?b then _ else _] => rewrite E
  | E : ?b = false |- context [if ?b then _ else _] => rewrite E
  | E : ?a = Some _ |- context [match ?a with Some _ => _ | None => _ end] => rewrite E
  | E : ?a = None |- context [match ?a with Some _ => _ | None => _ end] => rewrite E
  end.

Section Local.
Context `{Driver db_call}.
Context (L0 : db_live).

Lemma safe_local {X Y E E' A} (y : Y) (m : Eff (Y * list db_event) E A) (x : X) L
    (Q : X -> db_live -> result (Y * result A E) E' -> Prop) :
  safe L0 m y L (fun y' L' r => Q x L' (Ok (y', r))) -> safe L0 (local y m) x L Q.
Proof.
  intros Hm t Ht. specialize (Hm t Ht). unfold local. by destruct (m (y, t)) as [[y' t'] r].
Qed.

Lemma safe_finally {X E A} (m : Eff (X * list db_event) E A) fin x L (Q : X -> db_live -> result A E -> Prop) :
  safe L0 m x L (fun x' L' r =>
    safe L0 fin x' L' (fun x'' L'' u => Q x'' L'' (match u with Ok _ => r | Err e => Err e end))) ->
  safe L0 (finally m fin) x L Q.
Proof.
  intros Hm. unfold finally. apply safe_bind, safe_attempt. eapply safe_mono; [apply Hm|].
  intros x' L' r Hf. apply safe_bind. eapply safe_mono; [apply Hf|].
  intros x'' L'' [u|e] Hr; [|done]. destruct r; [by apply safe_ret|by apply safe_fail].
Qed.
End Local.

Ltac db_step := first [apply safe_local | progress db_null | safe_step | db_effect].
Ltac db_run := repeat db_step.

Section Safe.
Context `{Driver db_call}.
Context (L0 : db_live).

Abbreviation keeps x L := (fun x' L' _ => x' = x /\ L' = L).

Lemma fence_safe {X} (x : X) fd L :
  RFd fd ∈ L -> safe L0 (wait_for_dmabuf_fence fd) x L (fun x' L' r => x' = x /\ L' = L /\ r = Ok ()).
Proof. intros Hf. unfold wait_for_dmabuf_fence, wait_for_dmabuf_fence_status. db_run; auto. Qed.

Lemma ready_safe {X} (x : X) fd L :
  RFd fd ∈ L -> safe L0 (dmabuf_fence_ready_now fd) x L (keeps x L).
Proof. intros Hf. unfold dmabuf_fence_ready_now. db_run; auto. Qed.

(** [None] is the only way to fail. *)
Abbreviation keeps_none x L := (fun x' L' r => x' = x /\ L' = L /\ forall e, r = Err e -> e = DbNone).

Lemma first_node_safe {X} (x : X) paths read L :
  (forall fd, 0 <= fd -> safe L0 (read fd) x ({[+ RFd fd +]} ⊎ L) (keeps_none x L)) ->
  safe L0 (first_node paths read) x L (keeps_none x L).
Proof.
  intros Hr. induction paths as [|p paths IH]; cbn [first_node]; db_run; try by naive_solver.
  eapply safe_mono; [apply Hr; lia|]. intros x' L' [[v|]|e] (-> & -> & He); db_run; naive_solver.
Qed.

Lemma node_safe {X} (x : X) to_offset drm prime n off L :
  to_offset = AmdgpuGemMmap \/ to_offset = ModeMapDumb -> RFd prime ∈ L ->
  safe L0 (map_through_node to_offset drm prime n off) x ({[+ RFd drm +]} ⊎ L) (keeps_none x L).
Proof. intros [-> | ->] Hp; unfold map_through_node; db_run; auto; naive_solver. Qed.

Lemma amdgpu_safe {X} (x : X) fd n off L :
  RFd fd ∈ L -> safe L0 (amdgpu_gem_mmap fd n off) x L (keeps_none x L).
Proof. intros Hf. apply first_node_safe. intros drm _. apply node_safe; auto. Qed.

Lemma drm_safe {X} (x : X) fd n off L :
  RFd fd ∈ L -> safe L0 (drm_readback fd n off) x L (keeps_none x L).
Proof. intros Hf. apply first_node_safe. intros drm _. apply node_safe; auto. Qed.

(** ** GBM *)

(** GBM maps with rows not shorter than the buffer's own. *)
Definition gbm_rows (stride : Z) : Prop := forall t bo w h flags,
  match respond _ t (GbmBoMap bo w h flags) with
  | (Some _, map_stride, _) => stride <= as_u 32 map_stride
  | (None, _, _) => True
  end.

(** And not more than the code is ready to read. *)
Definition gbm_fits (height stride : Z) : Prop := gbm_rows stride /\ forall t bo w h flags,
  match respond _ t (GbmBoMap bo w h flags) with
  | (Some _, map_stride, _) => height * as_u 32 map_stride <= MAX_DMABUF_LEN
  | (None, _, _) => True
  end.

(** What a readback through GBM leaves open: nothing, or a buffer object with its device and
    node; and these and the mapping when it panics. *)
Definition left_open {A} (r : result A db_stop) (M : db_live) : Prop :=
  match r with
  | Err DbPanics => exists bo data gbm fd,
      M = {[+ RBoMap bo data +]} ⊎ ({[+ RBo bo +]} ⊎ ({[+ RGbm gbm +]} ⊎ {[+ RFd fd +]}))
  | _ => M = ∅ \/ exists bo gbm fd, M = {[+ RBo bo +]} ⊎ ({[+ RGbm gbm +]} ⊎ {[+ RFd fd +]})
  end.

(** How a readback through GBM ends. *)
Definition gbm_post {X A} (height stride : Z) (x : X) (L : db_live) (x' : X) (L' : db_live) (r : result A db_stop) : Prop :=
  x' = x /\ r <> Err DbFuel /\ (gbm_rows stride -> r <> Err DbPanics) /\
  exists M, L' = M ⊎ L /\ left_open r M /\ (gbm_fits height stride -> M = ∅).

Lemma gbm_kept {X A} height stride (x : X) L (r : result A db_stop) :
  (forall e, r = Err e -> e = DbNone) -> gbm_post height stride x L x L r.
Proof.
  intros Hr. split_and!; [done|by intros ?%Hr|by intros _ ?%Hr|]. exists ∅. split; [multiset_solver|].
  split; [|done]. destruct r as [|[| |]]; [by left|by left|by specialize (Hr _ eq_refl)|by left].
Qed.

Lemma bounded_len_ok h s : 0 <= h < 2 ^ 31 -> 0 <= s < 2 ^ 31 -> h * s <= MAX_DMABUF_LEN ->
  bounded_len h s = Some (h * s).
Proof.
  intros Hh Hs Hm. unfold bounded_len, checked_u64. rewrite !as_u_id by (unfold in_u; lia).
  rewrite (proj2 (Z.ltb_lt _ _)) by (unfold MAX_DMABUF_LEN in Hm; lia). cbn.
  by rewrite (proj2 (Z.leb_le _ _)).
Qed.

Lemma bounded_len_inv h s n : bounded_len h s = Some n -> n = usize h * usize s /\ n <= MAX_DMABUF_LEN.
Proof.
  unfold bounded_len, checked_u64. destruct (_ <? _); [|done]. cbn. destruct (_ <=? _) eqn:E; [|done].
  intros [= <-]. split; [done|by apply Z.leb_le].
Qed.

Lemma bounded_stride h s n :
  1 <= h < 2 ^ 31 -> in_s 32 s -> bounded_len h s = Some n -> 0 <= s /\ n = h * s /\ h * s <= MAX_DMABUF_LEN.
Proof.
  intros Hh Hs [-> Hm]%bounded_len_inv. rewrite (as_u_id 64 h) in * by (unfold in_u; lia).
  destruct (decide (0 <= s)) as [H0|Hn]; [rewrite as_u_id in * by (unfold in_u, in_s in *; lia); lia|exfalso].
  unfold in_s, MAX_DMABUF_LEN, as_u in *.
  assert (E : s mod 2 ^ 64 = s + 2 ^ 64) by (symmetry; apply Z.mod_unique with (q := -1); lia). nia.
Qed.

Lemma copy_rows_some rows mstride stride h src out :
  0 <= stride <= mstride -> mstride < 2 ^ 31 -> h < 2 ^ 31 -> Forall (fun r => 0 <= r < h) rows -> len out = h * stride ->
  exists out', copy_rows rows mstride stride (h * mstride) src out = Some out' /\ len out' = h * stride.
Proof.
  intros Hs Hm Hh Hr. revert out. induction Hr as [|r rows [Hr1 Hr2] _ IH]; intros out Ho; cbn [copy_rows]; [eauto|].
  rewrite !as_u_id by (unfold in_u; nia).
  rewrite (proj2 (Z.ltb_ge _ _)) by nia. rewrite (proj2 (Z.ltb_ge _ _)) by nia. cbn [orb]. apply IH.
  rewrite <- Ho. unfold len. f_equal. rewrite length_overwrite; [done|].
  unfold region. rewrite length_fmap, length_seqZ. unfold len in *. nia.
Qed.

Lemma copied_or_not {A} (o : option A) : (exists a, o = Some a) \/ o = None.
Proof. destruct o; eauto. Qed.

Lemma gbm_map_safe {X} (x : X) bo gbm drm w h stride n L :
  1 <= h < 2 ^ 31 -> in_s 32 stride -> bounded_len h stride = Some n ->
  safe L0 (gbm_map_and_read bo gbm drm w h stride n) x
    ({[+ RBo bo +]} ⊎ ({[+ RGbm gbm +]} ⊎ ({[+ RFd drm +]} ⊎ L)))
    (gbm_post h stride x L).
Proof.
  intros Hh Hs Hb. destruct (bounded_stride h stride n Hh Hs Hb) as (Hs0 & -> & Hm).
  unfold gbm_map_and_read. db_step. apply safe_ask_law. intros t.
  destruct (respond _ t _) as [[[p|] ms0] data] eqn:Er; eexists; (split; [db_effect|]); cbn [fst snd].
  2: { db_run; apply gbm_kept; naive_solver. }
  set (ms := as_u 32 ms0). assert (Hms : 0 <= ms < 2 ^ 32) by (apply as_u_range; lia).
  assert (Hrows : gbm_rows stride -> stride <= ms).
  { intros Hg. specialize (Hg t bo (as_u 32 w) (as_u 32 h) GBM_BO_TRANSFER_READ). by rewrite Er in Hg. }
  assert (Hfit : gbm_fits h stride -> bounded_len h ms = Some (h * ms)).
  { intros [_ Hg]. specialize (Hg t bo (as_u 32 w) (as_u 32 h) GBM_BO_TRANSFER_READ). rewrite Er in Hg.
    apply bounded_len_ok; unfold MAX_DMABUF_LEN in *; nia. }
  assert (Hpanic : ~ stride <= ms -> forall L', L' = {[+ RBoMap bo data +]} ⊎ ({[+ RBo bo +]} ⊎ ({[+ RGbm gbm +]} ⊎ ({[+ RFd drm +]} ⊎ L))) ->
    gbm_post (A := list Z) h stride x L x L' (Err DbPanics)).
  { intros Hn L' ->. split_and!; [done|done|by intros ?%Hrows|].
    exists ({[+ RBoMap bo data +]} ⊎ ({[+ RBo bo +]} ⊎ ({[+ RGbm gbm +]} ⊎ {[+ RFd drm +]}))).
    split; [multiset_solver|]. split; [by eexists _, _, _, _|]. intros [Hg _]. by apply Hrows in Hg. }
  destruct (bounded_len h ms) as [n|] eqn:Eb.
  - apply bounded_len_inv in Eb as [-> Eb]. rewrite (as_u_id 64 h) in * by (unfold in_u; lia).
    rewrite (as_u_id 64 ms) in * by (unfold in_u; lia). rewrite (as_u_id 64 stride) by (unfold in_u, in_s in *; lia).
    rewrite (as_s_id 32 ms) by (unfold in_s, MAX_DMABUF_LEN in *; nia).
    db_step. db_step; [db_effect|]. db_step. destruct (ms =? stride) eqn:E.
    + apply Z.eqb_eq in E as E'. rewrite E', Z.ltb_irrefl. db_run; apply gbm_kept; naive_solver.
    + destruct (decide (stride <= ms)) as [Hle|Hn].
      * destruct (copy_rows_some (seqZ 0 h) ms stride h a (replicate (Z.to_nat (h * stride)) 0)) as (o & -> & _);
          try (unfold MAX_DMABUF_LEN in *; nia); [|by unfold len; rewrite length_replicate; lia|db_run; apply gbm_kept; naive_solver].
        apply list.Forall_forall. intros r Hr. apply elem_of_seqZ in Hr. lia.
      * destruct (copied_or_not (copy_rows (seqZ 0 h) ms stride (h * ms) a (replicate (Z.to_nat (h * stride)) 0))) as [[o ->] | ->];
          [db_run; apply gbm_kept; naive_solver|]. apply safe_fail. by apply Hpanic.
  - db_step. db_step; [db_effect|]. apply safe_fail. split_and!; [done..|].
    exists ({[+ RBo bo +]} ⊎ ({[+ RGbm gbm +]} ⊎ {[+ RFd drm +]})). split; [multiset_solver|]. split.
    + right. by eexists _, _, _.
    + intros Hg%Hfit. congruence.
Qed.

Lemma gbm_safe {X} (x : X) fd w h stride off m L :
  1 <= h < 2 ^ 31 -> in_s 32 stride -> RFd fd ∈ L ->
  safe L0 (gbm_readback fd w h stride off m) x L (gbm_post h stride x L).
Proof.
  intros Hh Hs Hf. unfold gbm_readback. destruct (bounded_len h stride) as [n|] eqn:E;
    [|apply safe_fail, gbm_kept; naive_solver].
  db_run; auto; first [by apply gbm_map_safe | apply gbm_kept; naive_solver].
Qed.

(** ** EGL *)

Lemma drain_errors_safe {X} (x : X) fuel d c L :
  RCtx d c ∈ L ->
  safe L0 (drain_errors fuel) x L (fun x' L' r => x' = x /\ L' = L /\ (r = Ok () \/ r = Err DbFuel)).
Proof. intros Hc. induction fuel as [|fuel IH]; cbn [drain_errors]; db_run; auto. Qed.

(** [M] is what is left alive, if [glGetError] never stops answering with errors. *)
Abbreviation only_endless r M := (r <> Err DbFuel -> M = ∅).

Lemma read_image_safe (x : EglLocals) fuel d c image w h stride L :
  1 <= w -> 1 <= h < 2 ^ 31 -> in_s 32 stride -> (0 <= stride -> 4 * w <= stride) -> RCtx d c ∈ L -> RDisplay d ∈ L ->
  safe L0 (read_image fuel d image w h stride) x ({[+ RImage image +]} ⊎ L)
    (fun x' L' r => x' = x /\ r <> Err DbPanics /\ exists M, L' = M ⊎ L /\ only_endless r M).
Proof.
  intros Hw Hh Hs Hst Hc Hd. unfold read_image. db_step.
  eapply safe_mono; [apply (drain_errors_safe x fuel d c); there|].
  intros x' L' r (-> & -> & [-> | ->]); [|split_and!; [done|done|by eexists; split; [reflexivity|]]].
  db_run; try (split_and!; [done|done|exists ∅; split; [multiset_solver|done]]).
  match goal with E : bounded_len _ _ = Some _ |- _ => apply (bounded_stride _ _ _ Hh Hs) in E as (? & -> & _) end.
  nia.
Qed.

(** The locals say what is to be released. *)
Definition egl_held (l : EglLocals) (L : db_live) : db_live :=
  match display_to_terminate l, ctx_to_destroy l with
  | Some d, Some (d', c) => {[+ RCtx d' c +]} ⊎ ({[+ RDisplay d +]} ⊎ L)
  | Some d, None => {[+ RDisplay d +]} ⊎ L
  | None, _ => L
  end.

(** A context is one of the display. *)
Definition egl_locals_ok (l : EglLocals) : Prop :=
  match ctx_to_destroy l with Some (d, _) => display_to_terminate l = Some d | None => True end.

Lemma egl_body_safe fuel gbm fd planes w h stride off fmt m L :
  1 <= w -> 1 <= h < 2 ^ 31 -> in_s 32 stride -> (0 <= stride -> 4 * w <= stride) -> RGbm gbm ∈ L ->
  safe L0 (egl_body fuel gbm fd planes w h stride off fmt m)
    {| display_to_terminate := None; ctx_to_destroy := None |} L
    (fun l L' r => egl_locals_ok l /\ r <> Err DbPanics /\
       exists M, L' = egl_held l (M ⊎ L) /\ only_endless r M).
Proof.
  intros Hw Hh Hs Hst Hg. unfold egl_body.
  db_run; try (split_and!; [done|done|exists ∅; split; [unfold egl_held; cbn [display_to_terminate ctx_to_destroy]; multiset_solver|done]]).
  eapply safe_mono; [eapply read_image_safe; try done; there|].
  intros l L' r (-> & Hp & M & -> & HM). split_and!; [done|done|]. exists M. split; [|done].
  unfold egl_held. cbn [display_to_terminate ctx_to_destroy]. multiset_solver.
Qed.

Lemma egl_safe {X} (x : X) fuel fd planes w h stride off fmt m L :
  1 <= w -> 1 <= h < 2 ^ 31 -> in_s 32 stride -> (0 <= stride -> 4 * w <= stride) ->
  safe L0 (egl_readback fuel fd planes w h stride off fmt m) x L
    (fun x' L' r => x' = x /\ r <> Err DbPanics /\ exists M, L' = M ⊎ L /\ only_endless r M).
Proof.
  intros Hw Hh Hs Hst. unfold egl_readback.
  repeat lazymatch goal with
    | |- safe _ (local _ _) _ _ _ => fail
    | |- _ => db_step
    end; try (split_and!; [done|done|exists ∅; split; [multiset_solver|done]]).
  apply safe_local. eapply safe_mono; [apply egl_body_safe; try done; there|].
  intros [[d|] [[d' c]|]] L' r (Hl & Hp & M & -> & HM); unfold egl_locals_ok, egl_held in *;
    cbn [display_to_terminate ctx_to_destroy] in *; simplify_eq; db_run; eauto.
Qed.

(** ** A buffer *)

(** A buffer whose rows have room for their pixels, of the sizes the parameter objects accept. *)
Definition buffer_ok (d : DmabufBufferData) : Prop :=
  1 <= db_width d /\ 1 <= db_height d <= MAX_DMABUF_DIM /\ 4 * db_width d <= db_stride d < 2 ^ 32 /\
  0 <= db_offset d < 2 ^ 32.

Definition buffer_alive (d : DmabufBufferData) (L : db_live) : Prop := Forall (fun fd => RFd fd ∈ L) (buffer_fds d).

(** How reading a buffer ends: [M] is what GBM was left with, [N] what EGL was. *)
Definition readback_post {X A} (d : DmabufBufferData) (x : X) (L : db_live) (x' : X) (L' : db_live)
    (r : result A db_stop) : Prop :=
  let stride := as_s 32 (db_stride d) in
  x' = x /\ (gbm_rows stride -> r <> Err DbPanics) /\
  exists M N, L' = M ⊎ (N ⊎ L) /\ left_open r M /\ (gbm_fits (db_height d) stride -> M = ∅) /\ only_endless r N.

Lemma left_open_not_panic {A B} (r : result A db_stop) (r' : result B db_stop) M :
  r <> Err DbPanics -> r' <> Err DbPanics -> left_open r M -> left_open r' M.
Proof. by destruct r as [|[]], r' as [|[]]. Qed.

Lemma kept {X A} d (x : X) (L : db_live) (r : result A db_stop) : r <> Err DbPanics -> readback_post d x L x L r.
Proof.
  intros Hr. split_and!; [done|done|]. exists ∅, ∅. split; [multiset_solver|].
  split; [destruct r as [|[]]; try done; by left|done].
Qed.

(** EGL is asked when GBM has nothing to offer. *)
Lemma after_gbm {X A} d (x x' : X) (L L' M : db_live) (r : result A db_stop) :
  left_open (A := A) (Err DbNone) M -> (gbm_fits (db_height d) (as_s 32 (db_stride d)) -> M = ∅) ->
  x' = x -> r <> Err DbPanics -> (exists N, L' = N ⊎ (M ⊎ L) /\ only_endless r N) -> readback_post d x L x' L' r.
Proof.
  intros Ho Hm -> Hr (N & -> & HN). split_and!; [done|done|]. exists M, N. split; [multiset_solver|].
  split_and!; [by apply (left_open_not_panic (A := A) (Err DbNone))|done|done].
Qed.

(** The closure runs on what was read. *)
Lemma post_map {X A B} d (x x' : X) (L L' : db_live) (r : result A db_stop) (r' : result B db_stop) :
  readback_post d x L x' L' r -> (forall e, r' = Err e <-> r = Err e) -> readback_post d x L x' L' r'.
Proof.
  intros (-> & Hp & M & N & -> & Ho & HM & HN) He. split_and!; [done|intros Hg; rewrite He; auto|].
  exists M, N. split; [done|]. split_and!; [|done|rewrite He; auto].
  destruct r as [a|e], r' as [a'|e']; [done|by specialize (proj1 (He e') eq_refl)|by specialize (proj2 (He e) eq_refl)|].
  assert (e' = e) as -> by (specialize (proj1 (He e') eq_refl); congruence). by destruct e.
Qed.

(** What was alive around the reading is released after it. *)
Lemma post_around {X A} d (x x' : X) (L L' : db_live) r0 (r : result A db_stop) :
  readback_post d x ({[+ r0 +]} ⊎ L) x' L' r ->
  exists L'', L' = {[+ r0 +]} ⊎ L'' /\ readback_post d x L x' L'' r.
Proof.
  intros (-> & Hp & M & N & -> & Ho). exists (M ⊎ (N ⊎ L)). split; [multiset_solver|]. split_and!; [done|done|by exists M, N].
Qed.

Lemma as_s_range w z : 0 < w -> in_s w (as_s w z).
Proof.
  intros Hw. unfold in_s, as_s. assert (E : 2 ^ w = 2 * 2 ^ (w - 1)) by (rewrite <- Z.pow_succ_r by lia; f_equal; lia).
  pose proof (Z.mod_pos_bound (z + 2 ^ (w - 1)) (2 ^ w)). lia.
Qed.

Lemma stride_ok d : buffer_ok d -> in_s 32 (as_s 32 (db_stride d)) /\
  (0 <= as_s 32 (db_stride d) -> 4 * db_width d <= as_s 32 (db_stride d)).
Proof.
  intros (Hw & Hh & Hs & _). split; [by apply as_s_range|]. intros Hn.
  destruct (decide (db_stride d < 2 ^ 31)); [rewrite as_s_id by (unfold in_s; lia); lia|].
  unfold as_s in *. exfalso.
  assert (E : (db_stride d + 2 ^ (32 - 1)) mod 2 ^ 32 = db_stride d + 2 ^ 31 - 2 ^ 32)
    by (symmetry; apply Z.mod_unique with (q := 1); lia). lia.
Qed.

Lemma fallback_safe {X} (x : X) fuel d n L :
  buffer_ok d -> RFd (db_fd d) ∈ L ->
  safe L0 (fallback fuel d n) x L (readback_post d x L).
Proof.
  intros Hd Hf. destruct (stride_ok d Hd) as [Hs1 Hs2].
  assert (Hegl : forall M, left_open (A := list Z) (Err DbNone) M -> (gbm_fits (db_height d) (as_s 32 (db_stride d)) -> M = ∅) ->
    safe L0 (egl_readback fuel (db_fd d) (db_extra_planes d) (db_width d) (db_height d)
      (as_s 32 (db_stride d)) (db_offset d) (db_drm_format d) (db_modifier d)) x (M ⊎ L) (readback_post d x L)).
  { intros M HM Hg. destruct Hd as (? & ? & ?). eapply safe_mono; [apply egl_safe; unfold MAX_DMABUF_DIM in *; lia || done|].
    intros x' L' r (-> & Hr & HN). by eapply after_gbm. }
  unfold fallback. db_step. db_step. eapply safe_mono; [by apply drm_safe|].
  intros x' L' [v|e] (-> & -> & He); cbv beta.
  { by apply safe_ret, kept. }
  rewrite (He e) by done. db_step. db_step.
  destruct Hd as (? & ? & ?). eapply safe_mono; [apply gbm_safe; unfold MAX_DMABUF_DIM in *; lia || done|].
  intros x' L' [v|e'] (-> & Hfu & Hpa & M & -> & Ho & HM); cbv beta zeta.
  - destruct (some_byte v); [|by apply Hegl]. apply safe_ret. by eapply (after_gbm d x x L _ M); [..|exists ∅; split; [multiset_solver|]].
  - destruct e'; [by apply Hegl| |done]. apply safe_fail. split_and!; [done..|]. exists M, ∅.
    split_and!; [multiset_solver|done..].
Qed.

Lemma mapping_safe {X} (x : X) fuel d p total n L :
  buffer_ok d -> RFd (db_fd d) ∈ L -> RSync (db_fd d) ∈ L -> RMap p total ∈ L ->
  safe L0 (read_mapping fuel d p total n) x L (readback_post d x L).
Proof.
  intros Hd Hf Hs Hm. unfold read_mapping. db_step. db_step; [db_effect|]. cbv zeta.
  destruct (negb _).
  - db_step. eapply safe_mono; [by apply fence_safe|]. intros x' L' r (-> & -> & ->).
    db_step. db_step. eapply safe_mono; [by apply amdgpu_safe|].
    intros x' L' [v|e] (-> & -> & He); cbv beta; [destruct (some_byte v)|rewrite (He e) by done].
    + by apply safe_ret, kept.
    + by apply fallback_safe.
    + by apply fallback_safe.
  - by apply safe_ret, kept.
Qed.

Lemma planes_waited {X} (x : X) (l : list PlaneData) L :
  Forall (fun fd => RFd fd ∈ L) (pl_fd <$> l) ->
  safe L0 (each l (fun p => wait_for_dmabuf_fence (pl_fd p))) x L (fun x' L' r => x' = x /\ L' = L /\ r = Ok ()).
Proof.
  induction l as [|p l IH]; cbn; [intros _; by apply safe_ret|]. intros [Hp Hl]%list.Forall_cons. db_step.
  eapply safe_mono; [by apply fence_safe|]. intros x' L' r (-> & -> & ->). by apply IH.
Qed.

(** The closure after a way to the pixels. *)
Lemma mapped_safe {X R} (x : X) d (m : Eff (X * list db_event) db_stop (list Z)) (f : list Z -> R) L1 L :
  safe L0 m x L1 (readback_post d x L) -> safe L0 (v ← m; mret (f v)) x L1 (readback_post d x L).
Proof.
  intros Hm. apply safe_bind. eapply safe_mono; [exact Hm|].
  intros x' L' [v|e] Hr; [apply safe_ret|]; (eapply post_map; [exact Hr|]); intros e0; split; congruence.
Qed.

(** The bracket of CPU access around the mapping and the closure. *)
Lemma guard_safe {X R} (x : X) fuel d n total (f : list Z -> R) L :
  buffer_ok d -> RFd (db_fd d) ∈ L ->
  safe L0 (DmabufSyncGuard (db_fd d) (
    m ← ask (MapFd (db_fd d) total);
    match m with
    | Some p => finally (v ← read_mapping fuel d p total n; mret (f v)) (ask (MapDrop p total))
    | None => v ← fallback fuel d n; mret (f v)
    end)) x L (readback_post d x L).
Proof.
  intros Hd Hf. unfold DmabufSyncGuard, dmabuf_sync_start, dmabuf_sync_end. db_step. db_step; [db_effect|].
  apply safe_finally. eapply safe_mono with (Q := readback_post d x ({[+ RSync (db_fd d) +]} ⊎ L)).
  - db_step. db_step; [db_effect|]. cbv beta.
    match goal with |- context [match ?a with Some _ => finally _ _ | None => _ end] => destruct a as [p|] end;
      [|apply mapped_safe, fallback_safe; auto; there].
    apply safe_finally. eapply safe_mono; [apply mapped_safe, mapping_safe; auto; there|].
    intros x' L' r (L'' & -> & Hr)%post_around. db_run. by destruct Hr as [-> ?].
  - intros x' L' r (L'' & -> & Hr)%post_around.
    assert (Hfd : RFd (db_fd d) ∈ L'') by (destruct Hr as (_ & _ & M & N & -> & _); there).
    db_run. by destruct Hr as [-> ?].
Qed.

(** Reading a buffer: whatever the kernel, the driver, GBM and EGL answer. *)
Lemma with_bytes_safe {X R} (x : X) fuel d (f : list Z -> R) L :
  buffer_ok d -> buffer_alive d L -> safe L0 (with_bytes fuel d f) x L (readback_post d x L).
Proof.
  intros Hd [Hf Hp]%list.Forall_cons. unfold with_bytes.
  destruct (checked_u64 _) as [n|]; [|by apply safe_fail, kept].
  destruct (negb _).
  - db_step. eapply safe_mono; [by apply fence_safe|]. intros x' L' r (-> & -> & ->).
    db_step. eapply safe_mono; [by apply planes_waited|]. intros x' L' r (-> & -> & ->).
    apply mapped_safe. destruct (stride_ok d Hd) as [Hs1 Hs2]. destruct Hd as (? & ? & ?).
    eapply safe_mono; [apply egl_safe; unfold MAX_DMABUF_DIM in *; lia || done|].
    intros x' L' r (-> & Hr & N & -> & HN). apply (after_gbm d x x L _ ∅); [by left|done..|].
    exists N. split; [multiset_solver|done].
  - destruct (checked_u64 _) as [total|]; [|by apply safe_fail, kept].
    db_step. eapply safe_mono; [by apply fence_safe|]. intros x' L' r (-> & -> & ->).
    by apply guard_safe.
Qed.
End Safe.

(** ** Reading ends

    GL keeps a bounded number of errors to be fetched, so that the loop which fetches them
    comes to an end. *)

Definition errors_step (n : nat) (e : db_event) : nat :=
  match e with
  | Ev _ c a => match c in db_call T return T -> nat with GlGetError => fun r => if r =? 0 then 0%nat else S n | _ => fun _ => 0%nat end a
  end.

(** How many times in a row the last calls fetched an error. *)
Definition errors_in_a_row (t : list db_event) : nat := foldl errors_step 0%nat t.

Definition gl_errors_end `{Driver db_call} (flags : nat) : Prop := forall t,
  (flags <= errors_in_a_row t)%nat -> respond _ t GlGetError = 0.

Definition ends {X A} (m : Eff (X * list db_event) db_stop A) : Prop := forall s, snd (m s) <> Err DbFuel.

Section Ends.
Context `{Driver db_call}.

Lemma ends_bind {X A B} (m : Eff (X * list db_event) db_stop A) (k : A -> Eff (X * list db_event) db_stop B) :
  ends m -> (forall a, ends (k a)) -> ends (m ≫= k).
Proof.
  intros Hm Hk s. unfold mbind, eff_mbind. specialize (Hm s). destruct (m s) as [s' [a|e]]; [apply Hk|]; naive_solver.
Qed.

Lemma ends_attempt {X A B} (m : Eff (X * list db_event) db_stop A) (k : result A db_stop -> Eff (X * list db_event) db_stop B) :
  ends m -> (forall a, ends (k (Ok a))) -> (forall e, e <> DbFuel -> ends (k (Err e))) -> ends (attempt m ≫= k).
Proof.
  intros Hm Hk He s. unfold mbind, eff_mbind, attempt. specialize (Hm s).
  destruct (m s) as [s' [a|e]]; [apply Hk|]. apply He. naive_solver.
Qed.

Lemma ends_ask {X} {A : Set} (c : db_call A) : ends (X := X) (ask c).
Proof. by intros [x t]. Qed.

Lemma ends_local {X Y A B} (y : Y) (m : Eff (Y * list db_event) db_stop A)
    (k : Y * result A db_stop -> Eff (X * list db_event) db_stop B) :
  ends m -> (forall y a, ends (k (y, Ok a))) -> (forall y e, e <> DbFuel -> ends (k (y, Err e))) ->
  ends (local y m ≫= k).
Proof.
  intros Hm Hk He [x t]. unfold mbind, eff_mbind, local. specialize (Hm (y, t)).
  destruct (m (y, t)) as [[y' t'] [a|e]]; [apply Hk|]. apply He. naive_solver.
Qed.

Lemma ends_finally {X A} (m : Eff (X * list db_event) db_stop A) fin :
  ends m -> ends fin -> ends (finally m fin).
Proof.
  intros Hm Hf. unfold finally. apply ends_attempt; [done|..]; intros a; [|intros He];
    (apply ends_bind; [done|]); intros _ s; cbn; congruence.
Qed.

Lemma ends_each {X A} (l : list A) (f : A -> Eff (X * list db_event) db_stop unit) :
  (forall a, ends (f a)) -> ends (each l f).
Proof. intros Hf. induction l as [|a l IH]; [by intros s|]. by apply ends_bind. Qed.

Ltac end_step :=
  lazymatch goal with
  | |- ends (local _ _ ≫= _) => apply ends_local; [| intros ? ? | intros ? ? ?]
  | |- ends (attempt _ ≫= _) => apply ends_attempt; [| intros ? | intros ? ?]
  | |- ends (_ ≫= _) => apply ends_bind; [|intros ?]
  | |- ends (ask _) => apply ends_ask
  | |- ends (mret _) => by intros ?
  | |- ends (change _) => by intros [? ?]
  | |- ends (fail _) => intros ?; cbn; congruence
  | |- ends (finally _ _) => apply ends_finally
  | |- ends (each _ _) => apply ends_each; intros ?
  | |- ends (let '(_, _) := ?p in _) => destruct p
  | |- ends (let _ := _ in _) => cbv zeta
  | |- ends (if ?b then _ else _) => destruct b
  | |- ends (match ?x with _ => _ end) => destruct x
  end.
Ltac end_run := repeat (cbv beta zeta; end_step).

Lemma errors_app t e : errors_in_a_row (t ++ [e]) = errors_step (errors_in_a_row t) e.
Proof. unfold errors_in_a_row. by rewrite foldl_app. Qed.

Lemma drain_errors_ends {X} flags fuel (x : X) t :
  gl_errors_end flags -> (flags - errors_in_a_row t < fuel)%nat -> snd (drain_errors fuel (x, t)) <> Err DbFuel.
Proof.
  intros Hg. revert t. induction fuel as [|fuel IH]; intros t Hf; [lia|]. cbn [drain_errors].
  unfold mbind, eff_mbind, ask. cbn. destruct (respond Z t GlGetError =? 0) eqn:E; [done|].
  apply IH. rewrite errors_app. cbn. rewrite E.
  assert (~ (flags <= errors_in_a_row t)%nat) by (intros Hl%Hg; boolz; lia). lia.
Qed.

Lemma drain_always_ends {X} flags fuel : gl_errors_end flags -> (flags < fuel)%nat -> ends (drain_errors (Y := X) fuel).
Proof. intros Hg Hf [x t]. eapply drain_errors_ends; [done|lia]. Qed.

Lemma with_bytes_ends {X R} flags fuel d (f : list Z -> R) :
  gl_errors_end flags -> (flags < fuel)%nat -> ends (X := X) (with_bytes fuel d f).
Proof.
  intros Hg Hf.
  assert (Hdr : ends (drain_errors (Y := EglLocals) fuel)) by by eapply drain_always_ends.
  assert (Hn : forall paths read, (forall fd, ends (X := X) (read fd)) -> ends (first_node paths read)).
  { intros paths read Hr. induction paths; cbn [first_node]; end_run; auto. }
  assert (Hfe : forall fd, ends (X := X) (wait_for_dmabuf_fence fd)).
  { intros fd. unfold wait_for_dmabuf_fence, wait_for_dmabuf_fence_status. end_run. }
  assert (Hegl : forall fd p w h s o fm m, ends (X := X) (egl_readback fuel fd p w h s o fm m)).
  { intros. unfold egl_readback, egl_body, read_image. end_run; auto. }
  assert (Hgb : forall fd w h s o m, ends (X := X) (gbm_readback fd w h s o m)).
  { intros. unfold gbm_readback, gbm_map_and_read. end_run. }
  assert (Hfb : forall n, ends (X := X) (fallback fuel d n)).
  { intros n. unfold fallback, drm_readback. end_run; auto. apply Hn. intros fd. unfold map_through_node. end_run. }
  unfold with_bytes, DmabufSyncGuard, dmabuf_sync_start, dmabuf_sync_end, read_mapping, amdgpu_gem_mmap.
  end_run; auto; try congruence. apply Hn. intros fd. unfold map_through_node. end_run.
Qed.
End Ends.
