(* ===== verification/DmabufReads.v ===== *)
(** * What reading a dmabuf yields and leaves

    The theorems on [DmabufBufferData::with_bytes]: it ends, closes what it opened and hands on
    all bytes of the buffer; a buffer whose rows are shorter than their pixels is written past
    its end. *)

From Stdlib Require Import ZArith Lia String.
From stdpp Require Import prelude strings list sorting gmultiset.
From S2P Require Import Prelude Words Composite SessionInput SessionRecord Driver Dmabuf DmabufParams DmabufProps.

Open Scope Z_scope.

(** ** What a computation gives *)

Definition gives {X A} (P : A -> Prop) (m : Eff (X * list db_event) db_stop A) : Prop := forall s,
  match snd (m s) with Ok a => P a | Err _ => True end.

Section Gives.
Context `{Driver db_call}.

Lemma gives_bind {X A B} (Q : A -> Prop) (P : B -> Prop) (m : Eff (X * list db_event) db_stop A)
    (k : A -> Eff (X * list db_event) db_stop B) :
  gives Q m -> (forall a, Q a -> gives P (k a)) -> gives P (m ≫= k).
Proof.
  intros Hm Hk s. unfold mbind, eff_mbind. specialize (Hm s). destruct (m s) as [s' [a|e]]; [by apply Hk|done].
Qed.

Lemma gives_any {X A} (m : Eff (X * list db_event) db_stop A) : gives (fun _ => True) m.
Proof. intros s. by destruct (snd (m s)). Qed.

(** Where the value of the first part does not matter. *)
Lemma gives_then {X A B} (P : B -> Prop) (m : Eff (X * list db_event) db_stop A)
    (k : A -> Eff (X * list db_event) db_stop B) :
  (forall a, gives P (k a)) -> gives P (m ≫= k).
Proof. intros Hk. eapply gives_bind; [apply gives_any|auto]. Qed.

Lemma gives_attempt {X A B} (Q : A -> Prop) (P : B -> Prop) (m : Eff (X * list db_event) db_stop A)
    (k : result A db_stop -> Eff (X * list db_event) db_stop B) :
  gives Q m -> (forall a, Q a -> gives P (k (Ok a))) -> (forall e, gives P (k (Err e))) -> gives P (attempt m ≫= k).
Proof.
  intros Hm Hk He s. unfold mbind, eff_mbind, attempt. specialize (Hm s).
  destruct (m s) as [s' [a|e]]; [by apply Hk|apply He].
Qed.

Lemma gives_local {X Y A B} (Q : A -> Prop) (P : B -> Prop) (y : Y) (m : Eff (Y * list db_event) db_stop A)
    (k : Y * result A db_stop -> Eff (X * list db_event) db_stop B) :
  gives Q m -> (forall y a, Q a -> gives P (k (y, Ok a))) -> (forall y e, gives P (k (y, Err e))) ->
  gives P (local y m ≫= k).
Proof.
  intros Hm Hk He [x t]. unfold mbind, eff_mbind, local. specialize (Hm (y, t)).
  destruct (m (y, t)) as [[y' t'] [a|e]]; [by apply Hk|apply He].
Qed.

Lemma gives_finally {X A} (P : A -> Prop) (m : Eff (X * list db_event) db_stop A) fin :
  gives P m -> gives P (finally m fin).
Proof.
  intros Hm. unfold finally. eapply gives_attempt; [done|..]; [intros a Ha|intros e];
    apply gives_then; by intros ? s.
Qed.

Ltac gives_step :=
  lazymatch goal with
  | |- gives _ (ask _ ≫= _) => apply gives_then; intros ?
  | |- gives _ (change _ ≫= _) => apply gives_then; intros ?
  | |- gives _ ((ask _ ≫= _) ≫= _) => apply gives_then; intros ?
  | |- gives _ (mret _) => intros ?; cbn
  | |- gives _ (fail _) => by intros ?
  | |- gives _ (finally _ _) => apply gives_finally
  | |- gives _ (let '(_, _) := ?p in _) => destruct p
  | |- gives _ (if ?b then _ else _) => destruct b eqn:?
  | |- gives _ (match ?x with _ => _ end) => destruct x eqn:?
  end.
Ltac gives_run := repeat (cbv beta zeta; gives_step).

Lemma len_region mem start n : 0 <= n -> len (region mem start n) = n.
Proof. intros Hn. unfold len, region. rewrite length_fmap, length_seqZ. lia. Qed.

Lemma length_swizzle l : length (swizzle l) = length l.
Proof.
  remember (length l) as n eqn:Hn. revert l Hn. induction (lt_wf n) as [n _ IH]. intros l ->.
  destruct l as [|a [|b [|c [|d l]]]]; try done. cbn. rewrite (IH (length l)); cbn; lia.
Qed.

Lemma len_pixels w h n px : 0 <= n -> 0 <= w -> 0 <= h -> len (pixels_into w h n px) = n.
Proof.
  intros Hn Hw Hh. destruct px as [mem|]; unfold len, pixels_into.
  - unfold region. rewrite length_app, length_fmap, length_seqZ, length_replicate. nia.
  - rewrite length_replicate. lia.
Qed.

Lemma len_copy_rows rows ms stride ml src out out' :
  0 <= stride -> copy_rows rows ms stride ml src out = Some out' -> len out' = len out.
Proof.
  intros Hs. revert out. induction rows as [|r rows IH]; intros out; cbn [copy_rows]; [by intros [= ->]|].
  destruct (_ || _) eqn:E; [done|]. intros ->%IH. unfold len. f_equal. apply length_overwrite.
  pose proof (as_u_range 64 (r * stride)) as Hr. unfold in_u in Hr.
  unfold region. rewrite length_fmap, length_seqZ. unfold len in *. boolz. lia.
Qed.

Lemma node_gives {X} paths to_offset prime n off : 0 <= n ->
  gives (X := X) (fun v => len v = n)
    (first_node paths (fun drm => map_through_node to_offset drm prime n off)).
Proof.
  intros Hn. induction paths as [|p paths IH]; cbn [first_node]; gives_run; auto.
  eapply (gives_bind (fun o => match o with Some v => len v = n | None => True end)).
  - unfold map_through_node. gives_run; auto. by apply len_region.
  - intros [v|] Hv; [by intros ?|done].
Qed.

Lemma gbm_gives {X} fd w h stride off m : 1 <= h < 2 ^ 31 -> in_s 32 stride ->
  gives (X := X) (fun v => len v = h * stride) (gbm_readback fd w h stride off m).
Proof.
  intros Hh Hs. unfold gbm_readback. destruct (bounded_len h stride) as [n|] eqn:E; [|by intros ?].
  destruct (bounded_stride h stride n Hh Hs E) as (Hs0 & -> & Hm).
  assert (Hmap : forall bo gbm drm, gives (X := X) (fun v => len v = h * stride)
      (gbm_map_and_read bo gbm drm w h stride (h * stride))).
  { intros bo gbm drm. unfold gbm_map_and_read. gives_run.
    eapply (gives_bind (fun v => len v = h * stride)); [|intros v Hv; by gives_run].
    gives_run; [apply len_region; nia|].
    match goal with E : copy_rows _ _ _ _ _ _ = Some _ |- _ => apply len_copy_rows in E as -> end;
      [unfold len; rewrite length_replicate; nia|unfold usize; apply as_u_range; lia]. }
  gives_run; auto.
Qed.

Lemma egl_gives {X} fuel fd planes w h stride off fmt m : 1 <= w -> 1 <= h < 2 ^ 31 -> in_s 32 stride ->
  gives (X := X) (fun v => len v = h * stride) (egl_readback fuel fd planes w h stride off fmt m).
Proof.
  intros Hw Hh Hs. unfold egl_readback. gives_run.
  eapply (gives_local (fun v => len v = h * stride)); [|intros y v Hv; cbv beta zeta iota; do 4 (apply gives_then; intros ?); by intros ?
    |intros y e; cbv beta zeta iota; do 4 (apply gives_then; intros ?); by intros ?].
  unfold egl_body. gives_run. unfold read_image. apply gives_then. intros _. gives_run.
  match goal with E : bounded_len _ _ = Some _ |- _ => apply (bounded_stride _ _ _ Hh Hs) in E as (? & -> & _) end.
  unfold len. rewrite length_swizzle. apply len_pixels; nia.
Qed.

(** A length is not negative, so the stride was not. *)
Lemma stride_len (v : list Z) h st : 1 <= h -> 0 <= st < 2 ^ 32 -> len v = h * as_s 32 st -> len v = h * st.
Proof.
  intros Hh Hs E. assert (0 <= as_s 32 st) by (unfold len in E; nia).
  destruct (decide (st < 2 ^ 31)); [by rewrite as_s_id in E by (unfold in_s; lia)|exfalso].
  unfold as_s in *.
  assert (E' : (st + 2 ^ (32 - 1)) mod 2 ^ 32 = st + 2 ^ 31 - 2 ^ 32)
    by (symmetry; apply Z.mod_unique with (q := 1); lia). lia.
Qed.

Lemma gives_mono {X A} (P Q : A -> Prop) (m : Eff (X * list db_event) db_stop A) :
  gives P m -> (forall a, P a -> Q a) -> gives Q m.
Proof. intros Hm HPQ s. specialize (Hm s). destruct (snd (m s)); auto. Qed.

Lemma with_bytes_gives {X R} fuel d (f : list Z -> R) : buffer_ok d ->
  gives (X := X) (fun r => exists v, r = f v /\ len v = db_height d * db_stride d) (with_bytes fuel d f).
Proof.
  intros (Hw & Hh & Hs & Ho). unfold MAX_DMABUF_DIM in Hh.
  assert (Hs' : in_s 32 (as_s 32 (db_stride d))) by by apply as_s_range.
  assert (Hegl : gives (X := X) (fun v => len v = db_height d * db_stride d)
      (egl_readback fuel (db_fd d) (db_extra_planes d) (db_width d) (db_height d) (as_s 32 (db_stride d))
         (db_offset d) (db_drm_format d) (db_modifier d))).
  { eapply gives_mono; [apply egl_gives; lia || done|]. intros v Hv. apply stride_len; lia || done. }
  assert (Hfb : gives (X := X) (fun v => len v = db_height d * db_stride d)
      (fallback fuel d (db_height d * db_stride d))).
  { unfold fallback. cbv zeta. eapply gives_attempt; [apply node_gives; nia| |].
    - intros v Hv. by intros ?.
    - intros [| |]; try by intros ?. eapply gives_attempt; [apply gbm_gives; lia || done| |].
      + intros v Hv. destruct (some_byte v); [|done]. intros ?. cbn. apply stride_len; lia || done.
      + intros [| |]; try by intros ?. done. }
  unfold with_bytes. rewrite (as_u_id 64) by (unfold in_u; lia).
  destruct (checked_u64 _) as [n|] eqn:En; [|by intros ?].
  assert (n = db_height d * db_stride d) as -> by (unfold checked_u64 in En; destruct (_ <? _); naive_solver).
  clear En. destruct (negb _); [|destruct (checked_u64 _) as [total|]; [|by intros ?]].
  - apply gives_then. intros _. apply gives_then. intros _. eapply gives_bind; [done|].
    intros v Hv ?. cbn. eauto.
  - apply gives_then. intros _. unfold DmabufSyncGuard. apply gives_then. intros _. apply gives_finally.
    apply gives_then. intros [p|]; [apply gives_finally|];
      (eapply (gives_bind (fun v => len v = db_height d * db_stride d)); [|intros v Hv ?; cbn; eauto]); [|done].
    unfold read_mapping. apply gives_then. intros bytes. cbv zeta. destruct (negb _).
    + apply gives_then. intros _. eapply gives_attempt; [apply node_gives; nia| |].
      * intros v Hv. destruct (some_byte v); [by intros ?|done].
      * intros [| |]; try by intros ?. done.
    + intros ?. cbn. apply len_region. nia.
Qed.
End Gives.

(** ** The theorems *)

(** C25: Reading a buffer whose rows have room for their pixels ends, whatever the kernel, GBM,
    EGL and GL answer, provided that GL reports only so many errors in a row; everything is
    used only while it is alive and released at most once, the bracket of CPU access is closed,
    nothing is written outside its buffer, and the closure has run on as many bytes as the
    buffer has, or there is no result. When GBM maps rows not shorter than the buffer's and not
    more than 256 MiB of them, every descriptor, mapping, GBM and EGL object is released. A
    longer mapping leaves the buffer object, the GBM device and the descriptor of its node
    behind; shorter rows can make it panic, with the mapping left too. Nothing else is ever
    left behind. *)
Theorem readback_releases `{Driver db_call} {X R} (x : X) flags fuel d (f : list Z -> R) (L : db_live) :
  buffer_ok d -> buffer_alive d L -> gl_errors_end flags -> (flags < fuel)%nat ->
  match with_bytes fuel d f (x, []) with
  | ((x', t), r) =>
      exists M, replay L t = Some (M ⊎ L) /\ x' = x /\ left_open r M /\
      (gbm_fits (db_height d) (as_s 32 (db_stride d)) -> M = ∅) /\
      (gbm_rows (as_s 32 (db_stride d)) -> r <> Err DbPanics) /\
      (r = Err DbNone \/ r = Err DbPanics \/ exists v, r = Ok (f v) /\ len v = db_height d * db_stride d)
  end.
Proof.
  intros Hd Ha Hgl Hf. pose proof (with_bytes_safe L x fuel d f L Hd Ha [] eq_refl) as Hs.
  pose proof (with_bytes_ends (X := X) flags fuel d f Hgl Hf (x, [])) as He.
  pose proof (with_bytes_gives (X := X) fuel d f Hd (x, [])) as Hv.
  destruct (with_bytes fuel d f (x, [])) as [[x' t] r].
  destruct Hs as (L' & Hr & -> & Hp & M & N & -> & Ho & HM & HN). cbn in He, Hv. rewrite (HN He) in Hr.
  exists M. split_and!; [by rewrite Hr, gmultiset_disj_union_left_id|done..|].
  destruct r as [a|[| |]]; naive_solver.
Qed.

(** A machine on which every way to the pixels works. *)
#[local] Instance good_gpu : Driver db_call := fun A t c =>
  match c in db_call T return T with
  | Open _ => 10
  | Close _ => ()
  | IoctlSync _ _ => ()
  | ExportSyncFile _ _ => (0, 11)
  | Poll _ _ => (1, 1)
  | PrimeFdToHandle _ _ => (0, 1)
  | AmdgpuGemMmap _ _ => (0, 4096)
  | ModeMapDumb _ _ => (0, 4096)
  | Mmap _ _ _ => Some 70
  | Munmap _ _ => ()
  | PtrBytes _ _ => fun i => i
  | MapFd _ _ => Some 71
  | MapBytes _ _ _ => fun i => i
  | MapDrop _ _ => ()
  | GbmCreate _ => 20
  | GbmDestroy _ => ()
  | GbmBoImport _ _ _ => 21
  | GbmBoMap _ _ _ _ => (None, 0, 0)
  | GbmBoUnmap _ _ => ()
  | GbmBoDestroy _ => ()
  | BoBytes _ _ _ => fun i => i
  | DlOpen _ => true
  | EglLoad => true
  | EglPlatformDisplay _ => Some 30
  | EglInitialize _ => true
  | EglTerminate _ => ()
  | EglBindApi => true
  | EglChooseConfig _ => Some (Some 31)
  | EglCreateContext _ _ => Some 32
  | EglMakeCurrent _ _ => true
  | EglDestroyContext _ _ => ()
  | EglGetProc _ => true
  | EglCreateImage _ _ => 40
  | EglDestroyImage _ _ => ()
  | EglQueryModifiers _ _ _ => (1, 2, [(0, 0); (77, 0)])
  | GlLoad => ()
  | GlGetError => 0
  | GlGenTexture => 50
  | GlTextureSetUp _ _ => ()
  | GlDeleteTexture _ => ()
  | GlGenFramebuffer => 51
  | GlFramebufferTexture _ _ => ()
  | GlFramebufferStatus _ => 0x8CD5
  | GlDeleteFramebuffer _ => ()
  | GlReadPixels _ _ _ => Some (fun i => i)
  | GlFinish => ()
  end.

(** Two pixels in a row of twelve bytes, tiled. *)
Definition small_buffer : DmabufBufferData := {|
  db_fd := 5; db_offset := 0; db_stride := 12; db_extra_planes := []; db_width := 2; db_height := 1;
  db_drm_format := DRM_FORMAT_ARGB8888; db_modifier := 77 |}.

Lemma readback_releases_witness :
  match with_bytes 1 small_buffer id ((), []) with
  | ((x', t), r) =>
      exists M, replay {[+ RFd 5 +]} t = Some (M ⊎ {[+ RFd 5 +]}) /\ x' = () /\ left_open r M /\
      (gbm_fits 1 12 -> M = ∅) /\ (gbm_rows 12 -> r <> Err DbPanics) /\
      (r = Err DbNone \/ r = Err DbPanics \/ exists v, r = Ok (id v) /\ len v = 12)
  end.
Proof.
  apply (readback_releases () 0 1 small_buffer id {[+ RFd 5 +]}).
  - unfold buffer_ok, MAX_DMABUF_DIM. cbn. lia.
  - apply Forall_cons; [|constructor]. multiset_solver.
  - done.
  - lia.
Defined.

(** GBM's answer there: nothing is left behind. *)
Example small_buffer_fits : gbm_fits 1 12 /\ gbm_rows 12.
Proof. repeat split; by intros t bo w h fl. Qed.

(** Pixels written past the end of the buffer. *)
Lemma overflow_none L t w h cap a :
  In (Ev _ (GlReadPixels w h cap) a) t -> cap < 4 * w * h -> replay L t = None.
Proof.
  intros Hin Hc. induction t as [|e t IH] using rev_ind; [done|]. rewrite replay_app.
  apply in_app_or in Hin as [Hin|[->|[]]]; [by rewrite IH|].
  destruct (replay L t) as [M|]; [|done]. cbn. rewrite (proj2 (Z.leb_gt _ _)) by lia. by rewrite andb_false_r.
Qed.

Lemma tiled_reads_pixels d fuel :
  1 <= db_height d < 2 ^ 31 -> 0 <= db_stride d < 2 ^ 31 -> db_height d * db_stride d <= MAX_DMABUF_LEN ->
  db_modifier d <> DRM_FORMAT_MOD_LINEAR -> db_extra_planes d = [] ->
  exists px, In (Ev _ (GlReadPixels (db_width d) (db_height d) (db_height d * db_stride d)) px)
    (snd (fst (with_bytes (S fuel) d (fun v => v) ((), [])))).
Proof.
  intros Hh Hs Hm Hmod He. unfold with_bytes. rewrite as_u_id by (unfold in_u; lia).
  unfold checked_u64. rewrite (proj2 (Z.ltb_lt _ _)) by (unfold MAX_DMABUF_LEN in *; lia).
  rewrite (proj2 (Z.eqb_neq _ _) Hmod), He. cbn [negb].
  rewrite (as_s_id 32 (db_stride d)) by (unfold in_s; lia).
  unfold egl_readback, egl_body, read_image. rewrite bounded_len_ok by lia.
  unfold wait_for_dmabuf_fence, wait_for_dmabuf_fence_status, signalled, each, drain_errors, local, mbind, eff_mbind,
    mret, eff_mret, ask, change, respond, POLLIN, GL_FRAMEBUFFER_COMPLETE.
  eexists. cbn. change (Z.land 1 1) with 1. cbn.
  repeat lazymatch goal with
  | |- Ev _ (GlReadPixels _ _ _) _ = _ \/ _ => left; reflexivity
  | |- _ \/ _ => right
  end.
Qed.

(** C30: The stride a client declares is not compared with the width. A tiled buffer of one
    plane, of an accepted format and size, whose rows are shorter than their pixels, and whose
    rows together are not more than the 256 MiB above which the readback gives up, is accepted,
    and on a machine where everything works reading it back lets GL write past the end of the
    buffer made for the pixels. *)
Theorem short_stride_overflows fd off stride hi lo id w h fmt fuel (L : db_live) :
  1 <= w <= MAX_DMABUF_DIM -> 1 <= h <= MAX_DMABUF_DIM -> 0 <= stride < 4 * w -> h * stride <= MAX_DMABUF_LEN ->
  fmt = DRM_FORMAT_ARGB8888 \/ fmt = DRM_FORMAT_XRGB8888 -> Z.lor (Z.shiftl hi 32) lo <> DRM_FORMAT_MOD_LINEAR ->
  exists d, snd (params_run [PAdd fd 0 off stride hi lo; PCreateImmed id w h fmt] params_default) = [InitDmabuf id d] /\
    replay L (snd (fst (with_bytes (S fuel) d (fun v => v) ((), [])))) = None.
Proof.
  intros Hw Hh Hs Hm Hf Hmod.
  set (d := {| db_fd := fd; db_offset := off; db_stride := stride; db_extra_planes := []; db_width := w;
               db_height := h; db_drm_format := fmt; db_modifier := Z.lor (Z.shiftl hi 32) lo |}).
  exists d. split.
  - cbn. unfold finalize_params. cbn [used planes params_default app].
    rewrite !(proj2 (Z.leb_gt _ _)), !(proj2 (Z.ltb_ge _ _)) by lia. by destruct Hf as [-> | ->].
  - unfold MAX_DMABUF_DIM in *. destruct (tiled_reads_pixels d fuel) as [px Hpx]; try (cbn; done || lia).
    eapply overflow_none; [exact Hpx|]. cbn. nia.
Qed.

Lemma short_stride_overflows_witness :
  exists d, snd (params_run [PAdd 5 0 0 1 0 77; PCreateImmed 9 64 64 DRM_FORMAT_ARGB8888] params_default) = [InitDmabuf 9 d] /\
    replay {[+ RFd 5 +]} (snd (fst (with_bytes 1 d (fun v => v) ((), [])))) = None.
Proof.
  apply (short_stride_overflows 5 0 1 0 77 9 64 64 DRM_FORMAT_ARGB8888 0 {[+ RFd 5 +]});
    unfold MAX_DMABUF_DIM, MAX_DMABUF_LEN; try lia; done || by left.
Defined.

(** ** A map that is too large *)

(** GBM may map with a larger stride; when that makes the mapping larger than the code reads, it
    is unmapped, but the buffer object, the device and the node stay open. *)
Theorem oversized_map_leaks `{Driver db_call} {X} (x : X) bo gbm drm w h stride n t p ms data (L L0 : db_live) :
  respond _ t (GbmBoMap bo (as_u 32 w) (as_u 32 h) GBM_BO_TRANSFER_READ) = (Some p, ms, data) ->
  bounded_len h (as_u 32 ms) = None ->
  replay L0 t = Some ({[+ RBo bo +]} ⊎ ({[+ RGbm gbm +]} ⊎ ({[+ RFd drm +]} ⊎ L))) ->
  match gbm_map_and_read bo gbm drm w h stride n (x, t) with
  | ((_, t'), r) =>
      r = Err DbNone /\ replay L0 t' = Some ({[+ RBo bo +]} ⊎ ({[+ RGbm gbm +]} ⊎ ({[+ RFd drm +]} ⊎ L)))
  end.
Proof.
  intros Hr Hb Ht. unfold gbm_map_and_read, mbind, eff_mbind, ask. rewrite Hr, Hb.
  split; [done|]. rewrite !replay_app, Ht. cbn [mbind option_bind effect db_effects fst snd].
  rewrite provided_true by (apply db_has_in; there). unfold got_some. cbn [option_bind]. apply release_acquired.
Qed.

(** ** Rows that are too short *)

(** A machine on which GBM maps rows of just their pixels. *)
Definition tight_gpu : Driver db_call := fun A t c =>
  match c in db_call T return T -> T with
  | GbmBoMap _ w _ _ => fun _ => (Some 60, 4 * w, 61)
  | _ => id
  end (good_gpu A t c).

(** The client's stride is longer: the slice of the last row ends outside of the mapping. *)
Example short_rows_panic :
  snd (gbm_readback (H := tight_gpu) 5 2 1 12 0 0 ((), [])) = Err DbPanics.
Proof. reflexivity. Qed.
