(* ===== verification/DmabufParamsProps.v ===== *)
(** * Buffers that clients make

    A parameter object makes at most one buffer, of sane size and supported format, and every
    descriptor it was given has one owner; the table of formats reads back as what was
    advertised; a pool gives the bytes of its file, as long as the file is there. *)

From Stdlib Require Import ZArith Lia String Sorted.
From stdpp Require Import prelude strings list sorting.
From S2P Require Import Prelude Words Composite SessionInput SessionRecord Driver Dmabuf DmabufParams.

Open Scope Z_scope.

(** ** Sorting by index *)

Lemma insert_plane_perm p l : insert_plane p l ≡ₚ p :: l.
Proof.
  induction l as [|q l IH]; cbn; [done|]. destruct (_ <=? _); [done|]. rewrite IH. apply perm_swap.
Qed.

Lemma sort_perm l : sort_by_key l ≡ₚ l.
Proof. induction l as [|p l IH]; cbn; [done|]. by rewrite insert_plane_perm, IH. Qed.

Definition by_index (p q : Z * Plane) : Prop := p.1 <= q.1.

Lemma insert_plane_sorted p l : StronglySorted by_index l -> StronglySorted by_index (insert_plane p l).
Proof.
  induction 1 as [|q l Hl IH Hq]; cbn; [repeat constructor|]. destruct (_ <=? _) eqn:E; boolz.
  - repeat (constructor; try done). eapply Forall_impl; [exact Hq|]. intros r Hr. unfold by_index in *. lia.
  - constructor; [done|]. rewrite insert_plane_perm. constructor; [unfold by_index; lia|done].
Qed.

Lemma sort_sorted l : StronglySorted by_index (sort_by_key l).
Proof. induction l as [|p l IH]; cbn; [constructor|]. by apply insert_plane_sorted. Qed.

(** Planes of one index stay in the order in which they came. *)
Definition of_index (k : Z) (l : list (Z * Plane)) : list (Z * Plane) := List.filter (fun p => p.1 =? k) l.

Lemma insert_plane_index k p l : StronglySorted by_index l ->
  of_index k (insert_plane p l) = of_index k (p :: l).
Proof.
  induction 1 as [|q l Hl IH Hq]; [done|]. cbn [insert_plane]. destruct (_ <=? _) eqn:E; [done|]. boolz.
  unfold of_index in *. cbn in *. rewrite IH. destruct (p.1 =? k) eqn:E1, (q.1 =? k) eqn:E2; boolz; try done. lia.
Qed.

Lemma sort_stable k l : of_index k (sort_by_key l) = of_index k l.
Proof.
  induction l as [|p l IH]; [done|]. cbn [sort_by_key foldr]. fold (sort_by_key l).
  rewrite insert_plane_index by apply sort_sorted. unfold of_index in *. cbn. by rewrite IH.
Qed.

(** ** Who owns a descriptor *)

(** The descriptors that came in. *)
Definition received (rs : list params_request) : list Z :=
  rs ≫= fun r => match r with PAdd fd _ _ _ _ _ => [fd] | _ => [] end.

Definition closed (o : list params_out) : list Z := o ≫= fun e => match e with CloseFd fd => [fd] | _ => [] end.

(** The buffers that were made. *)
Definition made (o : list params_out) : list DmabufBufferData :=
  o ≫= fun e => match e with CreatedBuffer d | InitDmabuf _ d => [d] | _ => [] end.

Definition held (st : ParamsState) : list Z := p_fd <$> (planes st).*2.

Definition made_ok (d : DmabufBufferData) : Prop :=
  1 <= db_width d <= MAX_DMABUF_DIM /\ 1 <= db_height d <= MAX_DMABUF_DIM /\
  (db_drm_format d = DRM_FORMAT_ARGB8888 \/ db_drm_format d = DRM_FORMAT_XRGB8888).

Lemma closed_app a b : closed (a ++ b) = closed a ++ closed b.
Proof. apply bind_app. Qed.
Lemma made_app a b : made (a ++ b) = made a ++ made b.
Proof. apply bind_app. Qed.
Lemma closed_closes l : closed (CloseFd <$> l) = l.
Proof. induction l as [|fd l IH]; [done|]. cbn. by f_equal. Qed.
Lemma made_closes l : made (CloseFd <$> l) = [].
Proof. induction l as [|fd l IH]; [done|]. cbn. done. Qed.

(** What the fields of a buffer say of the planes it was made of. *)
Lemma new_fds l w h f d : DmabufBufferData_new l w h f = Some d -> buffer_fds d = p_fd <$> l.
Proof.
  destruct l as [|p l]; [done|]. intros [= <-]. unfold buffer_fds. cbn. f_equal. by rewrite <- list_fmap_compose.
Qed.

Lemma finalize_account w h f st st' cl r : finalize_params w h f st = (st', cl, r) ->
  used st' = true /\
  match r with
  | Ok d => used st = false /\ made_ok d /\ cl = [] /\ held st' = [] /\ buffer_fds d ≡ₚ held st
  | Err _ => cl ++ held st' ≡ₚ held st
  end.
Proof.
  unfold finalize_params, MAX_DMABUF_DIM. cbv zeta. cbn [planes].
  assert (Hp : p_fd <$> (sort_by_key (planes st)).*2 ≡ₚ held st) by (unfold held; by rewrite sort_perm).
  destruct (used st) eqn:Eu; [intros [= <- <- <-]; by split|].
  destruct ((w <=? 0) || (h <=? 0)) eqn:E1; [intros [= <- <- <-]; by split|].
  destruct ((16384 <? w) || (16384 <? h)) eqn:E2; [intros [= <- <- <-]; by split|].
  destruct (negb (f =? DRM_FORMAT_ARGB8888) && negb (f =? DRM_FORMAT_XRGB8888)) eqn:E3; [intros [= <- <- <-]; by split|].
  destruct (sort_by_key (planes st)) as [|[[| |] p0] rest] eqn:Es;
    [intros [= <- <- <-]; cbn in *; split; [done|by rewrite <- Hp] |
    |intros [= <- <- <-]; split; [done|]; unfold held at 1; cbn [planes]; by rewrite app_nil_r..].
  destruct (DmabufBufferData_new _ _ _ _) as [d|] eqn:Ed; [|done]. intros [= <- <- <-].
  split; [done|]. split_and!; [done| |done|done|by rewrite (new_fds _ _ _ _ _ Ed)].
  injection Ed as <-. unfold made_ok, MAX_DMABUF_DIM. cbn. boolz. split_and!; [lia..|]. destruct E3; boolz; auto.
Qed.

#[local] Arguments buffer_fds : simpl never.

(** The account of one request. *)
Lemma handle_account r st :
  let '(st', o) := params_handle r st in
  received [r] ++ held st ≡ₚ held st' ++ (made o ≫= buffer_fds) ++ closed o /\ Forall made_ok (made o) /\
  (used st = true -> used st' = true) /\ (length (made o) <= if used st then 0 else 1)%nat /\
  (made o <> [] -> used st' = true).
Proof.
  destruct r as [fd idx off stride hi lo|w h f room|id w h f|]; cbn [params_handle].
  - destruct (used st) eqn:Eu; cbn; rewrite ?app_nil_r; split_and!; try done; try lia.
    + apply Permutation_cons_append.
    + unfold held. cbn. rewrite !fmap_app. cbn. apply Permutation_cons_append.
  - destruct (finalize_params w h f st) as [[st' cl] [d|e]] eqn:E; apply finalize_account in E as [Hu Ha].
    + destruct Ha as (Hn & Hd & -> & Hh & Hp). rewrite Hn, Hh. destruct room; cbn [fmap list_fmap app].
      * cbn. rewrite !app_nil_r. split_and!; try done. constructor; [done|constructor].
      * rewrite closed_app, made_app, closed_closes, made_closes. cbn. rewrite app_nil_r. split_and!; done || lia.
    + rewrite closed_app, made_app, closed_closes, made_closes. cbn. rewrite app_nil_r.
      split_and!; [by rewrite <- Ha; apply Permutation_app_comm|done|done|lia|done].
  - destruct (finalize_params w h f st) as [[st' cl] [d|e]] eqn:E; apply finalize_account in E as [Hu Ha].
    + destruct Ha as (Hn & Hd & -> & Hh & Hp). rewrite Hn, Hh. cbn.
      rewrite !app_nil_r. split_and!; try done. constructor; [done|constructor].
    + rewrite closed_app, made_app, closed_closes, made_closes. cbn. rewrite app_nil_r.
      split_and!; [by rewrite <- Ha; apply Permutation_app_comm|done|done|lia|done].
  - cbn. rewrite app_nil_r. split_and!; done || lia.
Qed.

Lemma received_cons r rs : received (r :: rs) = received [r] ++ received rs.
Proof. apply (bind_app _ [r] rs). Qed.

Lemma run_account rs st :
  let '(st', o) := params_run rs st in
  received rs ++ held st ≡ₚ held st' ++ (made o ≫= buffer_fds) ++ closed o /\ Forall made_ok (made o) /\
  (length (made o) <= if used st then 0 else 1)%nat.
Proof.
  revert st. induction rs as [|r rs IH]; intros st; cbn [params_run].
  - cbn. rewrite app_nil_r. split_and!; [done|constructor|destruct (used st); lia].
  - pose proof (handle_account r st) as H1. destruct (params_handle r st) as [st1 o1].
    specialize (IH st1). destruct (params_run rs st1) as [st2 o2].
    destruct H1 as (P1 & F1 & U1 & N1 & M1), IH as (P2 & F2 & N2). split_and!.
    + rewrite made_app, bind_app, closed_app, received_cons.
      transitivity (received rs ++ (received [r] ++ held st)); [solve_Permutation|]. rewrite P1.
      transitivity ((received rs ++ held st1) ++ (made o1 ≫= buffer_fds) ++ closed o1); [solve_Permutation|].
      rewrite P2. solve_Permutation.
    + rewrite made_app. by apply Forall_app.
    + rewrite made_app, length_app. destruct (used st); [rewrite U1 in N2 by done; lia|].
      destruct (decide (made o1 = [])) as [->|Hne]; [cbn; destruct (used st1); lia|]. rewrite (M1 Hne) in N2. lia.
Qed.

(** C24: Whatever requests come on a parameter object, in any order, it makes at most one buffer,
    with sides of 1 to 16384 and one of the two formats; and when the object is gone, every
    descriptor the client sent is one of that buffer or was closed, each exactly once. *)
Theorem params_own_descriptors rs :
  let '(st, o) := params_run rs params_default in
  (length (made o) <= 1)%nat /\ Forall made_ok (made o) /\
  received rs ≡ₚ (made o ≫= buffer_fds) ++ closed (o ++ params_drop st).
Proof.
  pose proof (run_account rs params_default) as Ha. destruct (params_run rs params_default) as [st o].
  destruct Ha as (Hp & Hf & Hn). split_and!; [done|done|]. cbn in Hp. rewrite app_nil_r in Hp. rewrite Hp.
  unfold params_drop. rewrite closed_app, closed_closes. unfold held. solve_Permutation.
Qed.

(** ** Which buffer it is *)

Definition add_all (l : list (Z * Plane)) : list params_request :=
  (fun p => PAdd (p_fd p.2) p.1 (p_offset p.2) (p_stride p.2)
              (as_u 32 (Z.shiftr (p_modifier p.2) 32)) (as_u 32 (p_modifier p.2))) <$> l.

Definition wire_plane (p : Z * Plane) : Prop := 0 <= p.1 /\ in_u 64 (p_modifier p.2).

Lemma modifier_halves m : in_u 64 m -> Z.lor (Z.shiftl (as_u 32 (Z.shiftr m 32)) 32) (as_u 32 m) = m.
Proof.
  unfold in_u, as_u. intros Hm. rewrite <- (Z.land_ones _ 32), <- (Z.land_ones m 32) by lia.
  apply Z.bits_inj'. intros i Hi. rewrite Z.lor_spec, Z.land_spec.
  destruct (decide (i < 32)).
  - rewrite Z.shiftl_spec_low, Z.ones_spec_low by lia. by rewrite andb_true_r.
  - rewrite Z.shiftl_spec, Z.land_spec, Z.shiftr_spec, (Z.ones_spec_high 32 i) by lia.
    replace (i - 32 + 32) with i by lia. rewrite andb_false_r, orb_false_r.
    destruct (decide (i < 64)); [rewrite Z.ones_spec_low by lia; by rewrite andb_true_r|].
    rewrite Z.ones_spec_high by lia. rewrite andb_false_r. symmetry.
    destruct (decide (m = 0)) as [->|]; [apply Z.testbit_0_l|].
    apply Z.bits_above_log2; [lia|]. assert (Z.log2 m < 64) by (apply Z.log2_lt_pow2; lia). lia.
Qed.

Lemma add_all_run l st rest : Forall wire_plane l -> used st = false ->
  params_run (add_all l ++ rest) st = params_run rest {| planes := planes st ++ l; used := false |}.
Proof.
  revert st. induction l as [|p l IH]; intros [ps u] Hl Hu; cbn in Hu; subst u.
  { cbn. by rewrite app_nil_r. }
  apply list.Forall_cons in Hl as [[_ Hp] Hl]. cbn [add_all fmap list_fmap app params_run params_handle used].
  rewrite modifier_halves by done. fold (add_all l). rewrite IH by done. cbn [planes].
  rewrite <- app_assoc. cbn. destruct p as [i [? ? ? ?]]. cbn.
  by destruct (params_run rest _).
Qed.

(** Planes added in any order become a buffer exactly when one of them has index 0: the planes
    in the order of their indices, those of equal index in the order in which they came. Two of
    one index are not an error. *)
Theorem create_sorts_planes l id w h f :
  1 <= w <= MAX_DMABUF_DIM -> 1 <= h <= MAX_DMABUF_DIM -> f = DRM_FORMAT_ARGB8888 \/ f = DRM_FORMAT_XRGB8888 ->
  Forall wire_plane l ->
  let o := snd (params_run (add_all l ++ [PCreateImmed id w h f]) params_default) in
  (0 ∈ l.*1 -> exists d, o = [InitDmabuf id d] /\ DmabufBufferData_new (sort_by_key l).*2 w h f = Some d) /\
  (0 ∉ l.*1 -> o = (CloseFd <$> (p_fd <$> (sort_by_key l).*2)) ++ [InitInvalid id]).
Proof.
  intros Hw Hh Hf Hl o. subst o. rewrite add_all_run by done. cbn [params_run params_handle].
  unfold finalize_params, MAX_DMABUF_DIM in *. cbn [used planes params_default app].
  rewrite !(proj2 (Z.leb_gt _ _)), !(proj2 (Z.ltb_ge _ _)) by lia. cbn [orb].
  replace (negb (f =? DRM_FORMAT_ARGB8888) && negb (f =? DRM_FORMAT_XRGB8888)) with false by (by destruct Hf as [-> | ->]).
  pose proof (sort_sorted l) as Hs. pose proof (sort_perm l) as Hp.
  assert (Hpos : Forall wire_plane (sort_by_key l)) by by rewrite Hp.
  assert (Hin : forall k, k ∈ (sort_by_key l).*1 <-> k ∈ l.*1) by (intros k; by rewrite Hp).
  destruct (sort_by_key l) as [|[[|k|k] p0] rest] eqn:Es.
  - split; [intros H0%Hin; by apply not_elem_of_nil in H0|done].
  - split; [|intros Hn; exfalso; apply Hn, Hin; by left]. intros _. eexists. split; reflexivity.
  - split; [|intros _; cbn; by rewrite app_nil_r]. intros H0%Hin. exfalso. apply list_elem_of_fmap in H0 as ([i q] & E0 & Hq). cbn in E0. subst i.
    inversion Hs as [|? ? _ Hall]. subst. apply elem_of_cons in Hq as [Hq|Hq]; [done|].
    rewrite list.Forall_forall in Hall. apply Hall in Hq. unfold by_index in Hq. cbn in Hq. lia.
  - apply list.Forall_cons in Hpos as [[Hk _] _]. cbn in Hk. lia.
Qed.

(** ** The table of formats *)

(** What a client makes of the table: sixteen bytes per entry, of which it reads the format and
    the modifier; and of the indices of a tranche, two bytes each. *)
Fixpoint decode_table (n : nat) (l : list Z) : list (Z * Z) :=
  match n with
  | O => []
  | S n' => (from_le (take 4 l), from_le (take 8 (drop 8 l))) :: decode_table n' (drop 16 l)
  end.

Fixpoint decode_indices (n : nat) (l : list Z) : list Z :=
  match n with
  | O => []
  | S n' => from_le (take 2 l) :: decode_indices n' (drop 2 l)
  end.

Definition client_formats (table indices : list Z) : list (option (Z * Z)) :=
  (fun i => decode_table (length table / 16) table !! Z.to_nat i) <$> decode_indices (length indices / 2) indices.

(** Both formats with every modifier. *)
Definition advertised (mods : list Z) : list (Z * Z) := fourccs ≫= fun f => (f,.) <$> mods.

Lemma format_table_entries mods :
  format_table mods = concat ((fun e => table_entry e.1 e.2) <$> advertised mods).
Proof.
  unfold format_table, advertised, fourccs. cbn. rewrite !app_nil_r, fmap_app, concat_app.
  by rewrite <- !list_fmap_compose.
Qed.

Lemma length_entry f m : length (table_entry f m) = 16%nat.
Proof. unfold table_entry. by rewrite !length_app, !length_to_le. Qed.

Lemma length_table es : length (concat ((fun e => table_entry e.1 e.2) <$> es)) = (16 * length es)%nat.
Proof. induction es as [|e es IH]; [done|]. cbn [fmap list_fmap concat]. rewrite length_app, length_entry, IH. cbn. lia. Qed.

Lemma decode_table_entries es : Forall (fun e => in_u 32 e.1 /\ in_u 64 e.2) es ->
  decode_table (length es) (concat ((fun e => table_entry e.1 e.2) <$> es)) = es.
Proof.
  induction 1 as [|[f m] es [Hf Hm] _ IH]; [done|]. cbn [length decode_table fmap list_fmap concat fst snd] in *.
  rewrite (drop_app_length' _ _ 16) by (by rewrite length_entry). rewrite IH. f_equal.
  unfold table_entry. rewrite <- !app_assoc.
  rewrite (take_app_length' _ _ 4) by (by rewrite length_to_le).
  rewrite (app_assoc (to_le 4 f)), (drop_app_length' _ _ 8) by (by rewrite length_app, !length_to_le).
  rewrite (take_app_length' _ _ 8) by (by rewrite length_to_le). rewrite !from_le_to_le.
  unfold in_u in *. rewrite !Z.mod_small by (cbn; lia). done.
Qed.

Lemma decode_indices_all l : Forall (in_u 16) l -> decode_indices (length l) (concat (to_le 2 <$> l)) = l.
Proof.
  induction 1 as [|i l Hi _ IH]; [done|]. cbn [length decode_indices fmap list_fmap concat].
  rewrite (drop_app_length' _ _ 2), (take_app_length' _ _ 2) by (by rewrite length_to_le). rewrite IH, from_le_to_le.
  unfold in_u in Hi. by rewrite Z.mod_small by (cbn; lia).
Qed.

Lemma length_indices l : length (concat (to_le 2 <$> l)) = (2 * length l)%nat.
Proof. induction l as [|i l IH]; [done|]. cbn [fmap list_fmap concat length]. rewrite length_app, length_to_le, IH. lia. Qed.

Lemma lookup_all {A} (l : list A) :
  (fun i => l !! Z.to_nat i) <$> seqZ 0 (Z.of_nat (length l)) = Some <$> l.
Proof.
  apply list_eq. intros i. rewrite !list_lookup_fmap. destruct (decide (i < length l)%nat) as [Hi|Hi].
  - rewrite lookup_seqZ_lt by lia. destruct (lookup_lt_is_Some_2 l i Hi) as [a Ha]. cbn.
    replace (Z.to_nat (0 + Z.of_nat i)) with i by lia. by rewrite Ha.
  - rewrite lookup_seqZ_ge by lia. by rewrite (lookup_ge_None_2 l i) by lia.
Qed.

Lemma length_advertised mods : length (advertised mods) = (2 * length mods)%nat.
Proof. unfold advertised, fourccs. cbn. rewrite !length_app, !length_fmap. cbn. lia. Qed.

(** A client that binds the feedback reads, entry by entry through the indices of the tranche,
    exactly the two formats with every modifier that can be imported, in order, from a table of
    the announced size. *)
Theorem feedback_decodes mods rdev memfd :
  Forall (in_u 64) mods -> 2 * len mods < 2 ^ 16 -> 0 <= memfd ->
  exists table indices dev,
    send_dmabuf_feedback mods rdev memfd (32 * len mods) =
      [FbFormatTable table (len table); FbMainDevice dev; FbTrancheTargetDevice dev; FbTrancheFormats indices;
       FbTrancheFlags 0; FbTrancheDone; FbDone] /\
    client_formats table indices = Some <$> advertised mods /\ length dev = 8%nat.
Proof.
  intros Hm Hn Hfd.
  assert (Hlen : len (format_table mods) = 32 * len mods).
  { unfold len. rewrite format_table_entries, length_table, length_advertised. lia. }
  assert (H0 : 0 <= len mods) by (unfold len; lia).
  do 3 eexists. split_and!.
  - unfold send_dmabuf_feedback, make_dmabuf_format_table. rewrite (proj2 (Z.ltb_ge _ _)) by lia.
    rewrite as_u_id by (unfold in_u; lia). rewrite (proj2 (Z.eqb_eq _ _)) by lia. cbn [negb].
    rewrite (as_u_id 32) by (unfold in_u; lia). reflexivity.
  - unfold client_formats. rewrite length_indices, length_seqZ, format_table_entries, length_table, length_advertised.
    rewrite (as_u_id 16) by (unfold in_u; lia).
    replace (2 * Z.to_nat (2 * len mods) / 2)%nat with (Z.to_nat (2 * len mods)) by (rewrite Nat.mul_comm, Nat.div_mul; lia).
    replace (16 * (2 * length mods) / 16)%nat with (length (advertised mods))
      by (rewrite length_advertised, (Nat.mul_comm 16), Nat.div_mul; lia).
    rewrite decode_table_entries.
    2:{ unfold advertised, fourccs. cbn. rewrite app_nil_r. apply Forall_app. split; apply Forall_fmap;
          (eapply Forall_impl; [exact Hm|]); intros m Hm'; (split; [by split|done]). }
    pose proof (length_seqZ 0 (2 * len mods)) as Hl. rewrite <- Hl at 1. rewrite decode_indices_all.
    + rewrite <- lookup_all. f_equal. f_equal. rewrite length_advertised. unfold len. lia.
    + apply list.Forall_forall. intros i Hi%elem_of_seqZ. unfold in_u. lia.
  - unfold drm_main_device_bytes. by repeat case_match.
Qed.

Lemma feedback_decodes_witness :
  exists table indices dev,
    send_dmabuf_feedback [0; 77] (fun _ => Some 57984) 4 64 =
      [FbFormatTable table (len table); FbMainDevice dev; FbTrancheTargetDevice dev; FbTrancheFormats indices;
       FbTrancheFlags 0; FbTrancheDone; FbDone] /\
    client_formats table indices = Some <$> advertised [0; 77] /\ length dev = 8%nat.
Proof.
  apply (feedback_decodes [0; 77] (fun _ => Some 57984) 4); [|done|done].
  repeat constructor; unfold in_u; lia.
Defined.

(** ** The modifiers that are advertised *)

Lemma dedup_head a l : exists r, dedup (a :: l) = a :: r.
Proof. cbn. destruct (dedup l) as [|b r]; [eauto|]. destruct (a =? b); eauto. Qed.

Lemma dedup_elem m l : m ∈ dedup l <-> m ∈ l.
Proof.
  induction l as [|a l IH]; [done|]. cbn. destruct (dedup l) as [|b r] eqn:E.
  - rewrite !elem_of_cons, <- IH. done.
  - destruct (a =? b) eqn:Eab; boolz; subst; rewrite !elem_of_cons, <- IH, ?elem_of_cons; naive_solver.
Qed.

Lemma dedup_sorted l : StronglySorted Z.le l -> StronglySorted Z.lt (dedup l).
Proof.
  induction 1 as [|a l Hl IH Ha]; [constructor|]. cbn. destruct (dedup l) as [|b r] eqn:E.
  - repeat constructor.
  - inversion IH as [|? ? Hr Hb]; subst.
    assert (Hab : a <= b). { rewrite list.Forall_forall in Ha. apply Ha. rewrite <- dedup_elem, E. by left. }
    destruct (a =? b) eqn:Eab; boolz; subst; [by constructor|]. constructor; [done|]. constructor; [lia|].
    eapply Forall_impl; [exact Hb|]. intros c Hc. cbn in Hc. lia.
Qed.

Lemma with_linear_spec l :
  StronglySorted Z.lt (with_linear l) /\ forall m, m ∈ with_linear l <-> m = DRM_FORMAT_MOD_LINEAR \/ m ∈ l.
Proof.
  unfold with_linear. split.
  - apply dedup_sorted, StronglySorted_merge_sort; [intros a b c; lia|intros a b; lia].
  - intros m. rewrite dedup_elem, merge_sort_Permutation. case_bool_decide as E; [naive_solver|].
    rewrite elem_of_app, list_elem_of_singleton. naive_solver.
Qed.

Lemma query_keeps `{Driver db_call} {X} (x x' : X) t t' q : query_egl_modifiers (x, t) = ((x', t'), q) -> x' = x.
Proof.
  intros E. apply (yields_run _ _ _ _ _ _ (fun x' _ => x' = x)) in E; [done|].
  unfold query_egl_modifiers, query_format. repeat first [safe_step | reflexivity].
Qed.

(** The modifiers that clients are told of are queried once: the first call fills the cell with
    a strictly increasing list that has LINEAR and what EGL answered, whatever fails on the way,
    and every later call returns the same list without asking anyone. *)
Theorem modifiers_asked_once `{Driver db_call} t :
  match egl_importable_bgra_modifiers (None, t) with
  | ((cell, t'), Ok set) =>
      cell = Some set /\ StronglySorted Z.lt set /\ DRM_FORMAT_MOD_LINEAR ∈ set /\
      (forall m, m ∈ set -> m = DRM_FORMAT_MOD_LINEAR \/
         exists l, snd (query_egl_modifiers (None : option (list Z), t)) = Ok l /\ m ∈ l) /\
      forall t2, egl_importable_bgra_modifiers (cell, t2) = ((cell, t2), Ok set)
  | ((cell, _), Err e) => cell = None /\ e = DbPanics
  end.
Proof.
  unfold egl_importable_bgra_modifiers at 1. unfold mbind, eff_mbind, here, attempt. cbn [fst snd].
  destruct (query_egl_modifiers (None, t)) as [[c t'] q] eqn:E. apply query_keeps in E as ->. cbn [fst snd].
  set (l := match q with Ok l => l | Err _ => [] end).
  destruct (with_linear_spec l) as [Hs Hm].
  assert (Hq : q = Err DbPanics \/ q <> Err DbPanics) by (destruct q as [|[]]; auto).
  destruct Hq as [->|Hq]; [done|].
  enough (HG : forall set, set = with_linear l -> Some set = Some set /\ StronglySorted Z.lt set /\
    DRM_FORMAT_MOD_LINEAR ∈ set /\ (forall m, m ∈ set -> m = DRM_FORMAT_MOD_LINEAR \/ exists l, q = Ok l /\ m ∈ l) /\
    forall t2, egl_importable_bgra_modifiers (Some set, t2) = ((Some set, t2), Ok set))
    by (destruct q as [|[]]; [apply HG..|done|apply HG]; done).
  intros set ->. split_and!; [done|done|apply Hm; by left| |done].
  intros m [Hm'|Hm']%Hm; [by left|right]. subst l. destruct q as [l|]; [eauto|by apply not_elem_of_nil in Hm'].
Qed.

(** ** Pools *)

(** A mapping has the size of the pool. *)
Definition pool_ok (p : ShmPool) : Prop := 0 <= sp_size p /\ forall n, sp_map p = Some n -> n = sp_size p.

Lemma new_ok can_map fd size : pool_ok (ShmPoolData_new can_map fd size).
Proof. split; cbn; [lia|]. intros n. destruct (_ && _); [by intros [= <-]|done]. Qed.

Lemma handle_ok can_map r p : pool_ok p ->
  pool_ok (pool_handle can_map r p).1 /\ sp_size p <= sp_size (pool_handle can_map r p).1.
Proof.
  intros [H0 Hm]. destruct r as [size| |]; cbn; [|by split; [split|lia]..].
  unfold resize. destruct (_ <? _) eqn:E; [|by split; [split|lia]]. boolz. split; [split|]; cbn; [lia| |lia].
  intros n. destruct (can_map _); [by intros [= <-]|done].
Qed.

(** Any requests, each with what can be mapped when it comes. *)
Definition pool_run (rs : list ((Z -> bool) * pool_request)) (p : ShmPool) : ShmPool :=
  foldl (fun p '(can_map, r) => (pool_handle can_map r p).1) p rs.

Lemma pool_run_ok rs p : pool_ok p -> pool_ok (pool_run rs p) /\ sp_size p <= sp_size (pool_run rs p).
Proof.
  revert p. induction rs as [|[cm r] rs IH]; intros p Hp; [by split|]. cbn.
  destruct (handle_ok cm r p Hp) as [H1 H2]. destruct (IH _ H1) as [H3 H4]. split; [done|]. unfold pool_run in *. lia.
Qed.

(** What compositing sees of a pool. *)
Definition mapped_pool (file : list Z) (p : ShmPool) : ShmPoolData :=
  {| pool_mmap := (fun n => take (Z.to_nat n) file) <$> sp_map p |}.

Lemma page_end_ge file : len file <= page_end file.
Proof.
  unfold page_end, PAGE. pose proof (Z.div_mod (len file + 4096 - 1) 4096). pose proof (Z.mod_pos_bound (len file + 4096 - 1) 4096). lia.
Qed.

(** As long as the client's file is as long as the client said, a pool that was created and
    resized in any way gives the bytes of the file, and nothing else, as compositing has it; the
    size of a pool never shrinks. *)
Theorem pool_reads_file {R} can_map fd size rs file offset n (f : list Z -> R) :
  let p := pool_run rs (ShmPoolData_new can_map fd size) in
  sp_size p <= len file -> 0 <= n ->
  Z.max size 0 <= sp_size p /\
  shm_with_bytes file offset n f p = (fun b => Accessed (f b)) <$> pool_with_bytes (mapped_pool file p) offset n.
Proof.
  intros p Hf Hn. destruct (pool_run_ok rs _ (new_ok can_map fd size)) as [Hp Hs]. fold p in Hp, Hs.
  split; [exact Hs|]. destruct Hp as [H0 Hm]. unfold shm_with_bytes, pool_with_bytes, mapped_pool. cbn [pool_mmap].
  destruct (offset <? 0) eqn:Eo; [done|]. boolz. destruct (sp_map p) as [k|] eqn:Ek; [|done].
  rewrite (Hm k eq_refl) in *. cbn [fmap option_fmap option_map mbind option_bind].
  unfold checked_u64. destruct (_ <? _) eqn:E64; [|done]. cbn [mbind option_bind].
  assert (Hlen : len (take (Z.to_nat (sp_size p)) file) = sp_size p) by (unfold len in *; rewrite length_take; lia).
  rewrite Hlen. destruct (sp_size p <? offset + n) eqn:Es; [done|]. boolz. cbn. f_equal.
  unfold touch. pose proof (page_end_ge file). rewrite (proj2 (Z.ltb_ge (page_end file) _)) by lia. rewrite andb_false_r. do 2 f_equal.
  rewrite drop_app_le by (unfold len in *; lia). rewrite take_app_le by (rewrite length_drop; unfold len in *; lia).
  rewrite skipn_firstn_comm, take_take. f_equal. lia.
Qed.

Lemma pool_reads_file_witness :
  let p := pool_run [((fun _ => true), PoolResize 3)] (ShmPoolData_new (fun _ => true) 4 2) in
  Z.max 2 0 <= sp_size p /\
  shm_with_bytes [7; 8; 9] 1 2 id p = (fun b => Accessed (id b)) <$> pool_with_bytes (mapped_pool [7; 8; 9] p) 1 2.
Proof. apply (pool_reads_file (fun _ => true) 4 2 [((fun _ => true), PoolResize 3)] [7; 8; 9] 1 2 id); by vm_compute. Defined.

(** Nobody looks at the size of the file: the first frame of a pool that is larger than the pages
    of its file kills the session that reads it. *)
Theorem short_file_kills {R} can_map fd size file offset n (f : list Z -> R) :
  0 < size -> can_map size = true -> page_end file < offset + n -> 0 <= offset -> 0 < n -> offset + n <= size -> size < 2 ^ 31 ->
  shm_with_bytes file offset n f (ShmPoolData_new can_map fd size) = Some SigBus.
Proof.
  intros Hs Hc Hp Ho Hn Hb H31. unfold shm_with_bytes, ShmPoolData_new. rewrite Z.max_l by lia. cbn [sp_map].
  rewrite (proj2 (Z.ltb_lt 0 size)), Hc, (proj2 (Z.ltb_ge offset 0)) by lia. cbn [andb mbind option_bind].
  unfold checked_u64. rewrite (proj2 (Z.ltb_lt (offset + n) _)) by lia. cbn [mbind option_bind].
  rewrite (proj2 (Z.ltb_ge size _)) by lia. unfold touch.
  by rewrite (proj2 (Z.ltb_lt 0 n)), (proj2 (Z.ltb_lt (page_end file) _)) by lia.
Qed.
