(* ===== verification/Vulkan.v ===== *)
(** * The device, session and images of the Vulkan encoder
      ([crates/waymux-session/src/vulkan_record.rs])

    Everything the H.264 encoder creates once: instance and device, the video session with its
    memory and parameters, the pipeline of the colour shader, images and buffers, and how each
    is dropped. A null handle is [None]. Pipeline stages, sample counts and the like, which are
    the same constants at every place, are not arguments of a call; the words of a shader are
    its name. *)

From Stdlib Require Import ZArith Lia String.
From stdpp Require Import prelude strings list gmultiset.
From S2P Require Import Prelude Words Driver H264.

Open Scope Z_scope.

(** ** Calls *)

Inductive ImgFormat := B8G8R8A8 | R8 | R8G8 | TwoPlane420 | TwoPlane444 | ThreePlane444 | OtherFormat (raw : Z).

#[global] Instance img_format_eq_dec : EqDecision ImgFormat.
Proof. solve_decision. Defined.

Inductive ImgLayout :=
| UNDEFINED | PREINITIALIZED | GENERAL | TRANSFER_SRC_OPTIMAL | TRANSFER_DST_OPTIMAL
| SHADER_READ_ONLY_OPTIMAL | VIDEO_ENCODE_SRC_KHR | VIDEO_ENCODE_DPB_KHR.

#[global] Instance img_layout_eq_dec : EqDecision ImgLayout.
Proof. solve_decision. Defined.

(** The bits of [ImageUsageFlags] and [MemoryPropertyFlags]. *)
Definition U_TRANSFER_SRC : Z := 1.
Definition U_TRANSFER_DST : Z := 2.
Definition U_SAMPLED : Z := 4.
Definition U_STORAGE : Z := 8.
Definition U_ENCODE_SRC : Z := 0x4000.
Definition U_ENCODE_DPB : Z := 0x8000.
Definition DEVICE_LOCAL : Z := 1.
Definition HOST_VISIBLE_COHERENT : Z := 6.

(** Images: plain ones in the optimal or the linear tiling, and those of a client's dmabuf with
    offset, pitch and modifier of its plane ([None] for the linear tiling). *)
Inductive Tiling := Optimal | Linear | OfDmabuf (explicit : option (Z * Z * Z)).

Record ImageInfo := {
  ii_format : ImgFormat;
  ii_width : Z;
  ii_height : Z;
  ii_layers : Z;
  ii_tiling : Tiling;
  ii_usage : Z;
  ii_flags : Z;
  ii_profile : option EncodeKind;
  ii_initial : ImgLayout;
}.

Inductive BufferUse := StagingSource | EncodeTarget.
Inductive Descriptor := CombinedSampler | StorageImage.
Inductive Shader := BGRA_TO_NV12_SPV | BGRA_TO_YUV444_2PLANE_SPV.

Record SessionInfo := {
  si_family : Z;
  si_kind : EncodeKind;
  si_width : Z;
  si_height : Z;
  si_dpb_slots : Z;
  si_references : Z;
  si_std_header : list Z * Z;
}.

(** What a device creates. *)
Inductive CreateInfo :=
| ISession (s : SessionInfo)
| IParameters (session : Z) (sps : Sps) (pps : Pps)
| IMemory (size type_index : Z)
| IImported (size type_index fd image : Z)
| IImage (i : ImageInfo)
| IView (image : Z) (format : ImgFormat) (layer : Z)
| IBuffer (size : Z) (use : BufferUse) (profile : option EncodeKind)
| ISetLayout (bindings : list Descriptor)
| IPipelineLayout (set_layout : Z)
| IShader (s : Shader)
| IPipeline (layout shader : Z)
| IDescriptorPool (sets samplers images : Z)
| ISampler
| ICommandPool (family : Z) (transient : bool)
| IFence
| IQueryPool (kind : EncodeKind)
| ISemaphore.

Inductive VkKind :=
| KSession | KParameters | KMemory | KImage | KView | KBuffer | KSetLayout | KPipelineLayout | KShader
| KPipeline | KDescriptorPool | KSampler | KCommandPool | KFence | KQueryPool | KSemaphore.

#[global] Instance vk_kind_eq_dec : EqDecision VkKind.
Proof. solve_decision. Defined.

Definition kind_of (i : CreateInfo) : VkKind :=
  match i with
  | ISession _ => KSession | IParameters _ _ _ => KParameters
  | IMemory _ _ | IImported _ _ _ _ => KMemory
  | IImage _ => KImage | IView _ _ _ => KView | IBuffer _ _ _ => KBuffer
  | ISetLayout _ => KSetLayout | IPipelineLayout _ => KPipelineLayout | IShader _ => KShader
  | IPipeline _ _ => KPipeline | IDescriptorPool _ _ _ => KDescriptorPool | ISampler => KSampler
  | ICommandPool _ _ => KCommandPool | IFence => KFence | IQueryPool _ => KQueryPool | ISemaphore => KSemaphore
  end.

(** ** Commands *)

Inductive Plane := PColor | PPlane0 | PPlane1 | PPlanes01.

#[global] Instance plane_eq_dec : EqDecision Plane.
Proof. solve_decision. Defined.

(** Queue families of a barrier: none, or from one to another; [None] on the left is the
    foreign family. *)
Record ImgBarrier := {
  ib_image : Z;
  ib_plane : Plane;
  ib_layer : Z;
  ib_old : ImgLayout;
  ib_new : ImgLayout;
  ib_src_access : Z;
  ib_dst_access : Z;
  ib_families : option (option Z * Z);
}.

Definition A_SHADER_READ : Z := 0x20.
Definition A_SHADER_WRITE : Z := 0x40.
Definition A_TRANSFER_READ : Z := 0x800.
Definition A_TRANSFER_WRITE : Z := 0x1000.
Definition A_MEMORY_READ : Z := 0x8000.
Definition A_MEMORY_WRITE : Z := 0x10000.

(** [VideoEncodeInfoKHR] with the picture information chained to it; a slot is its index, the
    view of its picture and the frame number declared for it. *)
Record EncodeInfo := {
  ei_buffer : Z;
  ei_range : Z;
  ei_source_view : Z;
  ei_width : Z;
  ei_height : Z;
  ei_idr : bool;
  ei_frame_num : Z;
  ei_poc : Z;
  ei_list0 : option Z;
  ei_qp : Z;
  ei_setup : Z * Z;
  ei_references : list (Z * Z * Z);
}.

Inductive GpuCmd :=
| CBarrier (b : ImgBarrier)
| CMemoryBarrier
| CCopyBuffer (buffer image width height : Z)
| CBindPipeline (pipeline : Z)
| CBindSet (layout set : Z)
| CDispatch (x y : Z)
| CCopyImage (src dst : Z) (plane : Plane) (width height : Z)
| CClear (image : Z) (plane : Plane) (values : list Z)
| CResetQuery (pool : Z)
| CBeginCoding (session : Z) (parameters : option Z) (slots : list (Z * Z))
| CControl (reset : bool)
| CBeginQuery (pool : Z)
| CEncode (e : EncodeInfo)
| CEndQuery (pool : Z)
| CEndCoding.

Inductive vk_call : Set -> Set :=
(* the process *)
| EnvVar (name : string) : vk_call (option string)
| GpuWedged : vk_call bool
| DynamicQp : vk_call Z
| Dup (fd : Z) : vk_call Z
| CloseFd (fd : Z) : vk_call unit
(* the instance *)
| EntryLoad : vk_call bool
| CreateInstance (validate : bool) : vk_call (option Z)
| CreateMessenger (instance : Z) : vk_call (option Z)
| DestroyMessenger (instance messenger : Z) : vk_call unit
| DestroyInstance (instance : Z) : vk_call unit
| EnumeratePhysicalDevices (instance : Z) : vk_call (option (list PhysicalDevice))
| DeviceExtensions (instance : Z) (pd : PhysicalDevice) : vk_call (option (list string))
| MemoryProperties (instance : Z) (pd : PhysicalDevice) : vk_call (list Z)
| VideoCapabilities (instance : Z) (pd : PhysicalDevice) (kind : EncodeKind) : vk_call (option (list Z * Z))
| VideoFormatCount (instance : Z) (pd : PhysicalDevice) (kind : EncodeKind) (usage : Z) : vk_call (option Z)
| VideoFormats (instance : Z) (pd : PhysicalDevice) (kind : EncodeKind) (usage count : Z) :
    vk_call (option (Z * list (ImgFormat * Z)))
| ModifierCount (instance : Z) (pd : PhysicalDevice) : vk_call Z
| Modifiers (instance : Z) (pd : PhysicalDevice) (count : Z) : vk_call (list (Z * Z))
| ImageFormatOk (instance : Z) (pd : PhysicalDevice) (modifier usage : Z) : vk_call bool
| CreateDevice (instance : Z) (pd : PhysicalDevice) (families : list Z) (extensions : list string) :
    vk_call (option Z)
(* the device *)
| DeviceQueue (device family : Z) : vk_call Z
| DeviceWaitIdle (device : Z) : vk_call bool
| DestroyDevice (device : Z) : vk_call unit
| Create (device : Z) (i : CreateInfo) : vk_call (option Z)
| Destroy (device : Z) (k : VkKind) (handle : Z) : vk_call unit
| SessionMemoryCount (device session : Z) : vk_call Z
| SessionMemory (device session count : Z) : vk_call (option (list (Z * Z * Z)))
| BindSessionMemory (device session : Z) (binds : list (Z * Z * Z)) : vk_call bool
| EncodedParametersSize (device : Z) (parameters : Z) : vk_call (option Z)
| EncodedParameters (device : Z) (parameters size : Z) : vk_call (option (Z * list Z))
| ImageRequirements (device image : Z) : vk_call (Z * Z)
| BufferRequirements (device buffer : Z) : vk_call (Z * Z)
| BindImage (device image memory : Z) : vk_call bool
| BindBuffer (device buffer memory : Z) : vk_call bool
| SubresourceLayout (device image : Z) : vk_call (Z * Z)
| MapMemory (device memory offset size : Z) : vk_call bool
| WriteMapped (device memory position : Z) (bytes : list Z) : vk_call unit
| ReadMapped (device memory length : Z) : vk_call (Z -> Z)
| UnmapMemory (device memory : Z) : vk_call unit
| ResetDescriptorPool (device pool : Z) : vk_call bool
| AllocateSet (device pool set_layout : Z) : vk_call (option Z)
| UpdateSet (device set : Z) (images : list (Descriptor * Z * ImgLayout)) (sampler : Z) : vk_call unit
| AllocateCommands (device pool : Z) : vk_call (option Z)
| ResetCommands (device cb : Z) : vk_call bool
| BeginCommands (device cb : Z) : vk_call bool
| Command (device cb : Z) (c : GpuCmd) : vk_call unit
| EndCommands (device cb : Z) : vk_call bool
| ResetFence (device fence : Z) : vk_call bool
| Submit (device queue cb : Z) (wait signal fence : option Z) : vk_call bool
| WaitFence (device fence timeout_ns : Z) : vk_call bool
| QueryResults (device pool : Z) : vk_call (option (Z * Z * Z)).

Abbreviation vk_event := (event vk_call).

Section Vk.
Context `{Driver vk_call} {X : Type}.

Abbreviation Vk A := (Eff (X * list vk_event) string A).

(** [map_err(..)?] *)
Definition need {A : Set} (what : string) (c : vk_call (option A)) : Vk A :=
  a ← ask c;
  match a with Some a => mret a | None => fail what end.

Definition need_ok (what : string) (c : vk_call bool) : Vk unit :=
  ok ← ask c;
  if ok : bool then mret () else fail what.

(** [unwrap_or] and [unwrap_or_else] of a fallible query. *)
Definition or_else {A} (m : Vk A) (d : A) : Vk A :=
  r ← attempt m;
  mret (match r with Ok a => a | Err _ => d end).

(** The bytes of a string. *)
Definition bytes (s : string) : list Z := (fun c => Z.of_nat (Ascii.nat_of_ascii c)) <$> list_ascii_of_string s.

(** ** Devices *)

Definition DMABUF_IMPORT_EXTENSION_NAMES : list string :=
  ["VK_EXT_external_memory_dma_buf"; "VK_EXT_image_drm_format_modifier"]%string.
Definition H265_ENCODE_EXTENSION_NAMES : list string :=
  ["VK_KHR_video_encode_h265"; "VK_KHR_video_maintenance1"; "VK_KHR_video_maintenance2"]%string.

(** [H264_ENCODE_STD_HEADER_NAME], [H264_ENCODE_STD_HEADER_VERSION]; the name is padded with
    zeros, which are left out. *)
Definition H264_ENCODE_STD_HEADER : list Z * Z := (bytes "VK_STD_vulkan_video_codec_h264_encode", Z.shiftl 1 22).

Record VkDeviceCtx := {
  cx_instance : Z;
  cx_device : Z;
  cx_physical_device : PhysicalDevice;
  cx_compute_family : Z;
  cx_encode_family : Z;
  cx_compute_queue : Z;
  cx_encode_queue : Z;
  cx_h264_std_header : list Z * Z;
  cx_nv12_encode_src_flags : Z;
  cx_nv12_dpb_flags : Z;
  cx_yuv444_encode_src_flags : Z;
  cx_yuv444_dpb_flags : Z;
  cx_hi444_supported : bool;
  cx_dmabuf_import_supported : bool;
  cx_h265_encode_supported : bool;
  cx_hi444_std_header : list Z * Z;
  cx_debug_messenger : option Z;
}.

(** [query_h264_std_header_version], [query_hi444pp_caps] *)
Definition query_std_header (instance : Z) (pd : PhysicalDevice) (kind : EncodeKind) : Vk (list Z * Z) :=
  need "get_physical_device_video_capabilities_khr" (VideoCapabilities instance pd kind).

(** The first entry of a format. *)
Definition flags_of (f : ImgFormat) (props : list (ImgFormat * Z)) : option Z :=
  snd <$> List.find (fun p => bool_decide (p.1 = f)) props.

(** The formats reported for a usage: as many as asked for, of which the driver says how many it
    filled in. *)
Definition video_formats (instance : Z) (pd : PhysicalDevice) (kind : EncodeKind) (usage : Z) :
    Vk (list (ImgFormat * Z)) :=
  count ← need "vkGetPhysicalDeviceVideoFormatPropertiesKHR(size)" (VideoFormatCount instance pd kind usage);
  if count =? 0 then fail "no formats reported"%string
  else
    r ← need "vkGetPhysicalDeviceVideoFormatPropertiesKHR(data)" (VideoFormats instance pd kind usage count);
    mret (take (Z.to_nat (fst r)) (take (Z.to_nat count) (snd r ++ replicate (Z.to_nat count) (OtherFormat 0, 0)))).

(** [query_nv12_image_flags] *)
Definition query_nv12_image_flags (instance : Z) (pd : PhysicalDevice) (usage : Z) : Vk Z :=
  props ← video_formats instance pd Main420 usage;
  match flags_of TwoPlane420 props with
  | Some f => mret f
  | None => fail "no G8_B8R8_2PLANE_420_UNORM entry"%string
  end.

(** [query_yuv444_image_flags]: two planes are preferred. *)
Definition query_yuv444_image_flags (instance : Z) (pd : PhysicalDevice) (usage : Z) : Vk Z :=
  props ← video_formats instance pd Hi444Lossless usage;
  match flags_of TwoPlane444 props with
  | Some f => mret f
  | None =>
      match flags_of ThreePlane444 props with
      | Some f => mret f
      | None => fail "no 4:4:4 YUV format"%string
      end
  end.

Definition ENCODE_SRC_USAGE : Z := Z.lor U_ENCODE_SRC (Z.lor U_TRANSFER_DST U_TRANSFER_SRC).

(** MUTABLE_FORMAT, ALIAS and EXTENDED_USAGE *)
Definition AMD_DEFAULT_FLAGS : Z := Z.lor 0x8 (Z.lor 0x400 0x100).

(** [device_ext_owned] of [open]. *)
Definition device_extensions (exts : list string) : list string :=
  REQUIRED_DEVICE_EXTENSION_NAMES
  ++ (if forallb (fun n => has_ext n exts) DMABUF_IMPORT_EXTENSION_NAMES then DMABUF_IMPORT_EXTENSION_NAMES else [])
  ++ (if has_ext "VK_KHR_video_encode_h265" exts
      then List.filter (fun n => has_ext n exts) H265_ENCODE_EXTENSION_NAMES else []).

(** The extensions of a device that was enumerated without an error. *)
Definition found_extensions (pd : PhysicalDevice) : list string :=
  match pd_extensions pd with Ok exts => exts | Err _ => [] end.

Definition open_messenger (validate : bool) (instance : Z) : Vk (option Z) :=
  if validate then ask (CreateMessenger instance) else mret None.

(** What [open] asks about the H.264 profiles of the device it has chosen. *)
Definition open_profiles (instance : Z) (pd : PhysicalDevice) :
    Vk ((list Z * Z) * Z * Z * option (list Z * Z) * Z * Z) :=
  header ← or_else (query_std_header instance pd Main420) H264_ENCODE_STD_HEADER;
  src ← or_else (query_nv12_image_flags instance pd ENCODE_SRC_USAGE) AMD_DEFAULT_FLAGS;
  dpb ← or_else (query_nv12_image_flags instance pd U_ENCODE_DPB) 0;
  hi444 ← attempt (query_std_header instance pd Hi444Lossless);
  match hi444 with
  | Ok h =>
      src444 ← or_else (query_yuv444_image_flags instance pd ENCODE_SRC_USAGE) 0;
      dpb444 ← or_else (query_yuv444_image_flags instance pd U_ENCODE_DPB) 0;
      mret (header, src, dpb, Some h, src444, dpb444)
  | Err _ => mret (header, src, dpb, None, 0, 0)
  end.

(** [open] from the choice of a device on. *)
Definition ctx_device (instance : Z) (messenger : option Z) : Vk VkDeviceCtx :=
  pds ← need "enumerate_physical_devices" (EnumeratePhysicalDevices instance);
  match select_physical_device pds with
  | Err _ => fail "select_physical_device"%string
  | Ok (pd, compute, encode) =>
      let exts := found_extensions pd in
      let compute := Z.of_nat compute in
      let encode := Z.of_nat encode in
      device ← need "create_device"
        (CreateDevice instance pd (compute :: if encode =? compute then [] else [encode]) (device_extensions exts));
      compute_queue ← ask (DeviceQueue device compute);
      encode_queue ← ask (DeviceQueue device encode);
      p ← open_profiles instance pd;
      let '(header, src, dpb, hi444, src444, dpb444) := p in
      mret {| cx_instance := instance; cx_device := device; cx_physical_device := pd;
              cx_compute_family := compute; cx_encode_family := encode;
              cx_compute_queue := compute_queue; cx_encode_queue := encode_queue;
              cx_h264_std_header := header;
              cx_nv12_encode_src_flags := src; cx_nv12_dpb_flags := dpb;
              cx_yuv444_encode_src_flags := src444; cx_yuv444_dpb_flags := dpb444;
              cx_hi444_supported := match hi444 with Some _ => true | None => false end;
              cx_dmabuf_import_supported := forallb (fun n => has_ext n exts) DMABUF_IMPORT_EXTENSION_NAMES;
              cx_h265_encode_supported := has_ext "VK_KHR_video_encode_h265" exts;
              cx_hi444_std_header := default H264_ENCODE_STD_HEADER hi444;
              cx_debug_messenger := messenger |}
  end.

(** [VkDeviceCtx::open]: an error leaves what was created before it. *)
Definition ctx_open : Vk VkDeviceCtx :=
  loaded ← ask EntryLoad;
  if negb loaded then fail "ash::Entry::load"%string
  else
    var ← ask (EnvVar "WAYMUX_VK_VALIDATE");
    let validate := bool_decide (var = Some "1"%string) in
    instance ← need "create_instance" (CreateInstance validate);
    messenger ← open_messenger validate instance;
    ctx_device instance messenger.

(** [enabled_dev_extensions]: the list for libav, from a second look at the device. *)
Definition enabled_dev_extensions (cx : VkDeviceCtx) : Vk (list string) :=
  exts ← ask (DeviceExtensions (cx_instance cx) (cx_physical_device cx));
  let exts := default [] exts in
  mret (REQUIRED_DEVICE_EXTENSION_NAMES
        ++ (if cx_dmabuf_import_supported cx then DMABUF_IMPORT_EXTENSION_NAMES else [])
        ++ (if cx_h265_encode_supported cx
            then List.filter (fun n => has_ext n exts) H265_ENCODE_EXTENSION_NAMES else [])).

(** [Drop]: no wait on a device that is known to hang. *)
Definition ctx_drop (cx : VkDeviceCtx) : Vk unit :=
  wedged ← ask GpuWedged;
  (if wedged : bool then mret () else _ ← ask (DeviceWaitIdle (cx_device cx)); mret ()) ;;
  ask (DestroyDevice (cx_device cx)) ;;
  match cx_debug_messenger cx with
  | Some m => ask (DestroyMessenger (cx_instance cx) m)
  | None => mret ()
  end ;;
  ask (DestroyInstance (cx_instance cx)).

(** ** The video session *)

Record EncodeSession := {
  es_session : Z;
  es_memory : list Z;
  es_parameters : option Z;
  es_codec_private : list Z;
  es_sps_pps_annexb : list Z;
  es_width : Z;
  es_height : Z;
  es_kind : EncodeKind;
  es_device : Z;
}.

Definition free_all (dev : Z) (memory : list Z) : Vk unit := each memory (fun m => ask (Destroy dev KMemory m)).

Definition cleanup_partial (dev : Z) (allocated : list Z) (session : Z) : Vk unit :=
  ask (Destroy dev KSession session) ;; free_all dev allocated.

(** Prefer device-local memory, take any other the mask allows. *)
Definition session_memory_type (props : list Z) (mask : Z) : option nat :=
  match pick_memory_type props mask DEVICE_LOCAL with
  | Some t => Some t
  | None => pick_memory_type props mask 0
  end.

(** One allocation per requirement (bind index, size, mask): the memories and what is to be
    bound. *)
Fixpoint session_memory (dev session : Z) (props : list Z) (reqs : list (Z * Z * Z))
    (allocated : list Z) (binds : list (Z * Z * Z)) : Vk (list Z * list (Z * Z * Z)) :=
  match reqs with
  | [] => mret (allocated, binds)
  | (index, size, mask) :: reqs =>
      match session_memory_type props mask with
      | None => cleanup_partial dev allocated session ;; fail "no memory type satisfying mask"%string
      | Some t =>
          m ← ask (Create dev (IMemory size (Z.of_nat t)));
          match m with
          | None => cleanup_partial dev allocated session ;; fail "allocate_memory for video session"%string
          | Some m => session_memory dev session props reqs (allocated ++ [m]) (binds ++ [(index, m, size)])
          end
      end
  end.

(** The profile, the reference slots and the header of a kind. *)
Definition session_info (cx : VkDeviceCtx) (width height : Z) (kind : EncodeKind) : SessionInfo :=
  let idr_only := match kind with Hi444Lossless => true | Main420 => false end in
  {| si_family := cx_encode_family cx; si_kind := kind; si_width := width; si_height := height;
     si_dpb_slots := if idr_only then 1 else 2; si_references := if idr_only then 0 else 1;
     si_std_header := match kind with Main420 => cx_h264_std_header cx | Hi444Lossless => cx_hi444_std_header cx end |}.

(** [EncodeSession::new_with_kind] *)
Definition session_new (cx : VkDeviceCtx) (width height : Z) (kind : EncodeKind) : Vk EncodeSession :=
  if negb (width mod 2 =? 0) || negb (height mod 2 =? 0) then fail "H.264 needs even dimensions"%string
  else
    let dev := cx_device cx in
    session ← need "vkCreateVideoSessionKHR" (Create dev (ISession (session_info cx width height kind)));
    count ← ask (SessionMemoryCount dev session);
    reqs ← ask (SessionMemory dev session count);
    match reqs with
    | None => ask (Destroy dev KSession session) ;; fail "vkGetVideoSessionMemoryRequirementsKHR"%string
    | Some reqs =>
        let reqs := take (Z.to_nat count) (reqs ++ replicate (Z.to_nat count) (0, 0, 0)) in
        props ← ask (MemoryProperties (cx_instance cx) (cx_physical_device cx));
        m ← session_memory dev session props reqs [] [];
        bound ← ask (BindSessionMemory dev session (snd m));
        if negb bound then cleanup_partial dev (fst m) session ;; fail "vkBindVideoSessionMemoryKHR"%string
        else
          mret {| es_session := session; es_memory := fst m; es_parameters := None; es_codec_private := [];
                  es_sps_pps_annexb := []; es_width := width; es_height := height; es_kind := kind;
                  es_device := dev |}
    end.

(** [EncodeSession::new_lossless] *)
Definition session_new_lossless (cx : VkDeviceCtx) (width height : Z) : Vk EncodeSession :=
  if negb (cx_hi444_supported cx) then fail "Hi444PP not supported"%string
  else session_new cx width height Hi444Lossless.

(** [create_parameters], of a session that has none yet: how it is afterwards, and whether it
    failed. *)
Definition session_parameters (s : EncodeSession) : Vk (EncodeSession * result unit string) :=
  let dev := es_device s in
  let sps := build_h264_sps (es_width s) (es_height s) (es_kind s) in
  p ← ask (Create dev (IParameters (es_session s) sps (build_h264_pps (es_kind s))));
  match p with
  | None => mret (s, Err "vkCreateVideoSessionParametersKHR"%string)
  | Some p =>
      let made annexb private :=
        {| es_session := es_session s; es_memory := es_memory s; es_parameters := Some p;
           es_codec_private := private; es_sps_pps_annexb := annexb; es_width := es_width s;
           es_height := es_height s; es_kind := es_kind s; es_device := es_device s |} in
      size ← ask (EncodedParametersSize dev p);
      match size with
      | None =>
          match es_kind s with
          | Hi444Lossless =>
              mret (made (es_sps_pps_annexb s) (build_synthetic_avcc (sps_profile_idc sps) (sps_level_idc sps)), Ok ())
          | Main420 =>
              mret (made (es_sps_pps_annexb s) (es_codec_private s),
                    Err "vkGetEncodedVideoSessionParametersKHR(size)"%string)
          end
      | Some size =>
          r ← ask (EncodedParameters dev p size);
          match r with
          | None =>
              mret (made (es_sps_pps_annexb s) (es_codec_private s),
                    Err "vkGetEncodedVideoSessionParametersKHR(data)"%string)
          | Some (size', data) =>
              let buf := take (Z.to_nat size') (take (Z.to_nat size) (data ++ replicate (Z.to_nat size) 0)) in
              match build_avc_decoder_config_record (split_annexb_nalus buf) with
              | Ok private => mret (made buf private, Ok ())
              | Err _ => mret (made buf (es_codec_private s), Err "build_avc_decoder_config_record"%string)
              end
          end
      end
  end.

Definition session_drop (s : EncodeSession) : Vk unit :=
  match es_parameters s with
  | Some p => ask (Destroy (es_device s) KParameters p)
  | None => mret ()
  end ;;
  ask (Destroy (es_device s) KSession (es_session s)) ;;
  free_all (es_device s) (es_memory s).

(** ** The pipeline of the colour shader *)

(** [BgraToNv12Pipeline], [BgraToYuv444Pipeline] *)
Record ColorPipeline := {
  pi_set_layout : Z;
  pi_layout : Z;
  pi_shader : Z;
  pi_pipeline : Z;
  pi_pool : Z;
  pi_sampler : Z;
  pi_device : Z;
}.

Definition pipeline_new (shader : Shader) (cx : VkDeviceCtx) (sets : Z) : Vk ColorPipeline :=
  let dev := cx_device cx in
  set_layout ← need "create_descriptor_set_layout"
    (Create dev (ISetLayout [CombinedSampler; StorageImage; StorageImage]));
  layout ← need "create_pipeline_layout" (Create dev (IPipelineLayout set_layout));
  sh ← need "create_shader_module" (Create dev (IShader shader));
  pipeline ← need "create_compute_pipelines" (Create dev (IPipeline layout sh));
  pool ← need "create_descriptor_pool" (Create dev (IDescriptorPool sets sets (as_u 32 (2 * sets))));
  sampler ← need "create_sampler" (Create dev ISampler);
  mret {| pi_set_layout := set_layout; pi_layout := layout; pi_shader := sh; pi_pipeline := pipeline;
          pi_pool := pool; pi_sampler := sampler; pi_device := dev |}.

(** What a drop destroys, in this order. *)
Definition destroy_all (dev : Z) (l : list (VkKind * Z)) : Vk unit :=
  each l (fun o => ask (Destroy dev (fst o) (snd o))).

Definition pipeline_objects (p : ColorPipeline) : list (VkKind * Z) :=
  [ (KSampler, pi_sampler p); (KDescriptorPool, pi_pool p); (KPipeline, pi_pipeline p);
    (KShader, pi_shader p); (KPipelineLayout, pi_layout p); (KSetLayout, pi_set_layout p) ].

Definition pipeline_drop (p : ColorPipeline) : Vk unit := destroy_all (pi_device p) (pipeline_objects p).

(** ** Images and buffers *)

(** [alloc_image_memory], [alloc_buffer_memory] *)
Definition alloc_memory (what : string) (dev : Z) (props : list Z) (req : vk_call (Z * Z)) (flags : Z) : Vk Z :=
  r ← ask req;
  match pick_memory_type props (snd r) flags with
  | None => fail ("no memory type for " +:+ what)
  | Some t => need ("allocate_memory(" +:+ what +:+ ")") (Create dev (IMemory (fst r) (Z.of_nat t)))
  end.

Definition alloc_image_memory (dev : Z) (props : list Z) (image flags : Z) : Vk Z :=
  alloc_memory "image" dev props (ImageRequirements dev image) flags.
Definition alloc_buffer_memory (dev : Z) (props : list Z) (buffer flags : Z) : Vk Z :=
  alloc_memory "buffer" dev props (BufferRequirements dev buffer) flags.

Definition create_full_image_view (dev image : Z) (format : ImgFormat) : Vk Z :=
  need "create_image_view" (Create dev (IView image format 0)).
Definition create_dpb_layer_view (dev image : Z) (format : ImgFormat) (layer : Z) : Vk Z :=
  need "create_image_view(dpb layer)" (Create dev (IView image format layer)).

(** An image with its memory, as it is made at every place. *)
Definition make_image (what : string) (dev : Z) (props : list Z) (i : ImageInfo) : Vk (Z * Z) :=
  image ← need ("create_image(" +:+ what +:+ ")") (Create dev (IImage i));
  memory ← alloc_image_memory dev props image DEVICE_LOCAL;
  need_ok ("bind_image_memory(" +:+ what +:+ ")") (BindImage dev image memory) ;;
  mret (image, memory).

Definition make_buffer (what : string) (dev : Z) (props : list Z) (size : Z) (use : BufferUse)
    (profile : option EncodeKind) : Vk (Z * Z) :=
  buffer ← need ("create_buffer(" +:+ what +:+ ")") (Create dev (IBuffer size use profile));
  memory ← alloc_buffer_memory dev props buffer HOST_VISIBLE_COHERENT;
  need_ok ("bind_buffer_memory(" +:+ what +:+ ")") (BindBuffer dev buffer memory) ;;
  mret (buffer, memory).

Definition plain_image (format : ImgFormat) (width height usage : Z) : ImageInfo :=
  {| ii_format := format; ii_width := width; ii_height := height; ii_layers := 1; ii_tiling := Optimal;
     ii_usage := usage; ii_flags := 0; ii_profile := None; ii_initial := UNDEFINED |}.

Definition picture_format (kind : EncodeKind) : ImgFormat :=
  match kind with Main420 => TwoPlane420 | Hi444Lossless => TwoPlane444 end.

Definition video_image (kind : EncodeKind) (width height layers usage flags : Z) : ImageInfo :=
  {| ii_format := picture_format kind; ii_width := width; ii_height := height; ii_layers := layers;
     ii_tiling := Optimal; ii_usage := usage; ii_flags := flags; ii_profile := Some kind; ii_initial := UNDEFINED |}.

(** [FrameResources] and [FrameResources444]: the picture is [nv12_image] or [yuv_image]; the
    second view of the DPB and the coded size belong to one of the two. *)
Record FrameResources := {
  fr_device : Z;
  fr_width : Z;
  fr_height : Z;
  fr_coded_width : Z;
  fr_coded_height : Z;
  fr_bgra_image : Z;
  fr_bgra_view : Z;
  fr_bgra_memory : Z;
  fr_picture_image : Z;
  fr_picture_view : Z;
  fr_picture_memory : Z;
  fr_dpb_image : Z;
  fr_dpb_view : Z;
  fr_dpb_view2 : option Z;
  fr_dpb_memory : Z;
  fr_y_image : Z;
  fr_y_view : Z;
  fr_y_memory : Z;
  fr_uv_image : Z;
  fr_uv_view : Z;
  fr_uv_memory : Z;
  fr_staging_buffer : Z;
  fr_staging_memory : Z;
  fr_staging_size : Z;
  fr_encoded_buffer : Z;
  fr_encoded_memory : Z;
  fr_encoded_size : Z;
  fr_command_pool : Z;
  fr_command_buffer : Z;
  fr_fence : Z;
  fr_query_pool : Z;
}.

(** What differs between the two: the coded size, the flags of picture and DPB, the divisor of
    the chroma plane, the layers of the DPB and the room for a picture. *)
Record FrameShape := {
  fs_kind : EncodeKind;
  fs_coded : Z -> Z;
  fs_chroma : Z;
  fs_dpb_layers : Z;
  fs_room : Z;
  fs_src_flags : VkDeviceCtx -> Z;
  fs_dpb_flags : VkDeviceCtx -> Z;
}.

Definition shape420 : FrameShape :=
  {| fs_kind := Main420; fs_coded := fun n => n; fs_chroma := 2; fs_dpb_layers := 2; fs_room := 1;
     fs_src_flags := cx_nv12_encode_src_flags; fs_dpb_flags := cx_nv12_dpb_flags |}.
Definition shape444 : FrameShape :=
  {| fs_kind := Hi444Lossless; fs_coded := align_to_ctu; fs_chroma := 1; fs_dpb_layers := 1; fs_room := 3;
     fs_src_flags := cx_yuv444_encode_src_flags; fs_dpb_flags := cx_yuv444_dpb_flags |}.

Definition dpb_first_view (dev image : Z) (s : FrameShape) : Vk Z :=
  match fs_kind s with
  | Main420 => create_dpb_layer_view dev image (picture_format (fs_kind s)) 0
  | Hi444Lossless => create_full_image_view dev image (picture_format (fs_kind s))
  end.

Definition dpb_second_view (dev image : Z) (s : FrameShape) : Vk (option Z) :=
  match fs_kind s with
  | Main420 => v ← create_dpb_layer_view dev image (picture_format (fs_kind s)) 1; mret (Some v)
  | Hi444Lossless => mret None
  end.

(** The body of both [new]: every [?] returns without releasing anything. *)
Definition frames_make (s : FrameShape) (cx : VkDeviceCtx) (width height : Z) : Vk FrameResources :=
  let dev := cx_device cx in
  let kind := fs_kind s in
  let cw := fs_coded s width in
  let ch := fs_coded s height in
  props ← ask (MemoryProperties (cx_instance cx) (cx_physical_device cx));
  bgra ← make_image "bgra" dev props (plain_image B8G8R8A8 width height (Z.lor U_SAMPLED U_TRANSFER_DST));
  bgra_view ← create_full_image_view dev (fst bgra) B8G8R8A8;
  picture ← make_image "picture" dev props (video_image kind cw ch 1 ENCODE_SRC_USAGE (fs_src_flags s cx));
  picture_view ← create_full_image_view dev (fst picture) (picture_format kind);
  dpb ← make_image "dpb" dev props (video_image kind cw ch (fs_dpb_layers s) U_ENCODE_DPB (fs_dpb_flags s cx));
  dpb_view ← dpb_first_view dev (fst dpb) s;
  dpb_view2 ← dpb_second_view dev (fst dpb) s;
  y ← make_image "y_storage" dev props (plain_image R8 width height (Z.lor U_STORAGE U_TRANSFER_SRC));
  y_view ← create_full_image_view dev (fst y) R8;
  uv ← make_image "uv_storage" dev props
    (plain_image R8G8 (width / fs_chroma s) (height / fs_chroma s) (Z.lor U_STORAGE U_TRANSFER_SRC));
  uv_view ← create_full_image_view dev (fst uv) R8G8;
  let staging_size := as_u 64 (width * height * 4) in
  staging ← make_buffer "staging" dev props staging_size StagingSource None;
  let encoded_size := as_u 64 (width * height * fs_room s) in
  encoded ← make_buffer "encoded" dev props encoded_size EncodeTarget (Some kind);
  pool ← need "create_command_pool" (Create dev (ICommandPool (cx_encode_family cx) false));
  cb ← need "allocate_command_buffers" (AllocateCommands dev pool);
  fence ← need "create_fence" (Create dev IFence);
  query_pool ← need "create_query_pool" (Create dev (IQueryPool kind));
  mret {| fr_device := dev; fr_width := width; fr_height := height; fr_coded_width := cw; fr_coded_height := ch;
          fr_bgra_image := fst bgra; fr_bgra_view := bgra_view; fr_bgra_memory := snd bgra;
          fr_picture_image := fst picture; fr_picture_view := picture_view; fr_picture_memory := snd picture;
          fr_dpb_image := fst dpb; fr_dpb_view := dpb_view; fr_dpb_view2 := dpb_view2; fr_dpb_memory := snd dpb;
          fr_y_image := fst y; fr_y_view := y_view; fr_y_memory := snd y;
          fr_uv_image := fst uv; fr_uv_view := uv_view; fr_uv_memory := snd uv;
          fr_staging_buffer := fst staging; fr_staging_memory := snd staging; fr_staging_size := staging_size;
          fr_encoded_buffer := fst encoded; fr_encoded_memory := snd encoded; fr_encoded_size := encoded_size;
          fr_command_pool := pool; fr_command_buffer := cb; fr_fence := fence; fr_query_pool := query_pool |}.

(** [FrameResources::new] *)
Definition frames_new (cx : VkDeviceCtx) (width height : Z) : Vk FrameResources :=
  frames_make shape420 cx width height.

(** [FrameResources444::new] *)
Definition frames444_new (cx : VkDeviceCtx) (width height : Z) : Vk FrameResources :=
  if negb (cx_hi444_supported cx) then fail "Hi444PP not supported on this device"%string
  else frames_make shape444 cx width height.

Definition fence_timeout : Vk Z :=
  var ← ask (EnvVar "WAYMUX_VK_FENCE_TIMEOUT_NS"); mret (fence_timeout_ns var).

(** What both drops destroy, in their order. *)
Definition frame_objects (fr : FrameResources) : list (VkKind * Z) :=
  [ (KQueryPool, fr_query_pool fr); (KFence, fr_fence fr); (KCommandPool, fr_command_pool fr);
    (KBuffer, fr_encoded_buffer fr); (KMemory, fr_encoded_memory fr);
    (KBuffer, fr_staging_buffer fr); (KMemory, fr_staging_memory fr);
    (KView, fr_picture_view fr); (KImage, fr_picture_image fr); (KMemory, fr_picture_memory fr);
    (KView, fr_dpb_view fr) ]
  ++ match fr_dpb_view2 fr with Some v => [(KView, v)] | None => [] end
  ++ [ (KImage, fr_dpb_image fr); (KMemory, fr_dpb_memory fr);
       (KView, fr_uv_view fr); (KImage, fr_uv_image fr); (KMemory, fr_uv_memory fr);
       (KView, fr_y_view fr); (KImage, fr_y_image fr); (KMemory, fr_y_memory fr);
       (KView, fr_bgra_view fr); (KImage, fr_bgra_image fr); (KMemory, fr_bgra_memory fr) ].

(** A bounded wait for the fence, then everything. *)
Definition frames_drop (fr : FrameResources) : Vk unit :=
  timeout ← fence_timeout;
  _ ← ask (WaitFence (fr_device fr) (fr_fence fr) timeout);
  destroy_all (fr_device fr) (frame_objects fr).
End Vk.
