(* ===== verification/VulkanFrames.v ===== *)
(** * Frames of the Vulkan encoder
      ([crates/waymux-session/src/vulkan_record.rs])

    The import of a client's dmabuf and the upload of pixels as images, the modifiers that can
    be imported, the two command buffers of a picture (colour conversion on the compute queue,
    encoding on the video queue), and the recorders that own it all. The cell of importable
    modifiers, which the process fills once, is the state. *)

From Stdlib Require Import ZArith Lia String.
From stdpp Require Import prelude strings list gmultiset.
From S2P Require Import Prelude Words Decimal Composite SessionInput SessionRecord Driver Dmabuf H264 Vulkan.

Open Scope Z_scope.

(** ** Modifiers *)

Abbreviation Cache := (option (list Z)).

Section Frames.
Context `{Driver vk_call}.

Abbreviation Vk A := (Eff (Cache * list vk_event) string A).

(** Which of the modifiers a device knows can be imported. *)
Fixpoint importable (instance : Z) (pd : PhysicalDevice) (props : list (Z * Z)) : Vk (list Z) :=
  match props with
  | [] => mret []
  | (modifier, planes) :: props =>
      if negb (planes =? 1) then importable instance pd props
      else
        ok ← ask (ImageFormatOk instance pd modifier (Z.lor U_SAMPLED U_TRANSFER_SRC));
        rest ← importable instance pd props;
        mret (if ok : bool then modifier :: rest else rest)
  end.

(** What [query_importable_bgra_modifiers] asks of an open device. *)
Definition query_modifiers (cx : VkDeviceCtx) : Vk (list Z) :=
  if negb (cx_dmabuf_import_supported cx) then fail "no dmabuf import"%string
  else
    count ← ask (ModifierCount (cx_instance cx) (cx_physical_device cx));
    if count =? 0 then mret []
    else
      props ← ask (Modifiers (cx_instance cx) (cx_physical_device cx) count);
      importable (cx_instance cx) (cx_physical_device cx)
        (take (Z.to_nat count) (props ++ replicate (Z.to_nat count) (0, 0))).

(** The device is opened for the query and dropped with it. *)
Definition query_importable_bgra_modifiers : Vk (list Z) :=
  cx ← ctx_open;
  r ← attempt (query_modifiers cx);
  ctx_drop cx ;;
  match r with Ok l => mret l | Err e => fail e end.

Definition vulkan_importable_bgra_modifiers : Vk (list Z) :=
  cache ← here;
  match cache with
  | Some set => mret set
  | None =>
      q ← attempt query_importable_bgra_modifiers;
      let set := with_linear (match q with Ok l => l | Err _ => [] end) in
      change (fun _ => Some set) ;;
      mret set
  end.

Definition modifier_is_importable (modifier : Z) : Vk bool :=
  set ← vulkan_importable_bgra_modifiers;
  mret (bool_decide (modifier ∈ set)).

(** ** Images of pixels *)

Record ImportedDmabufImage := {
  im_image : Z;
  im_memory : Z;
  im_width : Z;
  im_height : Z;
  im_format : ImgFormat;
}.

(** [ImportedDmabufImage::destroy] *)
Definition imported_destroy (cx : VkDeviceCtx) (im : ImportedDmabufImage) : Vk unit :=
  ask (Destroy (cx_device cx) KImage (im_image im)) ;; ask (Destroy (cx_device cx) KMemory (im_memory im)).

Definition drm_to_vk (drm_format : Z) : option ImgFormat :=
  if (drm_format =? DRM_FORMAT_ARGB8888) || (drm_format =? DRM_FORMAT_XRGB8888) then Some B8G8R8A8 else None.

Definition dmabuf_image (dma : DmabufBufferData) (format : ImgFormat) (width height usage : Z) : ImageInfo :=
  {| ii_format := format; ii_width := width; ii_height := height; ii_layers := 1;
     ii_tiling := OfDmabuf (if negb (db_modifier dma =? DRM_FORMAT_MOD_LINEAR)
                            then Some (as_u 64 (db_offset dma), as_u 64 (db_stride dma), db_modifier dma) else None);
     ii_usage := usage; ii_flags := 0; ii_profile := None; ii_initial := UNDEFINED |}.

(** An image over a copy of the descriptor, as both imports make it: up to the memory, failures
    close the descriptor and destroy the image. *)
Definition import_image (cx : VkDeviceCtx) (dma : DmabufBufferData) (i : ImageInfo) : Vk (Z * Z) :=
  let dev := cx_device cx in
  fd ← ask (Dup (db_fd dma));
  if fd <? 0 then fail "dup(dmabuf fd)"%string
  else
    image ← ask (Create dev (IImage i));
    match image with
    | None => ask (CloseFd fd) ;; fail "create_image(dmabuf)"%string
    | Some image =>
        req ← ask (ImageRequirements dev image);
        props ← ask (MemoryProperties (cx_instance cx) (cx_physical_device cx));
        match pick_memory_type props (snd req) 0 with
        | None => ask (CloseFd fd) ;; ask (Destroy dev KImage image) ;; fail "no memory type for dmabuf import"%string
        | Some t =>
            memory ← ask (Create dev (IImported (fst req) (Z.of_nat t) fd image));
            match memory with
            | None =>
                ask (CloseFd fd) ;; ask (Destroy dev KImage image) ;; fail "allocate_memory(dmabuf import)"%string
            | Some memory => mret (image, memory)
            end
        end
    end.

Definition import_dmabuf_as_transfer_src (cx : VkDeviceCtx) (dma : DmabufBufferData) : Vk ImportedDmabufImage :=
  let dev := cx_device cx in
  ok ← modifier_is_importable (db_modifier dma);
  if negb ok then fail "dmabuf modifier not in Vulkan-importable set"%string
  else
    match drm_to_vk (db_drm_format dma) with
    | None => fail "unsupported drm_format"%string
    | Some format =>
        let width := as_u 32 (db_width dma) in
        let height := as_u 32 (db_height dma) in
        i ← import_image cx dma (dmabuf_image dma format width height U_TRANSFER_SRC);
        let '(image, memory) := i in
        bound ← ask (BindImage dev image memory);
        if negb bound then
          ask (Destroy dev KMemory memory) ;; ask (Destroy dev KImage image) ;; fail "bind_image_memory(dmabuf)"%string
        else
          mret {| im_image := image; im_memory := memory; im_width := width; im_height := height; im_format := format |}
    end.

(** The rows of an upload: each is copied to its place in the mapped memory. *)
Definition write_rows (dev memory offset row_pitch row_bytes height : Z) (bgra : list Z) : Vk unit :=
  each (seqZ 0 height) (fun row =>
    ask (WriteMapped dev memory (as_u 64 (offset + as_u 64 (row * row_pitch)))
           (take (Z.to_nat row_bytes) (drop (Z.to_nat (row * row_bytes)) bgra)))).

Definition linear_image (width height : Z) : ImageInfo :=
  {| ii_format := B8G8R8A8; ii_width := width; ii_height := height; ii_layers := 1; ii_tiling := Linear;
     ii_usage := U_TRANSFER_SRC; ii_flags := 0; ii_profile := None; ii_initial := PREINITIALIZED |}.

Definition upload_bgra_to_transfer_src (cx : VkDeviceCtx) (bgra : list Z) (width height : Z) :
    Vk ImportedDmabufImage :=
  let dev := cx_device cx in
  let row_bytes := as_u 64 (width * 4) in
  let expected := as_u 64 (row_bytes * height) in
  if Z.of_nat (length bgra) <? expected then fail "bgra buffer too small"%string
  else
    image ← need "create_image(bgra upload)" (Create dev (IImage (linear_image width height)));
    req ← ask (ImageRequirements dev image);
    props ← ask (MemoryProperties (cx_instance cx) (cx_physical_device cx));
    match pick_memory_type props (snd req) HOST_VISIBLE_COHERENT with
    | None => ask (Destroy dev KImage image) ;; fail "no host-visible memory type for bgra upload"%string
    | Some t =>
        memory ← ask (Create dev (IMemory (fst req) (Z.of_nat t)));
        match memory with
        | None => ask (Destroy dev KImage image) ;; fail "allocate_memory(bgra upload)"%string
        | Some memory =>
            let undo := ask (Destroy dev KMemory memory) ;; ask (Destroy dev KImage image) in
            bound ← ask (BindImage dev image memory);
            if negb bound then undo ;; fail "bind_image_memory(bgra upload)"%string
            else
              layout ← ask (SubresourceLayout dev image);
              let '(offset, row_pitch) := layout in
              let map_size := Z.min (as_u 64 (offset + as_u 64 (row_pitch * height))) (fst req) in
              mapped ← ask (MapMemory dev memory 0 map_size);
              if negb mapped then undo ;; fail "map_memory(bgra upload)"%string
              else
                write_rows dev memory offset row_pitch row_bytes height bgra ;;
                ask (UnmapMemory dev memory) ;;
                mret {| im_image := image; im_memory := memory; im_width := width; im_height := height;
                        im_format := B8G8R8A8 |}
        end
    end.

(** ** Barriers *)

Definition image_layout_barrier (image : Z) (plane : Plane) (old new : ImgLayout) (src dst : Z) : GpuCmd :=
  CBarrier {| ib_image := image; ib_plane := plane; ib_layer := 0; ib_old := old; ib_new := new;
              ib_src_access := src; ib_dst_access := dst; ib_families := None |}.

Definition dpb_layer_layout_barrier (image layer : Z) (old new : ImgLayout) (src dst : Z) : GpuCmd :=
  CBarrier {| ib_image := image; ib_plane := PColor; ib_layer := layer; ib_old := old; ib_new := new;
              ib_src_access := src; ib_dst_access := dst; ib_families := None |}.

(** The picture from the compute family to the encode family: the same barrier on both sides but
    for the accesses. *)
Definition ownership_barrier (cx : VkDeviceCtx) (image src dst : Z) : GpuCmd :=
  CBarrier {| ib_image := image; ib_plane := PPlanes01; ib_layer := 0;
              ib_old := TRANSFER_DST_OPTIMAL; ib_new := VIDEO_ENCODE_SRC_KHR;
              ib_src_access := src; ib_dst_access := dst;
              ib_families := Some (Some (cx_compute_family cx), cx_encode_family cx) |}.

(** ** The colour conversion on the compute queue *)

(** [PicParams] names the slots; slot 1 is the second view, every other the first. *)
Definition view_for (fr : FrameResources) (slot : Z) : Z :=
  if slot =? 1 then default 0 (fr_dpb_view2 fr) else fr_dpb_view fr.

(** The pixels into the staging buffer. *)
Definition upload_staging (cx : VkDeviceCtx) (fr : FrameResources) (bgra : list Z) : Vk unit :=
  let dev := cx_device cx in
  need_ok "map_memory(staging)" (MapMemory dev (fr_staging_memory fr) 0 (fr_staging_size fr)) ;;
  ask (WriteMapped dev (fr_staging_memory fr) 0 bgra) ;;
  ask (UnmapMemory dev (fr_staging_memory fr)).

(** The one descriptor set, for the image to be converted. *)
Definition color_set (cx : VkDeviceCtx) (fr : FrameResources) (pipe : ColorPipeline) (src_view : Z) : Vk Z :=
  let dev := cx_device cx in
  need_ok "reset_descriptor_pool" (ResetDescriptorPool dev (pi_pool pipe)) ;;
  set ← need "allocate_descriptor_sets" (AllocateSet dev (pi_pool pipe) (pi_set_layout pipe));
  ask (UpdateSet dev set
         [ (CombinedSampler, src_view, SHADER_READ_ONLY_OPTIMAL);
           (StorageImage, fr_y_view fr, GENERAL); (StorageImage, fr_uv_view fr, GENERAL) ] (pi_sampler pipe)) ;;
  mret set.

(** A pool for this picture with a command buffer that is recording. *)
Definition compute_commands (cx : VkDeviceCtx) : Vk (Z * Z) :=
  let dev := cx_device cx in
  pool ← need "create_command_pool(compute)" (Create dev (ICommandPool (cx_compute_family cx) true));
  cb ← need "allocate_command_buffers(compute)" (AllocateCommands dev pool);
  need_ok "begin_command_buffer(compute)" (BeginCommands dev cb) ;;
  mret (pool, cb).

(** Pixels of the staging buffer to the image the shader reads. *)
Definition staging_commands (fr : FrameResources) : list GpuCmd :=
  [ image_layout_barrier (fr_bgra_image fr) PColor UNDEFINED TRANSFER_DST_OPTIMAL 0 A_TRANSFER_WRITE;
    CCopyBuffer (fr_staging_buffer fr) (fr_bgra_image fr) (fr_width fr) (fr_height fr);
    image_layout_barrier (fr_bgra_image fr) PColor TRANSFER_DST_OPTIMAL SHADER_READ_ONLY_OPTIMAL
      A_TRANSFER_WRITE A_SHADER_READ ].

(** The client's image from the foreign queue family. *)
Definition acquire_commands (cx : VkDeviceCtx) (image : Z) : list GpuCmd :=
  [ CBarrier {| ib_image := image; ib_plane := PColor; ib_layer := 0;
                ib_old := UNDEFINED; ib_new := SHADER_READ_ONLY_OPTIMAL;
                ib_src_access := 0; ib_dst_access := A_SHADER_READ;
                ib_families := Some (None, cx_compute_family cx) |} ].

Definition storage_barriers (fr : FrameResources) (old new : ImgLayout) (src dst : Z) : list GpuCmd :=
  [ image_layout_barrier (fr_y_image fr) PColor old new src dst;
    image_layout_barrier (fr_uv_image fr) PColor old new src dst ].

Definition div_ceil (a b : Z) : Z := (a + b - 1) / b.

(** Shader, then its two planes into the picture; [chroma] is 2 for 4:2:0 and 1 for 4:4:4, and
    [before] what comes between the picture's barrier and the copies. *)
Definition convert_commands (fr : FrameResources) (pipe : ColorPipeline) (set chroma : Z) (before : list GpuCmd) :
    list GpuCmd :=
  let w := fr_width fr in
  let h := fr_height fr in
  storage_barriers fr UNDEFINED GENERAL 0 A_SHADER_WRITE
  ++ [ CBindPipeline (pi_pipeline pipe); CBindSet (pi_layout pipe) set;
       CDispatch (div_ceil (w / chroma) 16) (div_ceil (h / chroma) 16) ]
  ++ storage_barriers fr GENERAL TRANSFER_SRC_OPTIMAL A_SHADER_WRITE A_TRANSFER_READ
  ++ [ image_layout_barrier (fr_picture_image fr) PPlanes01 UNDEFINED TRANSFER_DST_OPTIMAL 0 A_TRANSFER_WRITE ]
  ++ before
  ++ [ CCopyImage (fr_y_image fr) (fr_picture_image fr) PPlane0 w h;
       CCopyImage (fr_uv_image fr) (fr_picture_image fr) PPlane1 (w / chroma) (h / chroma) ].

Definition release_command (cx : VkDeviceCtx) (fr : FrameResources) : GpuCmd :=
  ownership_barrier cx (fr_picture_image fr) A_TRANSFER_WRITE 0.

(** Neutral colours for the padding of a coded picture: luma 16, chroma 128. *)
Definition clear_commands (fr : FrameResources) : list GpuCmd :=
  [ CClear (fr_picture_image fr) PPlane0 [16; 0; 0; 0]; CClear (fr_picture_image fr) PPlane1 [128; 128; 0; 0];
    CMemoryBarrier ].

Definition record_all (dev cb : Z) (cs : list GpuCmd) : Vk unit := each cs (fun c => ask (Command dev cb c)).

(** The end of the recording, and the submission that signals a semaphore. *)
Definition submit_compute (cx : VkDeviceCtx) (fr : FrameResources) (cb : Z) : Vk Z :=
  let dev := cx_device cx in
  need_ok "end_command_buffer(compute)" (EndCommands dev cb) ;;
  sem ← need "create_semaphore" (Create dev ISemaphore);
  need_ok "reset_fences" (ResetFence dev (fr_fence fr)) ;;
  need_ok "queue_submit(compute)" (Submit dev (cx_compute_queue cx) cb None (Some sem) None) ;;
  mret sem.

(** ** One picture on the encode queue *)

Definition encode_qp : Vk Z :=
  dynamic ← ask DynamicQp;
  if 0 <=? dynamic then mret (vk_encode_qp dynamic None)
  else var ← ask (EnvVar "WAYMUX_VK_ENCODE_QP"); mret (vk_encode_qp dynamic var).

Definition acquire_command (cx : VkDeviceCtx) (fr : FrameResources) : GpuCmd :=
  ownership_barrier cx (fr_picture_image fr) 0 A_MEMORY_READ.

(** Up to the query, which the quantizer is read after. *)
Definition begin_picture (cx : VkDeviceCtx) (fr : FrameResources) (session : EncodeSession) (pic : PicParams) :
    list GpuCmd :=
  let setup := (-1, view_for fr (pp_setup_slot pic)) in
  [ acquire_command cx fr; CResetQuery (fr_query_pool fr);
    dpb_layer_layout_barrier (fr_dpb_image fr) (Z.max (pp_setup_slot pic) 0) UNDEFINED VIDEO_ENCODE_DPB_KHR
      0 A_MEMORY_WRITE ]
  ++ (if pp_is_idr pic then []
      else [ dpb_layer_layout_barrier (fr_dpb_image fr) (Z.max (pp_ref_slot pic) 0)
               VIDEO_ENCODE_DPB_KHR VIDEO_ENCODE_DPB_KHR A_MEMORY_WRITE A_MEMORY_READ ])
  ++ [ CBeginCoding (es_session session) (es_parameters session)
         (if pp_is_idr pic then [setup] else [(pp_ref_slot pic, view_for fr (pp_ref_slot pic)); setup]);
       CControl (pp_is_idr pic); CBeginQuery (fr_query_pool fr) ].

Definition encode_info (fr : FrameResources) (pic : PicParams) (qp : Z) : EncodeInfo :=
  {| ei_buffer := fr_encoded_buffer fr; ei_range := fr_encoded_size fr; ei_source_view := fr_picture_view fr;
     ei_width := fr_width fr; ei_height := fr_height fr; ei_idr := pp_is_idr pic;
     ei_frame_num := pp_frame_num pic; ei_poc := as_s 32 (as_u 32 (pp_frame_num pic * 2));
     ei_list0 := if pp_is_idr pic then None else Some (as_u 8 (pp_ref_slot pic));
     ei_qp := qp; ei_setup := (pp_setup_slot pic, view_for fr (pp_setup_slot pic));
     ei_references := if pp_is_idr pic then []
       else [(pp_ref_slot pic, view_for fr (pp_ref_slot pic), as_u 32 (pp_frame_num pic - 1))] |}.

(** What the feedback query says was written, read from the mapped buffer. *)
Definition read_encoded (cx : VkDeviceCtx) (fr : FrameResources) (offset n : Z) : Vk (list Z) :=
  let dev := cx_device cx in
  need_ok "map_memory(encoded)" (MapMemory dev (fr_encoded_memory fr) offset n) ;;
  mem ← ask (ReadMapped dev (fr_encoded_memory fr) n);
  ask (UnmapMemory dev (fr_encoded_memory fr)) ;;
  mret (region mem 0 n).

Definition read_feedback (cx : VkDeviceCtx) (fr : FrameResources) : Vk (Z * Z) :=
  feedback ← need "get_query_pool_results" (QueryResults (cx_device cx) (fr_query_pool fr));
  let '(offset, bytes_written, _) := feedback in
  if bytes_written =? 0 then fail "encode produced 0 bytes"%string else mret (offset, bytes_written).

Definition submit_encode (cx : VkDeviceCtx) (fr : FrameResources) (wait_sem : Z) : Vk unit :=
  let dev := cx_device cx in
  need_ok "queue_submit(encode)"
    (Submit dev (cx_encode_queue cx) (fr_command_buffer fr) (Some wait_sem) None (Some (fr_fence fr))) ;;
  timeout ← fence_timeout;
  need_ok "wait_for_fences(encode)" (WaitFence dev (fr_fence fr) timeout).

Definition encode_one_picture_on_encode_queue (cx : VkDeviceCtx) (fr : FrameResources) (session : EncodeSession)
    (wait_sem : Z) (pic : PicParams) : Vk (list Z) :=
  let dev := cx_device cx in
  let cb := fr_command_buffer fr in
  need_ok "reset_command_buffer(encode)" (ResetCommands dev cb) ;;
  need_ok "begin_command_buffer(encode)" (BeginCommands dev cb) ;;
  record_all dev cb (begin_picture cx fr session pic) ;;
  qp ← encode_qp;
  record_all dev cb [CEncode (encode_info fr pic qp); CEndQuery (fr_query_pool fr); CEndCoding] ;;
  need_ok "end_command_buffer(encode)" (EndCommands dev cb) ;;
  submit_encode cx fr wait_sem ;;
  r ← read_feedback cx fr;
  read_encoded cx fr (fst r) (snd r).

(** ** Whole pictures *)

Definition expected_bytes (fr : FrameResources) : Z := as_u 64 (as_u 64 (fr_width fr * fr_height fr) * 4).

(** Conversion and encoding of the image behind [src_view], which [first] makes readable; what
    was made for the picture is destroyed unless the conversion fails. *)
Definition convert_and_encode (cx : VkDeviceCtx) (fr : FrameResources) (pipe : ColorPipeline)
    (session : EncodeSession) (src_view : Z) (first : list GpuCmd) (pic : PicParams) :
    Vk (result (list Z) string) :=
  let dev := cx_device cx in
  set ← color_set cx fr pipe src_view;
  c ← compute_commands cx;
  record_all dev (snd c) (first ++ convert_commands fr pipe set 2 [] ++ [release_command cx fr]) ;;
  sem ← submit_compute cx fr (snd c);
  r ← attempt (encode_one_picture_on_encode_queue cx fr session sem pic);
  ask (Destroy dev KSemaphore sem) ;;
  ask (Destroy dev KCommandPool (fst c)) ;;
  mret r.

Definition encode_idr_gpu_synthetic (cx : VkDeviceCtx) (fr : FrameResources) (pipe : ColorPipeline)
    (session : EncodeSession) (bgra : list Z) (pic : PicParams) : Vk (list Z) :=
  if negb (Z.of_nat (length bgra) =? expected_bytes fr) then fail "bgra_src len"%string
  else
    upload_staging cx fr bgra ;;
    r ← convert_and_encode cx fr pipe session (fr_bgra_view fr) (staging_commands fr) pic;
    match r with Ok data => mret data | Err e => fail e end.

(** [encode_idr_from_dmabuf_impl]: the view, the image and its memory are destroyed at the end,
    but not when something before the encoding fails. *)
Definition encode_idr_from_dmabuf_impl (cx : VkDeviceCtx) (fr : FrameResources) (pipe : ColorPipeline)
    (session : EncodeSession) (dma : DmabufBufferData) (pic : PicParams) : Vk (list Z) :=
  let dev := cx_device cx in
  ok ← modifier_is_importable (db_modifier dma);
  if negb ok then fail "dmabuf modifier not importable"%string
  else if negb (db_width dma =? as_s 32 (fr_width fr)) || negb (db_height dma =? as_s 32 (fr_height fr)) then
    fail "dmabuf size doesn't match encoder size"%string
  else
    match drm_to_vk (db_drm_format dma) with
    | None => fail "unsupported drm_format"%string
    | Some format =>
        i ← import_image cx dma (dmabuf_image dma format (fr_width fr) (fr_height fr) U_SAMPLED);
        let '(image, memory) := i in
        need_ok "bind_image_memory(dmabuf)" (BindImage dev image memory) ;;
        view ← create_full_image_view dev image format;
        r ← convert_and_encode cx fr pipe session view (acquire_commands cx image) pic;
        ask (Destroy dev KView view) ;;
        ask (Destroy dev KImage image) ;;
        ask (Destroy dev KMemory memory) ;;
        match r with Ok data => mret data | Err e => fail e end
    end.

(** ** The lossless picture *)

(** Up to the control command. *)
Definition begin_lossless (cx : VkDeviceCtx) (fr : FrameResources) (session : EncodeSession) : list GpuCmd :=
  [ acquire_command cx fr; CResetQuery (fr_query_pool fr);
    image_layout_barrier (fr_dpb_image fr) PColor UNDEFINED VIDEO_ENCODE_DPB_KHR 0 A_MEMORY_WRITE;
    CBeginCoding (es_session session) (es_parameters session) [(-1, fr_dpb_view fr)];
    CControl true ].

(** [WAYMUX_VK_LOSSLESS_QP], 0 without it. *)
Definition lossless_qp (var : option string) : Z :=
  match var ≫= parse_signed 32 with Some q => clamp 0 51 q | None => 0 end.

(** The encode command buffer, from its reset to its submission. *)
Definition encode_lossless (cx : VkDeviceCtx) (fr : FrameResources) (session : EncodeSession) (sem : Z) : Vk bool :=
  let dev := cx_device cx in
  let cb := fr_command_buffer fr in
  need_ok "reset_command_buffer(encode/yuv444)" (ResetCommands dev cb) ;;
  need_ok "begin_command_buffer(encode/yuv444)" (BeginCommands dev cb) ;;
  record_all dev cb (begin_lossless cx fr session) ;;
  skip ← ask (EnvVar "WAYMUX_VK_SKIP_QUERY");
  let use_query := negb (bool_decide (skip = Some "1"%string)) in
  record_all dev cb (if use_query then [CBeginQuery (fr_query_pool fr)] else []) ;;
  var ← ask (EnvVar "WAYMUX_VK_LOSSLESS_QP");
  record_all dev cb
    (CEncode (encode_info fr idr_pic_params (lossless_qp var))
     :: (if use_query then [CEndQuery (fr_query_pool fr)] else []) ++ [CEndCoding]) ;;
  need_ok "end_command_buffer(encode/yuv444)" (EndCommands dev cb) ;;
  submit_encode cx fr sem ;;
  mret use_query.

(** The first half of both 4:4:4 functions: upload, descriptor set and the recorded conversion,
    with [before] the copies and [last] after them. *)
Definition convert_lossless (cx : VkDeviceCtx) (fr : FrameResources) (pipe : ColorPipeline) (bgra : list Z)
    (before : list GpuCmd) (last : GpuCmd) : Vk (Z * Z) :=
  upload_staging cx fr bgra ;;
  set ← color_set cx fr pipe (fr_bgra_view fr);
  c ← compute_commands cx;
  record_all (cx_device cx) (snd c) (staging_commands fr ++ convert_commands fr pipe set 1 before ++ [last]) ;;
  mret c.

(** [encode_idr_gpu_synthetic_yuv444]: semaphore and pool are destroyed after the wait only. *)
Definition encode_idr_gpu_synthetic_yuv444 (cx : VkDeviceCtx) (fr : FrameResources) (pipe : ColorPipeline)
    (session : EncodeSession) (bgra : list Z) : Vk (list Z) :=
  let dev := cx_device cx in
  if negb (Z.of_nat (length bgra) =? expected_bytes fr) then fail "bgra_src len"%string
  else
    match es_kind session with
    | Main420 => fail "session kind mismatches Hi444Lossless YUV444 encode path"%string
    | Hi444Lossless =>
        c ← convert_lossless cx fr pipe bgra [] (release_command cx fr);
        sem ← submit_compute cx fr (snd c);
        use_query ← encode_lossless cx fr session sem;
        ask (Destroy dev KSemaphore sem) ;;
        ask (Destroy dev KCommandPool (fst c)) ;;
        r ← (if use_query : bool then read_feedback cx fr else mret (0, Z.min (fr_encoded_size fr) (64 * 1024)));
        read_encoded cx fr (fst r) (snd r)
    end.

(** [run_compute_yuv444_into_picture]: the conversion alone, waited for with a fence of its own. *)
Definition run_compute_yuv444_into_picture (cx : VkDeviceCtx) (fr : FrameResources) (pipe : ColorPipeline)
    (bgra : list Z) : Vk unit :=
  let dev := cx_device cx in
  if negb (Z.of_nat (length bgra) =? expected_bytes fr) then fail "bgra_src len"%string
  else
    c ← convert_lossless cx fr pipe bgra (clear_commands fr)
      (image_layout_barrier (fr_picture_image fr) PPlanes01 TRANSFER_DST_OPTIMAL VIDEO_ENCODE_SRC_KHR
         A_TRANSFER_WRITE 0);
    need_ok "end_command_buffer" (EndCommands dev (snd c)) ;;
    fence ← need "create_fence" (Create dev IFence);
    need_ok "queue_submit" (Submit dev (cx_compute_queue cx) (snd c) None None (Some fence)) ;;
    timeout ← fence_timeout;
    need_ok "wait_for_fences" (WaitFence dev fence timeout) ;;
    ask (Destroy dev KFence fence) ;;
    ask (Destroy dev KCommandPool (fst c)).
End Frames.

(** ** Recorders *)

(** [VkRecorder] and [VkRecorderLossless]. *)
Record Recorder := {
  rc_frames : FrameResources;
  rc_pipe : ColorPipeline;
  rc_session : EncodeSession;
  rc_ctx : VkDeviceCtx;
  rc_width : Z;
  rc_height : Z;
  rc_frame_num : Z;
  rc_ref_slot : Z;
}.

#[export] Instance eta_Recorder : Eta Recorder := fun r =>
  Build_Recorder (rc_frames r) (rc_pipe r) (rc_session r) (rc_ctx r) (rc_width r) (rc_height r)
    (rc_frame_num r) (rc_ref_slot r).

Section Recorders.
Context `{Driver vk_call}.

Abbreviation Vk A := (Eff (Cache * list vk_event) string A).
Abbreviation Rec A := (Eff ((Recorder * Cache) * list vk_event) string A).

Definition shader_of (kind : EncodeKind) : Shader :=
  match kind with Main420 => BGRA_TO_NV12_SPV | Hi444Lossless => BGRA_TO_YUV444_2PLANE_SPV end.

(** [m], and [fin] if it fails: the drop of a local variable at a [?]. *)
Definition on_failure {A} (m : Vk A) (fin : Vk unit) : Vk A :=
  r ← attempt m;
  match r with Ok a => mret a | Err e => fin ;; fail e end.

Definition new_frames (kind : EncodeKind) (cx : VkDeviceCtx) (width height : Z) : Vk FrameResources :=
  match kind with Main420 => frames_new cx width height | Hi444Lossless => frames444_new cx width height end.

Definition new_session (kind : EncodeKind) (cx : VkDeviceCtx) (width height : Z) : Vk EncodeSession :=
  match kind with Main420 => session_new cx width height Main420 | Hi444Lossless => session_new_lossless cx width height end.

(** [try_new] of both, with the drops of what is open when a step fails, in the reverse order:
    the pipeline is the last step, *)
Definition recorder_pipe (kind : EncodeKind) (cx : VkDeviceCtx) (s : EncodeSession) (fr : FrameResources)
    (width height : Z) : Vk Recorder :=
  on_failure (
    pipe ← pipeline_new (shader_of kind) cx 1;
    mret {| rc_frames := fr; rc_pipe := pipe; rc_session := s; rc_ctx := cx; rc_width := width;
            rc_height := height; rc_frame_num := 0; rc_ref_slot := -1 |})
  (frames_drop fr).

(** session, parameters and frames come before it, *)
Definition recorder_parts (kind : EncodeKind) (cx : VkDeviceCtx) (width height : Z) : Vk Recorder :=
  match kind with
  | Hi444Lossless => if cx_hi444_supported cx then mret () else fail "Hi444PP not supported"%string
  | Main420 => mret ()
  end ;;
  s0 ← new_session kind cx width height;
  p ← session_parameters s0;
  let '(s, made) := p in
  on_failure (
    _ ← lift made;
    fr ← new_frames kind cx width height;
    recorder_pipe kind cx s fr width height)
  (session_drop s).

(** and the device is the first. *)
Definition recorder_try_new (kind : EncodeKind) (width height : Z) : Vk Recorder :=
  cx ← ctx_open;
  on_failure (recorder_parts kind cx width height) (ctx_drop cx).

(** [Drop], field by field: the device last. *)
Definition recorder_drop (r : Recorder) : Vk unit :=
  frames_drop (rc_frames r) ;;
  pipeline_drop (rc_pipe r) ;;
  session_drop (rc_session r) ;;
  ctx_drop (rc_ctx r).

(** [next_pic_params] of [VkRecorder]. *)
Definition plan_picture (is_idr : bool) (r : Recorder) : PicParams * Recorder :=
  let '(pic, frame_num, ref_slot) := next_pic_params is_idr (rc_frame_num r) (rc_ref_slot r) in
  (pic, r <| rc_frame_num := frame_num |> <| rc_ref_slot := ref_slot |>).

(** Code over the cell of modifiers, from that of a recorder. *)
Definition over_cache {A} (m : Vk A) : Rec A := on_part snd (fun c x => (fst x, c)) m.

(** The pixels of a picture: a dmabuf or bytes. *)
Abbreviation Source := (DmabufBufferData + list Z)%type.

Definition encode_source (r : Recorder) (src : Source) (pic : PicParams) : Vk (list Z) :=
  match src with
  | inl dma => encode_idr_from_dmabuf_impl (rc_ctx r) (rc_frames r) (rc_pipe r) (rc_session r) dma pic
  | inr bgra => encode_idr_gpu_synthetic (rc_ctx r) (rc_frames r) (rc_pipe r) (rc_session r) bgra pic
  end.

(** [encode_dmabuf], [encode_bgra]: data and whether it is a keyframe. *)
Definition recorder_encode (src : Source) (is_idr : bool) : Rec (list Z * bool) :=
  x ← here;
  let '(pic, r) := plan_picture is_idr (fst x) in
  change (fun x => (r, snd x)) ;;
  data ← over_cache (encode_source r src pic);
  mret (data, pp_is_idr pic).

(** [encode_idr_from_dmabuf], [encode_idr_from_bgra] *)
Definition recorder_encode_idr (src : Source) : Rec (list Z * bool) :=
  x ← here;
  data ← over_cache (encode_source (fst x) src idr_pic_params);
  mret (data, true).

(** [VkRecorderLossless::encode_idr_from_bgra] *)
Definition lossless_encode (bgra : list Z) : Rec (list Z * bool) :=
  x ← here;
  let r := fst x in
  data ← over_cache (encode_idr_gpu_synthetic_yuv444 (rc_ctx r) (rc_frames r) (rc_pipe r) (rc_session r) bgra);
  mret (data, true).
End Recorders.
