(* ===== verification/VulkanProps.v ===== *)
(** * The Vulkan encoder's objects

    What a call does to the objects that are alive: a device object is used only while it and
    its device are, memory is written where it is mapped, descriptors that were imported are the
    driver's. What is created once is released exactly once when it is dropped; a creation that
    fails leaves behind at most what it had made. *)

From Stdlib Require Import ZArith Lia String.
From stdpp Require Import prelude strings list gmultiset.
From S2P Require Import Prelude Words Driver H264 Vulkan.

Open Scope Z_scope.

(** ** What is alive *)

Inductive vk_res :=
| RFd (fd : Z)
| RInstance (instance : Z)
| RMessenger (instance messenger : Z)
| RDevice (device : Z)
| RObj (device : Z) (k : VkKind) (handle : Z)
| RMapped (device memory size : Z).

#[global] Instance vk_res_eq_dec : EqDecision vk_res.
Proof. solve_decision. Defined.

Definition kinds : list VkKind :=
  [ KSession; KParameters; KMemory; KImage; KView; KBuffer; KSetLayout; KPipelineLayout; KShader; KPipeline;
    KDescriptorPool; KSampler; KCommandPool; KFence; KQueryPool; KSemaphore ].
Definition kind_code (k : VkKind) : nat :=
  match k with
  | KSession => 0 | KParameters => 1 | KMemory => 2 | KImage => 3 | KView => 4 | KBuffer => 5 | KSetLayout => 6
  | KPipelineLayout => 7 | KShader => 8 | KPipeline => 9 | KDescriptorPool => 10 | KSampler => 11
  | KCommandPool => 12 | KFence => 13 | KQueryPool => 14 | KSemaphore => 15
  end.
Definition kind_at (n : nat) : VkKind := nth n kinds KSession.

#[global] Instance vk_res_countable : Countable vk_res.
Proof.
  refine (inj_countable'
    (fun r => match r with
     | RFd a => inl (0, a, 0) | RInstance a => inl (1, a, 0) | RMessenger a b => inl (2, a, b)
     | RDevice a => inl (3, a, 0) | RObj d k h => inr (inl (d, kind_code k, h)) | RMapped d m s => inr (inr (d, m, s)) end)
    (fun c => match c with
     | inl (0, a, _) => RFd a | inl (1, a, _) => RInstance a | inl (2, a, b) => RMessenger a b
     | inl (_, a, _) => RDevice a | inr (inl (d, k, h)) => RObj d (kind_at k) h | inr (inr (d, m, s)) => RMapped d m s
     end) _).
  by intros [| | | |? []|].
Defined.

Abbreviation vk_live := (gmultiset vk_res).

Definition alive (r : vk_res) (L : vk_live) : bool := bool_decide (r ∈ L).
Definition all_alive (d : Z) (l : list (VkKind * Z)) (L : vk_live) : bool :=
  alive (RDevice d) L && forallb (fun o => alive (RObj d o.1 o.2) L) l.

Definition acquired {A} (a : option A) (r : A -> vk_res) (L : vk_live) : option vk_live :=
  Some (match a with Some a => {[+ r a +]} ⊎ L | None => L end).

(** Device objects a creation refers to. *)
Definition creation_objects (i : CreateInfo) : list (VkKind * Z) :=
  match i with
  | IParameters s _ _ => [(KSession, s)]
  | IImported _ _ _ image => [(KImage, image)]
  | IView image _ _ => [(KImage, image)]
  | IPipelineLayout s => [(KSetLayout, s)]
  | IPipeline l s => [(KPipelineLayout, l); (KShader, s)]
  | _ => []
  end.

(** Device objects a command refers to. *)
Definition command_objects (c : GpuCmd) : list (VkKind * Z) :=
  match c with
  | CBarrier b => [(KImage, ib_image b)]
  | CCopyBuffer b i _ _ => [(KBuffer, b); (KImage, i)]
  | CBindPipeline p => [(KPipeline, p)]
  | CBindSet l _ => [(KPipelineLayout, l)]
  | CCopyImage s d _ _ _ => [(KImage, s); (KImage, d)]
  | CClear i _ _ => [(KImage, i)]
  | CResetQuery q | CBeginQuery q | CEndQuery q => [(KQueryPool, q)]
  | CBeginCoding s p slots => (KSession, s) :: (KParameters, default 0 p) :: ((fun v => (KView, v.2)) <$> slots)
  | CEncode e =>
      [(KBuffer, ei_buffer e); (KView, ei_source_view e); (KView, (ei_setup e).2)]
      ++ ((fun v => (KView, v.1.2)) <$> ei_references e)
  | CMemoryBarrier | CDispatch _ _ | CControl _ | CEndCoding => []
  end.

(** Memory that is mapped, with how much of it. *)
Definition mapped_room (d m n : Z) (L : vk_live) : bool :=
  existsb (fun r => match r with RMapped d' m' s => (d' =? d) && (m' =? m) && (n <=? s) | _ => false end) (elements L).
Definition is_mapped (d m : Z) (L : vk_live) : bool :=
  existsb (fun r => match r with RMapped d' m' s => (d' =? d) && (m' =? m) | _ => false end) (elements L).

(** End the mapping of a memory. *)
Definition unmap (d m : Z) (L : vk_live) : option vk_live :=
  match List.find (fun r => match r with RMapped d' m' s => (d' =? d) && (m' =? m) | _ => false end) (elements L) with
  | Some r => release r L
  | None => None
  end.

Definition opt_object (k : VkKind) (o : option Z) : list (VkKind * Z) :=
  match o with Some h => [(k, h)] | None => [] end.

#[export] Instance vk_effects : Effects vk_call vk_res := fun e L =>
  match e with
  | Ev _ c a =>
      match c in vk_call T return T -> option vk_live with
      | Dup _ => fun fd => Some (if fd <? 0 then L else {[+ RFd fd +]} ⊎ L)
      | CloseFd fd => fun _ => release (RFd fd) L
      | CreateInstance _ => fun i => acquired i RInstance L
      | CreateMessenger i => fun m => provided (alive (RInstance i) L) (acquired m (RMessenger i) L)
      | DestroyMessenger i m => fun _ => provided (alive (RInstance i) L) (release (RMessenger i m) L)
      | DestroyInstance i => fun _ => release (RInstance i) L
      | EnumeratePhysicalDevices i | DeviceExtensions i _ | MemoryProperties i _ | VideoCapabilities i _ _
      | VideoFormatCount i _ _ _ | VideoFormats i _ _ _ _ | ModifierCount i _ | Modifiers i _ _
      | ImageFormatOk i _ _ _ => fun _ => borrow (RInstance i) L
      | CreateDevice i _ _ _ => fun d => provided (alive (RInstance i) L) (acquired d RDevice L)
      | DestroyDevice d => fun _ => release (RDevice d) L
      | Create d (IImported size t fd image) => fun h =>
          provided (all_alive d (creation_objects (IImported size t fd image)) L && alive (RFd fd) L)
            (match h with
             | Some h => M ← release (RFd fd) L; acquire (RObj d KMemory h) M
             | None => Some L
             end)
      | Create d i => fun h => provided (all_alive d (creation_objects i) L) (acquired h (RObj d (kind_of i)) L)
      | Destroy d k h => fun _ => provided (alive (RDevice d) L) (release (RObj d k h) L)
      | SessionMemoryCount d s | SessionMemory d s _ => fun _ => provided (all_alive d [(KSession, s)] L) (Some L)
      | BindSessionMemory d s binds => fun _ =>
          provided (all_alive d ((KSession, s) :: ((fun b => (KMemory, b.1.2)) <$> binds)) L) (Some L)
      | EncodedParametersSize d p | EncodedParameters d p _ => fun _ =>
          provided (all_alive d [(KParameters, p)] L) (Some L)
      | ImageRequirements d i | SubresourceLayout d i => fun _ => provided (all_alive d [(KImage, i)] L) (Some L)
      | BufferRequirements d b => fun _ => provided (all_alive d [(KBuffer, b)] L) (Some L)
      | BindImage d i m => fun _ => provided (all_alive d [(KImage, i); (KMemory, m)] L) (Some L)
      | BindBuffer d b m => fun _ => provided (all_alive d [(KBuffer, b); (KMemory, m)] L) (Some L)
      | MapMemory d m _ size => fun ok =>
          provided (all_alive d [(KMemory, m)] L && negb (is_mapped d m L))
            (Some (if ok : bool then {[+ RMapped d m size +]} ⊎ L else L))
      | WriteMapped d m p bs => fun _ =>
          provided ((0 <=? p) && mapped_room d m (p + Z.of_nat (length bs)) L) (Some L)
      | ReadMapped d m n => fun _ => provided (mapped_room d m n L) (Some L)
      | UnmapMemory d m => fun _ => unmap d m L
      | ResetDescriptorPool d p => fun _ => provided (all_alive d [(KDescriptorPool, p)] L) (Some L)
      | AllocateSet d p l => fun _ => provided (all_alive d [(KDescriptorPool, p); (KSetLayout, l)] L) (Some L)
      | UpdateSet d _ images s => fun _ =>
          provided (all_alive d ((KSampler, s) :: ((fun i => (KView, i.1.2)) <$> images)) L) (Some L)
      | AllocateCommands d p => fun _ => provided (all_alive d [(KCommandPool, p)] L) (Some L)
      | Command d _ cmd => fun _ => provided (all_alive d (command_objects cmd) L) (Some L)
      | DeviceQueue d _ | DeviceWaitIdle d | ResetCommands d _ | BeginCommands d _ | EndCommands d _ => fun _ =>
          borrow (RDevice d) L
      | ResetFence d f | WaitFence d f _ => fun _ => provided (all_alive d [(KFence, f)] L) (Some L)
      | Submit d _ _ w s f => fun _ =>
          provided (all_alive d (opt_object KSemaphore w ++ opt_object KSemaphore s ++ opt_object KFence f) L) (Some L)
      | QueryResults d q => fun _ => provided (all_alive d [(KQueryPool, q)] L) (Some L)
      | EnvVar _ | GpuWedged | DynamicQp | EntryLoad => fun _ => Some L
      end a
  end.

(** ** Steps *)

Lemma vk_alive_in r L : r ∈ L -> alive r L = true.
Proof. apply bool_decide_eq_true_2. Qed.

Lemma all_alive_in d l L :
  RDevice d ∈ L -> Forall (fun o => RObj d o.1 o.2 ∈ L) l -> all_alive d l L = true.
Proof.
  intros Hd Hl. unfold all_alive. rewrite (vk_alive_in _ _ Hd). cbn.
  induction Hl; cbn; [done|]. by rewrite vk_alive_in.
Qed.

Lemma release_under (r s : vk_res) (L M : vk_live) : release r L = Some M -> release r ({[+ s +]} ⊎ L) = Some ({[+ s +]} ⊎ M).
Proof.
  unfold release. destruct (decide (r ∈ L)) as [Hr|]; [|done]. intros [= <-].
  fold (release r ({[+ s +]} ⊎ L)). by apply release_below.
Qed.

Lemma imported_effect (a : option Z) r (f : Z -> vk_res) (L M : vk_live) :
  release r L = Some M ->
  match a with Some h => N ← release r L; acquire (f h) N | None => Some L end =
  Some (match a with Some h => {[+ f h +]} ⊎ M | None => L end).
Proof. intros ->. by destruct a. Qed.

(** More than [F], but no more mappings. *)
Inductive grown (F : vk_live) : vk_live -> Prop :=
| grown_refl : grown F F
| grown_add r L : (forall d m s, r <> RMapped d m s) -> grown F L -> grown F ({[+ r +]} ⊎ L).

Lemma grown_trans F L M : grown F L -> grown L M -> grown F M.
Proof. intros HF HL. induction HL; [done|]. by constructor. Qed.

Lemma grown_in F L r : grown F L -> r ∈ F -> r ∈ L.
Proof. intros HL Hr. induction HL; [done|]. multiset_solver. Qed.

Definition no_maps (L : vk_live) : Prop := forall d m s, RMapped d m s ∉ L.

Lemma grown_maps F L : grown F L -> no_maps F -> no_maps L.
Proof.
  intros HL HF. induction HL as [|r L Hr HL IH]; [done|].
  intros d m s [Hs%gmultiset_elem_of_singleton|Hs]%gmultiset_elem_of_disj_union; [by eapply Hr|by eapply IH].
Qed.

Ltac below := first [done | assumption | apply grown_refl | apply grown_add; [done|below]].

(** Take a resource out of a union of single ones. *)
Ltac release_deep := first [apply release_acquired | apply release_under; release_deep].

Ltac vk_alive :=
  lazymatch goal with
  | |- Forall _ [] => constructor
  | |- Forall _ (_ :: _) => constructor; [cbn [fst snd]; there|vk_alive]
  end.

Ltac vk_side :=
  rewrite ?andb_true_iff;
  repeat match goal with |- _ /\ _ => split end;
  try lazymatch goal with
  | |- alive _ _ = true => apply vk_alive_in; there
  | |- all_alive _ _ _ = true => apply all_alive_in; [there|cbn [creation_objects opt_object app fmap list_fmap fst snd]; vk_alive]
  end.

(** Compute the effect of a call. *)
Ltac vk_effect :=
  lazymatch goal with
  | |- effect (Ev _ _ _) _ = Some _ =>
      cbn [effect vk_effects];
      try (rewrite provided_true; [|vk_side]);
      try lazymatch goal with
      | |- borrow _ _ = Some _ => apply borrow_alive; there
      | |- release _ _ = Some _ => release_deep
      | |- acquired _ _ _ = Some _ => reflexivity
      | |- match _ with Some _ => _ | None => _ end = Some _ => apply imported_effect; release_deep
      | |- Some _ = Some _ => reflexivity
      end
  end.

(** An answer that is known decides what was acquired. *)
Ltac vk_null :=
  match goal with
  | E : ?a = _ |- context [match ?a with Some _ => _ | None => _ end] => rewrite E; cbn [kind_of]
  | E : ?a = _ |- context [if ?a then _ else _] => rewrite E; cbn [kind_of]
  end.

Ltac vk_run := unfold need, need_ok; repeat first [safe_step | vk_effect | progress vk_null].

Ltac vk_units := repeat match goal with u : unit |- _ => destruct u end.

Section Objects.
Context `{Driver vk_call} {X : Type} (L0 : vk_live).
Implicit Types (x : X) (F L : vk_live).

(** Nothing changes but what is made; a failure leaves at least what there was. *)
Abbreviation makes x F M :=
  (fun x' L' (r : result _ string) => x' = x /\ match r with Ok a => L' = M a | Err _ => grown F L' end).

Lemma alloc_memory_safe what x dev props req flags F :
  RDevice dev ∈ F -> (forall r, effect (Ev _ req r) F = Some F) ->
  safe L0 (alloc_memory (X := X) what dev props req flags) x F
    (makes x F (fun m => {[+ RObj dev KMemory m +]} ⊎ F)).
Proof.
  intros Hd Hr. unfold alloc_memory. apply safe_bind. apply safe_ask. intros r. exists F.
  split; [apply Hr|]. vk_run; (split; [done|below]).
Qed.

Lemma make_image_safe what x dev props i F :
  RDevice dev ∈ F ->
  safe L0 (make_image (X := X) what dev props i) x F
    (makes x F (fun p => {[+ RObj dev KMemory p.2 +]} ⊎ ({[+ RObj dev KImage p.1 +]} ⊎ F))).
Proof.
  intros Hd. unfold make_image, alloc_image_memory. vk_run; try (split; [done|below]).
  eapply safe_mono; [apply alloc_memory_safe; [there|]|].
  - intros r. vk_effect.
  - cbv beta. intros x' L' [m|e] [-> HL]; [subst L'|split; [done|eapply grown_trans; [|exact HL]; below]].
    vk_run; split; try done; below.
Qed.

Lemma make_buffer_safe what x dev props size use profile F :
  RDevice dev ∈ F ->
  safe L0 (make_buffer (X := X) what dev props size use profile) x F
    (makes x F (fun p => {[+ RObj dev KMemory p.2 +]} ⊎ ({[+ RObj dev KBuffer p.1 +]} ⊎ F))).
Proof.
  intros Hd. unfold make_buffer, alloc_buffer_memory. vk_run; try (split; [done|below]).
  eapply safe_mono; [apply alloc_memory_safe; [there|]|].
  - intros r. vk_effect.
  - cbv beta. intros x' L' [m|e] [-> HL]; [subst L'|split; [done|eapply grown_trans; [|exact HL]; below]].
    vk_run; split; try done; below.
Qed.

Lemma view_safe x dev image format layer what F :
  RDevice dev ∈ F -> RObj dev KImage image ∈ F ->
  safe L0 (need (X := X) what (Create dev (IView image format layer))) x F
    (makes x F (fun v => {[+ RObj dev KView v +]} ⊎ F)).
Proof. intros Hd Hi. vk_run; (split; [done|below]). Qed.

(** ** Drops *)

(** The objects of a list, and [F]. *)
Fixpoint objects (dev : Z) (l : list (VkKind * Z)) (F : vk_live) : vk_live :=
  match l with
  | [] => F
  | o :: l => {[+ RObj dev o.1 o.2 +]} ⊎ objects dev l F
  end.

Lemma objects_rest dev l F r : r ∈ F -> r ∈ objects dev l F.
Proof. intros Hr. induction l; cbn [objects]; [done|]. multiset_solver. Qed.

Lemma objects_in dev l F : Forall (fun o => RObj dev o.1 o.2 ∈ objects dev l F) l.
Proof.
  induction l as [|o l IH]; [constructor|]. constructor; [cbn [objects]; multiset_solver|].
  eapply list.Forall_impl; [exact IH|]. cbn [objects]. intros o' Ho. multiset_solver.
Qed.

Lemma objects_add dev l F r : objects dev l ({[+ r +]} ⊎ F) = {[+ r +]} ⊎ objects dev l F.
Proof. induction l as [|o l IH]; cbn [objects]; [done|]. rewrite IH. multiset_solver. Qed.

Lemma objects_app dev l1 l2 F : objects dev (l1 ++ l2) F = objects dev l1 (objects dev l2 F).
Proof. induction l1 as [|o l IH]; cbn [app objects]; [done|]. by rewrite IH. Qed.

Lemma destroy_all_safe x dev l F :
  RDevice dev ∈ F ->
  safe L0 (destroy_all (X := X) dev l) x (objects dev l F) (fun x' L' r => x' = x /\ L' = F /\ r = Ok ()).
Proof.
  intros Hd. unfold destroy_all. induction l as [|o l IH]; cbn [each objects]; [by apply safe_ret|].
  apply safe_bind. apply safe_ask. intros []. exists (objects dev l F). split; [|exact IH].
  cbn [effect vk_effects]. rewrite provided_true; [apply release_acquired|].
  apply vk_alive_in. apply gmultiset_elem_of_disj_union. right. by apply objects_rest.
Qed.

Lemma free_all_safe x dev mems F :
  RDevice dev ∈ F ->
  safe L0 (free_all (X := X) dev mems) x (objects dev ((fun m => (KMemory, m)) <$> mems) F)
    (fun x' L' r => x' = x /\ L' = F /\ r = Ok ()).
Proof.
  intros Hd. pose proof (destroy_all_safe x dev ((fun m => (KMemory, m)) <$> mems) F Hd) as Hs.
  revert Hs. unfold free_all, destroy_all.
  replace (each ((fun m => (KMemory, m)) <$> mems) (fun o => ask (X := X) (E := string) (Destroy dev o.1 o.2)))
    with (each mems (fun m => ask (X := X) (E := string) (Destroy dev KMemory m))); [done|].
  generalize (objects dev ((fun m => (KMemory, m)) <$> mems) F). intros _.
  induction mems as [|m mems IH]; [done|]. cbn [each fmap list_fmap fst snd]. by rewrite IH.
Qed.

(** ** The device *)

Definition messenger_held (instance : Z) (m : option Z) (F : vk_live) : vk_live :=
  match m with Some m => {[+ RMessenger instance m +]} ⊎ F | None => F end.

Definition ctx_held (cx : VkDeviceCtx) (F : vk_live) : vk_live :=
  {[+ RDevice (cx_device cx) +]} ⊎
  messenger_held (cx_instance cx) (cx_debug_messenger cx) ({[+ RInstance (cx_instance cx) +]} ⊎ F).

Lemma ctx_held_device cx F : RDevice (cx_device cx) ∈ ctx_held cx F.
Proof. unfold ctx_held. there. Qed.
Lemma ctx_held_instance cx F : RInstance (cx_instance cx) ∈ ctx_held cx F.
Proof. unfold ctx_held, messenger_held. destruct (cx_debug_messenger cx); there. Qed.

Abbreviation keeps x L := (fun x' L' (_ : result _ string) => x' = x /\ L' = L).

Lemma video_formats_safe x instance pd kind usage L :
  RInstance instance ∈ L -> safe L0 (video_formats (X := X) instance pd kind usage) x L (keeps x L).
Proof. intros Hi. unfold video_formats. vk_run; done. Qed.

Lemma nv12_flags_safe x instance pd usage L :
  RInstance instance ∈ L -> safe L0 (query_nv12_image_flags (X := X) instance pd usage) x L (keeps x L).
Proof.
  intros Hi. unfold query_nv12_image_flags. apply safe_bind.
  eapply safe_mono; [by apply video_formats_safe|]. cbv beta. intros x' L' [l|e] [-> ->]; [|done]. vk_run; done.
Qed.

Lemma yuv444_flags_safe x instance pd usage L :
  RInstance instance ∈ L -> safe L0 (query_yuv444_image_flags (X := X) instance pd usage) x L (keeps x L).
Proof.
  intros Hi. unfold query_yuv444_image_flags. apply safe_bind.
  eapply safe_mono; [by apply video_formats_safe|]. cbv beta. intros x' L' [l|e] [-> ->]; [|done]. vk_run; done.
Qed.

(** A query with a default returns and keeps what it keeps. *)
Lemma or_else_safe {A} x (m : Eff (X * list vk_event) string A) d L :
  safe L0 m x L (keeps x L) ->
  safe L0 (or_else m d) x L (fun x' L' r => x' = x /\ L' = L /\ result_is_ok r = true).
Proof.
  intros Hm. unfold or_else. apply safe_bind, safe_attempt. eapply safe_mono; [exact Hm|].
  cbv beta. intros x' L' r [-> ->]. by apply safe_ret.
Qed.

Lemma std_header_safe x instance pd kind L :
  RInstance instance ∈ L -> safe L0 (query_std_header (X := X) instance pd kind) x L (keeps x L).
Proof. intros Hi. unfold query_std_header. vk_run; done. Qed.

Lemma open_profiles_safe x instance pd L :
  RInstance instance ∈ L ->
  safe L0 (open_profiles (X := X) instance pd) x L (fun x' L' r => x' = x /\ L' = L /\ result_is_ok r = true).
Proof.
  intros Hi. unfold open_profiles.
  apply safe_bind. take (or_else_safe x _ _ L (std_header_safe x instance pd _ L Hi)).
  apply safe_bind. take (or_else_safe x _ _ L (nv12_flags_safe x instance pd _ L Hi)).
  apply safe_bind. take (or_else_safe x _ _ L (nv12_flags_safe x instance pd _ L Hi)).
  apply safe_bind, safe_attempt. eapply safe_mono; [by apply std_header_safe|].
  cbv beta. intros x' L' [h|e] [-> ->]; [|by apply safe_ret].
  apply safe_bind. take (or_else_safe x _ _ L (yuv444_flags_safe x instance pd _ L Hi)).
  apply safe_bind. take (or_else_safe x _ _ L (yuv444_flags_safe x instance pd _ L Hi)).
  by apply safe_ret.
Qed.

Lemma ctx_device_safe x instance messenger L :
  RInstance instance ∈ L ->
  safe L0 (ctx_device (X := X) instance messenger) x L
    (fun x' L' r => x' = x /\
       match r with
       | Ok cx => cx_instance cx = instance /\ cx_debug_messenger cx = messenger /\
                  L' = {[+ RDevice (cx_device cx) +]} ⊎ L
       | Err _ => grown L L'
       end).
Proof.
  intros Hi. unfold ctx_device. vk_run; try (split; [done|below]).
  eapply safe_mono; [apply open_profiles_safe; there|].
  cbv beta. intros x' L' [q|e] (-> & -> & Hr); [|done]. vk_run. done.
Qed.

Lemma messenger_sub instance m (F F' : vk_live) : grown F F' -> grown F (messenger_held instance m F').
Proof. unfold messenger_held. destruct m; [|done]. by apply grown_add. Qed.

(** An opened context holds its device, its instance and a messenger if there is one. *)
Lemma ctx_open_safe x F :
  safe L0 (ctx_open (X := X)) x F (makes x F (fun cx => ctx_held cx F)).
Proof.
  unfold ctx_open. vk_run; try (split; [done|below]).
  eapply (safe_mono L0 _ _ _ (fun x' L' r => x' = x /\
    match r with Ok m => L' = messenger_held z m ({[+ RInstance z +]} ⊎ F) | Err _ => False end)).
  - unfold open_messenger. vk_run; done.
  - cbv beta. intros x' L' [m|e] [-> HL]; [subst L'|done].
    eapply safe_mono; [apply ctx_device_safe|].
    + unfold messenger_held. destruct m; there.
    + cbv beta. intros x' L' [cx|e] [-> HL]; split; [done| |done|].
      * destruct HL as (<- & <- & ->). done.
      * eapply grown_trans; [|exact HL]. apply messenger_sub. below.
Qed.

(** A dropped one leaves nothing, whatever is still alive besides. *)
Lemma ctx_drop_safe x cx F :
  safe L0 (ctx_drop (X := X) cx) x (ctx_held cx F) (fun x' L' r => x' = x /\ L' = F /\ r = Ok ()).
Proof. unfold ctx_drop, ctx_held, messenger_held. destruct (cx_debug_messenger cx); vk_run; vk_units; done. Qed.

(** ** The session *)

Abbreviation memories mems := ((fun m => (KMemory, m)) <$> (mems : list Z)).

Definition session_objects (s : EncodeSession) : list (VkKind * Z) :=
  opt_object KParameters (es_parameters s) ++ (KSession, es_session s) :: memories (es_memory s).

Lemma cleanup_partial_safe x dev mems session F :
  RDevice dev ∈ F ->
  safe L0 (cleanup_partial (X := X) dev mems session) x ({[+ RObj dev KSession session +]} ⊎ objects dev (memories mems) F)
    (fun x' L' r => x' = x /\ L' = F /\ r = Ok ()).
Proof.
  intros Hd. unfold cleanup_partial. assert (Hm : RDevice dev ∈ objects dev (memories mems) F) by by apply objects_rest.
  vk_run. by apply free_all_safe.
Qed.

Lemma memories_snoc dev mems m F :
  objects dev (memories (mems ++ [m])) F = {[+ RObj dev KMemory m +]} ⊎ objects dev (memories mems) F.
Proof. rewrite fmap_app, objects_app. cbn [fmap list_fmap objects fst snd]. apply objects_add. Qed.

Lemma session_memory_safe x dev session props reqs allocated binds F :
  RDevice dev ∈ F -> (fun b => b.1.2) <$> binds = allocated ->
  safe L0 (session_memory (X := X) dev session props reqs allocated binds) x
    ({[+ RObj dev KSession session +]} ⊎ objects dev (memories allocated) F)
    (fun x' L' r => x' = x /\
       match r with
       | Ok m => (fun b => b.1.2) <$> m.2 = m.1 /\
                 L' = {[+ RObj dev KSession session +]} ⊎ objects dev (memories m.1) F
       | Err _ => L' = F
       end).
Proof.
  intros Hd. revert allocated binds. induction reqs as [|[[index size] mask] reqs IH]; intros allocated binds Hb;
    cbn [session_memory]; [by apply safe_ret|].
  assert (Hm : forall l, RDevice dev ∈ objects dev (memories l) F) by (intros l; by apply objects_rest).
  specialize (Hm allocated) as Hm0.
  destruct (session_memory_type props mask) as [ty|] eqn:Et.
  - apply safe_bind. apply safe_ask. intros m. eexists. split; [vk_effect|]. destruct m as [m|].
    + replace ({[+ RObj dev (kind_of (IMemory size (Z.of_nat ty))) m +]} ⊎
                 ({[+ RObj dev KSession session +]} ⊎ objects dev (memories allocated) F))
        with ({[+ RObj dev KSession session +]} ⊎ objects dev (memories (allocated ++ [m])) F).
      * apply IH. by rewrite fmap_app, Hb.
      * rewrite memories_snoc. cbn [kind_of]. multiset_solver.
    + apply safe_bind. eapply safe_mono; [by apply cleanup_partial_safe|].
      cbv beta. intros x' L' r (-> & -> & ->). by apply safe_fail.
  - apply safe_bind. eapply safe_mono; [by apply cleanup_partial_safe|].
    cbv beta. intros x' L' r (-> & -> & ->). by apply safe_fail.
Qed.

(** A new session holds its memory; one that cannot be made leaves nothing. *)
Lemma session_new_safe x cx width height kind F :
  RDevice (cx_device cx) ∈ F -> RInstance (cx_instance cx) ∈ F ->
  safe L0 (session_new (X := X) cx width height kind) x F
    (fun x' L' r => x' = x /\
       match r with
       | Ok s => es_device s = cx_device cx /\ es_parameters s = None /\ es_kind s = kind /\
                 L' = objects (cx_device cx) (session_objects s) F
       | Err _ => L' = F
       end).
Proof.
  intros Hd Hi. unfold session_new. vk_run; try done.
  eapply safe_mono; [apply (session_memory_safe x (cx_device cx) z _ _ [] [] F); done|].
  cbv beta. intros x' L' [m|e] [-> Hm]; [|done]. destruct Hm as [Hb ->].
  assert (Hm : RDevice (cx_device cx) ∈ objects (cx_device cx) (memories m.1) F) by by apply objects_rest.
  apply safe_bind. apply safe_ask. intros ok. eexists. split.
  - cbn [effect vk_effects]. rewrite provided_true; [reflexivity|]. apply all_alive_in; [there|].
    constructor; [cbn [fst snd]; there|].
    replace ((fun b : Z * Z * Z => (KMemory, b.1.2)) <$> m.2) with (memories m.1) by by rewrite <- Hb, <- list_fmap_compose.
    eapply list.Forall_impl; [apply objects_in|]. cbv beta. intros o Ho.
    apply gmultiset_elem_of_disj_union. right. exact Ho.
  - vk_run; [|by split_and!].
    eapply safe_mono; [by apply cleanup_partial_safe|]. cbv beta. intros x' L' r (-> & -> & ->). by apply safe_fail.
Qed.

(** Its parameters are one more object, whether or not they can be read back. *)
Lemma session_parameters_safe x s F :
  RDevice (es_device s) ∈ F -> es_parameters s = None ->
  safe L0 (session_parameters (X := X) s) x (objects (es_device s) (session_objects s) F)
    (fun x' L' r => x' = x /\
       exists s' made, r = Ok (s', made) /\ es_device s' = es_device s /\ es_kind s' = es_kind s /\
         (made = Ok () -> es_parameters s' <> None) /\
         L' = objects (es_device s) (session_objects s') F).
Proof.
  intros Hd Hp. unfold session_parameters.
  assert (HL : objects (es_device s) (session_objects s) F =
    {[+ RObj (es_device s) KSession (es_session s) +]} ⊎ objects (es_device s) (memories (es_memory s)) F)
    by (unfold session_objects; by rewrite Hp).
  rewrite HL. assert (Hm : RDevice (es_device s) ∈ objects (es_device s) (memories (es_memory s)) F) by by apply objects_rest.
  vk_run; split; try done; do 2 eexists; (split; [reflexivity|]); split_and!; try done.
Qed.

Lemma session_drop_safe x s F :
  RDevice (es_device s) ∈ F ->
  safe L0 (session_drop (X := X) s) x (objects (es_device s) (session_objects s) F)
    (fun x' L' r => x' = x /\ L' = F /\ r = Ok ()).
Proof.
  intros Hd. unfold session_drop, session_objects.
  assert (Hm : RDevice (es_device s) ∈ objects (es_device s) (memories (es_memory s)) F) by by apply objects_rest.
  destruct (es_parameters s); cbn [opt_object app objects fst snd]; vk_run; by apply free_all_safe.
Qed.

(** ** The pipeline *)

(** Bring a union into the order of another. *)
Lemma union_step (r : vk_res) L M N : release r L = Some M -> M = N -> L = {[+ r +]} ⊎ N.
Proof.
  unfold release. destruct (decide (r ∈ L)) as [Hr|]; [|done]. intros [= <-] <-. multiset_solver.
Qed.

Lemma pipeline_new_safe x shader cx sets F :
  RDevice (cx_device cx) ∈ F ->
  safe L0 (pipeline_new (X := X) shader cx sets) x F
    (fun x' L' r => x' = x /\
       match r with
       | Ok p => pi_device p = cx_device cx /\ L' = objects (cx_device cx) (pipeline_objects p) F
       | Err _ => grown F L'
       end).
Proof.
  intros Hd. unfold pipeline_new. vk_run; (split; [done|]); below.
Qed.

Lemma pipeline_drop_safe x p F :
  RDevice (pi_device p) ∈ F ->
  safe L0 (pipeline_drop (X := X) p) x (objects (pi_device p) (pipeline_objects p) F)
    (fun x' L' r => x' = x /\ L' = F /\ r = Ok ()).
Proof. intros Hd. by apply destroy_all_safe. Qed.

(** ** Images and buffers *)

(** A step of [frames_make]: go on with what it made, or fail with what was there. *)
Ltac made H :=
  apply safe_bind; eapply safe_mono; [eapply H; there|]; cbv beta;
  let x' := fresh "x" in let L' := fresh "L" in let HL := fresh "HL" in
  intros x' L' [?|?] [-> HL]; [subst L'|split; [done|eapply grown_trans; [|exact HL]; below]].

Lemma dpb_view_safe x dev image s F :
  RDevice dev ∈ F -> RObj dev KImage image ∈ F ->
  safe L0 (dpb_first_view (X := X) dev image s) x F (makes x F (fun v => {[+ RObj dev KView v +]} ⊎ F)).
Proof. intros Hd Hi. unfold dpb_first_view. destruct (fs_kind s); by apply view_safe. Qed.

Lemma dpb_view2_safe x dev image s F :
  RDevice dev ∈ F -> RObj dev KImage image ∈ F ->
  safe L0 (dpb_second_view (X := X) dev image s) x F
    (fun x' L' r => x' = x /\
       match r with
       | Ok v => (fs_kind s = Main420 -> v <> None) /\ L' = objects dev (opt_object KView v) F
       | Err _ => grown F L'
       end).
Proof.
  intros Hd Hi. unfold dpb_second_view. destruct (fs_kind s); [|by apply safe_ret].
  unfold create_dpb_layer_view. made view_safe. by apply safe_ret.
Qed.

(** The union a list of objects stands for, in the order they were made. *)
Ltac reorder :=
  lazymatch goal with
  | |- ?F = ?F => reflexivity
  | |- _ = {[+ ?r +]} ⊎ _ => eapply union_step; [release_deep|reorder]
  end.

Lemma full_view_safe x dev image format F :
  RDevice dev ∈ F -> RObj dev KImage image ∈ F ->
  safe L0 (create_full_image_view (X := X) dev image format) x F (makes x F (fun v => {[+ RObj dev KView v +]} ⊎ F)).
Proof. intros Hd Hi. by apply view_safe. Qed.

Lemma frames_make_safe x s cx width height F :
  RDevice (cx_device cx) ∈ F -> RInstance (cx_instance cx) ∈ F ->
  safe L0 (frames_make (X := X) s cx width height) x F
    (fun x' L' r => x' = x /\
       match r with
       | Ok fr => fr_device fr = cx_device cx /\ fr_staging_size fr = as_u 64 (fr_width fr * fr_height fr * 4) /\
                  (fs_kind s = Main420 -> fr_dpb_view2 fr <> None) /\
                  L' = objects (cx_device cx) (frame_objects fr) F
       | Err _ => grown F L'
       end).
Proof.
  intros Hd Hi. unfold frames_make. cbv zeta.
  apply safe_bind. apply safe_ask. intros props. eexists. split; [vk_effect|].
  made make_image_safe. made full_view_safe.
  made make_image_safe. made full_view_safe.
  made make_image_safe. made dpb_view_safe.
  apply safe_bind; eapply safe_mono; [apply dpb_view2_safe; there|]. cbv beta.
  intros x' L' [v2|e] [-> HL]; [destruct HL as [Hv ->]|split; [done|eapply grown_trans; [|exact HL]; below]].
  destruct v2 as [v2|]; cbn [opt_object objects fst snd].
  all: made make_image_safe; made full_view_safe.
  all: made make_image_safe; made full_view_safe.
  all: made make_buffer_safe; made make_buffer_safe.
  all: vk_run; try (split; [done|below]).
  all: split_and!; try done.
  all: cbn [objects frame_objects app fst snd fr_query_pool fr_fence fr_command_pool fr_encoded_buffer fr_encoded_memory
            fr_staging_buffer fr_staging_memory fr_picture_view fr_picture_image fr_picture_memory fr_dpb_view
            fr_dpb_view2 fr_dpb_image fr_dpb_memory fr_uv_view fr_uv_image fr_uv_memory fr_y_view fr_y_image
            fr_y_memory fr_bgra_view fr_bgra_image fr_bgra_memory].
  all: reorder.
Qed.

Lemma frames_drop_safe x fr F :
  RDevice (fr_device fr) ∈ F ->
  safe L0 (frames_drop (X := X) fr) x (objects (fr_device fr) (frame_objects fr) F)
    (fun x' L' r => x' = x /\ L' = F /\ r = Ok ()).
Proof.
  intros Hd. unfold frames_drop, fence_timeout. pose proof (objects_in (fr_device fr) (frame_objects fr) F) as Ho.
  assert (Hf : RObj (fr_device fr) KFence (fr_fence fr) ∈ objects (fr_device fr) (frame_objects fr) F).
  { rewrite list.Forall_forall in Ho. apply (Ho (KFence, fr_fence fr)). cbn. right. left. }
  pose proof (objects_rest (fr_device fr) (frame_objects fr) F _ Hd) as Hr.
  vk_run. by apply destroy_all_safe.
Qed.
End Objects.
