(* ===== verification/VulkanLife.v ===== *)
(** * The life of a Vulkan recorder

    From the opening of the device to the drop of the recorder, with any frames in between and
    whatever the driver answers: which objects are used, released and left. *)

From Stdlib Require Import ZArith Lia String.
From stdpp Require Import prelude strings list gmultiset.
From S2P Require Import Prelude Words Composite SessionInput SessionRecord Driver Dmabuf H264.
From S2P Require Import Vulkan VulkanFrames VulkanProps.

Open Scope Z_scope.

(** ** Mapped memory *)

Lemma not_mapped d m L : no_maps L -> is_mapped d m L = false.
Proof.
  intros Hn. apply not_true_iff_false. intros (r & Hr & Hp)%existsb_exists.
  apply list_elem_of_In, gmultiset_elem_of_elements in Hr.
  destruct r as [| | | | |d' m' s]; try done. by destruct (Hn d' m' s).
Qed.

Lemma mapped_enough d m s n L : n <= s -> mapped_room d m n ({[+ RMapped d m s +]} ⊎ L) = true.
Proof.
  intros Hn. apply existsb_exists. exists (RMapped d m s). split.
  - apply list_elem_of_In, gmultiset_elem_of_elements. there.
  - rewrite !Z.eqb_refl. cbn. by apply Z.leb_le.
Qed.

Lemma unmap_mapped d m s L : no_maps L -> unmap d m ({[+ RMapped d m s +]} ⊎ L) = Some L.
Proof.
  intros Hn. unfold unmap. set (p := fun r : vk_res => _).
  destruct (List.find p _) as [r|] eqn:Ef.
  - apply List.find_some in Ef as [Hr Hp]. apply list_elem_of_In, gmultiset_elem_of_elements in Hr.
    apply gmultiset_elem_of_disj_union in Hr as [->%gmultiset_elem_of_singleton|Hr]; [apply release_acquired|].
    destruct r as [| | | | |d' m' s']; try done. by destruct (Hn d' m' s').
  - exfalso. eapply List.find_none in Ef.
    2: { apply list_elem_of_In, gmultiset_elem_of_elements, gmultiset_elem_of_disj_union. left.
         by apply gmultiset_elem_of_singleton. }
    unfold p in Ef. by rewrite !Z.eqb_refl in Ef.
Qed.

Section Life.
Context `{Driver vk_call} (L0 : vk_live).

Abbreviation keeps x L := (fun x' L' (_ : result _ string) => x' = x /\ L' = L).

(** ** Images of pixels *)

Lemma importable_safe c instance pd props L :
  RInstance instance ∈ L -> safe L0 (importable instance pd props) c L (keeps c L).
Proof.
  intros Hi. induction props as [|[modifier planes] props IH]; cbn [importable]; [by apply safe_ret|].
  destruct (negb (planes =? 1)); [exact IH|]. vk_run.
  eapply safe_mono; [exact IH|]. cbv beta. intros x' L' [l|e] [-> ->]; [|done]. by apply safe_ret.
Qed.

Lemma query_modifiers_safe c cx L :
  RInstance (cx_instance cx) ∈ L -> safe L0 (query_modifiers cx) c L (keeps c L).
Proof. intros Hi. unfold query_modifiers. vk_run; try done. by apply importable_safe. Qed.

(** The device that is opened for the query is dropped with it. *)
Lemma query_importable_safe c L :
  safe L0 query_importable_bgra_modifiers c L (fun c' L' r => c' = c /\ grown L L').
Proof.
  unfold query_importable_bgra_modifiers. apply safe_bind. eapply safe_mono; [apply ctx_open_safe|].
  cbv beta. intros x' L' [cx|e] [-> HL]; [subst L'|done].
  apply safe_bind, safe_attempt. eapply safe_mono; [apply query_modifiers_safe, ctx_held_instance|].
  cbv beta. intros x' L' r [-> ->]. apply safe_bind. eapply safe_mono; [apply ctx_drop_safe|].
  cbv beta. intros x' L' u (-> & -> & ->). destruct r; vk_run; (split; [done|apply grown_refl]).
Qed.

(** Once the cell is filled nothing is asked. *)
Lemma modifier_safe c modifier L :
  safe L0 (modifier_is_importable modifier) c L
    (fun c' L' r => grown L L' /\ result_is_ok r = true /\ (c <> None -> c' = c /\ L' = L)).
Proof.
  unfold modifier_is_importable, vulkan_importable_bgra_modifiers. apply safe_bind.
  apply safe_bind. apply safe_here. destruct c as [set|].
  - apply safe_ret. apply safe_ret. split; [apply grown_refl|done].
  - apply safe_bind, safe_attempt. eapply safe_mono; [apply query_importable_safe|].
    cbv beta. intros x' L' r [-> HL]. vk_run. by split_and!.
Qed.

(** An image of a dmabuf with its memory, or nothing. *)
Lemma import_image_safe c cx dma i L :
  RDevice (cx_device cx) ∈ L -> RInstance (cx_instance cx) ∈ L ->
  safe L0 (import_image cx dma i) c L
    (fun c' L' r => c' = c /\
       match r with
       | Ok p => L' = {[+ RObj (cx_device cx) KMemory p.2 +]} ⊎ ({[+ RObj (cx_device cx) KImage p.1 +]} ⊎ L)
       | Err _ => L' = L
       end).
Proof.
  intros Hd Hi. unfold import_image. vk_run; try done.
Qed.

(** ** Pictures *)

(** Everything a picture needs is there. *)
Record ready (cx : VkDeviceCtx) (fr : FrameResources) (pipe : ColorPipeline) (s : EncodeSession) (L : vk_live) : Prop := {
  rd_device : RDevice (cx_device cx) ∈ L;
  rd_instance : RInstance (cx_instance cx) ∈ L;
  rd_frames : Forall (fun o => RObj (cx_device cx) o.1 o.2 ∈ L) (frame_objects fr);
  rd_pipe : Forall (fun o => RObj (cx_device cx) o.1 o.2 ∈ L) (pipeline_objects pipe);
  rd_session : Forall (fun o => RObj (cx_device cx) o.1 o.2 ∈ L) (session_objects s);
  rd_parameters : es_parameters s <> None;
  rd_staging : fr_staging_size fr = as_u 64 (fr_width fr * fr_height fr * 4);
  rd_maps : no_maps L;
}.

Lemma ready_grown cx fr pipe s L L' : ready cx fr pipe s L -> grown L L' -> ready cx fr pipe s L'.
Proof.
  intros [] HL. constructor; try done; try (by eapply grown_in); try (by eapply grown_maps).
  all: eapply list.Forall_impl; [eassumption|]; cbv beta; intros; by eapply grown_in.
Qed.

Lemma ready_add cx fr pipe s r L :
  (forall d m n, r <> RMapped d m n) -> ready cx fr pipe s L -> ready cx fr pipe s ({[+ r +]} ⊎ L).
Proof. intros Hr HL. eapply ready_grown; [exact HL|]. apply grown_add; [done|apply grown_refl]. Qed.

(** The objects a picture refers to, one by one. *)
Lemma ready_objects cx fr pipe s L :
  ready cx fr pipe s L ->
  let has k h := RObj (cx_device cx) k h ∈ L in
  (has KQueryPool (fr_query_pool fr) /\ has KFence (fr_fence fr) /\ has KBuffer (fr_encoded_buffer fr) /\
   has KMemory (fr_encoded_memory fr) /\ has KBuffer (fr_staging_buffer fr) /\ has KMemory (fr_staging_memory fr) /\
   has KView (fr_picture_view fr) /\ has KImage (fr_picture_image fr) /\ has KView (fr_dpb_view fr)) /\
  (match fr_dpb_view2 fr with Some v => has KView v | None => True end /\
   has KImage (fr_dpb_image fr) /\ has KView (fr_uv_view fr) /\ has KImage (fr_uv_image fr) /\
   has KView (fr_y_view fr) /\ has KImage (fr_y_image fr) /\ has KView (fr_bgra_view fr) /\
   has KImage (fr_bgra_image fr)) /\
  (has KSampler (pi_sampler pipe) /\ has KDescriptorPool (pi_pool pipe) /\ has KPipeline (pi_pipeline pipe) /\
   has KPipelineLayout (pi_layout pipe) /\ has KSetLayout (pi_set_layout pipe)) /\
  has KSession (es_session s) /\ has KParameters (default 0 (es_parameters s)).
Proof.
  intros [_ _ Hf Hp Hs Hq _ _]. cbv zeta.
  unfold frame_objects, pipeline_objects in *. rewrite !list.Forall_app, !list.Forall_cons in Hf.
  rewrite !list.Forall_cons in Hp. unfold session_objects in Hs. rewrite list.Forall_app, list.Forall_cons in Hs.
  destruct (es_parameters s); [|done]. cbn [opt_object default] in *. rewrite list.Forall_cons in Hs.
  destruct Hf as (Hf1 & Hf2 & Hf3), Hs as ((Hs1 & _) & Hs2 & _). cbn [fst snd] in *.
  destruct_and!. split_and!; try done. destruct (fr_dpb_view2 fr); [|done]. by apply Forall_inv in Hf2.
Qed.
End Life.

(** What is known of a picture's objects, as hypotheses. *)
Ltac know HL :=
  pose proof (rd_device _ _ _ _ _ HL); pose proof (rd_instance _ _ _ _ _ HL); pose proof (rd_maps _ _ _ _ _ HL);
  pose proof (ready_objects _ _ _ _ _ HL); cbv zeta in *; destruct_and!.

(** The errors after which something of the picture is left: the conversion for either source,
    and what follows the import of a dmabuf. *)
Definition conversion_errors : list string :=
  [ "allocate_command_buffers(compute)"; "begin_command_buffer(compute)"; "end_command_buffer(compute)";
    "create_semaphore"; "reset_fences"; "queue_submit(compute)" ].

(** The errors before there is anything of it. *)
Definition set_errors : list string := [ "reset_descriptor_pool"; "allocate_descriptor_sets" ].
Definition pool_error : string := "create_command_pool(compute)".

Definition leaky_errors (src : DmabufBufferData + list Z) : list string :=
  match src with
  | inl _ => [ "bind_image_memory(dmabuf)"; "create_image_view"; pool_error ] ++ set_errors ++ conversion_errors
  | inr _ => conversion_errors
  end.

Section Pictures.
Context `{Driver vk_call} (L0 : vk_live).
Context (cx : VkDeviceCtx) (fr : FrameResources) (pipe : ColorPipeline) (s : EncodeSession).
Abbreviation dev := (cx_device cx).
Abbreviation ready := (ready cx fr pipe s).
Abbreviation keeps x L := (fun x' L' (_ : result _ string) => x' = x /\ L' = L).

Lemma map_safe what c m offset size L :
  RDevice dev ∈ L -> RObj dev KMemory m ∈ L -> no_maps L ->
  safe L0 (need_ok (X := Cache) what (MapMemory dev m offset size)) c L
    (fun c' L' r => c' = c /\ match r with Ok _ => L' = {[+ RMapped dev m size +]} ⊎ L | Err _ => L' = L end).
Proof.
  intros Hd Hm Hn. unfold need_ok. apply safe_bind. apply safe_ask. intros ok. eexists. split.
  - cbn [effect vk_effects]. rewrite provided_true; [reflexivity|]. rewrite not_mapped by done. vk_side. done.
  - destruct ok; vk_run; done.
Qed.

Lemma upload_staging_safe c bgra L :
  ready L -> Z.of_nat (length bgra) = expected_bytes fr -> safe L0 (upload_staging cx fr bgra) c L (keeps c L).
Proof.
  intros HL Hb. know HL. unfold upload_staging. apply safe_bind.
  eapply safe_mono; [by apply map_safe|]. cbv beta. intros c' L' [u|e] [-> ->]; [|done].
  apply safe_bind, safe_ask. intros []. eexists. split.
  { cbn [effect vk_effects]. rewrite provided_true; [reflexivity|]. rewrite mapped_enough; [done|].
    rewrite (rd_staging _ _ _ _ _ HL), Hb. unfold expected_bytes, as_u. rewrite Zmult_mod_idemp_l. lia. }
  apply safe_ask. intros []. exists L. split; [|done]. cbn [effect vk_effects]. by apply unmap_mapped.
Qed.

Lemma color_set_safe c src_view L :
  ready L -> RObj dev KView src_view ∈ L ->
  safe L0 (color_set cx fr pipe src_view) c L
    (fun c' L' r => c' = c /\ L' = L /\ match r with Ok _ => True | Err e => e ∈ set_errors end).
Proof. intros HL Hv. know HL. unfold color_set. vk_run; (split; [done|split; [done|]]); try done; set_solver. Qed.

Lemma record_all_safe c cb cs L :
  RDevice dev ∈ L -> Forall (fun cmd => Forall (fun o => RObj dev o.1 o.2 ∈ L) (command_objects cmd)) cs ->
  safe L0 (record_all dev cb cs) c L (fun c' L' r => c' = c /\ L' = L /\ r = Ok ()).
Proof.
  intros Hd Hcs. unfold record_all. induction Hcs as [|cmd cs Hc Hcs IH]; cbn [each]; [by apply safe_ret|].
  apply safe_bind, safe_ask. intros []. exists L. split; [|exact IH].
  cbn [effect vk_effects]. rewrite provided_true; [done|]. by apply all_alive_in.
Qed.

Lemma compute_commands_safe c L :
  RDevice dev ∈ L ->
  safe L0 (compute_commands cx) c L
    (fun c' L' r => c' = c /\
       match r with
       | Ok p => L' = {[+ RObj dev KCommandPool p.1 +]} ⊎ L
       | Err e => grown L L' /\ (L' = L /\ e = pool_error \/ e ∈ conversion_errors)
       end).
Proof.
  intros Hd. unfold compute_commands. vk_run; split; try done; (split; [below|]); try (by left).
  all: right; set_solver.
Qed.

Lemma submit_compute_safe c cb L :
  ready L ->
  safe L0 (submit_compute cx fr cb) c L
    (fun c' L' r => c' = c /\
       match r with
       | Ok sem => L' = {[+ RObj dev KSemaphore sem +]} ⊎ L
       | Err e => grown L L' /\ e ∈ conversion_errors
       end).
Proof.
  intros HL. know HL. unfold submit_compute. vk_run; split; try done; (split; [below|]); set_solver.
Qed.

Lemma encode_qp_safe c L : safe L0 encode_qp c L (fun c' L' r => c' = c /\ L' = L /\ result_is_ok r = true).
Proof. unfold encode_qp. vk_run; done. Qed.

Lemma submit_encode_safe c sem L :
  ready L -> RObj dev KSemaphore sem ∈ L -> safe L0 (submit_encode cx fr sem) c L (keeps c L).
Proof. intros HL Hs. know HL. unfold submit_encode, fence_timeout. vk_run; done. Qed.

Lemma read_feedback_safe c L : ready L -> safe L0 (read_feedback cx fr) c L (keeps c L).
Proof. intros HL. know HL. unfold read_feedback. vk_run; done. Qed.

Lemma read_encoded_safe c offset n L : ready L -> safe L0 (read_encoded cx fr offset n) c L (keeps c L).
Proof.
  intros HL. know HL. unfold read_encoded. apply safe_bind.
  eapply safe_mono; [by apply map_safe|]. cbv beta. intros c' L' [u|e] [-> ->]; [|done].
  apply safe_bind, safe_ask. intros mem. eexists. split.
  { cbn [effect vk_effects]. rewrite provided_true; [reflexivity|]. by apply mapped_enough. }
  apply safe_bind, safe_ask. intros []. exists L. split; [|by apply safe_ret]. cbn [effect vk_effects]. by apply unmap_mapped.
Qed.

(** Every command of a list refers to objects that are there. *)
Ltac cmds :=
  repeat lazymatch goal with
  | |- Forall _ (_ ++ _) => apply list.Forall_app; split
  | |- Forall _ (_ :: _) => constructor
  | |- Forall _ [] => constructor
  | |- Forall _ (command_objects _) =>
      cbn [command_objects image_layout_barrier dpb_layer_layout_barrier ownership_barrier acquire_command
           release_command ib_image ei_buffer ei_source_view ei_setup ei_references fmap list_fmap app fst snd]
  | |- _ ∈ _ => cbn [fst snd]; there
  end.

Lemma view_for_alive slot L : ready L -> fr_dpb_view2 fr <> None -> RObj dev KView (view_for fr slot) ∈ L.
Proof.
  intros HL Hv. know HL. unfold view_for. destruct (slot =? 1); [|done]. by destruct (fr_dpb_view2 fr).
Qed.

Lemma convert_commands_alive set chroma before L :
  ready L -> Forall (fun cmd => Forall (fun o => RObj dev o.1 o.2 ∈ L) (command_objects cmd)) before ->
  Forall (fun cmd => Forall (fun o => RObj dev o.1 o.2 ∈ L) (command_objects cmd))
    (convert_commands fr pipe set chroma before).
Proof. intros HL Hb. know HL. unfold convert_commands, storage_barriers. cmds. done. Qed.

Lemma staging_commands_alive L :
  ready L ->
  Forall (fun cmd => Forall (fun o => RObj dev o.1 o.2 ∈ L) (command_objects cmd)) (staging_commands fr).
Proof. intros HL. know HL. unfold staging_commands. cmds. Qed.

(** A recorded list is one step. *)
Ltac recorded :=
  eapply safe_mono; [apply record_all_safe; [there|]|cbv beta; intros ? ? ? (-> & -> & ->)].

Lemma encode_one_safe' c sem pic L :
  ready L -> fr_dpb_view2 fr <> None -> RObj dev KSemaphore sem ∈ L ->
  safe L0 (encode_one_picture_on_encode_queue cx fr s sem pic) c L (keeps c L).
Proof.
  intros HL Hv Hs. know HL.
  pose proof (view_for_alive (pp_setup_slot pic) L HL Hv). pose proof (view_for_alive (pp_ref_slot pic) L HL Hv).
  unfold encode_one_picture_on_encode_queue. vk_run; try done. recorded.
  { unfold begin_picture. destruct (pp_is_idr pic); cmds. }
  apply safe_bind. eapply safe_mono; [apply encode_qp_safe|]. cbv beta. intros c' L' [qp|e] (-> & -> & Hq); [|done].
  apply safe_bind. recorded. { unfold encode_info. destruct (pp_is_idr pic); cmds. }
  vk_run; try done. eapply safe_mono; [by apply submit_encode_safe|]. cbv beta. intros c' L' [u|e] [-> ->]; [|done].
  apply safe_bind. eapply safe_mono; [by apply read_feedback_safe|]. cbv beta. intros c' L' [r|e] [-> ->]; [|done].
  by apply read_encoded_safe.
Qed.

(** Conversion and encoding give everything back unless the conversion fails. *)
Lemma convert_and_encode_safe c src_view first pic L :
  ready L -> fr_dpb_view2 fr <> None -> RObj dev KView src_view ∈ L ->
  Forall (fun cmd => Forall (fun o => RObj dev o.1 o.2 ∈ L) (command_objects cmd)) first ->
  safe L0 (convert_and_encode cx fr pipe s src_view first pic) c L
    (fun c' L' r => c' = c /\
       match r with
       | Ok _ => L' = L
       | Err e => grown L L' /\
           (L' = L /\ e ∈ pool_error :: set_errors \/ e ∈ conversion_errors)
       end).
Proof.
  intros HL Hv Hs Hf. unfold convert_and_encode. cbv zeta. apply safe_bind.
  eapply safe_mono; [by apply color_set_safe|]. cbv beta. intros c1 L1 [set|e] (-> & -> & He).
  2: { split; [done|]. split; [below|]. left. set_solver. }
  apply safe_bind. eapply safe_mono; [apply compute_commands_safe, (rd_device _ _ _ _ _ HL)|].
  cbv beta. intros c1 L1 [p|e] [-> HL1]; [subst L1|]; cycle 1.
  { split; [done|]. destruct HL1 as [Hg [[-> ->]|He1]]; (split; [done|]); [left; set_solver|by right]. }
  assert (HL1 : ready ({[+ RObj dev KCommandPool p.1 +]} ⊎ L)) by by apply ready_add.
  apply safe_bind. eapply safe_mono; [apply record_all_safe; [apply (rd_device _ _ _ _ _ HL1)|]|].
  { apply list.Forall_app; split; [|apply list.Forall_app; split].
    - eapply list.Forall_impl; [exact Hf|]. cbv beta. intros cmd Hc. eapply list.Forall_impl; [exact Hc|].
      cbv beta. intros o Ho. there.
    - by apply convert_commands_alive.
    - know HL1. unfold release_command. cmds. }
  cbv beta. intros c1 L1 u (-> & -> & ->).
  apply safe_bind. eapply safe_mono; [by apply submit_compute_safe|].
  cbv beta. intros c1 L1 [sem|e] [-> HL2]; [subst L1|]; cycle 1.
  { split; [done|]. destruct HL2 as [Hg He2]. split; [|by right]. eapply grown_trans; [|exact Hg]. below. }
  assert (HL2 : ready ({[+ RObj dev KSemaphore sem +]} ⊎ ({[+ RObj dev KCommandPool p.1 +]} ⊎ L))) by by apply ready_add.
  apply safe_bind, safe_attempt. eapply safe_mono; [apply encode_one_safe'; [done|done|there]|].
  cbv beta. intros c1 L1 r [-> ->]. pose proof (rd_device _ _ _ _ _ HL). vk_run. done.
Qed.

(** What a picture leaves: nothing, or something after one of the [leaky] errors. *)
Definition spent {A} (leaky : list string) (L L' : vk_live) (r : result A string) : Prop :=
  grown L L' /\ (L' = L \/ match r with Ok _ => False | Err e => e ∈ leaky end).

Lemma spent_same {A} leaky L (r : result A string) : spent leaky L L r.
Proof. split; [apply grown_refl|by left]. Qed.

Lemma bgra_picture_safe c bgra pic L :
  ready L -> fr_dpb_view2 fr <> None ->
  safe L0 (encode_idr_gpu_synthetic cx fr pipe s bgra pic) c L
    (fun c' L' r => c' = c /\ spent (leaky_errors (inr bgra)) L L' r).
Proof.
  intros HL Hv. unfold encode_idr_gpu_synthetic. destruct (Z.of_nat (length bgra) =? expected_bytes fr) eqn:Eb; cbn [negb].
  2: { apply safe_fail. split; [done|apply spent_same]. }
  boolz. apply safe_bind. eapply safe_mono; [by apply upload_staging_safe|].
  cbv beta. intros c1 L1 [u|e] [-> ->]; [|split; [done|apply spent_same]].
  apply safe_bind. eapply safe_mono; [apply convert_and_encode_safe; [done|done| |by apply staging_commands_alive]|].
  { know HL. done. }
  cbv beta. intros c1 L1 [r|e] [-> HL1].
  - subst L1. destruct r; [apply safe_ret|apply safe_fail]; (split; [done|apply spent_same]).
  - split; [done|]. destruct HL1 as [Hg [[-> _]|He]]; [apply spent_same|]. split; [done|by right].
Qed.

(** The rest of a dmabuf's picture once its image is there. *)
Lemma dmabuf_picture_safe c dma pic L :
  ready L -> fr_dpb_view2 fr <> None ->
  safe L0 (encode_idr_from_dmabuf_impl cx fr pipe s dma pic) c L
    (fun c' L' r => grown L L' /\ (c <> None -> c' = c /\ spent (leaky_errors (inl dma)) L L' r)).
Proof.
  intros HL Hv. unfold encode_idr_from_dmabuf_impl. cbv zeta. apply safe_bind.
  eapply safe_mono; [apply modifier_safe|]. cbv beta. intros c1 L1 [ok|e] (Hg & Hok & Hc); [|done].
  eapply (safe_mono L0 _ _ _ (fun c' L' r => c' = c1 /\ spent (leaky_errors (inl dma)) L1 L' r)).
  2: { intros c' L' r [-> [Hg' HL']]. split; [by eapply grown_trans|]. intros Hn. destruct (Hc Hn) as [-> ->]. done. }
  assert (HL1 : ready L1) by by eapply ready_grown.
  pose proof (rd_device _ _ _ _ _ HL1) as Hd. pose proof (rd_instance _ _ _ _ _ HL1) as Hi.
  destruct ok; cbn [negb]; [|apply safe_fail; split; [done|apply spent_same]].
  destruct (_ || _); [apply safe_fail; split; [done|apply spent_same]|].
  destruct (drm_to_vk _) as [format|]; [|apply safe_fail; split; [done|apply spent_same]].
  apply safe_bind. eapply safe_mono; [by apply import_image_safe|].
  cbv beta. intros c2 L2 [[image memory]|e] [-> HL2]; subst L2; [|split; [done|apply spent_same]]. cbn [fst snd].
  unfold create_full_image_view. vk_run; try (split; [done|split; [below|right; set_solver]]).
  eapply safe_mono; [apply convert_and_encode_safe; [by repeat (apply ready_add; [done|])|done|there|]|].
  { unfold acquire_commands. cmds. }
  cbv beta. intros c2 L2 [r|e] [-> HL2].
  - subst L2. vk_run; (split; [done|apply spent_same]).
  - split; [done|]. split; [|right; set_solver]. eapply grown_trans; [|apply HL2]. below.
Qed.

(** ** Lossless pictures *)

(** Here a failed encoding leaves pool and semaphore as well. *)
Definition lossless_errors : list string :=
  conversion_errors ++
  [ "reset_command_buffer(encode/yuv444)"; "begin_command_buffer(encode/yuv444)"; "end_command_buffer(encode/yuv444)";
    "queue_submit(encode)"; "wait_for_fences(encode)" ].

Lemma encode_lossless_safe c sem L :
  ready L -> RObj dev KSemaphore sem ∈ L ->
  safe L0 (encode_lossless cx fr s sem) c L
    (fun c' L' r => c' = c /\ L' = L /\ match r with Ok _ => True | Err e => e ∈ lossless_errors end).
Proof.
  intros HL Hs. know HL. unfold encode_lossless. cbv zeta. vk_run; try (split; [done|split; [done|set_solver]]).
  recorded. { unfold begin_lossless. cmds. }
  apply safe_bind, safe_ask. intros skip. eexists. split; [vk_effect|].
  apply safe_bind. recorded. { destruct (negb _); cmds. }
  apply safe_bind, safe_ask. intros var. eexists. split; [vk_effect|].
  apply safe_bind. recorded. { unfold encode_info, idr_pic_params. cbn [pp_is_idr]. destruct (negb _); cmds. }
  unfold submit_encode, fence_timeout. vk_run; (split; [done|split; [done|]]); try done; set_solver.
Qed.

Lemma convert_lossless_safe c bgra before last L :
  ready L -> Z.of_nat (length bgra) = expected_bytes fr ->
  (forall L, ready L -> Forall (fun cmd => Forall (fun o => RObj dev o.1 o.2 ∈ L) (command_objects cmd)) before) ->
  (forall L, ready L -> Forall (fun o => RObj dev o.1 o.2 ∈ L) (command_objects last)) ->
  safe L0 (convert_lossless cx fr pipe bgra before last) c L
    (fun c' L' r => c' = c /\
       match r with
       | Ok p => L' = {[+ RObj dev KCommandPool p.1 +]} ⊎ L
       | Err e => grown L L' /\ (L' = L \/ e ∈ conversion_errors)
       end).
Proof.
  intros HL Eb Hb Hl. unfold convert_lossless.
  apply safe_bind. eapply safe_mono; [by apply upload_staging_safe|].
  cbv beta. intros c1 L1 [u|e] [-> ->]; [|split; [done|split; [below|by left]]].
  apply safe_bind. eapply safe_mono; [apply color_set_safe; [done|]|]. { know HL. done. }
  cbv beta. intros c1 L1 [set|e] (-> & -> & He); [|split; [done|split; [below|by left]]].
  apply safe_bind. eapply safe_mono; [apply compute_commands_safe, (rd_device _ _ _ _ _ HL)|].
  cbv beta. intros c1 L1 [p|e] [-> HL1]; [subst L1|]; cycle 1.
  { split; [done|]. destruct HL1 as [Hg [[-> _]|He1]]; (split; [done|]); [by left|by right]. }
  assert (HL1 : ready ({[+ RObj dev KCommandPool p.1 +]} ⊎ L)) by by apply ready_add.
  apply safe_bind. eapply safe_mono; [apply record_all_safe; [apply (rd_device _ _ _ _ _ HL1)|]|].
  { apply list.Forall_app; split; [by apply staging_commands_alive|apply list.Forall_app; split].
    - apply convert_commands_alive; auto.
    - constructor; [by apply Hl|constructor]. }
  cbv beta. intros c1 L1 u1 (-> & -> & ->). by apply safe_ret.
Qed.

Lemma lossless_picture_safe c bgra L :
  ready L ->
  safe L0 (encode_idr_gpu_synthetic_yuv444 cx fr pipe s bgra) c L
    (fun c' L' r => c' = c /\ spent lossless_errors L L' r).
Proof.
  intros HL. unfold encode_idr_gpu_synthetic_yuv444.
  destruct (Z.of_nat (length bgra) =? expected_bytes fr) eqn:Eb; cbn [negb].
  2: { apply safe_fail. split; [done|apply spent_same]. }
  destruct (es_kind s); [apply safe_fail; split; [done|apply spent_same]|]. boolz.
  apply safe_bind. eapply safe_mono; [apply convert_lossless_safe; [done|done|by constructor|]|].
  { intros M HM. know HM. unfold release_command. cmds. }
  cbv beta. intros c1 L1 [p|e] [-> HL1]; [subst L1|]; cycle 1.
  { split; [done|]. destruct HL1 as [Hg [->|He1]]; [apply spent_same|]. split; [done|right]. set_solver. }
  assert (HL1 : ready ({[+ RObj dev KCommandPool p.1 +]} ⊎ L)) by by apply ready_add.
  apply safe_bind. eapply safe_mono; [by apply submit_compute_safe|].
  cbv beta. intros c1 L1 [sem|e] [-> HL2]; [subst L1|]; cycle 1.
  { split; [done|]. destruct HL2 as [Hg He2]. split; [|right; set_solver]. eapply grown_trans; [|exact Hg]. below. }
  assert (HL2 : ready ({[+ RObj dev KSemaphore sem +]} ⊎ ({[+ RObj dev KCommandPool p.1 +]} ⊎ L))) by by apply ready_add.
  apply safe_bind. eapply safe_mono; [apply encode_lossless_safe; [done|there]|].
  cbv beta. intros c1 L1 [q|e] (-> & -> & He3); [|split; [done|split; [below|by right]]].
  pose proof (rd_device _ _ _ _ _ HL). vk_run.
  - eapply safe_mono; [by apply read_feedback_safe|]. cbv beta. intros c1 L1 [r|e] [-> ->]; [|split; [done|apply spent_same]].
    eapply safe_mono; [by apply read_encoded_safe|]. cbv beta. intros c1 L1 r' [-> ->]. split; [done|apply spent_same].
  - eapply safe_mono; [by apply read_encoded_safe|]. cbv beta. intros c1 L1 r' [-> ->]. split; [done|apply spent_same].
Qed.

(** The conversion of the HEVC recording. *)
Definition compute_errors : list string :=
  conversion_errors ++ [ "end_command_buffer"; "create_fence"; "queue_submit"; "wait_for_fences" ].

Lemma run_compute_safe c bgra L :
  ready L ->
  safe L0 (run_compute_yuv444_into_picture cx fr pipe bgra) c L
    (fun c' L' r => c' = c /\ spent compute_errors L L' r).
Proof.
  intros HL. unfold run_compute_yuv444_into_picture. cbv zeta.
  destruct (Z.of_nat (length bgra) =? expected_bytes fr) eqn:Eb; cbn [negb].
  2: { apply safe_fail. split; [done|apply spent_same]. }
  boolz. apply safe_bind. eapply safe_mono; [apply convert_lossless_safe; [done|done| |]|].
  { intros M HM. know HM. unfold clear_commands. cmds. }
  { intros M HM. know HM. cmds. }
  cbv beta. intros c1 L1 [p|e] [-> HL1]; [subst L1|]; cycle 1.
  { split; [done|]. destruct HL1 as [Hg [->|He1]]; [apply spent_same|]. split; [done|right]. set_solver. }
  know HL. unfold fence_timeout.
  vk_run; (split; [done|]); try (split; [below|right; set_solver]). apply spent_same.
Qed.
End Pictures.
