(* ===== verification/VulkanRecorder.v ===== *)
(** * Opening, recording, dropping

    The recorders as a whole. What a failed step leaves behind stays behind: it does not get in
    the way of the frames after it, nor of the drop. *)

From Stdlib Require Import ZArith Lia String.
From stdpp Require Import prelude strings list gmultiset.
From S2P Require Import Prelude Words Composite SessionInput SessionRecord Driver Dmabuf H264.
From S2P Require Import Vulkan VulkanFrames VulkanProps VulkanLife.

Open Scope Z_scope.

(** ** What is left under what is held *)

Lemma grown_objects dev l F L :
  grown (objects dev l F) L -> exists F', L = objects dev l F' /\ grown F F'.
Proof.
  intros HL. induction HL as [|r L Hr HL (F' & -> & HF)]; [exists F; split; [done|apply grown_refl]|].
  exists ({[+ r +]} ⊎ F'). rewrite objects_add. split; [done|by apply grown_add].
Qed.

Lemma objects_swap dev l1 l2 F : objects dev l1 (objects dev l2 F) = objects dev l2 (objects dev l1 F).
Proof. induction l1 as [|o l1 IH]; cbn [objects]; [done|]. by rewrite IH, objects_add. Qed.

Lemma ctx_held_add cx r F : ctx_held cx ({[+ r +]} ⊎ F) = {[+ r +]} ⊎ ctx_held cx F.
Proof. unfold ctx_held, messenger_held. destruct (cx_debug_messenger cx); multiset_solver. Qed.

Lemma grown_ctx cx F L : grown (ctx_held cx F) L -> exists F', L = ctx_held cx F' /\ grown F F'.
Proof.
  intros HL. induction HL as [|r L Hr HL (F' & -> & HF)]; [exists F; split; [done|apply grown_refl]|].
  exists ({[+ r +]} ⊎ F'). rewrite ctx_held_add. split; [done|by apply grown_add].
Qed.

(** ** Recorders *)

(** What a recorder owns. *)
Definition rec_held (r : Recorder) (F : vk_live) : vk_live :=
  let dev := cx_device (rc_ctx r) in
  objects dev (frame_objects (rc_frames r))
    (objects dev (pipeline_objects (rc_pipe r)) (objects dev (session_objects (rc_session r)) (ctx_held (rc_ctx r) F))).

(** Its parts belong together. *)
Record rec_ok (kind : EncodeKind) (r : Recorder) : Prop := {
  ro_frames : fr_device (rc_frames r) = cx_device (rc_ctx r);
  ro_pipe : pi_device (rc_pipe r) = cx_device (rc_ctx r);
  ro_session : es_device (rc_session r) = cx_device (rc_ctx r);
  ro_parameters : es_parameters (rc_session r) <> None;
  ro_kind : es_kind (rc_session r) = kind;
  ro_staging : fr_staging_size (rc_frames r) = as_u 64 (fr_width (rc_frames r) * fr_height (rc_frames r) * 4);
  ro_views : kind = Main420 -> fr_dpb_view2 (rc_frames r) <> None;
}.

Lemma grown_rec r F L : grown (rec_held r F) L -> exists F', L = rec_held r F' /\ grown F F'.
Proof.
  intros HL. apply grown_objects in HL as (F1 & -> & HL). apply grown_objects in HL as (F2 & -> & HL).
  apply grown_objects in HL as (F3 & -> & HL). apply grown_ctx in HL as (F4 & -> & HL). by exists F4.
Qed.

Lemma objects_maps dev l F : no_maps F -> no_maps (objects dev l F).
Proof.
  intros HF. induction l as [|o l IH]; cbn [objects]; [done|]. eapply grown_maps; [|exact IH].
  apply grown_add; [done|apply grown_refl].
Qed.

Lemma ctx_maps cx F : no_maps F -> no_maps (ctx_held cx F).
Proof.
  intros HF. eapply grown_maps; [|exact HF]. unfold ctx_held. apply grown_add; [done|].
  apply messenger_sub. apply grown_add; [done|apply grown_refl].
Qed.

Lemma rec_ready kind r F :
  rec_ok kind r -> no_maps F -> ready (rc_ctx r) (rc_frames r) (rc_pipe r) (rc_session r) (rec_held r F).
Proof.
  intros [] HF. unfold rec_held. cbv zeta. constructor; try done.
  - do 3 apply objects_rest. apply ctx_held_device.
  - do 3 apply objects_rest. apply ctx_held_instance.
  - apply objects_in.
  - eapply list.Forall_impl; [apply objects_in|]. cbv beta. intros o Ho. by apply objects_rest.
  - eapply list.Forall_impl; [apply objects_in|]. cbv beta. intros o Ho. by do 2 apply objects_rest.
  - do 3 apply objects_maps. by apply ctx_maps.
Qed.

Section Recorder.
Context `{Driver vk_call} (L0 : vk_live).

(** An error runs the drop, and stays the error. *)
Lemma on_failure_safe {A} (m : Eff (Cache * list vk_event) string A) fin c L Q :
  safe L0 m c L (fun c' L' r =>
    match r with
    | Ok a => Q c' L' (Ok a)
    | Err e => safe L0 fin c' L' (fun c'' L'' u => u = Ok () /\ Q c'' L'' (Err e))
    end) ->
  safe L0 (on_failure m fin) c L Q.
Proof.
  intros Hm. unfold on_failure. apply safe_bind, safe_attempt. eapply safe_mono; [exact Hm|].
  cbv beta. intros c' L' [a|e] HQ; [by apply safe_ret|]. apply safe_bind. eapply safe_mono; [exact HQ|].
  cbv beta. intros c'' L'' u [-> HQ']. by apply safe_fail.
Qed.

(** What is open when a later step fails is dropped, over what that step has left. *)
Lemma dropped_objects (fin : Eff (Cache * list vk_event) string unit) dev l c F L Q :
  (forall F', grown F F' -> safe L0 fin c (objects dev l F') (fun c' L' r => c' = c /\ L' = F' /\ r = Ok ())) ->
  grown (objects dev l F) L ->
  (forall F', grown F F' -> Q c F') ->
  safe L0 fin c L (fun c' L' u => u = Ok () /\ Q c' L').
Proof.
  intros Hfin HL HQ. apply grown_objects in HL as (F' & -> & HF). eapply safe_mono; [by apply Hfin|].
  cbv beta. intros c' L' u (-> & -> & ->). auto.
Qed.

Lemma new_frames_safe kind c cx width height F :
  RDevice (cx_device cx) ∈ F -> RInstance (cx_instance cx) ∈ F ->
  safe L0 (new_frames kind cx width height) c F
    (fun c' L' r => c' = c /\
       match r with
       | Ok fr => fr_device fr = cx_device cx /\ fr_staging_size fr = as_u 64 (fr_width fr * fr_height fr * 4) /\
                  (kind = Main420 -> fr_dpb_view2 fr <> None) /\
                  L' = objects (cx_device cx) (frame_objects fr) F
       | Err _ => grown F L'
       end).
Proof.
  intros Hd Hi. unfold new_frames, frames_new, frames444_new.
  destruct kind; [by apply (frames_make_safe L0 c shape420)|].
  vk_run; [split; [done|apply grown_refl]|]. by apply (frames_make_safe L0 c shape444).
Qed.

Lemma new_session_safe kind c cx width height F :
  RDevice (cx_device cx) ∈ F -> RInstance (cx_instance cx) ∈ F ->
  safe L0 (new_session kind cx width height) c F
    (fun c' L' r => c' = c /\
       match r with
       | Ok s => es_device s = cx_device cx /\ es_parameters s = None /\ es_kind s = kind /\
                 L' = objects (cx_device cx) (session_objects s) F
       | Err _ => L' = F
       end).
Proof.
  intros Hd Hi. unfold new_session, session_new_lossless. destruct kind; [by apply session_new_safe|].
  vk_run; [done|]. by apply session_new_safe.
Qed.

(** The pipeline, and the frames dropped without it. *)
Lemma with_pipe_safe kind c cx s fr width height F :
  RDevice (cx_device cx) ∈ F -> fr_device fr = cx_device cx ->
  safe L0 (recorder_pipe kind cx s fr width height)
    c (objects (cx_device cx) (frame_objects fr) F)
    (fun c' L' r => c' = c /\
       match r with
       | Ok r => rc_frames r = fr /\ rc_session r = s /\ rc_ctx r = cx /\ pi_device (rc_pipe r) = cx_device cx /\
                 L' = objects (cx_device cx) (frame_objects fr) (objects (cx_device cx) (pipeline_objects (rc_pipe r)) F)
       | Err _ => grown F L'
       end).
Proof.
  intros Hd Hf. unfold recorder_pipe. apply on_failure_safe. apply safe_bind.
  eapply safe_mono; [apply pipeline_new_safe; by apply objects_rest|].
  cbv beta. intros c1 L1 [pipe|e] [-> HL].
  - destruct HL as [Hp ->]. apply safe_ret. cbn [rc_frames rc_session rc_ctx rc_pipe]. split_and!; try done.
    apply objects_swap.
  - eapply dropped_objects with (Q := fun c' L' => c' = c /\ grown F L'); [|exact HL|done].
    intros F' HF'. rewrite <- Hf. apply frames_drop_safe. rewrite Hf. by eapply grown_in.
Qed.

(** Everything after the device. *)
Lemma after_ctx_safe kind c cx width height F :
  RDevice (cx_device cx) ∈ F -> RInstance (cx_instance cx) ∈ F ->
  safe L0 (recorder_parts kind cx width height) c F
    (fun c' L' r => c' = c /\
       match r with
       | Ok r => rc_ctx r = cx /\ rec_ok kind r /\
                 L' = objects (cx_device cx) (frame_objects (rc_frames r))
                        (objects (cx_device cx) (pipeline_objects (rc_pipe r))
                           (objects (cx_device cx) (session_objects (rc_session r)) F))
       | Err _ => grown F L'
       end).
Proof.
  intros Hd Hi. unfold recorder_parts. apply safe_bind.
  assert (Hk : forall Q : Cache -> vk_live -> result unit string -> Prop,
    Q c F (Ok ()) -> (forall e, Q c F (Err e)) ->
    safe L0 (match kind with
       | Hi444Lossless => if cx_hi444_supported cx then mret () else fail "Hi444PP not supported"%string
       | Main420 => mret () end) c F Q).
  { intros Q Hok Herr. destruct kind; vk_run; auto. }
  apply Hk; [|intros e; split; [done|apply grown_refl]]. clear Hk.
  apply safe_bind. eapply safe_mono; [by apply new_session_safe|].
  cbv beta. intros c1 L1 [s0|e] [-> HL]; [|subst L1; split; [done|apply grown_refl]].
  destruct HL as (Hs & Hp & Hkind & ->).
  apply safe_bind. rewrite <- Hs. eapply safe_mono; [apply session_parameters_safe; [by rewrite Hs|done]|].
  cbv beta. intros c1 L1 r (-> & s & made & -> & Hs1 & Hk1 & Hm & ->). rewrite Hs in *.
  assert (Hd1 : RDevice (cx_device cx) ∈ objects (cx_device cx) (session_objects s) F) by by apply objects_rest.
  assert (Hi1 : RInstance (cx_instance cx) ∈ objects (cx_device cx) (session_objects s) F) by by apply objects_rest.
  assert (Hdrop : forall L, grown (objects (cx_device cx) (session_objects s) F) L ->
    safe L0 (session_drop s) c L (fun c' L' u => u = Ok () /\ c' = c /\ grown F L')).
  { intros L HL. eapply dropped_objects with (Q := fun c' L' => c' = c /\ grown F L'); [|exact HL|done].
    intros F' HF'. rewrite <- Hs1. apply session_drop_safe. rewrite Hs1. by eapply grown_in. }
  apply on_failure_safe. apply safe_bind. destruct made as [[]|e]; [apply safe_ret|apply safe_fail; apply Hdrop, grown_refl].
  apply safe_bind. eapply safe_mono; [by apply new_frames_safe|].
  cbv beta. intros c1 L1 [fr|e] [-> HL]; [|by apply Hdrop]. destruct HL as (Hf & Hst & Hv & ->).
  eapply safe_mono; [by apply with_pipe_safe|].
  cbv beta. intros c1 L1 [r|e] [-> HL]; [|by apply Hdrop]. destruct HL as (Hfr & Hse & Hcx & Hpi & ->).
  split; [done|]. split; [done|]. rewrite Hfr, Hse. split; [|done].
  constructor; rewrite ?Hfr, ?Hse, ?Hcx; try done; first [by apply Hm | congruence].
Qed.

(** A recorder that opened owns its parts; one that did not has dropped what it had opened. *)
Lemma vk_try_new_safe kind c width height F :
  safe L0 (recorder_try_new kind width height) c F
    (fun c' L' r => c' = c /\
       match r with
       | Ok r => rec_ok kind r /\ L' = rec_held r F
       | Err _ => grown F L'
       end).
Proof.
  unfold recorder_try_new. apply safe_bind. eapply safe_mono; [apply ctx_open_safe|].
  cbv beta. intros c1 L1 [cx|e] [-> HL]; [subst L1|done]. apply on_failure_safe.
  eapply safe_mono; [apply after_ctx_safe; [apply ctx_held_device|apply ctx_held_instance]|].
  cbv beta. intros c1 L1 [r|e] [-> HL].
  - destruct HL as (Hcx & Hok & ->). split; [done|]. split; [done|]. unfold rec_held. by rewrite Hcx.
  - apply grown_ctx in HL as (F' & -> & HF). eapply safe_mono; [apply ctx_drop_safe|].
    cbv beta. intros c1 L1 u (-> & -> & ->). done.
Qed.

(** A drop leaves what is not the recorder's. *)
Lemma vk_recorder_drop_safe kind c r F :
  rec_ok kind r -> safe L0 (recorder_drop r) c (rec_held r F) (fun c' L' u => c' = c /\ L' = F /\ u = Ok ()).
Proof.
  intros [Hf Hp Hs _ _ _ _]. unfold recorder_drop, rec_held. cbv zeta.
  assert (Hd : RDevice (cx_device (rc_ctx r)) ∈ ctx_held (rc_ctx r) F) by apply ctx_held_device.
  apply safe_bind. rewrite <- Hf at 1. eapply safe_mono; [apply frames_drop_safe; rewrite Hf; by do 2 apply objects_rest|].
  cbv beta. intros c1 L1 u (-> & -> & ->).
  apply safe_bind. rewrite <- Hp at 1. eapply safe_mono; [apply pipeline_drop_safe; rewrite Hp; by apply objects_rest|].
  cbv beta. intros c1 L1 u (-> & -> & ->).
  apply safe_bind. rewrite <- Hs at 1. eapply safe_mono; [apply session_drop_safe; by rewrite Hs|].
  cbv beta. intros c1 L1 u (-> & -> & ->). apply ctx_drop_safe.
Qed.
End Recorder.

(** ** A recorder's life *)

Inductive RecOp :=
| Encode (src : DmabufBufferData + list Z) (is_idr : bool)
| EncodeIdr (src : DmabufBufferData + list Z)
| EncodeLossless (bgra : list Z).

(** The errors of an operation after which something is left. *)
Definition op_leaks (o : RecOp) : list string :=
  match o with
  | Encode src _ | EncodeIdr src => leaky_errors src
  | EncodeLossless _ => lossless_errors
  end.

Section Lives.
Context `{Driver vk_call}.

Abbreviation Rec A := (Eff ((Recorder * Cache) * list vk_event) string A).

(** The methods of the two recorders. *)
Definition rec_op (kind : EncodeKind) (o : RecOp) : Rec (list Z * bool) :=
  match kind, o with
  | Main420, Encode src is_idr => recorder_encode src is_idr
  | Main420, EncodeIdr src => recorder_encode_idr src
  | Hi444Lossless, EncodeLossless bgra => lossless_encode bgra
  | _, _ => fail "no such method"%string
  end.

(** Frames in any number, each of which may fail. *)
Fixpoint rec_ops (kind : EncodeKind) (ops : list RecOp) : Rec (list (result (list Z * bool) string)) :=
  match ops with
  | [] => mret []
  | o :: ops => r ← attempt (rec_op kind o); rs ← rec_ops kind ops; mret (r :: rs)
  end.

(** From [try_new] to the drop: the calls, and the results of the frames if there was a
    recorder. *)
Definition recorder_life (kind : EncodeKind) (c : Cache) (width height : Z) (ops : list RecOp) :
    list vk_event * option (list (result (list Z * bool) string)) :=
  match recorder_try_new kind width height (c, []) with
  | ((_, t), Err _) => (t, None)
  | ((c, t), Ok r) =>
      match rec_ops kind ops ((r, c), t) with
      | (((r, c), t), rs) =>
          ((recorder_drop r (c, t)).1.2, match rs with Ok rs => Some rs | Err _ => None end)
      end
  end.

Context (L0 : vk_live).

(** The plan of a picture is all that changes of a recorder. *)
Definition same_recorder (r r' : Recorder) : Prop :=
  exists n slot, r' = r <| rc_frame_num := n |> <| rc_ref_slot := slot |>.

Lemma same_recorder_refl r : same_recorder r r.
Proof. exists (rc_frame_num r), (rc_ref_slot r). by destruct r. Qed.

Lemma same_recorder_ok kind r r' : same_recorder r r' -> rec_ok kind r -> rec_ok kind r'.
Proof. by intros (n & slot & ->) []. Qed.

Lemma same_recorder_held r r' F : same_recorder r r' -> rec_held r' F = rec_held r F.
Proof. by intros (n & slot & ->). Qed.

Lemma encode_source_safe kind r c src pic F :
  rec_ok kind r -> kind = Main420 -> no_maps F ->
  safe L0 (encode_source r src pic) c (rec_held r F)
    (fun c' L' res => grown (rec_held r F) L' /\ (c <> None -> c' = c /\ spent (leaky_errors src) (rec_held r F) L' res)).
Proof.
  intros Hr Hk HF. pose proof (rec_ready kind r F Hr HF) as HL. pose proof (ro_views _ _ Hr Hk) as Hv.
  destruct src as [dma|bgra]; cbn [encode_source]; [by apply dmabuf_picture_safe|].
  eapply safe_mono; [by apply bgra_picture_safe|]. cbv beta. intros c' L' res [-> Hs]. split; [apply Hs|done].
Qed.

Lemma rec_op_safe kind o r c F :
  rec_ok kind r -> no_maps F ->
  safe L0 (rec_op kind o) (r, c) (rec_held r F)
    (fun x' L' res => same_recorder r x'.1 /\ grown (rec_held r F) L' /\
       (c <> None -> x'.2 = c /\ spent (op_leaks o) (rec_held r F) L' res)).
Proof.
  intros Hr HF. pose proof (same_recorder_refl r) as Hsame.
  assert (Hno : safe L0 (fail (A := list Z * bool) "no such method"%string) (r, c) (rec_held r F)
    (fun x' L' res => same_recorder r x'.1 /\ grown (rec_held r F) L' /\
       (c <> None -> x'.2 = c /\ spent (op_leaks o) (rec_held r F) L' res))).
  { apply safe_fail. split; [done|]. split; [apply grown_refl|]. intros _. split; [done|apply spent_same]. }
  destruct kind eqn:Ek, o as [src is_idr|src|bgra]; cbn [rec_op op_leaks]; try exact Hno; clear Hno.
  - unfold recorder_encode. apply safe_bind, safe_here. cbn [fst snd].
    destruct (plan_picture is_idr r) as [pic r1] eqn:Ep.
    assert (H1 : same_recorder r r1).
    { unfold plan_picture in Ep. destruct (next_pic_params _ _ _) as [[p n] slot]. injection Ep as <- <-. by exists n, slot. }
    apply safe_bind, safe_change, safe_bind, safe_part. cbn [fst snd].
    rewrite <- (same_recorder_held _ _ F H1).
    eapply safe_mono; [apply (encode_source_safe Main420); [by eapply same_recorder_ok|done|done]|].
    cbv beta. intros c' L' [d|e] [Hg Hs]; [apply safe_ret|]; done.
  - unfold recorder_encode_idr. apply safe_bind, safe_here. apply safe_bind, safe_part. cbn [fst snd].
    eapply safe_mono; [by apply (encode_source_safe Main420)|].
    cbv beta. intros c' L' [d|e] [Hg Hs]; [apply safe_ret|]; done.
  - unfold lossless_encode. apply safe_bind, safe_here. cbv zeta. apply safe_bind, safe_part. cbn [fst snd].
    eapply safe_mono; [apply lossless_picture_safe, (rec_ready Hi444Lossless); done|].
    cbv beta. intros c' L' [d|e] [-> Hs]; [apply safe_ret|]; (split; [done|]); split; try apply Hs; intros _; split; try done.
Qed.

Lemma spent_rec r F L :
  grown (rec_held r F) L -> exists F', L = rec_held r F' /\ grown F F' /\ (L = rec_held r F -> F' = F).
Proof.
  intros HL. destruct (decide (L = rec_held r F)) as [->|Hn]; [exists F; split_and!; [done|apply grown_refl|done]|].
  apply grown_rec in HL as (F' & -> & HF). by exists F'.
Qed.

(** The frame succeeded, or failed with an error that leaves nothing. *)
Definition clean (o : RecOp) (r : result (list Z * bool) string) : Prop :=
  match r with Ok _ => True | Err e => e ∉ op_leaks o end.

Lemma rec_ops_safe kind ops r c F :
  rec_ok kind r -> no_maps F ->
  safe L0 (rec_ops kind ops) (r, c) (rec_held r F)
    (fun x' L' res => exists F' rs, rec_ok kind x'.1 /\ L' = rec_held x'.1 F' /\ grown F F' /\ res = Ok rs /\
       (c <> None -> Forall2 clean ops rs -> F' = F)).
Proof.
  revert r c F. induction ops as [|o ops IH]; intros r c F Hr HF; cbn [rec_ops].
  - apply safe_ret. exists F, []. split_and!; try done. apply grown_refl.
  - apply safe_bind, safe_attempt. eapply safe_mono; [by apply rec_op_safe|].
    cbv beta. intros [r1 c1] L1 res (Hs & Hg & Hc). cbn [fst snd] in Hs, Hc.
    rewrite <- (same_recorder_held _ _ F Hs) in Hg, Hc. apply spent_rec in Hg as (F1 & -> & HF1 & Heq).
    apply safe_bind. eapply safe_mono; [apply IH; [by eapply same_recorder_ok|by eapply grown_maps]|].
    cbv beta. intros x2 L2 res2 (F2 & rs & Hr2 & -> & HF2 & -> & Hc2). apply safe_ret.
    exists F2, (res :: rs). split_and!; try done; [by eapply grown_trans|].
    intros Hn Hall. inversion Hall as [|? ? ? ? H1 H2]; subst. destruct (Hc Hn) as [-> [_ Hsp]].
    rewrite (Hc2 Hn H2). apply Heq. destruct Hsp as [?|Hsp]; [done|]. exfalso.
    destruct res as [d|e]; [done|]. by apply H1.
Qed.
End Lives.

(** C21: a Vulkan recorder, Main or lossless, from its opening to its drop, with any frames in between and
    whatever the driver answers: every object is used, and released once, while it and its
    device are alive, memory is written and read where it is mapped, and a descriptor that
    was imported is the driver's. If the recorder opened, the importable modifiers were known
    and no frame failed with one of the errors listed for it, nothing is left of it. *)
Theorem recorder_releases `{Driver vk_call} kind c width height ops :
  exists K, replay ∅ (recorder_life kind c width height ops).1 = Some K /\
    (c <> None -> forall rs, (recorder_life kind c width height ops).2 = Some rs -> Forall2 clean ops rs -> K = ∅).
Proof.
  unfold recorder_life.
  pose proof (vk_try_new_safe ∅ kind c width height ∅ [] eq_refl) as Ho.
  destruct (recorder_try_new kind width height (c, [])) as [[c1 t] [r|e]]; destruct Ho as (L & HL & -> & HQ);
    [|exists L; split; [exact HL|done]].
  destruct HQ as [Hr ->].
  assert (Hn : no_maps ∅) by (intros d m s Hs; multiset_solver).
  pose proof (rec_ops_safe ∅ kind ops r c ∅ Hr Hn t HL) as Hf.
  destruct (rec_ops kind ops ((r, c), t)) as [[[r1 c2] t1] res].
  destruct Hf as (L1 & HL1 & F1 & rs & Hr1 & -> & _ & -> & Hc). cbn [fst snd] in *.
  pose proof (vk_recorder_drop_safe ∅ kind c2 r1 F1 Hr1 t1 HL1) as Hd.
  destruct (recorder_drop r1 (c2, t1)) as [[c3 t2] u]. destruct Hd as (L2 & HL2 & _ & -> & _).
  exists F1. split; [exact HL2|]. intros Hcn rs' [= <-] Hcl. by apply Hc.
Qed.

(** ** Images for the packet encoders *)

Section Images.
Context `{Driver vk_call} (L0 : vk_live) (cx : VkDeviceCtx).
Abbreviation dev := (cx_device cx).

(** An image with its memory when there is one, nothing otherwise. *)
Definition image_made (c : Cache) (F : vk_live) (c' : Cache) (L' : vk_live) (r : result ImportedDmabufImage string) : Prop :=
  c' = c /\
  match r with
  | Ok im => L' = {[+ RObj dev KMemory (im_memory im) +]} ⊎ ({[+ RObj dev KImage (im_image im) +]} ⊎ F)
  | Err _ => L' = F
  end.

Lemma imported_destroy_safe c im F :
  RDevice dev ∈ F ->
  safe L0 (imported_destroy cx im) c
    ({[+ RObj dev KMemory (im_memory im) +]} ⊎ ({[+ RObj dev KImage (im_image im) +]} ⊎ F))
    (fun c' L' r => c' = c /\ L' = F /\ r = Ok ()).
Proof. intros Hd. unfold imported_destroy. vk_run. vk_units. done. Qed.

Lemma import_transfer_src_safe c dma F :
  RDevice dev ∈ F -> RInstance (cx_instance cx) ∈ F -> c <> None ->
  safe L0 (import_dmabuf_as_transfer_src cx dma) c F (image_made c F).
Proof.
  intros Hd Hi Hc. unfold import_dmabuf_as_transfer_src. cbv zeta. apply safe_bind.
  eapply safe_mono; [apply modifier_safe|]. cbv beta. intros c1 L1 [ok|e] (_ & Hok & Hk); [|done].
  destruct (Hk Hc) as [-> ->]. destruct ok; cbn [negb]; [|by apply safe_fail].
  destruct (drm_to_vk _) as [format|]; [|by apply safe_fail].
  apply safe_bind. eapply safe_mono; [by apply import_image_safe|].
  cbv beta. intros c2 L2 [[image memory]|e] [-> HL]; subst L2; [|done]. cbn [fst snd]. vk_run; done.
Qed.

(** What a linear image of this size looks like: a row takes at least its pixels, and all rows
    fit into the memory the image requires. *)
Class LinearLayout (width height : Z) := linear_layout : forall t t' image,
  let '(offset, pitch) := respond _ t' (SubresourceLayout dev image) in
  0 <= offset /\ width * 4 <= pitch /\ offset + pitch * height < 2 ^ 64 /\
  offset + pitch * (height - 1) + width * 4 <= fst (respond _ t (ImageRequirements dev image)).

Lemma write_rows_safe c memory offset pitch width height size bgra F :
  0 <= offset -> 0 <= width * 4 <= pitch -> 0 < height -> offset + pitch * height < 2 ^ 64 ->
  offset + pitch * (height - 1) + width * 4 <= size ->
  safe L0 (write_rows dev memory offset pitch (width * 4) height bgra) c
    ({[+ RMapped dev memory size +]} ⊎ F)
    (fun c' L' r => c' = c /\ L' = {[+ RMapped dev memory size +]} ⊎ F /\ r = Ok ()).
Proof.
  intros Ho Hw Hh Hlt Hs. unfold write_rows.
  assert (Hrows : Forall (fun row => 0 <= row < height) (seqZ 0 height)).
  { apply list.Forall_forall. intros row. rewrite elem_of_seqZ. lia. }
  revert Hrows. generalize (seqZ 0 height) as rows. induction rows as [|row rows IH]; intros Hrows; cbn [each].
  { by apply safe_ret. }
  apply list.Forall_cons in Hrows as [Hrow Hrows]. apply safe_bind, safe_ask. intros [].
  eexists. split; [|exact (IH Hrows)].
  cbn [effect vk_effects]. rewrite provided_true; [done|]. unfold as_u.
  assert (0 <= row * pitch) by nia. assert (row * pitch <= pitch * (height - 1)) by nia.
  rewrite (Z.mod_small (row * pitch)), (Z.mod_small (offset + _)) by lia. apply andb_true_iff. split; [lia|].
  apply mapped_enough. rewrite length_take, length_drop. lia.
Qed.

(** The rows of an upload are written inside of what is mapped. *)
Lemma upload_image_safe c bgra width height F `{!LinearLayout width height} :
  0 < width < 2 ^ 31 -> 0 < height < 2 ^ 31 -> RDevice dev ∈ F -> RInstance (cx_instance cx) ∈ F -> no_maps F ->
  safe L0 (upload_bgra_to_transfer_src cx bgra width height) c F (image_made c F).
Proof.
  intros Hw Hh Hd Hi Hn. unfold upload_bgra_to_transfer_src. cbv zeta.
  assert (Hrow : as_u 64 (width * 4) = width * 4) by (unfold as_u; rewrite Z.mod_small; lia). rewrite Hrow.
  destruct (_ <? _); [by apply safe_fail|].
  unfold need. apply safe_bind, safe_bind, safe_ask. intros image. eexists. split; [vk_effect|].
  destruct image as [image|]; [apply safe_ret|by apply safe_fail].
  apply safe_bind, safe_ask_law. intros t. eexists. split; [vk_effect|].
  remember (respond _ t (ImageRequirements dev image)) as req eqn:Ereq.
  apply safe_bind, safe_ask. intros props. eexists. split; [vk_effect|].
  destruct (pick_memory_type _ _ _) as [ty|]; [|vk_run; done].
  apply safe_bind, safe_ask. intros memory. eexists. split; [vk_effect|].
  destruct memory as [memory|]; [|vk_run; done].
  apply safe_bind, safe_ask. intros bound. eexists. split; [vk_effect|].
  destruct bound; cbn [negb]; [|vk_run; done].
  apply safe_bind, safe_ask_law. intros t'. eexists. split; [vk_effect|].
  pose proof (linear_layout t t' image) as Hl. rewrite <- Ereq in Hl.
  destruct (respond _ t' (SubresourceLayout dev image)) as [offset pitch]. destruct Hl as (Ho & Hp & Hlt & Hfit).
  assert (Hsize : offset + pitch * (height - 1) + width * 4 <=
    Z.min (as_u 64 (offset + as_u 64 (pitch * height))) (fst req)).
  { unfold as_u. rewrite (Z.mod_small (pitch * height)), (Z.mod_small (offset + _)) by nia. lia. }
  set (size := Z.min _ _) in *.
  set (L := {[+ RObj dev KMemory memory +]} ⊎ ({[+ RObj dev KImage image +]} ⊎ F)).
  assert (HL : no_maps L) by (eapply grown_maps; [|exact Hn]; below).
  apply safe_bind, safe_ask. intros mapped. eexists. split.
  { cbn [effect vk_effects]. rewrite provided_true; [reflexivity|]. rewrite not_mapped by done. unfold L. vk_side. done. }
  destruct mapped; cbn [negb]; [|unfold L; vk_run; done].
  apply safe_bind. eapply safe_mono; [apply write_rows_safe; [done| |lia|done|exact Hsize]; lia|].
  cbv beta. intros c1 L1 u (-> & -> & ->). apply safe_bind, safe_ask. intros []. exists L.
  split; [cbn [effect vk_effects]; by apply unmap_mapped|]. by apply safe_ret.
Qed.
End Images.

(** ** A driver that answers *)

(** Handles are counted; [fails] says which creations, bindings and waits do not succeed. *)
Definition calm_vulkan (fails : forall A : Set, vk_call A -> bool) : Driver vk_call := fun A t c =>
  let h := Z.of_nat (length t) in
  match c in vk_call T return bool -> T with
  | EnvVar _ => fun _ => None
  | GpuWedged => fun _ => false
  | DynamicQp => fun _ => -1
  | Dup _ => fun _ => h
  | CloseFd _ => fun _ => ()
  | EntryLoad => negb
  | CreateInstance _ | CreateMessenger _ | CreateDevice _ _ _ _ | Create _ _ | AllocateSet _ _ _
  | AllocateCommands _ _ => fun b => if b then None else Some h
  | DestroyMessenger _ _ | DestroyInstance _ | DestroyDevice _ | Destroy _ _ _ | WriteMapped _ _ _ _
  | UnmapMemory _ _ | UpdateSet _ _ _ _ | Command _ _ _ => fun _ => ()
  | EnumeratePhysicalDevices _ => fun b =>
      if b then None
      else Some [ {| pd_name := "gpu"; pd_extensions := Ok (REQUIRED_DEVICE_EXTENSION_NAMES ++ DMABUF_IMPORT_EXTENSION_NAMES);
                     pd_queues := [ {| qf_encode := true; qf_compute := true |} ] |} ]
  | DeviceExtensions _ _ => fun _ => Some (REQUIRED_DEVICE_EXTENSION_NAMES ++ DMABUF_IMPORT_EXTENSION_NAMES)
  | MemoryProperties _ _ => fun _ => [7]
  | VideoCapabilities _ _ _ => fun b => if b then None else Some H264_ENCODE_STD_HEADER
  | VideoFormatCount _ _ _ _ => fun _ => Some 1
  | VideoFormats _ _ kind _ _ => fun _ => Some (1, [(picture_format kind, 0)])
  | ModifierCount _ _ => fun _ => 1
  | Modifiers _ _ _ => fun _ => [(5, 1)]
  | ImageFormatOk _ _ _ _ => negb
  | DeviceQueue _ f => fun _ => f
  | SessionMemoryCount _ _ => fun _ => 1
  | SessionMemory _ _ _ => fun b => if b then None else Some [(0, 4096, 1)]
  | EncodedParametersSize _ _ => fun b => if b then None else Some 16
  | EncodedParameters _ _ _ => fun b =>
      if b then None else Some (16, [0; 0; 0; 1; 103; 100; 0; 31; 0; 0; 0; 1; 104; 1; 2; 3])
  | ImageRequirements _ _ | BufferRequirements _ _ => fun _ => (4096, 1)
  | SubresourceLayout _ _ => fun _ => (0, 256)
  | ReadMapped _ _ _ => fun _ p => p
  | QueryResults _ _ => fun b => if b then None else Some (0, 3, 1)
  | DeviceWaitIdle _ | BindSessionMemory _ _ _ | BindImage _ _ _ | BindBuffer _ _ _ | MapMemory _ _ _ _
  | ResetDescriptorPool _ _ | ResetCommands _ _ | BeginCommands _ _ | EndCommands _ _ | ResetFence _ _
  | Submit _ _ _ _ _ _ | WaitFence _ _ _ => negb
  end (fails A c).

(** What is left of a life, if nothing was misused. *)
Definition left_of (fails : forall A : Set, vk_call A -> bool) (kind : EncodeKind) (ops : list RecOp) :=
  let l := @recorder_life (calm_vulkan fails) kind (Some [0]) 2 2 ops in
  (option_map elements (replay ∅ l.1), l.2).

Definition demo_frame : DmabufBufferData :=
  {| db_fd := 3; db_offset := 0; db_stride := 8; db_extra_planes := []; db_width := 2; db_height := 2;
     db_drm_format := DRM_FORMAT_ARGB8888; db_modifier := 0 |}.
Definition demo_ops : list RecOp := [EncodeIdr (inr (replicate 16 0)); Encode (inl demo_frame) true; Encode (inl demo_frame) false].
Definition nothing_fails (A : Set) (_ : vk_call A) : bool := false.
Definition no_semaphores (A : Set) (c : vk_call A) : bool := match c with Create _ ISemaphore => true | _ => false end.

Lemma recorder_releases_witness :
  Forall2 clean demo_ops [Ok ([0; 1; 2], true); Ok ([0; 1; 2], true); Ok ([0; 1; 2], false)] /\
  (recorder_life (H := calm_vulkan nothing_fails) Main420 (Some [0]) 2 2 demo_ops).2 =
    Some [Ok ([0; 1; 2], true); Ok ([0; 1; 2], true); Ok ([0; 1; 2], false)] /\
  replay ∅ (recorder_life (H := calm_vulkan nothing_fails) Main420 (Some [0]) 2 2 demo_ops).1 = Some ∅.
Proof.
  assert (Hc : Forall2 clean demo_ops [Ok ([0; 1; 2], true); Ok ([0; 1; 2], true); Ok ([0; 1; 2], false)])
    by (repeat constructor).
  assert (Hr : (recorder_life (H := calm_vulkan nothing_fails) Main420 (Some [0]) 2 2 demo_ops).2 =
    Some [Ok ([0; 1; 2], true); Ok ([0; 1; 2], true); Ok ([0; 1; 2], false)]) by (vm_compute; reflexivity).
  split; [exact Hc|]. split; [exact Hr|].
  destruct (recorder_releases (H := calm_vulkan nothing_fails) Main420 (Some [0]) 2 2 demo_ops) as (K & HK & Hn).
  rewrite HK. f_equal. exact (Hn (fun E => match E with end) _ Hr Hc).
Defined.

(** Each frame that fails between its import and its encoding leaves image, memory, view and
    pool behind. *)
Example failed_frames_pile_up :
  (fun l => (length l, length (List.filter (fun r => match r with RObj _ KImage _ => true | _ => false end) l)))
    <$> (left_of no_semaphores Main420 demo_ops).1 = Some (9, 2)%nat.
Proof. vm_compute. reflexivity. Qed.

(** A device that cannot be created leaves the instance. *)
Definition no_device (A : Set) (c : vk_call A) : bool := match c with CreateDevice _ _ _ _ => true | _ => false end.
Example failed_open_keeps_instance :
  left_of no_device Main420 demo_ops = (Some [RInstance 2], None).
Proof. vm_compute. reflexivity. Qed.

(** A lossless picture whose fence is not signalled in time leaves semaphore and pool. *)
Definition late_fences (A : Set) (c : vk_call A) : bool := match c with WaitFence _ _ _ => true | _ => false end.
Example late_lossless_picture :
  option_map (map (fun r => match r with RObj _ k _ => Some k | _ => None end))
    (left_of late_fences Hi444Lossless [EncodeLossless (replicate 16 0)]).1 = Some [Some KCommandPool; Some KSemaphore].
Proof. vm_compute. reflexivity. Qed.

(** The kinds of objects that are destroyed after a wait has failed and before the drop of the
    recorder waits once more: the submitted commands may still use them. *)
Fixpoint destroyed_after_wait (waited : bool) (t : list vk_event) : list VkKind :=
  match t with
  | [] => []
  | Ev _ c a :: t =>
      match c in vk_call T return T -> list VkKind with
      | WaitFence _ _ _ => fun ok => if ok || waited then [] else destroyed_after_wait true t
      | Destroy _ k _ => fun _ => if waited then k :: destroyed_after_wait waited t else destroyed_after_wait waited t
      | _ => fun _ => destroyed_after_wait waited t
      end a
  end.
Example late_picture_destroyed :
  destroyed_after_wait false
    (recorder_life (H := calm_vulkan late_fences) Main420 (Some [0]) 2 2 [EncodeIdr (inl demo_frame)]).1 =
  [KSemaphore; KCommandPool; KView; KImage; KMemory].
Proof. vm_compute. reflexivity. Qed.

Lemma calm_linear fails cx : LinearLayout (H := calm_vulkan fails) cx 2 2.
Proof. intros t t' image. change (0 <= 0 /\ 2 * 4 <= 256 /\ 0 + 256 * 2 < 2 ^ 64 /\ 0 + 256 * (2 - 1) + 2 * 4 <= 4096). lia. Qed.
